(* ===== verification/_CoqProject ===== *)
-Q . S2P
Prelude.v
RustStr.v
Wal.v
WalSpec.v
WalRead.v
WalProps.v
Crypto.v
Transition.v
TransitionCodec.v
TransitionInv.v
TransitionProps.v
SnapshotDurability.v
Ledger.v
LedgerProps.v
Checkpoint.v
CheckpointProps.v
ProofPath.v
ProofPathProps.v
Governance.v
GovernanceProps.v
RustOrd.v
Float.v
Crdt.v
CrdtProps.v
Noetic.v
NoeticProps.v
Consensus.v
ConsensusProps.v
Security.v
Views.v
RustText.v
Lql.v
LqlProps.v
NodeCell.v
Trs.v
Json.v
StreamCodec.v
Peers.v
Collections.v
Seeds.v
Symmetry.v
FieldTypes.v
Feedback.v
Variant.v
Resonant.v
Journal.v
Field.v
FieldOps.v
FieldRoute.v
FieldTick.v
FieldInv.v
FieldReplay.v
FieldSteps.v
FieldTickInv.v
FieldSound.v
FieldDream.v
FieldComponents.v
FieldDreamProps.v
FieldAwaken.v
FieldLql.v
FieldCycles.v
FieldProps.v
LifeLoop.v
LifeProps.v
StoreFiles.v
Snapshot.v
Database.v
FieldCodec.v
DatabaseProps.v
Protocol.v
BridgeEvents.v
Bridge.v
BridgeProps.v
BridgeNoetic.v
Server.v
Echo.v
Cli.v
CliProps.v
Sdk.v
Sal.v
