(* ===== verification/Prelude.v ===== *)
(** * LiminalDB: a verification library

    LiminalDB keeps a graph of cells (the cluster field) that impulses excite and ticks age, writes every change of it to a
    journal on disk, and offers it to hosts over a C interface, a WebSocket server and a command line. Beside the field
    it has ledgers of evidence (transitions, checkpoints, ProofPath records) on the same write-ahead log, and replicated
    state with a consensus engine for peers. This library translates these programs, crate by crate, into
    executable definitions and proves what makes them correct. Paths are below [liminal-db/crates/] unless a full path
    is given.

    ** The parts and where they are modelled

    Foundations, which model the standard library the sources use. This file: results, wrapping and saturating integers,
    bytes, lists. [RustStr], [RustText]: strings as the bytes of UTF-8, trimming, splitting, hexadecimal and decimal texts,
    parsing and printing of numbers, case conversion. [RustOrd]: [Ord] with its laws and the order of a [BTreeMap].
    [Float]: IEEE 754 numbers as the Standard Library's [spec_float], and the functions of a math library as a parameter.
    [Json]: [serde_json::Value] and the conversions to it. [Collections]: the visits of a [HashMap] in an unspecified
    order ([HashOrder]), stable sorting, loops over keys. [Crypto]: the classes for serializers, hashes and signatures,
    and one concrete serializer.

    The store, [liminal-store/src]. [Wal] ([wal.rs], [gc.rs]): segments of frames with checksums, recovery of a torn tail,
    rotation, streams, compaction. [WalSpec], [WalRead], [WalProps]: the segmented log it implements. [StoreFiles]: the
    manifest, the names of snapshots, the directories and the lock. [SnapshotDurability] ([snapshot_durability.rs]): the
    replacement of a file under every schedule of failing and killed file system calls.

    The ledgers, [liminal-store/src]. [Transition] ([trustworthy_transition.rs]): the records and [apply_event];
    [TransitionInv], [TransitionProps]: the invariant, the exact conditions of a record, replay; [TransitionCodec]: a
    concrete log. [Ledger], [LedgerProps]: the ledger over its store, with snapshots and the poisoned flag. [Checkpoint],
    [CheckpointProps] ([checkpoint.rs]): signed checkpoints, chains, anchors. [ProofPath], [ProofPathProps]
    ([proofpath_durable.rs]): a ledger of evidence per name space. [Governance], [GovernanceProps]
    ([governance_checkpoint_bridge.rs]): envelope, transition, checkpoint and receipt as one operation.

    The field, [liminal-core/src]. [NodeCell] ([node_cell.rs], [types.rs], [seed.rs]): a cell. [Trs] ([trs.rs]): the
    controller of the tempo. [Seeds] ([seeds.rs], [seeds_metrics.rs]), [Symmetry] ([symmetry.rs], [reflex/legacy.rs]), [Feedback]
    ([reflex/feedback.rs]), [Variant] ([variant.rs]), [Resonant] ([resonant.rs], [mirror.rs]), [Views] ([views.rs]):
    the subsystems, each with its own state; [FieldTypes]: the records they exchange. [Lql], [LqlProps] ([lql.rs]): the query language.
    [Security] ([security.rs]): access and rates. [Journal] ([journal.rs]): the deltas. [Field]
    ([cluster_field.rs]): the record of the whole field, in five groups; [FieldOps]: index, links, hits, roots;
    [FieldRoute]: impulses and reflexes; [FieldTick]: ticks and [apply_delta]; [FieldDream] ([dream_engine.rs],
    [synchrony.rs]): dreams; [FieldAwaken] ([awakening.rs], [recursion.rs], [morph_mind.rs], [summaries.rs]): models,
    awakening, feedback, replays of epochs, reports; [FieldLql]: [exec_lql]. [LifeLoop] ([life_loop.rs]): one round of the loop
    that drives the field. [FieldInv], [FieldReplay], [FieldSteps], [FieldTickInv], [FieldSound], [FieldCycles]: every
    operation keeps the field well formed and is accounted for by the journal; [FieldProps], [FieldComponents],
    [FieldDreamProps], [LifeProps]: the theorems about runs.

    The field on disk. [Snapshot] ([liminal-store/src/snapshot.rs]): a snapshot of a field, and what it keeps. [Database]
    ([journal_impl.rs], and the start and the snapshot loop that [liminal-cli/src/main.rs] and [liminal-bridge-abi/src/ffi.rs]
    share): a field with its journal. [FieldCodec]: a concrete serializer for it. [DatabaseProps]: restarts and
    crashes.

    Peers, [liminal-bridge-net/src]. [Crdt], [CrdtProps] ([noetic/crdt.rs]); [Noetic], [NoeticProps] ([noetic/state.rs]);
    [Consensus], [ConsensusProps] ([noetic/consensus.rs]); [Peers] ([peers.rs]); [StreamCodec] ([stream_codec.rs]);
    [Server] ([lib.rs], [ws_server.rs]): the hub and the connections.

    The faces of the system. [Protocol] ([liminal-bridge-abi/src/protocol.rs]) and [Bridge] ([ffi.rs]): the C
    interface, with [BridgeProps], [BridgeEvents], [BridgeNoetic]. [Echo] ([liminal-core/src/echo.rs], [nlu.rs]): intents.
    [Cli], [CliProps] ([liminal-cli/src/main.rs], [liminal-bridge-net/src/ws_client.rs]): the command line, which is a console, a
    server of the network and a pipe. [Sdk] ([sdk/rust/src]): the client library. [Sal] ([liminal-sal], [sal-adapters/sled]): the
    storage abstraction.

    ** How the state and the operations correspond to the code

    A struct is a [Record] and an enum an [Inductive] with the constructors of the source (renamed where a name is taken in
    Rocq or by another file). A method [T::f(&mut self, ...)] is a function that takes the record last and returns the new one
    beside its answer; [Result] is [result], and what an operation leaves behind after an error is in the state it returns.
    Names are the source's; [ClusterField] is grouped into [Graph], [Traffic], [Control], [Cycles] and the rest, and the setters of its
    fields are definitions. The journal of a field is the list of deltas it emitted; the operations that run under the field's lock
    move them to the disk journal at their end. Integers have their width: [u64_add] and its kin wrap
    as in a release build, [saturating_*] and [checked_*] are written out. [f32] and [f64] round as IEEE 754 says. A
    panic the source can reach is [None], or a constructor of the answer.

    Concurrency is interleaving. The locks of the source make a method of the disk journal, a call of the C interface, a
    command, a round of the life loop (while it holds the mutex) and a snapshot one step each, and runs
    ([field_step], [life_step], [db_step], [bridge_step], [server_step], [cli_step], [client_run], [sal_run]) are arbitrary
    sequences of such steps.
    A connection of the WebSocket server is its task and the three it spawns, each of which may end on its own. The
    theorem on the life loop lets its clients do anything between the rounds; only the spacing of the logs needs
    clients that do not dream themselves.
    The writing of a periodic snapshot and the compaction after it are one step; the channel of impulses is a queue.

    ** What the theorems show

    Durability: [wal_append_refines], [wal_run_reads_log], [wal_recovery_sound], [wal_gc_safe] (a log is the list of its
    records whatever fails and restarts, except that a payload cut in its middle is refused at the next start), [snapshot_replace_crash_safe], [ledger_run_durable], [ledger_failed_append],
    [proofpath_run_durable], [database_crash_keeps_prefix], [snapshot_restores_field], [bridge_recovers], [cli_recovers],
    [sled_refines] (a torn frame ends a run of records). What brings a field back requires that no cell has a NaN energy
    where the code trims, and that an empty field is not restarted. Each of the layers is proved against the abstract description of the one below: a segmented log, an event log,
    a stored field, a process that is driven from outside.

    Evidence: [transition_replay_refines], [transition_apply_exact], [transition_never_rolls_back],
    [checkpoint_chain_advances], [checkpoint_anti_rollback], [proofpath_boundary], [governance_checkpoint_end_to_end].

    The field: [field_invariant], [journal_rebuilds_field], [recent_hits_exact], [dream_keeps_bounds],
    [sync_groups_exact], [exec_lql_exact], [seed_lifecycle], [life_loop_paced], [echo_exact], [intent_text_served];
    the query language: [lql_roundtrip], [lql_well_formed].

    Peers: [noetic_converges], [consensus_commit_once], [consensus_newest_vote], [handshake_exact],
    [stream_codec_exact], [noetic_propose_commits], [access_authorize_history].

    Interfaces: [bridge_delivers], [bridge_sees_lifecycle], [ws_command_arrives], [network_refines_bridge], [args_exact],
    [pipe_delivers], [client_accounts], and [sdk_and_server_disagree], which says that the server understands nothing
    of what the client library sends, and when the library understands what the server sends. Other places where the code does not do what it or a document says are examples or
    lemmas near the definitions they are about.

    ** Bounds and fuel

    Recursion on the bytes of a file (recovery, streams, the frames of [Sal]) has the length of the file as fuel: a frame takes at
    least four bytes; [wal_recovery_sound] and the reading lemmas show that it is enough. Splitting and parsing of
    texts and the clauses of a query have the length of what is left; the round trips show that it is enough. The depth-first
    search of [FieldDream] has as fuel one more than the cells and the ends of the links together, since every turn takes one entry from the
    stack, and [sync_groups_exact] shows that it finds whole components. Other recursion
    is structural. Theorems about counters assume room for the steps of the run below 2^64 ([room], [roomy] and their
    kin): identifiers, offsets and clocks are 64-bit.

    ** Parameters

    Code outside the repository is a class, with its documented behaviour as a separate class of laws where a theorem needs it: the
    serializers ([Cbor], [CborOk]; [JsonText], [JsonTextOk]; [QueryJson]; [WsEnv]; [EventReader]; [EnvelopeOk], [SameText]),
    [Crc32], [Sha256], [Ed25519], BLAKE3 (arguments and fields of the environments), the tables of Unicode ([UnicodeCase], [CaseStable]),
    the generator of a seed ([SeedRng]), [FloatMath], the engine of regular expressions ([RegexEngine], [RegexOk]), [Sled], and
    the displays and error texts of other crates ([BridgeEnv], [CliEnv], [LifeEnv], [EchoText]). No theorem assumes that
    a hash is injective: where two contents could collide the statement says so. Random draws, clock
    readings, elapsed times, drawn identifiers, orders of hash maps and answers of sockets are inputs of the steps
    ([LifeInput], [PushInput], [LineInput] and others), so that a theorem holds for all of them. Every class is
    instantiated by concrete functions in the witnesses.

    A crash is the loss of the process. An append to the log meets an [AppendFault]: one of the hooks of the source, a rotation
    that fails before or after it has created its file, a write that is cut after any number of bytes, or a failing
    [sync]; an append of [Sal] may be cut in the same way. [sync_all] and its kin are calls that can fail but change nothing; what a machine
    that loses power may lose beyond that is not modelled, except that a write that is cut short leaves a prefix.

    ** Not modelled

    [liminal-bridge-abi/src/wasm.rs]: the second host interface repeats the first with fewer commands; as it stands it lacks
    arms of its match and cannot be compiled for its target. [liminal-sensor/src/host.rs]: reads the machine's load and sends
    impulses, no logic of its own. The sockets of [ws_client.rs] and [ws_server.rs], the async runtime and its channels:
    their events are inputs. [liminal-store/src/durability.rs] and [store_debug.rs]: test failpoints, which enter as crash states, and a
    [Debug] text. [liminal-core/src/reflex/legacy.rs]'s log of mirror impulses and the tracing output: text without effect. The
    generator of the protocol crate ([protocol/]), the conformance runner, benchmarks, examples, scripts, tools and the TypeScript SDK: outside
    the core, generators of or clients to what is modelled. The [#[cfg(test)]] modules: tests. *)

From stdpp Require Import prelude gmap strings list sorting.
From coqutil Require Import Byte Word.LittleEndianList.
From Stdlib Require Import ZArith Lia.

(** ** Results

    Rust's [Result<A, E>]; [let!] is the [?] operator. *)
Inductive result (A E : Type) : Type :=
| Ok (a : A)
| Err (e : E).
Arguments Ok {A E} a.
Arguments Err {A E} e.

Definition rbind {A B E : Type} (r : result A E) (k : A -> result B E) : result B E :=
  match r with
  | Ok a => k a
  | Err e => Err e
  end.

(** [Result::map_err] followed by [?]. *)
Definition map_err {A E F : Type} (f : E -> F) (r : result A E) : result A F :=
  match r with
  | Ok a => Ok a
  | Err e => Err (f e)
  end.

(** [Option::ok_or]. *)
Definition ok_or {A E : Type} (o : option A) (e : E) : result A E :=
  match o with
  | Some a => Ok a
  | None => Err e
  end.

Definition is_ok {A E : Type} (r : result A E) : bool :=
  match r with
  | Ok _ => true
  | Err _ => false
  end.

(** A loop [for x in xs { f(x)?; }] whose body only validates. *)
Fixpoint for_each {A E : Type} (f : A -> result unit E) (xs : list A) : result unit E :=
  match xs with
  | [] => Ok tt
  | x :: rest => rbind (f x) (fun _ => for_each f rest)
  end.

(** A loop [for x in xs { state.step(x)?; }] over a mutable state. *)
Fixpoint fold_result {S A E : Type} (step : S -> A -> result S E) (s : S) (xs : list A)
  : result S E :=
  match xs with
  | [] => Ok s
  | x :: rest => rbind (step s x) (fun s' => fold_result step s' rest)
  end.

Declare Scope rust_scope.
Delimit Scope rust_scope with rust.
Notation "'let!' x ':=' c 'in' k" := (rbind c (fun x => k))
  (at level 10, x name, c at level 100, k at level 200) : rust_scope.
Notation "'check!' c 'in' k" := (rbind c (fun _ => k))
  (at level 10, c at level 100, k at level 200) : rust_scope.
Open Scope rust_scope.

Global Instance result_eq_dec {A E : Type} `{EqDecision A, EqDecision E} : EqDecision (result A E).
Proof. solve_decision. Defined.

(** ** Machine integers

    A [u64] or a [u32] is a [Z] in range; arithmetic that can leave the range is written with
    the operation the source uses. [+] and [+=] are the wrapping operation of a release build. *)
Definition u64_size : Z := 2 ^ 64.
Definition u32_size : Z := 2 ^ 32.
Definition u64_max : Z := u64_size - 1.
Definition u32_max : Z := u32_size - 1.

Definition u64_add (a b : Z) : Z := (a + b) `mod` u64_size.
Definition u64_saturating_add (a b : Z) : Z := Z.min (a + b) u64_max.
Definition u64_saturating_sub (a b : Z) : Z := Z.max (a - b) 0.
Definition u64_checked_add (a b : Z) : option Z :=
  if (a + b <? u64_size)%Z then Some (a + b)%Z else None.
Definition u32_add (a b : Z) : Z := (a + b) `mod` u32_size.
Definition u32_saturating_add (a b : Z) : Z := Z.min (a + b) u32_max.
Definition u32_saturating_sub (a b : Z) : Z := Z.max (a - b) 0.

Definition is_u64 (a : Z) : Prop := (0 <= a < u64_size)%Z.
Definition is_u32 (a : Z) : Prop := (0 <= a < u32_size)%Z.

Lemma u64_add_small a b : (0 <= a + b < u64_size)%Z -> u64_add a b = (a + b)%Z.
Proof. intros H. unfold u64_add. apply Z.mod_small. exact H. Qed.

Lemma u64_checked_add_small a b :
  (a + b < u64_size)%Z -> u64_checked_add a b = Some (a + b)%Z.
Proof. intros H. unfold u64_checked_add. destruct (Z.ltb_spec (a + b) u64_size); [done | lia]. Qed.

Lemma u64_checked_add_some a b v : u64_checked_add a b = Some v -> v = (a + b)%Z.
Proof. unfold u64_checked_add. destruct (a + b <? u64_size)%Z; congruence. Qed.

(** ** Byte strings *)
Abbreviation bytes := (list Byte.byte).

Global Instance byte_eq_dec : EqDecision Byte.byte.
Proof. intros x y. unfold Decision. apply Byte.byte_eq_dec. Defined.

Definition blen (b : bytes) : Z := Z.of_nat (length b).

(** [u32::to_le_bytes] and [u32::from_le_bytes]. *)
Definition to_le_bytes32 (v : Z) : bytes := le_split 4 v.
Definition from_le_bytes32 (b : bytes) : Z := le_combine b.

Lemma length_to_le_bytes32 v : length (to_le_bytes32 v) = 4.
Proof. apply length_le_split. Qed.

Lemma from_to_le_bytes32 v : is_u32 v -> from_le_bytes32 (to_le_bytes32 v) = v.
Proof.
  intros Hv. unfold from_le_bytes32, to_le_bytes32. rewrite le_combine_split.
  apply Z.mod_small. exact Hv.
Qed.

Lemma from_le_bytes32_range b : length b = 4 -> is_u32 (from_le_bytes32 b).
Proof.
  intros Hb. unfold from_le_bytes32, is_u32, u32_size.
  pose proof (le_combine_bound b) as H. rewrite Hb in H. exact H.
Qed.

(** ** Lists *)

(** [Vec::dedup]: drops consecutive repetitions. *)
Fixpoint dedup {A : Type} `{EqDecision A} (l : list A) : list A :=
  match l with
  | [] => []
  | x :: rest =>
      match rest with
      | [] => [x]
      | y :: _ => if decide (x = y) then dedup rest else x :: dedup rest
      end
  end.

(** [slice::windows(2)]. *)
Fixpoint windows2 {A : Type} (l : list A) : list (A * A) :=
  match l with
  | [] => []
  | x :: rest =>
      match rest with
      | [] => []
      | y :: _ => (x, y) :: windows2 rest
      end
  end.

(** ** Automation *)
Create HintDb liminal.
#[export] Hint Resolve from_to_le_bytes32 length_to_le_bytes32 : liminal.
Create Rewrite HintDb blen.

(** Case analysis on every [?] and every [if]/[match] guard of a hypothesis [H : f x = Ok y]. *)
Ltac rinv H :=
  repeat (
    match type of H with
    | rbind ?c _ = Ok _ =>
        let E := fresh "E" in destruct c eqn:E; cbn [rbind] in H; [| discriminate H]
    | (if ?b then Err _ else _) = Ok _ =>
        let E := fresh "E" in destruct b eqn:E; [discriminate H |]
    | (if ?b then _ else Err _) = Ok _ =>
        let E := fresh "E" in destruct b eqn:E; [| discriminate H]
    | match ?c with Ok _ => _ | Err _ => Err _ end = Ok _ =>
        let E := fresh "E" in destruct c eqn:E; [| discriminate H]
    | match ?c with Some _ => _ | None => Err _ end = Ok _ =>
        let E := fresh "E" in destruct c eqn:E; [| discriminate H]
    | match ?c with Some _ => Err _ | None => _ end = Ok _ =>
        let E := fresh "E" in destruct c eqn:E; [discriminate H |]
    end; cbn beta in H).

(** Boolean guards turned into propositions. *)
Ltac bool_prop :=
  repeat match goal with
  | H : orb _ _ = false |- _ => apply orb_false_iff in H; destruct H
  | H : andb _ _ = true |- _ => apply andb_true_iff in H; destruct H
  | H : negb _ = false |- _ => apply negb_false_iff in H
  | H : negb _ = true |- _ => apply negb_true_iff in H
  | H : bool_decide _ = true |- _ => apply bool_decide_eq_true in H
  | H : bool_decide _ = false |- _ => apply bool_decide_eq_false in H
  | H : Z.ltb _ _ = true |- _ => apply Z.ltb_lt in H
  | H : Z.ltb _ _ = false |- _ => apply Z.ltb_ge in H
  | H : Z.leb _ _ = true |- _ => apply Z.leb_le in H
  | H : Z.leb _ _ = false |- _ => apply Z.leb_gt in H
  | H : Z.eqb _ _ = true |- _ => apply Z.eqb_eq in H
  | H : Z.eqb _ _ = false |- _ => apply Z.eqb_neq in H
  end.

(** ** Lemmas on results and folds *)
Lemma rbind_ok {A B E} (r : result A E) (k : A -> result B E) b :
  rbind r k = Ok b <-> exists a, r = Ok a /\ k a = Ok b.
Proof. destruct r; cbn; naive_solver. Qed.

Lemma map_err_ok {A E F} (f : E -> F) (r : result A E) a : map_err f r = Ok a <-> r = Ok a.
Proof. destruct r; cbn; naive_solver. Qed.

Lemma for_each_ok {A E} (f : A -> result unit E) xs :
  for_each f xs = Ok tt <-> Forall (fun x => f x = Ok tt) xs.
Proof.
  induction xs as [|x xs IH]; cbn.
  - by split.
  - rewrite Forall_cons, <- IH. destruct (f x) as [[]|]; cbn; naive_solver.
Qed.

Lemma fold_result_app {S A E} (step : S -> A -> result S E) s xs ys :
  fold_result step s (xs ++ ys)
  = rbind (fold_result step s xs) (fun s' => fold_result step s' ys).
Proof.
  revert s. induction xs as [|x xs IH]; intros s; cbn; [done |].
  destruct (step s x) as [s'|]; cbn; [apply IH | done].
Qed.

Lemma fold_result_snoc {S A E} (step : S -> A -> result S E) s xs x :
  fold_result step s (xs ++ [x])
  = rbind (fold_result step s xs) (fun s' => step s' x).
Proof.
  rewrite fold_result_app. destruct (fold_result step s xs); cbn; [| done].
  by destruct (step _ x).
Qed.

(** An invariant of the step is an invariant of the fold. *)
Lemma fold_result_inv {S A E} (step : S -> A -> result S E) (P : S -> Prop) s xs s' :
  (forall s x s', P s -> step s x = Ok s' -> P s') ->
  P s -> fold_result step s xs = Ok s' -> P s'.
Proof.
  intros Hstep. revert s. induction xs as [|x xs IH]; intros s Hs H; cbn in H.
  - by simplify_eq.
  - rinv H. eauto.
Qed.

(** A transitive relation between a state and its successor relates the ends of a fold. *)
Lemma fold_result_rel {S A E} (step : S -> A -> result S E) (P : S -> Prop)
    (R : S -> S -> Prop) s xs s' :
  (forall s, R s s) -> (forall a b c, R a b -> R b c -> R a c) ->
  (forall s x s', P s -> step s x = Ok s' -> P s' /\ R s s') ->
  P s -> fold_result step s xs = Ok s' -> R s s'.
Proof.
  intros Hrefl Htrans Hstep. revert s. induction xs as [|x xs IH]; intros s Hs H; cbn in H.
  - by simplify_eq.
  - rinv H. destruct (Hstep _ _ _ Hs E0) as [? ?]. eauto.
Qed.

(** [errs P r]: every error of [r] satisfies [P]. *)
Definition errs {A E : Type} (P : E -> Prop) (r : result A E) : Prop :=
  match r with
  | Ok _ => True
  | Err e => P e
  end.

Lemma errs_bind {A B E : Type} (P : E -> Prop) (r : result A E) (k : A -> result B E) :
  errs P r -> (forall a, r = Ok a -> errs P (k a)) -> errs P (rbind r k).
Proof. destruct r; cbn; auto. Qed.

Lemma errs_if {A E : Type} (P : E -> Prop) (b : bool) (x y : result A E) :
  (b = true -> errs P x) -> (b = false -> errs P y) -> errs P (if b then x else y).
Proof. destruct b; auto. Qed.

Lemma errs_decide {A E : Type} (P : E -> Prop) (Q : Prop) `{Decision Q} (x y : result A E) :
  (Q -> errs P x) -> (~ Q -> errs P y) -> errs P (if decide Q then x else y).
Proof. case_decide; auto. Qed.

Lemma errs_for_each {A E : Type} (P : E -> Prop) (f : A -> result unit E) l :
  (forall x, errs P (f x)) -> errs P (for_each f l).
Proof. intros Hf. induction l as [|x l IH]; cbn; [done |]. apply errs_bind; auto. Qed.

Lemma errs_map_err {A E F : Type} (P : E -> Prop) (f : F -> E) (r : result A F) :
  (forall e, P (f e)) -> errs P (map_err f r).
Proof. destruct r; cbn; auto. Qed.

(** Walks through the [?]s, guards and loops of a fallible expression. *)
Ltac errs_step :=
  match goal with
  | |- errs _ (Ok _) => exact I
  | |- errs _ (rbind _ _) => apply errs_bind; [| intros ? ?]
  | |- errs _ (if decide _ then _ else _) => apply errs_decide; intros ?
  | |- errs _ (if _ then _ else _) => apply errs_if; intros ?
  | |- errs _ (for_each _ _) => apply errs_for_each; intros ?
  | |- errs _ (map_err _ _) => apply errs_map_err; intros ?
  end.

(** ** Lemmas on sorting and [dedup] *)
Section dedup.
Context {A : Type} `{EqDecision A}.

Lemma dedup_cons2 (a b : A) l :
  dedup (a :: b :: l) = if decide (a = b) then dedup (b :: l) else a :: dedup (b :: l).
Proof. done. Qed.

Lemma elem_of_dedup (x : A) l : x ∈ dedup l <-> x ∈ l.
Proof.
  induction l as [|a [|b l] IH]; [done | done |].
  rewrite dedup_cons2. destruct (decide (a = b)) as [-> | Hne].
  - rewrite IH. set_solver.
  - rewrite (elem_of_cons (dedup _)), IH. set_solver.
Qed.

Lemma dedup_NoDup (R : relation A) `{!AntiSymm (=) R} l :
  StronglySorted R l -> NoDup (dedup l).
Proof.
  induction l as [|a [|b l] IH]; intros Hs.
  - constructor.
  - cbn. repeat constructor. set_solver.
  - rewrite dedup_cons2. apply StronglySorted_inv in Hs as [Hs Ha].
    destruct (decide (a = b)) as [-> | Hne]; [by apply IH |].
    constructor; [| by apply IH].
    rewrite elem_of_dedup. intros Hin.
    apply StronglySorted_inv in Hs as [Hs Hb].
    apply Forall_cons in Ha as [Hab Ha].
    apply elem_of_cons in Hin as [-> | Hin]; [done |].
    rewrite Forall_forall in Hb. apply Hne, (anti_symm R); auto.
Qed.

Lemma dedup_sorted (R : relation A) l : StronglySorted R l -> StronglySorted R (dedup l).
Proof.
  induction l as [|a [|b l] IH]; intros Hs; [done | done |].
  rewrite dedup_cons2. apply StronglySorted_inv in Hs as [Hs Ha].
  destruct (decide (a = b)) as [-> | Hne]; [by apply IH |].
  constructor; [by apply IH |].
  rewrite Forall_forall in Ha |- *. intros x Hx. apply Ha. by apply elem_of_dedup.
Qed.

Lemma dedup_NoDup_id (l : list A) : NoDup l -> dedup l = l.
Proof.
  induction l as [|a [|b l] IH]; intros Hn; [done | done |].
  rewrite dedup_cons2. apply NoDup_cons in Hn as [Ha Hn].
  destruct (decide (a = b)) as [-> | Hne]; [set_solver |]. by rewrite IH.
Qed.
End dedup.

(** Two sorted lists with the same members and no repetitions are equal. *)
Lemma sorted_NoDup_ext {A} (R : relation A) `{!AntiSymm (=) R} (l1 l2 : list A) :
  StronglySorted R l1 -> StronglySorted R l2 -> NoDup l1 -> NoDup l2 ->
  (forall x, x ∈ l1 <-> x ∈ l2) -> l1 = l2.
Proof.
  intros H1 H2 N1 N2 Hx. apply (StronglySorted_unique R); [done | done |].
  apply NoDup_Permutation; done.
Qed.

Lemma windows2_cons2 {A} (x y : A) l : windows2 (x :: y :: l) = (x, y) :: windows2 (y :: l).
Proof. done. Qed.

Lemma take_drop_app {A} (l1 l2 : list A) : drop (length l1) (l1 ++ l2) = l2.
Proof. by rewrite drop_app_length. Qed.
