(* ===== verification/RustStr.v ===== *)
(** * The string routines of Rust's standard library that the sources use

    A Rust [String] is the Rocq [string] of its UTF-8 bytes; [as_bytes] exposes them. The file
    models [str::trim] (Unicode [White_Space], at the level of UTF-8 encodings), the hexadecimal
    and decimal conversions, [Path::extension]/[Path::file_stem] and the shape of a
    [sha256:<64 lower-case hex digits>] reference that every ledger validates. *)

From stdpp Require Import prelude strings list.
From Stdlib Require Import ZArith Lia.
From S2P Require Import Prelude.

Definition as_bytes (s : string) : bytes := String.list_byte_of_string s.
Definition of_bytes (b : bytes) : string := String.string_of_list_byte b.

(** ** [str::trim] *)

(** The UTF-8 encodings of the characters with the [White_Space] property:
    U+0009..U+000D, U+0020, U+0085, U+00A0, U+1680, U+2000..U+200A, U+2028, U+2029, U+202F,
    U+205F and U+3000. *)
Definition ws_encodings : list bytes :=
  [ [Byte.x09]; [Byte.x0a]; [Byte.x0b]; [Byte.x0c]; [Byte.x0d]; [Byte.x20];
    [Byte.xc2; Byte.x85]; [Byte.xc2; Byte.xa0]; [Byte.xe1; Byte.x9a; Byte.x80];
    [Byte.xe2; Byte.x80; Byte.x80]; [Byte.xe2; Byte.x80; Byte.x81];
    [Byte.xe2; Byte.x80; Byte.x82]; [Byte.xe2; Byte.x80; Byte.x83];
    [Byte.xe2; Byte.x80; Byte.x84]; [Byte.xe2; Byte.x80; Byte.x85];
    [Byte.xe2; Byte.x80; Byte.x86]; [Byte.xe2; Byte.x80; Byte.x87];
    [Byte.xe2; Byte.x80; Byte.x88]; [Byte.xe2; Byte.x80; Byte.x89];
    [Byte.xe2; Byte.x80; Byte.x8a]; [Byte.xe2; Byte.x80; Byte.xa8];
    [Byte.xe2; Byte.x80; Byte.xa9]; [Byte.xe2; Byte.x80; Byte.xaf];
    [Byte.xe2; Byte.x81; Byte.x9f]; [Byte.xe3; Byte.x80; Byte.x80] ].

Fixpoint strip_prefix (p s : bytes) : option bytes :=
  match p, s with
  | [], _ => Some s
  | _ :: _, [] => None
  | a :: p', b :: s' => if decide (a = b) then strip_prefix p' s' else None
  end.

Fixpoint strip_any (pats : list bytes) (s : bytes) : option bytes :=
  match pats with
  | [] => None
  | p :: rest =>
      match strip_prefix p s with
      | Some r => Some r
      | None => strip_any rest s
      end
  end.

(** Strips patterns while one matches; [length s] rounds are enough for non-empty patterns. *)
Fixpoint strip_while (fuel : nat) (pats : list bytes) (s : bytes) : bytes :=
  match fuel with
  | O => s
  | S fuel' =>
      match strip_any pats s with
      | Some r => strip_while fuel' pats r
      | None => s
      end
  end.

Definition trim_start (s : bytes) : bytes := strip_while (length s) ws_encodings s.
Definition trim_end (s : bytes) : bytes :=
  reverse (strip_while (length s) (map reverse ws_encodings) (reverse s)).
Definition trim (s : string) : string := of_bytes (trim_end (trim_start (as_bytes s))).

(** ** Hexadecimal *)
Definition hex_digits : bytes := as_bytes "0123456789abcdef".

Definition in_range (lo hi : N) (b : Byte.byte) : bool :=
  ((lo <=? Byte.to_N b) && (Byte.to_N b <=? hi))%N.

(** [matches!(byte, b'0'..=b'9' | b'a'..=b'f')]. *)
Definition is_lower_hex (b : Byte.byte) : bool := in_range 48 57 b || in_range 97 102 b.
(** [u8::is_ascii_hexdigit]. *)
Definition is_ascii_hexdigit (b : Byte.byte) : bool := is_lower_hex b || in_range 65 70 b.
(** [u8::is_ascii_alphanumeric]. *)
Definition is_ascii_alphanumeric (b : Byte.byte) : bool :=
  in_range 48 57 b || in_range 65 90 b || in_range 97 122 b.

Definition hex_digit (n : N) : Byte.byte := nth (N.to_nat n) hex_digits Byte.x30.

(** [write!(output, "{byte:02x}")]. *)
Definition hex_byte (b : Byte.byte) : bytes :=
  [hex_digit (Byte.to_N b / 16); hex_digit (Byte.to_N b `mod` 16)].

Definition hex_bytes (bs : bytes) : bytes := concat (map hex_byte bs).

Definition hex_value (b : Byte.byte) : N :=
  if in_range 48 57 b then Byte.to_N b - 48
  else if in_range 97 102 b then Byte.to_N b - 87
  else Byte.to_N b - 55.

(** [u8::from_str_radix(&value[index..index + 2], 16)] on two hexadecimal digits. *)
Definition byte_of_hex (hi lo : Byte.byte) : Byte.byte :=
  default Byte.x00 (Byte.of_N (16 * hex_value hi + hex_value lo)).

Fixpoint unhex (s : bytes) : bytes :=
  match s with
  | hi :: lo :: rest => byte_of_hex hi lo :: unhex rest
  | _ => []
  end.

(** ** References

    The test shared by every [validate_ref]: 71 bytes, the prefix [sha256:], and 64 lower-case
    hexadecimal digits. *)
Definition sha256_prefix : string := "sha256:".

Definition is_sha256_ref (reference : string) : bool :=
  let b := as_bytes reference in
  bool_decide (length b = 71)
  && bool_decide (take 7 b = as_bytes sha256_prefix)
  && forallb is_lower_hex (drop 7 b).

(** ** Decimal

    [format!("{n}")] of a [u64] has at most twenty digits. *)
Definition dec_digit (n : Z) : Byte.byte :=
  nth (Z.to_nat n) (as_bytes "0123456789") Byte.x30.

Fixpoint dec_digits (fuel : nat) (n : Z) (acc : bytes) : bytes :=
  match fuel with
  | O => acc
  | S fuel' =>
      let acc' := dec_digit (n `mod` 10) :: acc in
      if (n <? 10)%Z then acc' else dec_digits fuel' (n / 10) acc'
  end.

Definition fmt_u64 (n : Z) : bytes := dec_digits 20 n [].

(** [format!("{n:08}")]. *)
Definition fmt_u64_08 (n : Z) : bytes :=
  let d := fmt_u64 n in replicate (8 - length d) Byte.x30 ++ d.

(** The digit loop of [u64::from_str], with its checked multiplication and addition. *)
Fixpoint parse_digits (acc : Z) (s : bytes) : option Z :=
  match s with
  | [] => Some acc
  | b :: rest =>
      if in_range 48 57 b then
        let v := (acc * 10 + (Z.of_N (Byte.to_N b) - 48))%Z in
        if (v <? u64_size)%Z then parse_digits v rest else None
      else None
  end.

(** [str::parse::<u64>]: an optional [+], then at least one digit. *)
Definition parse_u64 (s : bytes) : option Z :=
  match s with
  | [] => None
  | [Byte.x2b] => None
  | Byte.x2b :: rest => parse_digits 0 rest
  | _ => parse_digits 0 s
  end.

(** ** File names

    The split at the last dot behind [Path::file_stem] and [Path::extension]; a name without a
    dot, or whose only dot comes first, has no extension. *)
Fixpoint rsplit_dot (s : bytes) : option (bytes * bytes) :=
  match s with
  | [] => None
  | b :: rest =>
      match rsplit_dot rest with
      | Some (before, after) => Some (b :: before, after)
      | None => if decide (b = Byte.x2e) then Some ([], rest) else None
      end
  end.

Definition stem_and_extension (name : string) : option (bytes * bytes) :=
  if decide (name = "..") then None
  else
    match rsplit_dot (as_bytes name) with
    | Some (before, after) => if decide (before = []) then None else Some (before, after)
    | None => None
    end.

(** ** Lemmas *)
Lemma as_of_bytes b : as_bytes (of_bytes b) = b.
Proof. apply String.list_byte_of_string_of_list_byte. Qed.

Lemma of_as_bytes s : of_bytes (as_bytes s) = s.
Proof. apply String.string_of_list_byte_of_string. Qed.

Lemma as_bytes_inj s t : as_bytes s = as_bytes t -> s = t.
Proof. intros H. by rewrite <- (of_as_bytes s), H, of_as_bytes. Qed.

Lemma of_bytes_inj a b : of_bytes a = of_bytes b -> a = b.
Proof. intros H. by rewrite <- (as_of_bytes a), H, as_of_bytes. Qed.

Lemma strip_prefix_some p s r : strip_prefix p s = Some r <-> s = p ++ r.
Proof.
  revert s. induction p as [|a p IH]; intros s; cbn.
  - naive_solver.
  - destruct s as [|b s]; [naive_solver |].
    case_decide; subst; rewrite ?IH; naive_solver.
Qed.

Lemma strip_any_none pats s :
  strip_any pats s = None <-> Forall (fun p => strip_prefix p s = None) pats.
Proof.
  induction pats as [|p pats IH]; cbn; [by split |].
  rewrite Forall_cons, <- IH. destruct (strip_prefix p s); naive_solver.
Qed.

Lemma strip_any_some pats s r :
  strip_any pats s = Some r -> exists p, p ∈ pats /\ s = p ++ r.
Proof.
  induction pats as [|p pats IH]; cbn; [done |].
  destruct (strip_prefix p s) as [r'|] eqn:E; intros H.
  - simplify_eq. apply strip_prefix_some in E. set_solver.
  - destruct (IH H) as (q & ? & ?). set_solver.
Qed.

Lemma strip_while_suffix fuel pats s : exists p, s = p ++ strip_while fuel pats s.
Proof.
  revert s. induction fuel as [|fuel IH]; intros s; cbn; [by exists [] |].
  destruct (strip_any pats s) as [r|] eqn:E; [| by exists []].
  destruct (strip_any_some _ _ _ E) as (p & _ & ->).
  destruct (IH r) as [q Hq]. exists (p ++ q). by rewrite <- app_assoc, <- Hq.
Qed.

(** With non-empty patterns, [length s] rounds reach a string no pattern matches. *)
Lemma strip_while_done fuel pats s :
  Forall (fun p => p <> []) pats -> length s <= fuel ->
  strip_any pats (strip_while fuel pats s) = None.
Proof.
  intros Hp. revert s. induction fuel as [|fuel IH]; intros s Hlen; cbn.
  - apply nil_length_inv in Hlen as -> || (destruct s; [| cbn in Hlen; lia]).
    apply strip_any_none. rewrite Forall_forall in Hp |- *. intros p Hin.
    specialize (Hp p Hin). by destruct p.
  - destruct (strip_any pats s) as [r|] eqn:E; [| done].
    apply IH. destruct (strip_any_some _ _ _ E) as (p & Hin & ->).
    rewrite Forall_forall in Hp. specialize (Hp p Hin). destruct p; [done |].
    rewrite length_app in Hlen. cbn in Hlen. lia.
Qed.

Lemma strip_while_id fuel pats s : strip_any pats s = None -> strip_while fuel pats s = s.
Proof. intros H. destruct fuel; cbn; [done |]. by rewrite H. Qed.

(** A prefix of a string that no pattern starts is not started by one either. *)
Lemma strip_any_prefix pats s t : strip_any pats (s ++ t) = None -> strip_any pats s = None.
Proof.
  rewrite !strip_any_none, !Forall_forall. intros H p Hp. specialize (H p Hp).
  destruct (strip_prefix p s) as [r|] eqn:E; [| done].
  apply strip_prefix_some in E as ->. exfalso.
  assert (strip_prefix p ((p ++ r) ++ t) = Some (r ++ t)) as E'.
  { apply strip_prefix_some. by rewrite app_assoc. }
  congruence.
Qed.

Lemma ws_nonempty : Forall (fun p => p <> []) ws_encodings.
Proof. repeat constructor; done. Qed.

Lemma ws_rev_nonempty : Forall (fun p => p <> []) (map reverse ws_encodings).
Proof. repeat constructor; done. Qed.

(** [str::trim] returns a string that it leaves unchanged. *)
Lemma trim_idemp s : trim (trim s) = trim s.
Proof.
  unfold trim. rewrite as_of_bytes. f_equal.
  set (u := trim_start (as_bytes s)).
  assert (strip_any ws_encodings u = None) as Hu.
  { apply strip_while_done; [apply ws_nonempty | lia]. }
  set (v := strip_while (length u) (map reverse ws_encodings) (reverse u)).
  assert (strip_any (map reverse ws_encodings) v = None) as Hv.
  { apply strip_while_done; [apply ws_rev_nonempty | by rewrite length_reverse]. }
  change (trim_end u) with (reverse v).
  assert (trim_start (reverse v) = reverse v) as ->.
  { apply strip_while_id.
    destruct (strip_while_suffix (length u) (map reverse ws_encodings) (reverse u)) as [q Hq].
    fold v in Hq. apply (f_equal reverse) in Hq. rewrite reverse_involutive, reverse_app in Hq.
    rewrite Hq in Hu. by apply strip_any_prefix in Hu. }
  unfold trim_end. by rewrite reverse_involutive, strip_while_id.
Qed.

Lemma hex_byte_ok b : forallb is_lower_hex (hex_byte b) = true.
Proof. by destruct b. Qed.

Lemma hex_bytes_lower bs : forallb is_lower_hex (hex_bytes bs) = true.
Proof.
  induction bs as [|b bs IH]; [done |].
  change (hex_bytes (b :: bs)) with (hex_byte b ++ hex_bytes bs).
  by rewrite forallb_app, hex_byte_ok, IH.
Qed.

Lemma length_hex_bytes bs : length (hex_bytes bs) = 2 * length bs.
Proof.
  induction bs as [|b bs IH]; [done |].
  change (hex_bytes (b :: bs)) with (hex_byte b ++ hex_bytes bs).
  rewrite length_app, IH. cbn. lia.
Qed.

Lemma byte_of_hex_byte b :
  byte_of_hex (hex_digit (Byte.to_N b / 16)) (hex_digit (Byte.to_N b `mod` 16)) = b.
Proof. by destruct b. Qed.

(** Reading back the digits that were written. *)
Lemma unhex_hex bs : unhex (hex_bytes bs) = bs.
Proof.
  induction bs as [|b bs IH]; [done |].
  change (unhex (hex_bytes (b :: bs)))
    with (byte_of_hex (hex_digit (Byte.to_N b / 16)) (hex_digit (Byte.to_N b `mod` 16))
          :: unhex (hex_bytes bs)).
  by rewrite byte_of_hex_byte, IH.
Qed.

Lemma hex_bytes_inj a b : hex_bytes a = hex_bytes b -> a = b.
Proof. intros H. by rewrite <- (unhex_hex a), H, unhex_hex. Qed.

(** The reference built from a 32-byte digest has the validated shape. *)
Lemma is_sha256_ref_hex d :
  length d = 32 -> is_sha256_ref (of_bytes (as_bytes sha256_prefix ++ hex_bytes d)) = true.
Proof.
  intros Hd. unfold is_sha256_ref. rewrite as_of_bytes.
  assert (length (as_bytes sha256_prefix) = 7) as H7 by done.
  rewrite !andb_true_iff, !bool_decide_eq_true. split_and!.
  - rewrite length_app, length_hex_bytes, Hd. done.
  - rewrite <- H7 at 1. by rewrite take_app_length.
  - rewrite <- H7. rewrite drop_app_length. apply hex_bytes_lower.
Qed.

(** ** Decimal round trip *)
Definition digit_ok (k : nat) : bool :=
  in_range 48 57 (dec_digit (Z.of_nat k))
  && (Z.of_N (Byte.to_N (dec_digit (Z.of_nat k))) - 48 =? Z.of_nat k)%Z.

Lemma dec_digit_ok n :
  (0 <= n < 10)%Z ->
  in_range 48 57 (dec_digit n) = true /\ (Z.of_N (Byte.to_N (dec_digit n)) - 48 = n)%Z.
Proof.
  intros Hn. assert (forallb digit_ok (seq 0 10) = true) as Hall by done.
  rewrite forallb_forall in Hall. specialize (Hall (Z.to_nat n)). rewrite in_seq in Hall.
  specialize (Hall ltac:(lia)). unfold digit_ok in Hall. rewrite Z2Nat.id in Hall by lia.
  by apply andb_true_iff in Hall as [? ?%Z.eqb_eq].
Qed.

Definition is_digit (b : Byte.byte) : Prop := in_range 48 57 b = true.

Lemma parse_digits_step acc n rest :
  (0 <= n < 10)%Z -> (acc * 10 + n < u64_size)%Z ->
  parse_digits acc (dec_digit n :: rest) = parse_digits (acc * 10 + n) rest.
Proof.
  intros Hn Hlt. cbn [parse_digits]. destruct (dec_digit_ok n Hn) as [-> ->].
  destruct (Z.ltb_spec (acc * 10 + n) u64_size); [done | lia].
Qed.

Lemma parse_dec_digits fuel n acc :
  (0 <= n < 10 ^ Z.of_nat fuel)%Z -> (n < u64_size)%Z -> 0 < fuel ->
  parse_digits 0 (dec_digits fuel n acc) = parse_digits n acc.
Proof.
  revert n acc. induction fuel as [|fuel IH]; intros n acc Hn Hu Hf; [lia |].
  cbn [dec_digits]. pose proof (Z.mod_pos_bound n 10 ltac:(lia)) as Hm.
  destruct (Z.ltb_spec n 10) as [Hlt | Hge].
  - rewrite Z.mod_small by lia. rewrite parse_digits_step by lia. done.
  - pose proof (Z.div_mod n 10 ltac:(lia)) as Hdm.
    rewrite Nat2Z.inj_succ, Z.pow_succ_r in Hn by lia.
    assert (0 < n / 10)%Z by (apply Z.div_str_pos; lia).
    assert (n / 10 < 10 ^ Z.of_nat fuel)%Z by (apply Z.div_lt_upper_bound; lia).
    assert (0 < fuel) by (destruct fuel; cbn in *; lia).
    rewrite IH by lia. rewrite parse_digits_step by lia. f_equal. lia.
Qed.

Lemma dec_digits_digits fuel n acc :
  (0 <= n)%Z -> Forall is_digit acc -> Forall is_digit (dec_digits fuel n acc).
Proof.
  revert n acc. induction fuel as [|fuel IH]; intros n acc Hn Hacc; [done |].
  cbn [dec_digits].
  assert (Forall is_digit (dec_digit (n `mod` 10) :: acc)).
  { constructor; [| done]. apply dec_digit_ok, Z.mod_pos_bound. lia. }
  destruct (n <? 10)%Z; [done |]. apply IH; [| done]. apply Z.div_pos; lia.
Qed.

Lemma dec_digits_nonempty fuel n acc : 0 < fuel -> dec_digits fuel n acc <> [].
Proof.
  intros Hf. enough (length acc < length (dec_digits fuel n acc)) as H.
  { intros E. rewrite E in H. cbn in H. lia. }
  revert n acc Hf. induction fuel as [|fuel IH]; intros n acc Hf; [lia |].
  cbn [dec_digits]. destruct (n <? 10)%Z; [cbn; lia |].
  destruct fuel as [|fuel]; [cbn; lia |].
  etransitivity; [| apply IH; lia]. cbn. lia.
Qed.

Lemma parse_u64_digits s : s <> [] -> Forall is_digit s -> parse_u64 s = parse_digits 0 s.
Proof.
  intros Hne Hd. destruct s as [|b s]; [done |]. apply Forall_cons in Hd as [Hb _].
  destruct b; try done; discriminate Hb.
Qed.

Lemma parse_digits_zeros k s : parse_digits 0 (replicate k Byte.x30 ++ s) = parse_digits 0 s.
Proof. induction k as [|k IH]; [done |]. exact IH. Qed.

Lemma fmt_u64_08_digits n : (0 <= n)%Z -> Forall is_digit (fmt_u64_08 n).
Proof.
  intros Hn. apply Forall_app. split.
  - apply Forall_replicate. done.
  - by apply dec_digits_digits.
Qed.

(** [format!("{n:08}").parse::<u64>()] gives back [n]. *)
Lemma parse_fmt_u64_08 n : is_u64 n -> parse_u64 (fmt_u64_08 n) = Some n.
Proof.
  intros Hn. unfold is_u64 in Hn.
  rewrite parse_u64_digits; [| | apply fmt_u64_08_digits; lia].
  - unfold fmt_u64_08. rewrite parse_digits_zeros. unfold fmt_u64.
    rewrite parse_dec_digits; [done | | lia | lia].
    split; [lia |]. unfold u64_size in Hn. change (Z.of_nat 20) with 20%Z. lia.
  - unfold fmt_u64_08. intros [_ H]%app_nil. by apply dec_digits_nonempty in H; [| lia].
Qed.

(** ** File names *)
Lemma rsplit_dot_none s : Byte.x2e ∉ s -> rsplit_dot s = None.
Proof.
  induction s as [|b s IH]; intros Hn; [done |]. cbn. rewrite IH by set_solver.
  case_decide; set_solver.
Qed.

Lemma rsplit_dot_app a b : Byte.x2e ∉ b -> rsplit_dot (a ++ Byte.x2e :: b) = Some (a, b).
Proof.
  intros Hb. induction a as [|x a IH]; cbn.
  - by rewrite rsplit_dot_none.
  - by rewrite IH.
Qed.

Lemma stem_and_extension_app a b :
  a <> [] -> length a <> 1 -> Byte.x2e ∉ b ->
  stem_and_extension (of_bytes (a ++ Byte.x2e :: b)) = Some (a, b).
Proof.
  intros Ha Hl Hb. unfold stem_and_extension. rewrite as_of_bytes.
  rewrite rsplit_dot_app by done.
  rewrite decide_False.
  - by rewrite decide_False.
  - intros H. apply (f_equal as_bytes) in H. rewrite as_of_bytes in H.
    destruct a as [|x [|y a]]; [done | done |]. by destruct a.
Qed.

Lemma fmt_u64_08_length n : 8 <= length (fmt_u64_08 n).
Proof. unfold fmt_u64_08. rewrite length_app, length_replicate. lia. Qed.

#[export] Hint Resolve trim_idemp parse_fmt_u64_08 is_sha256_ref_hex : liminal.
