(* ===== verification/Wal.v ===== *)
(** * The write-ahead log: [liminal-store/src/wal.rs] and [gc.rs]

    A store root has a data directory of WAL segments ([00000001.wal], ...), a snapshot directory
    and a writer lock. A directory is a finite map from file names to entries; an open file is a
    name and a cursor. An operation takes the directory and returns the new one beside its
    result, so that what an operation leaves on disk after an error is visible.

    [crc32fast] is a parameter (class [Crc32]). What may befall an append is an [AppendFault]: one of the
    failpoints the source itself defines, a rotation that fails before or after the new segment was
    created, a [write_all] that fails after any number of the bytes of the frame have reached the
    file, and a [sync_all] that fails. What a process leaves that dies there is the same. [sync_all] has no
    effect on the contents of a file; [flush] of a [File] does nothing and cannot fail; [crash_if] returns
    unless a crash is selected in the environment. *)

From stdpp Require Import prelude gmap strings list sorting.
From Stdlib Require Import ZArith Lia.
From S2P Require Import Prelude RustStr.

(** The checksum of [crc32fast]: [Crc32::new], [update] over the payload, [finalize]. *)
Class Crc32 : Type := crc32 : bytes -> Z.
Class Crc32Ok `{Crc32} : Prop := crc32_range : forall b, is_u32 (crc32 b).

Definition WAL_EXTENSION : string := "wal".
Definition DEFAULT_SEGMENT_SIZE : Z := 32 * 1024 * 1024.

Inductive AppendFailpoint : Type :=
| Disabled
| BeforeWrite
| AfterLengthWrite
| AfterPayloadWrite
| AfterWriteBeforeSync
| AfterSyncBeforeAck.

Global Instance AppendFailpoint_eq_dec : EqDecision AppendFailpoint.
Proof. solve_decision. Defined.

(** [CutAt k]: a [write_all] fails when [k] bytes of the frame are in the file. *)
Inductive AppendFault : Type :=
| Hook (at_ : AppendFailpoint)
| RotationFails (created : bool)
| CutAt (k : nat)
| SyncFails.
Coercion Hook : AppendFailpoint >-> AppendFault.

Global Instance AppendFault_eq_dec : EqDecision AppendFault.
Proof. solve_decision. Defined.

Record Offset : Type := mkOffset { segment : Z; position : Z }.

Global Instance Offset_eq_dec : EqDecision Offset.
Proof. solve_decision. Defined.

Definition Offset_start : Offset := mkOffset 1 0.

(** One constructor per [anyhow!] message of the file, [Injected] for the failpoints, [IoFailure] for an error
    of the operating system. *)
Inductive WalError : Type :=
| RotationZero
| WriterLockHeld
| OpenFailed (name : string)
| FrameLengthOverflow (at_ : Z)
| AmbiguousPartialPayload (at_ : Z)
| ChecksumMismatchAt (at_ : Z)
| ChecksumMismatch
| UnexpectedEof
| Injected (at_ : AppendFailpoint)
| IoFailure
| FuelExhausted.

Global Instance WalError_eq_dec : EqDecision WalError.
Proof. solve_decision. Defined.

(** ** Directories and files *)
Inductive dirent : Type :=
| RegularFile (content : bytes)
| OtherEntry.

Abbreviation dir := (gmap string dirent).

Record FileHandle : Type := mkHandle { fh_name : string; fh_pos : nat }.

Definition file_content (d : dir) (name : string) : option bytes :=
  match d !! name with
  | Some (RegularFile c) => Some c
  | _ => None
  end.

(** [write_all] at the cursor: overwrites, extends, and fills a gap with zeros. *)
Definition write_at (c : bytes) (pos : nat) (b : bytes) : bytes :=
  take pos c ++ replicate (pos - length c) Byte.x00 ++ b ++ drop (pos + length b) c.

Definition write_all (d : dir) (h : FileHandle) (b : bytes) : dir * FileHandle :=
  let h' := mkHandle (fh_name h) (fh_pos h + length b) in
  match file_content d (fh_name h) with
  | Some c => (<[fh_name h := RegularFile (write_at c (fh_pos h) b)]> d, h')
  | None => (d, h')
  end.

(** [write_all] of the bytes [b] of a frame, which begin at [start] in it; the flag says that all were written. *)
Definition write_part (fault : AppendFault) (start : nat) (d : dir) (h : FileHandle) (b : bytes)
  : dir * FileHandle * bool :=
  match fault with
  | CutAt k =>
      if decide (start <= k < start + length b) then (write_all d h (take (k - start) b), false)
      else (write_all d h b, true)
  | _ => (write_all d h b, true)
  end.

(** [read_exact]: fails with [UnexpectedEof] when fewer than [n] bytes are left. *)
Definition read_exact (c : bytes) (pos n : nat) : option bytes :=
  if decide (pos + n <= length c) then Some (take n (drop pos c)) else None.

(** ** Segment names *)
Definition wal_path (seg : Z) : string :=
  of_bytes (fmt_u64_08 seg ++ Byte.x2e :: as_bytes WAL_EXTENSION).

Definition segment_of_name (name : string) : option Z :=
  match stem_and_extension name with
  | Some (stem, ext) => if decide (ext = as_bytes WAL_EXTENSION) then parse_u64 stem else None
  | None => None
  end.

Definition list_segments (d : dir) : list Z :=
  let segments :=
    omap (fun '(name, e) =>
            match e with
            | RegularFile _ => segment_of_name name
            | OtherEntry => None
            end) (map_to_list d) in
  let segments := if decide (segments = []) then [1%Z] else segments in
  dedup (merge_sort Z.le segments).

(** ** Tail recovery *)
Definition truncate_torn_tail (c : bytes) (valid_len : Z) : bytes * Z :=
  (take (Z.to_nat valid_len) c, valid_len).

Section wal.
Context `{Crc32}.

Fixpoint recover_loop (fuel : nat) (c : bytes) (position : Z) : result (bytes * Z) WalError :=
  match fuel with
  | O => Err FuelExhausted
  | S fuel' =>
      let file_len := blen c in
      if (file_len <=? position)%Z then Ok (c, position)
      else
        let frame_start := position in
        if (file_len - frame_start <? 4)%Z then Ok (truncate_torn_tail c frame_start)
        else
          let payload_len := from_le_bytes32 (take 4 (drop (Z.to_nat frame_start) c)) in
          let payload_start := (frame_start + 4)%Z in
          let available_after_header := (file_len - payload_start)%Z in
          match u64_checked_add payload_start payload_len
                  ≫= (fun v => u64_checked_add v 4) with
          | None => Err (FrameLengthOverflow frame_start)
          | Some frame_end =>
              if (file_len <? frame_end)%Z then
                if ((available_after_header =? 0)
                    || ((payload_len <=? available_after_header)
                        && (available_after_header <? payload_len + 4)))%Z
                then Ok (truncate_torn_tail c frame_start)
                else Err (AmbiguousPartialPayload frame_start)
              else
                let payload :=
                  take (Z.to_nat payload_len) (drop (Z.to_nat payload_start) c) in
                let crc_buf :=
                  take 4 (drop (Z.to_nat (payload_start + payload_len)) c) in
                if decide (crc32 payload = from_le_bytes32 crc_buf)
                then recover_loop fuel' c frame_end
                else Err (ChecksumMismatchAt frame_start)
          end
  end.

(** Every frame takes eight bytes or more, so one round per byte is enough. *)
Definition recover_last_segment_tail (c : bytes) : result (bytes * Z) WalError :=
  recover_loop (S (length c)) c 0.

(** ** The writer *)
Record WalWriter : Type := mkWriter {
  w_rotation : Z;
  w_segment : Z;
  w_file : FileHandle;
  w_size : Z
}.

Definition WalWriter_open (d : dir) (rotation : Z) : result (dir * WalWriter) WalError :=
  let seg := default 1%Z (last (list_segments d)) in
  let name := wal_path seg in
  match d !! name with
  | None =>
      Ok (<[name := RegularFile []]> d, mkWriter rotation seg (mkHandle name 0) 0)
  | Some OtherEntry => Err (OpenFailed name)
  | Some (RegularFile c) =>
      let! r := recover_last_segment_tail c in
      let '(c', size) := r in
      Ok (<[name := RegularFile c']> d,
          mkWriter rotation seg (mkHandle name (length c')) size)
  end.

(** It fails before the new segment is created, or after it when a [sync] fails. *)
Definition rotate (fault : AppendFault) (d : dir) (w : WalWriter) : dir * result WalWriter WalError :=
  let next_segment := u64_add (w_segment w) 1 in
  let name := wal_path next_segment in
  if decide (fault = RotationFails false) then (d, Err IoFailure)
  else
    match d !! name with
    | Some OtherEntry => (d, Err (OpenFailed name))
    | _ =>
        (<[name := RegularFile []]> d,
         if decide (fault = RotationFails true) then Err IoFailure
         else Ok (mkWriter (w_rotation w) next_segment (mkHandle name 0) 0))
    end.

Definition WalWriter_append (d : dir) (w : WalWriter) (payload : bytes) (fault : AppendFault)
  : (dir * WalWriter) * result Offset WalError :=
  let record_size := (4 + blen payload + 4)%Z in
  let rotated :=
    if (w_rotation w <? w_size w + record_size)%Z then rotate fault d w else (d, Ok w) in
  match rotated with
  | (d, Err e) => ((d, w), Err e)
  | (d, Ok w) =>
      let offset := mkOffset (w_segment w) (w_size w) in
      let len := (blen payload `mod` u32_size)%Z in
      let checksum := crc32 payload in
      let with_file h := mkWriter (w_rotation w) (w_segment w) h (w_size w) in
      let '(d, h, ok) := write_part fault 0 d (w_file w) (to_le_bytes32 len) in
      if negb ok then ((d, with_file h), Err IoFailure)
      else if decide (fault = AfterLengthWrite) then ((d, with_file h), Err (Injected AfterLengthWrite))
      else
        let '(d, h, ok) := write_part fault 4 d h payload in
        if negb ok then ((d, with_file h), Err IoFailure)
        else if decide (fault = AfterPayloadWrite) then ((d, with_file h), Err (Injected AfterPayloadWrite))
        else
          let '(d, h, ok) := write_part fault (4 + length payload) d h (to_le_bytes32 checksum) in
          if negb ok then ((d, with_file h), Err IoFailure)
          else ((d, mkWriter (w_rotation w) (w_segment w) h (w_size w + record_size)), Ok offset)
  end.

(** ** The store

    [Root] is what survives on disk when no store is open; [root_locked] is the advisory lock
    another process may hold. *)
Record Root : Type := mkRoot {
  root_data : dir;
  root_snap : dir;
  root_manifest : option bytes;
  root_locked : bool
}.

Record Store : Type := mkStore {
  st_data : dir;
  st_snap : dir;
  st_manifest : option bytes;
  st_writer : WalWriter
}.

Definition Store_open_with_rotation (r : Root) (rotation : Z) : result Store WalError :=
  if decide (rotation = 0%Z) then Err RotationZero
  else if root_locked r then Err WriterLockHeld
  else
    let! dw := WalWriter_open (root_data r) rotation in
    let '(d, w) := dw in
    Ok (mkStore d (root_snap r) (root_manifest r) w).

Definition Store_open (r : Root) : result Store WalError :=
  Store_open_with_rotation r DEFAULT_SEGMENT_SIZE.

(** Dropping a store releases the lock and leaves its files. *)
Definition Store_close (s : Store) : Root :=
  mkRoot (st_data s) (st_snap s) (st_manifest s) false.

Definition with_writer (s : Store) (dw : dir * WalWriter) : Store :=
  mkStore (fst dw) (st_snap s) (st_manifest s) (snd dw).

Definition Store_append (s : Store) (b : bytes) (fault : AppendFault)
  : Store * result Offset WalError :=
  if decide (fault = BeforeWrite) then (s, Err (Injected BeforeWrite))
  else
    let '(dw, r) := WalWriter_append (st_data s) (st_writer s) b fault in
    let s' := with_writer s dw in
    match r with
    | Err e => (s', Err e)
    | Ok offset =>
        if decide (fault = AfterWriteBeforeSync) then (s', Err (Injected AfterWriteBeforeSync))
        else if decide (fault = SyncFails) then (s', Err IoFailure)
        else if decide (fault = AfterSyncBeforeAck) then (s', Err (Injected AfterSyncBeforeAck))
        else (s', Ok offset)
    end.

Definition current_segment (s : Store) : Z := w_segment (st_writer s).

Definition end_offset (s : Store) : Offset :=
  mkOffset (w_segment (st_writer s)) (w_size (st_writer s)).

(** ** The reader *)
Record WalStream : Type := mkStream {
  ws_segments : list Z;
  ws_idx : nat;
  ws_file : option FileHandle;
  ws_position : Z;
  ws_offset : Offset
}.

(** [open_current]: skips segments before the offset and missing files. *)
Fixpoint open_current (fuel : nat) (d : dir) (s : WalStream) : result WalStream WalError :=
  match fuel with
  | O => Err FuelExhausted
  | S fuel' =>
      match ws_segments s !! ws_idx s with
      | None => Ok s
      | Some seg =>
          let skip := mkStream (ws_segments s) (S (ws_idx s)) (ws_file s) (ws_position s)
                               (ws_offset s) in
          match file_content d (wal_path seg) with
          | Some _ =>
              if (seg <? segment (ws_offset s))%Z then open_current fuel' d skip
              else
                let pos :=
                  if bool_decide (segment (ws_offset s) = seg)
                     && (0 <? position (ws_offset s))%Z
                  then position (ws_offset s) else 0%Z in
                Ok (mkStream (ws_segments s) (ws_idx s)
                      (Some (mkHandle (wal_path seg) (Z.to_nat pos))) pos (mkOffset seg 0))
          | None =>
              if decide (length (ws_segments s) <= S (ws_idx s))
              then Err (OpenFailed (wal_path seg))
              else open_current fuel' d skip
          end
      end
  end.

Fixpoint position_ge (i : nat) (segs : list Z) (bound : Z) : option nat :=
  match segs with
  | [] => None
  | s :: rest => if (bound <=? s)%Z then Some i else position_ge (S i) rest bound
  end.

Definition open_fuel (segs : list Z) : nat := S (length segs).

Definition WalStream_new (d : dir) (offset : Offset) : result WalStream WalError :=
  let segments := list_segments d in
  let start_idx := default (length segments - 1) (position_ge 0 segments (segment offset)) in
  open_current (open_fuel segments) d
    (mkStream segments start_idx None (position offset) offset).

Definition stream_from (s : Store) (offset : Offset) : result WalStream WalError :=
  WalStream_new (st_data s) offset.

(** [Iterator::next]; the handle reads the contents the directory has. *)
Fixpoint next (fuel : nat) (d : dir) (s : WalStream)
  : WalStream * option (result bytes WalError) :=
  match fuel with
  | O => (s, Some (Err FuelExhausted))
  | S fuel' =>
      match ws_file s with
      | None =>
          if decide (length (ws_segments s) <= ws_idx s) then (s, None)
          else
            match open_current (open_fuel (ws_segments s)) d s with
            | Err e => (s, Some (Err e))
            | Ok s' => next fuel' d s'
            end
      | Some h =>
          let c := default [] (file_content d (fh_name h)) in
          match read_exact c (fh_pos h) 4 with
          | None =>
              next fuel' d
                (mkStream (ws_segments s) (S (ws_idx s)) None (ws_position s)
                   (mkOffset (u64_add (segment (ws_offset s)) 1) 0))
          | Some len_buf =>
              let len := Z.to_nat (from_le_bytes32 len_buf) in
              match read_exact c (fh_pos h + 4) len with
              | None => (s, Some (Err UnexpectedEof))
              | Some payload =>
                  match read_exact c (fh_pos h + 4 + len) 4 with
                  | None => (s, Some (Err UnexpectedEof))
                  | Some crc_buf =>
                      if decide (crc32 payload = from_le_bytes32 crc_buf) then
                        let pos := (ws_position s + 4 + Z.of_nat len + 4)%Z in
                        (mkStream (ws_segments s) (ws_idx s)
                           (Some (mkHandle (fh_name h) (fh_pos h + 4 + len + 4))) pos
                           (mkOffset (segment (ws_offset s)) pos),
                         Some (Ok payload))
                      else (s, Some (Err ChecksumMismatch))
                  end
              end
          end
      end
  end.

Definition next_fuel (s : WalStream) : nat := 3 + 2 * length (ws_segments s).

(** The items a consumer sees that stops at the first error, as every caller does. *)
Fixpoint stream_items (fuel : nat) (d : dir) (s : WalStream) : list (result bytes WalError) :=
  match fuel with
  | O => [Err FuelExhausted]
  | S fuel' =>
      match next (next_fuel s) d s with
      | (_, None) => []
      | (_, Some (Err e)) => [Err e]
      | (s', Some (Ok b)) => Ok b :: stream_items fuel' d s'
      end
  end.

Definition entry_bytes (p : string * dirent) : nat :=
  match snd p with
  | RegularFile c => length c
  | OtherEntry => 0
  end.

Definition dir_bytes (d : dir) : nat := sum_list_with entry_bytes (map_to_list d).

(** Everything [store.stream_from(offset)?] yields. A record takes eight bytes or more. *)
Definition read_from (d : dir) (offset : Offset) : result (list (result bytes WalError)) WalError :=
  let! s := WalStream_new d offset in
  Ok (stream_items (S (dir_bytes d)) d s).

(** ** Garbage collection: [gc_compact] *)
Fixpoint gc_loop (d : dir) (current : Z) (since : Offset) (segs : list Z)
  : dir * result unit WalError :=
  match segs with
  | [] => (d, Ok tt)
  | seg :: rest =>
      if (seg <? segment since)%Z && bool_decide (seg <> current) then
        match d !! wal_path seg with
        | Some OtherEntry => (d, Err (OpenFailed (wal_path seg)))
        | Some (RegularFile _) => gc_loop (delete (wal_path seg) d) current since rest
        | None => gc_loop d current since rest
        end
      else gc_loop d current since rest
  end.

Definition gc_compact (s : Store) (since : Offset) : Store * result unit WalError :=
  let '(d, r) := gc_loop (st_data s) (current_segment s) since (list_segments (st_data s)) in
  (mkStore d (st_snap s) (st_manifest s) (st_writer s), r).

End wal.
