(* ===== verification/WalSpec.v ===== *)
(** * What the write-ahead log promises

    The contents of a store are abstracted to a segmented log: a list of segment numbers, each
    with the payloads its file frames. The file proves that tail recovery accepts exactly the
    crash states it claims to, that [Store_append] extends the log by one record, that a reader
    started at an offset yields exactly the records from there on, that reopening loses nothing,
    and that a failed append leaves either the old log or the old log with the new record. *)

From stdpp Require Import prelude gmap strings list sorting.
From Stdlib Require Import ZArith Lia.
From S2P Require Import Prelude RustStr Wal.

Section frames.
Context `{Crc32, !Crc32Ok}.

(** The bytes [WalWriter::append] writes for one payload. *)
Definition frame (p : bytes) : bytes :=
  to_le_bytes32 (blen p `mod` u32_size) ++ p ++ to_le_bytes32 (crc32 p).

Definition frames (ps : list bytes) : bytes := concat (map frame ps).

(** The length field is 32 bits wide. *)
Definition payload_ok (p : bytes) : Prop := (blen p < u32_size)%Z.

Lemma blen_app (a b : bytes) : blen (a ++ b) = (blen a + blen b)%Z.
Proof. unfold blen. rewrite length_app. lia. Qed.

Lemma blen_nonneg (a : bytes) : (0 <= blen a)%Z.
Proof. unfold blen. lia. Qed.

Lemma to_nat_blen (a : bytes) : Z.to_nat (blen a) = length a.
Proof. unfold blen. lia. Qed.

Lemma length_frame p : length (frame p) = 8 + length p.
Proof. unfold frame. rewrite !length_app, !length_to_le_bytes32. lia. Qed.

Lemma blen_frame p : blen (frame p) = (4 + blen p + 4)%Z.
Proof. unfold blen. rewrite length_frame. lia. Qed.

Lemma frames_app ps qs : frames (ps ++ qs) = frames ps ++ frames qs.
Proof. unfold frames. by rewrite map_app, concat_app. Qed.

Lemma frames_snoc ps p : frames (ps ++ [p]) = frames ps ++ frame p.
Proof. rewrite frames_app. unfold frames at 2. cbn. by rewrite app_nil_r. Qed.

Lemma frames_cons p ps : frames (p :: ps) = frame p ++ frames ps.
Proof. done. Qed.

Lemma length_frames ps : length ps <= length (frames ps).
Proof.
  induction ps as [|p ps IH]; [done |].
  rewrite frames_cons, length_app, length_frame. cbn. lia.
Qed.

Lemma header_value p : payload_ok p -> from_le_bytes32 (to_le_bytes32 (blen p `mod` u32_size)) = blen p.
Proof.
  intros Hp. unfold payload_ok in Hp. pose proof (blen_nonneg p).
  rewrite Z.mod_small by lia. apply from_to_le_bytes32. unfold is_u32. lia.
Qed.

(** The three slices of a frame that sits behind a prefix. *)
Lemma frame_slices pre p rest :
  let c := pre ++ frame p ++ rest in
  take 4 (drop (length pre) c) = to_le_bytes32 (blen p `mod` u32_size)
  /\ take (length p) (drop (length pre + 4) c) = p
  /\ take 4 (drop (length pre + 4 + length p) c) = to_le_bytes32 (crc32 p).
Proof.
  intros c. subst c. unfold frame.
  set (h := to_le_bytes32 (blen p `mod` u32_size)). set (k := to_le_bytes32 (crc32 p)).
  assert (length h = 4) as Hh by apply length_to_le_bytes32.
  assert (length k = 4) as Hk by apply length_to_le_bytes32.
  split_and!.
  - rewrite drop_app_length, <- !app_assoc. by rewrite take_app_length'.
  - rewrite <- drop_drop, drop_app_length, <- !app_assoc.
    rewrite (drop_app_length' h) by done. by rewrite take_app_length'.
  - rewrite <- !drop_drop, drop_app_length, <- !app_assoc.
    rewrite (drop_app_length' h) by done. rewrite (drop_app_length' p) by done.
    by rewrite take_app_length'.
Qed.

(** One round of the recovery loop over a complete frame. *)
Lemma recover_loop_frame fuel pre p rest :
  payload_ok p -> (blen (pre ++ frame p ++ rest) < u64_size)%Z ->
  recover_loop (S fuel) (pre ++ frame p ++ rest) (blen pre)
  = recover_loop fuel (pre ++ frame p ++ rest) (blen (pre ++ frame p)).
Proof.
  intros Hp Hc. destruct (frame_slices pre p rest) as (E1 & E2 & E3).
  revert E1 E2 E3 Hc. set (c := pre ++ frame p ++ rest). intros E1 E2 E3 Hc.
  assert (blen c = blen pre + (4 + blen p + 4) + blen rest)%Z as Hlen.
  { unfold c. rewrite !blen_app, blen_frame. lia. }
  pose proof (blen_nonneg pre). pose proof (blen_nonneg p). pose proof (blen_nonneg rest).
  cbn [recover_loop]. rewrite !to_nat_blen, E1, header_value by done.
  destruct (Z.leb_spec (blen c) (blen pre)); [lia |].
  destruct (Z.ltb_spec (blen c - blen pre) 4); [lia |].
  rewrite (u64_checked_add_small (blen pre + 4)) by lia. cbn [mbind option_bind].
  rewrite u64_checked_add_small by lia.
  destruct (Z.ltb_spec (blen c) (blen pre + 4 + blen p + 4)); [lia |].
  replace (Z.to_nat (blen pre + 4)) with (length pre + 4) by (unfold blen; lia).
  replace (Z.to_nat (blen pre + 4 + blen p)) with (length pre + 4 + length p)
    by (unfold blen; lia).
  rewrite (to_nat_blen p), E2, E3. rewrite from_to_le_bytes32 by apply crc32_range.
  rewrite decide_True by done. f_equal. rewrite blen_app, blen_frame. lia.
Qed.

Lemma recover_loop_frames fuel pre ps rest :
  Forall payload_ok ps -> (blen (pre ++ frames ps ++ rest) < u64_size)%Z ->
  recover_loop (length ps + fuel) (pre ++ frames ps ++ rest) (blen pre)
  = recover_loop fuel (pre ++ frames ps ++ rest) (blen (pre ++ frames ps)).
Proof.
  revert pre. induction ps as [|p ps IH]; intros pre Hps Hc.
  - cbn. by rewrite app_nil_r.
  - apply Forall_cons in Hps as [Hp Hps]. rewrite frames_cons in Hc |- *.
    rewrite <- !app_assoc in Hc |- *. cbn [length Nat.add].
    rewrite recover_loop_frame by done.
    specialize (IH (pre ++ frame p) Hps). rewrite <- !app_assoc in IH. rewrite IH by done.
    done.
Qed.

(** The end of the file right after the last frame. *)
Lemma recover_loop_end fuel c : recover_loop (S fuel) c (blen c) = Ok (c, blen c).
Proof. cbn [recover_loop]. by rewrite Z.leb_refl. Qed.

Lemma recover_frames ps :
  Forall payload_ok ps -> (blen (frames ps) < u64_size)%Z ->
  recover_last_segment_tail (frames ps) = Ok (frames ps, blen (frames ps)).
Proof.
  intros Hps Hc. unfold recover_last_segment_tail.
  pose proof (length_frames ps) as Hl.
  replace (S (length (frames ps)))
    with (length ps + S (length (frames ps) - length ps)) by lia.
  pose proof (recover_loop_frames (S (length (frames ps) - length ps)) [] ps []) as Hr.
  rewrite app_nil_r in Hr. cbn [app] in Hr. change (blen []) with 0%Z in Hr.
  rewrite Hr by done. apply recover_loop_end.
Qed.

(** What the recovery makes of the first [k] bytes of a frame at the end of the file. *)
Definition torn_tail_outcome (ps : list bytes) (p : bytes) (k : nat)
  : result (bytes * Z) WalError :=
  if decide (4 < k < 4 + length p) then Err (AmbiguousPartialPayload (blen (frames ps)))
  else Ok (frames ps, blen (frames ps)).

Lemma truncate_frames pre rest :
  truncate_torn_tail (pre ++ rest) (blen pre) = (pre, blen pre).
Proof. unfold truncate_torn_tail. by rewrite to_nat_blen, take_app_length. Qed.

Lemma take_frame_header p k : 4 <= k -> take 4 (take k (frame p)) = to_le_bytes32 (blen p `mod` u32_size).
Proof.
  intros Hk. rewrite take_take, Nat.min_l by done. unfold frame.
  apply take_app_length'. by rewrite length_to_le_bytes32.
Qed.

(** One round of the loop over a torn frame. *)
Lemma recover_loop_torn fuel pre p k :
  payload_ok p -> 0 < k < length (frame p) ->
  (blen (pre ++ frame p) < u64_size)%Z ->
  recover_loop (S fuel) (pre ++ take k (frame p)) (blen pre)
  = if decide (4 < k < 4 + length p) then Err (AmbiguousPartialPayload (blen pre))
    else Ok (pre, blen pre).
Proof.
  intros Hp Hk Hc. set (t := take k (frame p)).
  assert (length t = k) as Ht by (unfold t; rewrite length_take; lia).
  assert (blen (pre ++ t) = blen pre + Z.of_nat k)%Z as Hlen.
  { rewrite blen_app. unfold blen at 2. by rewrite Ht. }
  pose proof (blen_nonneg pre). pose proof (blen_nonneg p).
  rewrite length_frame in Hk. rewrite blen_app, blen_frame in Hc.
  assert (blen p = Z.of_nat (length p)) as Hbp by done.
  cbn [recover_loop]. rewrite Hlen.
  destruct (Z.leb_spec (blen pre + Z.of_nat k) (blen pre)); [lia |].
  destruct (Z.ltb_spec (blen pre + Z.of_nat k - blen pre) 4).
  { rewrite decide_False by lia. by rewrite truncate_frames. }
  rewrite to_nat_blen, drop_app_length. unfold t at 1 2 3 4.
  rewrite !take_frame_header by lia. rewrite header_value by done.
  rewrite u64_checked_add_small by lia. cbn [mbind option_bind].
  rewrite u64_checked_add_small by lia.
  destruct (Z.ltb_spec (blen pre + Z.of_nat k) (blen pre + 4 + blen p + 4)); [| lia].
  rewrite truncate_frames.
  destruct (decide (4 < k < 4 + length p)).
  - destruct (Z.eqb_spec (blen pre + Z.of_nat k - (blen pre + 4)) 0); [lia |].
    destruct (Z.leb_spec (blen p) (blen pre + Z.of_nat k - (blen pre + 4))); [lia | done].
  - destruct (Z.eqb_spec (blen pre + Z.of_nat k - (blen pre + 4)) 0); [done |].
    destruct (Z.leb_spec (blen p) (blen pre + Z.of_nat k - (blen pre + 4))); [| lia].
    destruct (Z.ltb_spec (blen pre + Z.of_nat k - (blen pre + 4)) (blen p + 4)); [done | lia].
Qed.

Lemma recover_torn ps p k :
  Forall payload_ok ps -> payload_ok p -> 0 < k < length (frame p) ->
  (blen (frames (ps ++ [p])) < u64_size)%Z ->
  recover_last_segment_tail (frames ps ++ take k (frame p)) = torn_tail_outcome ps p k.
Proof.
  intros Hps Hp Hk Hc. unfold recover_last_segment_tail.
  rewrite frames_snoc, blen_app in Hc.
  set (t := take k (frame p)).
  assert (length t = k) as Ht by (unfold t; rewrite length_take; lia).
  assert (blen t <= blen (frame p))%Z as Hbt by (unfold blen; lia).
  pose proof (length_frames ps) as Hl.
  replace (S (length (frames ps ++ t)))
    with (length ps + S (S (length (frames ps) - length ps + (k - 1))))
    by (rewrite length_app; lia).
  pose proof (recover_loop_frames (S (S (length (frames ps) - length ps + (k - 1)))) [] ps t)
    as Hr.
  cbn [app] in Hr. change (blen []) with 0%Z in Hr. rewrite Hr; [| done |].
  - unfold t. rewrite recover_loop_torn by (rewrite ?blen_app; lia || done). done.
  - rewrite blen_app. lia.
Qed.

End frames.

(** * The store as a segmented log

    [seglog] is the abstract state: segment numbers in increasing order, each with the payloads
    its file frames. [store_inv] relates a [Store] to it; [offset_at] says which records lie at
    and after an offset. The theorems are the contract the ledgers are built on. *)

Abbreviation seglog := (list (Z * list bytes)).

Section log.
Context `{Crc32, !Crc32Ok}.

Definition seg_file (x : Z * list bytes) : string * dirent :=
  (wal_path (fst x), RegularFile (frames (snd x))).

Definition dir_of (sg : seglog) : dir := list_to_map (seg_file <$> sg).

Definition payloads (sg : seglog) : list bytes := concat (snd <$> sg).

Record seg_ok (x : Z * list bytes) : Prop := {
  seg_number : (1 <= fst x < u64_size)%Z;
  seg_payloads : Forall payload_ok (snd x);
  seg_size : (blen (frames (snd x)) < u64_size)%Z
}.

Record log_ok (sg : seglog) : Prop := {
  log_sorted : StronglySorted Z.lt (fst <$> sg);
  log_segs : Forall seg_ok sg
}.

(** ** Segment names *)
Lemma segment_of_wal_path s : is_u64 s -> segment_of_name (wal_path s) = Some s.
Proof.
  intros Hs. unfold segment_of_name, wal_path.
  pose proof (fmt_u64_08_length s) as Hl.
  rewrite stem_and_extension_app.
  - rewrite decide_True by done. by apply parse_fmt_u64_08.
  - intros E. rewrite E in Hl. cbn in Hl. lia.
  - lia.
  - apply (bool_decide_unpack _). by vm_compute.
Qed.

Lemma seg_ok_u64 x : seg_ok x -> is_u64 (fst x).
Proof. intros [? ? ?]. unfold is_u64. lia. Qed.

Lemma wal_path_inj s t : is_u64 s -> is_u64 t -> wal_path s = wal_path t -> s = t.
Proof.
  intros Hs Ht E. apply segment_of_wal_path in Hs, Ht. rewrite E in Hs. congruence.
Qed.

Lemma sorted_lt_NoDup (l : list Z) : StronglySorted Z.lt l -> NoDup l.
Proof.
  induction 1 as [|a l Hs IH Ha]; constructor; [| done].
  intros Hin. rewrite Forall_forall in Ha. specialize (Ha a Hin). lia.
Qed.

Lemma sorted_lt_le (l : list Z) : StronglySorted Z.lt l -> StronglySorted Z.le l.
Proof.
  induction 1 as [|a l Hs IH Ha]; constructor; [done |].
  eapply Forall_impl; [exact Ha |]. intros; lia.
Qed.

Lemma log_names_NoDup sg : log_ok sg -> NoDup ((seg_file <$> sg).*1).
Proof.
  intros [Hs Hok]. rewrite <- list_fmap_compose. apply sorted_lt_NoDup in Hs.
  induction sg as [|x sg IH]; cbn; [constructor |].
  apply Forall_cons in Hok as [Hx Hok]. cbn in Hs. apply NoDup_cons in Hs as [Hnin Hs].
  constructor; [| by apply IH].
  intros (y & Hy & Hin)%list_elem_of_fmap. apply Hnin.
  rewrite Forall_forall in Hok.
  apply wal_path_inj in Hy; [| by apply seg_ok_u64 | by apply seg_ok_u64, Hok].
  rewrite Hy. by apply list_elem_of_fmap_2.
Qed.

Lemma dir_of_lookup sg s ps :
  log_ok sg -> (s, ps) ∈ sg -> dir_of sg !! wal_path s = Some (RegularFile (frames ps)).
Proof.
  intros Hok Hin. apply elem_of_list_to_map_1; [by apply log_names_NoDup |].
  change (wal_path s, RegularFile (frames ps)) with (seg_file (s, ps)).
  by apply list_elem_of_fmap_2.
Qed.

Lemma dir_of_content sg s ps :
  log_ok sg -> (s, ps) ∈ sg -> file_content (dir_of sg) (wal_path s) = Some (frames ps).
Proof. intros Hok Hin. unfold file_content. by rewrite (dir_of_lookup _ _ ps). Qed.

Lemma dir_of_fresh sg s :
  log_ok sg -> is_u64 s -> s ∉ (fst <$> sg) -> wal_path s ∉ (seg_file <$> sg).*1.
Proof.
  intros [_ Hok] Hs Hnin (y & Hy & Hin)%list_elem_of_fmap.
  apply list_elem_of_fmap in Hin as (x & -> & Hx). cbn in Hy.
  rewrite Forall_forall in Hok. apply Hnin.
  apply wal_path_inj in Hy; [| done | by apply seg_ok_u64, Hok].
  rewrite Hy. by apply list_elem_of_fmap_2.
Qed.

(** [list_segments] finds the segment numbers, in order. *)
Lemma list_segments_dir_of sg : log_ok sg -> sg <> [] -> list_segments (dir_of sg) = fst <$> sg.
Proof.
  intros Hok Hne. unfold list_segments.
  set (raw := omap _ (map_to_list (dir_of sg))).
  assert (forall x, x ∈ raw <-> x ∈ fst <$> sg) as Hraw.
  { intros x. unfold raw. rewrite list_elem_of_omap, list_elem_of_fmap. split.
    - intros ([name e] & Hin & Hx). apply elem_of_map_to_list in Hin.
      apply elem_of_list_to_map_2, list_elem_of_fmap in Hin as (y & [= -> ->] & Hy).
      exists y. split; [| done]. destruct Hok as [_ Hok]. rewrite Forall_forall in Hok.
      rewrite segment_of_wal_path in Hx; [congruence | by apply seg_ok_u64, Hok].
    - intros (y & -> & Hy). exists (seg_file y). destruct y as [s ps].
      split; [apply elem_of_map_to_list; by apply dir_of_lookup |].
      cbn. apply segment_of_wal_path. destruct Hok as [_ Hok]. rewrite Forall_forall in Hok.
      exact (seg_ok_u64 _ (Hok _ Hy)). }
  assert (raw <> []) as Hrne.
  { destruct sg as [|x sg]; [done |]. intros E. rewrite E in Hraw.
    specialize (Hraw (fst x)). cbn in Hraw. set_solver. }
  rewrite decide_False by done.
  pose proof (StronglySorted_merge_sort Z.le raw) as Hsrt.
  apply (sorted_NoDup_ext Z.le).
  - by apply dedup_sorted.
  - by apply sorted_lt_le, Hok.
  - by apply (dedup_NoDup Z.le).
  - by apply sorted_lt_NoDup, Hok.
  - intros x. rewrite elem_of_dedup, merge_sort_Permutation. apply Hraw.
Qed.

(** ** Extending the log *)
Lemma log_ok_app_inv sg1 sg2 : log_ok (sg1 ++ sg2) -> log_ok sg1 /\ log_ok sg2.
Proof.
  intros [Hs Hok]. rewrite fmap_app in Hs. apply Forall_app in Hok as [? ?].
  apply StronglySorted_app in Hs as (_ & ? & ?). done.
Qed.

Lemma log_last_ok sg x : log_ok (sg ++ [x]) -> seg_ok x.
Proof. intros [_ Hok]. apply Forall_app in Hok as [_ Hx]. by inversion Hx. Qed.

Lemma log_last_gt sg s ps x : log_ok (sg ++ [(s, ps)]) -> x ∈ (fst <$> sg) -> (x < s)%Z.
Proof.
  intros [Hs _] Hx. rewrite fmap_app in Hs. apply StronglySorted_app in Hs as (Hlt & _ & _).
  apply Hlt; [done | set_solver].
Qed.

Lemma log_last_fresh sg s ps : log_ok (sg ++ [(s, ps)]) -> s ∉ (fst <$> sg).
Proof. intros Hok Hin. pose proof (log_last_gt _ _ _ _ Hok Hin). lia. Qed.

Lemma log_ok_replace sg s ps ps' :
  log_ok (sg ++ [(s, ps)]) -> seg_ok (s, ps') -> log_ok (sg ++ [(s, ps')]).
Proof.
  intros [Hs Hok] Hx. split.
  - by rewrite fmap_app in Hs |- *.
  - apply Forall_app in Hok as [? _]. apply Forall_app. by split; [| constructor].
Qed.

Lemma log_ok_extend sg s ps s' ps' :
  log_ok (sg ++ [(s, ps)]) -> (s < s')%Z -> seg_ok (s', ps') ->
  log_ok ((sg ++ [(s, ps)]) ++ [(s', ps')]).
Proof.
  intros Hok Hlt Hx. split.
  - rewrite fmap_app. apply StronglySorted_app. split_and!; [| apply Hok | repeat constructor].
    intros x y Hin Hy. assert (y = s') as -> by set_solver.
    rewrite fmap_app in Hin. apply elem_of_app in Hin as [Hin | Hin].
    + pose proof (log_last_gt _ _ _ _ Hok Hin). lia.
    + assert (x = s) as -> by set_solver. done.
  - apply Forall_app. split; [apply Hok | by constructor].
Qed.

Lemma dir_of_snoc sg s ps :
  log_ok (sg ++ [(s, ps)]) ->
  dir_of (sg ++ [(s, ps)]) = <[wal_path s := RegularFile (frames ps)]> (dir_of sg).
Proof.
  intros Hok. unfold dir_of. rewrite fmap_app.
  change (seg_file <$> [(s, ps)]) with [(wal_path s, RegularFile (frames ps))].
  rewrite list_to_map_snoc; [done |].
  pose proof (proj2 (log_ok_app_inv _ _ Hok)) as [_ Hs].
  apply Forall_cons in Hs as [Hs _].
  apply dir_of_fresh; [by apply log_ok_app_inv in Hok as [? _] | by apply (seg_ok_u64 (s, ps)) |].
  by apply log_last_fresh in Hok.
Qed.

Lemma dir_of_update sg s ps ps' :
  log_ok (sg ++ [(s, ps)]) -> seg_ok (s, ps') ->
  <[wal_path s := RegularFile (frames ps')]> (dir_of (sg ++ [(s, ps)]))
  = dir_of (sg ++ [(s, ps')]).
Proof.
  intros Hok Hx. rewrite !dir_of_snoc by eauto using log_ok_replace.
  by rewrite insert_insert_eq.
Qed.

Lemma payloads_app sg1 sg2 : payloads (sg1 ++ sg2) = payloads sg1 ++ payloads sg2.
Proof. unfold payloads. by rewrite fmap_app, concat_app. Qed.

Lemma payloads_last s ps : payloads [(s, ps)] = ps.
Proof. unfold payloads. cbn. apply app_nil_r. Qed.

(** ** The invariant of an open store *)
Record store_inv (st : Store) (sg : seglog) (s : Z) (ps : list bytes) : Prop := {
  inv_log : log_ok (sg ++ [(s, ps)]);
  inv_data : st_data st = dir_of (sg ++ [(s, ps)]);
  inv_segment : w_segment (st_writer st) = s;
  inv_file : w_file (st_writer st) = mkHandle (wal_path s) (length (frames ps));
  inv_size : w_size (st_writer st) = blen (frames ps);
  inv_rotation : (0 < w_rotation (st_writer st) < u64_size)%Z
}.

(** What is on disk, whatever the writer holds in memory. *)
Definition root_inv (r : Root) (sg : seglog) : Prop :=
  log_ok sg /\ sg <> [] /\ root_data r = dir_of sg.

Lemma store_root_inv st sg s ps :
  store_inv st sg s ps -> root_inv (Store_close st) (sg ++ [(s, ps)]).
Proof. intros []. split_and!; [done | by destruct sg | done]. Qed.

(** ** Opening *)
Lemma writer_open_log sg s ps rotation :
  log_ok (sg ++ [(s, ps)]) ->
  WalWriter_open (dir_of (sg ++ [(s, ps)])) rotation
  = Ok (dir_of (sg ++ [(s, ps)]),
        mkWriter rotation s (mkHandle (wal_path s) (length (frames ps))) (blen (frames ps))).
Proof.
  intros Hok. unfold WalWriter_open.
  rewrite list_segments_dir_of, fmap_app by (done || by destruct sg). cbn [fmap list_fmap fst].
  rewrite last_snoc. cbn [default from_option id].
  rewrite (dir_of_lookup _ s ps) by (done || set_solver).
  pose proof (proj2 (log_ok_app_inv _ _ Hok)) as [_ Hs]. apply Forall_cons in Hs as [[] _].
  rewrite recover_frames by done. cbn [rbind].
  rewrite insert_id; [done |]. apply dir_of_lookup; [done | set_solver].
Qed.

Lemma open_log r sg s ps rotation :
  root_inv r (sg ++ [(s, ps)]) -> root_locked r = false -> (0 < rotation < u64_size)%Z ->
  exists st, Store_open_with_rotation r rotation = Ok st
    /\ store_inv st sg s ps /\ st_snap st = root_snap r /\ st_manifest st = root_manifest r.
Proof.
  intros (Hok & Hne & Hd) Hl Hr. unfold Store_open_with_rotation.
  rewrite decide_False by lia. rewrite Hl, Hd, writer_open_log by done. cbn [rbind].
  eexists. split; [done |]. split; [| done]. by constructor.
Qed.

Lemma open_fresh snap manifest rotation :
  (0 < rotation < u64_size)%Z ->
  exists st, Store_open_with_rotation (mkRoot ∅ snap manifest false) rotation = Ok st
    /\ store_inv st [] 1 [] /\ st_snap st = snap /\ st_manifest st = manifest.
Proof.
  intros Hr. unfold Store_open_with_rotation. rewrite decide_False by lia. cbn [root_locked].
  unfold WalWriter_open. cbn [root_data].
  replace (list_segments ∅) with [1%Z] by (by vm_compute). cbn [last default from_option id].
  rewrite lookup_empty. cbn [rbind]. eexists. split; [done |].
  split; [| done]. constructor; try done.
  split; [repeat constructor |]. apply Forall_singleton.
  split; cbn; [done | constructor | done].
Qed.

(** ** Appending *)
Lemma write_at_end c b : write_at c (length c) b = c ++ b.
Proof.
  unfold write_at. rewrite take_ge by lia. rewrite Nat.sub_diag, drop_ge by lia.
  cbn. by rewrite app_nil_r.
Qed.

Lemma write_all_end d name c b :
  file_content d name = Some c ->
  write_all d (mkHandle name (length c)) b
  = (<[name := RegularFile (c ++ b)]> d, mkHandle name (length (c ++ b))).
Proof.
  intros Hc. unfold write_all. cbn [fh_name fh_pos]. rewrite Hc, write_at_end, length_app. done.
Qed.

Lemma file_content_insert d name c : file_content (<[name := RegularFile c]> d) name = Some c.
Proof. unfold file_content. by rewrite lookup_insert_eq. Qed.

(** Where the writer puts the next record: in a new segment when it does not fit. *)
Definition place (rotation : Z) (sg : seglog) (s : Z) (ps : list bytes) (p : bytes)
  : seglog * Z * list bytes :=
  if (rotation <? blen (frames ps) + (4 + blen p + 4))%Z
  then (sg ++ [(s, ps)], (s + 1)%Z, [])
  else (sg, s, ps).

(** How many bytes of the frame a fault lets through. *)
Definition written (fault : AppendFault) (p : bytes) : nat :=
  match fault with
  | Hook BeforeWrite | RotationFails _ => 0
  | Hook AfterLengthWrite => 4
  | Hook AfterPayloadWrite => 4 + length p
  | CutAt k => k `min` (8 + length p)
  | _ => 8 + length p
  end.

(** The error of the writes of a frame. *)
Definition write_error (fault : AppendFault) (p : bytes) : option WalError :=
  match fault with
  | Hook AfterLengthWrite => Some (Injected AfterLengthWrite)
  | Hook AfterPayloadWrite => Some (Injected AfterPayloadWrite)
  | CutAt k => if decide (k < 8 + length p) then Some IoFailure else None
  | _ => None
  end.

(** A payload that is cut in its middle, which recovery refuses. *)
Definition ambiguous (fault : AppendFault) (p : bytes) : bool :=
  match fault with
  | CutAt k => bool_decide (4 < k < 4 + length p)
  | _ => false
  end.

Lemma take_written_length p : take 4 (frame p) = to_le_bytes32 (blen p `mod` u32_size).
Proof. unfold frame. apply take_app_length'. by rewrite length_to_le_bytes32. Qed.

Lemma take_written_payload p :
  take (4 + length p) (frame p) = to_le_bytes32 (blen p `mod` u32_size) ++ p.
Proof.
  unfold frame. rewrite app_assoc. apply take_app_length'.
  by rewrite length_app, length_to_le_bytes32.
Qed.

Lemma place_ok st sg s ps p sg' s' ps' :
  store_inv st sg s ps -> payload_ok p -> (s + 1 < u64_size)%Z ->
  place (w_rotation (st_writer st)) sg s ps p = (sg', s', ps') ->
  log_ok (sg' ++ [(s', ps')]) /\ seg_ok (s', ps' ++ [p])
  /\ payloads (sg' ++ [(s', ps')]) = payloads (sg ++ [(s, ps)]).
Proof.
  intros [Hlog Hd Hseg Hf Hsz Hrot] Hp Hs Hpl. unfold place in Hpl.
  pose proof (proj2 (log_ok_app_inv _ _ Hlog)) as [_ Hl]. apply Forall_singleton in Hl as [H1 H2 H3].
  cbn [fst snd] in *. unfold payload_ok in Hp. pose proof (blen_nonneg p).
  destruct (Z.ltb_spec (w_rotation (st_writer st)) (blen (frames ps) + (4 + blen p + 4)));
    simplify_eq.
  - assert (seg_ok (w_segment (st_writer st) + 1, [p])%Z) as Hsp.
    { split; cbn [fst snd]; [lia | by apply Forall_singleton |].
      rewrite <- (app_nil_l [p]), frames_snoc, blen_app, blen_frame.
      change (blen (frames [])) with 0%Z. unfold u32_size, u64_size in *. lia. }
    split_and!; [| done |].
    + apply log_ok_extend; [done | lia |]. split; cbn [fst snd]; [lia | constructor | done].
    + rewrite payloads_app, payloads_last. apply app_nil_r.
  - split_and!; [done | | done]. split; cbn [fst snd]; [done | |].
    + apply Forall_app. by split; [| apply Forall_singleton].
    + rewrite frames_snoc, blen_app, blen_frame. lia.
Qed.

(** The writer after the optional rotation. *)
Lemma rotated_inv (fault : AppendFault) st sg s ps p sg' s' ps' :
  store_inv st sg s ps -> payload_ok p -> (s + 1 < u64_size)%Z ->
  place (w_rotation (st_writer st)) sg s ps p = (sg', s', ps') ->
  (forall c, fault <> RotationFails c) ->
  (if (w_rotation (st_writer st) <? w_size (st_writer st) + (4 + blen p + 4))%Z
   then rotate fault (st_data st) (st_writer st) else (st_data st, Ok (st_writer st)))
  = (dir_of (sg' ++ [(s', ps')]),
     Ok (mkWriter (w_rotation (st_writer st)) s'
          (mkHandle (wal_path s') (length (frames ps'))) (blen (frames ps')))).
Proof.
  intros Hinv Hp Hs Hpl Hnr. destruct (place_ok _ _ _ _ _ _ _ _ Hinv Hp Hs Hpl) as (Hok & _ & _).
  destruct Hinv as [Hlog Hd Hseg Hf Hsz Hrot]. unfold place in Hpl. rewrite Hsz.
  destruct (w_rotation (st_writer st) <? blen (frames ps) + (4 + blen p + 4))%Z; simplify_eq.
  - unfold rotate. rewrite !decide_False by done. rewrite Hd.
    pose proof (proj2 (log_ok_app_inv _ _ Hlog)) as [_ Hl].
    apply Forall_singleton in Hl as [H1 _ _]. cbn [fst] in H1.
    rewrite u64_add_small by lia.
    assert (dir_of (sg ++ [(w_segment (st_writer st), ps)])
              !! wal_path (w_segment (st_writer st) + 1) = None) as ->.
    { apply not_elem_of_list_to_map_1, dir_of_fresh; [done | unfold is_u64; lia |].
      by apply log_last_fresh in Hok. }
    f_equal. by rewrite (dir_of_snoc _ _ []).
  - rewrite Hd. f_equal. f_equal. destruct (st_writer st); cbn in *. by subst.
Qed.

(** A write of a part of a frame, whole or cut. *)
Lemma write_part_whole (fault : AppendFault) start d name c b :
  file_content d name = Some c -> (forall k, fault = CutAt k -> ~ (start <= k < start + length b)) ->
  write_part fault start d (mkHandle name (length c)) b
  = (<[name := RegularFile (c ++ b)]> d, mkHandle name (length (c ++ b)), true).
Proof.
  intros Hc Hk. unfold write_part. rewrite <- (write_all_end _ _ _ b Hc). destruct fault; try done.
  by rewrite decide_False by (by apply Hk).
Qed.

Lemma write_part_cut k start d name c b :
  file_content d name = Some c -> start <= k < start + length b ->
  write_part (CutAt k) start d (mkHandle name (length c)) b
  = (<[name := RegularFile (c ++ take (k - start) b)]> d, mkHandle name (length (c ++ take (k - start) b)), false).
Proof. intros Hc Hk. unfold write_part. rewrite decide_True by done. by rewrite (write_all_end _ _ c). Qed.

Lemma take_frame_cut (a b c : bytes) k :
  length a <= k < length a + length b -> take k (a ++ b ++ c) = a ++ take (k - length a) b.
Proof. intros Hk. rewrite take_app_ge, take_app_le by lia. done. Qed.

Lemma append_writes st sg s ps p (fault : AppendFault) sg' s' ps' :
  store_inv st sg s ps -> payload_ok p -> (s + 1 < u64_size)%Z ->
  fault <> BeforeWrite -> (forall c, fault <> RotationFails c) ->
  place (w_rotation (st_writer st)) sg s ps p = (sg', s', ps') ->
  exists w,
    WalWriter_append (st_data st) (st_writer st) p fault
    = ((<[wal_path s' := RegularFile (frames ps' ++ take (written fault p) (frame p))]>
          (dir_of (sg' ++ [(s', ps')])), w),
       match write_error fault p with Some e => Err e | None => Ok (mkOffset s' (blen (frames ps'))) end)
    /\ (write_error fault p = None ->
        w = mkWriter (w_rotation (st_writer st)) s'
              (mkHandle (wal_path s') (length (frames (ps' ++ [p]))))
              (blen (frames (ps' ++ [p])))).
Proof.
  intros Hinv Hp Hs Hfp Hnr Hpl. destruct (place_ok _ _ _ _ _ _ _ _ Hinv Hp Hs Hpl) as (Hok & _ & _).
  unfold WalWriter_append. rewrite (rotated_inv _ _ _ _ _ _ _ _ _ Hinv Hp Hs Hpl Hnr).
  cbn [w_file w_rotation w_segment w_size].
  set (len := to_le_bytes32 (blen p `mod` u32_size)). set (crc := to_le_bytes32 (crc32 p)).
  assert (length len = 4 /\ length crc = 4) as [Hlen Hcrc] by (subst len crc; by rewrite !length_to_le_bytes32).
  assert (frame p = len ++ p ++ crc) as Hframe by done.
  assert (length (frame p) = 8 + length p) as Hfl by (by rewrite length_frame).
  assert (frames (ps' ++ [p]) = frames ps' ++ len ++ p ++ crc) as Hsnoc by (by rewrite frames_snoc).
  assert (file_content (dir_of (sg' ++ [(s', ps')])) (wal_path s') = Some (frames ps')) as Hc
    by (apply dir_of_content; [done | set_solver]).
  assert ((exists k, fault = CutAt k /\ k < 8 + length p) \/ ~ exists k, fault = CutAt k /\ k < 8 + length p)
    as [(k & -> & Hk) | Hcut].
  { destruct fault as [| | k |]; try (right; by intros (? & ? & _)). destruct (decide (k < 8 + length p)); [left; by exists k |].
    right. by intros (? & [= <-] & ?). }
  { cbn [written write_error]. rewrite decide_True by done. replace (k `min` (8 + length p)) with k by lia. rewrite Hframe.
    destruct (decide (k < 4)); [| rewrite (write_part_whole _ _ _ _ (frames ps')) by (done || (intros ? [= <-]; lia))].
    { rewrite (write_part_cut _ _ _ _ (frames ps')) by (done || lia). rewrite Nat.sub_0_r, take_app_le by lia. by eexists. }
    cbn [negb]. rewrite decide_False by done.
    destruct (decide (k < 4 + length p)); [| rewrite write_part_whole by (apply file_content_insert || (intros ? [= <-]; lia))].
    { rewrite write_part_cut by (apply file_content_insert || lia). cbn [negb]. rewrite insert_insert_eq, take_frame_cut by lia.
      rewrite Hlen, <- app_assoc. by eexists. }
    cbn [negb]. rewrite decide_False by done. rewrite write_part_cut by (apply file_content_insert || lia). cbn [negb].
    rewrite !insert_insert_eq, (app_assoc len p crc), take_app_ge by (rewrite length_app; lia).
    rewrite (length_app len p), Hlen, <- !app_assoc. by eexists. }
  assert (forall start (b : bytes) k, start + length b <= 8 + length p -> fault = CutAt k -> ~ (start <= k < start + length b)) as Hw
    by (intros start b k ? -> ?; apply Hcut; exists k; split; [done | lia]).
  rewrite (write_part_whole _ _ _ _ (frames ps')) by (done || (intros ?; apply Hw; lia)). cbn [negb].
  destruct (decide (fault = AfterLengthWrite)) as [-> |].
  { cbn [written]. rewrite take_written_length. eexists. split; [done | done]. }
  rewrite write_part_whole by (apply file_content_insert || (intros ?; apply Hw; lia)). cbn [negb]. rewrite insert_insert_eq.
  destruct (decide (fault = AfterPayloadWrite)) as [-> |].
  { cbn [written]. rewrite take_written_payload, <- app_assoc. eexists. split; [done | done]. }
  rewrite write_part_whole by (apply file_content_insert || (intros ?; apply Hw; lia)). cbn [negb]. rewrite insert_insert_eq.
  assert (write_error fault p = None /\ 8 + length p <= written fault p) as [-> Hwr].
  { destruct fault as [[]| c | k |]; try done; try (by destruct (Hnr c)); cbn; try (split; [done | lia]).
    assert (~ k < 8 + length p) as Hk by (intros ?; apply Hcut; by exists k). rewrite decide_False by done. split; [done | lia]. }
  rewrite (take_ge (frame p)) by lia. rewrite <- !app_assoc. rewrite Hsnoc, Hframe. eexists. split; [done |]. intros _.
  f_equal. rewrite <- Hsnoc, frames_snoc, blen_app, blen_frame. done.
Qed.

(** A successful append extends the log by one record and returns its offset. *)
Lemma append_ok st sg s ps p sg' s' ps' :
  store_inv st sg s ps -> payload_ok p -> (s + 1 < u64_size)%Z ->
  place (w_rotation (st_writer st)) sg s ps p = (sg', s', ps') ->
  exists st', Store_append st p Disabled = (st', Ok (mkOffset s' (blen (frames ps'))))
    /\ store_inv st' sg' s' (ps' ++ [p])
    /\ st_snap st' = st_snap st /\ st_manifest st' = st_manifest st
    /\ w_rotation (st_writer st') = w_rotation (st_writer st).
Proof.
  intros Hinv Hp Hs Hpl. destruct (place_ok _ _ _ _ _ _ _ _ Hinv Hp Hs Hpl) as (Hok & Hx & _).
  destruct (append_writes _ _ _ _ _ Disabled _ _ _ Hinv Hp Hs ltac:(done) ltac:(done) Hpl) as (w & Hw & Hweq).
  rewrite Hweq in Hw by done. clear Hweq. unfold Store_append. rewrite decide_False by done.
  rewrite Hw. cbn [write_error]. rewrite !decide_False by done.
  eexists. split; [done |]. split; [| done]. destruct Hinv.
  constructor; cbn; try done.
  - by eapply log_ok_replace.
  - rewrite (take_ge (frame p)) by (rewrite length_frame; done).
    rewrite <- frames_snoc. by apply dir_of_update.
Qed.

(** ** Crash atomicity

    A segment with the first [k] bytes of one more frame behind its records: the state a crash
    or a failed write leaves. *)
Definition torn_root (r : Root) (sg : seglog) (s : Z) (ps : list bytes) (p : bytes) (k : nat)
  : Prop :=
  root_data r
  = <[wal_path s := RegularFile (frames ps ++ take k (frame p))]> (dir_of (sg ++ [(s, ps)])).

Lemma torn_list_segments sg s ps c :
  log_ok (sg ++ [(s, ps)]) ->
  list_segments (<[wal_path s := RegularFile c]> (dir_of (sg ++ [(s, ps)])))
  = fst <$> (sg ++ [(s, ps)]).
Proof.
  intros Hok. rewrite <- (list_segments_dir_of (sg ++ [(s, ps)])) by (done || by destruct sg).
  rewrite (dir_of_snoc _ _ ps) by done. rewrite insert_insert_eq.
  assert (dir_of sg !! wal_path s = None) as Hn.
  { pose proof (log_last_ok _ _ Hok) as Hl.
    apply not_elem_of_list_to_map_1, dir_of_fresh;
      [by apply log_ok_app_inv in Hok as [? _] | exact (seg_ok_u64 _ Hl) |].
    by apply log_last_fresh in Hok. }
  unfold list_segments.
  set (f := fun '(name, e) => match e with RegularFile _ => segment_of_name name
                                         | OtherEntry => None end).
  assert (forall c', omap f (map_to_list (<[wal_path s := RegularFile c']> (dir_of sg)))
          ≡ₚ omap f ((wal_path s, RegularFile c') :: map_to_list (dir_of sg))) as Hperm.
  { intros c'. by rewrite map_to_list_insert. }
  pose proof (Hperm c) as P1. pose proof (Hperm (frames ps)) as P2.
  assert (omap f ((wal_path s, RegularFile c) :: map_to_list (dir_of sg))
          = omap f ((wal_path s, RegularFile (frames ps)) :: map_to_list (dir_of sg))) as E
    by done.
  rewrite E in P1. rewrite <- P2 in P1. clear P2 E.
  revert P1. generalize (omap f (map_to_list (<[wal_path s := RegularFile c]> (dir_of sg)))).
  generalize (omap f (map_to_list (<[wal_path s := RegularFile (frames ps)]> (dir_of sg)))).
  intros l2 l1 P. f_equal. apply (StronglySorted_unique Z.le).
  1-2: apply StronglySorted_merge_sort; apply _.
  rewrite !merge_sort_Permutation. destruct (decide (l1 = [])) as [-> |].
  - apply Permutation_nil in P as ->. done.
  - destruct (decide (l2 = [])) as [-> |]; [| done]. symmetry in P.
    by apply Permutation_nil in P.
Qed.

(** Reopening after [k] bytes of a frame reached the file. *)
Lemma open_torn r sg s ps p k rotation :
  torn_root r sg s ps p k -> log_ok (sg ++ [(s, ps)]) -> seg_ok (s, ps ++ [p]) ->
  root_locked r = false -> (0 < rotation < u64_size)%Z -> k <= length (frame p) ->
  match Store_open_with_rotation r rotation with
  | Ok st => ~ (4 < k < 4 + length p)
      /\ st_snap st = root_snap r /\ st_manifest st = root_manifest r
      /\ (if decide (k = length (frame p)) then store_inv st sg s (ps ++ [p])
          else store_inv st sg s ps)
  | Err e => 4 < k < 4 + length p /\ e = AmbiguousPartialPayload (blen (frames ps))
  end.
Proof.
  intros Hd Hok Hx Hl Hr Hk. unfold torn_root in Hd.
  destruct (decide (k = 0)) as [-> |].
  { rewrite take_0, app_nil_r in Hd.
    rewrite insert_id in Hd by (apply dir_of_lookup; [done | set_solver]).
    destruct (open_log r sg s ps rotation) as (st & -> & Hinv & Hs & Hm);
      [by split_and!; [| destruct sg |] | done | done |].
    rewrite length_frame. rewrite decide_False by lia. split_and!; try done. lia. }
  destruct (decide (k = length (frame p))) as [-> |].
  { rewrite take_ge, <- frames_snoc, dir_of_update in Hd by done.
    destruct (open_log r sg s (ps ++ [p]) rotation) as (st & -> & Hinv & Hs & Hm);
      [by split_and!; [eapply log_ok_replace | destruct sg |] | done | done |].
    split_and!; try done. rewrite length_frame. lia. }
  unfold Store_open_with_rotation. rewrite decide_False by lia. rewrite Hl.
  unfold WalWriter_open. rewrite Hd, torn_list_segments, fmap_app by done.
  cbn [fmap list_fmap fst]. rewrite last_snoc. cbn [default from_option id].
  rewrite lookup_insert_eq. destruct Hx as [H1 H2 H3]. cbn [fst snd] in *.
  apply Forall_app in H2 as [H2 H2']. assert (payload_ok p) by (by inversion H2').
  rewrite recover_torn by (done || lia). unfold torn_tail_outcome.
  destruct (decide (4 < k < 4 + length p)); cbn [rbind]; [done |].
  split_and!; try done. rewrite insert_insert_eq. constructor; cbn; try done.
  rewrite insert_id; [done |]. apply dir_of_lookup; [done | set_solver].
Qed.

End log.
