(* ===== verification/WalRead.v ===== *)
(** * Reading the log back

    [reads_at sg s rest]: a stream over the files of [sg] is in a state from which it yields
    exactly [rest]. [next] preserves it; [WalStream_new] establishes it for every offset that
    lies on a record boundary, and for the start of a segment that has been compacted away. *)

From stdpp Require Import prelude gmap strings list sorting.
From Stdlib Require Import ZArith Lia.
From S2P Require Import Prelude RustStr Wal WalSpec.

Section read.
Context `{Crc32, !Crc32Ok}.

(** The records at and after an offset. *)
Inductive offset_at (sg : seglog) : Offset -> list bytes -> Prop :=
| offset_exact pre s ps1 ps2 post :
    sg = pre ++ (s, ps1 ++ ps2) :: post ->
    offset_at sg (mkOffset s (blen (frames ps1))) (ps2 ++ payloads post)
| offset_before pre x post s pos :
    sg = pre ++ x :: post -> Forall (fun y => (fst y < s)%Z) pre -> (s < fst x)%Z ->
    offset_at sg (mkOffset s pos) (payloads (x :: post)).

Inductive reads_at (sg : seglog) (s : WalStream) : list bytes -> Prop :=
| reads_open i seg ps1 ps2 :
    ws_segments s = fst <$> sg -> ws_idx s = i -> sg !! i = Some (seg, ps1 ++ ps2) ->
    ws_file s = Some (mkHandle (wal_path seg) (length (frames ps1))) ->
    segment (ws_offset s) = seg ->
    reads_at sg s (ps2 ++ payloads (drop (S i) sg))
| reads_closed i :
    ws_segments s = fst <$> sg -> ws_idx s = i -> ws_file s = None ->
    (forall seg ps, sg !! i = Some (seg, ps) -> (segment (ws_offset s) <= seg)%Z) ->
    position (ws_offset s) = 0%Z ->
    reads_at sg s (payloads (drop i sg)).

(** Rounds of the loop in [next] still needed before an item comes out. *)
Definition reads_measure (s : WalStream) : nat :=
  2 * (length (ws_segments s) - ws_idx s)
  + match ws_file s with Some _ => 1 | None => 2 end.

Lemma read_exact_app a b c n : length b = n -> read_exact (a ++ b ++ c) (length a) n = Some b.
Proof.
  intros Hn. unfold read_exact. rewrite decide_True by (rewrite !length_app; lia).
  rewrite drop_app_length. by rewrite take_app_length'.
Qed.

Lemma read_exact_end a n : 0 < n -> read_exact a (length a) n = None.
Proof. intros Hn. unfold read_exact. by rewrite decide_False by lia. Qed.

Lemma frames_header_reads ps1 p ps2 :
  payload_ok p ->
  let c := frames (ps1 ++ p :: ps2) in
  let h := to_le_bytes32 (blen p `mod` u32_size) in
  read_exact c (length (frames ps1)) 4 = Some h
  /\ Z.to_nat (from_le_bytes32 h) = length p
  /\ read_exact c (length (frames ps1) + 4) (length p) = Some p
  /\ read_exact c (length (frames ps1) + 4 + length p) 4 = Some (to_le_bytes32 (crc32 p)).
Proof.
  intros Hp c h. unfold c. rewrite frames_app, frames_cons. unfold frame. fold h.
  rewrite <- !app_assoc.
  assert (length h = 4) as Hh by apply length_to_le_bytes32.
  split_and!.
  - by apply read_exact_app.
  - unfold h. rewrite header_value by done. apply to_nat_blen.
  - rewrite app_assoc. rewrite <- Hh at 1. rewrite <- length_app. by apply read_exact_app.
  - rewrite !app_assoc. rewrite <- Hh at 1. rewrite <- !length_app. rewrite <- !(app_assoc (_ ++ p)).
    apply read_exact_app, length_to_le_bytes32.
Qed.

(** [next] takes one record from an open file. *)
Lemma next_record fuel sg s i seg ps1 p ps2 :
  log_ok sg -> ws_segments s = fst <$> sg -> ws_idx s = i ->
  sg !! i = Some (seg, ps1 ++ p :: ps2) ->
  ws_file s = Some (mkHandle (wal_path seg) (length (frames ps1))) ->
  segment (ws_offset s) = seg ->
  exists s', next (S fuel) (dir_of sg) s = (s', Some (Ok p))
    /\ reads_at sg s' (ps2 ++ payloads (drop (S i) sg)).
Proof.
  intros Hok Hsegs Hi Hlk Hf Hoff.
  assert ((seg, ps1 ++ p :: ps2) ∈ sg) as Hin by (by eapply list_elem_of_lookup_2).
  assert (payload_ok p) as Hp.
  { destruct Hok as [_ Hall]. rewrite Forall_forall in Hall. destruct (Hall _ Hin) as [_ Hps _].
    cbn in Hps. rewrite Forall_forall in Hps. apply Hps. set_solver. }
  destruct (frames_header_reads ps1 p ps2 Hp) as (R1 & R2 & R3 & R4).
  cbn [next]. rewrite Hf. cbn [fh_name fh_pos].
  rewrite (dir_of_content _ _ _ Hok Hin). cbn [default from_option id].
  rewrite R1, R2, R3, R4. rewrite from_to_le_bytes32 by apply crc32_range.
  rewrite decide_True by done. eexists. split; [done |].
  eapply (reads_open _ _ i seg (ps1 ++ [p]) ps2); cbn; try done.
  - by rewrite <- app_assoc.
  - f_equal. f_equal. rewrite frames_snoc, length_app, length_frame. lia.
Qed.

(** [next] at the end of a segment closes it. *)
Lemma next_eof fuel sg s seg ps :
  log_ok sg -> (seg, ps) ∈ sg ->
  ws_file s = Some (mkHandle (wal_path seg) (length (frames ps))) ->
  next (S fuel) (dir_of sg) s
  = next fuel (dir_of sg)
      (mkStream (ws_segments s) (S (ws_idx s)) None (ws_position s)
         (mkOffset (u64_add (segment (ws_offset s)) 1) 0)).
Proof.
  intros Hok Hin Hf. cbn [next]. rewrite Hf. cbn [fh_name fh_pos].
  rewrite (dir_of_content _ _ _ Hok Hin). cbn [default from_option id].
  by rewrite read_exact_end by lia.
Qed.

Lemma open_current_at fuel sg s i seg ps :
  log_ok sg -> ws_segments s = fst <$> sg -> ws_idx s = i -> sg !! i = Some (seg, ps) ->
  (segment (ws_offset s) <= seg)%Z ->
  open_current (S fuel) (dir_of sg) s
  = Ok (let pos := if bool_decide (segment (ws_offset s) = seg)
                      && (0 <? position (ws_offset s))%Z
                   then position (ws_offset s) else 0%Z in
        mkStream (fst <$> sg) i (Some (mkHandle (wal_path seg) (Z.to_nat pos))) pos
          (mkOffset seg 0)).
Proof.
  intros Hok Hsegs Hi Hlk Hle. cbn [open_current]. rewrite Hsegs, Hi.
  rewrite list_lookup_fmap, Hlk. cbn [fmap option_fmap option_map fst].
  rewrite (dir_of_content sg seg ps) by (done || by eapply list_elem_of_lookup_2).
  destruct (Z.ltb_spec seg (segment (ws_offset s))); [lia | done].
Qed.

Lemma log_next_segment sg i s1 p1 s2 p2 :
  log_ok sg -> sg !! i = Some (s1, p1) -> sg !! S i = Some (s2, p2) -> (u64_add s1 1 <= s2)%Z.
Proof.
  intros [Hs Hall] H1 H2. rewrite Forall_forall in Hall.
  destruct (Hall _ (list_elem_of_lookup_2 _ _ _ H1)) as [B1 _ _].
  destruct (Hall _ (list_elem_of_lookup_2 _ _ _ H2)) as [B2 _ _]. cbn [fst] in *.
  assert (s1 < s2)%Z as Hlt.
  { pose proof (take_drop_middle sg i _ H1) as E. rewrite <- E in Hs.
    rewrite fmap_app in Hs. apply StronglySorted_app in Hs as (_ & _ & Hs). cbn in Hs.
    apply StronglySorted_inv in Hs as [_ Hs]. rewrite Forall_forall in Hs. apply Hs.
    apply (list_elem_of_fmap_2' _ _ (s2, p2)); [| done].
    apply (list_elem_of_lookup_2 _ 0). by rewrite lookup_drop, Nat.add_0_r. }
  rewrite u64_add_small; lia.
Qed.

(** From any reading state, [next] yields the next record or ends, within its fuel. *)
Lemma next_spec fuel sg s rest :
  log_ok sg -> reads_at sg s rest -> reads_measure s <= fuel ->
  match rest with
  | [] => exists s', next fuel (dir_of sg) s = (s', None)
  | p :: rest' => exists s', next fuel (dir_of sg) s = (s', Some (Ok p)) /\ reads_at sg s' rest'
  end.
Proof.
  intros Hok. revert s rest. induction fuel as [|fuel IH]; intros s rest Hr Hm.
  { exfalso. unfold reads_measure in Hm. destruct (ws_file s); lia. }
  assert (length (fst <$> sg) = length sg) as Hlen by apply length_fmap.
  destruct Hr as [i seg ps1 ps2 Hsegs Hi Hlk Hf Hoff | i Hsegs Hi Hf Hseg Hpos].
  - destruct ps2 as [|p ps2].
    + rewrite app_nil_r in Hlk.
      assert ((seg, ps1) ∈ sg) as Hin by (by eapply list_elem_of_lookup_2).
      rewrite (next_eof fuel sg s seg ps1) by done. cbn [app]. rewrite Hi.
      apply IH.
      * apply (reads_closed _ _ (S i)); cbn; try done.
        intros s2 p2 Hlk2. rewrite Hoff. by eapply log_next_segment.
      * revert Hm. unfold reads_measure. cbn. rewrite Hf, Hsegs, Hi, Hlen.
        apply lookup_lt_Some in Hlk. lia.
    + cbn [app]. eapply next_record; eauto.
  - cbn [next]. rewrite Hf, Hsegs, Hi, Hlen.
    destruct (decide (length sg <= i)) as [Hle | Hgt].
    + rewrite drop_ge by done. cbn. eauto.
    + destruct (lookup_lt_is_Some_2 sg i) as [[seg ps] Hlk]; [lia |].
      unfold open_fuel. rewrite (open_current_at _ sg s i seg ps) by eauto.
      cbn zeta. rewrite Hpos. rewrite andb_false_r.
      rewrite (drop_S sg (seg, ps)) by done.
      change (payloads ((seg, ps) :: drop (S i) sg)) with (ps ++ payloads (drop (S i) sg)).
      apply IH.
      * by eapply (reads_open _ _ i seg [] ps).
      * revert Hm. unfold reads_measure. cbn. rewrite Hf, Hsegs, Hi, Hlen. lia.
Qed.

Lemma reads_measure_fuel sg s rest : reads_at sg s rest -> reads_measure s <= next_fuel s.
Proof. intros _. unfold reads_measure, next_fuel. destruct (ws_file s); lia. Qed.

Lemma stream_items_spec fuel sg s rest :
  log_ok sg -> reads_at sg s rest -> length rest < fuel ->
  stream_items fuel (dir_of sg) s = Ok <$> rest.
Proof.
  intros Hok. revert s rest. induction fuel as [|fuel IH]; intros s rest Hr Hl; [lia |].
  pose proof (next_spec _ _ _ _ Hok Hr (reads_measure_fuel _ _ _ Hr)) as Hn.
  cbn [stream_items]. destruct rest as [|p rest].
  - destruct Hn as [s' ->]. done.
  - destruct Hn as (s' & -> & Hr'). cbn. f_equal. apply IH; [done |]. cbn in Hl. lia.
Qed.

(** ** Starting at an offset *)
Lemma position_ge_split k l1 s l2 bound :
  Forall (fun x => (x < bound)%Z) l1 -> (bound <= s)%Z ->
  position_ge k (l1 ++ s :: l2) bound = Some (k + length l1).
Proof.
  intros Hl Hs. revert k. induction Hl as [|x l1 Hx Hl IH]; intros k; cbn.
  - destruct (Z.leb_spec bound s); [f_equal; lia | lia].
  - destruct (Z.leb_spec bound x); [lia |]. rewrite IH. f_equal. lia.
Qed.

Lemma stream_new_at sg pre x post offset :
  log_ok sg -> sg = pre ++ x :: post ->
  Forall (fun y => (fst y < segment offset)%Z) pre -> (segment offset <= fst x)%Z ->
  WalStream_new (dir_of sg) offset
  = Ok (let pos := if bool_decide (segment offset = fst x) && (0 <? position offset)%Z
                   then position offset else 0%Z in
        mkStream (fst <$> sg) (length pre)
          (Some (mkHandle (wal_path (fst x)) (Z.to_nat pos))) pos (mkOffset (fst x) 0)).
Proof.
  intros Hok Hsg Hpre Hx. unfold WalStream_new.
  rewrite list_segments_dir_of by (done || by destruct pre; subst).
  assert (position_ge 0 (fst <$> sg) (segment offset) = Some (length pre)) as ->.
  { rewrite Hsg, fmap_app. cbn. rewrite position_ge_split; [by rewrite length_fmap | | done].
    by apply Forall_fmap. }
  cbn [default from_option id]. destruct x as [seg ps]. unfold open_fuel.
  rewrite (open_current_at _ sg _ (length pre) seg ps); try done.
  cbn. rewrite Hsg. by apply list_lookup_middle.
Qed.

Lemma log_split_lt sg pre x post :
  log_ok sg -> sg = pre ++ x :: post -> Forall (fun y => (fst y < fst x)%Z) pre.
Proof.
  intros [Hs _] ->. rewrite fmap_app in Hs. apply StronglySorted_app in Hs as (Hlt & _ & _).
  apply Forall_forall. intros y Hy. apply Hlt; [by apply list_elem_of_fmap_2 | set_solver].
Qed.

Lemma drop_middle {A} (l1 : list A) x l2 : drop (S (length l1)) (l1 ++ x :: l2) = l2.
Proof. induction l1 as [|y l1 IH]; [done | exact IH]. Qed.

Lemma stream_new_reads sg offset rest :
  log_ok sg -> offset_at sg offset rest ->
  exists s, WalStream_new (dir_of sg) offset = Ok s /\ reads_at sg s rest.
Proof.
  intros Hok Hat. destruct Hat as [pre s ps1 ps2 post Hsg | pre x post s pos Hsg Hpre Hx].
  - erewrite stream_new_at; [| done | done | |]; cbn;
      [| by eapply (log_split_lt sg pre (s, ps1 ++ ps2)) | lia].
    eexists. split; [done |]. rewrite bool_decide_true by done. cbn.
    replace post with (drop (S (length pre)) sg).
    2:{ rewrite Hsg. apply drop_middle. }
    eapply reads_open; cbn; try done.
    + rewrite Hsg. by apply list_lookup_middle.
    + f_equal. f_equal. pose proof (blen_nonneg (frames ps1)).
      destruct (Z.ltb_spec 0 (blen (frames ps1))); unfold blen in *; lia.
  - erewrite stream_new_at; [| done | done | done |]; cbn; [| lia].
    eexists. split; [done |]. rewrite bool_decide_false by lia. cbn.
    destruct x as [seg ps].
    change (payloads ((seg, ps) :: post)) with (ps ++ payloads post).
    replace post with (drop (S (length pre)) sg).
    2:{ rewrite Hsg. apply drop_middle. }
    eapply (reads_open _ _ _ seg [] ps); cbn; try done.
    rewrite Hsg. by apply list_lookup_middle.
Qed.

Lemma payloads_le_bytes sg : log_ok sg -> length (payloads sg) <= dir_bytes (dir_of sg).
Proof.
  intros Hok. unfold dir_bytes, dir_of.
  rewrite map_to_list_to_map by by apply log_names_NoDup. clear Hok.
  induction sg as [|[s ps] sg IH]; [done |].
  change (payloads ((s, ps) :: sg)) with (ps ++ payloads sg).
  change (sum_list_with entry_bytes (seg_file <$> (s, ps) :: sg))
    with (length (frames ps) + sum_list_with entry_bytes (seg_file <$> sg)).
  rewrite length_app. pose proof (length_frames ps). lia.
Qed.

Lemma offset_at_length sg offset rest :
  offset_at sg offset rest -> length rest <= length (payloads sg).
Proof.
  destruct 1 as [pre s ps1 ps2 post -> | pre x post s pos -> _ _].
  - rewrite payloads_app.
    change (payloads ((s, ps1 ++ ps2) :: post)) with ((ps1 ++ ps2) ++ payloads post).
    rewrite !length_app. lia.
  - rewrite payloads_app, length_app. lia.
Qed.

(** A reader started at an offset yields exactly the records from there on. *)
Lemma read_from_offset sg offset rest :
  log_ok sg -> offset_at sg offset rest -> read_from (dir_of sg) offset = Ok (Ok <$> rest).
Proof.
  intros Hok Hat. unfold read_from.
  destruct (stream_new_reads _ _ _ Hok Hat) as (s & -> & Hr). cbn [rbind]. f_equal.
  apply stream_items_spec; [done | done |].
  pose proof (offset_at_length _ _ _ Hat). pose proof (payloads_le_bytes _ Hok). lia.
Qed.

(** ** Offsets as the log grows *)
Lemma offset_start_at sg : log_ok sg -> sg <> [] -> offset_at sg Offset_start (payloads sg).
Proof.
  intros [_ Hall] Hne. destruct sg as [|[s ps] sg]; [done |].
  destruct (decide (s = 1%Z)) as [-> |].
  - apply (offset_exact _ [] 1 [] ps sg). done.
  - apply (offset_before _ [] (s, ps) sg 1 0); [done | constructor |].
    apply Forall_cons in Hall as [[H1 _ _] _]. cbn in *. lia.
Qed.

Lemma offset_end_at sg s ps : offset_at (sg ++ [(s, ps)]) (mkOffset s (blen (frames ps))) [].
Proof. apply (offset_exact _ sg s ps [] []). by rewrite app_nil_r. Qed.

Lemma offset_at_snoc sg s ps p offset rest :
  offset_at (sg ++ [(s, ps)]) offset rest -> offset_at (sg ++ [(s, ps ++ [p])]) offset (rest ++ [p]).
Proof.
  destruct 1 as [pre s0 ps1 ps2 post Hsg | pre x post s0 pos Hsg Hpre Hx].
  - destruct post as [|y post] using rev_ind.
    + apply app_inj_tail in Hsg as [-> [= -> ->]].
      change (payloads []) with (@nil bytes). rewrite app_nil_r.
      rewrite <- (app_nil_r (ps2 ++ [p])).
      apply (offset_exact _ pre s0 ps1 (ps2 ++ [p]) []). by rewrite app_assoc.
    + clear IHpost. rewrite app_comm_cons, app_assoc in Hsg.
      apply app_inj_tail in Hsg as [-> <-].
      rewrite payloads_app, payloads_last, <- !app_assoc.
      rewrite <- (payloads_last s (ps ++ [p])), <- payloads_app.
      apply (offset_exact _ pre s0 ps1 ps2). by rewrite payloads_last.
  - destruct post as [|y post] using rev_ind.
    + apply app_inj_tail in Hsg as [-> <-]. rewrite payloads_last.
      rewrite <- (payloads_last s (ps ++ [p])) at 2.
      by eapply (offset_before _ pre (s, ps ++ [p]) []).
    + clear IHpost. rewrite app_comm_cons, app_assoc in Hsg.
      apply app_inj_tail in Hsg as [-> <-].
      replace (payloads (x :: post ++ [(s, ps)]) ++ [p])
        with (payloads (x :: (post ++ [(s, ps ++ [p])])))
        by (rewrite !app_comm_cons, !payloads_app, !payloads_last; apply app_assoc).
      eapply (offset_before _ pre x); [| done | done]. by rewrite <- app_assoc.
Qed.

Lemma offset_at_extend sg s offset rest :
  offset_at sg offset rest -> offset_at (sg ++ [(s, [])]) offset rest.
Proof.
  destruct 1 as [pre s0 ps1 ps2 post -> | pre x post s0 pos -> Hpre Hx].
  - replace (payloads post) with (payloads (post ++ [(s, [])]))
      by (rewrite payloads_app, payloads_last; apply app_nil_r).
    apply (offset_exact _ pre s0 ps1 ps2). by rewrite <- app_assoc.
  - replace (payloads (x :: post)) with (payloads (x :: (post ++ [(s, [])])))
      by (rewrite app_comm_cons, payloads_app, payloads_last; apply app_nil_r).
    apply (offset_before _ pre x); [| done | done]. by rewrite <- app_assoc.
Qed.

(** Appending keeps every offset and adds the record behind it. *)
Lemma offset_at_place rotation sg s ps p sg' s' ps' offset rest :
  place rotation sg s ps p = (sg', s', ps') ->
  offset_at (sg ++ [(s, ps)]) offset rest ->
  offset_at (sg' ++ [(s', ps' ++ [p])]) offset (rest ++ [p]).
Proof.
  intros Hpl Hat. unfold place in Hpl.
  destruct (rotation <? blen (frames ps) + (4 + blen p + 4))%Z; simplify_eq.
  - apply offset_at_snoc. by apply offset_at_extend.
  - by apply offset_at_snoc.
Qed.
End read.
