(* ===== verification/WalProps.v ===== *)
(** * Theorems about the write-ahead log

    Runs of a store (open, append, failed append and restart, restart) as a step relation, and
    the properties of [wal.rs] stated over it; then the compaction of [gc.rs], which removes segments
    below an offset and nothing a reader from there on needs. The witnesses instantiate the checksum
    with the CRC-32 of IEEE 802.3. *)

From stdpp Require Import prelude gmap strings list sorting.
From coqutil Require Import Byte Word.LittleEndianList.
From Stdlib Require Import ZArith Lia.
From S2P Require Import Prelude RustStr Wal WalSpec WalRead.

(** ** A concrete checksum: CRC-32 with the reflected polynomial 0xEDB88320 *)
Fixpoint crc_bits (n : nat) (c : Z) : Z :=
  match n with
  | O => c
  | S n' =>
      crc_bits n' (if Z.testbit c 0 then Z.lxor (Z.shiftr c 1) 0xEDB88320%Z else Z.shiftr c 1)
  end.

Definition crc_ieee (b : bytes) : Z :=
  (Z.lxor (foldl (fun c x => crc_bits 8 (Z.lxor c (Z.of_N (Byte.to_N x)))) 0xFFFFFFFF%Z b)
     0xFFFFFFFF `mod` u32_size)%Z.

Definition ieee : Crc32 := crc_ieee.

Lemma ieee_ok : @Crc32Ok ieee.
Proof. intros b. apply Z.mod_pos_bound. done. Qed.

Section props.
Context `{Crc32, !Crc32Ok}.

(** ** Runs *)

(** The records on disk after the restart that follows a failed append. *)
Definition survivors (ps : list bytes) (p : bytes) (fault : AppendFault) : list bytes :=
  match fault with
  | Hook AfterWriteBeforeSync | Hook AfterSyncBeforeAck | SyncFails => ps ++ [p]
  | _ => ps
  end.

(** [store_run n st ps]: an open store reached in [n] operations whose log is [ps]. *)
Inductive store_run : nat -> Store -> list bytes -> Prop :=
| run_open rotation snap manifest st :
    (0 < rotation < u64_size)%Z ->
    Store_open_with_rotation (mkRoot ∅ snap manifest false) rotation = Ok st ->
    store_run 0 st []
| run_append n st ps p st' offset :
    store_run n st ps -> payload_ok p -> Store_append st p Disabled = (st', Ok offset) ->
    store_run (S n) st' (ps ++ [p])
| run_restart n st ps rotation st' :
    store_run n st ps -> (0 < rotation < u64_size)%Z ->
    Store_open_with_rotation (Store_close st) rotation = Ok st' ->
    store_run (S n) st' ps
| run_failed n st ps p (fp : AppendFault) st1 e rotation st' :
    store_run n st ps -> payload_ok p -> Store_append st p fp = (st1, Err e) ->
    (0 < rotation < u64_size)%Z ->
    Store_open_with_rotation (Store_close st1) rotation = Ok st' ->
    store_run (S n) st' (survivors ps p fp).

(** The invariant behind a run. *)
Definition run_inv (n : nat) (st : Store) (log : list bytes) : Prop :=
  exists sg s ps, store_inv st sg s ps /\ log = payloads (sg ++ [(s, ps)])
    /\ (s <= Z.of_nat n + 1)%Z.

Lemma place_segment rotation sg s ps p sg' s' ps' :
  place rotation sg s ps p = (sg', s', ps') -> (s <= s' <= s + 1)%Z.
Proof. unfold place. intros. case_match; simplify_eq; lia. Qed.

(** A rotation that is not attempted cannot fail; one that fails leaves the old directory or an empty segment. *)
Lemma append_rotation_fails st sg s ps p c st1 e sg' s' ps' :
  store_inv st sg s ps -> payload_ok p -> (s + 1 < u64_size)%Z ->
  place (w_rotation (st_writer st)) sg s ps p = (sg', s', ps') ->
  Store_append st p (RotationFails c) = (st1, Err e) ->
  st_snap st1 = st_snap st /\ st_manifest st1 = st_manifest st /\
  if c then torn_root (Store_close st1) sg' s' ps' p 0 else st1 = st.
Proof.
  intros Hinv Hp Hs Hpl Happ. pose proof Hinv as [Hlog Hd Hseg Hf Hsz Hrot].
  destruct (place_ok _ _ _ _ _ _ _ _ Hinv Hp Hs Hpl) as (Hok & _ & _).
  destruct (Z.ltb_spec (w_rotation (st_writer st)) (w_size (st_writer st) + (4 + blen p + 4))) as [Hrt|Hrt].
  2:{ exfalso. destruct (append_ok _ _ _ _ _ _ _ _ Hinv Hp Hs Hpl) as (st' & E & _).
      unfold Store_append, WalWriter_append in Happ, E. rewrite (proj2 (Z.ltb_ge _ _) Hrt) in Happ, E.
      unfold write_part in Happ, E. repeat case_decide; try done. cbn [negb] in Happ, E.
      repeat (destruct (write_all _ _ _) as [? ?]; cbn in Happ, E). repeat case_decide; simplify_eq. }
  unfold place in Hpl. rewrite Hsz in Hrt. rewrite (proj2 (Z.ltb_lt _ _) Hrt) in Hpl. injection Hpl as <- <- <-.
  unfold Store_append, WalWriter_append in Happ. rewrite decide_False in Happ by done.
  rewrite Hsz, (proj2 (Z.ltb_lt _ _) Hrt) in Happ. unfold rotate in Happ.
  pose proof (proj2 (log_ok_app_inv _ _ Hlog)) as [_ Hl]. apply Forall_singleton in Hl as [H1 _ _]. cbn [fst] in H1.
  assert (dir_of (sg ++ [(s, ps)]) !! wal_path (s + 1) = None) as Hnone.
  { apply not_elem_of_list_to_map_1, dir_of_fresh; [done | unfold is_u64; lia |]. by apply log_last_fresh in Hok. }
  destruct c.
  - rewrite (decide_False (P := RotationFails true = RotationFails false)) in Happ by done.
    rewrite Hd, Hseg, u64_add_small, Hnone in Happ by lia. rewrite decide_True in Happ by done.
    injection Happ as <- <-. split_and!; [done | done |]. unfold torn_root. cbn.
    by rewrite (dir_of_snoc _ _ []), insert_insert_eq by done.
  - rewrite decide_True in Happ by done. injection Happ as <- <-. split_and!; [done | done |].
    unfold with_writer. cbn. by destruct st.
Qed.

(** The directory a failed append leaves is a torn one. *)
Lemma failed_append_torn st sg s ps p (fp : AppendFault) st1 e sg' s' ps' :
  store_inv st sg s ps -> payload_ok p -> (s + 1 < u64_size)%Z ->
  place (w_rotation (st_writer st)) sg s ps p = (sg', s', ps') ->
  fp <> BeforeWrite -> fp <> RotationFails false -> Store_append st p fp = (st1, Err e) ->
  torn_root (Store_close st1) sg' s' ps' p (written fp p)
  /\ st_snap st1 = st_snap st /\ st_manifest st1 = st_manifest st
  /\ (forall k, fp = CutAt k -> k < 8 + length p).
Proof.
  intros Hinv Hp Hs Hpl Hfp Hr Happ.
  destruct (decide (fp = RotationFails true)) as [-> | Hr'].
  { by destruct (append_rotation_fails _ _ _ _ _ _ _ _ _ _ _ Hinv Hp Hs Hpl Happ) as (? & ? & ?). }
  destruct (append_writes _ _ _ _ _ fp _ _ _ Hinv Hp Hs Hfp ltac:(by intros []) Hpl) as (w & Hw & _).
  unfold Store_append in Happ. rewrite decide_False in Happ by done. rewrite Hw in Happ.
  destruct (write_error fp p) eqn:We; cbn match in Happ.
  - simplify_eq. split_and!; [done | done | done |]. intros k ->. cbn in We. by case_decide.
  - destruct fp as [| | k |]; [| done | |]; repeat case_decide; by simplify_eq.
Qed.

Lemma disabled_append_ok st sg s ps p st1 e :
  store_inv st sg s ps -> payload_ok p -> (s + 1 < u64_size)%Z ->
  Store_append st p Disabled <> (st1, Err e).
Proof.
  intros Hinv Hp Hs Happ.
  destruct (place (w_rotation (st_writer st)) sg s ps p) as [[sg' s'] ps'] eqn:Hpl.
  destruct (append_ok _ _ _ _ _ _ _ _ Hinv Hp Hs Hpl) as (st' & E & _). congruence.
Qed.

Lemma offset_at_placed rotation sg s ps p sg' s' ps' offset rest :
  place rotation sg s ps p = (sg', s', ps') -> offset_at (sg ++ [(s, ps)]) offset rest ->
  offset_at (sg' ++ [(s', ps')]) offset rest.
Proof. unfold place. intros Hpl Ho. case_match; simplify_eq; [by apply offset_at_extend | done]. Qed.

(** Restart after a failed append: it is refused when the payload was cut in its middle, and otherwise the log is
    [survivors]. *)
Lemma failed_append_refused st sg s ps p (fp : AppendFault) st1 e rotation :
  store_inv st sg s ps -> payload_ok p -> (s + 1 < u64_size)%Z ->
  Store_append st p fp = (st1, Err e) -> (0 < rotation < u64_size)%Z -> ambiguous fp p = true ->
  exists at_, Store_open_with_rotation (Store_close st1) rotation = Err (AmbiguousPartialPayload at_).
Proof.
  intros Hinv Hp Hs Happ Hr Ha.
  destruct (place (w_rotation (st_writer st)) sg s ps p) as [[sg' s'] ps'] eqn:Hpl.
  destruct (place_ok _ _ _ _ _ _ _ _ Hinv Hp Hs Hpl) as (Hok & Hx & _).
  destruct fp as [| | k |]; try done. apply bool_decide_eq_true in Ha.
  destruct (failed_append_torn _ _ _ _ _ (CutAt k) _ _ _ _ _ Hinv Hp Hs Hpl ltac:(done) ltac:(done) Happ) as (Htorn & _).
  cbn [written] in Htorn. replace (k `min` (8 + length p)) with k in Htorn by lia.
  pose proof (open_torn _ _ _ _ _ _ rotation Htorn Hok Hx eq_refl Hr ltac:(rewrite length_frame; lia)) as Ho.
  destruct (Store_open_with_rotation _ _) as [st' | e'].
  - by destruct Ho as [[] _].
  - destruct Ho as [_ ->]. eauto.
Qed.

Lemma failed_append_restart st sg s ps p (fp : AppendFault) st1 e rotation :
  store_inv st sg s ps -> payload_ok p -> (s + 1 < u64_size)%Z ->
  Store_append st p fp = (st1, Err e) -> (0 < rotation < u64_size)%Z -> ambiguous fp p = false ->
  exists st' sg' s' ps', Store_open_with_rotation (Store_close st1) rotation = Ok st'
    /\ store_inv st' sg' s' ps' /\ (s' <= s + 1)%Z
    /\ payloads (sg' ++ [(s', ps')]) = survivors (payloads (sg ++ [(s, ps)])) p fp
    /\ st_snap st' = st_snap st /\ st_manifest st' = st_manifest st
    /\ (forall o rest, offset_at (sg ++ [(s, ps)]) o rest ->
          offset_at (sg' ++ [(s', ps')]) o (survivors rest p fp)).
Proof.
  intros Hinv Hp Hs Happ Hr Hna.
  destruct (place (w_rotation (st_writer st)) sg s ps p) as [[sg' s'] ps'] eqn:Hpl.
  assert (fp = BeforeWrite \/ fp = RotationFails false \/ fp <> BeforeWrite /\ fp <> RotationFails false) as Hcase
    by (destruct fp as [[]|[]| |]; auto).
  assert (st1 = st -> survivors (payloads (sg ++ [(s, ps)])) p fp = payloads (sg ++ [(s, ps)]) ->
    (forall rest, survivors rest p fp = rest) ->
    exists st' sg' s' ps', Store_open_with_rotation (Store_close st1) rotation = Ok st'
    /\ store_inv st' sg' s' ps' /\ (s' <= s + 1)%Z
    /\ payloads (sg' ++ [(s', ps')]) = survivors (payloads (sg ++ [(s, ps)])) p fp
    /\ st_snap st' = st_snap st /\ st_manifest st' = st_manifest st
    /\ (forall o rest, offset_at (sg ++ [(s, ps)]) o rest ->
          offset_at (sg' ++ [(s', ps')]) o (survivors rest p fp))) as Hsame.
  { intros -> E E'. destruct (open_log (Store_close st) sg s ps rotation) as (st' & Hst & Hinv' & ? & ?);
      [by apply store_root_inv | done | done |].
    exists st', sg, s, ps. rewrite E. split_and!; try done; [lia |]. intros o rest. by rewrite E'. }
  destruct Hcase as [-> | [-> | [Hfp Hrf]]].
  { apply Hsame; [| done | done]. unfold Store_append in Happ. rewrite decide_True in Happ by done. by simplify_eq. }
  { apply Hsame; [| done | done]. by destruct (append_rotation_fails _ _ _ _ _ _ _ _ _ _ _ Hinv Hp Hs Hpl Happ) as (_ & _ & ?). }
  clear Hsame. destruct (decide (fp = Disabled)) as [-> | Hfd].
  { exfalso. by eapply disabled_append_ok. }
  destruct (place_ok _ _ _ _ _ _ _ _ Hinv Hp Hs Hpl) as (Hok & Hx & Hpay).
  pose proof (place_segment _ _ _ _ _ _ _ _ Hpl) as Hs'.
  destruct (failed_append_torn _ _ _ _ _ _ _ _ _ _ _ Hinv Hp Hs Hpl Hfp Hrf Happ)
    as (Htorn & Hsn & Hma & Hcut).
  assert (written fp p <= length (frame p)) as Hle by (rewrite length_frame; destruct fp as [[]| | |]; cbn; lia).
  pose proof (open_torn _ _ _ _ _ _ rotation Htorn Hok Hx eq_refl Hr Hle) as Ho. rewrite length_frame in Ho.
  destruct (Store_open_with_rotation (Store_close st1) rotation) as [st' | e'].
  2:{ exfalso. destruct Ho as [Ho _]. destruct fp as [[]| | k |]; cbn in Ho; try lia.
      specialize (Hcut k eq_refl). apply bool_decide_eq_false in Hna. lia. }
  destruct Ho as (_ & Hs1 & Hm1 & Hinv').
  cbn in Hs1, Hm1. rewrite Hsn in Hs1. rewrite Hma in Hm1.
  exists st', sg', s'.
  destruct (decide (written fp p = 8 + length p)) as [Hall | Hall].
  - assert (forall rest, survivors rest p fp = rest ++ [p]) as Hsurv.
    { intros rest. destruct fp as [[]| | k |]; try done; cbn [written] in Hall; try lia. specialize (Hcut k eq_refl). lia. }
    exists (ps' ++ [p]). split_and!; try done; [lia | |].
    + by rewrite Hsurv, <- Hpay, !payloads_app, !payloads_last, app_assoc.
    + intros o rest. rewrite Hsurv. by eapply offset_at_place.
  - assert (forall rest, survivors rest p fp = rest) as Hsurv by (intros rest; by destruct fp as [[]| | k |]).
    exists ps'. split_and!; try done; [lia | by rewrite Hsurv |].
    intros o rest. rewrite Hsurv. by eapply offset_at_placed.
Qed.

Lemma append_step st sg s ps p :
  store_inv st sg s ps -> payload_ok p -> (s + 1 < u64_size)%Z ->
  exists st' offset sg' s' ps',
    Store_append st p Disabled = (st', Ok offset) /\ store_inv st' sg' s' ps'
    /\ (s <= s' <= s + 1)%Z
    /\ payloads (sg' ++ [(s', ps')]) = payloads (sg ++ [(s, ps)]) ++ [p]
    /\ offset_at (sg' ++ [(s', ps')]) offset [p]
    /\ (forall o rest, offset_at (sg ++ [(s, ps)]) o rest ->
          offset_at (sg' ++ [(s', ps')]) o (rest ++ [p]))
    /\ st_snap st' = st_snap st /\ st_manifest st' = st_manifest st
    /\ w_rotation (st_writer st') = w_rotation (st_writer st).
Proof.
  intros Hinv Hp Hs.
  destruct (place (w_rotation (st_writer st)) sg s ps p) as [[sg' s'] ps'] eqn:Hpl.
  destruct (place_ok _ _ _ _ _ _ _ _ Hinv Hp Hs Hpl) as (Hok & Hx & Hpay).
  destruct (append_ok _ _ _ _ _ _ _ _ Hinv Hp Hs Hpl) as (st' & E & Hinv' & ? & ? & ?).
  exists st', (mkOffset s' (blen (frames ps'))), sg', s', (ps' ++ [p]).
  split_and!; try done.
  - by eapply place_segment in Hpl as [? _].
  - by eapply place_segment in Hpl as [_ ?].
  - by rewrite <- Hpay, !payloads_app, !payloads_last, app_assoc.
  - apply (offset_at_snoc _ _ _ _ _ []), offset_end_at.
  - intros o rest Hat. by eapply offset_at_place.
Qed.

Lemma run_inv_sound n st log :
  store_run n st log -> (Z.of_nat n < u64_size - 2)%Z -> run_inv n st log.
Proof.
  induction 1 as [rotation snap manifest st Hr Ho
    | n st log p st' offset Hrun IH Hp Happ | n st log rotation st' Hrun IH Hr Ho
    | n st log p fp st1 e rotation st' Hrun IH Hp Happ Hr Ho]; intros Hn.
  - destruct (open_fresh snap manifest rotation Hr) as (st' & E & Hinv & _).
    rewrite E in Ho. simplify_eq. exists [], 1%Z, []. split_and!; [done | done | lia].
  - destruct IH as (sg & s & ps & Hinv & -> & Hs); [lia |].
    destruct (append_step _ _ _ _ _ Hinv Hp ltac:(lia))
      as (st2 & o2 & sg' & s' & ps' & E & Hinv' & ? & Hpay & _). rewrite E in Happ. simplify_eq.
    exists sg', s', ps'. split_and!; [done | done | lia].
  - destruct IH as (sg & s & ps & Hinv & -> & Hs); [lia |].
    destruct (open_log (Store_close st) sg s ps rotation) as (st2 & E & Hinv' & _);
      [by apply store_root_inv | done | done |].
    rewrite E in Ho. simplify_eq. exists sg, s, ps. split_and!; [done | done | lia].
  - destruct IH as (sg & s & ps & Hinv & -> & Hs); [lia |].
    destruct (ambiguous fp p) eqn:Ha.
    { destruct (failed_append_refused _ _ _ _ _ _ _ _ rotation Hinv Hp ltac:(lia) Happ Hr Ha) as (at_ & E). congruence. }
    destruct (failed_append_restart _ _ _ _ _ _ _ _ rotation Hinv Hp ltac:(lia) Happ Hr Ha)
      as (st2 & sg' & s' & ps' & E & Hinv' & ? & Hpay & _). rewrite E in Ho. simplify_eq.
    exists sg', s', ps'. split_and!; [done | done | lia].
Qed.

Lemma run_inv_read n st log :
  run_inv n st log -> read_from (st_data st) Offset_start = Ok (Ok <$> log).
Proof.
  intros (sg & s & ps & Hinv & -> & _). destruct Hinv as [Hlog -> _ _ _ _].
  apply read_from_offset; [done |]. apply offset_start_at; [done | by destruct sg].
Qed.

(** ** Recovery on arbitrary bytes *)
Lemma le_bytes_eq b v : length b = 4 -> from_le_bytes32 b = v -> b = to_le_bytes32 v.
Proof.
  intros Hb <-. unfold from_le_bytes32, to_le_bytes32. symmetry. by apply split_le_combine'.
Qed.

Lemma take_drop_split {A} n (l : list A) :
  n <= length l -> exists a b, l = a ++ b /\ length a = n /\ take n l = a /\ drop n l = b.
Proof.
  intros Hn. exists (take n l), (drop n l). rewrite take_drop, length_take. split_and!; try done. lia.
Qed.

(** A complete checked frame at the cursor is the frame of its payload. *)
Lemma frame_at_cursor pre rest len :
  let payload := take (Z.to_nat len) (drop (length pre + 4) (pre ++ rest)) in
  let crc_buf := take 4 (drop (length pre + 4 + Z.to_nat len) (pre ++ rest)) in
  len = from_le_bytes32 (take 4 (drop (length pre) (pre ++ rest))) ->
  4 + Z.to_nat len + 4 <= length rest ->
  crc32 payload = from_le_bytes32 crc_buf ->
  exists rest', rest = frame payload ++ rest' /\ payload_ok payload /\ blen payload = len.
Proof.
  intros payload crc_buf Hlen Hr Hcrc. unfold payload, crc_buf in *.
  rewrite <- !drop_drop, drop_app_length in Hcrc.
  rewrite drop_app_length in Hlen. rewrite <- drop_drop, drop_app_length.
  destruct (take_drop_split 4 rest ltac:(lia)) as (h & r1 & -> & Hh & Eh & Er).
  rewrite Eh, Er in *. rewrite length_app in Hr.
  destruct (take_drop_split (Z.to_nat len) r1 ltac:(lia)) as (p & r2 & -> & Hp & Ep & Er2).
  rewrite Ep, Er2 in *. rewrite length_app in Hr.
  destruct (take_drop_split 4 r2 ltac:(lia)) as (k & r3 & -> & Hk & Ek & Er3).
  rewrite Ek in *.
  pose proof (from_le_bytes32_range h Hh) as Hu. unfold is_u32 in Hu.
  assert (blen p = len) as Hbp by (unfold blen; lia).
  exists r3. split_and!; [| unfold payload_ok; lia | done].
  unfold frame. rewrite <- !app_assoc. rewrite Hbp, Z.mod_small by lia.
  rewrite <- (le_bytes_eq h len) by done. rewrite <- (le_bytes_eq k (crc32 p)) by done. done.
Qed.

Lemma recover_loop_sound fuel ps rest c' n :
  Forall payload_ok ps ->
  recover_loop fuel (frames ps ++ rest) (blen (frames ps)) = Ok (c', n) ->
  exists qs, c' = frames (ps ++ qs) /\ n = blen c' /\ Forall payload_ok (ps ++ qs)
    /\ exists tail, frames ps ++ rest = c' ++ tail.
Proof.
  revert ps rest. induction fuel as [|fuel IH]; intros ps rest Hps Hr; [done |].
  cbn [recover_loop] in Hr. rewrite !to_nat_blen in Hr.
  pose proof (blen_nonneg rest). rewrite blen_app in Hr.
  destruct (Z.leb_spec (blen (frames ps) + blen rest) (blen (frames ps))).
  { simplify_eq. assert (rest = []) as -> by (destruct rest; [done | unfold blen in *; cbn in *; lia]).
    exists []. rewrite !app_nil_r. split_and!; try done. by exists []; rewrite app_nil_r. }
  destruct (Z.ltb_spec (blen (frames ps) + blen rest - blen (frames ps)) 4).
  { rewrite truncate_frames in Hr. simplify_eq. exists []. rewrite !app_nil_r. eauto. }
  set (len := from_le_bytes32 _) in Hr.
  destruct (u64_checked_add _ len ≫= _) as [fe|] eqn:Hfe; [| done].
  assert (fe = blen (frames ps) + 4 + len + 4)%Z as ->.
  { apply bind_Some in Hfe as (v & Hv & Hfe). apply u64_checked_add_some in Hv, Hfe. by subst. }
  destruct (Z.ltb_spec (blen (frames ps) + blen rest) (blen (frames ps) + 4 + len + 4)).
  { case_match; [| done]. rewrite truncate_frames in Hr. simplify_eq.
    exists []. rewrite !app_nil_r. eauto. }
  assert (0 <= len)%Z as Hlen0 by (by apply le_combine_bound).
  case_decide as Hcrc; [| done].
  replace (Z.to_nat (blen (frames ps) + 4)) with (length (frames ps) + 4) in Hcrc
    by (unfold blen; lia).
  replace (Z.to_nat (blen (frames ps) + 4 + len)) with (length (frames ps) + 4 + Z.to_nat len)
    in Hcrc by (unfold blen; lia).
  destruct (frame_at_cursor (frames ps) rest len eq_refl ltac:(unfold blen in *; lia) Hcrc)
    as (rest' & Hrest & Hpok & Hbl).
  set (p := take (Z.to_nat len) _) in *. rewrite Hrest in Hr |- *.
  rewrite app_assoc, <- frames_snoc in Hr |- *.
  replace (blen (frames ps) + 4 + len + 4)%Z with (blen (frames (ps ++ [p]))) in Hr
    by (rewrite frames_snoc, blen_app, blen_frame; lia).
  destruct (IH (ps ++ [p]) rest') as (qs & -> & -> & Hq & Htail).
  { apply Forall_app. split; [done |]. by constructor. }
  { exact Hr. }
  exists (p :: qs). rewrite <- app_assoc in *. done.
Qed.

Lemma recover_loop_fuel fuel c pos :
  (0 <= pos)%Z -> (blen c - pos < Z.of_nat fuel)%Z -> 0 < fuel ->
  recover_loop fuel c pos <> Err FuelExhausted.
Proof.
  revert pos. induction fuel as [|fuel IH]; intros pos Hpos Hf Hf0; [lia |].
  cbn [recover_loop]. destruct (Z.leb_spec (blen c) pos); [done |].
  destruct (Z.ltb_spec (blen c - pos) 4); [done |].
  set (len := from_le_bytes32 _).
  assert (0 <= len)%Z as Hlen0 by (by apply le_combine_bound).
  destruct (u64_checked_add _ len ≫= _) as [fe|] eqn:Hfe; [| done].
  assert (fe = pos + 4 + len + 4)%Z as ->.
  { apply bind_Some in Hfe as (v & Hv & Hfe). apply u64_checked_add_some in Hv, Hfe. by subst. }
  case_match; [by case_match |]. case_decide; [| done]. apply IH; lia.
Qed.

(** ** The properties *)

(** C1: an append on a store whose disk holds a segmented log succeeds, extends the log by exactly
    the appended record, returns the offset at which a reader finds that record, and keeps every
    earlier offset valid with the new record behind the ones it had. *)
Theorem wal_append_refines st sg s ps p :
  store_inv st sg s ps -> payload_ok p -> (s + 1 < u64_size)%Z ->
  exists st' offset sg' s' ps',
    Store_append st p Disabled = (st', Ok offset)
    /\ store_inv st' sg' s' ps'
    /\ payloads (sg' ++ [(s', ps')]) = payloads (sg ++ [(s, ps)]) ++ [p]
    /\ read_from (st_data st') offset = Ok [Ok p]
    /\ (forall o rest, offset_at (sg ++ [(s, ps)]) o rest ->
          read_from (st_data st') o = Ok (Ok <$> (rest ++ [p]))).
Proof.
  intros Hinv Hp Hs.
  destruct (append_step _ _ _ _ _ Hinv Hp Hs)
    as (st' & o & sg' & s' & ps' & E & Hinv' & _ & Hpay & Ho & Hoff & _).
  exists st', o, sg', s', ps'. pose proof (inv_log _ _ _ _ Hinv') as Hlog.
  rewrite (inv_data _ _ _ _ Hinv'). split_and!; try done.
  - by rewrite (read_from_offset _ _ _ Hlog Ho).
  - intros o' rest Hat. apply read_from_offset; auto.
Qed.

(** C2: whatever the sequence of appends, restarts and failed appends followed by a restart that
    succeeds, a reader started at [Offset::start] yields exactly the records of the run, in order. *)
Theorem wal_run_reads_log n st log :
  store_run n st log -> (Z.of_nat n < u64_size - 2)%Z ->
  read_from (st_data st) Offset_start = Ok (Ok <$> log).
Proof. intros Hrun Hn. eapply run_inv_read, run_inv_sound; eauto. Qed.

(** A failed append is atomic across a restart, or fails closed. When the payload was cut in its middle, opening
    refuses the log; otherwise opening succeeds, and the log is the old one or the old one with the new record,
    according to the point of failure. *)
Theorem wal_failed_append_atomic n st log p (fp : AppendFault) st1 e rotation :
  store_run n st log -> (Z.of_nat n < u64_size - 2)%Z -> payload_ok p ->
  Store_append st p fp = (st1, Err e) -> (0 < rotation < u64_size)%Z ->
  if ambiguous fp p then
    exists at_, Store_open_with_rotation (Store_close st1) rotation = Err (AmbiguousPartialPayload at_)
  else
    exists st', Store_open_with_rotation (Store_close st1) rotation = Ok st'
      /\ read_from (st_data st') Offset_start = Ok (Ok <$> survivors log p fp).
Proof.
  intros Hrun Hn Hp Happ Hr.
  destruct (run_inv_sound _ _ _ Hrun Hn) as (sg & s & ps & Hinv & -> & Hs).
  destruct (ambiguous fp p) eqn:Ha; [exact (failed_append_refused _ _ _ _ _ _ _ _ rotation Hinv Hp ltac:(lia) Happ Hr Ha) |].
  destruct (failed_append_restart _ _ _ _ _ _ _ _ rotation Hinv Hp ltac:(lia) Happ Hr Ha)
    as (st' & sg' & s' & ps' & E & Hinv' & ? & Hpay & _).
  exists st'. split; [done |]. rewrite <- Hpay. apply (run_inv_read (Z.to_nat s') st').
  exists sg', s', ps'. split_and!; [done | done | lia].
Qed.

(** The recovery of a segment that ends in the first [k] bytes of a frame repairs it to the
    complete frames, except when the payload is cut in its middle, which it refuses. *)
Theorem wal_torn_tail_recovery ps p k :
  Forall payload_ok ps -> payload_ok p -> 0 < k < length (frame p) ->
  (blen (frames (ps ++ [p])) < u64_size)%Z ->
  recover_last_segment_tail (frames ps ++ take k (frame p))
  = if decide (4 < k < 4 + length p) then Err (AmbiguousPartialPayload (blen (frames ps)))
    else Ok (frames ps, blen (frames ps)).
Proof. apply recover_torn. Qed.

(** C3: on arbitrary bytes the recovery terminates, and what it accepts is a sequence of complete
    frames with valid checksums that is a prefix of the file. *)
Theorem wal_recovery_sound c :
  match recover_last_segment_tail c with
  | Ok (c', size) => exists ps tail, c' = frames ps /\ Forall payload_ok ps
                       /\ size = blen c' /\ c = c' ++ tail
  | Err e => e <> FuelExhausted
  end.
Proof.
  unfold recover_last_segment_tail.
  destruct (recover_loop (S (length c)) c 0) as [[c' n]|e] eqn:E.
  - destruct (recover_loop_sound (S (length c)) [] c c' n) as (ps & -> & -> & Hps & tail & Ht);
      [constructor | done |]. exists ps, tail. done.
  - intros ->. revert E. apply recover_loop_fuel; unfold blen; lia.
Qed.

End props.

(** ** Witnesses *)
Definition w_bytes : bytes := as_bytes "hello".

Definition fresh_root : Root := mkRoot ∅ ∅ None false.

Definition w_store : Store :=
  mkStore (<[wal_path 1 := RegularFile []]> ∅) ∅ None
    (mkWriter 16 1 (mkHandle (wal_path 1) 0) 0).

Lemma w_store_open : Store_open_with_rotation (H := ieee) fresh_root 16 = Ok w_store.
Proof. vm_compute. reflexivity. Qed.

Lemma w_payload : payload_ok w_bytes.
Proof. vm_compute. reflexivity. Qed.

Lemma w_store_inv : store_inv (H := ieee) w_store [] 1 [].
Proof.
  destruct (open_fresh (H := ieee) ∅ None 16) as (st & E & Hinv & _); [vm_compute; done |].
  change (mkRoot ∅ ∅ None false) with fresh_root in E. rewrite w_store_open in E.
  injection E as <-. exact Hinv.
Qed.

Definition w_store1 : Store := fst (Store_append (H := ieee) w_store w_bytes Disabled).

Lemma w_run : store_run (H := ieee) 1 w_store1 [w_bytes].
Proof.
  apply (run_append (H := ieee) 0 w_store [] w_bytes w_store1 (mkOffset 1 0)).
  - apply (run_open (H := ieee) 16 ∅ None); [vm_compute; done | apply w_store_open].
  - apply w_payload.
  - vm_compute. reflexivity.
Qed.

Lemma wal_append_refines_witness :
  exists st' offset sg' s' ps',
    Store_append (H := ieee) w_store w_bytes Disabled = (st', Ok offset)
    /\ store_inv (H := ieee) st' sg' s' ps'
    /\ payloads (sg' ++ [(s', ps')]) = [w_bytes]
    /\ read_from (H := ieee) (st_data st') offset = Ok [Ok w_bytes]
    /\ (forall o rest, offset_at (H := ieee) [(1%Z, [])] o rest ->
          read_from (H := ieee) (st_data st') o = Ok (Ok <$> (rest ++ [w_bytes]))).
Proof.
  apply (wal_append_refines (H := ieee) (H0 := ieee_ok) w_store [] 1 [] w_bytes).
  - apply w_store_inv.
  - apply w_payload.
  - vm_compute. reflexivity.
Defined.

Lemma wal_run_reads_log_witness :
  read_from (H := ieee) (st_data w_store1) Offset_start = Ok [Ok w_bytes].
Proof.
  apply (wal_run_reads_log (H := ieee) (H0 := ieee_ok) 1 w_store1 [w_bytes]).
  - apply w_run.
  - vm_compute. reflexivity.
Defined.

Lemma wal_failed_append_atomic_witness :
  exists st', Store_open_with_rotation (H := ieee)
      (Store_close (fst (Store_append (H := ieee) w_store1 w_bytes AfterPayloadWrite))) 64 = Ok st'
    /\ read_from (H := ieee) (st_data st') Offset_start = Ok [Ok w_bytes].
Proof.
  apply (wal_failed_append_atomic (H := ieee) (H0 := ieee_ok) 1 w_store1 [w_bytes] w_bytes
           AfterPayloadWrite _ (Injected AfterPayloadWrite) 64).
  - apply w_run.
  - vm_compute. reflexivity.
  - apply w_payload.
  - vm_compute. reflexivity.
  - vm_compute. done.
Defined.

Lemma wal_torn_tail_recovery_witness :
  recover_last_segment_tail (H := ieee)
    (frames (H := ieee) [w_bytes] ++ take 6 (frame (H := ieee) w_bytes))
  = Err (AmbiguousPartialPayload 13).
Proof.
  apply (wal_torn_tail_recovery (H := ieee) (H0 := ieee_ok) [w_bytes] w_bytes 6).
  - constructor; [apply w_payload | constructor].
  - apply w_payload.
  - vm_compute. lia.
  - vm_compute. reflexivity.
Defined.

(** ** Compaction of the log

    [gc_compact] removes exactly the segments before the given offset, the current one excepted, and
    every offset at or after it still reads the same records. *)

Section gc.
Context `{Crc32, !Crc32Ok}.

(** The segments compaction keeps. *)
Definition keeps (current : Z) (since : Offset) (x : Z * list bytes) : bool :=
  negb ((fst x <? segment since)%Z && bool_decide (fst x <> current)).

Lemma log_ok_remove sg1 x sg2 : log_ok (sg1 ++ x :: sg2) -> log_ok (sg1 ++ sg2).
Proof.
  intros [Hs Hok]. rewrite fmap_app in Hs. apply StronglySorted_app in Hs as (Hlt & H1 & H2).
  cbn in H2. apply StronglySorted_inv in H2 as [H2 _].
  apply Forall_app in Hok as [O1 O2]. apply Forall_cons in O2 as [_ O2]. split.
  - rewrite fmap_app. apply StronglySorted_app. split_and!; [| done | done].
    intros y z Hy Hz. apply Hlt; [done |]. cbn. by right.
  - by apply Forall_app.
Qed.

Lemma dir_of_remove sg1 s ps sg2 :
  log_ok (sg1 ++ (s, ps) :: sg2) ->
  delete (wal_path s) (dir_of (sg1 ++ (s, ps) :: sg2)) = dir_of (sg1 ++ sg2).
Proof.
  intros Hok. pose proof (log_names_NoDup _ Hok) as Hn. unfold dir_of.
  rewrite (list_to_map_proper _ ((wal_path s, RegularFile (frames ps)) :: (seg_file <$> sg1 ++ sg2))).
  - rewrite list_to_map_cons. apply delete_insert_id, not_elem_of_list_to_map_1.
    rewrite !fmap_app in Hn.
    change ((seg_file <$> (s, ps) :: sg2).*1) with (wal_path s :: (seg_file <$> sg2).*1) in Hn.
    apply NoDup_app in Hn as (_ & Hd & Hn). apply NoDup_cons in Hn as [Hn _].
    rewrite !fmap_app, elem_of_app. intros [Hin | Hin]; [| exact (Hn Hin)].
    apply (Hd _ Hin). left.
  - done.
  - rewrite !fmap_app.
    change (seg_file <$> (s, ps) :: sg2) with (seg_file (s, ps) :: (seg_file <$> sg2)).
    by rewrite Permutation_middle.
Qed.

Lemma gc_loop_keeps kept todo current since :
  log_ok (kept ++ todo) ->
  gc_loop (dir_of (kept ++ todo)) current since (fst <$> todo)
  = (dir_of (kept ++ List.filter (keeps current since) todo), Ok tt)
  /\ log_ok (kept ++ List.filter (keeps current since) todo).
Proof.
  revert kept. induction todo as [|[s ps] todo IH]; intros kept Hok; [done |].
  cbn [gc_loop fmap list_fmap fst List.filter]. 
  change (keeps current since (s, ps))
    with (negb ((s <? segment since)%Z && bool_decide (s <> current))).
  destruct ((s <? segment since)%Z && bool_decide (s <> current)); cbn [negb].
  - rewrite (dir_of_lookup _ s ps) by (done || set_solver). rewrite dir_of_remove by done.
    apply IH. by apply log_ok_remove in Hok.
  - change ((s, ps) :: todo) with ([(s, ps)] ++ todo) in *.
    change ((s, ps) :: List.filter (keeps current since) todo)
      with ([(s, ps)] ++ List.filter (keeps current since) todo).
    rewrite !app_assoc in *. by apply IH.
Qed.

(** Dropping segments before [since] keeps the offsets at and after it. *)
Lemma offset_at_gc sg current since o rest :
  log_ok sg -> offset_at sg o rest -> (segment since <= segment o)%Z ->
  offset_at (List.filter (keeps current since) sg) o rest.
Proof.
  intros Hok Hat Hge.
  assert (Hkeep : forall l, Forall (fun y => (segment since <= fst y)%Z) l ->
    List.filter (keeps current since) l = l).
  { induction 1 as [|x l Hx Hl IH]; cbn; [done |]. unfold keeps at 1.
    destruct (Z.ltb_spec (fst x) (segment since)); [lia |]. cbn. by rewrite IH. }
  assert (Htail : forall pre x post, sg = pre ++ x :: post -> (segment since <= fst x)%Z ->
    List.filter (keeps current since) sg = List.filter (keeps current since) pre ++ x :: post).
  { intros pre x post -> Hx. rewrite List.filter_app. f_equal. apply Hkeep. constructor; [done |].
    apply Forall_forall. intros y Hy. destruct Hok as [Hs _].
    rewrite fmap_app in Hs. apply StronglySorted_app in Hs as (_ & _ & Hs). cbn in Hs.
    apply StronglySorted_inv in Hs as [_ Hs]. rewrite Forall_forall in Hs.
    specialize (Hs (fst y) (list_elem_of_fmap_2 _ _ _ Hy)). lia. }
  destruct Hat as [pre s ps1 ps2 post Hsg | pre x post s pos Hsg Hpre Hx]; cbn in Hge.
  - rewrite (Htail _ _ _ Hsg) by done. by apply (offset_exact _ (List.filter (keeps current since) pre) s ps1 ps2 post).
  - rewrite (Htail _ _ _ Hsg) by lia. apply (offset_before _ (List.filter (keeps current since) pre) x post); [done | | done].
    rewrite Forall_forall in Hpre |- *. intros y Hy. apply Hpre.
    apply list_elem_of_In, List.filter_In in Hy as [Hy _]. by apply list_elem_of_In.
Qed.

(** What compaction does to a store that holds a segmented log. *)
Lemma gc_step st sg s ps since :
  store_inv st sg s ps ->
  exists st', gc_compact st since = (st', Ok tt) /\
    store_inv st' (List.filter (fun x => (segment since <=? fst x)%Z) sg) s ps /\
    st_snap st' = st_snap st /\ st_manifest st' = st_manifest st /\ st_writer st' = st_writer st /\
    forall o rest, offset_at (sg ++ [(s, ps)]) o rest -> (segment since <= segment o)%Z ->
      offset_at (List.filter (fun x => (segment since <=? fst x)%Z) sg ++ [(s, ps)]) o rest.
Proof.
  intros [Hlog Hdata Hseg Hfile Hsize Hrot].
  destruct (gc_loop_keeps [] (sg ++ [(s, ps)]) s since Hlog) as [Hgc Hlog'].
  assert (Hf : List.filter (keeps s since) (sg ++ [(s, ps)])
    = List.filter (fun x => (segment since <=? fst x)%Z) sg ++ [(s, ps)]).
  { rewrite List.filter_app. f_equal.
    - apply List.filter_ext_in. intros x Hx. unfold keeps.
      assert (fst x < s)%Z by (apply (log_last_gt _ _ _ _ Hlog); apply list_elem_of_fmap_2;
        by apply list_elem_of_In).
      rewrite bool_decide_true by lia. rewrite andb_true_r, Z.ltb_antisym. apply negb_involutive.
    - cbn. unfold keeps. cbn. rewrite bool_decide_false by congruence. by rewrite andb_false_r. }
  cbn [app] in Hgc, Hlog'. rewrite Hf in Hgc, Hlog'.
  unfold gc_compact, current_segment. rewrite Hseg, Hdata.
  rewrite list_segments_dir_of by (done || by destruct sg). rewrite Hgc.
  eexists. split; [reflexivity |]. split_and!; try done.
  intros o rest Hat Hge. rewrite <- Hf. by apply offset_at_gc.
Qed.

(** Compaction is safe. On a store that holds a segmented log, [gc_compact] succeeds and leaves
    a store whose log is the old one without the segments before [since] (the segment being written
    is always kept), ready for further appends; a reader started at [since] or at any later position
    yields the records it yielded before, and a reader started at [Offset::start] yields what is
    left. *)
Theorem wal_gc_safe st sg s ps since :
  store_inv st sg s ps ->
  exists st',
    gc_compact st since = (st', Ok tt) /\
    store_inv st' (List.filter (fun x => (segment since <=? fst x)%Z) sg) s ps /\
    (forall o rest, offset_at (sg ++ [(s, ps)]) o rest -> (segment since <= segment o)%Z ->
       read_from (st_data st') o = Ok (Ok <$> rest)) /\
    read_from (st_data st') Offset_start
    = Ok (Ok <$> payloads (List.filter (fun x => (segment since <=? fst x)%Z) sg ++ [(s, ps)])).
Proof.
  intros Hinv. destruct (gc_step st sg s ps since Hinv) as (st' & Hgc & Hinv' & _ & _ & _ & Hoff).
  exists st'. rewrite (inv_data _ _ _ _ Hinv'). pose proof (inv_log _ _ _ _ Hinv') as Hlog. split_and!; [done | done | |].
  - intros o rest Hat Hge. apply read_from_offset; [done | by apply Hoff].
  - apply read_from_offset; [done |]. apply offset_start_at; [done |]. by destruct (List.filter _ sg).
Qed.
End gc.

Definition w_store2 : Store := fst (Store_append (H := ieee) w_store1 w_bytes Disabled).

Lemma w_seg_ok s : (1 <= s < u64_size)%Z -> seg_ok (H := ieee) (s, [w_bytes]).
Proof.
  intros Hs. split; [done | by constructor; [apply w_payload |] |]. vm_compute. reflexivity.
Qed.

Lemma w_store2_inv : store_inv (H := ieee) w_store2 [(1%Z, [w_bytes])] 2 [w_bytes].
Proof.
  split.
  - split; [cbn; repeat constructor; lia |].
    repeat constructor; try apply (w_seg_ok 1); try apply (w_seg_ok 2); by vm_compute.
  - vm_cast_no_check (eq_refl (st_data w_store2)).
  - by vm_compute.
  - by vm_compute.
  - by vm_compute.
  - by vm_compute.
Qed.

Lemma wal_gc_safe_witness :
  exists st', gc_compact w_store2 (mkOffset 2 0) = (st', Ok tt) /\
    read_from (H := ieee) (st_data st') Offset_start = Ok [Ok w_bytes].
Proof.
  destruct (wal_gc_safe (H := ieee) (H0 := ieee_ok) w_store2 [(1%Z, [w_bytes])] 2 [w_bytes]
    (mkOffset 2 0) w_store2_inv) as (st' & E & _ & _ & Hread).
  exists st'. split; [exact E | exact Hread].
Defined.
