(* ===== verification/Crypto.v ===== *)
(** * The third-party routines the ledgers rely on

    Serialization ([serde_cbor]), hashing ([sha2]) and signatures ([ed25519_dalek]) are not part
    of the repository: each is a class of operations, with the documented behaviour the code
    relies on as a separate class of laws. Nothing assumes that the hash is injective. *)

From stdpp Require Import prelude strings list gmap fin_maps.
From Stdlib Require Import ZArith Lia.
From coqutil Require Import Byte Word.LittleEndianList.
From S2P Require Import Prelude RustStr.

(** [serde_cbor::to_vec] and [serde_cbor::from_slice] at a type; the error is its message. *)
Class Cbor (A : Type) : Type := {
  to_vec : A -> result bytes string;
  from_slice : bytes -> result A string
}.

(** Decoding inverts encoding. *)
Class CborOk (A : Type) `{Cbor A} : Prop :=
  from_to_vec : forall a b, to_vec a = Ok b -> from_slice b = Ok a.

(** Encoding does not fail: the derived [Serialize] instances of the ledgers only contain
    strings, integers, booleans, options, sequences and maps with string keys. *)
Class CborTotal (A : Type) `{Cbor A} : Prop := to_vec_total : forall a, is_ok (to_vec a) = true.

(** [Sha256::digest]. *)
Class Sha256 : Type := sha256 : bytes -> bytes.
Class Sha256Ok `{Sha256} : Prop := sha256_length : forall b, length (sha256 b) = 32.

(** Ed25519 signatures: key derivation, signing and verification over byte strings, with the
    validity checks of [VerifyingKey::from_bytes] and [Signature::try_from]. *)
Class Ed25519 : Type := {
  verifying_key : bytes -> bytes;
  ed_sign : bytes -> bytes -> bytes;
  valid_public_key : bytes -> bool;
  ed_verify : bytes -> bytes -> bytes -> bool
}.

Class Ed25519Ok `{Ed25519} : Prop := {
  verifying_key_length : forall seed, length (verifying_key seed) = 32;
  verifying_key_valid : forall seed, valid_public_key (verifying_key seed) = true;
  signature_length : forall seed m, length (ed_sign seed m) = 64;
  verify_sign : forall seed m, ed_verify (verifying_key seed) m (ed_sign seed m) = true
}.

(** [sha256_ref]: the digest as [sha256:] and 64 lower-case hexadecimal digits. *)
Definition sha256_ref `{Sha256} (b : bytes) : string :=
  of_bytes (as_bytes sha256_prefix ++ hex_bytes (sha256 b)).

(** [digest_cbor]. *)
Definition digest_cbor {A E : Type} `{Cbor A, Sha256} (encoding_error : string -> E) (a : A)
  : result string E :=
  let! b := map_err encoding_error (to_vec a) in
  Ok (sha256_ref b).

Lemma to_vec_inj {A} `{CborOk A} a a' b : to_vec a = Ok b -> to_vec a' = Ok b -> a = a'.
Proof. intros E1%from_to_vec E2%from_to_vec. congruence. Qed.

Lemma sha256_ref_shape `{Sha256, !Sha256Ok} b : is_sha256_ref (sha256_ref b) = true.
Proof. apply is_sha256_ref_hex, sha256_length. Qed.

(** Equal references come from equal digests. *)
Lemma sha256_ref_inj `{Sha256} b1 b2 : sha256_ref b1 = sha256_ref b2 -> sha256 b1 = sha256 b2.
Proof. intros E%of_bytes_inj%app_inv_head. by apply hex_bytes_inj. Qed.

Lemma digest_cbor_shape {A E} `{Cbor A, Sha256, !Sha256Ok} (f : string -> E) (a : A) r :
  digest_cbor f a = Ok r -> is_sha256_ref r = true.
Proof.
  unfold digest_cbor. intros Hd. rinv Hd. injection Hd as <-. apply sha256_ref_shape.
Qed.

Lemma digest_cbor_total {A E} `{Cbor A, !CborTotal A, Sha256} (f : string -> E) (a : A) :
  exists b, to_vec a = Ok b /\ digest_cbor f a = Ok (sha256_ref b).
Proof.
  unfold digest_cbor. pose proof (to_vec_total a) as Ht.
  destruct (to_vec a) as [b|]; [| done]. by exists b.
Qed.

(** A collision of the hash, exhibited by two values whose encodings differ. *)
Definition collision {A} `{Cbor A, Sha256} (a1 a2 : A) : Prop :=
  exists b1 b2, to_vec a1 = Ok b1 /\ to_vec a2 = Ok b2 /\ b1 <> b2 /\ sha256 b1 = sha256 b2.

Global Instance collision_dec_eq_bytes : EqDecision bytes := _.

(** Two values with the same digest are equal or exhibit a collision. *)
Lemma digest_cbor_eq {A E} `{CborOk A, Sha256} (f : string -> E) (a1 a2 : A) r :
  digest_cbor f a1 = Ok r -> digest_cbor f a2 = Ok r -> a1 = a2 \/ collision a1 a2.
Proof.
  unfold digest_cbor. intros Hd1 Hd2.
  destruct (to_vec a1) as [b1|] eqn:E1; [| done]. destruct (to_vec a2) as [b2|] eqn:E2; [| done].
  cbn [map_err rbind] in Hd1, Hd2. injection Hd1 as Hr1. injection Hd2 as Hr2. destruct (decide (b1 = b2)) as [-> | Hne].
  - left. by eapply to_vec_inj.
  - right. exists b1, b2. split_and!; try done. apply sha256_ref_inj. congruence.
Qed.

#[export] Hint Resolve sha256_ref_shape digest_cbor_shape : liminal.

Global Arguments sha256_ref : simpl never.
Global Arguments digest_cbor : simpl never.

(** * A concrete codec, digest and signature scheme

    The theorems hold for any serializer, hash and signature scheme with the laws of [Crypto];
    this file shows that the laws can hold together. [Ser] is a small self-delimiting binary
    format with a parser; [Cbor] instances derived from it satisfy [CborOk] and [CborTotal]. The
    digest is a polynomial checksum of 32 bytes and the signature a keyed copy of it: good enough
    to evaluate the definitions on concrete inputs, and nothing more. *)

(** A printer and a parser that returns the rest of its input. *)
Class Ser (A : Type) : Type := {
  ser : A -> bytes;
  par : bytes -> option (A * bytes)
}.
Class SerOk (A : Type) `{Ser A} : Prop :=
  par_ser : forall a rest, par (ser a ++ rest) = Some (a, rest).

(** Positive numbers: binary digits, least significant first, closed by a marker. *)
Fixpoint ser_pos (p : positive) : bytes :=
  match p with
  | xH => [Byte.x02]
  | xO q => Byte.x00 :: ser_pos q
  | xI q => Byte.x01 :: ser_pos q
  end.

Fixpoint par_pos (b : bytes) : option (positive * bytes) :=
  match b with
  | Byte.x02 :: rest => Some (xH, rest)
  | Byte.x00 :: rest => match par_pos rest with Some (q, r) => Some (xO q, r) | None => None end
  | Byte.x01 :: rest => match par_pos rest with Some (q, r) => Some (xI q, r) | None => None end
  | _ => None
  end.

Global Instance Ser_pos : Ser positive := {| ser := ser_pos; par := par_pos |}.
Global Instance Ser_pos_ok : SerOk positive.
Proof. intros p rest. cbn. induction p as [p IH | p IH |]; cbn; try rewrite IH; done. Qed.

(** A type that embeds into a serializable one. *)
Definition Ser_via {A B : Type} `{Ser B} (f : A -> B) (g : B -> option A) : Ser A :=
  {| ser a := ser (f a);
     par b := match par b with
              | Some (x, rest) => match g x with Some a => Some (a, rest) | None => None end
              | None => None
              end |}.

Lemma Ser_via_ok {A B : Type} `{SerOk B} (f : A -> B) (g : B -> option A) :
  (forall a, g (f a) = Some a) -> @SerOk A (Ser_via f g).
Proof. intros Hfg a rest. cbn. by rewrite par_ser, Hfg. Qed.

Global Instance Ser_Z : Ser Z := Ser_via encode (decode (A := Z)).
Global Instance Ser_Z_ok : SerOk Z.
Proof. apply Ser_via_ok. intros. apply decode_encode. Qed.

Global Instance Ser_bool : Ser bool := Ser_via encode (decode (A := bool)).
Global Instance Ser_bool_ok : SerOk bool.
Proof. apply Ser_via_ok. intros. apply decode_encode. Qed.

Section combinators.
Context {A B : Type} `{SerOk A, SerOk B}.

#[global] Instance Ser_prod : Ser (A * B) :=
  {| ser x := ser x.1 ++ ser x.2;
     par b := match par b with
              | Some (x, r) => match par r with Some (y, r') => Some ((x, y), r') | None => None end
              | None => None
              end |}.
#[global] Instance Ser_prod_ok : SerOk (A * B).
Proof. intros [x y] rest. cbn. by rewrite <- app_assoc, par_ser, par_ser. Qed.

#[global] Instance Ser_option : Ser (option A) :=
  {| ser o := match o with Some x => Byte.x01 :: ser x | None => [Byte.x00] end;
     par b := match b with
              | Byte.x00 :: rest => Some (None, rest)
              | Byte.x01 :: rest =>
                  match par rest with Some (x, r) => Some (Some x, r) | None => None end
              | _ => None
              end |}.
#[global] Instance Ser_option_ok : SerOk (option A).
Proof. intros [x|] rest; cbn; [by rewrite par_ser | done]. Qed.

(** Sequences: each element after a marker, then an end marker. *)
Fixpoint ser_list (l : list A) : bytes :=
  match l with
  | [] => [Byte.x00]
  | x :: rest => Byte.x01 :: ser x ++ ser_list rest
  end.

Fixpoint par_list (fuel : nat) (b : bytes) : option (list A * bytes) :=
  match fuel with
  | O => None
  | S fuel' =>
      match b with
      | Byte.x00 :: rest => Some ([], rest)
      | Byte.x01 :: rest =>
          match par rest with
          | Some (x, r) =>
              match par_list fuel' r with Some (l, r') => Some (x :: l, r') | None => None end
          | None => None
          end
      | _ => None
      end
  end.

#[global] Instance Ser_list : Ser (list A) :=
  {| ser := ser_list; par b := par_list (S (length b)) b |}.

Lemma par_list_ser l :
  forall rest fuel, length l < fuel -> par_list fuel (ser_list l ++ rest) = Some (l, rest).
Proof.
  induction l as [|x l IH]; intros rest [|fuel] Hf; cbn in *; try lia; [done |].
  rewrite <- app_assoc, par_ser, IH; [done | lia].
Qed.

Lemma ser_list_length l : length l < length (ser_list l).
Proof. induction l as [|x l IH]; cbn; [lia |]. rewrite length_app. lia. Qed.

#[global] Instance Ser_list_ok : SerOk (list A).
Proof.
  intros l rest. cbn [par Ser_list ser]. apply par_list_ser.
  pose proof (ser_list_length l). rewrite length_app. lia.
Qed.
End combinators.

(** Strings: their length, then their bytes. *)
Global Instance Ser_string : Ser string :=
  {| ser s := ser (Z.of_nat (length (as_bytes s))) ++ as_bytes s;
     par b := match par b with
              | Some (n, r) => Some (of_bytes (take (Z.to_nat n) r), drop (Z.to_nat n) r)
              | None => None
              end |}.
Global Instance Ser_string_ok : SerOk string.
Proof.
  intros s rest. cbn [ser par Ser_string]. rewrite <- app_assoc, par_ser, Nat2Z.id.
  by rewrite take_app_length, drop_app_length, of_as_bytes.
Qed.

Global Instance Ser_map {A : Type} `{Ser A} : Ser (gmap string A) :=
  Ser_via (B := list (string * A)) map_to_list (fun l => Some (list_to_map l)).
Global Instance Ser_map_ok {A : Type} `{SerOk A} : SerOk (gmap string A).
Proof. apply Ser_via_ok. intros m. by rewrite list_to_map_to_list. Qed.

(** The serializer and deserializer of a type. *)
Definition Cbor_of (A : Type) `{Ser A} : Cbor A :=
  {| to_vec a := Ok (ser a);
     from_slice b := match par b with Some (a, []) => Ok a | _ => Err "trailing or malformed data" end |}.

Lemma Cbor_of_ok (A : Type) `{SerOk A} : @CborOk A (Cbor_of A).
Proof.
  intros a b [= <-]. cbn. pose proof (par_ser a []) as E. rewrite app_nil_r in E. by rewrite E.
Qed.

Lemma Cbor_of_total (A : Type) `{Ser A} : @CborTotal A (Cbor_of A).
Proof. done. Qed.

(** A 32-byte polynomial checksum. *)
Definition checksum_mask : Z := Eval vm_compute in Z.ones 256.
Definition checksum (b : bytes) : bytes :=
  le_split 32
    (fold_left (fun h c => Z.land (h * 257 + byte.unsigned c + 1) checksum_mask) b 7%Z).

Definition checksum_sha : Sha256 := checksum.
Lemma checksum_sha_ok : @Sha256Ok checksum_sha.
Proof. intros b. apply length_le_split. Qed.

(** A signature scheme whose public key is the (padded) seed. *)
Definition pad32 (b : bytes) : bytes := take 32 (b ++ replicate 32 Byte.x00).
Definition keyed (key m : bytes) : bytes := checksum (key ++ m) ++ checksum (m ++ key).

Definition toy_ed25519 : Ed25519 :=
  {| verifying_key := pad32;
     ed_sign seed m := keyed (pad32 seed) m;
     valid_public_key _ := true;
     ed_verify pk m s := bool_decide (s = keyed pk m) |}.

Lemma toy_ed25519_ok : @Ed25519Ok toy_ed25519.
Proof.
  split; cbn.
  - intros seed. unfold pad32. rewrite length_take, length_app, length_replicate. lia.
  - done.
  - intros seed m. unfold keyed, checksum. by rewrite length_app, !length_le_split.
  - intros seed m. by apply bool_decide_eq_true_2.
Qed.
