(* ===== verification/Transition.v ===== *)
(** * Trustworthy transitions: the records and their projection

    [liminal-store/src/trustworthy_transition.rs], without the storage: the event types, the
    validation of inputs and event bodies, and [apply_event], which checks one event against the
    ledger state and folds it in. A [BTreeMap<String, _>] is a [gmap string _]. *)

From stdpp Require Import prelude gmap strings list sorting.
From Stdlib Require Import ZArith Lia.
From S2P Require Import Prelude RustStr Crypto.

Definition EVENT_SCHEMA : string := "liminaldb.trustworthy-transition-event.v0.1".
Definition SNAPSHOT_SCHEMA : string := "liminaldb.trustworthy-transition-snapshot.v0.1".
Definition PROFILE : string := "org.liminaldb.trustworthy-transition-ledger.v0.1".
Definition SNAPSHOT_FILE : string := "trustworthy-transition-v0.1.snap".

Inductive TransitionRecordKind : Type :=
| Authorization | Observation | ResponseIntegrity | CausalAudit | ContinuitySnapshot.

Inductive AuthorityState : Type :=
| AuthorityValid | AuthorityDenied | AuthorityPending | AuthorityExpired
| AuthorityExpiredAtReport | AuthorityConsumed | AuthorityRevalidationRequired
| AuthorityNotEvaluated | AuthorityUnknown.

Inductive ExecutionState : Type :=
| NotObserved | ObservedExecuted | ObservedBlocked | ObservedErrored | ObservedOther.

Inductive ResponseIntegrityState : Type :=
| IntegrityVerified | IntegrityFailed | IntegrityPartial | IntegrityNotEvaluated
| IntegrityUnknown.

Inductive CausalValidityState : Type :=
| CausalValid | CausalInvalid | CausalNotEvaluated | CausalUnknown.

Inductive ContinuityPosture : Type :=
| ContinueSideEffect | RetrySideEffect | ReportOnly | RemediateResponse | Revalidate | Blocked
| AlreadyConsumed | PostureNotEvaluated.

Record TransitionDimensions : Type := mkDimensions {
  authority : AuthorityState;
  execution : ExecutionState;
  response_integrity : ResponseIntegrityState;
  causal_validity : CausalValidityState;
  continuity_posture : ContinuityPosture
}.

Record TransitionLinks : Type := mkLinks {
  l_authorization_ref : option string;
  l_observation_refs : list string;
  l_response_integrity_ref : option string;
  l_causal_audit_ref : option string;
  l_previous_continuity_ref : option string
}.

Definition TransitionLinks_default : TransitionLinks := mkLinks None [] None None None.

Record TransitionEventInput : Type := mkInput {
  i_transition_id : string;
  i_subject_id : string;
  i_kind : TransitionRecordKind;
  i_record_ref : string;
  i_payload_digest : string;
  i_links : TransitionLinks;
  i_dimensions : option TransitionDimensions;
  i_side_effect_committed : option bool;
  i_captured_at_ms : Z
}.

Record TransitionEventBody : Type := mkBody {
  b_schema : string;
  b_profile : string;
  b_sequence : Z;
  b_transition_id : string;
  b_subject_id : string;
  b_kind : TransitionRecordKind;
  b_record_ref : string;
  b_payload_digest : string;
  b_links : TransitionLinks;
  b_dimensions : option TransitionDimensions;
  b_side_effect_committed : option bool;
  b_captured_at_ms : Z;
  b_previous_event_hash : option string
}.

Record TransitionEvent : Type := mkEvent {
  e_body : TransitionEventBody;
  e_event_hash : string
}.

Record TransitionProjection : Type := mkProjection {
  p_transition_id : string;
  p_subject_id : string;
  p_authorization_ref : option string;
  p_authorization_epoch : Z;
  p_observation_refs : list string;
  p_response_integrity_ref : option string;
  p_causal_audit_ref : option string;
  p_continuity_snapshot_ref : option string;
  p_dimensions : option TransitionDimensions;
  p_side_effect_committed : bool;
  p_last_sequence : Z;
  p_last_event_hash : string;
  p_event_count : Z
}.

Record RecordOwner : Type := mkOwner {
  o_transition_id : string;
  o_subject_id : string;
  o_kind : TransitionRecordKind
}.

Record LedgerState : Type := mkState {
  next_sequence : Z;
  head_event_hash : option string;
  projections : gmap string TransitionProjection;
  record_owners : gmap string RecordOwner
}.

Definition LedgerState_default : LedgerState := mkState 1 None ∅ ∅.

(** The errors of the source; [Panicked] is its [unreachable!]. *)
Inductive TransitionLedgerError : Type :=
| Storage (message : string)
| Encoding (message : string)
| InvalidIdentifier (label : string)
| InvalidReference (label : string)
| EventProfileMismatch
| SnapshotProfileMismatch
| SequenceMismatch (expected actual : Z)
| PreviousEventHashMismatch
| EventHashMismatch
| SnapshotDigestMismatch
| SnapshotProjectionDigestMismatch
| ReplayProjectionMismatch
| DuplicateRecordReference (reference : string)
| MissingAuthorization (transition_id : string)
| MissingParent (reference : string)
| ParentMismatch (label : string)
| CrossTransitionReference (reference : string)
| SubjectMismatch (transition_id : string)
| ReauthorizationWithoutSupersession
| ObservationSetMismatch
| SideEffectRollback
| ExecutionRollback
| ContinuityDimensionsRequired
| InvalidLinks (kind : TransitionRecordKind)
| PoisonedAfterStorageFailure
| Panicked.

Global Instance TransitionRecordKind_eq_dec : EqDecision TransitionRecordKind.
Proof. solve_decision. Defined.
Global Instance AuthorityState_eq_dec : EqDecision AuthorityState.
Proof. solve_decision. Defined.
Global Instance ExecutionState_eq_dec : EqDecision ExecutionState.
Proof. solve_decision. Defined.
Global Instance ResponseIntegrityState_eq_dec : EqDecision ResponseIntegrityState.
Proof. solve_decision. Defined.
Global Instance CausalValidityState_eq_dec : EqDecision CausalValidityState.
Proof. solve_decision. Defined.
Global Instance ContinuityPosture_eq_dec : EqDecision ContinuityPosture.
Proof. solve_decision. Defined.
Global Instance TransitionDimensions_eq_dec : EqDecision TransitionDimensions.
Proof. solve_decision. Defined.
Global Instance TransitionLinks_eq_dec : EqDecision TransitionLinks.
Proof. solve_decision. Defined.
Global Instance TransitionProjection_eq_dec : EqDecision TransitionProjection.
Proof. solve_decision. Defined.
Global Instance RecordOwner_eq_dec : EqDecision RecordOwner.
Proof. solve_decision. Defined.
Global Instance LedgerState_eq_dec : EqDecision LedgerState.
Proof. solve_decision. Defined.

Abbreviation tresult A := (result A TransitionLedgerError).

(** ** Validation *)
Definition validate_ref (reference label : string) : tresult unit :=
  if is_sha256_ref reference then Ok tt else Err (InvalidReference label).

Definition validate_optional_ref (reference : option string) (label : string) : tresult unit :=
  match reference with
  | Some r => validate_ref r label
  | None => Ok tt
  end.

Definition non_empty (value label : string) : tresult string :=
  let normalized := trim value in
  if decide (normalized = "") then Err (InvalidIdentifier label) else Ok normalized.

Definition validate_canonical_identifier (value label : string) : tresult unit :=
  let trimmed := trim value in
  if bool_decide (trimmed = "") || bool_decide (trimmed <> value)
  then Err (InvalidIdentifier label) else Ok tt.

(** [refs.sort(); refs.dedup();] *)
Definition canonical_refs (refs : list string) : list string := dedup (merge_sort String.le refs).

Definition is_some {A : Type} (o : option A) : bool :=
  match o with
  | Some _ => true
  | None => false
  end.

Definition normalize_input (input : TransitionEventInput) : tresult TransitionEventInput :=
  let links := i_links input in
  let! transition_id := non_empty (i_transition_id input) "transition_id" in
  let! subject_id := non_empty (i_subject_id input) "subject_id" in
  check! validate_ref (i_record_ref input) "record_ref" in
  check! validate_ref (i_payload_digest input) "payload_digest" in
  check! validate_optional_ref (l_authorization_ref links) "authorization_ref" in
  check! validate_optional_ref (l_response_integrity_ref links) "response_integrity_ref" in
  check! validate_optional_ref (l_causal_audit_ref links) "causal_audit_ref" in
  check! validate_optional_ref (l_previous_continuity_ref links) "previous_continuity_ref" in
  check! for_each (fun r => validate_ref r "observation_ref") (l_observation_refs links) in
  if bool_decide (i_kind input = ContinuitySnapshot) && negb (is_some (i_dimensions input))
  then Err ContinuityDimensionsRequired
  else
    Ok (mkInput transition_id subject_id (i_kind input) (i_record_ref input)
          (i_payload_digest input)
          (mkLinks (l_authorization_ref links) (canonical_refs (l_observation_refs links))
             (l_response_integrity_ref links) (l_causal_audit_ref links)
             (l_previous_continuity_ref links))
          (i_dimensions input) (i_side_effect_committed input) (i_captured_at_ms input)).

Definition validate_event_body (body : TransitionEventBody) : tresult unit :=
  let links := b_links body in
  check! validate_canonical_identifier (b_transition_id body) "transition_id" in
  check! validate_canonical_identifier (b_subject_id body) "subject_id" in
  check! validate_ref (b_record_ref body) "record_ref" in
  check! validate_ref (b_payload_digest body) "payload_digest" in
  check! validate_optional_ref (l_authorization_ref links) "authorization_ref" in
  check! validate_optional_ref (l_response_integrity_ref links) "response_integrity_ref" in
  check! validate_optional_ref (l_causal_audit_ref links) "causal_audit_ref" in
  check! validate_optional_ref (l_previous_continuity_ref links) "previous_continuity_ref" in
  check! validate_optional_ref (b_previous_event_hash body) "previous_event_hash" in
  check! for_each (fun r => validate_ref r "observation_ref") (l_observation_refs links) in
  if decide (canonical_refs (l_observation_refs links) = l_observation_refs links) then
    if bool_decide (b_kind body = ContinuitySnapshot) && negb (is_some (b_dimensions body))
    then Err ContinuityDimensionsRequired
    else Ok tt
  else Err (InvalidLinks (b_kind body)).

(** ** Ownership and monotonicity checks *)
Definition ensure_owned_by (state : LedgerState) (reference transition_id subject_id : string)
  : tresult unit :=
  match record_owners state !! reference with
  | None => Err (MissingParent reference)
  | Some owner =>
      if bool_decide (o_transition_id owner <> transition_id)
         || bool_decide (o_subject_id owner <> subject_id)
      then Err (CrossTransitionReference reference) else Ok tt
  end.

Definition expect_optional_ref (state : LedgerState) (actual expected : option string)
    (label : string) (event : TransitionEvent) : tresult unit :=
  check! match actual with
         | Some reference =>
             if is_some (record_owners state !! reference) then Ok tt
             else Err (MissingParent reference)
         | None => Ok tt
         end in
  if decide (actual = expected) then
    match actual with
    | Some reference =>
        ensure_owned_by state reference (b_transition_id (e_body event))
          (b_subject_id (e_body event))
    | None => Ok tt
    end
  else Err (ParentMismatch label).

Definition expect_observation_set (state : LedgerState) (actual : list string)
    (current : TransitionProjection) (event : TransitionEvent) : tresult unit :=
  if decide (actual = p_observation_refs current) then
    for_each (fun r => ensure_owned_by state r (b_transition_id (e_body event))
                         (b_subject_id (e_body event))) actual
  else Err ObservationSetMismatch.

Definition validate_side_effect (previous : bool) (update : option bool) : tresult unit :=
  if previous && bool_decide (update = Some false) then Err SideEffectRollback else Ok tt.

Definition validate_monotonic_dimensions (previous update : option TransitionDimensions)
  : tresult unit :=
  match previous, update with
  | Some p, Some u =>
      if bool_decide (execution p = ObservedExecuted)
         && bool_decide (execution u <> ObservedExecuted)
      then Err ExecutionRollback else Ok tt
  | _, _ => Ok tt
  end.

(** ** Folding an event into the state *)

(** The updates every record of an existing transition shares: dimensions, the side-effect flag
    and [update_projection_tail]. *)
Definition update_projection_tail (p : TransitionProjection) (event : TransitionEvent)
  : TransitionProjection :=
  mkProjection (p_transition_id p) (p_subject_id p) (p_authorization_ref p)
    (p_authorization_epoch p) (p_observation_refs p) (p_response_integrity_ref p)
    (p_causal_audit_ref p) (p_continuity_snapshot_ref p) (p_dimensions p)
    (p_side_effect_committed p)
    (b_sequence (e_body event)) (e_event_hash event) (u64_add (p_event_count p) 1).

Definition update_evidence (p : TransitionProjection) (event : TransitionEvent)
  : TransitionProjection :=
  let body := e_body event in
  update_projection_tail
    (mkProjection (p_transition_id p) (p_subject_id p) (p_authorization_ref p)
       (p_authorization_epoch p) (p_observation_refs p) (p_response_integrity_ref p)
       (p_causal_audit_ref p) (p_continuity_snapshot_ref p)
       (match b_dimensions body with Some d => Some d | None => p_dimensions p end)
       (if decide (b_side_effect_committed body = Some true) then true
        else p_side_effect_committed p)
       (p_last_sequence p) (p_last_event_hash p) (p_event_count p))
    event.

Definition with_projection (state : LedgerState) (id : string) (p : TransitionProjection)
  : LedgerState :=
  mkState (next_sequence state) (head_event_hash state) (<[id := p]> (projections state))
    (record_owners state).

(** A new authorization of an existing transition opens an epoch and drops its evidence. *)
Definition supersede (p : TransitionProjection) (body : TransitionEventBody)
  : TransitionProjection :=
  mkProjection (p_transition_id p) (p_subject_id p) (Some (b_record_ref body))
    (u64_add (p_authorization_epoch p) 1) [] None None None
    (p_dimensions p) (p_side_effect_committed p) (p_last_sequence p) (p_last_event_hash p)
    (p_event_count p).

(** The projection of a transition that its first authorization opens. *)
Definition open_projection (event : TransitionEvent) : TransitionProjection :=
  let body := e_body event in
  mkProjection (b_transition_id body) (b_subject_id body) (Some (b_record_ref body)) 1
    [] None None None (b_dimensions body) (default false (b_side_effect_committed body))
    (b_sequence body) (e_event_hash event) 1.

Definition apply_authorization (state : LedgerState) (event : TransitionEvent)
  : tresult LedgerState :=
  let body := e_body event in
  let links := b_links body in
  if bool_decide (l_observation_refs links <> [])
     || is_some (l_response_integrity_ref links)
     || is_some (l_causal_audit_ref links)
     || is_some (l_previous_continuity_ref links)
  then Err (InvalidLinks (b_kind body))
  else
    match projections state !! b_transition_id body with
    | Some existing =>
        if decide (p_subject_id existing = b_subject_id body) then
          let! expected := ok_or (p_authorization_ref existing)
                             (MissingAuthorization (b_transition_id body)) in
          if decide (l_authorization_ref links = Some expected) then
            check! ensure_owned_by state expected (b_transition_id body) (b_subject_id body) in
            check! validate_monotonic_dimensions (p_dimensions existing) (b_dimensions body) in
            check! validate_side_effect (p_side_effect_committed existing)
                     (b_side_effect_committed body) in
            Ok (with_projection state (b_transition_id body)
                  (update_evidence (supersede existing body) event))
          else Err ReauthorizationWithoutSupersession
        else Err (SubjectMismatch (b_transition_id body))
    | None =>
        if is_some (l_authorization_ref links) then Err (InvalidLinks (b_kind body))
        else
          Ok (with_projection state (b_transition_id body) (open_projection event))
    end.

(** The link checks of [apply_dependent_record], by kind. *)
Definition check_dependent_links (state : LedgerState) (current : TransitionProjection)
    (event : TransitionEvent) : tresult unit :=
  let body := e_body event in
  let links := b_links body in
  match b_kind body with
  | Authorization => Err Panicked
  | Observation =>
      if bool_decide (l_observation_refs links <> [])
         || is_some (l_response_integrity_ref links)
         || is_some (l_causal_audit_ref links)
         || is_some (l_previous_continuity_ref links)
      then Err (InvalidLinks (b_kind body)) else Ok tt
  | ResponseIntegrity =>
      check! expect_observation_set state (l_observation_refs links) current event in
      if is_some (l_response_integrity_ref links)
         || is_some (l_causal_audit_ref links)
         || is_some (l_previous_continuity_ref links)
      then Err (InvalidLinks (b_kind body)) else Ok tt
  | CausalAudit =>
      check! expect_observation_set state (l_observation_refs links) current event in
      check! expect_optional_ref state (l_response_integrity_ref links)
               (p_response_integrity_ref current) "response_integrity_ref" event in
      if is_some (l_causal_audit_ref links) || is_some (l_previous_continuity_ref links)
      then Err (InvalidLinks (b_kind body)) else Ok tt
  | ContinuitySnapshot =>
      check! expect_observation_set state (l_observation_refs links) current event in
      check! expect_optional_ref state (l_response_integrity_ref links)
               (p_response_integrity_ref current) "response_integrity_ref" event in
      check! expect_optional_ref state (l_causal_audit_ref links)
               (p_causal_audit_ref current) "causal_audit_ref" event in
      expect_optional_ref state (l_previous_continuity_ref links)
        (p_continuity_snapshot_ref current) "previous_continuity_ref" event
  end.

(** The update of the reference fields, by kind: a new record invalidates what came after it. *)
Definition install_record (p : TransitionProjection) (body : TransitionEventBody)
  : TransitionProjection :=
  let refs obs integrity causal continuity :=
    mkProjection (p_transition_id p) (p_subject_id p) (p_authorization_ref p)
      (p_authorization_epoch p) obs integrity causal continuity (p_dimensions p)
      (p_side_effect_committed p) (p_last_sequence p) (p_last_event_hash p) (p_event_count p) in
  match b_kind body with
  | Authorization => p
  | Observation =>
      refs (canonical_refs (p_observation_refs p ++ [b_record_ref body])) None None None
  | ResponseIntegrity => refs (p_observation_refs p) (Some (b_record_ref body)) None None
  | CausalAudit =>
      refs (p_observation_refs p) (p_response_integrity_ref p) (Some (b_record_ref body)) None
  | ContinuitySnapshot =>
      refs (p_observation_refs p) (p_response_integrity_ref p) (p_causal_audit_ref p)
        (Some (b_record_ref body))
  end.

Definition apply_dependent_record (state : LedgerState) (event : TransitionEvent)
  : tresult LedgerState :=
  let body := e_body event in
  let! current := ok_or (projections state !! b_transition_id body)
                    (MissingAuthorization (b_transition_id body)) in
  if decide (p_subject_id current = b_subject_id body) then
    let! expected_authorization := ok_or (p_authorization_ref current)
                                     (MissingAuthorization (b_transition_id body)) in
    check! expect_optional_ref state (l_authorization_ref (b_links body))
             (Some expected_authorization) "authorization_ref" event in
    check! check_dependent_links state current event in
    check! validate_monotonic_dimensions (p_dimensions current) (b_dimensions body) in
    check! validate_side_effect (p_side_effect_committed current)
             (b_side_effect_committed body) in
    Ok (with_projection state (b_transition_id body)
          (update_evidence (install_record current body) event))
  else Err (SubjectMismatch (b_transition_id body)).

(** What [apply_event] does once the record has been accepted. *)
Definition record_event (state : LedgerState) (event : TransitionEvent) : LedgerState :=
  let body := e_body event in
  mkState (u64_add (next_sequence state) 1) (Some (e_event_hash event)) (projections state)
    (<[b_record_ref body := mkOwner (b_transition_id body) (b_subject_id body) (b_kind body)]>
       (record_owners state)).

Section apply.
Context `{Cbor TransitionEventBody, Sha256}.

Definition apply_event (state : LedgerState) (event : TransitionEvent) : tresult LedgerState :=
  let body := e_body event in
  check! validate_event_body body in
  if bool_decide (b_schema body <> EVENT_SCHEMA) || bool_decide (b_profile body <> PROFILE)
  then Err EventProfileMismatch
  else if decide (b_sequence body = next_sequence state) then
    if decide (b_previous_event_hash body = head_event_hash state) then
      let! digest := digest_cbor Encoding body in
      if decide (digest = e_event_hash event) then
        check! validate_ref (b_record_ref body) "record_ref" in
        check! validate_ref (b_payload_digest body) "payload_digest" in
        if is_some (record_owners state !! b_record_ref body)
        then Err (DuplicateRecordReference (b_record_ref body))
        else
          let! state' :=
            match b_kind body with
            | Authorization => apply_authorization state event
            | _ => apply_dependent_record state event
            end in
          Ok (record_event state' event)
      else Err EventHashMismatch
    else Err PreviousEventHashMismatch
  else Err (SequenceMismatch (next_sequence state) (b_sequence body)).

(** The state after a sequence of events. *)
Definition replay (state : LedgerState) (events : list TransitionEvent) : tresult LedgerState :=
  fold_result apply_event state events.

(** The event [append] builds for a normalized input. *)
Definition body_of_input (state : LedgerState) (n : TransitionEventInput) : TransitionEventBody :=
  mkBody EVENT_SCHEMA PROFILE (next_sequence state) (i_transition_id n) (i_subject_id n)
    (i_kind n) (i_record_ref n) (i_payload_digest n) (i_links n) (i_dimensions n)
    (i_side_effect_committed n) (i_captured_at_ms n) (head_event_hash state).
End apply.
