(* ===== verification/TransitionCodec.v ===== *)
(** * Transition ledger: a concrete codec and an example log

    [Cbor] instances for the ledger's records, derived from [Crypto], and the log of a full
    evidence chain (authorization, observation, response integrity, causal audit, continuity
    snapshot) that the witnesses evaluate. *)

From stdpp Require Import prelude gmap strings list sorting fin_maps.
From Stdlib Require Import ZArith Lia.
From S2P Require Import Prelude RustStr Crypto Transition.

(** An enumeration, by the position of its constructors in a list. *)
Definition Ser_enum {A : Type} `{EqDecision A} (l : list A) : Ser A :=
  Ser_via (fun a => match list_find (a =.) l with Some (i, _) => Z.of_nat i | None => 0%Z end)
    (fun z => l !! Z.to_nat z).

Ltac ser_enum := apply Ser_via_ok; intros []; reflexivity.

Global Instance Ser_kind : Ser TransitionRecordKind :=
  Ser_enum [Authorization; Observation; ResponseIntegrity; CausalAudit; ContinuitySnapshot].
Global Instance Ser_kind_ok : SerOk TransitionRecordKind.
Proof. ser_enum. Qed.

Global Instance Ser_authority : Ser AuthorityState :=
  Ser_enum [AuthorityValid; AuthorityDenied; AuthorityPending; AuthorityExpired;
    AuthorityExpiredAtReport; AuthorityConsumed; AuthorityRevalidationRequired;
    AuthorityNotEvaluated; AuthorityUnknown].
Global Instance Ser_authority_ok : SerOk AuthorityState.
Proof. ser_enum. Qed.

Global Instance Ser_execution : Ser ExecutionState :=
  Ser_enum [NotObserved; ObservedExecuted; ObservedBlocked; ObservedErrored; ObservedOther].
Global Instance Ser_execution_ok : SerOk ExecutionState.
Proof. ser_enum. Qed.

Global Instance Ser_integrity : Ser ResponseIntegrityState :=
  Ser_enum [IntegrityVerified; IntegrityFailed; IntegrityPartial; IntegrityNotEvaluated;
    IntegrityUnknown].
Global Instance Ser_integrity_ok : SerOk ResponseIntegrityState.
Proof. ser_enum. Qed.

Global Instance Ser_causal : Ser CausalValidityState :=
  Ser_enum [CausalValid; CausalInvalid; CausalNotEvaluated; CausalUnknown].
Global Instance Ser_causal_ok : SerOk CausalValidityState.
Proof. ser_enum. Qed.

Global Instance Ser_posture : Ser ContinuityPosture :=
  Ser_enum [ContinueSideEffect; RetrySideEffect; ReportOnly; RemediateResponse; Revalidate;
    Blocked; AlreadyConsumed; PostureNotEvaluated].
Global Instance Ser_posture_ok : SerOk ContinuityPosture.
Proof. ser_enum. Qed.

Global Instance Ser_dimensions : Ser TransitionDimensions :=
  Ser_via (fun d => (authority d, execution d, response_integrity d, causal_validity d,
                     continuity_posture d))
    (fun '(a, e, r, c, k) => Some (mkDimensions a e r c k)).
Global Instance Ser_dimensions_ok : SerOk TransitionDimensions.
Proof. ser_enum. Qed.

Global Instance Ser_links : Ser TransitionLinks :=
  Ser_via (fun l => (l_authorization_ref l, l_observation_refs l, l_response_integrity_ref l,
                     l_causal_audit_ref l, l_previous_continuity_ref l))
    (fun '(a, o, r, c, k) => Some (mkLinks a o r c k)).
Global Instance Ser_links_ok : SerOk TransitionLinks.
Proof. ser_enum. Qed.

Global Instance Ser_body : Ser TransitionEventBody :=
  Ser_via (fun b => (b_schema b, b_profile b, b_sequence b, b_transition_id b, b_subject_id b,
                     b_kind b, b_record_ref b, b_payload_digest b, b_links b, b_dimensions b,
                     b_side_effect_committed b, b_captured_at_ms b, b_previous_event_hash b))
    (fun '(s, p, n, t, u, k, r, d, l, m, c, w, h) => Some (mkBody s p n t u k r d l m c w h)).
Global Instance Ser_body_ok : SerOk TransitionEventBody.
Proof. ser_enum. Qed.

Global Instance Ser_event : Ser TransitionEvent :=
  Ser_via (fun e => (e_body e, e_event_hash e)) (fun '(b, h) => Some (mkEvent b h)).
Global Instance Ser_event_ok : SerOk TransitionEvent.
Proof. ser_enum. Qed.

Global Instance Ser_projection : Ser TransitionProjection :=
  Ser_via (fun p => (p_transition_id p, p_subject_id p, p_authorization_ref p,
                     p_authorization_epoch p, p_observation_refs p, p_response_integrity_ref p,
                     p_causal_audit_ref p, p_continuity_snapshot_ref p, p_dimensions p,
                     p_side_effect_committed p, p_last_sequence p, p_last_event_hash p,
                     p_event_count p))
    (fun '(t, u, a, n, o, r, c, k, d, s, q, h, m) =>
       Some (mkProjection t u a n o r c k d s q h m)).
Global Instance Ser_projection_ok : SerOk TransitionProjection.
Proof. ser_enum. Qed.

Global Instance Ser_owner : Ser RecordOwner :=
  Ser_via (fun o => (o_transition_id o, o_subject_id o, o_kind o))
    (fun '(t, u, k) => Some (mkOwner t u k)).
Global Instance Ser_owner_ok : SerOk RecordOwner.
Proof. ser_enum. Qed.

Global Instance Ser_state : Ser LedgerState :=
  Ser_via (fun s => (next_sequence s, head_event_hash s, projections s, record_owners s))
    (fun '(n, h, p, o) => Some (mkState n h p o)).
Global Instance Ser_state_ok : SerOk LedgerState.
Proof. ser_enum. Qed.

Definition cbor_body : Cbor TransitionEventBody := Cbor_of TransitionEventBody.
Definition cbor_body_ok : @CborOk _ cbor_body := Cbor_of_ok _.
Definition cbor_event : Cbor TransitionEvent := Cbor_of TransitionEvent.
Definition cbor_event_ok : @CborOk _ cbor_event := Cbor_of_ok _.
Definition cbor_state : Cbor LedgerState := Cbor_of LedgerState.
Definition cbor_state_ok : @CborOk _ cbor_state := Cbor_of_ok _.

(** ** The example log *)
Section example.
Local Existing Instances cbor_body checksum_sha.

(** The events built from a list of inputs, as [append] builds them, and the final state. *)
Fixpoint build_log (st : LedgerState) (inputs : list TransitionEventInput)
  : tresult (list TransitionEvent * LedgerState) :=
  match inputs with
  | [] => Ok ([], st)
  | i :: rest =>
      let! n := normalize_input i in
      let body := body_of_input st n in
      let! h := digest_cbor Encoding body in
      let! st' := apply_event st (mkEvent body h) in
      let! r := build_log st' rest in
      Ok (mkEvent body h :: r.1, r.2)
  end.

Definition ref_of (label : string) : string := sha256_ref (as_bytes label).

Definition ex_dims (e : ExecutionState) : option TransitionDimensions :=
  Some (mkDimensions AuthorityValid e IntegrityFailed CausalValid RemediateResponse).

Definition ex_input (kind : TransitionRecordKind) (label : string) (links : TransitionLinks)
    (dims : option TransitionDimensions) (committed : option bool) : TransitionEventInput :=
  mkInput " transition-001 " "agent:deploy" kind (ref_of label) (ref_of "payload") links dims
    committed 1.

Definition ex_inputs : list TransitionEventInput :=
  let a := Some (ref_of "authorization") in
  let o := [ref_of "observation"] in
  let r := Some (ref_of "integrity") in
  [ ex_input Authorization "authorization" TransitionLinks_default None None;
    ex_input Observation "observation" (mkLinks a [] None None None)
      (ex_dims ObservedExecuted) (Some true);
    ex_input ResponseIntegrity "integrity" (mkLinks a o None None None)
      (ex_dims ObservedExecuted) None;
    ex_input CausalAudit "causal" (mkLinks a o r None None) (ex_dims ObservedExecuted) None;
    ex_input ContinuitySnapshot "continuity" (mkLinks a o r (Some (ref_of "causal")) None)
      (ex_dims ObservedExecuted) (Some true) ].

Definition ok_or_default {A E : Type} (d : A) (r : result A E) : A :=
  match r with
  | Ok a => a
  | Err _ => d
  end.

Definition ex_run : list TransitionEvent * LedgerState :=
  ok_or_default ([], LedgerState_default) (build_log LedgerState_default ex_inputs).
Definition ex_log : list TransitionEvent := Eval vm_compute in ex_run.1.
Definition ex_state : LedgerState := Eval vm_compute in ex_run.2.

Lemma ex_log_length : length ex_log = 5.
Proof. reflexivity. Qed.

Lemma ex_replay : replay LedgerState_default ex_log = Ok ex_state.
Proof. vm_cast_no_check (eq_refl (Ok (E := TransitionLedgerError) ex_state)). Qed.
End example.
