(* ===== verification/TransitionInv.v ===== *)
(** * Transition ledger: the state invariant and an exact description of [apply_event]

    [state_ok] says what a ledger state that was reached through [apply_event] looks like: every
    reference of a projection is owned by that transition and subject with the right kind, and
    the counters agree with the set of recorded references. Under it the checks of [apply_event]
    collapse to [admitted]: the links of a record are exactly the ones the projection of its
    transition demands. *)

From stdpp Require Import prelude gmap strings list sorting fin_maps.
From Stdlib Require Import ZArith Lia.
From S2P Require Import Prelude RustStr Crypto Transition.

(** ** Canonical reference lists *)
Lemma elem_of_canonical_refs r l : r ∈ canonical_refs l <-> r ∈ l.
Proof. unfold canonical_refs. by rewrite elem_of_dedup, merge_sort_Permutation. Qed.

Lemma canonical_refs_sorted l : StronglySorted String.le (canonical_refs l).
Proof. apply dedup_sorted, StronglySorted_merge_sort; apply _. Qed.

Lemma canonical_refs_NoDup l : NoDup (canonical_refs l).
Proof. apply (dedup_NoDup String.le), StronglySorted_merge_sort; apply _. Qed.

(** The canonical list is a function of the set of references. *)
Lemma canonical_refs_ext l1 l2 :
  (forall r, r ∈ l1 <-> r ∈ l2) -> canonical_refs l1 = canonical_refs l2.
Proof.
  intros Hx. apply (sorted_NoDup_ext String.le);
    auto using canonical_refs_sorted, canonical_refs_NoDup.
  intros r. by rewrite !elem_of_canonical_refs.
Qed.

Lemma canonical_refs_idemp l : canonical_refs (canonical_refs l) = canonical_refs l.
Proof. apply canonical_refs_ext. intros r. apply elem_of_canonical_refs. Qed.

(** ** The invariant *)
Definition owned (st : LedgerState) (kind : TransitionRecordKind) (p : TransitionProjection)
    (r : string) : Prop :=
  record_owners st !! r = Some (mkOwner (p_transition_id p) (p_subject_id p) kind).

Definition owned_opt st kind p (o : option string) : Prop :=
  forall r, o = Some r -> owned st kind p r.

Definition refs_of (id : string) (owners : gmap string RecordOwner) : gmap string RecordOwner :=
  filter (fun ro => o_transition_id ro.2 = id) owners.

Definition authorizations_of (id : string) (owners : gmap string RecordOwner)
  : gmap string RecordOwner :=
  filter (fun ro => o_transition_id ro.2 = id /\ o_kind ro.2 = Authorization) owners.

Definition count_u64 (m : gmap string RecordOwner) : Z := Z.of_nat (size m) `mod` u64_size.

Record projection_ok (st : LedgerState) (id : string) (p : TransitionProjection) : Prop := {
  pok_id : p_transition_id p = id;
  pok_authorized : p_authorization_ref p <> None;
  pok_authorization : owned_opt st Authorization p (p_authorization_ref p);
  pok_observations : Forall (owned st Observation p) (p_observation_refs p);
  pok_canonical : canonical_refs (p_observation_refs p) = p_observation_refs p;
  pok_integrity : owned_opt st ResponseIntegrity p (p_response_integrity_ref p);
  pok_causal : owned_opt st CausalAudit p (p_causal_audit_ref p);
  pok_continuity : owned_opt st ContinuitySnapshot p (p_continuity_snapshot_ref p);
  pok_count : p_event_count p = count_u64 (refs_of id (record_owners st));
  pok_epoch : p_authorization_epoch p = count_u64 (authorizations_of id (record_owners st))
}.

Record state_ok (st : LedgerState) : Prop := {
  sok_projections : map_Forall (projection_ok st) (projections st);
  sok_owners : map_Forall (fun _ o => exists p, projections st !! o_transition_id o = Some p /\
                                          p_subject_id p = o_subject_id o) (record_owners st);
  sok_sequence : next_sequence st = ((1 + Z.of_nat (size (record_owners st))) `mod` u64_size)%Z;
  sok_head : head_event_hash st = None <-> record_owners st = ∅;
  sok_head_ref : forall h, head_event_hash st = Some h -> is_sha256_ref h = true
}.

(** ** What a record of each kind has to link to *)
Definition expected_links (p : TransitionProjection) (kind : TransitionRecordKind)
  : TransitionLinks :=
  let a := p_authorization_ref p in
  match kind with
  | Authorization | Observation => mkLinks a [] None None None
  | ResponseIntegrity => mkLinks a (p_observation_refs p) None None None
  | CausalAudit => mkLinks a (p_observation_refs p) (p_response_integrity_ref p) None None
  | ContinuitySnapshot =>
      mkLinks a (p_observation_refs p) (p_response_integrity_ref p) (p_causal_audit_ref p)
        (p_continuity_snapshot_ref p)
  end.

(** The update does not take back an observed execution or a committed side effect. *)
Definition no_rollback (p : TransitionProjection) (body : TransitionEventBody) : Prop :=
  validate_monotonic_dimensions (p_dimensions p) (b_dimensions body) = Ok tt /\
  validate_side_effect (p_side_effect_committed p) (b_side_effect_committed body) = Ok tt.

Definition next_projection (p : TransitionProjection) (ev : TransitionEvent)
  : TransitionProjection :=
  let body := e_body ev in
  update_evidence
    (match b_kind body with
     | Authorization => supersede p body
     | _ => install_record p body
     end) ev.

(** [admitted o ev p']: a transition with projection [o] accepts the record and becomes [p']. *)
Definition admitted (o : option TransitionProjection) (ev : TransitionEvent)
    (p' : TransitionProjection) : Prop :=
  let body := e_body ev in
  match o with
  | None => b_kind body = Authorization /\ b_links body = TransitionLinks_default /\
            p' = open_projection ev
  | Some p => p_subject_id p = b_subject_id body /\
              b_links body = expected_links p (b_kind body) /\
              no_rollback p body /\ p' = next_projection p ev
  end.

(** ** The ownership checks never fail on a good state *)
Lemma ensure_owned_ok st kind p r :
  owned st kind p r -> ensure_owned_by st r (p_transition_id p) (p_subject_id p) = Ok tt.
Proof.
  intros Ho. unfold ensure_owned_by. rewrite Ho. cbn. by rewrite !bool_decide_eq_false_2 by naive_solver.
Qed.

Section links.
Context (st : LedgerState) (p : TransitionProjection) (ev : TransitionEvent).
Context (Htid : p_transition_id p = b_transition_id (e_body ev)).
Context (Hsub : p_subject_id p = b_subject_id (e_body ev)).

Lemma expect_optional_ref_spec kind actual expected label :
  owned_opt st kind p expected ->
  expect_optional_ref st actual expected label ev
  = if decide (actual = expected) then Ok tt
    else match actual with
         | Some r => if is_some (record_owners st !! r) then Err (ParentMismatch label)
                     else Err (MissingParent r)
         | None => Err (ParentMismatch label)
         end.
Proof.
  intros Ho. unfold expect_optional_ref. destruct actual as [r|]; cbn [rbind].
  - destruct (decide (Some r = expected)) as [<- | Hne].
    + pose proof (Ho r eq_refl) as Hr. pose proof (ensure_owned_ok _ _ _ _ Hr) as He.
      rewrite Htid, Hsub in He. rewrite He. by rewrite Hr.
    + by destruct (record_owners st !! r).
  - by case_decide.
Qed.

Lemma expect_observation_set_spec actual :
  Forall (owned st Observation p) (p_observation_refs p) ->
  expect_observation_set st actual p ev
  = if decide (actual = p_observation_refs p) then Ok tt else Err ObservationSetMismatch.
Proof.
  intros Ho. unfold expect_observation_set. case_decide as Heq; [| done]. subst actual.
  apply for_each_ok. eapply Forall_impl; [exact Ho |]. intros r Hr. cbn.
  rewrite <- Htid, <- Hsub. by eapply ensure_owned_ok.
Qed.
End links.

Lemma is_some_false {A} (o : option A) : is_some o = false <-> o = None.
Proof. by destruct o. Qed.

Lemma links_eta (l : TransitionLinks) :
  l = mkLinks (l_authorization_ref l) (l_observation_refs l) (l_response_integrity_ref l)
        (l_causal_audit_ref l) (l_previous_continuity_ref l).
Proof. by destruct l. Qed.

(** A guard on four links is the statement that they are absent. *)
Lemma no_links_guard l :
  bool_decide (l_observation_refs l <> []) || is_some (l_response_integrity_ref l)
  || is_some (l_causal_audit_ref l) || is_some (l_previous_continuity_ref l) = false <->
  l = mkLinks (l_authorization_ref l) [] None None None.
Proof.
  destruct l as [a obs r c k]; cbn [l_authorization_ref l_observation_refs
    l_response_integrity_ref l_causal_audit_ref l_previous_continuity_ref].
  rewrite !orb_false_iff, !is_some_false, bool_decide_eq_false.
  split; [intros [[[Ho ->] ->] ->] | intros [= -> -> -> ->]; naive_solver].
  destruct obs; naive_solver.
Qed.

Lemma dependent_links_ok st p ev a :
  projection_ok st (b_transition_id (e_body ev)) p ->
  p_subject_id p = b_subject_id (e_body ev) ->
  p_authorization_ref p = Some a -> b_kind (e_body ev) <> Authorization ->
  rbind (expect_optional_ref st (l_authorization_ref (b_links (e_body ev))) (Some a)
           "authorization_ref" ev) (fun _ => check_dependent_links st p ev) = Ok tt <->
  b_links (e_body ev) = expected_links p (b_kind (e_body ev)).
Proof.
  intros [Hid _ Ha Hob _ Hri Hca Hco _ _] Hsub Hauth Hk. rewrite Hauth in Ha.
  rewrite (expect_optional_ref_spec st p ev Hid Hsub Authorization) by done.
  unfold check_dependent_links, expected_links. rewrite Hauth.
  destruct (b_links (e_body ev)) as [la lo lr lc lk];
    cbn [l_authorization_ref l_observation_refs l_response_integrity_ref l_causal_audit_ref
         l_previous_continuity_ref].
  destruct (b_kind (e_body ev)) eqn:Ek; [done |..];
    rewrite ?(expect_observation_set_spec st p ev Hid Hsub) by done;
    rewrite ?(expect_optional_ref_spec st p ev Hid Hsub ResponseIntegrity) by done;
    rewrite ?(expect_optional_ref_spec st p ev Hid Hsub CausalAudit) by done;
    rewrite ?(expect_optional_ref_spec st p ev Hid Hsub ContinuitySnapshot) by done.
  all: repeat (case_decide; cbn [rbind]); subst.
  all: try (split; [destruct la; cbn [rbind]; intros; repeat case_match; done | congruence]).
  all: try (split; [intros; repeat case_match; done | congruence]).
  all: try match goal with |- context [bool_decide (?l <> [])] => destruct l end.
  all: repeat match goal with o : option string |- _ => destruct o end; naive_solver.
Qed.

Lemma apply_authorization_exact st ev st' :
  map_Forall (projection_ok st) (projections st) -> b_kind (e_body ev) = Authorization ->
  apply_authorization st ev = Ok st' <->
  exists p', admitted (projections st !! b_transition_id (e_body ev)) ev p' /\
             st' = with_projection st (b_transition_id (e_body ev)) p'.
Proof.
  intros Hps Hk. unfold apply_authorization, admitted. rewrite Hk.
  destruct (_ || _ || _ || _) eqn:Eg.
  { split; [done |]. intros (p' & Hadm & _). apply not_false_iff_true in Eg. destruct Eg.
    apply no_links_guard.
    by destruct (projections st !! _); destruct_and!; match goal with E : b_links _ = _ |- _ =>
      rewrite E end. }
  apply no_links_guard in Eg.
  destruct (projections st !! b_transition_id (e_body ev)) as [p|] eqn:Ep.
  - pose proof (Hps _ _ Ep) as [Hid Ha Hown _ _ _ _ _ _ _].
    destruct (p_authorization_ref p) as [a|] eqn:Epa; [| done]. cbn [ok_or rbind].
    unfold expected_links, next_projection. rewrite Epa, Hk.
    case_decide as Hs; [| naive_solver]. case_decide as Hl.
    + pose proof (ensure_owned_ok _ _ _ _ (Hown a eq_refl)) as He. rewrite Hid, Hs in He.
      rewrite He. cbn [rbind]. unfold no_rollback.
      destruct (validate_monotonic_dimensions _ _) as [[]|]; cbn [rbind]; [| naive_solver].
      destruct (validate_side_effect _ _) as [[]|]; cbn [rbind]; [| naive_solver].
      rewrite Eg, Hl. naive_solver.
    + split; [done |]. intros (p' & (_ & El & _) & _). by rewrite El in Hl.
  - destruct (l_authorization_ref (b_links (e_body ev))) as [a|] eqn:El; cbn [is_some].
    + split; [done |]. intros (p' & (_ & Hd & _) & _). by rewrite Hd in El.
    + rewrite Eg. naive_solver.
Qed.

Lemma apply_dependent_exact st ev st' :
  map_Forall (projection_ok st) (projections st) -> b_kind (e_body ev) <> Authorization ->
  apply_dependent_record st ev = Ok st' <->
  exists p', admitted (projections st !! b_transition_id (e_body ev)) ev p' /\
             st' = with_projection st (b_transition_id (e_body ev)) p'.
Proof.
  intros Hps Hk. unfold apply_dependent_record, admitted.
  destruct (projections st !! b_transition_id (e_body ev)) as [p|] eqn:Ep; cbn [ok_or rbind];
    [| naive_solver].
  pose proof (Hps _ _ Ep) as Hp.
  case_decide as Hs; [| naive_solver].
  destruct (p_authorization_ref p) as [a|] eqn:Epa; [| by destruct (pok_authorized _ _ _ Hp)].
  cbn [ok_or rbind].
  pose proof (dependent_links_ok st p ev a Hp Hs Epa Hk) as Hlinks.
  destruct (expect_optional_ref _ _ _ _ _) as [[]|]; cbn [rbind] in *; [| naive_solver].
  destruct (check_dependent_links st p ev) as [[]|]; cbn [rbind]; [| naive_solver].
  unfold no_rollback, next_projection.
  destruct (validate_monotonic_dimensions _ _) as [[]|]; cbn [rbind]; [| naive_solver].
  destruct (validate_side_effect _ _) as [[]|]; cbn [rbind]; [| naive_solver].
  destruct (b_kind (e_body ev)); naive_solver.
Qed.

Section exact.
Context `{Cbor TransitionEventBody, Sha256}.

(** [ev] is well formed and is the next event of the chain that ends in [st]. *)
Definition chained (st : LedgerState) (ev : TransitionEvent) : Prop :=
  let body := e_body ev in
  validate_event_body body = Ok tt /\ b_schema body = EVENT_SCHEMA /\ b_profile body = PROFILE /\
  b_sequence body = next_sequence st /\ b_previous_event_hash body = head_event_hash st /\
  digest_cbor Encoding body = Ok (e_event_hash ev).

(** [apply_event] accepts exactly the fresh, chained and admitted records. *)
Lemma apply_event_spec st ev st' :
  state_ok st ->
  apply_event st ev = Ok st' <->
  chained st ev /\ record_owners st !! b_record_ref (e_body ev) = None /\
  exists p', admitted (projections st !! b_transition_id (e_body ev)) ev p' /\
             st' = record_event (with_projection st (b_transition_id (e_body ev)) p') ev.
Proof.
  intros Hst. unfold apply_event, chained.
  destruct (validate_event_body (e_body ev)) as [[]|] eqn:Ev; cbn [rbind]; [| naive_solver].
  destruct (_ || _) eqn:Es.
  { apply not_false_iff_true in Es. split; [done |]. intros ((_ & Hs & Hp & _) & _).
    destruct Es. by rewrite Hs, Hp, !bool_decide_eq_false_2 by naive_solver. }
  apply orb_false_iff in Es as [Es1 Es2]. apply bool_decide_eq_false, dec_stable in Es1, Es2.
  case_decide; [| naive_solver]. case_decide; [| naive_solver].
  destruct (digest_cbor _ _) as [d|]; cbn [rbind]; [| naive_solver].
  case_decide; [| naive_solver]. subst d.
  assert (validate_ref (b_record_ref (e_body ev)) "record_ref" = Ok tt /\
          validate_ref (b_payload_digest (e_body ev)) "payload_digest" = Ok tt) as [-> ->].
  { unfold validate_event_body in Ev. rinv Ev.
    by repeat match goal with u : unit |- _ => destruct u end. }
  cbn [rbind].
  destruct (record_owners st !! b_record_ref (e_body ev)); cbn [is_some]; [naive_solver |].
  set (r := match b_kind (e_body ev) with Authorization => _ | _ => _ end).
  assert (forall s, r = Ok s <-> exists p',
     admitted (projections st !! b_transition_id (e_body ev)) ev p' /\
     s = with_projection st (b_transition_id (e_body ev)) p') as Hr.
  { intros s. subst r. pose proof (sok_projections _ Hst).
    destruct (b_kind (e_body ev)) eqn:Ek; [by apply apply_authorization_exact |..];
      apply apply_dependent_exact; first [done | congruence]. }
  clearbody r. split.
  - intros Hok. rinv Hok. injection Hok as <-.
    match goal with E : _ = Ok ?s |- _ => destruct (proj1 (Hr s) eq_refl) as (p' & ? & ->) end.
    eauto 10.
  - intros (_ & _ & p' & Hadm & ->).
    by rewrite (proj2 (Hr _) (ex_intro _ p' (conj Hadm eq_refl))).
Qed.
End exact.

(** ** Preservation *)
Lemma count_u64_insert (m : gmap string RecordOwner) r o :
  m !! r = None -> count_u64 (<[r := o]> m) = u64_add (count_u64 m) 1.
Proof.
  intros Hr. unfold count_u64, u64_add. rewrite map_size_insert_None by done.
  rewrite Zplus_mod_idemp_l. f_equal. lia.
Qed.

Lemma count_u64_filter_insert (P : string * RecordOwner -> Prop) `{!forall x, Decision (P x)}
    (m : gmap string RecordOwner) r o :
  m !! r = None ->
  count_u64 (filter P (<[r := o]> m))
  = if decide (P (r, o)) then u64_add (count_u64 (filter P m)) 1 else count_u64 (filter P m).
Proof.
  intros Hr. rewrite map_filter_insert. case_decide as HP.
  - apply count_u64_insert. apply map_lookup_filter_None. by left.
  - by rewrite delete_id by done.
Qed.

Section frame.
Context (st : LedgerState) (ev : TransitionEvent) (p' : TransitionProjection).
Let body := e_body ev.
Let st' := record_event (with_projection st (b_transition_id body) p') ev.
Context (Hfresh : record_owners st !! b_record_ref body = None).

Lemma owned_frame k p r : owned st k p r -> owned st' k p r.
Proof.
  unfold owned. intros Ho. cbn. rewrite lookup_insert_ne; [done |].
  intros <-. unfold body in Hfresh. congruence.
Qed.

Lemma owned_new k p :
  p_transition_id p = b_transition_id body -> p_subject_id p = b_subject_id body ->
  b_kind body = k -> owned st' k p (b_record_ref body).
Proof. intros Ht Hs Hk. unfold owned. cbn. by rewrite lookup_insert_eq, Ht, Hs, <- Hk. Qed.

Lemma owned_opt_frame k p o : owned_opt st k p o -> owned_opt st' k p o.
Proof. intros Ho r Hr. by apply owned_frame, Ho. Qed.

Lemma projection_ok_frame id p :
  id <> b_transition_id body -> projection_ok st id p -> projection_ok st' id p.
Proof.
  intros Hne [? ? ? Hobs ? ? ? ? Hcount Hepoch].
  split; auto using owned_opt_frame.
  - eapply Forall_impl; [exact Hobs |]. apply owned_frame.
  - rewrite Hcount. unfold refs_of. cbn [record_owners record_event st'].
    rewrite count_u64_filter_insert, decide_False; cbn; auto.
  - rewrite Hepoch. unfold authorizations_of. cbn [record_owners record_event st'].
    rewrite count_u64_filter_insert, decide_False; cbn; [done | naive_solver | done].
Qed.

Lemma refs_of_new :
  count_u64 (refs_of (b_transition_id body) (record_owners st'))
  = u64_add (count_u64 (refs_of (b_transition_id body) (record_owners st))) 1.
Proof.
  unfold refs_of. cbn [record_owners record_event st' with_projection].
  by rewrite count_u64_filter_insert, decide_True.
Qed.

Lemma authorizations_of_new :
  count_u64 (authorizations_of (b_transition_id body) (record_owners st'))
  = (if decide (b_kind body = Authorization)
     then u64_add (count_u64 (authorizations_of (b_transition_id body) (record_owners st))) 1
     else count_u64 (authorizations_of (b_transition_id body) (record_owners st))).
Proof.
  unfold authorizations_of. cbn [record_owners record_event st' with_projection].
  rewrite count_u64_filter_insert by done. by repeat case_decide; cbn in *; naive_solver.
Qed.
End frame.

Lemma open_projection_ok st ev :
  state_ok st -> record_owners st !! b_record_ref (e_body ev) = None ->
  projections st !! b_transition_id (e_body ev) = None -> b_kind (e_body ev) = Authorization ->
  projection_ok (record_event (with_projection st (b_transition_id (e_body ev))
                                 (open_projection ev)) ev)
    (b_transition_id (e_body ev)) (open_projection ev).
Proof.
  intros Hst Hfresh Hnone Hk.
  assert (forall P, 
            (forall x, P x -> o_transition_id x.2 = b_transition_id (e_body ev)) ->
            forall (dec : forall x, Decision (P x)), filter P (record_owners st) = ∅) as Hnil.
  { intros P HP dec. apply map_eq. intros r. rewrite lookup_empty. apply map_lookup_filter_None.
    right. intros o Ho Hp. apply HP in Hp. cbn in Hp.
    destruct (sok_owners _ Hst _ _ Ho) as (p & Hp' & _). by rewrite Hp, Hnone in Hp'. }
  split; try done.
  - intros r [= <-]. by apply owned_new.
  - rewrite (refs_of_new st ev (open_projection ev) Hfresh). unfold refs_of.
    rewrite Hnil; [done | naive_solver].
  - rewrite (authorizations_of_new st ev (open_projection ev) Hfresh). rewrite decide_True by done.
    unfold authorizations_of. rewrite Hnil; [done | naive_solver].
Qed.

Lemma next_projection_refs p ev :
  p_transition_id (next_projection p ev) = p_transition_id p /\
  p_subject_id (next_projection p ev) = p_subject_id p /\
  p_event_count (next_projection p ev) = u64_add (p_event_count p) 1 /\
  p_authorization_epoch (next_projection p ev)
  = (if decide (b_kind (e_body ev) = Authorization)
     then u64_add (p_authorization_epoch p) 1 else p_authorization_epoch p).
Proof. unfold next_projection, install_record. by destruct (b_kind (e_body ev)). Qed.

Lemma next_projection_ok st p ev :
  projection_ok st (b_transition_id (e_body ev)) p ->
  record_owners st !! b_record_ref (e_body ev) = None ->
  p_subject_id p = b_subject_id (e_body ev) ->
  projection_ok (record_event (with_projection st (b_transition_id (e_body ev))
                                 (next_projection p ev)) ev)
    (b_transition_id (e_body ev)) (next_projection p ev).
Proof.
  intros Hp Hfresh Hs. pose proof Hp as [Hid Ha Hown Hobs Hcan Hri Hca Hco Hcount Hepoch].
  pose proof (next_projection_refs p ev) as (Et & Es & Ec & Ee).
  set (p' := next_projection p ev) in *.
  set (st' := record_event _ ev).
  assert (forall k o, owned_opt st k p o -> owned_opt st' k p' o) as Hframe.
  { intros k o Ho. unfold owned_opt, owned. rewrite Et, Es. by apply (owned_opt_frame st ev p'). }
  assert (forall k, b_kind (e_body ev) = k -> owned st' k p' (b_record_ref (e_body ev))) as Hnew.
  { intros k Hk. apply owned_new; congruence. }
  assert (Forall (owned st' Observation p') (p_observation_refs p)) as Hobs'.
  { eapply Forall_impl; [exact Hobs |]. intros r Hr.
    assert (owned_opt st' Observation p' (Some r)) as Ho; [apply Hframe | by apply Ho].
    by intros ? [= <-]. }
  assert (forall r k, b_kind (e_body ev) = k -> Some (b_record_ref (e_body ev)) = Some r ->
            owned st' k p' r) as Hnew' by naive_solver.
  assert (p_event_count p' = count_u64 (refs_of (b_transition_id (e_body ev)) (record_owners st')))
    as Hc by (rewrite Ec, Hcount; symmetry; by apply (refs_of_new st ev p')).
  assert (p_authorization_epoch p'
          = count_u64 (authorizations_of (b_transition_id (e_body ev)) (record_owners st')))
    as He by (rewrite Ee, Hepoch; symmetry; by apply (authorizations_of_new st ev p')).
  clear Ec Ee Hcount Hepoch.
  split; try (by congruence); clear Hc He;
    subst p'; unfold next_projection, install_record in *;
    destruct (b_kind (e_body ev)) eqn:Ek; try done; try (by apply Hframe);
    try (intros r [= <-]; by apply Hnew); cbn -[u64_add].
  - apply Forall_forall. intros r Hr.
    rewrite elem_of_canonical_refs, elem_of_app, list_elem_of_singleton in Hr.
    destruct Hr as [Hr | ->]; [by eapply Forall_forall in Hobs' | by apply Hnew].
  - apply canonical_refs_idemp.
Qed.

Section preservation.
Context `{Cbor TransitionEventBody, Sha256, !Sha256Ok}.

Lemma default_ok : state_ok LedgerState_default.
Proof. split; try done; apply map_Forall_empty. Qed.

Lemma admitted_subject st ev p' :
  admitted (projections st !! b_transition_id (e_body ev)) ev p' ->
  p_subject_id p' = b_subject_id (e_body ev).
Proof.
  unfold admitted. destruct (projections st !! _) as [p|].
  - intros (Hs & _ & _ & ->). by rewrite (proj1 (proj2 (next_projection_refs p ev))).
  - by intros (_ & _ & ->).
Qed.

Lemma apply_event_ok st ev st' : state_ok st -> apply_event st ev = Ok st' -> state_ok st'.
Proof.
  intros Hst Happ. apply apply_event_spec in Happ as (Hch & Hfresh & p' & Hadm & ->); [| done].
  set (tid := b_transition_id (e_body ev)) in *. pose proof (admitted_subject _ _ _ Hadm) as Hsub.
  assert (projection_ok (record_event (with_projection st tid p') ev) tid p') as Hnew.
  { unfold admitted in Hadm. destruct (projections st !! tid) as [p|] eqn:Ep.
    - destruct Hadm as (? & _ & _ & ->). apply next_projection_ok; [| done | done].
      by apply (sok_projections _ Hst).
    - destruct Hadm as (? & _ & ->). by apply open_projection_ok. }
  destruct Hst as [Hps Hos Hseq Hhd Href]. split.
  - intros id p. cbn [projections record_event with_projection]. rewrite lookup_insert_Some.
    intros [[<- <-] | [Hne Hp]]; [done |]. apply projection_ok_frame; auto.
  - intros r o. cbn [record_owners projections record_event with_projection].
    rewrite lookup_insert_Some. intros [[<- <-] | [Hne Ho]]; cbn [o_transition_id o_subject_id].
    + exists p'. by rewrite lookup_insert_eq.
    + destruct (Hos _ _ Ho) as (p & Hp & Hs). fold tid.
      destruct (decide (o_transition_id o = tid)) as [Eo | Eo].
      * exists p'. rewrite Eo, lookup_insert_eq. split; [done |]. rewrite <- Hs, Hsub.
        rewrite Eo in Hp. unfold admitted in Hadm. rewrite Hp in Hadm. naive_solver.
      * exists p. by rewrite lookup_insert_ne.
  - cbn [record_owners next_sequence record_event with_projection].
    rewrite map_size_insert_None by done. rewrite Hseq. unfold u64_add.
    rewrite Zplus_mod_idemp_l. f_equal. lia.
  - cbn. split; [done |]. intros E. by apply (insert_non_empty (M := gmap string)) in E.
  - intros h [= <-]. destruct Hch as (_ & _ & _ & _ & _ & Hd). by eapply digest_cbor_shape.
Qed.

Lemma replay_ok st evs st' : state_ok st -> replay st evs = Ok st' -> state_ok st'.
Proof. unfold replay. intros Hst. apply fold_result_inv; [apply apply_event_ok | done]. Qed.
End preservation.

#[export] Hint Resolve default_ok apply_event_ok replay_ok : liminal.

(** * Transition ledger: projections as functions of the event history

    The abstract specification of the ledger. A transition is the list of its events, newest
    first, and each field of its projection is read off that list without any running state:
    [history_projection]. The refinement lemma says that folding [apply_event] over a log from the
    empty state computes exactly these projections, and the owner of each record reference. *)

Definition e_kind (ev : TransitionEvent) : TransitionRecordKind := b_kind (e_body ev).
Definition e_ref (ev : TransitionEvent) : string := b_record_ref (e_body ev).

(** The events of one transition, newest first. *)
Definition history (id : string) (evs : list TransitionEvent) : list TransitionEvent :=
  filter (fun ev => b_transition_id (e_body ev) = id) (reverse evs).

(** The newest record of a kind that no later record invalidates. *)
Fixpoint latest (kind : TransitionRecordKind) (invalidates : TransitionRecordKind -> bool)
    (h : list TransitionEvent) : option string :=
  match h with
  | [] => None
  | ev :: older =>
      if decide (e_kind ev = kind) then Some (e_ref ev)
      else if invalidates (e_kind ev) then None else latest kind invalidates older
  end.

(** The observations of the current authorization epoch. *)
Fixpoint epoch_observations (h : list TransitionEvent) : list string :=
  match h with
  | [] => []
  | ev :: older =>
      match e_kind ev with
      | Authorization => []
      | Observation => e_ref ev :: epoch_observations older
      | _ => epoch_observations older
      end
  end.

Definition never (_ : TransitionRecordKind) : bool := false.
Definition new_evidence (k : TransitionRecordKind) : bool :=
  match k with
  | Authorization | Observation => true
  | _ => false
  end.
Definition new_integrity (k : TransitionRecordKind) : bool :=
  bool_decide (k = ResponseIntegrity) || new_evidence k.
Definition new_audit (k : TransitionRecordKind) : bool :=
  bool_decide (k = CausalAudit) || new_integrity k.

(** The newest dimensions that were reported. *)
Fixpoint latest_dimensions (h : list TransitionEvent) : option TransitionDimensions :=
  match h with
  | [] => None
  | ev :: older =>
      match b_dimensions (e_body ev) with
      | Some d => Some d
      | None => latest_dimensions older
      end
  end.

Definition committed (h : list TransitionEvent) : bool :=
  existsb (fun ev => bool_decide (b_side_effect_committed (e_body ev) = Some true)) h.

Definition count_kind (kind : TransitionRecordKind) (h : list TransitionEvent) : nat :=
  length (filter (fun ev => e_kind ev = kind) h).

Definition history_projection (id : string) (h : list TransitionEvent)
  : option TransitionProjection :=
  match h with
  | [] => None
  | newest :: _ =>
      Some (mkProjection id (b_subject_id (e_body newest))
              (latest Authorization never h)
              (Z.of_nat (count_kind Authorization h) `mod` u64_size)
              (canonical_refs (epoch_observations h))
              (latest ResponseIntegrity new_evidence h)
              (latest CausalAudit new_integrity h)
              (latest ContinuitySnapshot new_audit h)
              (latest_dimensions h) (committed h)
              (b_sequence (e_body newest)) (e_event_hash newest)
              (Z.of_nat (length h) `mod` u64_size))
  end.

Definition owner_of (ev : TransitionEvent) : RecordOwner :=
  mkOwner (b_transition_id (e_body ev)) (b_subject_id (e_body ev)) (e_kind ev).

(** The state the specification assigns to a log. *)
Record describes (evs : list TransitionEvent) (st : LedgerState) : Prop := {
  ds_projections : forall id, projections st !! id = history_projection id (history id evs);
  ds_owners : record_owners st = list_to_map ((fun ev => (e_ref ev, owner_of ev)) <$> reverse evs);
  ds_refs : NoDup (e_ref <$> evs);
  ds_sequence : next_sequence st = ((1 + Z.of_nat (length evs)) `mod` u64_size)%Z;
  ds_head : head_event_hash st = e_event_hash <$> last evs
}.

Lemma history_snoc id evs ev :
  history id (evs ++ [ev])
  = if decide (b_transition_id (e_body ev) = id) then ev :: history id evs else history id evs.
Proof. unfold history. rewrite reverse_snoc, filter_cons. done. Qed.

Lemma history_id id evs ev : ev ∈ history id evs -> b_transition_id (e_body ev) = id.
Proof. unfold history. rewrite list_elem_of_filter. naive_solver. Qed.

Lemma u64_count_succ n : u64_add (Z.of_nat n `mod` u64_size) 1 = (Z.of_nat (S n) `mod` u64_size)%Z.
Proof. unfold u64_add. rewrite Zplus_mod_idemp_l. f_equal. lia. Qed.

Lemma count_kind_cons k ev h :
  count_kind k (ev :: h) = if decide (e_kind ev = k) then S (count_kind k h) else count_kind k h.
Proof. unfold count_kind. rewrite filter_cons. by case_decide. Qed.

(** One event: the incremental update is the declarative projection of the longer history. *)
Lemma history_projection_step id h p ev :
  history_projection id h = Some p -> p_subject_id p = b_subject_id (e_body ev) ->
  history_projection id (ev :: h) = Some (next_projection p ev).
Proof.
  assert (forall o r, canonical_refs (canonical_refs o ++ [r]) = canonical_refs (r :: o)) as Hcan.
  { intros o r. apply canonical_refs_ext. intros x.
    rewrite elem_of_app, elem_of_canonical_refs. set_solver. }
  destruct h as [|ev' h']; [done |]. unfold history_projection at 1.
  generalize (ev' :: h') as h. clear h'. intros h Hp Hs. cbn [history_projection]. f_equal.
  destruct p as [pid psub pa pn po pr pc pk pd ps pseq ph pcount].
  injection Hp as <- Esub Ea En Eo Er Ec Ek Ed Es _ _ Ecount. cbn [p_subject_id] in Hs.
  unfold next_projection, install_record, supersede, update_evidence, update_projection_tail.
  cbn [latest epoch_observations latest_dimensions length]. unfold committed in *.
  cbn [existsb]. rewrite count_kind_cons. unfold e_kind.
  assert ((if decide (b_side_effect_committed (e_body ev) = Some true) then true else ps)
          = bool_decide (b_side_effect_committed (e_body ev) = Some true) || ps) as Hse
    by (case_decide; [by rewrite bool_decide_eq_true_2 | by rewrite bool_decide_eq_false_2]).
  subst po pcount pn pd. destruct (b_kind (e_body ev)) eqn:Ekind;
    cbn -[u64_add u64_size Z.of_nat Z.modulo canonical_refs]; rewrite ?u64_count_succ, ?Hse;
    f_equal; auto using f_equal.
Qed.

Lemma history_projection_open ev :
  b_kind (e_body ev) = Authorization ->
  history_projection (b_transition_id (e_body ev)) [ev] = Some (open_projection ev).
Proof.
  intros Hk. unfold history_projection, open_projection, committed, count_kind, e_kind.
  cbn [latest epoch_observations latest_dimensions existsb filter list_filter].
  unfold e_kind. rewrite Hk. cbn. do 2 f_equal.
  - by destruct (b_dimensions (e_body ev)).
  - by destruct (b_side_effect_committed (e_body ev)) as [[]|].
Qed.

Definition owners_of (evs : list TransitionEvent) : gmap string RecordOwner :=
  list_to_map ((fun ev => (e_ref ev, owner_of ev)) <$> reverse evs).

Lemma owners_of_snoc evs ev : owners_of (evs ++ [ev]) = <[e_ref ev := owner_of ev]> (owners_of evs).
Proof. unfold owners_of. by rewrite reverse_snoc. Qed.

Lemma owners_of_fresh evs r : owners_of evs !! r = None <-> r ∉ e_ref <$> evs.
Proof.
  unfold owners_of. rewrite <- not_elem_of_list_to_map, <- list_fmap_compose.
  by rewrite !list_elem_of_fmap; setoid_rewrite elem_of_reverse.
Qed.

Section refinement.
Context `{Cbor TransitionEventBody, Sha256, !Sha256Ok}.

Lemma describes_default : describes [] LedgerState_default.
Proof. by split; constructor. Qed.

(** One accepted event extends the description. *)
Lemma describes_step evs st ev st' :
  state_ok st -> describes evs st -> apply_event st ev = Ok st' -> describes (evs ++ [ev]) st'.
Proof.
  intros Hst [Hp Ho Hn Hs Hh] Happ.
  apply apply_event_spec in Happ as (Hch & Hfresh & p' & Hadm & ->); [| done].
  fold (owners_of evs) in Ho. split.
  - intros id. cbn [projections record_event with_projection]. rewrite history_snoc.
    case_decide as Hid; [subst id; rewrite lookup_insert_eq | by rewrite lookup_insert_ne].
    unfold admitted in Hadm. rewrite Hp in Hadm.
    destruct (history_projection _ _) as [p|] eqn:Eh.
    + destruct Hadm as (Hsub & _ & _ & ->). by erewrite history_projection_step.
    + destruct (history _ evs); [| done]. destruct Hadm as (Hk & _ & ->).
      by rewrite history_projection_open.
  - change (record_owners (record_event (with_projection st (b_transition_id (e_body ev)) p') ev)
            = owners_of (evs ++ [ev])).
    cbn [record_owners record_event with_projection]. by rewrite owners_of_snoc, Ho.
  - rewrite fmap_app. apply NoDup_app. split_and!; [done | | apply NoDup_singleton].
    intros r Hr Hr'. apply list_elem_of_singleton in Hr' as ->.
    rewrite Ho in Hfresh. by apply owners_of_fresh in Hfresh.
  - cbn [next_sequence record_event with_projection]. rewrite Hs, length_app. cbn [length].
    unfold u64_add. rewrite Zplus_mod_idemp_l. f_equal. lia.
  - by rewrite last_snoc.
Qed.

Lemma describes_replay evs st : replay LedgerState_default evs = Ok st -> describes evs st.
Proof.
  revert st. induction evs as [|ev evs IH] using rev_ind; intros st Hr.
  - injection Hr as <-. apply describes_default.
  - unfold replay in *. rewrite fold_result_snoc in Hr. rinv Hr.
    eapply describes_step; eauto. eapply replay_ok; [apply default_ok | done].
Qed.
End refinement.
