(* ===== verification/TransitionProps.v ===== *)
(** * Transition ledger: properties of reachable states

    A state is reachable when it is the replay of some log from the empty state. The theorems
    here give the meaning of such a state, what the next event may be, which errors can occur,
    what never rolls back, and that the head hash binds the whole log. *)

From stdpp Require Import prelude gmap strings list sorting fin_maps.
From Stdlib Require Import ZArith Lia.
From S2P Require Import Prelude RustStr Crypto Transition TransitionCodec TransitionInv.

(** ** Monotonicity of a projection *)

(** [p'] is a later projection of the transition of [p]. *)
Record later (p p' : TransitionProjection) : Prop := {
  lt_id : p_transition_id p' = p_transition_id p;
  lt_subject : p_subject_id p' = p_subject_id p;
  lt_side_effect : p_side_effect_committed p = true -> p_side_effect_committed p' = true;
  lt_dimensions : is_Some (p_dimensions p) -> is_Some (p_dimensions p');
  lt_executed : (execution <$> p_dimensions p) = Some ObservedExecuted ->
                (execution <$> p_dimensions p') = Some ObservedExecuted
}.

Global Instance later_preorder : PreOrder later.
Proof.
  split.
  - intros p. by split.
  - intros p1 p2 p3 [] []. split; try congruence; auto.
Qed.

Lemma next_projection_later p ev : no_rollback p (e_body ev) -> later p (next_projection p ev).
Proof.
  unfold no_rollback, validate_monotonic_dimensions, validate_side_effect.
  intros [Hd _]. pose proof (next_projection_refs p ev) as (Ht & Hs & _).
  assert (forall q, p_dimensions q = p_dimensions p ->
            p_side_effect_committed q = p_side_effect_committed p ->
            (p_side_effect_committed p = true -> p_side_effect_committed (update_evidence q ev) = true)
            /\ p_dimensions (update_evidence q ev)
               = match b_dimensions (e_body ev) with Some d => Some d | None => p_dimensions p end)
    as Hq.
  { intros q Eq1 Eq2. cbn. rewrite Eq1, Eq2. split; [by case_decide | done]. }
  set (q := match b_kind (e_body ev) with Authorization => supersede p (e_body ev)
                                        | _ => install_record p (e_body ev) end).
  destruct (Hq q) as [Hse Hdim]; [subst q; unfold install_record; by destruct (b_kind _)
                                 | subst q; unfold install_record; by destruct (b_kind _) |].
  split; [done | done | exact Hse | | ]; unfold next_projection; fold q; rewrite Hdim;
    destruct (b_dimensions (e_body ev)) as [u|]; try done.
  destruct (p_dimensions p) as [d|]; [| done]. cbn in *. intros [= Hx].
  destruct (_ && _) eqn:Eg; [done |]. rewrite Hx in Eg. cbn in Eg.
  apply bool_decide_eq_false, dec_stable in Eg. by rewrite Eg.
Qed.

(** [st'] extends [st]: owners are only added and every projection only moves forward. *)
Record extends (st st' : LedgerState) : Prop := {
  ext_owners : record_owners st ⊆ record_owners st';
  ext_projections : forall id p, projections st !! id = Some p ->
                      exists p', projections st' !! id = Some p' /\ later p p'
}.

Lemma extends_refl st : extends st st.
Proof. split; [done |]. intros id p Hp. by exists p. Qed.

Lemma extends_trans st1 st2 st3 : extends st1 st2 -> extends st2 st3 -> extends st1 st3.
Proof.
  intros [Ho1 Hp1] [Ho2 Hp2]. split; [by etrans |]. intros id p Hp.
  destruct (Hp1 _ _ Hp) as (p' & Hp' & L1). destruct (Hp2 _ _ Hp') as (p'' & Hp'' & L2).
  exists p''. split; [done |]. by etrans.
Qed.

#[export] Hint Resolve extends_refl extends_trans next_projection_later : liminal.

Section props.
Context `{Cbor TransitionEventBody, Sha256, !Sha256Ok}.

Lemma apply_event_extends st ev st' :
  state_ok st -> apply_event st ev = Ok st' -> extends st st'.
Proof.
  intros Hst Happ. apply apply_event_spec in Happ as (_ & Hfresh & p' & Hadm & ->); [| done].
  split; cbn [record_owners projections record_event with_projection].
  - by apply insert_subseteq.
  - intros id p Hp. destruct (decide (b_transition_id (e_body ev) = id)) as [<- | Hne].
    + exists p'. rewrite lookup_insert_eq. split; [done |]. unfold admitted in Hadm.
      rewrite Hp in Hadm. destruct Hadm as (_ & _ & Hroll & ->). by apply next_projection_later.
    + exists p. by rewrite lookup_insert_ne.
Qed.

Lemma replay_extends st evs st' : state_ok st -> replay st evs = Ok st' -> extends st st'.
Proof.
  intros Hst Hr. unfold replay in Hr.
  eapply (fold_result_rel apply_event state_ok extends); eauto with liminal.
  intros s ev s' Hs Ha. split; [by eapply apply_event_ok | by eapply apply_event_extends].
Qed.

(** The hash of the last event determines the event, up to a collision. *)
Lemma last_event_chained evs ev st :
  replay LedgerState_default (evs ++ [ev]) = Ok st ->
  exists st0, replay LedgerState_default evs = Ok st0 /\ state_ok st0 /\ chained st0 ev /\
              head_event_hash st = Some (e_event_hash ev).
Proof.
  unfold replay. rewrite fold_result_snoc. intros Hr. rinv Hr. exists a.
  assert (state_ok a) as Hok by (eapply replay_ok; [apply default_ok | exact E]).
  apply apply_event_spec in Hr as (Hch & _ & p' & _ & ->); [by split_and! | done].
Qed.

(** The head binds the log: by induction from the end. *)
Lemma head_binds `{!CborOk TransitionEventBody} evs1 : forall evs2 st1 st2,
  replay LedgerState_default evs1 = Ok st1 -> replay LedgerState_default evs2 = Ok st2 ->
  head_event_hash st1 = head_event_hash st2 ->
  evs1 = evs2 \/ exists e1 e2, e1 ∈ evs1 /\ e2 ∈ evs2 /\ collision (e_body e1) (e_body e2).
Proof.
  induction evs1 as [|e1 evs1 IH] using rev_ind; intros evs2 st1 st2 R1 R2 Hh;
    destruct evs2 as [|e2 evs2 _] using rev_ind.
  - by left.
  - injection R1 as <-. apply last_event_chained in R2 as (? & _ & _ & _ & E2). by rewrite E2 in Hh.
  - injection R2 as <-. apply last_event_chained in R1 as (? & _ & _ & _ & E1). by rewrite E1 in Hh.
  - apply last_event_chained in R1 as (s1 & R1 & _ & C1 & E1).
    apply last_event_chained in R2 as (s2 & R2 & _ & C2 & E2).
    rewrite E1, E2 in Hh. injection Hh as Hh.
    destruct C1 as (_ & _ & _ & _ & P1 & D1), C2 as (_ & _ & _ & _ & P2 & D2).
    rewrite <- Hh in D2. destruct (digest_cbor_eq _ _ _ _ D1 D2) as [Hb | Hcol].
    + rewrite <- Hb in P2. rewrite P1 in P2.
      destruct (IH _ _ _ R1 R2 P2) as [-> | (x1 & x2 & ? & ? & ?)].
      * left. do 2 f_equal. destruct e1, e2. cbn in *. congruence.
      * right. exists x1, x2. set_solver.
    + right. exists e1, e2. set_solver.
Qed.

(** ** Which errors occur *)

(** What an error of [apply_event] says about the state and the event. *)
Definition error_meaning (st : LedgerState) (ev : TransitionEvent) (e : TransitionLedgerError)
  : Prop :=
  match e with
  | CrossTransitionReference _ | Panicked | PoisonedAfterStorageFailure | Storage _ => False
  | MissingAuthorization t => t = b_transition_id (e_body ev) /\ projections st !! t = None
  | DuplicateRecordReference r => r = b_record_ref (e_body ev) /\ is_Some (record_owners st !! r)
  | MissingParent r => record_owners st !! r = None
  | SubjectMismatch t =>
      t = b_transition_id (e_body ev) /\
      exists p, projections st !! t = Some p /\ p_subject_id p <> b_subject_id (e_body ev)
  | SideEffectRollback =>
      exists p, projections st !! b_transition_id (e_body ev) = Some p /\
                p_side_effect_committed p = true /\
                b_side_effect_committed (e_body ev) = Some false
  | ExecutionRollback =>
      exists p, projections st !! b_transition_id (e_body ev) = Some p /\
                (execution <$> p_dimensions p) = Some ObservedExecuted /\
                (execution <$> b_dimensions (e_body ev)) <> Some ObservedExecuted
  | SequenceMismatch x a =>
      x = next_sequence st /\ a = b_sequence (e_body ev) /\ x <> a
  | PreviousEventHashMismatch => b_previous_event_hash (e_body ev) <> head_event_hash st
  | _ => True
  end.

Lemma validate_ref_errs st ev r l : errs (error_meaning st ev) (validate_ref r l).
Proof. unfold validate_ref. by repeat errs_step. Qed.

Lemma validate_optional_ref_errs st ev r l : errs (error_meaning st ev) (validate_optional_ref r l).
Proof. destruct r; cbn; [apply validate_ref_errs | done]. Qed.

Lemma validate_event_body_errs st ev b : errs (error_meaning st ev) (validate_event_body b).
Proof.
  unfold validate_event_body, validate_canonical_identifier.
  repeat first [errs_step | apply validate_ref_errs | apply validate_optional_ref_errs]; done.
Qed.

Section rollback.
Context (st : LedgerState) (ev : TransitionEvent) (p : TransitionProjection).
Context (Hp : projections st !! b_transition_id (e_body ev) = Some p).

Lemma monotonic_errs :
  errs (error_meaning st ev)
    (validate_monotonic_dimensions (p_dimensions p) (b_dimensions (e_body ev))).
Proof.
  unfold validate_monotonic_dimensions.
  destruct (p_dimensions p) eqn:E1; [| done]. destruct (b_dimensions (e_body ev)) eqn:E2; [| done].
  errs_step; [| done]. bool_prop. exists p. rewrite E1, E2. cbn. split_and!; congruence.
Qed.

Lemma side_effect_errs :
  errs (error_meaning st ev)
    (validate_side_effect (p_side_effect_committed p) (b_side_effect_committed (e_body ev))).
Proof. unfold validate_side_effect. errs_step; [| done]. bool_prop. by exists p. Qed.

Context (Hok : projection_ok st (b_transition_id (e_body ev)) p).
Context (Hsub : p_subject_id p = b_subject_id (e_body ev)).

Lemma optional_ref_errs kind actual expected label :
  owned_opt st kind p expected ->
  errs (error_meaning st ev) (expect_optional_ref st actual expected label ev).
Proof.
  intros Ho. rewrite (expect_optional_ref_spec _ p _ (pok_id _ _ _ Hok) Hsub kind) by done.
  errs_step; [done |]. destruct actual as [r|]; [| done].
  by destruct (record_owners st !! r) eqn:E.
Qed.

Lemma dependent_links_errs :
  b_kind (e_body ev) <> Authorization ->
  errs (error_meaning st ev) (check_dependent_links st p ev).
Proof.
  intros Hk. unfold check_dependent_links. pose proof Hok as [Hid _ _ Hob _ Hri Hca Hco _ _].
  rewrite !(expect_observation_set_spec st p ev Hid Hsub) by done.
  destruct (b_kind (e_body ev)); [done |..];
    repeat first [errs_step | by eapply optional_ref_errs]; done.
Qed.
End rollback.

Lemma apply_authorization_errs st ev :
  state_ok st -> errs (error_meaning st ev) (apply_authorization st ev).
Proof.
  intros Hst. unfold apply_authorization. errs_step; [done |].
  destruct (projections st !! b_transition_id (e_body ev)) as [p|] eqn:Ep.
  - pose proof (sok_projections _ Hst _ _ Ep) as Hp. pose proof Hp as [Hid Ha Hown _ _ _ _ _ _ _].
    errs_step; [| split; eauto]. destruct (p_authorization_ref p) as [a|]; [| done].
    cbn [ok_or rbind]. errs_step; [| done].
    pose proof (ensure_owned_ok _ _ _ _ (Hown a eq_refl)) as He. rewrite Hid in He.
    repeat first [errs_step | by apply monotonic_errs | by apply side_effect_errs].
    by replace (b_subject_id (e_body ev)) with (p_subject_id p); rewrite He.
  - by repeat errs_step.
Qed.

Lemma apply_dependent_errs st ev :
  state_ok st -> b_kind (e_body ev) <> Authorization ->
  errs (error_meaning st ev) (apply_dependent_record st ev).
Proof.
  intros Hst Hk. unfold apply_dependent_record.
  destruct (projections st !! b_transition_id (e_body ev)) as [p|] eqn:Ep; cbn [ok_or rbind];
    [| done].
  pose proof (sok_projections _ Hst _ _ Ep) as Hp.
  errs_step; [| split; eauto]. pose proof (pok_authorized _ _ _ Hp) as Ha.
  pose proof (pok_authorization _ _ _ Hp) as Hown.
  destruct (p_authorization_ref p) as [a|]; [| done]. cbn [ok_or rbind].
  repeat first [errs_step | by apply monotonic_errs | by apply side_effect_errs
    | by apply dependent_links_errs | by eapply optional_ref_errs].
Qed.

Lemma apply_event_errs st ev : state_ok st -> errs (error_meaning st ev) (apply_event st ev).
Proof.
  intros Hst. unfold apply_event, digest_cbor.
  repeat first [errs_step | apply validate_event_body_errs | apply validate_ref_errs]; try done.
  - by destruct (record_owners st !! b_record_ref (e_body ev)) eqn:E.
  - destruct (b_kind (e_body ev)) eqn:Ek;
      first [by apply apply_authorization_errs | apply apply_dependent_errs; congruence || done].
Qed.

(** C4: replaying a log from the empty state computes the abstract specification of the log: each
    transition's projection is the one read off its own events (current authorization, evidence of
    the current epoch that no later record invalidated, latest dimensions, counters), every record
    reference has exactly one owner, and the resulting state satisfies the ledger invariant. *)
Theorem transition_replay_refines evs st :
  replay LedgerState_default evs = Ok st -> describes evs st /\ state_ok st.
Proof.
  intros Hr. split; [by apply describes_replay |]. eapply replay_ok; [apply default_ok | done].
Qed.

(** C5: on the state of any log, an event is accepted exactly when it is the well-formed next event
    of the hash chain, its record reference is new, its transition is known (or it is the opening
    authorization), its subject is the transition's, its links are exactly the current references
    of the projection that its kind must cite, and it rolls nothing back; the new state is then
    determined. *)
Theorem transition_apply_exact evs st ev st' :
  replay LedgerState_default evs = Ok st ->
  apply_event st ev = Ok st' <->
  chained st ev /\ record_owners st !! b_record_ref (e_body ev) = None /\
  exists p', admitted (projections st !! b_transition_id (e_body ev)) ev p' /\
             st' = record_event (with_projection st (b_transition_id (e_body ev)) p') ev.
Proof. intros Hr. apply apply_event_spec. eapply replay_ok; [apply default_ok | done]. Qed.

(** C6: nothing rolls back. Whatever events follow a log, recorded references keep their owners and
    every transition stays, with its subject, with a committed side effect still committed and an
    observed execution still observed. *)
Theorem transition_never_rolls_back evs st evs' st' :
  replay LedgerState_default evs = Ok st -> replay st evs' = Ok st' ->
  record_owners st ⊆ record_owners st' /\
  forall id p, projections st !! id = Some p ->
    exists p', projections st' !! id = Some p' /\ p_subject_id p' = p_subject_id p /\
      (p_side_effect_committed p = true -> p_side_effect_committed p' = true) /\
      ((execution <$> p_dimensions p) = Some ObservedExecuted ->
       (execution <$> p_dimensions p') = Some ObservedExecuted).
Proof.
  intros Hr Hr'. assert (state_ok st) as Hst by (eapply replay_ok; [apply default_ok | done]).
  destruct (replay_extends _ _ _ Hst Hr') as [Ho Hp]. split; [done |]. intros id p Hid.
  destruct (Hp _ _ Hid) as (p' & Hp' & []). eauto 10.
Qed.

(** The head hash binds the log. Two logs that replay to states with the same head hash are the
    same list of events, or two of their bodies are an explicit collision of the hash function. *)
Theorem transition_head_binds_log `{!CborOk TransitionEventBody} evs1 evs2 st1 st2 :
  replay LedgerState_default evs1 = Ok st1 -> replay LedgerState_default evs2 = Ok st2 ->
  head_event_hash st1 = head_event_hash st2 ->
  (evs1 = evs2 /\ st1 = st2) \/
  exists e1 e2, e1 ∈ evs1 /\ e2 ∈ evs2 /\ collision (e_body e1) (e_body e2).
Proof.
  intros R1 R2 Hh. destruct (head_binds _ _ _ _ R1 R2 Hh) as [-> | Hc]; [left | by right].
  split; congruence.
Qed.

(** The errors of [apply_event] on the state of a log mean what they say: the ownership
    failure of [ensure_owned_by] and the [unreachable!] branches cannot occur, and each of the
    other state-dependent errors implies the condition it reports. *)
Theorem transition_error_meaning evs st ev e :
  replay LedgerState_default evs = Ok st -> apply_event st ev = Err e -> error_meaning st ev e.
Proof.
  intros Hr He. assert (state_ok st) as Hst by (eapply replay_ok; [apply default_ok | done]).
  pose proof (apply_event_errs st ev Hst) as Herr. by rewrite He in Herr.
Qed.
End props.

(** ** Witnesses on the example log *)
Section witnesses.
Local Existing Instances cbor_body cbor_body_ok checksum_sha checksum_sha_ok.

Definition ex_prefix : list TransitionEvent := take 4 ex_log.
Definition ex_prefix_state : LedgerState :=
  Eval vm_compute in ok_or_default LedgerState_default (replay LedgerState_default ex_prefix).
Definition ex_last : TransitionEvent := Eval vm_compute in List.nth 4 ex_log (mkEvent
  (body_of_input LedgerState_default (ex_input Authorization "" TransitionLinks_default None None)) "").

Lemma ex_prefix_replay : replay LedgerState_default ex_prefix = Ok ex_prefix_state.
Proof. vm_cast_no_check (eq_refl (Ok (E := TransitionLedgerError) ex_prefix_state)). Qed.

Lemma ex_last_apply : apply_event ex_prefix_state ex_last = Ok ex_state.
Proof. vm_cast_no_check (eq_refl (Ok (E := TransitionLedgerError) ex_state)). Qed.

Lemma ex_last_replay : replay ex_prefix_state [ex_last] = Ok ex_state.
Proof. vm_cast_no_check (eq_refl (Ok (E := TransitionLedgerError) ex_state)). Qed.

Lemma ex_last_again : apply_event ex_state ex_last = Err (SequenceMismatch 6 5).
Proof. vm_cast_no_check (eq_refl (Err (A := LedgerState) (SequenceMismatch 6 5))). Qed.

Lemma transition_replay_refines_witness : describes ex_log ex_state /\ state_ok ex_state.
Proof. exact (transition_replay_refines ex_log ex_state ex_replay). Defined.

Lemma transition_apply_exact_witness :
  record_owners ex_prefix_state !! b_record_ref (e_body ex_last) = None /\ chained ex_prefix_state ex_last.
Proof.
  destruct (proj1 (transition_apply_exact ex_prefix ex_prefix_state ex_last ex_state ex_prefix_replay)
              ex_last_apply) as (Hch & Hf & _).
  exact (conj Hf Hch).
Defined.

Lemma transition_never_rolls_back_witness : record_owners ex_prefix_state ⊆ record_owners ex_state.
Proof.
  exact (proj1 (transition_never_rolls_back ex_prefix ex_prefix_state [ex_last] ex_state
                  ex_prefix_replay ex_last_replay)).
Defined.

Lemma transition_head_binds_log_witness :
  (ex_log = ex_log /\ ex_state = ex_state) \/
  exists e1 e2, e1 ∈ ex_log /\ e2 ∈ ex_log /\ collision (e_body e1) (e_body e2).
Proof. exact (transition_head_binds_log ex_log ex_log ex_state ex_state ex_replay ex_replay eq_refl). Defined.

Lemma transition_error_meaning_witness : error_meaning ex_state ex_last (SequenceMismatch 6 5).
Proof. exact (transition_error_meaning ex_log ex_state ex_last _ ex_replay ex_last_again). Defined.
End witnesses.
