(* ===== verification/SnapshotDurability.v ===== *)
(** * Crash-safe replacement of a snapshot file

    [liminal-store/src/snapshot_durability.rs]. The file system calls run in a small monad over
    the snapshot directory: every call is numbered, and a fault schedule may make any of them
    fail with an I/O error or kill the process there (a write that is killed leaves a prefix).
    [sync_all] and [sync_directory] are calls that change nothing but can fail: the crash
    modelled is the loss of the process, as in the failpoints of [durability.rs]. *)

From stdpp Require Import prelude gmap strings list fin_maps.
From Stdlib Require Import ZArith Lia.
From S2P Require Import Prelude RustStr Wal.

(** ** The monad *)
Inductive fault : Type :=
| Crash (written : nat)
| IoError.

(** The fault of each file system call, by its number. *)
Definition faults : Type := nat -> option fault.
Definition no_faults : faults := fun _ => None.

Inductive outcome (A : Type) : Type :=
| Done (d : dir) (calls : nat) (a : A)
| Failed (d : dir) (calls : nat) (message : string)
| Crashed (d : dir).
Arguments Done {A} d calls a.
Arguments Failed {A} d calls message.
Arguments Crashed {A} d.

Definition fs (A : Type) : Type := faults -> dir -> nat -> outcome A.

Definition fs_ret {A : Type} (a : A) : fs A := fun _ d n => Done d n a.

Definition fs_bind {A B : Type} (m : fs A) (k : A -> fs B) : fs B :=
  fun F d n =>
    match m F d n with
    | Done d' n' a => k a F d' n'
    | Failed d' n' e => Failed d' n' e
    | Crashed d' => Crashed d'
    end.

(** The result of a call as a value, for [if let Err(_)] and [let _ =]. *)
Definition fs_try (m : fs unit) : fs (option string) :=
  fun F d n =>
    match m F d n with
    | Done d' n' _ => Done d' n' None
    | Failed d' n' e => Done d' n' (Some e)
    | Crashed d' => Crashed d'
    end.

Definition fs_throw {A : Type} (e : string) : fs A := fun _ d n => Failed d n e.

Notation "'do!' x ':=' c 'in' k" := (fs_bind c (fun x => k))
  (at level 10, x name, c at level 100, k at level 200) : rust_scope.
Notation "'run!' c 'in' k" := (fs_bind c (fun _ => k))
  (at level 10, c at level 100, k at level 200) : rust_scope.

(** One call: [op] is its effect ([None]: it is refused), [partial] what a crash leaves of it. *)
Definition fs_call (name : string) (op : dir -> option dir) (partial : nat -> dir -> dir)
  : fs unit :=
  fun F d n =>
    match F n with
    | Some (Crash k) => Crashed (partial k d)
    | Some IoError => Failed d (S n) name
    | None =>
        match op d with
        | Some d' => Done d' (S n) tt
        | None => Failed d (S n) name
        end
    end.

Definition unchanged (_ : nat) (d : dir) : dir := d.

(** [Path::exists]. *)
Definition exists_ (p : string) : fs bool :=
  fun _ d n => Done d n (match d !! p with Some _ => true | None => false end).

Definition remove_file (p : string) : fs unit :=
  fs_call "remove_file"
    (fun d => match d !! p with Some (RegularFile _) => Some (delete p d) | _ => None end) unchanged.

Definition rename (src dst : string) : fs unit :=
  fs_call "rename"
    (fun d => match d !! src, d !! dst with
              | None, _ | _, Some OtherEntry => None
              | Some e, _ => Some (<[dst := e]> (delete src d))
              end) unchanged.

(** [OpenOptions::new().create(true).truncate(true).write(true).open(p)]. *)
Definition create_truncate (p : string) : fs unit :=
  fs_call "open"
    (fun d => match d !! p with Some OtherEntry => None | _ => Some (<[p := RegularFile []]> d) end)
    unchanged.

(** [write_all] at the end of the file. *)
Definition append_bytes (p : string) (b : bytes) (d : dir) : dir :=
  <[p := RegularFile (default [] (file_content d p) ++ b)]> d.
Definition write_file (p : string) (b : bytes) : fs unit :=
  fs_call "write" (fun d => Some (append_bytes p b d)) (fun k d => append_bytes p (take k b) d).

Definition sync : fs unit := fs_call "sync" Some unchanged.

(** ** The routines *)

(** [sibling]: the temporary and the backup beside the snapshot. *)
Definition sibling (name suffix : string) : string := "." +:+ name +:+ suffix.
Definition temporary_path (name : string) : string := sibling name ".tmp".
Definition rollback_path (name : string) : string := sibling name ".rollback".

Definition recover_interrupted_snapshot_replace (path : string) : fs unit :=
  let temporary := temporary_path path in
  let backup := rollback_path path in
  do! snapshot := exists_ path in
  do! saved := exists_ backup in
  run! (if snapshot then
          if saved then run! remove_file backup in sync else fs_ret tt
        else if saved then run! rename backup path in sync else fs_ret tt) in
  do! leftover := exists_ temporary in
  if leftover then run! remove_file temporary in sync else fs_ret tt.

Definition replace_snapshot_bytes_crash_safe (path : string) (b : bytes) : fs unit :=
  run! recover_interrupted_snapshot_replace path in
  let temporary := temporary_path path in
  let backup := rollback_path path in
  do! leftover := exists_ temporary in
  run! (if leftover then remove_file temporary else fs_ret tt) in
  let midpoint := length b / 2 in
  run! create_truncate temporary in
  run! write_file temporary (take midpoint b) in
  run! sync in
  run! write_file temporary (drop midpoint b) in
  run! sync in
  run! sync in
  do! present := exists_ path in
  run! (if present then
          do! stale := exists_ backup in
          run! (if stale then remove_file backup else fs_ret tt) in
          rename path backup
        else fs_ret tt) in
  do! installed := fs_try (rename temporary path) in
  match installed with
  | Some error =>
      do! present := exists_ path in
      do! saved := exists_ backup in
      run! (if negb present && saved then fs_try (rename backup path) else fs_ret None) in
      fs_throw error
  | None =>
      run! sync in
      do! saved := exists_ backup in
      if saved then run! remove_file backup in sync else fs_ret tt
  end.

(** ** Hoare triples: the postcondition of a normal return, and what holds of the directory when
    the routine fails or the process dies in it. *)
Definition triple {A : Type} (P : dir -> Prop) (m : fs A) (Q : A -> dir -> Prop)
    (I : dir -> Prop) : Prop :=
  forall F d n, P d ->
    match m F d n with
    | Done d' _ a => Q a d'
    | Failed d' _ _ | Crashed d' => I d'
    end.

Lemma triple_ret {A} (a : A) P I : triple P (fs_ret a) (fun x d => x = a /\ P d) I.
Proof. intros F d n Hd. done. Qed.

Lemma triple_bind {A B} P (m : fs A) R (k : A -> fs B) Q I :
  triple P m R I -> (forall a, triple (R a) (k a) Q I) -> triple P (fs_bind m k) Q I.
Proof.
  intros Hm Hk F d n Hd. unfold fs_bind. specialize (Hm F d n Hd).
  destruct (m F d n) as [d' n' a| |]; [by apply Hk | done | done].
Qed.

Lemma triple_weaken {A} (P P' : dir -> Prop) (m : fs A) (Q Q' : A -> dir -> Prop)
    (I I' : dir -> Prop) :
  triple P' m Q' I' -> (forall d, P d -> P' d) -> (forall a d, Q' a d -> Q a d) ->
  (forall d, I' d -> I d) -> triple P m Q I.
Proof.
  intros Hm HP HQ HI F d n Hd. specialize (Hm F d n (HP _ Hd)).
  destruct (m F d n); auto.
Qed.

Lemma triple_exists p P I :
  triple P (exists_ p) (fun b d => P d /\ b = bool_decide (is_Some (d !! p))) I.
Proof.
  intros F d n Hd. cbn. split; [done |]. destruct (d !! p); symmetry.
  - apply bool_decide_eq_true_2. done.
  - apply bool_decide_eq_false_2. by intros [? ?].
Qed.

Lemma triple_call name op partial P (Q : unit -> dir -> Prop) (I : dir -> Prop) :
  (forall d, P d -> I d) -> (forall d k, P d -> I (partial k d)) ->
  (forall d d', P d -> op d = Some d' -> Q tt d') -> triple P (fs_call name op partial) Q I.
Proof.
  intros HI Hp Hop F d n Hd. unfold fs_call.
  destruct (F n) as [[k|]|]; [by apply Hp | by apply HI |].
  destruct (op d) eqn:E; [by eapply Hop | by apply HI].
Qed.

Lemma triple_try (P : dir -> Prop) (m : fs unit) Q I (C : dir -> Prop) :
  triple P m Q I -> (forall d, I d -> C d) ->
  triple P (fs_try m) (fun r d => match r with None => Q tt d | Some _ => I d end) C.
Proof.
  intros Hm HC F d n Hd. unfold fs_try. specialize (Hm F d n Hd).
  destruct (m F d n) as [d' n' []| |]; auto.
Qed.

(** ** The three names are different *)
Lemma string_length_app s t : String.length (s +:+ t) = String.length s + String.length t.
Proof. induction s as [|a s IH]; [done |]. exact (f_equal S IH). Qed.

Lemma sibling_ne name suffix : sibling name suffix <> name.
Proof.
  unfold sibling. intros E. apply (f_equal String.length) in E.
  rewrite !string_length_app in E. cbn in E. lia.
Qed.

Lemma temporary_ne_rollback name : temporary_path name <> rollback_path name.
Proof. unfold temporary_path, rollback_path, sibling. intros E. by simplify_eq. Qed.

Section replace.
Context (path : string) (d0 : dir) (new : bytes).
Let tmp := temporary_path path.
Let backup := rollback_path path.

(** The directory has entries [P], [T], [B] at the three names and is [d0] elsewhere. *)
Definition entries (P T B : option dirent) (d : dir) : Prop :=
  d !! path = P /\ d !! tmp = T /\ d !! backup = B /\
  forall x, x <> path -> x <> tmp -> x <> backup -> d !! x = d0 !! x.

(** The snapshot a later recovery will find. *)
Definition effective (P B : option dirent) : option dirent :=
  match P with
  | Some e => Some e
  | None => B
  end.

Definition regular (o : option dirent) : Prop :=
  match o with
  | Some OtherEntry => False
  | _ => True
  end.

(** The old or the new snapshot is effective. *)
Definition consistent (old : option dirent) (d : dir) : Prop :=
  exists P T B, entries P T B d /\ regular P /\ regular T /\ regular B /\
    (effective P B = old \/ effective P B = Some (RegularFile new)).

Definition keeps (old : option dirent) (d : dir) : Prop :=
  exists P T B, entries P T B d /\ regular P /\ regular T /\ regular B /\ effective P B = old.

Lemma names_ne : tmp <> path /\ backup <> path /\ tmp <> backup.
Proof. split_and!; [apply sibling_ne | apply sibling_ne | apply temporary_ne_rollback]. Qed.

Ltac entries_tac :=
  pose proof names_ne as (? & ? & ?);
  unfold entries in *; destruct_and?; split_and!; intros;
  rewrite ?lookup_insert_eq, ?lookup_delete_eq;
  repeat first [rewrite lookup_insert_ne by congruence | rewrite lookup_delete_ne by congruence
               | rewrite lookup_insert_eq | rewrite lookup_delete_eq];
  eauto.

Lemma triple_exists_entries P T B q I :
  triple (entries P T B) (exists_ q)
    (fun b d => entries P T B d /\ b = bool_decide (is_Some (d !! q))) I.
Proof. apply triple_exists. Qed.

(** A step of the routine on the three entries. *)
Lemma step_call {P T B} P' T' B' name op (I : dir -> Prop) :
  (forall d, entries P T B d -> I d) ->
  (forall d d', entries P T B d -> op d = Some d' -> entries P' T' B' d') ->
  triple (entries P T B) (fs_call name op unchanged) (fun _ => entries P' T' B') I.
Proof. intros HI Hop. apply triple_call; auto. Qed.

Lemma step_sync P T B (I : dir -> Prop) :
  (forall d, entries P T B d -> I d) -> triple (entries P T B) sync (fun _ => entries P T B) I.
Proof. intros HI. apply step_call; [done |]. by intros d d' Hd [= <-]. Qed.

Lemma step_remove_backup P T B (I : dir -> Prop) :
  (forall d, entries P T B d -> I d) ->
  triple (entries P T B) (remove_file backup) (fun _ => entries P T None) I.
Proof.
  intros HI. apply step_call; [done |]. intros d d' Hd Ho. repeat case_match; simplify_eq.
  entries_tac.
Qed.

Lemma step_remove_tmp P T B (I : dir -> Prop) :
  (forall d, entries P T B d -> I d) ->
  triple (entries P T B) (remove_file tmp) (fun _ => entries P None B) I.
Proof.
  intros HI. apply step_call; [done |]. intros d d' Hd Ho. repeat case_match; simplify_eq.
  entries_tac.
Qed.

Lemma step_restore P T B (I : dir -> Prop) :
  (forall d, entries P T B d -> I d) ->
  triple (entries P T B) (rename backup path) (fun _ => entries B T None) I.
Proof.
  intros HI. apply step_call; [done |]. intros d d' Hd Ho.
  destruct Hd as (HP & HT & HB & Hx). rewrite HP, HB in Ho.
  repeat case_match; simplify_eq; entries_tac.
Qed.

Lemma step_save P T (I : dir -> Prop) :
  (forall d, entries P T None d -> I d) ->
  triple (entries P T None) (rename path backup) (fun _ => entries None T P) I.
Proof.
  intros HI. apply step_call; [done |]. intros d d' Hd Ho.
  destruct Hd as (HP & HT & HB & Hx). rewrite HP, HB in Ho.
  repeat case_match; simplify_eq; entries_tac.
Qed.

Lemma step_install T B (I : dir -> Prop) :
  (forall d, entries None T B d -> I d) ->
  triple (entries None T B) (rename tmp path) (fun _ => entries T None B) I.
Proof.
  intros HI. apply step_call; [done |]. intros d d' Hd Ho.
  destruct Hd as (HP & HT & HB & Hx). rewrite HP, HT in Ho.
  repeat case_match; simplify_eq; entries_tac.
Qed.

Lemma step_create P T B (I : dir -> Prop) :
  (forall d, entries P T B d -> I d) ->
  triple (entries P T B) (create_truncate tmp)
    (fun _ => entries P (Some (RegularFile [])) B) I.
Proof.
  intros HI. apply step_call; [done |]. intros d d' Hd Ho. repeat case_match; simplify_eq;
  entries_tac.
Qed.

Lemma step_write P c B b (I : dir -> Prop) :
  (forall d c', entries P (Some (RegularFile c')) B d -> I d) ->
  triple (entries P (Some (RegularFile c)) B) (write_file tmp b)
    (fun _ => entries P (Some (RegularFile (c ++ b))) B) I.
Proof.
  intros HI.
  assert (forall d b, entries P (Some (RegularFile c)) B d ->
            entries P (Some (RegularFile (c ++ b))) B (append_bytes tmp b d)) as Hw.
  { intros d x Hd. assert (d !! tmp = Some (RegularFile c)) as Ht by apply Hd.
    unfold append_bytes, file_content. rewrite Ht. cbn [default from_option id]. entries_tac. }
  apply triple_call; [eauto | |].
  - intros d k Hd. eapply HI, Hw, Hd.
  - intros d d' Hd [= <-]. by apply Hw.
Qed.

Lemma exists_path {B} P T Bk (k : bool -> fs B) Q I :
  triple (entries P T Bk) (k (bool_decide (is_Some P))) Q I ->
  triple (entries P T Bk) (fs_bind (exists_ path) k) Q I.
Proof.
  intros Hk. eapply triple_bind; [apply triple_exists |]. intros b F d n [Hd ->].
  replace (d !! path) with P by (symmetry; apply Hd). by apply Hk.
Qed.

Lemma exists_tmp {B} P T Bk (k : bool -> fs B) Q I :
  triple (entries P T Bk) (k (bool_decide (is_Some T))) Q I ->
  triple (entries P T Bk) (fs_bind (exists_ tmp) k) Q I.
Proof.
  intros Hk. eapply triple_bind; [apply triple_exists |]. intros b F d n [Hd ->].
  replace (d !! tmp) with T by (symmetry; apply Hd). by apply Hk.
Qed.

Lemma exists_backup {B} P T Bk (k : bool -> fs B) Q I :
  triple (entries P T Bk) (k (bool_decide (is_Some Bk))) Q I ->
  triple (entries P T Bk) (fs_bind (exists_ backup) k) Q I.
Proof.
  intros Hk. eapply triple_bind; [apply triple_exists |]. intros b F d n [Hd ->].
  replace (d !! backup) with Bk by (symmetry; apply Hd). by apply Hk.
Qed.

Lemma step_ret P T B (I : dir -> Prop) :
  triple (entries P T B) (fs_ret tt) (fun _ => entries P T B) I.
Proof. by intros F d n Hd. Qed.

Lemma step_then {A} (P : dir -> Prop) (R : dir -> Prop) (m : fs A) {B} (k : fs B) Q I :
  triple P m (fun _ => R) I -> triple R k Q I -> triple P (fs_bind m (fun _ => k)) Q I.
Proof. intros Hm Hk. by eapply triple_bind. Qed.

(** Recovery installs the effective snapshot, removes the leftovers, and a failure or a crash
    inside it changes nothing that matters. *)
Lemma recover_triple P T B :
  regular P -> regular T -> regular B ->
  triple (entries P T B) (recover_interrupted_snapshot_replace path)
    (fun _ => entries (effective P B) None None) (keeps (effective P B)).
Proof.
  intros RP RT RB. unfold recover_interrupted_snapshot_replace. apply exists_path, exists_backup.
  eapply (step_then _ (entries (effective P B) T None)).
  - destruct P as [e|], B as [b|]; cbn [effective];
      rewrite ?bool_decide_eq_true_2, ?bool_decide_eq_false_2 by (by eexists || by intros []);
      try apply step_ret;
      (eapply step_then; [first [apply step_remove_backup | apply step_restore] | apply step_sync]);
      intros d Hd; do 3 eexists; (split; [exact Hd | done]).
  - apply exists_tmp. destruct T as [t|].
    + rewrite bool_decide_eq_true_2 by by eexists.
      eapply step_then; [apply step_remove_tmp | apply step_sync];
        intros d Hd; do 3 eexists; (split; [exact Hd |]); split_and!; try done;
        first [by destruct P, B | by destruct (effective P B)].
    + rewrite bool_decide_eq_false_2 by by intros []. apply step_ret.
Qed.

Lemma consistent_of P T B old d :
  entries P T B d -> regular P -> regular T -> regular B ->
  effective P B = old \/ effective P B = Some (RegularFile new) -> consistent old d.
Proof. intros Hd RP RT RB He. by exists P, T, B. Qed.

Ltac consistent_tac :=
  intros; eapply consistent_of; [eassumption | first [done | assumption] ..|]; cbn; auto.

Lemma replace_tail_triple old :
  regular old ->
  triple (entries None (Some (RegularFile new)) old)
    (do! installed := fs_try (rename tmp path) in
     match installed with
     | Some error =>
         do! present := exists_ path in
         do! saved := exists_ backup in
         run! (if negb present && saved then fs_try (rename backup path) else fs_ret None) in
         fs_throw error
     | None =>
         run! sync in
         do! saved := exists_ backup in
         if saved then run! remove_file backup in sync else fs_ret tt
     end)
    (fun _ => entries (Some (RegularFile new)) None None) (consistent old).
Proof.
  intros Rold. eapply triple_bind.
  { eapply triple_try; [apply step_install with (I := entries None (Some (RegularFile new)) old) |];
      [auto |]. consistent_tac. }
  intros [error|].
  - apply exists_path, exists_backup. rewrite bool_decide_eq_false_2 by by intros [].
    apply (triple_bind _ _ (fun _ => consistent old)); [| by intros r F d n Hd].
    cbn [negb andb].
    destruct old as [e|].
    + rewrite bool_decide_eq_true_2 by by eexists.
      eapply triple_weaken.
      * apply (triple_try _ _ _ _ (consistent (Some e))
                 (step_restore _ _ _ (entries None (Some (RegularFile new)) (Some e)) (fun d Hd => Hd))).
        consistent_tac.
      * auto.
      * intros [m|] d Hd; consistent_tac.
      * auto.
    + rewrite bool_decide_eq_false_2 by by intros []. intros F d n Hd. cbn. consistent_tac.
  - eapply step_then; [apply step_sync; consistent_tac |]. apply exists_backup.
    destruct old as [e|].
    + rewrite bool_decide_eq_true_2 by by eexists.
      eapply step_then; [apply step_remove_backup | apply step_sync]; consistent_tac.
    + rewrite bool_decide_eq_false_2 by by intros []. apply step_ret.
Qed.

Lemma replace_triple P T B :
  regular P -> regular T -> regular B ->
  triple (entries P T B) (replace_snapshot_bytes_crash_safe path new)
    (fun _ => entries (Some (RegularFile new)) None None) (consistent (effective P B)).
Proof.
  intros RP RT RB. unfold replace_snapshot_bytes_crash_safe. eapply step_then.
  { eapply triple_weaken; [by apply (recover_triple P T B) | auto | intros a d Hd; exact Hd |].
    intros d (P' & T' & B' & Hd & ? & ? & ? & He). consistent_tac. }
  assert (regular (effective P B)) as Rold by (by destruct P, B).
  revert Rold. generalize (effective P B) as old. clear P T B RP RT RB. intros old Rold. fold tmp backup.
  apply exists_tmp. rewrite bool_decide_eq_false_2 by by intros [].
  eapply step_then; [apply step_ret |].
  eapply step_then; [apply step_create; consistent_tac; left; by destruct old |].
  eapply step_then; [apply step_write; consistent_tac; left; by destruct old |].
  eapply step_then; [apply step_sync; consistent_tac; left; by destruct old |].
  eapply step_then; [apply step_write; consistent_tac; left; by destruct old |].
  eapply step_then; [apply step_sync; consistent_tac; left; by destruct old |].
  eapply step_then; [apply step_sync; consistent_tac; left; by destruct old |].
  rewrite app_nil_l, take_drop. apply exists_path.
  eapply (step_then _ (entries None (Some (RegularFile new)) old)); [| by apply replace_tail_triple].
  destruct old as [e|].
  - rewrite bool_decide_eq_true_2 by by eexists. apply exists_backup.
    rewrite bool_decide_eq_false_2 by by intros [].
    eapply step_then; [apply step_ret |]. apply step_save; consistent_tac.
  - rewrite bool_decide_eq_false_2 by by intros []. apply step_ret.
Qed.
End replace.

(** ** Termination without faults *)
Section total.
Context (path : string).

Ltac map_eval :=
  repeat first
    [ progress cbn
    | rewrite lookup_insert_eq | rewrite lookup_delete_eq
    | rewrite lookup_insert_ne by congruence | rewrite lookup_delete_ne by congruence
    | match goal with E : ?d !! ?x = _ |- context [?d !! ?x] => rewrite E end ].

Lemma recover_total d n :
  regular (d !! temporary_path path) -> regular (d !! rollback_path path) ->
  exists d' n', recover_interrupted_snapshot_replace path no_faults d n = Done d' n' tt.
Proof.
  intros RT RB. pose proof (names_ne path) as (N1 & N2 & N3).
  unfold recover_interrupted_snapshot_replace, fs_bind, remove_file, rename, sync, fs_call,
    exists_, no_faults, fs_ret, unchanged, regular in *.
  destruct (d !! path) as [[]|] eqn:EP, (d !! temporary_path path) as [[]|] eqn:ET,
    (d !! rollback_path path) as [[]|] eqn:EB; try done; map_eval; eauto.
Qed.

Lemma replace_total d n b :
  regular (d !! path) -> regular (d !! temporary_path path) ->
  regular (d !! rollback_path path) ->
  exists d' n', replace_snapshot_bytes_crash_safe path b no_faults d n = Done d' n' tt.
Proof.
  intros RP RT RB. pose proof (names_ne path) as (N1 & N2 & N3).
  destruct (recover_total d n RT RB) as (d1 & n1 & E1).
  pose proof (recover_triple path d (d !! path) (d !! temporary_path path)
                (d !! rollback_path path) RP RT RB no_faults d n) as Hr.
  rewrite E1 in Hr. destruct Hr as (HP & HT & HB & _); [by split_and! |].
  unfold replace_snapshot_bytes_crash_safe, fs_bind at 1. rewrite E1.
  assert (regular (d1 !! path)) as R1 by (rewrite HP; by destruct (d !! path), (d !! rollback_path path)).
  unfold fs_bind, fs_try, remove_file, rename, create_truncate, write_file, append_bytes, sync,
    fs_call, exists_, no_faults, fs_ret, unchanged, regular in *. clear E1 HP.
  destruct (d1 !! path) as [[]|] eqn:EP; try done; map_eval; eauto.
Qed.
End total.

(** The snapshot file that recovery will install. *)
Definition effective_snapshot (path : string) (d : dir) : option dirent :=
  effective (d !! path) (d !! rollback_path path).

Definition outcome_dir {A : Type} (o : outcome A) : dir :=
  match o with
  | Done d _ _ | Failed d _ _ | Crashed d => d
  end.

Definition snapshot_files_regular (path : string) (d : dir) : Prop :=
  regular (d !! path) /\ regular (d !! temporary_path path) /\ regular (d !! rollback_path path).

Lemma effective_entries path d0 d P T B :
  entries path d0 P T B d -> effective_snapshot path d = effective P B.
Proof. intros (HP & _ & HB & _). unfold effective_snapshot. by rewrite HP, HB. Qed.

Lemma entries_self path d :
  entries path d (d !! path) (d !! temporary_path path) (d !! rollback_path path) d.
Proof. by split_and!. Qed.

Lemma replace_outcome path d b F n :
  snapshot_files_regular path d ->
  let d' := outcome_dir (replace_snapshot_bytes_crash_safe path b F d n) in
  snapshot_files_regular path d' /\
  (effective_snapshot path d' = effective_snapshot path d \/
   effective_snapshot path d' = Some (RegularFile b)) /\
  (forall d1 n1 u, replace_snapshot_bytes_crash_safe path b F d n = Done d1 n1 u ->
     d1 !! path = Some (RegularFile b) /\ d1 !! rollback_path path = None) /\
  (forall x, x <> path -> x <> temporary_path path -> x <> rollback_path path -> d' !! x = d !! x).
Proof.
  intros (RP & RT & RB).
  pose proof (replace_triple path d b _ _ _ RP RT RB F d n (entries_self path d)) as Ht.
  destruct (replace_snapshot_bytes_crash_safe path b F d n) as [d1 n1 u | d1 n1 e | d1];
    cbn [outcome_dir].
  - pose proof (effective_entries _ _ _ _ _ _ Ht) as He. destruct Ht as (HP & HT & HB & Hx).
    unfold snapshot_files_regular. rewrite HP, HT, HB. split_and!; try done; [by right |].
    by intros ? ? ? [= <- _].
  - destruct Ht as (P & T & B & Hd & ? & ? & ? & He).
    rewrite (effective_entries _ _ _ _ _ _ Hd). destruct Hd as (HP & HT & HB & Hx).
    unfold snapshot_files_regular. rewrite HP, HT, HB. split_and!; done.
  - destruct Ht as (P & T & B & Hd & ? & ? & ? & He).
    rewrite (effective_entries _ _ _ _ _ _ Hd). destruct Hd as (HP & HT & HB & Hx).
    unfold snapshot_files_regular. rewrite HP, HT, HB. split_and!; done.
Qed.

Lemma recover_no_faults path d n :
  snapshot_files_regular path d ->
  exists d' n', recover_interrupted_snapshot_replace path no_faults d n = Done d' n' tt /\
    d' !! path = effective_snapshot path d /\ d' !! temporary_path path = None /\
    d' !! rollback_path path = None.
Proof.
  intros (RP & RT & RB). destruct (recover_total path d n RT RB) as (d' & n' & E).
  exists d', n'. split; [done |].
  pose proof (recover_triple path d _ _ _ RP RT RB no_faults d n (entries_self path d)) as Ht.
  rewrite E in Ht. destruct Ht as (HP & HT & HB & _). done.
Qed.

(** C7: replacing a snapshot is crash safe. Whatever file system call fails or kills the process,
    the directory left behind is one from which recovery terminates, installs either the complete
    previous snapshot or the complete new bytes, and leaves no temporary or backup file; other
    files are untouched. When the routine returns normally the new bytes are installed, and
    without faults it does return. *)
Theorem snapshot_replace_crash_safe path d b F n :
  snapshot_files_regular path d ->
  let o := replace_snapshot_bytes_crash_safe path b F d n in
  (exists d' n', recover_interrupted_snapshot_replace path no_faults (outcome_dir o) 0
                 = Done d' n' tt /\
     (d' !! path = effective_snapshot path d \/ d' !! path = Some (RegularFile b)) /\
     (forall d1 n1 u, o = Done d1 n1 u -> d' !! path = Some (RegularFile b)) /\
     d' !! temporary_path path = None /\ d' !! rollback_path path = None) /\
  (forall x, x <> path -> x <> temporary_path path -> x <> rollback_path path ->
     outcome_dir o !! x = d !! x) /\
  (F = no_faults -> exists d1 n1, o = Done d1 n1 tt).
Proof.
  intros Hreg o. destruct (replace_outcome path d b F n Hreg) as (Hreg' & He & Hdone & Hx).
  fold o in Hreg', He, Hdone, Hx. split_and!; [| done |].
  - destruct (recover_no_faults path _ 0 Hreg') as (d' & n' & E & HP & HT & HB).
    exists d', n'. rewrite HP. split_and!; try done. intros d1 n1 u Ho.
    destruct (Hdone _ _ _ Ho) as [Hp Hb]. unfold effective_snapshot. rewrite Ho. cbn [outcome_dir].
    by rewrite Hp.
  - intros ->. destruct Hreg as (? & ? & ?). by apply replace_total.
Qed.

Definition ex_snap_dir : dir := {["s.snap" := RegularFile [Byte.x6f]]}.

Lemma snapshot_replace_crash_safe_witness :
  let F n := if decide (n = 7) then Some (Crash 0) else None in
  let o := replace_snapshot_bytes_crash_safe "s.snap" [Byte.x6e; Byte.x65; Byte.x77] F ex_snap_dir 0 in
  outcome_dir o !! "s.snap" = None /\
  exists d' n', recover_interrupted_snapshot_replace "s.snap" no_faults (outcome_dir o) 0
                = Done d' n' tt /\ d' !! ".s.snap.tmp" = None.
Proof.
  intros F o. split; [vm_compute; reflexivity |].
  destruct (proj1 (snapshot_replace_crash_safe "s.snap" ex_snap_dir [Byte.x6e; Byte.x65; Byte.x77] F 0
                     ltac:(vm_compute; done))) as (d' & n' & E & _ & _ & Ht & _).
  exists d', n'. exact (conj E Ht).
Defined.
