(* ===== verification/Ledger.v ===== *)
(** * The trustworthy transition ledger over its store

    [TrustworthyTransitionLedger] of [trustworthy_transition.rs]: opening with snapshot-assisted
    and full replay, appending with the poisoned flag, and writing snapshots, over the store of
    [Wal] and the file system monad of [SnapshotDurability]; and the crash-safe snapshot writer
    of [snapshot_durability.rs]. The texts of WAL errors are a parameter, and the text of an I/O error is the name
    of the call that failed. *)

From stdpp Require Import prelude gmap strings list sorting fin_maps.
From Stdlib Require Import ZArith Lia.
From S2P Require Import Prelude RustStr Wal Crypto Transition SnapshotDurability WalSpec WalRead WalProps TransitionInv.

Record SnapshotOffset : Type := mkSnapshotOffset { so_segment : Z; so_position : Z }.
Definition snapshot_offset (o : Offset) : SnapshotOffset :=
  mkSnapshotOffset (segment o) (position o).
Definition wal_offset_of (o : SnapshotOffset) : Offset := mkOffset (so_segment o) (so_position o).

Record TransitionLedgerSnapshotBody : Type := mkSnapshotBody {
  sb_schema : string;
  sb_profile : string;
  sb_wal_offset : SnapshotOffset;
  sb_next_sequence : Z;
  sb_head_event_hash : option string;
  sb_projections : gmap string TransitionProjection;
  sb_record_owners : gmap string RecordOwner;
  sb_projection_digest : string;
  sb_created_at_ms : Z
}.

Record TransitionLedgerSnapshot : Type := mkSnapshot {
  sn_body : TransitionLedgerSnapshotBody;
  sn_snapshot_digest : string
}.

Record TransitionLedgerSnapshotInfo : Type := mkInfo {
  in_path : string;
  in_offset : Offset;
  in_event_count : Z;
  in_projection_count : nat;
  in_snapshot_digest : string;
  in_head_event_hash : option string;
  in_projection_digest : string
}.

(** What [projection_digest] hashes. *)
Record ProjectionDigestMaterial : Type := mkMaterial {
  dm_next_sequence : Z;
  dm_head_event_hash : option string;
  dm_projections : gmap string TransitionProjection;
  dm_record_owners : gmap string RecordOwner
}.

Record TrustworthyTransitionLedger : Type := mkLedger {
  lg_store : Store;
  lg_state : LedgerState;
  lg_poisoned : bool
}.

Section ledger.
Context `{Crc32, Sha256, Cbor TransitionEventBody, Cbor TransitionEvent,
          Cbor ProjectionDigestMaterial, Cbor TransitionLedgerSnapshotBody,
          Cbor TransitionLedgerSnapshot}.
Context (wal_message : WalError -> string).

Definition storage_error (e : WalError) : TransitionLedgerError := Storage (wal_message e).

Definition projection_digest (state : LedgerState) : tresult string :=
  digest_cbor Encoding
    (mkMaterial (next_sequence state) (head_event_hash state) (projections state)
       (record_owners state)).

Definition replay_record (state : LedgerState) (record : result bytes WalError)
  : tresult LedgerState :=
  let! b := map_err storage_error record in
  let! event := map_err Encoding (from_slice (A := TransitionEvent) b) in
  apply_event state event.

Definition replay_from (store : Store) (offset : Offset) (state : LedgerState)
  : tresult LedgerState :=
  let! records := map_err storage_error (read_from (st_data store) offset) in
  fold_result replay_record state records.

Definition snapshot_state (b : TransitionLedgerSnapshotBody) : LedgerState :=
  mkState (sb_next_sequence b) (sb_head_event_hash b) (sb_projections b) (sb_record_owners b).

Definition load_and_verify_snapshot (entry : dirent) : tresult TransitionLedgerSnapshot :=
  match entry with
  | OtherEntry => Err (Storage "read")
  | RegularFile b =>
      let! snapshot := map_err Encoding (from_slice (A := TransitionLedgerSnapshot) b) in
      let body := sn_body snapshot in
      if bool_decide (sb_schema body <> SNAPSHOT_SCHEMA) || bool_decide (sb_profile body <> PROFILE)
      then Err SnapshotProfileMismatch
      else
        let! d := digest_cbor Encoding body in
        if decide (d = sn_snapshot_digest snapshot) then
          let! pd := projection_digest (snapshot_state body) in
          if decide (pd = sb_projection_digest body) then Ok snapshot
          else Err SnapshotProjectionDigestMismatch
        else Err SnapshotDigestMismatch
  end.

Definition Ledger_open (r : Root) : tresult TrustworthyTransitionLedger :=
  let! store := map_err storage_error (Store_open r) in
  let! snapshot_recovered :=
    match st_snap store !! SNAPSHOT_FILE with
    | Some entry =>
        let! snapshot := load_and_verify_snapshot entry in
        replay_from store (wal_offset_of (sb_wal_offset (sn_body snapshot)))
          (snapshot_state (sn_body snapshot))
    | None => replay_from store Offset_start LedgerState_default
    end in
  let! full_replay := replay_from store Offset_start LedgerState_default in
  if decide (snapshot_recovered = full_replay) then Ok (mkLedger store full_replay false)
  else Err ReplayProjectionMismatch.

(** Dropping the ledger leaves what is on disk. *)
Definition Ledger_close (l : TrustworthyTransitionLedger) : Root := Store_close (lg_store l).

(** The event [append] builds for an input, the state it leads to, and the bytes it writes. *)
Definition propose (state : LedgerState) (input : TransitionEventInput)
  : tresult (TransitionEvent * LedgerState * bytes) :=
  let! normalized := normalize_input input in
  let body := body_of_input state normalized in
  let! event_hash := digest_cbor Encoding body in
  let event := mkEvent body event_hash in
  let! candidate := apply_event state event in
  let! b := map_err Encoding (to_vec event) in
  Ok (event, candidate, b).

Definition Ledger_append (l : TrustworthyTransitionLedger) (input : TransitionEventInput)
    (fp : AppendFault) : TrustworthyTransitionLedger * tresult TransitionEvent :=
  if lg_poisoned l then (l, Err PoisonedAfterStorageFailure)
  else
    match propose (lg_state l) input with
    | Err e => (l, Err e)
    | Ok (event, candidate, b) =>
        match Store_append (lg_store l) b fp with
        | (store, Err e) => (mkLedger store (lg_state l) true, Err (storage_error e))
        | (store, Ok _) => (mkLedger store candidate false, Ok event)
        end
    end.

Definition event_count (l : TrustworthyTransitionLedger) : Z :=
  u64_saturating_sub (next_sequence (lg_state l)) 1.

(** The snapshot [write_snapshot] builds, and its bytes. *)
Definition build_snapshot (l : TrustworthyTransitionLedger) (created_at_ms : Z)
  : tresult (TransitionLedgerSnapshot * bytes) :=
  let state := lg_state l in
  let! pd := projection_digest state in
  let body := mkSnapshotBody SNAPSHOT_SCHEMA PROFILE (snapshot_offset (end_offset (lg_store l)))
                (next_sequence state) (head_event_hash state) (projections state)
                (record_owners state) pd created_at_ms in
  let! d := digest_cbor Encoding body in
  let snapshot := mkSnapshot body d in
  let! b := map_err Encoding (to_vec snapshot) in
  Ok (snapshot, b).

Definition snapshot_info (l : TrustworthyTransitionLedger) (s : TransitionLedgerSnapshot)
  : TransitionLedgerSnapshotInfo :=
  mkInfo SNAPSHOT_FILE (wal_offset_of (sb_wal_offset (sn_body s))) (event_count l)
    (size (projections (lg_state l))) (sn_snapshot_digest s) (sb_head_event_hash (sn_body s))
    (sb_projection_digest (sn_body s)).

(** [write_snapshot] on the snapshot directory; a failed call is the error [Storage]. *)
Definition write_snapshot (l : TrustworthyTransitionLedger) (created_at_ms : Z)
  : fs (tresult TransitionLedgerSnapshotInfo) :=
  match build_snapshot l created_at_ms with
  | Err e => fs_ret (Err e)
  | Ok (snapshot, b) =>
      do! failed := fs_try (replace_snapshot_bytes_crash_safe SNAPSHOT_FILE b) in
      fs_ret (match failed with
              | Some e => Err (Storage e)
              | None => Ok (snapshot_info l snapshot)
              end)
  end.

Definition write_snapshot_crash_safe (l : TrustworthyTransitionLedger) (created_at_ms : Z)
  : fs (tresult TransitionLedgerSnapshotInfo) :=
  let path := SNAPSHOT_FILE in
  let backup := rollback_path path in
  run! recover_interrupted_snapshot_replace path in
  do! present := exists_ path in
  run! (if present then run! rename path backup in sync else fs_ret tt) in
  do! written := write_snapshot l created_at_ms in
  match written with
  | Ok info =>
      run! sync in
      do! saved := exists_ backup in
      run! (if saved then run! remove_file backup in sync else fs_ret tt) in
      fs_ret (Ok info)
  | Err error =>
      do! present := exists_ path in
      do! saved := exists_ backup in
      run! (if negb present && saved
            then run! fs_try (rename backup path) in fs_try sync
            else fs_ret None) in
      fs_ret (Err error)
  end.

(** Running a snapshot writer of a ledger: the ledger over the directory left behind, and the
    result, or [None] when the process died. *)
Definition with_snap (l : TrustworthyTransitionLedger) (d : dir) : TrustworthyTransitionLedger :=
  let s := lg_store l in
  mkLedger (mkStore (st_data s) d (st_manifest s) (st_writer s)) (lg_state l) (lg_poisoned l).

Definition run_snapshot {A : Type} (l : TrustworthyTransitionLedger) (m : fs (tresult A))
    (F : faults) : TrustworthyTransitionLedger * option (tresult A) :=
  match m F (st_snap (lg_store l)) 0 with
  | Done d _ r => (with_snap l d, Some r)
  | Failed d _ e => (with_snap l d, Some (Err (Storage e)))
  | Crashed d => (with_snap l d, None)
  end.
End ledger.

(** * The ledger invariant

    [ledger_inv n l evs]: after [n] operations the ledger [l] stores the log [evs]. Its WAL holds
    the encodings of [evs], its state is their replay, and a snapshot file (or its backup) is a
    valid snapshot of some prefix of [evs] whose offset is where the rest of the log starts. *)

Section inv.
Context `{Crc32, !Crc32Ok, Sha256, !Sha256Ok, Cbor TransitionEventBody, Cbor TransitionEvent,
          !CborOk TransitionEvent, Cbor ProjectionDigestMaterial,
          Cbor TransitionLedgerSnapshotBody, Cbor TransitionLedgerSnapshot,
          !CborOk TransitionLedgerSnapshot}.
Context (wal_message : WalError -> string).

Local Abbreviation Ledger_open := (Ledger_open wal_message).
Local Abbreviation Ledger_append := (Ledger_append wal_message).
Local Abbreviation replay_from := (replay_from wal_message).

Definition encodes (evs : list TransitionEvent) (ps : list bytes) : Prop :=
  Forall2 (fun ev p => to_vec ev = Ok p) evs ps.

(** Replaying the encodings of events is replaying the events. *)
Lemma replay_records evs ps st :
  encodes evs ps ->
  fold_result (replay_record wal_message) st (Ok <$> ps) = replay st evs.
Proof.
  intros He. revert st. induction He as [|ev p evs ps Hp He IH]; intros st; [done |].
  unfold replay in *. cbn [fmap list_fmap fold_result]. unfold replay_record at 1.
  cbn [map_err rbind]. rewrite (from_to_vec _ _ Hp). cbn [map_err rbind].
  destruct (apply_event st ev); cbn [rbind]; [apply IH | done].
Qed.

Lemma replay_from_offset store sg offset rest evs st :
  log_ok sg -> st_data store = dir_of sg -> offset_at sg offset rest -> encodes evs rest ->
  replay_from store offset st = replay st evs.
Proof.
  intros Hok Hd Ho He. unfold Ledger.replay_from. rewrite Hd, (read_from_offset _ _ _ Hok Ho).
  cbn [map_err rbind]. by apply replay_records.
Qed.

(** A valid snapshot of a prefix of the log. *)
Definition snapshot_good (sg : seglog) (evs : list TransitionEvent) (entry : dirent) : Prop :=
  exists snapshot evs1 evs2 rest,
    load_and_verify_snapshot entry = Ok snapshot /\ evs = evs1 ++ evs2 /\
    replay LedgerState_default evs1 = Ok (snapshot_state (sn_body snapshot)) /\
    offset_at sg (wal_offset_of (sb_wal_offset (sn_body snapshot))) rest /\ encodes evs2 rest.

Record ledger_inv (n : nat) (l : TrustworthyTransitionLedger) (evs : list TransitionEvent)
    (sg : seglog) (s : Z) (ps : list bytes) : Prop := {
  li_store : store_inv (lg_store l) sg s ps;
  li_bound : (s <= Z.of_nat n + 1)%Z;
  li_log : encodes evs (payloads (sg ++ [(s, ps)]));
  li_state : replay LedgerState_default evs = Ok (lg_state l);
  li_poisoned : lg_poisoned l = false;
  li_regular : snapshot_files_regular SNAPSHOT_FILE (st_snap (lg_store l));
  li_snapshot : forall e, effective_snapshot SNAPSHOT_FILE (st_snap (lg_store l)) = Some e ->
                  snapshot_good (sg ++ [(s, ps)]) evs e
}.

Lemma li_file n l evs sg s ps e :
  ledger_inv n l evs sg s ps -> st_snap (lg_store l) !! SNAPSHOT_FILE = Some e ->
  snapshot_good (sg ++ [(s, ps)]) evs e.
Proof.
  intros Hinv He. apply (li_snapshot _ _ _ _ _ _ Hinv). unfold effective_snapshot. by rewrite He.
Qed.

(** ** Opening *)
Lemma open_store store evs sg s ps st (d : dir) :
  store_inv store sg s ps -> st_snap store = d ->
  encodes evs (payloads (sg ++ [(s, ps)])) -> replay LedgerState_default evs = Ok st ->
  (forall e, d !! SNAPSHOT_FILE = Some e -> snapshot_good (sg ++ [(s, ps)]) evs e) ->
  forall r, Store_open r = Ok store ->
  Ledger_open r = Ok (mkLedger store st false).
Proof.
  intros Hs Hd He Hr Hsnap r Ho. unfold Ledger.Ledger_open. rewrite Ho. cbn [map_err rbind].
  assert (Ledger.replay_from wal_message store Offset_start LedgerState_default = Ok st) as Hfull.
  { rewrite (replay_from_offset _ (sg ++ [(s, ps)]) _ (payloads (sg ++ [(s, ps)])) evs); try done.
    - apply Hs.
    - apply Hs.
    - apply offset_start_at; [apply Hs | by destruct sg]. }
  rewrite Hd. destruct (d !! SNAPSHOT_FILE) as [e|] eqn:Ee.
  - destruct (Hsnap e eq_refl) as (snap & evs1 & evs2 & rest & Hl & -> & Hr1 & Hoff & Henc).
    rewrite Hl. cbn [rbind].
    rewrite (replay_from_offset _ (sg ++ [(s, ps)]) _ rest evs2) by (done || apply Hs).
    unfold replay in Hr, Hr1. rewrite fold_result_app, Hr1 in Hr. cbn [rbind] in Hr.
    unfold replay. rewrite Hr. cbn [rbind]. rewrite Hfull. cbn [rbind]. by rewrite decide_True.
  - rewrite Hfull. cbn [rbind]. by rewrite decide_True.
Qed.

Lemma rotation_ok : (0 < DEFAULT_SEGMENT_SIZE < u64_size)%Z.
Proof. done. Qed.

Lemma fresh_open :
  exists l, Ledger_open (mkRoot ∅ ∅ None false) = Ok l /\ ledger_inv 0 l [] [] 1 [].
Proof.
  destruct (open_fresh ∅ None DEFAULT_SEGMENT_SIZE rotation_ok) as (st & Ho & Hs & Hsnap & _).
  exists (mkLedger st LedgerState_default false). split.
  - eapply open_store; [exact Hs | exact Hsnap | constructor | done | | exact Ho].
    intros e. by rewrite lookup_empty.
  - split; cbn; try done.
    + constructor.
    + rewrite Hsnap. by split_and!; rewrite lookup_empty.
    + rewrite Hsnap. done.
Qed.

(** Reopening gives the same state. *)
Lemma reopen n l evs sg s ps :
  ledger_inv n l evs sg s ps ->
  exists l', Ledger_open (Ledger_close l) = Ok l' /\ lg_state l' = lg_state l /\
             ledger_inv (S n) l' evs sg s ps.
Proof.
  intros Hinv. pose proof Hinv as [Hs Hb He Hr Hp Hreg Hsnap].
  destruct (open_log (Store_close (lg_store l)) sg s ps DEFAULT_SEGMENT_SIZE)
    as (st & Ho & Hs' & Hsn & _); [by apply store_root_inv | done | apply rotation_ok |].
  exists (mkLedger st (lg_state l) false). split; [| split; [done |]].
  - eapply open_store; [exact Hs' | exact Hsn | exact He | exact Hr | | exact Ho].
    intros e Hse. by eapply li_file.
  - cbn in Hsn. split; cbn [lg_store lg_state lg_poisoned]; rewrite ?Hsn; try done. lia.
Qed.

Lemma inv_weaken n m l evs sg s ps :
  n <= m -> ledger_inv n l evs sg s ps -> ledger_inv m l evs sg s ps.
Proof. intros Hle []. split; try done. lia. Qed.

(** ** Appending *)

(** The event [append] builds and the state it leads to. *)
Definition proposes (l : TrustworthyTransitionLedger) (input : TransitionEventInput)
    (ev : TransitionEvent) (candidate : LedgerState) (b : bytes) : Prop :=
  exists normalized, normalize_input input = Ok normalized /\
    e_body ev = body_of_input (lg_state l) normalized /\
    digest_cbor Encoding (e_body ev) = Ok (e_event_hash ev) /\
    apply_event (lg_state l) ev = Ok candidate /\ to_vec ev = Ok b.

Lemma propose_proposes l input ev c b :
  propose (lg_state l) input = Ok (ev, c, b) <-> proposes l input ev c b.
Proof.
  unfold propose, proposes. split.
  - intros Hp. rinv Hp. injection Hp as <- <- <-. apply map_err_ok in E2. eauto 10.
  - intros (n & Hn & Hb & Hd & Ha & Ht). rewrite Hn. cbn [rbind]. rewrite <- Hb, Hd. cbn [rbind].
    destruct ev as [body h]. cbn [e_body e_event_hash] in *. subst body.
    rewrite Ha. cbn [rbind]. by rewrite Ht.
Qed.

Lemma append_cases l input fp :
  lg_poisoned l = false ->
  (exists e, Ledger_append l input fp = (l, Err e) /\
             forall ev candidate b, ~ proposes l input ev candidate b) \/
  exists ev candidate b, proposes l input ev candidate b /\
    Ledger_append l input fp
    = match Store_append (lg_store l) b fp with
      | (store, Err e) => (mkLedger store (lg_state l) true, Err (storage_error wal_message e))
      | (store, Ok _) => (mkLedger store candidate false, Ok ev)
      end.
Proof.
  intros Hp. unfold Ledger.Ledger_append. rewrite Hp.
  destruct (propose (lg_state l) input) as [[[ev c] b]|e] eqn:E.
  - right. exists ev, c, b. split; [by apply propose_proposes | done].
  - left. exists e. split; [done |]. intros ev c b Hpr. apply propose_proposes in Hpr. congruence.
Qed.

(** A snapshot stays valid when the log grows. *)
Lemma snapshot_good_grow sg evs e sg' evs' qs :
  snapshot_good sg evs e -> encodes evs' qs ->
  (forall o rest, offset_at sg o rest -> offset_at sg' o (rest ++ qs)) ->
  snapshot_good sg' (evs ++ evs') e.
Proof.
  intros (snap & evs1 & evs2 & rest & Hl & -> & Hr & Ho & He) Hq Hoff.
  exists snap, evs1, (evs2 ++ evs'), (rest ++ qs). rewrite app_assoc.
  split_and!; try done; [by apply Hoff | by apply Forall2_app].
Qed.

Lemma replay_snoc evs ev st st' :
  replay LedgerState_default evs = Ok st -> apply_event st ev = Ok st' ->
  replay LedgerState_default (evs ++ [ev]) = Ok st'.
Proof. unfold replay. intros Hr Ha. by rewrite fold_result_snoc, Hr. Qed.

Lemma append_success n l evs sg s ps input l' ev :
  ledger_inv n l evs sg s ps -> (Z.of_nat n < u64_size - 2)%Z ->
  Ledger_append l input Disabled = (l', Ok ev) ->
  (forall b, to_vec ev = Ok b -> payload_ok b) ->
  (exists b, proposes l input ev (lg_state l') b) /\
  exists sg' s' ps', ledger_inv (S n) l' (evs ++ [ev]) sg' s' ps'.
Proof.
  intros [Hs Hb He Hr Hp Hreg Hsnap] Hn Happ Hfit.
  destruct (append_cases l input Disabled Hp) as [(e & E & _) | (ev' & c & b & Hprop & E)];
    rewrite Happ in E; [done |].
  destruct (Store_append (lg_store l) b Disabled) as [store [o|e]] eqn:Est; [| done].
  injection E as -> <-. destruct Hprop as (nrm & Hn1 & Hb1 & Hd1 & Ha1 & Ht1).
  split; [by exists b, nrm |].
  destruct (append_step _ _ _ _ _ Hs (Hfit _ Ht1) ltac:(lia))
    as (st' & o' & sg' & s' & ps' & Est' & Hs' & Hbound & Hpay & _ & Hoff & Hsn & _ & _).
  rewrite Est in Est'. injection Est' as <- <-. exists sg', s', ps'.
  assert (encodes [ev] [b]) as Henc by (by constructor).
  split; cbn [lg_store lg_state lg_poisoned]; rewrite ?Hsn; try done.
  - lia.
  - rewrite Hpay. by apply Forall2_app.
  - by eapply replay_snoc.
  - intros e Hse. eapply snapshot_good_grow; eauto.
Qed.

(** After a failed append the ledger is poisoned. Reopening is refused when the record was cut in the middle of
    its payload, and succeeds otherwise with the old log, or with the event in it. *)
Lemma append_failure n l evs sg s ps input (fp : AppendFault) l1 e ev c b :
  ledger_inv n l evs sg s ps -> (Z.of_nat n < u64_size - 2)%Z ->
  proposes l input ev c b -> payload_ok b -> Ledger_append l input fp = (l1, Err e) ->
  lg_poisoned l1 = true /\
  if ambiguous fp b then
    exists at_, Ledger_open (Ledger_close l1) = Err (storage_error wal_message (AmbiguousPartialPayload at_))
  else
    exists l' sg' s' ps', Ledger_open (Ledger_close l1) = Ok l' /\
      ledger_inv (S n) l' (match survivors [] b fp with [] => evs | _ => evs ++ [ev] end) sg' s' ps' /\
      lg_state l' = (match survivors [] b fp with [] => lg_state l | _ => c end).
Proof.
  intros [Hs Hb He Hr Hp Hreg Hsnap] Hn Hprop Hpay Happ.
  destruct (append_cases l input fp Hp) as [(e' & E & Hno) | (ev' & c' & b' & Hprop' & E)]; [by eapply Hno in Hprop |].
  assert (ev' = ev /\ c' = c /\ b' = b) as (-> & -> & ->).
  { apply propose_proposes in Hprop, Hprop'. rewrite Hprop in Hprop'. by injection Hprop' as <- <- <-. }
  rewrite Happ in E. destruct (Store_append (lg_store l) b fp) as [store [o|e']] eqn:Est; [done |].
  injection E as -> ->. split; [done |]. destruct (ambiguous fp b) eqn:Hamb.
  { destruct (failed_append_refused _ _ _ _ _ _ _ _ DEFAULT_SEGMENT_SIZE Hs Hpay ltac:(lia) Est rotation_ok Hamb) as (at_ & Ho).
    exists at_. unfold Ledger.Ledger_open, Store_open, Ledger_close. cbn [lg_store]. by rewrite Ho. }
  destruct (failed_append_restart _ _ _ _ _ _ _ _ DEFAULT_SEGMENT_SIZE Hs Hpay ltac:(lia) Est
              rotation_ok Hamb) as (st' & sg' & s' & ps' & Ho & Hs' & Hbound & Hlog & Hsn & _ & Hoff).
  pose proof Hprop as (nrm & _ & _ & _ & Ha & Ht).
  set (evs' := match survivors [] b fp with [] => evs | _ => evs ++ [ev] end).
  set (st1 := match survivors [] b fp with [] => lg_state l | _ => c end).
  assert (exists more qs, evs' = evs ++ more /\ encodes more qs /\
            forall x, survivors x b fp = x ++ qs) as (more & qs & Hevs & Hq & Hsurv).
  { subst evs'. destruct fp as [[]| | |]; cbn; first
      [exists [], []; split_and!; [by rewrite app_nil_r | constructor | by intros; rewrite app_nil_r]
      |exists [ev], [b]; split_and!; [done | by repeat constructor | done]]. }
  assert (replay LedgerState_default evs' = Ok st1) as Hr'.
  { subst evs' st1. destruct (survivors [] b fp); [done | by eapply replay_snoc]. }
  assert (encodes evs' (payloads (sg' ++ [(s', ps')]))) as He'.
  { rewrite Hlog, Hsurv, Hevs. by apply Forall2_app. }
  assert (forall x, effective_snapshot SNAPSHOT_FILE (st_snap (lg_store l)) = Some x ->
            snapshot_good (sg' ++ [(s', ps')]) evs' x) as Hgood.
  { intros x Hx. rewrite Hevs. eapply snapshot_good_grow; [by apply Hsnap | exact Hq |].
    intros o rest Hor. rewrite <- Hsurv. by apply Hoff. }
  exists (mkLedger st' st1 false), sg', s', ps'. split_and!; try done.
  - eapply open_store; [exact Hs' | exact Hsn | exact He' | exact Hr' | | exact Ho].
    intros x Hx. apply Hgood. unfold effective_snapshot. by rewrite Hx.
  - split; cbn [lg_store lg_state lg_poisoned]; rewrite ?Hsn; try done. lia.
Qed.
End inv.
