(* ===== verification/LedgerProps.v ===== *)
(** * Properties of the transition ledger

    Snapshots keep the invariant under every fault schedule, runs of a ledger (append, rejected
    append, failed append and reopen, snapshot, reopen) as a step relation, and the theorems about
    reachable ledgers and about opening an arbitrary, possibly tampered, directory. *)

From stdpp Require Import prelude gmap strings list sorting fin_maps.
From Stdlib Require Import ZArith Lia.
From S2P Require Import Prelude RustStr Wal WalSpec WalRead WalProps Crypto Transition TransitionCodec TransitionInv SnapshotDurability Ledger.

Section props.
Context `{Crc32, !Crc32Ok, Sha256, !Sha256Ok, Cbor TransitionEventBody, Cbor TransitionEvent,
          !CborOk TransitionEvent, Cbor ProjectionDigestMaterial,
          Cbor TransitionLedgerSnapshotBody, Cbor TransitionLedgerSnapshot,
          !CborOk TransitionLedgerSnapshot}.
Context (wal_message : WalError -> string).

Local Abbreviation Ledger_open := (Ledger_open wal_message).
Local Abbreviation Ledger_append := (Ledger_append wal_message).

(** ** Snapshots *)
Lemma build_snapshot_good n l evs sg s ps t snap b :
  ledger_inv n l evs sg s ps -> build_snapshot l t = Ok (snap, b) ->
  snapshot_good (sg ++ [(s, ps)]) evs (RegularFile b).
Proof.
  intros Hinv Hb. pose proof (li_store _ _ _ _ _ _ Hinv) as Hs.
  unfold build_snapshot in Hb. cbv zeta in Hb. rinv Hb. injection Hb as <- <-.
  rename E1 into Et. apply map_err_ok in Et.
  match type of Et with to_vec ?snap = _ => exists snap, evs, [], [] end.
  split_and!; cycle 1.
  - by rewrite app_nil_r.
  - rewrite (li_state _ _ _ _ _ _ Hinv). unfold snapshot_state. cbn. by destruct (lg_state l).
  - unfold snapshot_offset, wal_offset_of, end_offset. cbn.
    rewrite (inv_segment _ _ _ _ Hs), (inv_size _ _ _ _ Hs). apply offset_end_at.
  - constructor.
  - unfold load_and_verify_snapshot. rewrite (from_to_vec _ _ Et).
    cbn [map_err rbind sn_body sn_snapshot_digest sb_schema sb_profile].
    rewrite !bool_decide_eq_false_2 by naive_solver. cbn [orb]. rewrite E0. cbn [rbind].
    rewrite decide_True by done. unfold snapshot_state.
    cbn [sb_next_sequence sb_head_event_hash sb_projections sb_record_owners sb_projection_digest].
    assert (mkState (next_sequence (lg_state l)) (head_event_hash (lg_state l))
              (projections (lg_state l)) (record_owners (lg_state l)) = lg_state l) as ->
      by (by destruct (lg_state l)).
    rewrite E. cbn [rbind]. by rewrite decide_True.
Qed.

(** The directory a snapshot writer may leave: other snapshots than the old one are [good]. *)
Definition snap_step (good : dirent -> Prop) (d d' : dir) : Prop :=
  snapshot_files_regular SNAPSHOT_FILE d' /\
  (effective_snapshot SNAPSHOT_FILE d' = effective_snapshot SNAPSHOT_FILE d \/
   exists e, effective_snapshot SNAPSHOT_FILE d' = Some e /\ good e).

Lemma snap_step_inv n l evs sg s ps d' :
  ledger_inv n l evs sg s ps ->
  snap_step (snapshot_good (sg ++ [(s, ps)]) evs) (st_snap (lg_store l)) d' ->
  ledger_inv (S n) (with_snap l d') evs sg s ps.
Proof.
  intros [[] ? ? ? ? ? Hsnap] [Hreg Hd]. split; cbn; try done; try lia.
  intros e He. destruct Hd as [Hd | (e' & Hd & Hg)]; [apply Hsnap; congruence |].
  rewrite Hd in He. by injection He as <-.
Qed.

Lemma write_snapshot_step n l evs sg s ps t F m :
  ledger_inv n l evs sg s ps ->
  forall d, snapshot_files_regular SNAPSHOT_FILE d ->
  snap_step (snapshot_good (sg ++ [(s, ps)]) evs) d (outcome_dir (write_snapshot l t F d m)).
Proof.
  intros Hinv d Hreg. unfold write_snapshot.
  destruct (build_snapshot l t) as [[snap b]|e] eqn:Eb; [| split; [done | by left]].
  destruct (replace_outcome SNAPSHOT_FILE d b F m Hreg) as (Hreg' & He & _ & _).
  unfold fs_bind, fs_try.
  destruct (replace_snapshot_bytes_crash_safe SNAPSHOT_FILE b F d m); cbn [outcome_dir fs_ret] in *;
    (split; [done |]); destruct He as [He | He]; eauto using build_snapshot_good.
Qed.

(** The outcomes of the crash-safe writer, on the three files. *)
Section crash_safe.
Context (l : TrustworthyTransitionLedger) (t : Z) (d0 : dir) (old : option dirent).
Local Abbreviation entries := (entries SNAPSHOT_FILE d0).

Definition written_or_old (d : dir) : Prop :=
  exists P T B, entries P T B d /\ regular P /\ regular T /\ regular B /\
    (effective P B = old \/ exists snap b, build_snapshot l t = Ok (snap, b) /\
                                           effective P B = Some (RegularFile b)).

Lemma written_or_old_of P T B d :
  entries P T B d -> regular P -> regular T -> regular B -> effective P B = old ->
  written_or_old d.
Proof. intros Hd RP RT RB He. exists P, T, B. eauto 10. Qed.

Lemma written_of snap b d :
  build_snapshot l t = Ok (snap, b) -> entries (Some (RegularFile b)) None None d ->
  written_or_old d.
Proof.
  intros Eb Hd. exists (Some (RegularFile b)), None, None. split_and!; try done.
  right. by exists snap, b.
Qed.

Lemma write_snapshot_triple P T B :
  regular P -> regular T -> regular B -> effective P B = old ->
  triple (entries P T B) (write_snapshot l t)
    (fun r d => match r with
                | Ok _ => exists snap b, build_snapshot l t = Ok (snap, b) /\
                                         entries (Some (RegularFile b)) None None d
                | Err _ => written_or_old d
                end) written_or_old.
Proof.
  intros RP RT RB He F d n Hd. unfold write_snapshot.
  destruct (build_snapshot l t) as [[snap b]|e] eqn:Eb; [| by eapply written_or_old_of].
  pose proof (replace_triple SNAPSHOT_FILE d0 b P T B RP RT RB F d n Hd) as Hr.
  assert (forall d', consistent SNAPSHOT_FILE d0 b (effective P B) d' -> written_or_old d') as Hc.
  { intros d' (P' & T' & B' & Hd' & ? & ? & ? & He'). exists P', T', B'. split_and!; try done.
    rewrite <- He. destruct He'; eauto. }
  unfold fs_bind, fs_try.
  destruct (replace_snapshot_bytes_crash_safe SNAPSHOT_FILE b F d n); cbn [fs_ret]; eauto.
Qed.

Lemma exists_any {B} (R : dir -> Prop) q (k : bool -> fs B) Q I :
  (forall b, triple (fun d => R d /\ b = bool_decide (is_Some (d !! q))) (k b) Q I) ->
  triple R (fs_bind (exists_ q) k) Q I.
Proof. intros Hk. eapply triple_bind; [apply triple_exists | apply Hk]. Qed.

(** Restoring the backup, when there is nothing at the path, keeps the effective snapshot. *)
Lemma restore_keeps {A} (a : A) :
  triple written_or_old
    (do! present := exists_ SNAPSHOT_FILE in
     do! saved := exists_ (rollback_path SNAPSHOT_FILE) in
     run! (if negb present && saved
           then run! fs_try (rename (rollback_path SNAPSHOT_FILE) SNAPSHOT_FILE) in fs_try sync
           else fs_ret None) in
     fs_ret a) (fun r d => r = a /\ written_or_old d) written_or_old.
Proof.
  intros F d n (P & T & B & Hd & RP & RT & RB & He).
  assert (written_or_old d) as Hw by (exists P, T, B; eauto 10).
  pose proof Hd as (HP & HT & HB & _).
  unfold fs_bind at 1, exists_ at 1. unfold fs_bind at 1, exists_ at 1. rewrite HP, HB.
  destruct P as [p|]; [exact (conj eq_refl Hw) |].
  destruct B as [b|]; [| exact (conj eq_refl Hw)]. cbn [negb andb].
  assert (forall d', entries (Some b) T None d' -> written_or_old d') as Hnew.
  { intros d' Hd'. exists (Some b), T, None. split_and!; done. }
  assert (triple (entries None T (Some b))
            (run! (run! fs_try (rename (rollback_path SNAPSHOT_FILE) SNAPSHOT_FILE) in
                   fs_try sync) in fs_ret a) (fun r d => r = a /\ written_or_old d) written_or_old) as Ht.
  { apply (step_then _ written_or_old); [| by intros F' d' n' Hd'].
    apply (step_then _ written_or_old).
    - eapply triple_weaken; [apply (triple_try _ _ _ _ written_or_old
        (step_restore SNAPSHOT_FILE d0 None T (Some b) written_or_old
           (fun d' Hd' => ex_intro _ None (ex_intro _ T (ex_intro _ (Some b)
              (conj Hd' (conj RP (conj RT (conj RB He)))))))))| | |]; eauto.
      intros [m|] d' Hd'; eauto.
    - eapply triple_weaken.
      + apply (triple_try written_or_old sync (fun _ => written_or_old) written_or_old written_or_old).
        * apply triple_call; eauto. by intros d1 d2 Hd1 [= <-].
        * auto.
      + auto.
      + by intros [m|] d' Hd'.
      + auto. }
  exact (Ht F d n Hd).
Qed.

Lemma crash_safe_triple P T B :
  regular P -> regular T -> regular B -> effective P B = old ->
  triple (entries P T B) (write_snapshot_crash_safe l t)
    (fun r d => written_or_old d /\
       forall info, r = Ok info -> exists snap b, build_snapshot l t = Ok (snap, b) /\
                                     entries (Some (RegularFile b)) None None d) written_or_old.
Proof.
  intros RP RT RB He. assert (regular old) as Rold by (rewrite <- He; by destruct P, B).
  unfold write_snapshot_crash_safe. apply (step_then _ (entries old None None)).
  { pose proof (recover_triple SNAPSHOT_FILE d0 P T B RP RT RB) as Hrec. rewrite He in Hrec.
    eapply triple_weaken; [exact Hrec | auto | auto |].
    intros d (P' & T' & B' & Hd & ? & ? & ? & He'). by eapply written_or_old_of. }
  clear P T B RP RT RB He. apply exists_path.
  apply (step_then _ (entries None None old)).
  { destruct old as [e|] eqn:Eo.
    - rewrite bool_decide_eq_true_2 by by eexists.
      eapply step_then; [apply step_save | apply step_sync];
        intros d Hd; eapply written_or_old_of; first [exact Hd | done | by rewrite Eo].
    - rewrite bool_decide_eq_false_2 by by intros []. apply step_ret. }
  eapply triple_bind; [by apply write_snapshot_triple |]. intros [info|e]; cbv beta iota.
  - intros F d n (snap & b & Eb & Hd). revert F d n Hd.
    apply (step_then _ (entries (Some (RegularFile b)) None None)).
    { apply step_sync. intros d Hd. by eapply written_of. }
    apply exists_backup. rewrite bool_decide_eq_false_2 by by intros [].
    apply (step_then _ (entries (Some (RegularFile b)) None None)); [apply step_ret |].
    intros F d n Hd. split; [by eapply written_of |].
    intros _ _. by exists snap, b.
  - eapply triple_weaken; [apply restore_keeps | auto | | auto].
    by intros r d [-> Hd].
Qed.
End crash_safe.

Lemma crash_safe_step n l evs sg s ps t F m :
  ledger_inv n l evs sg s ps ->
  forall d, snapshot_files_regular SNAPSHOT_FILE d ->
  snap_step (snapshot_good (sg ++ [(s, ps)]) evs) d
    (outcome_dir (write_snapshot_crash_safe l t F d m)).
Proof.
  intros Hinv d (RP & RT & RB).
  pose proof (crash_safe_triple l t d _ _ _ _ RP RT RB eq_refl F d m (entries_self _ d)) as Ht.
  assert (forall d', written_or_old l t d (effective_snapshot SNAPSHOT_FILE d) d' ->
            snap_step (snapshot_good (sg ++ [(s, ps)]) evs) d d') as Hw.
  { intros d' (P & T & B & Hd & ? & ? & ? & He). unfold snap_step.
    rewrite (effective_entries _ _ _ _ _ _ Hd). unfold snapshot_files_regular.
    destruct Hd as (-> & -> & -> & _). split; [done |].
    destruct He as [He | (snap & b & Eb & He)]; [by left | right].
    eexists. split; [exact He |]. by eapply build_snapshot_good. }
  destruct (write_snapshot_crash_safe l t F d m); cbn [outcome_dir]; apply Hw; tauto.
Qed.

(** ** Runs *)

(** The two snapshot writers. *)
Definition snapshot_writer (l : TrustworthyTransitionLedger) (t : Z) (crash_safe : bool)
  : fs (tresult TransitionLedgerSnapshotInfo) :=
  if crash_safe then write_snapshot_crash_safe l t else write_snapshot l t.

Lemma run_snapshot_inv n l evs sg s ps t c F l' r :
  ledger_inv n l evs sg s ps -> run_snapshot l (snapshot_writer l t c) F = (l', r) ->
  ledger_inv (S n) l' evs sg s ps.
Proof.
  intros Hinv Hrun. unfold run_snapshot in Hrun.
  assert (l' = with_snap l (outcome_dir (snapshot_writer l t c F (st_snap (lg_store l)) 0))) as ->
    by (destruct (snapshot_writer l t c F _ 0); by simplify_eq).
  apply snap_step_inv; [done |]. pose proof (li_regular _ _ _ _ _ _ Hinv).
  destruct c; [by eapply crash_safe_step | by eapply write_snapshot_step].
Qed.

(** The encoding of what [append] is about to write is shorter than 4 GiB. *)
Definition event_fits (l : TrustworthyTransitionLedger) (input : TransitionEventInput) : Prop :=
  forall ev c b, proposes l input ev c b -> payload_ok b.

(** The log after a failed append and a reopen, by the point of failure. *)
Definition after_failure (evs : list TransitionEvent) (ev : TransitionEvent) (fp : AppendFault)
  : list TransitionEvent :=
  match survivors [] [] fp with
  | [] => evs
  | _ => evs ++ [ev]
  end.

Inductive ledger_run : nat -> TrustworthyTransitionLedger -> list TransitionEvent -> Prop :=
| lr_open l :
    Ledger_open (mkRoot ∅ ∅ None false) = Ok l -> ledger_run 0 l []
| lr_append n l evs input l' ev :
    ledger_run n l evs -> event_fits l input ->
    Ledger_append l input Disabled = (l', Ok ev) -> ledger_run (S n) l' (evs ++ [ev])
| lr_snapshot n l evs t c F l' r :
    ledger_run n l evs -> run_snapshot l (snapshot_writer l t c) F = (l', Some r) ->
    ledger_run (S n) l' evs
| lr_snapshot_crash n l evs t c F l1 l' :
    ledger_run n l evs -> run_snapshot l (snapshot_writer l t c) F = (l1, None) ->
    Ledger_open (Ledger_close l1) = Ok l' -> ledger_run (S (S n)) l' evs
| lr_reopen n l evs l' :
    ledger_run n l evs -> Ledger_open (Ledger_close l) = Ok l' -> ledger_run (S n) l' evs
| lr_failed n l evs input (fp : AppendFault) l1 e ev c b l' :
    ledger_run n l evs -> event_fits l input -> proposes l input ev c b ->
    Ledger_append l input fp = (l1, Err e) -> Ledger_open (Ledger_close l1) = Ok l' ->
    ledger_run (S n) l' (after_failure evs ev fp).

Lemma proposes_unique l input ev1 c1 b1 ev2 c2 b2 :
  proposes l input ev1 c1 b1 -> proposes l input ev2 c2 b2 -> ev1 = ev2 /\ c1 = c2 /\ b1 = b2.
Proof. rewrite <- !propose_proposes. intros E1 E2. rewrite E1 in E2. by injection E2. Qed.

Lemma survivors_case b fp (A : Type) (x y : A) :
  match survivors [] b fp with [] => x | _ => y end
  = match survivors [] [] fp with [] => x | _ => y end.
Proof. by destruct fp as [[]| | |]. Qed.

Lemma run_ledger_inv n l evs :
  ledger_run n l evs -> (Z.of_nat n < u64_size - 2)%Z ->
  exists sg s ps, ledger_inv n l evs sg s ps.
Proof.
  induction 1 as [l Ho | n l evs input l' ev Hrun IH Hfit Happ | n l evs t c F l' r Hrun IH Hs
    | n l evs t c F l1 l' Hrun IH Hs Ho | n l evs l' Hrun IH Ho
    | n l evs input fp l1 e ev c b l' Hrun IH Hfit Hprop Happ Ho]; intros Hn.
  - destruct (fresh_open wal_message) as (l0 & Ho' & Hinv). rewrite Ho in Ho'. injection Ho' as <-.
    eauto.
  - destruct IH as (sg & s & ps & Hinv); [lia |].
    eapply append_success; [exact Hinv | lia | exact Happ |].
    intros b Hb. pose proof (li_poisoned _ _ _ _ _ _ Hinv) as Hp.
    destruct (append_cases wal_message l input Disabled Hp)
      as [(e & E & _) | (ev' & c & b' & Hprop & E)]; rewrite Happ in E; [done |].
    destruct (Store_append _ _ _) as [store [o|e]]; [| done]. injection E as _ <-.
    pose proof Hprop as (? & _ & _ & _ & _ & Ht). rewrite Hb in Ht. injection Ht as <-.
    by eapply Hfit.
  - destruct IH as (sg & s & ps & Hinv); [lia |]. exists sg, s, ps. by eapply run_snapshot_inv.
  - destruct IH as (sg & s & ps & Hinv); [lia |]. exists sg, s, ps.
    pose proof (run_snapshot_inv _ _ _ _ _ _ _ _ _ _ _ Hinv Hs) as Hinv1.
    destruct (reopen wal_message _ _ _ _ _ _ Hinv1) as (l2 & Ho2 & _ & Hinv2).
    rewrite Ho in Ho2. by injection Ho2 as <-.
  - destruct IH as (sg & s & ps & Hinv); [lia |]. exists sg, s, ps.
    destruct (reopen wal_message _ _ _ _ _ _ Hinv) as (l2 & Ho2 & _ & Hinv2).
    rewrite Ho in Ho2. by injection Ho2 as <-.
  - destruct IH as (sg & s & ps & Hinv); [lia |].
    destruct (append_failure wal_message _ _ _ _ _ _ _ _ _ _ _ _ _ Hinv ltac:(lia) Hprop (Hfit _ _ _ Hprop) Happ) as (_ & Hopen).
    destruct (ambiguous fp b); [destruct Hopen as (? & Ho2); congruence |].
    destruct Hopen as (l2 & sg' & s' & ps' & Ho2 & Hinv2 & _). rewrite Ho in Ho2. injection Ho2 as <-. rewrite survivors_case in Hinv2. eauto.
Qed.

(** ** The inputs [append] accepts *)
Lemma non_empty_canonical v label w :
  non_empty v label = Ok w -> validate_canonical_identifier w label = Ok tt.
Proof.
  unfold non_empty, validate_canonical_identifier. case_decide as Hw; [done |]. intros [= <-].
  rewrite trim_idemp, !bool_decide_eq_false_2; [done | naive_solver | done].
Qed.

Lemma for_each_canonical f l :
  for_each (E := TransitionLedgerError) f l = Ok tt -> for_each f (canonical_refs l) = Ok tt.
Proof.
  rewrite !for_each_ok, !Forall_forall. intros Hl x Hx. by apply Hl, elem_of_canonical_refs.
Qed.

(** A normalized input always passes the structural checks of the event it becomes. *)
Lemma normalized_body_valid st input nrm :
  state_ok st -> normalize_input input = Ok nrm ->
  validate_event_body (body_of_input st nrm) = Ok tt.
Proof.
  intros Hst Hn. unfold normalize_input in Hn. rinv Hn. injection Hn as <-.
  repeat match goal with u : unit |- _ => destruct u end.
  unfold validate_event_body, body_of_input.
  cbn [b_transition_id b_subject_id b_record_ref b_payload_digest b_links b_previous_event_hash
       b_kind b_dimensions i_transition_id i_subject_id i_record_ref i_payload_digest i_links i_kind
       i_dimensions l_authorization_ref l_observation_refs l_response_integrity_ref
       l_causal_audit_ref l_previous_continuity_ref].
  rewrite (non_empty_canonical _ _ _ E), (non_empty_canonical _ _ _ E0). cbn [rbind].
  rewrite E1, E2, E3, E4, E5, E6. cbn [rbind].
  assert (validate_optional_ref (head_event_hash st) "previous_event_hash" = Ok tt) as ->.
  { destruct (head_event_hash st) as [h|] eqn:Eh; [| done]. cbn. unfold validate_ref.
    by rewrite (sok_head_ref _ Hst _ Eh). }
  cbn [rbind]. rewrite (for_each_canonical _ _ E7). cbn [rbind].
  rewrite decide_True by apply canonical_refs_idemp. by rewrite E8.
Qed.

(** What the projection of its transition demands of a normalized input. *)
Definition admissible (o : option TransitionProjection) (n : TransitionEventInput) : Prop :=
  match o with
  | None => i_kind n = Authorization /\ i_links n = TransitionLinks_default
  | Some p =>
      p_subject_id p = i_subject_id n /\ i_links n = expected_links p (i_kind n) /\
      validate_monotonic_dimensions (p_dimensions p) (i_dimensions n) = Ok tt /\
      validate_side_effect (p_side_effect_committed p) (i_side_effect_committed n) = Ok tt
  end.

Lemma proposes_iff `{!CborTotal TransitionEventBody, !CborTotal TransitionEvent} l input nrm :
  state_ok (lg_state l) -> normalize_input input = Ok nrm ->
  (exists ev c b, proposes l input ev c b) <->
  record_owners (lg_state l) !! i_record_ref nrm = None /\
  admissible (projections (lg_state l) !! i_transition_id nrm) nrm.
Proof.
  intros Hst Hn. pose proof (normalized_body_valid _ _ _ Hst Hn) as Hv. split.
  - intros (ev & c & b & nrm' & Hn' & Hb & Hd & Ha & _). rewrite Hn in Hn'. injection Hn' as <-.
    apply apply_event_spec in Ha as (_ & Hfresh & p' & Hadm & _); [| done].
    unfold admitted in Hadm. rewrite Hb in *. split; [done |]. unfold admissible.
    change (b_transition_id (body_of_input (lg_state l) nrm)) with (i_transition_id nrm) in Hadm.
    destruct (projections (lg_state l) !! i_transition_id nrm); unfold no_rollback in Hadm; tauto.
  - intros [Hfresh Hadm].
    destruct (digest_cbor_total (E := TransitionLedgerError) Encoding
                (body_of_input (lg_state l) nrm)) as (bb & _ & Hd).
    set (ev := mkEvent (body_of_input (lg_state l) nrm) (sha256_ref bb)).
    pose proof (to_vec_total ev) as Ht. destruct (to_vec ev) as [b|] eqn:Et; [| done].
    exists ev. assert (exists p', admitted (projections (lg_state l) !! i_transition_id nrm) ev p')
      as (p' & Hp').
    { unfold admitted, admissible, no_rollback in *. cbn.
      destruct (projections (lg_state l) !! i_transition_id nrm); eexists; naive_solver. }
    eexists _, b, nrm. split_and!; try done. apply apply_event_spec; [done |].
    split; [by split_and! |]. split; [done |]. by exists p'.
Qed.

(** ** Opening an arbitrary directory *)
Lemma replay_records_inv records st st' :
  fold_result (replay_record wal_message) st records = Ok st' ->
  exists evs, replay st evs = Ok st' /\
    Forall2 (fun r ev => exists b, r = Ok b /\ from_slice b = Ok ev) records evs.
Proof.
  revert st. induction records as [|r records IH]; intros st Hf; cbn [fold_result] in Hf.
  - exists []. split; [done | constructor].
  - rinv Hf. destruct (IH _ Hf) as (evs & Hr & Hev). unfold replay_record in E. rinv E.
    apply map_err_ok in E0, E1. eexists (_ :: evs). split.
    + unfold replay in *. cbn [fold_result]. rewrite E. exact Hr.
    + constructor; [| done]. eexists. split; [exact E0 | exact E1].
Qed.



(** [append] accepts exactly the admissible inputs. On a reachable ledger, an input that
    normalizes is accepted precisely when its record reference is new and the projection of its
    transition admits it (opening authorization, or same subject, the exact current links, no
    rollback): the hash chain, schema, canonical form and ownership checks never reject it. An
    accepted input moves the state to the one the event determines; a refused one changes
    nothing. *)
Theorem ledger_append_accepts `{!CborTotal TransitionEventBody, !CborTotal TransitionEvent}
    n l evs input nrm :
  ledger_run n l evs -> (Z.of_nat n < u64_size - 2)%Z -> event_fits l input ->
  normalize_input input = Ok nrm ->
  match Ledger_append l input Disabled with
  | (l', Ok ev) =>
      (record_owners (lg_state l) !! i_record_ref nrm = None /\
       admissible (projections (lg_state l) !! i_transition_id nrm) nrm) /\
      e_body ev = body_of_input (lg_state l) nrm /\ apply_event (lg_state l) ev = Ok (lg_state l')
  | (l', Err _) =>
      l' = l /\
      ~ (record_owners (lg_state l) !! i_record_ref nrm = None /\
         admissible (projections (lg_state l) !! i_transition_id nrm) nrm)
  end.
Proof.
  intros Hrun Hn Hfit Hnrm. destruct (run_ledger_inv _ _ _ Hrun Hn) as (sg & s & ps & Hinv).
  assert (state_ok (lg_state l)) as Hst.
  { eapply replay_ok; [apply default_ok | apply (li_state _ _ _ _ _ _ Hinv)]. }
  pose proof (proposes_iff l input nrm Hst Hnrm) as Hiff.
  pose proof (li_poisoned _ _ _ _ _ _ Hinv) as Hp. pose proof (li_bound _ _ _ _ _ _ Hinv).
  destruct (append_cases wal_message l input Disabled Hp)
    as [(e & -> & Hno) | (ev & c & b & Hprop & ->)].
  - split; [done |]. intros (ev & c & b & Hprop)%Hiff. by eapply Hno.
  - destruct (append_step _ _ _ _ _ (li_store _ _ _ _ _ _ Hinv) (Hfit _ _ _ Hprop) ltac:(lia))
      as (st' & o & sg' & s' & ps' & -> & _).
    split; [apply Hiff; by exists ev, c, b |]. destruct Hprop as (nrm' & Hn' & Hb & _ & Ha & _).
    rewrite Hnrm in Hn'. by injection Hn' as <-.
Qed.

(** Opening trusts nothing but the log. For any directory whatsoever, if opening succeeds then
    every record of the WAL decodes to an event, the state is the replay of exactly those events
    from the empty ledger (whatever the snapshot file says), and it satisfies the abstract
    specification of that log. *)
Theorem ledger_open_sound r l :
  Ledger_open r = Ok l ->
  lg_poisoned l = false /\
  exists records evs, read_from (st_data (lg_store l)) Offset_start = Ok records /\
    Forall2 (fun x ev => exists b, x = Ok b /\ from_slice b = Ok ev) records evs /\
    replay LedgerState_default evs = Ok (lg_state l) /\ describes evs (lg_state l).
Proof.
  unfold Ledger.Ledger_open. intros Ho. rinv Ho. injection Ho as <-. split; [done |].
  cbn [lg_store lg_state].
  match goal with E : replay_from _ _ Offset_start _ = Ok ?x |- context [describes _ ?x] =>
    unfold replay_from in E; rinv E; rename E into Hfold end.
  match goal with E : map_err _ (read_from _ _) = Ok _ |- _ => apply map_err_ok in E end.
  destruct (replay_records_inv _ _ _ Hfold) as (evs & Hr & Hev).
  eexists _, evs. split_and!; eauto. by apply describes_replay.
Qed.
End props.

(** ** Witnesses *)
Global Instance Ser_snapshot_offset : Ser SnapshotOffset :=
  Ser_via (fun o => (so_segment o, so_position o)) (fun '(s, p) => Some (mkSnapshotOffset s p)).
Global Instance Ser_snapshot_offset_ok : SerOk SnapshotOffset.
Proof. ser_enum. Qed.

Global Instance Ser_snapshot_body : Ser TransitionLedgerSnapshotBody :=
  Ser_via (fun b => (sb_schema b, sb_profile b, sb_wal_offset b, sb_next_sequence b,
                     sb_head_event_hash b, sb_projections b, sb_record_owners b,
                     sb_projection_digest b, sb_created_at_ms b))
    (fun '(s, p, o, n, h, m, r, d, t) => Some (mkSnapshotBody s p o n h m r d t)).
Global Instance Ser_snapshot_body_ok : SerOk TransitionLedgerSnapshotBody.
Proof. ser_enum. Qed.

Global Instance Ser_snapshot : Ser TransitionLedgerSnapshot :=
  Ser_via (fun s => (sn_body s, sn_snapshot_digest s)) (fun '(b, d) => Some (mkSnapshot b d)).
Global Instance Ser_snapshot_ok : SerOk TransitionLedgerSnapshot.
Proof. ser_enum. Qed.

Global Instance Ser_material : Ser ProjectionDigestMaterial :=
  Ser_via (fun m => (dm_next_sequence m, dm_head_event_hash m, dm_projections m, dm_record_owners m))
    (fun '(n, h, p, o) => Some (mkMaterial n h p o)).
Global Instance Ser_material_ok : SerOk ProjectionDigestMaterial.
Proof. ser_enum. Qed.

Definition cbor_snapshot_body : Cbor TransitionLedgerSnapshotBody := Cbor_of _.
Definition cbor_snapshot : Cbor TransitionLedgerSnapshot := Cbor_of _.
Definition cbor_snapshot_ok : @CborOk _ cbor_snapshot := Cbor_of_ok _.
Definition cbor_material : Cbor ProjectionDigestMaterial := Cbor_of _.
Definition cbor_body_total : @CborTotal _ cbor_body := Cbor_of_total _.
Definition cbor_event_total : @CborTotal _ cbor_event := Cbor_of_total _.

Section witnesses.
Local Existing Instances ieee ieee_ok checksum_sha checksum_sha_ok cbor_body cbor_event cbor_event_ok
  cbor_material cbor_snapshot_body cbor_snapshot cbor_snapshot_ok cbor_body_total cbor_event_total.

Definition w_message (_ : WalError) : string := "wal".
Definition no_ledger : TrustworthyTransitionLedger :=
  mkLedger (mkStore ∅ ∅ None (mkWriter 1 1 (mkHandle "" 0) 0)) LedgerState_default true.

(** A fresh ledger, one appended authorization, a snapshot interrupted by a crash, a reopen. *)
Definition w_ledger0 : TrustworthyTransitionLedger :=
  Eval vm_compute in ok_or_default no_ledger (Ledger_open w_message (mkRoot ∅ ∅ None false)).
Definition w_input : TransitionEventInput :=
  ex_input Authorization "authorization" TransitionLinks_default None None.
Definition w_ledger1 : TrustworthyTransitionLedger :=
  Eval vm_compute in (Ledger_append w_message w_ledger0 w_input Disabled).1.
Definition w_event : TransitionEvent :=
  Eval vm_compute in
    ok_or_default (mkEvent (body_of_input LedgerState_default w_input) "")
      (Ledger_append w_message w_ledger0 w_input Disabled).2.
Definition w_crash : faults := fun n => if decide (n = 6) then Some (Crash 0) else None.
Definition w_ledger2 : TrustworthyTransitionLedger :=
  Eval vm_compute in (run_snapshot w_ledger1 (snapshot_writer w_ledger1 7 true) w_crash).1.
Definition w_ledger3 : TrustworthyTransitionLedger :=
  Eval vm_compute in ok_or_default no_ledger (Ledger_open w_message (Ledger_close w_ledger2)).

(** The next input of the evidence chain. *)
Definition w_next : TransitionEventInput :=
  ex_input Observation "observation" (mkLinks (Some (ref_of "authorization")) [] None None None)
    (ex_dims ObservedExecuted) (Some true).

Definition fits (l : TrustworthyTransitionLedger) (input : TransitionEventInput) : bool :=
  match propose (lg_state l) input with
  | Ok (_, _, b) => (blen b <? u32_size)%Z
  | Err _ => true
  end.

Lemma fits_event_fits l input : fits l input = true -> event_fits l input.
Proof.
  intros Hf ev c b Hp. apply propose_proposes in Hp. unfold fits in Hf. rewrite Hp in Hf.
  by apply Z.ltb_lt.
Qed.

Lemma w_run1 : ledger_run w_message 1 w_ledger1 [w_event].
Proof.
  apply (lr_append w_message 0 w_ledger0 [] w_input).
  - apply lr_open. vm_cast_no_check (eq_refl (Ok (E := TransitionLedgerError) w_ledger0)).
  - apply fits_event_fits. vm_cast_no_check (eq_refl true).
  - vm_cast_no_check (eq_refl (w_ledger1, Ok (E := TransitionLedgerError) w_event)).
Qed.

Lemma w_run3 : ledger_run w_message 3 w_ledger3 [w_event].
Proof.
  eapply (lr_snapshot_crash w_message 1 w_ledger1 _ 7 true w_crash w_ledger2); [apply w_run1 | |].
  - vm_cast_no_check
      (eq_refl (w_ledger2, @None (tresult TransitionLedgerSnapshotInfo))).
  - vm_cast_no_check (eq_refl (Ok (E := TransitionLedgerError) w_ledger3)).
Qed.


Definition w_proposal : TransitionEvent * LedgerState * bytes :=
  Eval vm_compute in
    ok_or_default (w_event, LedgerState_default, []) (propose (lg_state w_ledger3) w_next).
Definition w_failed : TrustworthyTransitionLedger :=
  Eval vm_compute in (Ledger_append w_message w_ledger3 w_next AfterLengthWrite).1.

Lemma w_proposes : proposes w_ledger3 w_next w_proposal.1.1 w_proposal.1.2 w_proposal.2.
Proof.
  apply propose_proposes. vm_cast_no_check (eq_refl (Ok (E := TransitionLedgerError) w_proposal)).
Qed.

Lemma w_failed_append :
  Ledger_append w_message w_ledger3 w_next AfterLengthWrite = (w_failed, Err (Storage "wal")).
Proof. vm_cast_no_check (eq_refl (w_failed, Err (A := TransitionEvent) (Storage "wal"))). Qed.

(** The same append cut after ten bytes, six of them of the payload. *)
Definition w_cut : TrustworthyTransitionLedger :=
  Eval vm_compute in (Ledger_append w_message w_ledger3 w_next (CutAt 10)).1.
Lemma w_cut_append : Ledger_append w_message w_ledger3 w_next (CutAt 10) = (w_cut, Err (Storage "wal")).
Proof. vm_cast_no_check (eq_refl (w_cut, Err (A := TransitionEvent) (Storage "wal"))). Qed.


Definition w_next_normalized : TransitionEventInput :=
  Eval vm_compute in ok_or_default w_next (normalize_input w_next).

Lemma ledger_append_accepts_witness :
  record_owners (lg_state w_ledger3) !! ref_of "observation" = None.
Proof.
  pose proof (ledger_append_accepts w_message 3 w_ledger3 [w_event] w_next w_next_normalized w_run3
                eq_refl (fits_event_fits _ _ ltac:(vm_cast_no_check (eq_refl true)))
                ltac:(vm_cast_no_check
                        (eq_refl (Ok (E := TransitionLedgerError) w_next_normalized)))) as Hw.
  assert (exists l' ev, Ledger_append w_message w_ledger3 w_next Disabled = (l', Ok ev)) as (l' & ev & E).
  { eexists _, _. vm_compute. reflexivity. }
  rewrite E in Hw. exact (proj1 (proj1 Hw)).
Defined.

Lemma ledger_open_sound_witness :
  exists records evs, read_from (st_data (lg_store w_ledger3)) Offset_start = Ok records /\
    Forall2 (fun x ev => exists b, x = Ok b /\ from_slice b = Ok ev) records evs /\
    replay LedgerState_default evs = Ok (lg_state w_ledger3) /\ describes evs (lg_state w_ledger3).
Proof.
  exact (proj2 (ledger_open_sound w_message (Ledger_close w_ledger2) w_ledger3
                  ltac:(vm_cast_no_check (eq_refl (Ok (E := TransitionLedgerError) w_ledger3))))).
Defined.
End witnesses.
