(* ===== verification/Checkpoint.v ===== *)
(** * Signed checkpoints

    [liminal-store/src/checkpoint.rs]: signing the position of a ledger, the registry of trusted
    keys, verification of one manifest and of a chain of manifests, optionally against an
    external anchor. *)

From stdpp Require Import prelude gmap strings list fin_maps.
From Stdlib Require Import ZArith Lia.
From S2P Require Import Prelude RustStr Wal Crypto Transition SnapshotDurability Ledger.

Definition CHECKPOINT_SCHEMA : string := "liminaldb.signed-checkpoint-manifest.v0.1".
Definition CHECKPOINT_PROFILE : string := "org.liminaldb.signed-checkpoint.v0.1".
Definition LEDGER_PROFILE : string := "org.liminaldb.trustworthy-transition-ledger.v0.1".
Definition SIGNATURE_ALGORITHM : string := "Ed25519".

Record CheckpointMaterial : Type := mkCpMaterial {
  cm_ledger_profile : string;
  cm_storage_root_identity : string;
  cm_event_chain_head : string;
  cm_last_sequence : Z;
  cm_wal_segment : Z;
  cm_wal_offset : Z;
  cm_projection_digest : string;
  cm_snapshot_digest : string
}.

Record CheckpointManifestBody : Type := mkManifestBody {
  mb_schema : string;
  mb_checkpoint_profile : string;
  mb_ledger_profile : string;
  mb_storage_root_identity : string;
  mb_event_chain_head : string;
  mb_last_sequence : Z;
  mb_wal_segment : Z;
  mb_wal_offset : Z;
  mb_projection_digest : string;
  mb_snapshot_digest : string;
  mb_signer_id : string;
  mb_key_id : string;
  mb_issued_at_ms : Z;
  mb_expires_at_ms : option Z;
  mb_previous_checkpoint_ref : option string
}.

Record SignedCheckpointManifest : Type := mkManifest {
  sm_body : CheckpointManifestBody;
  sm_manifest_ref : string;
  sm_signature_algorithm : string;
  sm_signature_hex : string
}.

Record TrustedCheckpointKey : Type := mkKey {
  tk_signer_id : string;
  tk_key_id : string;
  tk_public_key_hex : string;
  tk_valid_from_ms : Z;
  tk_valid_until_ms : option Z;
  tk_revoked_at_ms : option Z
}.

Record TrustedKeyRegistry : Type := mkRegistry { keys : gmap string TrustedCheckpointKey }.
Definition TrustedKeyRegistry_default : TrustedKeyRegistry := mkRegistry ∅.

(** The signing key is its seed. *)
Record CheckpointSigner : Type := mkSigner {
  cs_signer_id : string;
  cs_key_id : string;
  cs_signing_key : bytes
}.

Record ExternalAnchor : Type := mkAnchor {
  ea_provider_profile : string;
  ea_anchor_id : string;
  ea_checkpoint_ref : string;
  ea_storage_root_identity : string;
  ea_event_chain_head : string;
  ea_last_sequence : Z;
  ea_anchored_at_ms : Z
}.

Inductive AntiRollbackStatus : Type :=
| LocalSignatureOnly
| ExternalAnchorVerified.

Record VerifiedCheckpointChain : Type := mkVerified {
  vc_status : AntiRollbackStatus;
  vc_storage_root_identity : string;
  vc_first_checkpoint_ref : string;
  vc_latest_checkpoint_ref : string;
  vc_latest_event_chain_head : string;
  vc_latest_sequence : Z;
  vc_checkpoint_count : nat;
  vc_external_anchor_id : option string
}.

Inductive CheckpointError : Type :=
| CpEncoding (message : string)
| InvalidField (label : string)
| CpInvalidReference (label : string)
| InvalidHex (label : string)
| UnsupportedSignatureAlgorithm
| ManifestReferenceMismatch
| SignatureVerificationFailed
| UnknownKey
| KeyNotYetValid
| KeyExpired
| KeyRevoked
| CheckpointFromFuture
| CheckpointExpired
| InvalidExpiry
| EmptyChain
| ChainIdentityMismatch
| PreviousCheckpointMismatch
| NonMonotonicCheckpoint
| LedgerHeadNotAdvanced
| ExternalAnchorRollback
| ExternalAnchorFork
| ExternalAnchorNotInChain
| MissingLedgerHead
| SnapshotStateMismatch.

Definition code (e : CheckpointError) : string :=
  match e with
  | CpEncoding _ => "ENCODING_ERROR"
  | InvalidField _ => "INVALID_FIELD"
  | CpInvalidReference _ => "INVALID_REFERENCE"
  | InvalidHex _ => "INVALID_HEX"
  | UnsupportedSignatureAlgorithm => "UNSUPPORTED_SIGNATURE_ALGORITHM"
  | ManifestReferenceMismatch => "MANIFEST_REFERENCE_MISMATCH"
  | SignatureVerificationFailed => "SIGNATURE_VERIFICATION_FAILED"
  | UnknownKey => "UNKNOWN_KEY"
  | KeyNotYetValid => "KEY_NOT_YET_VALID"
  | KeyExpired => "KEY_EXPIRED"
  | KeyRevoked => "KEY_REVOKED"
  | CheckpointFromFuture => "CHECKPOINT_FROM_FUTURE"
  | CheckpointExpired => "CHECKPOINT_EXPIRED"
  | InvalidExpiry => "INVALID_EXPIRY"
  | EmptyChain => "EMPTY_CHAIN"
  | ChainIdentityMismatch => "CHAIN_IDENTITY_MISMATCH"
  | PreviousCheckpointMismatch => "PREVIOUS_CHECKPOINT_MISMATCH"
  | NonMonotonicCheckpoint => "NON_MONOTONIC_CHECKPOINT"
  | LedgerHeadNotAdvanced => "LEDGER_HEAD_NOT_ADVANCED"
  | ExternalAnchorRollback => "EXTERNAL_ANCHOR_ROLLBACK"
  | ExternalAnchorFork => "EXTERNAL_ANCHOR_FORK"
  | ExternalAnchorNotInChain => "EXTERNAL_ANCHOR_NOT_IN_CHAIN"
  | MissingLedgerHead => "MISSING_LEDGER_HEAD"
  | SnapshotStateMismatch => "SNAPSHOT_STATE_MISMATCH"
  end.

Abbreviation cresult A := (result A CheckpointError).

(** ** Validation *)
Definition normalized (value label : string) : cresult string :=
  let n := trim value in
  if decide (n = "") then Err (InvalidField label) else Ok n.

Definition validate_ref (reference label : string) : cresult unit :=
  if is_sha256_ref reference then Ok tt else Err (CpInvalidReference label).

Definition validate_optional (reference : option string) (label : string) : cresult unit :=
  match reference with
  | Some r => validate_ref r label
  | None => Ok tt
  end.

(** [expires_at_ms <= issued_at_ms] is refused. *)
Definition validate_expiry (expires : option Z) (issued : Z) : cresult unit :=
  match expires with
  | Some e => if (e <=? issued)%Z then Err InvalidExpiry else Ok tt
  | None => Ok tt
  end.

Definition validate_material (m : CheckpointMaterial) : cresult unit :=
  check! normalized (cm_ledger_profile m) "ledger_profile" in
  check! validate_ref (cm_storage_root_identity m) "storage_root_identity" in
  check! validate_ref (cm_event_chain_head m) "event_chain_head" in
  check! validate_ref (cm_projection_digest m) "projection_digest" in
  check! validate_ref (cm_snapshot_digest m) "snapshot_digest" in
  if (cm_last_sequence m =? 0)%Z then Err (InvalidField "last_sequence") else Ok tt.

Definition material_of_body (b : CheckpointManifestBody) : CheckpointMaterial :=
  mkCpMaterial (mb_ledger_profile b) (mb_storage_root_identity b) (mb_event_chain_head b)
    (mb_last_sequence b) (mb_wal_segment b) (mb_wal_offset b) (mb_projection_digest b)
    (mb_snapshot_digest b).

Definition validate_manifest_body (b : CheckpointManifestBody) : cresult unit :=
  if bool_decide (mb_schema b <> CHECKPOINT_SCHEMA)
     || bool_decide (mb_checkpoint_profile b <> CHECKPOINT_PROFILE)
  then Err (InvalidField "schema_or_profile")
  else
    check! validate_material (material_of_body b) in
    check! normalized (mb_signer_id b) "signer_id" in
    check! normalized (mb_key_id b) "key_id" in
    check! validate_expiry (mb_expires_at_ms b) (mb_issued_at_ms b) in
    validate_optional (mb_previous_checkpoint_ref b) "previous_checkpoint_ref".

(** ** Hexadecimal *)
Definition encode_hex (b : bytes) : string := of_bytes (hex_bytes b).

Definition decode_hex (value label : string) : cresult bytes :=
  let b := as_bytes value in
  if bool_decide (length b `mod` 2 <> 0) || negb (forallb is_ascii_hexdigit b)
  then Err (InvalidHex label) else Ok (unhex b).

Definition decode_fixed (n : nat) (value label : string) : cresult bytes :=
  let! b := decode_hex value label in
  if decide (length b = n) then Ok b else Err (InvalidHex label).

(** ** Keys *)
Definition is_some_and (o : option Z) (f : Z -> bool) : bool :=
  match o with
  | Some x => f x
  | None => false
  end.

Definition validate_trusted_key (k : TrustedCheckpointKey) : cresult unit :=
  check! normalized (tk_signer_id k) "signer_id" in
  check! normalized (tk_key_id k) "key_id" in
  check! decode_fixed 32 (tk_public_key_hex k) "public_key_hex" in
  if is_some_and (tk_valid_until_ms k) (fun u => u <? tk_valid_from_ms k)%Z
  then Err (InvalidField "valid_until_ms") else Ok tt.

(** [format!("{signer_id}\0{key_id}")]. *)
Definition key_slot (signer_id key_id : string) : string :=
  of_bytes (as_bytes signer_id ++ Byte.x00 :: as_bytes key_id).

Definition registry_insert (r : TrustedKeyRegistry) (k : TrustedCheckpointKey)
  : cresult TrustedKeyRegistry :=
  check! validate_trusted_key k in
  Ok (mkRegistry (<[key_slot (tk_signer_id k) (tk_key_id k) := k]> (keys r))).

Definition registry_get (r : TrustedKeyRegistry) (signer_id key_id : string)
  : option TrustedCheckpointKey :=
  keys r !! key_slot signer_id key_id.

Definition validate_anchor (a : ExternalAnchor) : cresult unit :=
  check! normalized (ea_provider_profile a) "provider_profile" in
  check! normalized (ea_anchor_id a) "anchor_id" in
  check! validate_ref (ea_checkpoint_ref a) "checkpoint_ref" in
  check! validate_ref (ea_storage_root_identity a) "storage_root_identity" in
  check! validate_ref (ea_event_chain_head a) "event_chain_head" in
  if (ea_last_sequence a =? 0)%Z then Err (InvalidField "last_sequence") else Ok tt.

(** [(a, b) <= (c, d)] on pairs of integers. *)
Definition pair_leb (a b c d : Z) : bool := (a <? c)%Z || ((a =? c)%Z && (b <=? d)%Z).

Section checkpoint.
Context `{Sha256, Ed25519, Cbor CheckpointManifestBody}.

(** ** Signing *)
Definition canonical_bytes (b : CheckpointManifestBody) : cresult bytes :=
  map_err CpEncoding (to_vec b).

Definition from_seed (signer_id key_id : string) (seed : bytes) : cresult CheckpointSigner :=
  let! s := normalized signer_id "signer_id" in
  let! k := normalized key_id "key_id" in
  Ok (mkSigner s k seed).

Definition from_seed_hex (signer_id key_id seed_hex : string) : cresult CheckpointSigner :=
  let! seed := decode_fixed 32 seed_hex "seed_hex" in
  from_seed signer_id key_id seed.

Definition public_key_hex (s : CheckpointSigner) : string :=
  encode_hex (verifying_key (cs_signing_key s)).

Definition trusted_key (s : CheckpointSigner) (valid_from : Z) (valid_until revoked_at : option Z)
  : TrustedCheckpointKey :=
  mkKey (cs_signer_id s) (cs_key_id s) (public_key_hex s) valid_from valid_until revoked_at.

Definition sign (s : CheckpointSigner) (m : CheckpointMaterial) (issued_at : Z)
    (expires_at : option Z) (previous : option string) : cresult SignedCheckpointManifest :=
  check! validate_material m in
  check! validate_expiry expires_at issued_at in
  check! validate_optional previous "previous_checkpoint_ref" in
  let body := mkManifestBody CHECKPOINT_SCHEMA CHECKPOINT_PROFILE (cm_ledger_profile m)
                (cm_storage_root_identity m) (cm_event_chain_head m) (cm_last_sequence m)
                (cm_wal_segment m) (cm_wal_offset m) (cm_projection_digest m)
                (cm_snapshot_digest m) (cs_signer_id s) (cs_key_id s) issued_at expires_at previous in
  let! message := canonical_bytes body in
  Ok (mkManifest body (sha256_ref message) SIGNATURE_ALGORITHM
        (encode_hex (ed_sign (cs_signing_key s) message))).

(** ** Verification *)
Definition verify_signed_checkpoint (m : SignedCheckpointManifest) (r : TrustedKeyRegistry)
    (now : Z) : cresult unit :=
  let body := sm_body m in
  check! validate_manifest_body body in
  if decide (sm_signature_algorithm m = SIGNATURE_ALGORITHM) then
    let! message := canonical_bytes body in
    if decide (sm_manifest_ref m = sha256_ref message) then
      let! key := ok_or (registry_get r (mb_signer_id body) (mb_key_id body)) UnknownKey in
      if (now <? mb_issued_at_ms body)%Z then Err CheckpointFromFuture
      else if (now <? tk_valid_from_ms key)%Z then Err KeyNotYetValid
      else if is_some_and (tk_valid_until_ms key) (fun u => u <? now)%Z then Err KeyExpired
      else if is_some_and (tk_revoked_at_ms key) (fun v => v <=? now)%Z then Err KeyRevoked
      else if is_some_and (mb_expires_at_ms body) (fun e => e <? now)%Z then Err CheckpointExpired
      else
        let! public_key := decode_fixed 32 (tk_public_key_hex key) "public_key_hex" in
        if valid_public_key public_key then
          let! signature := decode_hex (sm_signature_hex m) "signature_hex" in
          if decide (length signature = 64) then
            if ed_verify public_key message signature then Ok tt
            else Err SignatureVerificationFailed
          else Err (InvalidHex "signature_hex")
        else Err (InvalidHex "public_key_hex")
    else Err ManifestReferenceMismatch
  else Err UnsupportedSignatureAlgorithm.

(** The body of the loop over [manifests.windows(2)]. *)
Definition verify_pair (pair : SignedCheckpointManifest * SignedCheckpointManifest)
  : cresult unit :=
  let previous := sm_body pair.1 in
  let current := sm_body pair.2 in
  if bool_decide (mb_ledger_profile current <> mb_ledger_profile previous)
     || bool_decide (mb_storage_root_identity current <> mb_storage_root_identity previous)
     || bool_decide (mb_signer_id current <> mb_signer_id previous)
  then Err ChainIdentityMismatch
  else if decide (mb_previous_checkpoint_ref current = Some (sm_manifest_ref pair.1)) then
    if (mb_last_sequence current <=? mb_last_sequence previous)%Z
       || pair_leb (mb_wal_segment current) (mb_wal_offset current)
            (mb_wal_segment previous) (mb_wal_offset previous)
       || (mb_issued_at_ms current <? mb_issued_at_ms previous)%Z
    then Err NonMonotonicCheckpoint
    else if decide (mb_event_chain_head current = mb_event_chain_head previous)
         then Err LedgerHeadNotAdvanced
         else Ok tt
  else Err PreviousCheckpointMismatch.

Definition check_anchor (manifests : list SignedCheckpointManifest)
    (latest : SignedCheckpointManifest) (a : ExternalAnchor) : cresult unit :=
  check! validate_anchor a in
  if (mb_last_sequence (sm_body latest) <? ea_last_sequence a)%Z then Err ExternalAnchorRollback
  else
    match List.find (fun m => bool_decide (sm_manifest_ref m = ea_checkpoint_ref a)) manifests with
    | None =>
        if existsb (fun m => (mb_last_sequence (sm_body m) =? ea_last_sequence a)%Z
                     && (bool_decide (mb_event_chain_head (sm_body m) <> ea_event_chain_head a)
                         || bool_decide (mb_storage_root_identity (sm_body m)
                                         <> ea_storage_root_identity a))) manifests
        then Err ExternalAnchorFork else Err ExternalAnchorNotInChain
    | Some m =>
        if bool_decide (mb_storage_root_identity (sm_body m) <> ea_storage_root_identity a)
           || bool_decide (mb_event_chain_head (sm_body m) <> ea_event_chain_head a)
           || negb (mb_last_sequence (sm_body m) =? ea_last_sequence a)%Z
        then Err ExternalAnchorFork else Ok tt
    end.

Definition verify_checkpoint_chain (manifests : list SignedCheckpointManifest)
    (r : TrustedKeyRegistry) (latest_anchor : option ExternalAnchor) (now : Z)
  : cresult VerifiedCheckpointChain :=
  match manifests, last manifests with
  | first :: _, Some latest =>
      check! for_each (fun m => verify_signed_checkpoint m r now) manifests in
      check! for_each verify_pair (windows2 manifests) in
      check! match latest_anchor with
             | Some a => check_anchor manifests latest a
             | None => Ok tt
             end in
      Ok (mkVerified
            (match latest_anchor with
             | Some _ => ExternalAnchorVerified
             | None => LocalSignatureOnly
             end)
            (mb_storage_root_identity (sm_body latest)) (sm_manifest_ref first)
            (sm_manifest_ref latest) (mb_event_chain_head (sm_body latest))
            (mb_last_sequence (sm_body latest)) (length manifests)
            (ea_anchor_id <$> latest_anchor))
  | _, _ => Err EmptyChain
  end.
End checkpoint.

Section material.
Context `{Crc32, Sha256, Cbor ProjectionDigestMaterial}.
Context (ledger_message : TransitionLedgerError -> string).

(** [CheckpointLedgerExt::checkpoint_material]; the snapshot path of a ledger is
    [SNAPSHOT_FILE]. *)
Definition checkpoint_material (l : TrustworthyTransitionLedger) (storage_root_identity : string)
    (snapshot : TransitionLedgerSnapshotInfo) : cresult CheckpointMaterial :=
  check! validate_ref storage_root_identity "storage_root_identity" in
  check! validate_ref (in_snapshot_digest snapshot) "snapshot_digest" in
  let! head := ok_or (head_event_hash (lg_state l)) MissingLedgerHead in
  check! validate_ref head "event_chain_head" in
  let! pd := map_err (fun e => CpEncoding (ledger_message e)) (projection_digest (lg_state l)) in
  if bool_decide (in_path snapshot <> SNAPSHOT_FILE)
     || negb (in_event_count snapshot =? event_count l)%Z
     || bool_decide (in_projection_count snapshot <> size (projections (lg_state l)))
     || bool_decide (in_head_event_hash snapshot <> Some head)
     || bool_decide (in_projection_digest snapshot <> pd)
  then Err SnapshotStateMismatch
  else
    Ok (mkCpMaterial LEDGER_PROFILE storage_root_identity head (event_count l)
          (segment (in_offset snapshot)) (position (in_offset snapshot)) pd
          (in_snapshot_digest snapshot)).
End material.
