(* ===== verification/CheckpointProps.v ===== *)
(** * Properties of signed checkpoints

    Signing and verification agree; a verified chain advances strictly and is bound by its latest
    reference; an external anchor excludes rollback and forks; a checkpoint of a ledger describes
    the ledger; key slots. *)

From stdpp Require Import prelude gmap strings list fin_maps sorting.
From Stdlib Require Import ZArith Lia.
From S2P Require Import Prelude RustStr Wal WalSpec WalRead WalProps Crypto Transition TransitionCodec TransitionInv SnapshotDurability Ledger LedgerProps Checkpoint.

(** ** Hexadecimal round trip *)
Lemma decode_encode_hex b label : decode_hex (encode_hex b) label = Ok b.
Proof.
  unfold decode_hex, encode_hex. rewrite as_of_bytes.
  assert (forallb is_ascii_hexdigit (hex_bytes b) = true) as ->.
  { pose proof (hex_bytes_lower b) as Hl. rewrite forallb_forall in *. intros x Hx.
    unfold is_ascii_hexdigit. by rewrite (Hl x Hx). }
  rewrite length_hex_bytes, bool_decide_eq_false_2; [by rewrite unhex_hex |].
  intros Hm. apply Hm. rewrite Nat.mul_comm. apply Nat.Div0.mod_mul.
Qed.

Lemma decode_fixed_encode n b label : length b = n -> decode_fixed n (encode_hex b) label = Ok b.
Proof. intros Hn. unfold decode_fixed. rewrite decode_encode_hex. cbn [rbind]. by rewrite decide_True. Qed.

(** ** The declarative meaning of a link between checkpoints *)

(** [c] is a later checkpoint of the same ledger and signer. *)
Record advances (p c : SignedCheckpointManifest) : Prop := {
  ad_profile : mb_ledger_profile (sm_body c) = mb_ledger_profile (sm_body p);
  ad_root : mb_storage_root_identity (sm_body c) = mb_storage_root_identity (sm_body p);
  ad_signer : mb_signer_id (sm_body c) = mb_signer_id (sm_body p);
  ad_sequence : (mb_last_sequence (sm_body p) < mb_last_sequence (sm_body c))%Z;
  ad_wal : (mb_wal_segment (sm_body p) < mb_wal_segment (sm_body c))%Z \/
           (mb_wal_segment (sm_body p) = mb_wal_segment (sm_body c) /\
            mb_wal_offset (sm_body p) < mb_wal_offset (sm_body c))%Z;
  ad_issued : (mb_issued_at_ms (sm_body p) <= mb_issued_at_ms (sm_body c))%Z
}.

Global Instance advances_trans : Transitive advances.
Proof. intros a b c [] []. split; try congruence; lia. Qed.

(** [c] directly follows [p] in a chain. *)
Definition follows (p c : SignedCheckpointManifest) : Prop :=
  advances p c /\ mb_previous_checkpoint_ref (sm_body c) = Some (sm_manifest_ref p) /\
  mb_event_chain_head (sm_body c) <> mb_event_chain_head (sm_body p).

Lemma pair_leb_false a b c d :
  pair_leb a b c d = false <-> (c < a)%Z \/ (c = a /\ d < b)%Z.
Proof.
  unfold pair_leb. rewrite orb_false_iff, andb_false_iff, Z.ltb_ge, Z.eqb_neq, Z.leb_gt. lia.
Qed.

Lemma verify_pair_spec p c : verify_pair (p, c) = Ok tt <-> follows p c.
Proof.
  unfold verify_pair, follows. cbn [fst snd]. split.
  - intros Hv. rinv Hv. bool_prop. repeat match goal with
      | E : bool_decide _ = false |- _ => apply bool_decide_eq_false, dec_stable in E
      | E : ~ (_ <> _) |- _ => apply dec_stable in E
      | E : pair_leb _ _ _ _ = false |- _ => apply pair_leb_false in E end.
    split_and!; [| done | done]. by split.
  - intros ([Hp Hr Hs Hq Hw Hi] & Hprev & Hh).
    rewrite !(bool_decide_eq_false_2 (_ <> _)) by naive_solver. cbn [orb].
    rewrite decide_True by done.
    assert ((mb_last_sequence (sm_body c) <=? mb_last_sequence (sm_body p))%Z = false) as ->
      by (apply Z.leb_gt; lia).
    assert ((mb_issued_at_ms (sm_body c) <? mb_issued_at_ms (sm_body p))%Z = false) as ->
      by (apply Z.ltb_ge; lia).
    rewrite (proj2 (pair_leb_false _ _ _ _)) by done. cbn [orb]. by rewrite decide_False.
Qed.

(** Consecutive links make a strongly sorted chain. *)
Lemma chain_sorted ms :
  Forall (fun pc => verify_pair pc = Ok tt) (windows2 ms) -> StronglySorted advances ms.
Proof.
  intros Hw. apply Sorted_StronglySorted; [apply _ |].
  induction ms as [|m [|m' ms] IH]; [constructor | by repeat constructor |].
  rewrite windows2_cons2 in Hw. apply Forall_cons in Hw as [Hm Hw].
  constructor; [by apply IH |]. constructor. by apply verify_pair_spec in Hm as [? _].
Qed.

Lemma sorted_lookup {A} (R : relation A) l i j x y :
  StronglySorted R l -> i < j -> l !! i = Some x -> l !! j = Some y -> R x y.
Proof.
  intros Hs. revert i j. induction Hs as [|a l Hs IH Ha]; intros i j Hij Hi Hj; [done |].
  destruct j as [|j]; [lia |]. destruct i as [|i]; cbn in *.
  - injection Hi as <-. rewrite Forall_forall in Ha. apply Ha. by eapply list_elem_of_lookup_2.
  - eapply IH; [| done | done]. lia.
Qed.

Section props.
Context `{Sha256, Ed25519, Cbor CheckpointManifestBody}.

(** ** What verification establishes *)
Lemma verify_chain_inv ms r anchor now v :
  verify_checkpoint_chain ms r anchor now = Ok v ->
  exists first latest, head ms = Some first /\ last ms = Some latest /\
    Forall (fun m => verify_signed_checkpoint m r now = Ok tt) ms /\
    Forall (fun pc => verify_pair pc = Ok tt) (windows2 ms) /\
    (forall a, anchor = Some a -> check_anchor ms latest a = Ok tt) /\
    vc_first_checkpoint_ref v = sm_manifest_ref first /\
    vc_latest_checkpoint_ref v = sm_manifest_ref latest /\
    vc_latest_event_chain_head v = mb_event_chain_head (sm_body latest) /\
    vc_latest_sequence v = mb_last_sequence (sm_body latest) /\
    vc_checkpoint_count v = length ms.
Proof.
  unfold verify_checkpoint_chain. destruct ms as [|first ms]; [done |].
  destruct (last (first :: ms)) as [latest|]; [| done]. intros Hv. rinv Hv. injection Hv as <-.
  repeat match goal with u : unit |- _ => destruct u end.
  exists first, latest. split_and!; try done; try by apply for_each_ok. by intros a ->.
Qed.

(** The reference of a verified manifest is the hash of its body. *)
Lemma verified_ref m r now :
  verify_signed_checkpoint m r now = Ok tt ->
  digest_cbor (E := CheckpointError) CpEncoding (sm_body m) = Ok (sm_manifest_ref m).
Proof.
  unfold verify_signed_checkpoint, digest_cbor, canonical_bytes. intros Hv. rinv Hv.
  repeat match goal with E : map_err _ _ = Ok _ |- _ => rewrite E; clear E end. cbn [rbind].
  by match goal with E : decide (sm_manifest_ref m = _) = _ |- _ => clear E end; f_equal.
Qed.

Lemma windows2_snoc {A} (l : list A) x y : windows2 (l ++ [x; y]) = windows2 (l ++ [x]) ++ [(x, y)].
Proof.
  induction l as [|a l IH]; [done |].
  destruct l as [|b l]; [done |]. cbn [app]. rewrite !windows2_cons2. cbn [app] in IH. by rewrite IH.
Qed.

(** ** The anchor *)
Lemma check_anchor_ok ms latest a :
  check_anchor ms latest a = Ok tt ->
  (ea_last_sequence a <= mb_last_sequence (sm_body latest))%Z /\
  exists m, m ∈ ms /\ sm_manifest_ref m = ea_checkpoint_ref a /\
    mb_storage_root_identity (sm_body m) = ea_storage_root_identity a /\
    mb_event_chain_head (sm_body m) = ea_event_chain_head a /\
    mb_last_sequence (sm_body m) = ea_last_sequence a.
Proof.
  unfold check_anchor. intros Hv. rinv Hv. destruct (List.find _ ms) as [m|] eqn:Ef; [| by case_match].
  apply List.find_some in Ef as [Hin Href]. rinv Hv. bool_prop. split; [done |]. exists m.
  split_and!; try done; try by apply dec_stable. by apply list_elem_of_In.
Qed.

(** ** Binding by the latest reference *)

(** The manifests carry the hashes of their bodies and are linked by them. *)
Definition hash_linked (ms : list SignedCheckpointManifest) : Prop :=
  Forall (fun m => digest_cbor (E := CheckpointError) CpEncoding (sm_body m)
                   = Ok (sm_manifest_ref m)) ms /\
  Forall (fun pc => verify_pair pc = Ok tt) (windows2 ms).

Lemma hash_linked_snoc ms x y :
  hash_linked (ms ++ [x; y]) ->
  hash_linked (ms ++ [x]) /\ mb_previous_checkpoint_ref (sm_body y) = Some (sm_manifest_ref x).
Proof.
  intros [Hd Hw]. rewrite windows2_snoc in Hw. apply Forall_app in Hw as [Hw Hxy].
  apply Forall_cons in Hxy as [Hxy _]. apply verify_pair_spec in Hxy as (_ & Hp & _).
  split; [| done]. split; [| done].
  rewrite !Forall_app, !Forall_cons in Hd |- *. naive_solver.
Qed.

Lemma chain_binds `{!CborOk CheckpointManifestBody} ms1 : forall x ms2 y,
  hash_linked (ms1 ++ [x]) -> hash_linked (ms2 ++ [y]) ->
  sm_manifest_ref x = sm_manifest_ref y ->
  (sm_body <$> ms1 ++ [x]) `suffix_of` (sm_body <$> ms2 ++ [y]) \/
  (sm_body <$> ms2 ++ [y]) `suffix_of` (sm_body <$> ms1 ++ [x]) \/
  exists m1 m2, m1 ∈ ms1 ++ [x] /\ m2 ∈ ms2 ++ [y] /\ collision (sm_body m1) (sm_body m2).
Proof.
  induction ms1 as [|x' ms1 IH] using rev_ind; intros x ms2 y H1' H2' Href.
  all: assert (digest_cbor (E := CheckpointError) CpEncoding (sm_body x) = Ok (sm_manifest_ref x)) as D1
    by (destruct H1' as [Hd _]; rewrite !Forall_app, !Forall_cons in Hd; naive_solver).
  all: assert (digest_cbor (E := CheckpointError) CpEncoding (sm_body y) = Ok (sm_manifest_ref y)) as D2
    by (destruct H2' as [Hd _]; rewrite !Forall_app, !Forall_cons in Hd; naive_solver).
  all: rewrite <- Href in D2; destruct (digest_cbor_eq _ _ _ _ D1 D2) as [Hb | Hc];
    [| right; right; exists x, y; set_solver].
  - left. rewrite !fmap_app. cbn. rewrite Hb. by apply suffix_app_r.
  - destruct ms2 as [|y' ms2 _] using rev_ind.
    { right. left. rewrite !fmap_app. cbn. rewrite Hb. by apply suffix_app_r. }
    rewrite <- (app_assoc ms1) in H1'. rewrite <- (app_assoc ms2) in H2'. cbn [app] in *.
    apply hash_linked_snoc in H1' as [L1 P1], H2' as [L2 P2].
    rewrite Hb in P1. rewrite P1 in P2. injection P2 as P2.
    rewrite !(fmap_app _ _ [x]), !(fmap_app _ _ [y]). cbn [fmap list_fmap]. rewrite Hb.
    destruct (IH x' ms2 y' L1 L2 P2) as [Hs | [Hs | (m1 & m2 & ? & ? & ?)]].
    + left. by apply suffix_app.
    + right. left. by apply suffix_app.
    + right. right. exists m1, m2. set_solver.
Qed.

Lemma verified_hash_linked ms r anchor now v :
  verify_checkpoint_chain ms r anchor now = Ok v ->
  hash_linked ms /\ exists ms' x, ms = ms' ++ [x] /\ vc_latest_checkpoint_ref v = sm_manifest_ref x.
Proof.
  intros (first & latest & _ & Hl & Hv & Hw & _ & _ & Hr & _)%verify_chain_inv. split.
  - split; [| done]. eapply Forall_impl; [exact Hv |]. intros m. by apply verified_ref.
  - apply last_Some in Hl as [ms' ->]. eauto.
Qed.

(** ** Signing *)
Lemma from_seed_normalized signer key seed s :
  from_seed signer key seed = Ok s ->
  (forall label, is_ok (normalized (cs_signer_id s) label) = true) /\
  (forall label, is_ok (normalized (cs_key_id s) label) = true) /\ cs_signing_key s = seed.
Proof.
  assert (forall v l w, normalized v l = Ok w -> forall label, is_ok (normalized w label) = true)
    as Hn.
  { unfold normalized. intros v l w Hv label. case_decide as Hw; [done |]. injection Hv as <-.
    by rewrite trim_idemp, decide_False. }
  unfold from_seed. intros Hf. rinv Hf. injection Hf as <-. cbn. split_and!; eauto.
Qed.

(** The time conditions under which a key vouches for a manifest. *)
Definition key_in_force (issued : Z) (expires : option Z) (valid_from : Z)
    (valid_until revoked_at : option Z) (now : Z) : Prop :=
  (issued <= now)%Z /\ (valid_from <= now)%Z /\
  (forall u, valid_until = Some u -> (now <= u)%Z) /\
  (forall v, revoked_at = Some v -> (now < v)%Z) /\
  (forall e, expires = Some e -> (now <= e)%Z).

Lemma is_some_and_false o f : is_some_and o f = false <-> forall x, o = Some x -> f x = false.
Proof. destruct o as [x|]; cbn; naive_solver. Qed.

(** Signing, then verifying. *)
Lemma sign_verifies `{!Sha256Ok, !Ed25519Ok} signer key seed s m issued expires previous
    manifest r valid_from valid_until revoked_at now :
  from_seed signer key seed = Ok s -> sign s m issued expires previous = Ok manifest ->
  registry_get r (cs_signer_id s) (cs_key_id s)
    = Some (trusted_key s valid_from valid_until revoked_at) ->
  key_in_force issued expires valid_from valid_until revoked_at now ->
  verify_signed_checkpoint manifest r now = Ok tt.
Proof.
  intros Hs Hsign Hget (Hi & Hvf & Hvu & Hrv & Hex).
  destruct (from_seed_normalized _ _ _ _ Hs) as (Hn1 & Hn2 & _).
  unfold sign in Hsign. cbv zeta in Hsign. rinv Hsign. injection Hsign as <-.
  repeat match goal with u : unit |- _ => destruct u end.
  unfold verify_signed_checkpoint. cbn [sm_body sm_manifest_ref sm_signature_algorithm sm_signature_hex].
  assert (forall b, mb_schema b = CHECKPOINT_SCHEMA -> mb_checkpoint_profile b = CHECKPOINT_PROFILE ->
            material_of_body b = m -> mb_signer_id b = cs_signer_id s -> mb_key_id b = cs_key_id s ->
            mb_issued_at_ms b = issued -> mb_expires_at_ms b = expires ->
            mb_previous_checkpoint_ref b = previous -> validate_manifest_body b = Ok tt) as Hvalid.
  { intros b B1 B2 B3 B4 B5 B6 B7 B8. unfold validate_manifest_body.
    rewrite B1, B2, !(bool_decide_eq_false_2 (_ <> _)) by naive_solver. cbn [orb].
    rewrite B3, B4, B5, B6, B7, B8, E. cbn [rbind].
    specialize (Hn1 "signer_id"). specialize (Hn2 "key_id").
    destruct (normalized (cs_signer_id s) _); [| done]. destruct (normalized (cs_key_id s) _); [| done].
    cbn [rbind]. rewrite E0. cbn [rbind]. exact E1. }
  rewrite Hvalid; [| done | done | by destruct m | done ..]. cbn [rbind].
  rewrite decide_True by done. rewrite E2. cbn [rbind]. rewrite decide_True by done.
  cbn [mb_signer_id mb_key_id mb_issued_at_ms mb_expires_at_ms]. rewrite Hget. cbn [ok_or rbind].
  unfold trusted_key. cbn [tk_valid_from_ms tk_valid_until_ms tk_revoked_at_ms tk_public_key_hex].
  rewrite (proj2 (Z.ltb_ge _ _)) by done. rewrite (proj2 (Z.ltb_ge _ _)) by done.
  rewrite (proj2 (is_some_and_false valid_until _)) by (intros x Hx; apply Z.ltb_ge; auto).
  rewrite (proj2 (is_some_and_false revoked_at _)) by (intros x Hx; apply Z.leb_gt; auto).
  rewrite (proj2 (is_some_and_false expires _)) by (intros x Hx; apply Z.ltb_ge; auto).
  unfold public_key_hex. rewrite decode_fixed_encode by apply verifying_key_length. cbn [rbind].
  rewrite verifying_key_valid, decode_encode_hex. cbn [rbind].
  rewrite decide_True by apply signature_length. by rewrite verify_sign.
Qed.

(** What a signer signs verifies. A manifest signed with a key made from a 32-byte seed passes
    verification against any registry that trusts that key, at every time at which the manifest
    has been issued and has not expired and the key is valid and not revoked. *)
Theorem checkpoint_sign_verify `{!Sha256Ok, !Ed25519Ok} signer key seed s m issued expires previous
    manifest r valid_from valid_until revoked_at now :
  from_seed signer key seed = Ok s -> sign s m issued expires previous = Ok manifest ->
  registry_get r (cs_signer_id s) (cs_key_id s)
    = Some (trusted_key s valid_from valid_until revoked_at) ->
  key_in_force issued expires valid_from valid_until revoked_at now ->
  verify_signed_checkpoint manifest r now = Ok tt.
Proof. apply sign_verifies. Qed.

(** A verified chain is a strictly advancing history of one ledger by one signer. Between any
    two of its checkpoints, not only neighbours, the sequence number and the WAL position
    increase, the issue time does not decrease, and ledger, storage root and signer are the same;
    each checkpoint names its predecessor by the hash of its body, and the summary describes the
    last one. *)
Theorem checkpoint_chain_advances ms r anchor now v :
  verify_checkpoint_chain ms r anchor now = Ok v ->
  StronglySorted advances ms /\ hash_linked ms /\
  (exists first latest, head ms = Some first /\ last ms = Some latest /\
     vc_first_checkpoint_ref v = sm_manifest_ref first /\
     vc_latest_checkpoint_ref v = sm_manifest_ref latest /\
     vc_latest_event_chain_head v = mb_event_chain_head (sm_body latest) /\
     vc_latest_sequence v = mb_last_sequence (sm_body latest) /\
     vc_checkpoint_count v = length ms /\
     forall m, m ∈ ms -> (mb_last_sequence (sm_body m) <= vc_latest_sequence v)%Z).
Proof.
  intros Hv. destruct (verified_hash_linked _ _ _ _ _ Hv) as [Hh _].
  apply verify_chain_inv in Hv as (first & latest & Hf & Hl & _ & Hw & _ & V1 & V2 & V3 & V4 & V5).
  pose proof (chain_sorted _ Hw) as Hs. split_and!; try done. exists first, latest.
  split_and!; try done. intros m Hm. rewrite V4.
  apply last_Some in Hl as [ms' ->]. apply elem_of_app in Hm as [Hm | Hm].
  - apply StronglySorted_app in Hs as (Hms & _ & _).
    destruct (Hms m latest Hm ltac:(set_solver)). lia.
  - apply list_elem_of_singleton in Hm as ->. lia.
Qed.

(** C10: an external anchor excludes rollback and forks. When a chain verifies against an anchor,
    it reaches at least the anchored sequence number, the anchored checkpoint is in it with the
    anchored ledger, head and sequence, and it is the only checkpoint of the chain with that
    sequence number. *)
Theorem checkpoint_anti_rollback ms r a now v :
  verify_checkpoint_chain ms r (Some a) now = Ok v ->
  (ea_last_sequence a <= vc_latest_sequence v)%Z /\
  exists m, m ∈ ms /\ sm_manifest_ref m = ea_checkpoint_ref a /\
    mb_storage_root_identity (sm_body m) = ea_storage_root_identity a /\
    mb_event_chain_head (sm_body m) = ea_event_chain_head a /\
    mb_last_sequence (sm_body m) = ea_last_sequence a /\
    forall m', m' ∈ ms -> mb_last_sequence (sm_body m') = ea_last_sequence a -> m' = m.
Proof.
  intros (first & latest & _ & Hl & _ & Hw & Ha & _ & _ & _ & V4 & _)%verify_chain_inv.
  destruct (check_anchor_ok _ _ _ (Ha a eq_refl)) as (Hle & m & Hm & R1 & R2 & R3 & R4).
  rewrite V4. split; [done |]. exists m. split_and!; try done. intros m' Hm' Hq.
  pose proof (chain_sorted _ Hw) as Hs.
  apply list_elem_of_lookup in Hm as [i Hi], Hm' as [j Hj].
  destruct (decide (i = j)) as [-> | Hne]; [congruence |].
  destruct (decide (i < j)).
  - destruct (sorted_lookup _ _ i j _ _ Hs ltac:(lia) Hi Hj). lia.
  - destruct (sorted_lookup _ _ j i _ _ Hs ltac:(lia) Hj Hi). lia.
Qed.

(** The latest reference binds the chain. Two verified chains with the same latest checkpoint
    reference contain the same manifest bodies as far as the shorter one goes back, or two of
    their bodies are an explicit collision of the hash function. *)
Theorem checkpoint_chain_binding `{!CborOk CheckpointManifestBody} ms1 r1 a1 now1 v1 ms2 r2 a2 now2 v2 :
  verify_checkpoint_chain ms1 r1 a1 now1 = Ok v1 ->
  verify_checkpoint_chain ms2 r2 a2 now2 = Ok v2 ->
  vc_latest_checkpoint_ref v1 = vc_latest_checkpoint_ref v2 ->
  (sm_body <$> ms1) `suffix_of` (sm_body <$> ms2) \/
  (sm_body <$> ms2) `suffix_of` (sm_body <$> ms1) \/
  exists m1 m2, m1 ∈ ms1 /\ m2 ∈ ms2 /\ collision (sm_body m1) (sm_body m2).
Proof.
  intros (L1 & l1 & x & -> & R1)%verified_hash_linked (L2 & l2 & y & -> & R2)%verified_hash_linked Hr.
  apply chain_binds; [done | done | congruence].
Qed.
End props.

(** ** Checkpoints of a ledger *)
Section ledger.
Context `{Crc32, !Crc32Ok, Sha256, !Sha256Ok, Cbor TransitionEventBody, Cbor TransitionEvent,
          !CborOk TransitionEvent, Cbor ProjectionDigestMaterial,
          Cbor TransitionLedgerSnapshotBody, Cbor TransitionLedgerSnapshot,
          !CborOk TransitionLedgerSnapshot}.
Context (wal_message : WalError -> string) (ledger_message : TransitionLedgerError -> string).

Lemma fs_bind_done {A B} (m : fs A) (k : A -> fs B) F d n d' n' b :
  fs_bind m k F d n = Done d' n' b ->
  exists d1 n1 a, m F d n = Done d1 n1 a /\ k a F d1 n1 = Done d' n' b.
Proof. unfold fs_bind. destruct (m F d n); naive_solver. Qed.

(** What a snapshot writer reports is the snapshot it built. *)
Lemma write_snapshot_info l t F d n d' n' info :
  write_snapshot l t F d n = Done d' n' (Ok info) ->
  exists snap b, build_snapshot l t = Ok (snap, b) /\ info = snapshot_info l snap.
Proof.
  unfold write_snapshot. destruct (build_snapshot l t) as [[snap b]|e]; [| done].
  intros (d1 & n1 & [e|] & _ & Hr)%fs_bind_done; [done |]. injection Hr as _ _ <-. eauto.
Qed.

Lemma snapshot_writer_info l t c F d n d' n' info :
  snapshot_writer l t c F d n = Done d' n' (Ok info) ->
  exists snap b, build_snapshot l t = Ok (snap, b) /\ info = snapshot_info l snap.
Proof.
  destruct c; [| apply write_snapshot_info]. cbn [snapshot_writer]. unfold write_snapshot_crash_safe.
  intros (d1 & n1 & [] & _ & Hr)%fs_bind_done.
  apply fs_bind_done in Hr as (d2 & n2 & p & _ & Hr).
  apply fs_bind_done in Hr as (d3 & n3 & u & _ & Hr).
  apply fs_bind_done in Hr as (d4 & n4 & [i|e] & Hw & Hr).
  - apply fs_bind_done in Hr as (d5 & n5 & u5 & _ & Hr).
    apply fs_bind_done in Hr as (d6 & n6 & u6 & _ & Hr).
    apply fs_bind_done in Hr as (d7 & n7 & u7 & _ & Hr).
    injection Hr as _ _ <-. by eapply write_snapshot_info.
  - apply fs_bind_done in Hr as (d5 & n5 & u5 & _ & Hr).
    apply fs_bind_done in Hr as (d6 & n6 & u6 & _ & Hr).
    by apply fs_bind_done in Hr as (d7 & n7 & u7 & _ & Hr).
Qed.

Lemma run_length n l evs : ledger_run wal_message n l evs -> length evs <= n.
Proof.
  induction 1; rewrite ?length_app; cbn; try lia.
  unfold after_failure. destruct (survivors [] [] fp); rewrite ?length_app; cbn; lia.
Qed.

Lemma run_event_count n l evs :
  ledger_run wal_message n l evs -> (Z.of_nat n < u64_size - 2)%Z ->
  event_count l = Z.of_nat (length evs) /\ head_event_hash (lg_state l) = e_event_hash <$> last evs.
Proof.
  intros Hrun Hn. pose proof (run_length _ _ _ Hrun) as Hlen.
  destruct (run_ledger_inv _ _ _ _ Hrun Hn) as (sg & s & ps & Hinv).
  destruct (describes_replay _ _ (li_state _ _ _ _ _ _ Hinv)) as [_ _ _ Hseq Hhead].
  split; [| done]. unfold event_count, u64_saturating_sub. rewrite Hseq.
  rewrite Z.mod_small by lia. lia.
Qed.

(** The material of a reported snapshot. *)
Lemma material_of_ledger n l evs ev t c F l' info root :
  ledger_run wal_message n l (evs ++ [ev]) -> (Z.of_nat n < u64_size - 2)%Z ->
  run_snapshot l (snapshot_writer l t c) F = (l', Some (Ok info)) -> is_sha256_ref root = true ->
  (exists m, checkpoint_material ledger_message l' root info = Ok m /\
     validate_material m = Ok tt /\
     cm_last_sequence m = Z.of_nat (length (evs ++ [ev])) /\
     cm_event_chain_head m = e_event_hash ev /\
     mkOffset (cm_wal_segment m) (cm_wal_offset m) = end_offset (lg_store l) /\
     projection_digest (lg_state l) = Ok (cm_projection_digest m)) /\
  (forall n2 l2 evs2, ledger_run wal_message n2 l2 evs2 -> (Z.of_nat n2 < u64_size - 2)%Z ->
     length evs2 <> length (evs ++ [ev]) ->
     exists e, checkpoint_material ledger_message l2 root info = Err e).
Proof.
  intros Hrun Hn Hsnap Hroot.
  destruct (run_event_count _ _ _ Hrun Hn) as [Hcount Hhead]. rewrite last_snoc in Hhead.
  cbn [fmap option_fmap option_map] in Hhead.
  destruct (run_ledger_inv _ _ _ _ Hrun Hn) as (sg & s & ps & Hinv).
  assert (state_ok (lg_state l)) as Hst.
  { eapply replay_ok; [apply default_ok | apply (li_state _ _ _ _ _ _ Hinv)]. }
  assert (lg_state l' = lg_state l /\ exists snap b, build_snapshot l t = Ok (snap, b) /\
            info = snapshot_info l snap) as (Hl' & snap & b & Hb & ->).
  { unfold run_snapshot in Hsnap. destruct (snapshot_writer l t c F _ 0) eqn:Ew; simplify_eq.
    split; [done |]. by eapply snapshot_writer_info. }
  unfold build_snapshot in Hb. cbv zeta in Hb. rinv Hb. injection Hb as <- <-.
  pose proof (digest_cbor_shape _ _ _ E0) as Hsd. pose proof E as Hpd.
  unfold projection_digest in E. apply digest_cbor_shape in E. split.
  - unfold checkpoint_material, snapshot_info. cbn [in_snapshot_digest in_path in_event_count
      in_projection_count in_head_event_hash in_projection_digest in_offset sn_snapshot_digest
      sn_body sb_head_event_hash sb_projection_digest sb_wal_offset].
    assert (event_count l' = event_count l) as Hc' by (unfold event_count; by rewrite Hl').
    rewrite Hl', Hhead, Hpd, Hc'. unfold validate_ref. rewrite Hroot, Hsd. cbn [rbind ok_or map_err].
    rewrite (sok_head_ref _ Hst _ Hhead). cbn [rbind].
    rewrite Z.eqb_refl, !bool_decide_eq_false_2 by naive_solver. cbn [orb negb].
    eexists. split; [done |]. cbn [cm_last_sequence cm_event_chain_head cm_wal_segment cm_wal_offset
      cm_projection_digest]. rewrite Hcount. split_and!; try done.
    unfold validate_material, validate_ref. cbn [cm_ledger_profile cm_storage_root_identity
      cm_event_chain_head cm_projection_digest cm_snapshot_digest cm_last_sequence].
    replace (normalized LEDGER_PROFILE "ledger_profile")
      with (Ok (E := CheckpointError) LEDGER_PROFILE) by (vm_compute; done).
    cbn [rbind]. rewrite Hroot, (sok_head_ref _ Hst _ Hhead), E, Hsd. cbn [rbind].
    by rewrite (proj2 (Z.eqb_neq _ _)) by (rewrite length_app; cbn; lia).
  - intros n2 l2 evs2 Hrun2 Hn2 Hlen. destruct (run_event_count _ _ _ Hrun2 Hn2) as [Hcount2 _].
    unfold checkpoint_material.
    destruct (validate_ref root _) as [[]|]; cbn [rbind]; [| eauto].
    destruct (validate_ref (in_snapshot_digest _) _) as [[]|]; cbn [rbind]; [| eauto].
    destruct (head_event_hash (lg_state l2)) as [h|]; cbn [ok_or rbind]; [| eauto].
    destruct (validate_ref h _) as [[]|]; cbn [rbind]; [| eauto].
    destruct (projection_digest (lg_state l2)) as [pd|]; cbn [map_err rbind]; [| eauto].
    assert ((in_event_count (snapshot_info l (mkSnapshot
      (mkSnapshotBody SNAPSHOT_SCHEMA PROFILE (snapshot_offset (end_offset (lg_store l)))
         (next_sequence (lg_state l)) (head_event_hash (lg_state l)) (projections (lg_state l))
         (record_owners (lg_state l)) a t) a0)) =? event_count l2)%Z = false) as ->.
    { unfold snapshot_info. cbn [in_event_count]. rewrite Hcount, Hcount2. apply Z.eqb_neq. lia. }
    cbn [negb]. rewrite orb_true_r. eauto.
Qed.

(** A checkpoint describes the ledger it was taken from, and only that. After a run with at
    least one event, the material derived from a snapshot that either writer reports is accepted,
    carries the number of events, the hash of the last event and the WAL end offset, and passes
    the signer's validation; the same report is refused for every reachable ledger with another
    number of events. *)
Theorem checkpoint_of_ledger n l evs ev t c F l' info root :
  ledger_run wal_message n l (evs ++ [ev]) -> (Z.of_nat n < u64_size - 2)%Z ->
  run_snapshot l (snapshot_writer l t c) F = (l', Some (Ok info)) -> is_sha256_ref root = true ->
  (exists m, checkpoint_material ledger_message l' root info = Ok m /\
     validate_material m = Ok tt /\
     cm_last_sequence m = Z.of_nat (length (evs ++ [ev])) /\
     cm_event_chain_head m = e_event_hash ev /\
     mkOffset (cm_wal_segment m) (cm_wal_offset m) = end_offset (lg_store l) /\
     projection_digest (lg_state l) = Ok (cm_projection_digest m)) /\
  (forall n2 l2 evs2, ledger_run wal_message n2 l2 evs2 -> (Z.of_nat n2 < u64_size - 2)%Z ->
     length evs2 <> length (evs ++ [ev]) ->
     exists e, checkpoint_material ledger_message l2 root info = Err e).
Proof. apply material_of_ledger. Qed.
End ledger.

(** ** Key slots *)
Definition nul_free (s : string) : Prop := Byte.x00 ∉ as_bytes s.

Lemma key_slot_inj s1 k1 s2 k2 :
  nul_free s1 -> nul_free s2 -> key_slot s1 k1 = key_slot s2 k2 -> s1 = s2 /\ k1 = k2.
Proof.
  unfold nul_free, key_slot. intros N1 N2 E%of_bytes_inj.
  assert (forall a b c d : bytes, Byte.x00 ∉ a -> Byte.x00 ∉ c ->
            a ++ Byte.x00 :: b = c ++ Byte.x00 :: d -> a = c /\ b = d) as Hsplit.
  { intros a b. induction a as [|x a IH]; intros [|y c] d Na Nc Ex; cbn in Ex; simplify_eq; try done.
    - set_solver.
    - set_solver.
    - destruct (IH c d) as [-> ->]; set_solver. }
  destruct (Hsplit _ _ _ _ N1 N2 E) as [Hs Hk]. split; by apply as_bytes_inj.
Qed.

(** The key registry is a map from (signer, key) pairs, for signer names without NUL bytes:
    inserting a valid key makes exactly that pair resolve to it and leaves every other pair
    alone, and an invalid key is refused. *)
Theorem checkpoint_registry_lookup r k signer key :
  nul_free (tk_signer_id k) -> nul_free signer ->
  match registry_insert r k with
  | Ok r' => registry_get r' signer key
             = (if decide (signer = tk_signer_id k /\ key = tk_key_id k) then Some k
                else registry_get r signer key)
  | Err e => validate_trusted_key k = Err e
  end.
Proof.
  intros N1 N2. unfold registry_insert.
  destruct (validate_trusted_key k) as [[]|]; cbn [rbind]; [| done].
  unfold registry_get. cbn [keys]. case_decide as Hd.
  - destruct Hd as [-> ->]. apply lookup_insert_eq.
  - apply lookup_insert_ne. intros E%key_slot_inj; naive_solver.
Qed.

(** ** Witnesses *)
Global Instance Ser_manifest_body : Ser CheckpointManifestBody :=
  Ser_via (fun b => (mb_schema b, mb_checkpoint_profile b, mb_ledger_profile b,
                     mb_storage_root_identity b, mb_event_chain_head b, mb_last_sequence b,
                     mb_wal_segment b, mb_wal_offset b, mb_projection_digest b, mb_snapshot_digest b,
                     mb_signer_id b, mb_key_id b, mb_issued_at_ms b, mb_expires_at_ms b,
                     mb_previous_checkpoint_ref b))
    (fun '(a, b, c, d, e, f, g, h, i, j, k, l, m, n, o) =>
       Some (mkManifestBody a b c d e f g h i j k l m n o)).
Global Instance Ser_manifest_body_ok : SerOk CheckpointManifestBody.
Proof. ser_enum. Qed.
Definition cbor_manifest_body : Cbor CheckpointManifestBody := Cbor_of _.
Definition cbor_manifest_body_ok : @CborOk _ cbor_manifest_body := Cbor_of_ok _.

Section witnesses.
Local Existing Instances ieee ieee_ok checksum_sha checksum_sha_ok toy_ed25519 toy_ed25519_ok
  cbor_body cbor_event cbor_event_ok cbor_material cbor_snapshot_body cbor_snapshot cbor_snapshot_ok
  cbor_manifest_body cbor_manifest_body_ok.

Definition w_material (n : Z) (head : string) : CheckpointMaterial :=
  mkCpMaterial LEDGER_PROFILE (ref_of "root") (ref_of head) n 1 (100 * n) (ref_of "p") (ref_of "s").
Definition w_signer : CheckpointSigner := mkSigner "ops" "k1" (replicate 32 Byte.x07).
Definition w_registry : TrustedKeyRegistry :=
  mkRegistry {[key_slot "ops" "k1" := trusted_key w_signer 0 (Some 900%Z) None]}.
Definition w_empty_manifest : SignedCheckpointManifest :=
  mkManifest (mkManifestBody "" "" "" "" "" 0 0 0 "" "" "" "" 0 None None) "" "" "".
Definition w_first : SignedCheckpointManifest :=
  Eval vm_compute in ok_or_default w_empty_manifest
    (sign w_signer (w_material 10 "head-10") 100 (Some 500%Z) None).
Definition w_second : SignedCheckpointManifest :=
  Eval vm_compute in ok_or_default w_empty_manifest
    (sign w_signer (w_material 20 "head-20") 200 (Some 600%Z) (Some (sm_manifest_ref w_first))).
Definition w_anchor : ExternalAnchor :=
  mkAnchor "registry.v0.1" "anchor-10" (sm_manifest_ref w_first) (ref_of "root") (ref_of "head-10") 10 150.
Definition w_verified : VerifiedCheckpointChain :=
  mkVerified ExternalAnchorVerified (ref_of "root") (sm_manifest_ref w_first) (sm_manifest_ref w_second)
    (ref_of "head-20") 20 2 (Some "anchor-10").

Lemma w_chain : verify_checkpoint_chain [w_first; w_second] w_registry (Some w_anchor) 250 = Ok w_verified.
Proof. vm_cast_no_check (eq_refl (Ok (E := CheckpointError) w_verified)). Qed.

Lemma checkpoint_sign_verify_witness : verify_signed_checkpoint w_first w_registry 250 = Ok tt.
Proof.
  refine (checkpoint_sign_verify "ops" " k1 " (replicate 32 Byte.x07) w_signer
            (w_material 10 "head-10") 100 (Some 500%Z) None w_first w_registry 0 (Some 900%Z) None 250
            _ _ _ _).
  - vm_compute. reflexivity.
  - vm_compute. reflexivity.
  - vm_compute. reflexivity.
  - split_and!; intros; simplify_eq; lia.
Defined.

Lemma checkpoint_chain_advances_witness : StronglySorted advances [w_first; w_second].
Proof. exact (proj1 (checkpoint_chain_advances _ _ _ _ _ w_chain)). Defined.

Lemma checkpoint_anti_rollback_witness : (ea_last_sequence w_anchor <= vc_latest_sequence w_verified)%Z.
Proof. exact (proj1 (checkpoint_anti_rollback _ _ _ _ _ w_chain)). Defined.

Lemma checkpoint_chain_binding_witness :
  (sm_body <$> [w_first; w_second]) `suffix_of` (sm_body <$> [w_first; w_second]) \/
  (sm_body <$> [w_first; w_second]) `suffix_of` (sm_body <$> [w_first; w_second]) \/
  exists m1 m2, m1 ∈ [w_first; w_second] /\ m2 ∈ [w_first; w_second] /\
                collision (sm_body m1) (sm_body m2).
Proof. exact (checkpoint_chain_binding _ _ _ _ _ _ _ _ _ _ w_chain w_chain eq_refl). Defined.

Definition w_message_of (_ : TransitionLedgerError) : string := "ledger".
Definition w_report : TransitionLedgerSnapshotInfo :=
  Eval vm_compute in
    match (run_snapshot w_ledger1 (snapshot_writer w_ledger1 7 true) no_faults).2 with
    | Some (Ok info) => info
    | _ => mkInfo "" Offset_start 0 0 "" None ""
    end.
Definition w_ledger_snap : TrustworthyTransitionLedger :=
  Eval vm_compute in (run_snapshot w_ledger1 (snapshot_writer w_ledger1 7 true) no_faults).1.

Lemma checkpoint_of_ledger_witness :
  exists m, checkpoint_material w_message_of w_ledger_snap (ref_of "root") w_report = Ok m /\
            cm_last_sequence m = 1%Z.
Proof.
  destruct (proj1 (checkpoint_of_ledger w_message w_message_of 1 w_ledger1 [] w_event 7 true no_faults
    w_ledger_snap w_report (ref_of "root") w_run1 eq_refl
    ltac:(vm_cast_no_check (eq_refl (w_ledger_snap, Some (Ok (E := TransitionLedgerError) w_report))))
    eq_refl)) as (m & Hm & _ & Hs & _).
  exact (ex_intro _ m (conj Hm Hs)).
Defined.

Lemma checkpoint_registry_lookup_witness :
  registry_insert TrustedKeyRegistry_default (trusted_key w_signer 0 (Some 900%Z) None) = Ok w_registry /\
  registry_get w_registry "ops" "k1" = Some (trusted_key w_signer 0 (Some 900%Z) None).
Proof.
  assert (registry_insert TrustedKeyRegistry_default (trusted_key w_signer 0 (Some 900%Z) None)
          = Ok w_registry) as E by (vm_compute; reflexivity).
  split; [exact E |].
  pose proof (checkpoint_registry_lookup TrustedKeyRegistry_default
                (trusted_key w_signer 0 (Some 900%Z) None) "ops" "k1"
                ltac:(unfold nul_free; vm_compute; set_solver)
                ltac:(unfold nul_free; vm_compute; set_solver)) as Hl.
  rewrite E in Hl. exact Hl.
Defined.

Definition w_nul (x y : string) : string := of_bytes (as_bytes x ++ Byte.x00 :: as_bytes y).
Definition w_other : TrustedCheckpointKey :=
  mkKey (w_nul "a" "b") "c" (public_key_hex w_signer) 0 None None.
Definition w_confused : SignedCheckpointManifest :=
  Eval vm_compute in ok_or_default w_empty_manifest
    (sign (mkSigner "a" (w_nul "b" "c") (replicate 32 Byte.x07)) (w_material 10 "head-10") 100 None None).

(** With NUL bytes in names two different pairs share a slot. A manifest that names signer [a]
    and key [b NUL c] verifies against a registry that only trusts signer [a NUL b] with key
    [c]. *)
Theorem checkpoint_slot_collision :
  exists r, registry_insert TrustedKeyRegistry_default w_other = Ok r /\
    tk_signer_id w_other <> mb_signer_id (sm_body w_confused) /\
    verify_signed_checkpoint w_confused r 150 = Ok tt.
Proof.
  eexists. split; [vm_compute; reflexivity |]. split; [done |]. vm_compute. reflexivity.
Qed.
End witnesses.
