(* ===== verification/ProofPath.v ===== *)
(** * The durable ProofPath ledger

    [liminal-store/src/proofpath_durable.rs]: evidence of a producer is stored under an
    idempotency key in a hash-chained log, one store per namespace, and every record carries a
    fixed authority boundary. The disk maps the directory of a namespace to a store root. *)

From stdpp Require Import prelude gmap strings list fin_maps.
From Stdlib Require Import ZArith Lia.
From S2P Require Import Prelude RustStr Wal Crypto.

Definition PROOFPATH_DURABLE_RECORD_SCHEMA : string := "liminaldb.proofpath-durable-record.v0.1".
Definition PROOFPATH_DURABLE_PROFILE : string := "org.liminaldb.proofpath-durable-ledger.v0.1".
Definition PROOFPATH_PRODUCER_REPOSITORY : string := "safal207/ProofPath".
Definition PROOFPATH_CAPABILITY_ID : string := "proofpath.scig.v0.1".
Definition PROOFPATH_CAPABILITY_COMMIT : string := "685d50e256a5125a21f4c4584b326411caaa64ad".
Definition LIMINALDB_CONSUMER_REPOSITORY : string := "safal207/LiminalDB".
Definition LIMINALDB_PROOFPATH_IMPORT_COMMIT : string := "00580ff097dee61b45ad3c8a3c36ae5f548f572d".
Definition LIMINALDB_AUDIT_EVENT_CONTRACT_BLOB : string := "fd733971aaae089df770062bcf7f2c2d6d19ca1d".
Definition PROOFPATH_PERSISTENCE_SCOPE : string := "local_test_only".
Definition RECORD_KIND : string := "proofpath.scig.verification.observed".

Record ProofPathDurableInput : Type := mkPPInput {
  pi_logical_operation_id : string;
  pi_source_event_bytes : bytes;
  pi_admission_report_bytes : bytes;
  pi_source_receipt_ref : string;
  pi_valid_time_ms : Z;
  pi_transaction_time_ms : Z;
  pi_storage_admission_ref : string
}.

Record ProofPathDurableRecordBody : Type := mkPPBody {
  pb_schema : string;
  pb_profile : string;
  pb_sequence : Z;
  pb_namespace : string;
  pb_ingestion_key : string;
  pb_logical_operation_id : string;
  pb_source_event_sha256 : string;
  pb_source_receipt_ref : string;
  pb_admission_report_sha256 : string;
  pb_producer_repository : string;
  pb_producer_capability_id : string;
  pb_producer_capability_commit : string;
  pb_consumer_repository : string;
  pb_consumer_import_commit : string;
  pb_consumer_contract_blob_sha : string;
  pb_valid_time_ms : Z;
  pb_transaction_time_ms : Z;
  pb_source_event_bytes : bytes;
  pb_admission_report_bytes : bytes;
  pb_storage_admission_ref : string;
  pb_persistence_scope : string;
  pb_storage_write_authorized : bool;
  pb_execution_authorized : bool;
  pb_mutation_authorized : bool;
  pb_external_effects_authorized : bool;
  pb_previous_record_hash : option string
}.

Record ProofPathDurableRecord : Type := mkPPRecord {
  pr_body : ProofPathDurableRecordBody;
  pr_record_hash : string
}.

Inductive ProofPathAppendOutcome : Type :=
| Inserted (record : ProofPathDurableRecord)
| AlreadyPresent (record : ProofPathDurableRecord).

Inductive ProofPathDurableError : Type :=
| Storage (message : string)
| Encoding (message : string)
| InvalidNamespace
| InvalidLogicalOperationId
| EmptySourceEvent
| EmptyAdmissionReport
| InvalidReference (label : string)
| InvalidTemporalOrder
| RecordProfileMismatch
| NamespaceMismatch
| SequenceMismatch (expected actual : Z)
| PreviousRecordHashMismatch
| RecordHashMismatch
| IngestionKeyMismatch
| SourceEventDigestMismatch
| AdmissionReportDigestMismatch
| ProducerCapabilityMismatch
| ConsumerContractMismatch
| AuthorityBoundaryViolation
| DuplicateIngestionKey (key : string)
| IdempotencyConflict
| PoisonedAfterStorageFailure.

Record ProofPathDurableState : Type := mkPPState {
  next_sequence : Z;
  head_record_hash : option string;
  records : gmap string ProofPathDurableRecord
}.

Definition ProofPathDurableState_default : ProofPathDurableState := mkPPState 1 None ∅.

Record ProofPathDurableLedger : Type := mkPPLedger {
  pl_namespace : string;
  pl_store : Store;
  pl_state : ProofPathDurableState;
  pl_poisoned : bool
}.

Abbreviation presult A := (result A ProofPathDurableError).

(** ** Validation *)
Definition namespace_byte (b : Byte.byte) : bool :=
  is_ascii_alphanumeric b || existsb (fun c => bool_decide (b = c)) [Byte.x2e; Byte.x5f; Byte.x2d].

Definition normalize_namespace (value : string) : presult string :=
  let trimmed := trim value in
  let b := as_bytes trimmed in
  let valid_len := negb (bool_decide (b = [])) && (length b <=? 64) in
  let valid_chars := forallb namespace_byte b in
  if negb valid_len || bool_decide (trimmed <> value) || bool_decide (trimmed = ".")
     || bool_decide (trimmed = "..") || negb valid_chars
     || negb (match b with
              | first :: _ => is_ascii_alphanumeric first
              | [] => false
              end)
  then Err InvalidNamespace else Ok value.

Definition validate_sha256_ref (reference label : string) : presult unit :=
  if is_sha256_ref reference then Ok tt else Err (InvalidReference label).

(** A logical operation id that is blank or not trimmed is refused. *)
Definition bad_operation_id (id : string) : bool :=
  bool_decide (trim id = "") || bool_decide (trim id <> id).

Definition bad_times (valid transaction : Z) : bool :=
  (valid =? 0)%Z || (transaction <? valid)%Z.

Definition normalize_input (input : ProofPathDurableInput) : presult ProofPathDurableInput :=
  if bad_operation_id (pi_logical_operation_id input) then Err InvalidLogicalOperationId
  else if bool_decide (pi_source_event_bytes input = []) then Err EmptySourceEvent
  else if bool_decide (pi_admission_report_bytes input = []) then Err EmptyAdmissionReport
  else
    check! validate_sha256_ref (pi_source_receipt_ref input) "source_receipt_ref" in
    check! validate_sha256_ref (pi_storage_admission_ref input) "storage_admission_ref" in
    if bad_times (pi_valid_time_ms input) (pi_transaction_time_ms input)
    then Err InvalidTemporalOrder
    else
      Ok (mkPPInput (trim (pi_logical_operation_id input)) (pi_source_event_bytes input)
            (pi_admission_report_bytes input) (pi_source_receipt_ref input)
            (pi_valid_time_ms input) (pi_transaction_time_ms input)
            (pi_storage_admission_ref input)).

Section proofpath.
Context `{Crc32, Sha256, Cbor ProofPathDurableRecordBody, Cbor ProofPathDurableRecord}.
Context (wal_message : WalError -> string).

Definition storage_error (e : WalError) : ProofPathDurableError := Storage (wal_message e).

(** [format!("{namespace}\0{logical_operation_id}\0{RECORD_KIND}")], hashed. *)
Definition ingestion_key (namespace logical_operation_id : string) : string :=
  sha256_ref (as_bytes namespace ++ Byte.x00 :: as_bytes logical_operation_id
              ++ Byte.x00 :: as_bytes RECORD_KIND).

Definition equivalent_semantic_input (existing : ProofPathDurableRecord)
    (input : ProofPathDurableInput) : bool :=
  let body := pr_body existing in
  bool_decide (pb_logical_operation_id body = pi_logical_operation_id input)
  && bool_decide (pb_source_event_bytes body = pi_source_event_bytes input)
  && bool_decide (pb_admission_report_bytes body = pi_admission_report_bytes input)
  && bool_decide (pb_source_receipt_ref body = pi_source_receipt_ref input)
  && (pb_valid_time_ms body =? pi_valid_time_ms input)%Z
  && bool_decide (pb_source_event_sha256 body = sha256_ref (pi_source_event_bytes input))
  && bool_decide (pb_admission_report_sha256 body = sha256_ref (pi_admission_report_bytes input)).

(** ** Applying a record *)
Definition apply_record (state : ProofPathDurableState) (namespace : string)
    (record : ProofPathDurableRecord) : presult ProofPathDurableState :=
  let body := pr_body record in
  if bool_decide (pb_schema body <> PROOFPATH_DURABLE_RECORD_SCHEMA)
     || bool_decide (pb_profile body <> PROOFPATH_DURABLE_PROFILE)
  then Err RecordProfileMismatch
  else if bool_decide (pb_namespace body <> namespace) then Err NamespaceMismatch
  else if negb (pb_sequence body =? next_sequence state)%Z
  then Err (SequenceMismatch (next_sequence state) (pb_sequence body))
  else if bool_decide (pb_previous_record_hash body <> head_record_hash state)
  then Err PreviousRecordHashMismatch
  else
    let! digest := digest_cbor Encoding body in
    if bool_decide (digest <> pr_record_hash record) then Err RecordHashMismatch
    else
      check! validate_sha256_ref (pr_record_hash record) "record_hash" in
      check! validate_sha256_ref (pb_source_receipt_ref body) "source_receipt_ref" in
      check! validate_sha256_ref (pb_storage_admission_ref body) "storage_admission_ref" in
      if bad_operation_id (pb_logical_operation_id body) then Err InvalidLogicalOperationId
      else if bad_times (pb_valid_time_ms body) (pb_transaction_time_ms body)
      then Err InvalidTemporalOrder
      else if bool_decide (pb_ingestion_key body
                           <> ingestion_key namespace (pb_logical_operation_id body))
      then Err IngestionKeyMismatch
      else
        check! validate_sha256_ref (pb_ingestion_key body) "ingestion_key" in
        if bool_decide (pb_source_event_sha256 body <> sha256_ref (pb_source_event_bytes body))
        then Err SourceEventDigestMismatch
        else if bool_decide (pb_admission_report_sha256 body
                             <> sha256_ref (pb_admission_report_bytes body))
        then Err AdmissionReportDigestMismatch
        else if bool_decide (pb_producer_repository body <> PROOFPATH_PRODUCER_REPOSITORY)
                || bool_decide (pb_producer_capability_id body <> PROOFPATH_CAPABILITY_ID)
                || bool_decide (pb_producer_capability_commit body <> PROOFPATH_CAPABILITY_COMMIT)
        then Err ProducerCapabilityMismatch
        else if bool_decide (pb_consumer_repository body <> LIMINALDB_CONSUMER_REPOSITORY)
                || bool_decide (pb_consumer_import_commit body <> LIMINALDB_PROOFPATH_IMPORT_COMMIT)
                || bool_decide (pb_consumer_contract_blob_sha body
                                <> LIMINALDB_AUDIT_EVENT_CONTRACT_BLOB)
        then Err ConsumerContractMismatch
        else if bool_decide (pb_persistence_scope body <> PROOFPATH_PERSISTENCE_SCOPE)
                || negb (pb_storage_write_authorized body)
                || pb_execution_authorized body || pb_mutation_authorized body
                || pb_external_effects_authorized body
        then Err AuthorityBoundaryViolation
        else
          match records state !! pb_ingestion_key body with
          | Some _ => Err (DuplicateIngestionKey (pb_ingestion_key body))
          | None =>
              Ok (mkPPState (u64_add (next_sequence state) 1) (Some (pr_record_hash record))
                    (<[pb_ingestion_key body := record]> (records state)))
          end.

(** ** The ledger *)
Definition replay_record (namespace : string) (state : ProofPathDurableState)
    (record : result bytes WalError) : presult ProofPathDurableState :=
  let! b := map_err storage_error record in
  let! decoded := map_err Encoding (from_slice (A := ProofPathDurableRecord) b) in
  apply_record state namespace decoded.

Definition replay_from (store : Store) (namespace : string) : presult ProofPathDurableState :=
  let! items := map_err storage_error (read_from (st_data store) Offset_start) in
  fold_result (replay_record namespace) ProofPathDurableState_default items.

Definition PP_open (disk : gmap string Root) (namespace : string) : presult ProofPathDurableLedger :=
  let! ns := normalize_namespace namespace in
  let! store := map_err storage_error
                  (Store_open (default (mkRoot ∅ ∅ None false) (disk !! ns))) in
  let! state := replay_from store ns in
  Ok (mkPPLedger ns store state false).

(** Dropping the ledger leaves its directory. *)
Definition PP_close (disk : gmap string Root) (l : ProofPathDurableLedger) : gmap string Root :=
  <[pl_namespace l := Store_close (pl_store l)]> disk.

Definition body_of_input (l : ProofPathDurableLedger) (key : string) (i : ProofPathDurableInput)
  : ProofPathDurableRecordBody :=
  mkPPBody PROOFPATH_DURABLE_RECORD_SCHEMA PROOFPATH_DURABLE_PROFILE (next_sequence (pl_state l))
    (pl_namespace l) key (pi_logical_operation_id i) (sha256_ref (pi_source_event_bytes i))
    (pi_source_receipt_ref i) (sha256_ref (pi_admission_report_bytes i))
    PROOFPATH_PRODUCER_REPOSITORY PROOFPATH_CAPABILITY_ID PROOFPATH_CAPABILITY_COMMIT
    LIMINALDB_CONSUMER_REPOSITORY LIMINALDB_PROOFPATH_IMPORT_COMMIT
    LIMINALDB_AUDIT_EVENT_CONTRACT_BLOB (pi_valid_time_ms i) (pi_transaction_time_ms i)
    (pi_source_event_bytes i) (pi_admission_report_bytes i) (pi_storage_admission_ref i)
    PROOFPATH_PERSISTENCE_SCOPE true false false false (head_record_hash (pl_state l)).

Definition PP_append (l : ProofPathDurableLedger) (input : ProofPathDurableInput)
    (fp : AppendFault) : ProofPathDurableLedger * presult ProofPathAppendOutcome :=
  if pl_poisoned l then (l, Err PoisonedAfterStorageFailure)
  else
    match normalize_input input with
    | Err e => (l, Err e)
    | Ok i =>
        let key := ingestion_key (pl_namespace l) (pi_logical_operation_id i) in
        match records (pl_state l) !! key with
        | Some existing =>
            if equivalent_semantic_input existing i then (l, Ok (AlreadyPresent existing))
            else (l, Err IdempotencyConflict)
        | None =>
            let body := body_of_input l key i in
            match
              (let! h := digest_cbor Encoding body in
               let record := mkPPRecord body h in
               let! candidate := apply_record (pl_state l) (pl_namespace l) record in
               let! b := map_err Encoding (to_vec record) in
               Ok (record, candidate, b))
            with
            | Err e => (l, Err e)
            | Ok (record, candidate, b) =>
                match Store_append (pl_store l) b fp with
                | (store, Err e) =>
                    (mkPPLedger (pl_namespace l) store (pl_state l) true, Err (storage_error e))
                | (store, Ok _) =>
                    (mkPPLedger (pl_namespace l) store candidate false, Ok (Inserted record))
                end
            end
        end
    end.

Definition PP_get (l : ProofPathDurableLedger) (logical_operation_id : string)
  : option ProofPathDurableRecord :=
  let id := trim logical_operation_id in
  if decide (id = "") then None
  else records (pl_state l) !! ingestion_key (pl_namespace l) id.

Definition event_count (l : ProofPathDurableLedger) : Z :=
  u64_saturating_sub (next_sequence (pl_state l)) 1.
End proofpath.
