(* ===== verification/ProofPathProps.v ===== *)
(** * Properties of the ProofPath ledger

    Event logs over a write-ahead log in general (records, codec, replay), then the ledger: what the
    records of any ledger that opens have in common ([proofpath_boundary]), what each branch of an append
    answers, and what a run of appends, failures and restarts leaves ([proofpath_run_durable]). *)

From stdpp Require Import prelude gmap strings list fin_maps.
From Stdlib Require Import ZArith Lia.
From S2P Require Import Prelude RustStr Wal WalSpec WalRead WalProps Crypto ProofPath.

(** ** Event logs over a write-ahead log

    The part that ledgers share: events are encoded into the records of a WAL store, the state is
    the fold of a step function over them, and a failed append leaves either the old log or the
    old log and the event. A component states its step and its codec as an [EventLog]; the lemmas
    here give it reopening, committing and recovery. *)

Class EventLog (St Ev X : Type) : Type := {
  log_init : St;
  log_step : St -> Ev -> result St X;
  log_cbor :: Cbor Ev;
  log_storage_error : WalError -> X;
  log_encoding_error : string -> X
}.

Section event_log.
Context {St Ev X : Type} `{Crc32, !Crc32Ok, L : EventLog St Ev X, !CborOk Ev}.

Definition log_record (state : St) (record : result bytes WalError) : result St X :=
  let! b := map_err log_storage_error record in
  let! event := map_err log_encoding_error (from_slice (A := Ev) b) in
  log_step state event.

(** The replay loop every ledger has: the WAL from its start. *)
Definition log_replay_store (store : Store) : result St X :=
  let! records := map_err log_storage_error (read_from (st_data store) Offset_start) in
  fold_result log_record log_init records.

Definition log_replay (events : list Ev) : result St X := fold_result log_step log_init events.

Definition log_encodes (events : list Ev) (ps : list bytes) : Prop :=
  Forall2 (fun e p => to_vec e = Ok p) events ps.

Lemma log_records events ps state :
  log_encodes events ps ->
  fold_result log_record state (Ok <$> ps) = fold_result log_step state events.
Proof.
  intros He. revert state. induction He as [|e p events ps Hp He IH]; intros state; [done |].
  cbn [fmap list_fmap fold_result]. unfold log_record at 1.
  cbn [map_err rbind]. rewrite (from_to_vec _ _ Hp). cbn [map_err rbind].
  destruct (log_step state e); cbn [rbind]; [apply IH | done].
Qed.

(** What an accepted directory contains. *)
Lemma log_records_inv records state state' :
  fold_result log_record state records = Ok state' ->
  exists events, fold_result log_step state events = Ok state' /\
    Forall2 (fun r e => exists b, r = Ok b /\ from_slice b = Ok e) records events.
Proof.
  revert state. induction records as [|r records IH]; intros state Hf; cbn [fold_result] in Hf.
  - exists []. split; [done | constructor].
  - rinv Hf. destruct (IH _ Hf) as (events & Hr & Hev).
    match goal with E : log_record _ _ = Ok _ |- _ => unfold log_record in E; rinv E; rename E into Es end.
    repeat match goal with E : map_err _ _ = Ok _ |- _ => apply map_err_ok in E end.
    eexists (_ :: events). split; [cbn [fold_result]; rewrite Es; exact Hr |].
    constructor; eauto.
Qed.

(** A store that holds the encodings of [events], after [n] operations. *)
Record log_inv (n : nat) (store : Store) (events : list Ev) (state : St) : Prop := {
  lv_segments : exists sg s ps, store_inv store sg s ps /\ (s <= Z.of_nat n + 1)%Z /\
                  log_encodes events (payloads (sg ++ [(s, ps)]));
  lv_state : log_replay events = Ok state
}.

Lemma log_inv_replay n store events state :
  log_inv n store events state -> log_replay_store store = Ok state.
Proof.
  intros [(sg & s & ps & Hs & _ & He) Hr]. unfold log_replay_store.
  rewrite (inv_data _ _ _ _ Hs), (read_from_offset _ _ (payloads (sg ++ [(s, ps)]))).
  - cbn [map_err rbind]. by rewrite (log_records _ _ _ He).
  - apply Hs.
  - apply offset_start_at; [apply Hs | by destruct sg].
Qed.

Lemma default_rotation_ok : (0 < DEFAULT_SEGMENT_SIZE < u64_size)%Z.
Proof. done. Qed.

Lemma log_open_fresh :
  exists store, Store_open (mkRoot ∅ ∅ None false) = Ok store /\ log_inv 0 store [] log_init.
Proof.
  destruct (open_fresh ∅ None DEFAULT_SEGMENT_SIZE default_rotation_ok) as (st & Ho & Hs & _ & _).
  exists st. split; [exact Ho |]. split; [| done].
  exists [], 1%Z, []. split_and!; [done | lia | constructor].
Qed.

Lemma log_reopen n store events state :
  log_inv n store events state ->
  exists store', Store_open (Store_close store) = Ok store' /\ log_inv n store' events state.
Proof.
  intros [(sg & s & ps & Hs & Hb & He) Hr].
  destruct (open_log (Store_close store) sg s ps DEFAULT_SEGMENT_SIZE)
    as (st & Ho & Hs' & _ & _); [by apply store_root_inv | done | apply default_rotation_ok |].
  exists st. split; [exact Ho |]. split; [| done]. by exists sg, s, ps.
Qed.

Lemma log_replay_snoc events state e state' :
  log_replay events = Ok state -> log_step state e = Ok state' ->
  log_replay (events ++ [e]) = Ok state'.
Proof. unfold log_replay. intros Hr Hs. by rewrite fold_result_snoc, Hr. Qed.

(** A committed event. *)
Lemma log_commit n store events state e state' b :
  log_inv n store events state -> (Z.of_nat n < u64_size - 2)%Z ->
  log_step state e = Ok state' -> to_vec e = Ok b -> payload_ok b ->
  exists store' offset, Store_append store b Disabled = (store', Ok offset) /\
    log_inv (S n) store' (events ++ [e]) state'.
Proof.
  intros [(sg & s & ps & Hs & Hb & He) Hr] Hn Hstep Ht Hp.
  destruct (append_step _ _ _ _ _ Hs Hp ltac:(lia))
    as (st' & o & sg' & s' & ps' & E1 & Hs' & Hbound & Hpay & _ & _ & _ & _ & _).
  exists st', o. split; [done |]. split; [| by eapply log_replay_snoc].
  exists sg', s', ps'. split_and!; [done | lia |]. rewrite Hpay. apply Forall2_app; [done |].
  by repeat constructor.
Qed.

(** A commit that failed, after a restart: the log is refused when the event was cut in the middle of its payload,
    and otherwise the event is there exactly when it was completely written. *)
Lemma log_failed_commit n store events state e state' b (fp : AppendFault) store1 err :
  log_inv n store events state -> (Z.of_nat n < u64_size - 2)%Z ->
  log_step state e = Ok state' -> to_vec e = Ok b -> payload_ok b ->
  Store_append store b fp = (store1, Err err) ->
  if ambiguous fp b then exists at_, Store_open (Store_close store1) = Err (AmbiguousPartialPayload at_)
  else
    exists store', Store_open (Store_close store1) = Ok store' /\
      match survivors [] b fp with
      | [] => log_inv (S n) store' events state
      | _ => log_inv (S n) store' (events ++ [e]) state'
      end.
Proof.
  intros [(sg & s & ps & Hs & Hb & He) Hr] Hn Hstep Ht Hp Happ. destruct (ambiguous fp b) eqn:Hamb.
  { exact (failed_append_refused _ _ _ _ _ _ _ _ DEFAULT_SEGMENT_SIZE Hs Hp ltac:(lia) Happ default_rotation_ok Hamb). }
  destruct (failed_append_restart _ _ _ _ _ _ _ _ DEFAULT_SEGMENT_SIZE Hs Hp ltac:(lia) Happ
              default_rotation_ok Hamb) as (st' & sg' & s' & ps' & Ho & Hs' & Hbound & Hlog & _).
  exists st'. split; [exact Ho |].
  assert (log_encodes [e] [b]) as He1 by (by repeat constructor).
  destruct fp as [[]| | |]; cbn [survivors app] in *; split; try done;
    try (exists sg', s', ps'; split_and!; [done | lia | by rewrite Hlog]);
    try by eapply log_replay_snoc.
  all: exists sg', s', ps'; split_and!; [done | lia |]; rewrite Hlog; by apply Forall2_app.
Qed.
End event_log.

Section spec.
Context `{Crc32, !Crc32Ok, Sha256, !Sha256Ok, Cbor ProofPathDurableRecordBody,
          Cbor ProofPathDurableRecord, !CborOk ProofPathDurableRecord}.
Context (wal_message : WalError -> string).

Local Abbreviation PP_open := (PP_open wal_message).
Local Abbreviation PP_append := (PP_append wal_message).

(** What every stored record says, whatever the state: whose it is, that its digests are those of
    its bytes, and that it authorizes storing and nothing else. *)
Record well_formed (ns : string) (r : ProofPathDurableRecord) : Prop := {
  wf_schema : pb_schema (pr_body r) = PROOFPATH_DURABLE_RECORD_SCHEMA;
  wf_profile : pb_profile (pr_body r) = PROOFPATH_DURABLE_PROFILE;
  wf_namespace : pb_namespace (pr_body r) = ns;
  wf_hash : digest_cbor Encoding (pr_body r) = Ok (pr_record_hash r);
  wf_receipt : is_sha256_ref (pb_source_receipt_ref (pr_body r)) = true;
  wf_admission : is_sha256_ref (pb_storage_admission_ref (pr_body r)) = true;
  wf_operation : bad_operation_id (pb_logical_operation_id (pr_body r)) = false;
  wf_times : bad_times (pb_valid_time_ms (pr_body r)) (pb_transaction_time_ms (pr_body r)) = false;
  wf_key : pb_ingestion_key (pr_body r) = ingestion_key ns (pb_logical_operation_id (pr_body r));
  wf_event : pb_source_event_sha256 (pr_body r) = sha256_ref (pb_source_event_bytes (pr_body r));
  wf_report : pb_admission_report_sha256 (pr_body r)
              = sha256_ref (pb_admission_report_bytes (pr_body r));
  wf_producer : (pb_producer_repository (pr_body r), pb_producer_capability_id (pr_body r),
                 pb_producer_capability_commit (pr_body r))
                = (PROOFPATH_PRODUCER_REPOSITORY, PROOFPATH_CAPABILITY_ID,
                   PROOFPATH_CAPABILITY_COMMIT);
  wf_consumer : (pb_consumer_repository (pr_body r), pb_consumer_import_commit (pr_body r),
                 pb_consumer_contract_blob_sha (pr_body r))
                = (LIMINALDB_CONSUMER_REPOSITORY, LIMINALDB_PROOFPATH_IMPORT_COMMIT,
                   LIMINALDB_AUDIT_EVENT_CONTRACT_BLOB);
  wf_scope : pb_persistence_scope (pr_body r) = PROOFPATH_PERSISTENCE_SCOPE;
  wf_write : pb_storage_write_authorized (pr_body r) = true;
  wf_execution : pb_execution_authorized (pr_body r) = false;
  wf_mutation : pb_mutation_authorized (pr_body r) = false;
  wf_effects : pb_external_effects_authorized (pr_body r) = false
}.

Definition accept (st : ProofPathDurableState) (r : ProofPathDurableRecord) : ProofPathDurableState :=
  mkPPState (u64_add (next_sequence st) 1) (Some (pr_record_hash r))
    (<[pb_ingestion_key (pr_body r) := r]> (records st)).

Lemma apply_record_spec st ns r st' :
  apply_record st ns r = Ok st' <->
  well_formed ns r /\ pb_sequence (pr_body r) = next_sequence st /\
  pb_previous_record_hash (pr_body r) = head_record_hash st /\
  records st !! pb_ingestion_key (pr_body r) = None /\ st' = accept st r.
Proof.
  unfold apply_record, validate_sha256_ref. split.
  - intros Hv. rinv Hv. injection Hv as <-.
    repeat match goal with u : unit |- _ => destruct u end.
    repeat match goal with
      | E : (if is_sha256_ref ?x then _ else _) = Ok _ |- _ => destruct (is_sha256_ref x) eqn:?; [| done]
      end.
    bool_prop. repeat match goal with E : ~ (_ <> _) |- _ => apply dec_stable in E end.
    split_and!; try done. split; try done; try congruence; repeat f_equal; congruence.
  - intros ([W1 W2 W3 W4 W5 W6 W7 W8 W9 W10 W11 W12 W13 W14 W15 W16 W17 W18] & Hs & Hp & Hf & ->).
    injection W12 as P1 P2 P3. injection W13 as C1 C2 C3.
    rewrite W1, W2, W3, Hs, Hp, W4, W5, W6, W7, W8, P1, P2, P3, C1, C2, C3, W14, W15, W16, W17, W18.
    cbn [rbind]. rewrite (digest_cbor_shape _ _ _ W4), Z.eqb_refl.
    assert (is_sha256_ref (pb_ingestion_key (pr_body r)) = true) as ->
      by (rewrite W9; apply sha256_ref_shape).
    rewrite <- W9, <- W10, <- W11.
    rewrite !(bool_decide_eq_false_2 (_ <> _)) by naive_solver. cbn [orb negb rbind].
    by rewrite Hf.
Qed.

(** The ledger of a namespace as an event log. *)
Local Instance pp_log (ns : string)
  : EventLog ProofPathDurableState ProofPathDurableRecord ProofPathDurableError :=
  {| log_init := ProofPathDurableState_default;
     log_step st r := apply_record st ns r;
     log_cbor := _;
     log_storage_error := storage_error wal_message;
     log_encoding_error := Encoding |}.

Definition pp_replay (ns : string) (rs : list ProofPathDurableRecord)
  : presult ProofPathDurableState :=
  fold_result (fun st r => apply_record st ns r) ProofPathDurableState_default rs.

(** The records of a replayed state are the well-formed records of the log, by their keys. *)
Record stored (ns : string) (rs : list ProofPathDurableRecord) (st : ProofPathDurableState) : Prop := {
  sd_well_formed : Forall (well_formed ns) rs;
  sd_lookup : forall k r, records st !! k = Some r <-> r ∈ rs /\ pb_ingestion_key (pr_body r) = k;
  sd_sequence : next_sequence st = ((1 + Z.of_nat (length rs)) `mod` u64_size)%Z;
  sd_head : head_record_hash st = pr_record_hash <$> last rs
}.

Lemma stored_replay ns rs st : pp_replay ns rs = Ok st -> stored ns rs st.
Proof.
  revert st. induction rs as [|r rs IH] using rev_ind; intros st Hr.
  - injection Hr as <-. split; try done. intros k r. cbn. rewrite lookup_empty. set_solver.
  - unfold pp_replay in *. rewrite fold_result_snoc in Hr. rinv Hr.
    destruct (IH _ eq_refl) as [W L Sq Hh].
    apply apply_record_spec in Hr as (Hwf & _ & _ & Hfresh & ->). split.
    + apply Forall_app. split; [done | by apply Forall_singleton].
    + intros k r'. cbn [accept records]. rewrite lookup_insert_Some, elem_of_app, L, list_elem_of_singleton.
      split.
      * intros [[<- <-] | [Hne [? ?]]]; auto.
      * intros [[Hin | ->] <-]; [right | by left]. split; [| done]. intros E'.
        assert (records a !! pb_ingestion_key (pr_body r) = Some r') as Hx by (by apply L).
        congruence.
    + cbn [accept next_sequence]. rewrite Sq, length_app. cbn [length]. unfold u64_add.
      rewrite Zplus_mod_idemp_l. f_equal. lia.
    + by rewrite last_snoc.
Qed.

(** ** Reachable ledgers *)

(** The record [append] would write is shorter than 4 GiB. *)
Definition pp_fits (l : ProofPathDurableLedger) (input : ProofPathDurableInput) : Prop :=
  forall i r b, normalize_input input = Ok i ->
    pr_body r = body_of_input l (ingestion_key (pl_namespace l) (pi_logical_operation_id i)) i ->
    digest_cbor Encoding (pr_body r) = Ok (pr_record_hash r) -> to_vec r = Ok b -> payload_ok b.

Record pp_inv (n : nat) (ns : string) (l : ProofPathDurableLedger)
    (rs : list ProofPathDurableRecord) : Prop := {
  pv_namespace : pl_namespace l = ns;
  pv_name_ok : normalize_namespace ns = Ok ns;
  pv_poisoned : pl_poisoned l = false;
  pv_log : log_inv (L := pp_log ns) n (pl_store l) rs (pl_state l)
}.

Lemma normalize_namespace_id v w : normalize_namespace v = Ok w -> w = v.
Proof. unfold normalize_namespace. cbv zeta. intros Hv. rinv Hv. by injection Hv as <-. Qed.

(** Opening what a log holds. *)
Lemma pp_open_log n ns disk store rs st :
  normalize_namespace ns = Ok ns ->
  Store_open (default (mkRoot ∅ ∅ None false) (disk !! ns)) = Ok store ->
  log_inv (L := pp_log ns) n store rs st ->
  PP_open disk ns = Ok (mkPPLedger ns store st false) /\
  pp_inv n ns (mkPPLedger ns store st false) rs.
Proof.
  intros Hns Ho Hl. split; [| by split].
  unfold ProofPath.PP_open. rewrite Hns. cbn [rbind]. rewrite Ho. cbn [map_err rbind].
  pose proof (log_inv_replay (L := pp_log ns) _ _ _ _ Hl) as Hr.
  change (replay_from wal_message store ns) with (log_replay_store (L := pp_log ns) store).
  by rewrite Hr.
Qed.

(** ** Appending *)

(** The state-independent checks hold of the record built for a normalized input. *)
Lemma body_of_input_wf l input i h :
  normalize_input input = Ok i ->
  digest_cbor Encoding (body_of_input l (ingestion_key (pl_namespace l) (pi_logical_operation_id i)) i)
    = Ok h ->
  well_formed (pl_namespace l)
    (mkPPRecord (body_of_input l (ingestion_key (pl_namespace l) (pi_logical_operation_id i)) i) h).
Proof.
  unfold normalize_input, validate_sha256_ref. intros Hi Hd. rinv Hi. injection Hi as <-.
  repeat match goal with u : unit |- _ => destruct u end.
  repeat match goal with
    | E : (if is_sha256_ref ?x then _ else _) = Ok _ |- _ => destruct (is_sha256_ref x) eqn:?; [| done]
    end.
  split; try done. cbn.
  match goal with E : bad_operation_id _ = false |- _ => rename E into Hid end.
  assert (trim (pi_logical_operation_id input) = pi_logical_operation_id input) as ->; [| done].
  unfold bad_operation_id in Hid. bool_prop. by apply dec_stable.
Qed.

(** What [append] does on an input that normalizes, by what is stored under its key. *)
Lemma pp_append_present l input i r fp :
  pl_poisoned l = false -> normalize_input input = Ok i ->
  records (pl_state l) !! ingestion_key (pl_namespace l) (pi_logical_operation_id i) = Some r ->
  PP_append l input fp
  = (l, if equivalent_semantic_input r i then Ok (AlreadyPresent r) else Err IdempotencyConflict).
Proof.
  intros Hp Hn Hr. unfold ProofPath.PP_append. rewrite Hp, Hn, Hr.
  by destruct (equivalent_semantic_input r i).
Qed.

Lemma pp_append_absent `{!CborTotal ProofPathDurableRecordBody, !CborTotal ProofPathDurableRecord}
    l input i fp :
  pl_poisoned l = false -> normalize_input input = Ok i ->
  records (pl_state l) !! ingestion_key (pl_namespace l) (pi_logical_operation_id i) = None ->
  exists r b,
    pr_body r = body_of_input l (ingestion_key (pl_namespace l) (pi_logical_operation_id i)) i /\
    apply_record (pl_state l) (pl_namespace l) r = Ok (accept (pl_state l) r) /\ to_vec r = Ok b /\
    PP_append l input fp
    = match Store_append (pl_store l) b fp with
      | (store, Err e) => (mkPPLedger (pl_namespace l) store (pl_state l) true,
                           Err (storage_error wal_message e))
      | (store, Ok _) => (mkPPLedger (pl_namespace l) store (accept (pl_state l) r) false,
                          Ok (Inserted r))
      end.
Proof.
  intros Hp Hn Hr. set (key := ingestion_key _ _) in *.
  destruct (digest_cbor_total (E := ProofPathDurableError) Encoding (body_of_input l key i))
    as (bb & _ & Hd).
  set (r := mkPPRecord (body_of_input l key i) (sha256_ref bb)).
  pose proof (to_vec_total r) as Ht. destruct (to_vec r) as [b|] eqn:Et; [| done].
  assert (apply_record (pl_state l) (pl_namespace l) r = Ok (accept (pl_state l) r)) as Ha.
  { apply apply_record_spec. split_and!; try done. by eapply body_of_input_wf. }
  exists r, b. split_and!; try done.
  unfold ProofPath.PP_append. rewrite Hp, Hn. fold key. rewrite Hr, Hd. cbn [rbind].
  fold r. rewrite Ha. cbn [rbind]. rewrite Et. done.
Qed.

Context `{!CborTotal ProofPathDurableRecordBody, !CborTotal ProofPathDurableRecord}.

(** An input that normalizes, for whose operation nothing is stored; and the record that is built of it. *)
Definition to_insert (l : ProofPathDurableLedger) (input i : ProofPathDurableInput) (r : ProofPathDurableRecord) : Prop :=
  let key := ingestion_key (pl_namespace l) (pi_logical_operation_id i) in
  normalize_input input = Ok i /\ records (pl_state l) !! key = None /\
  pr_body r = body_of_input l key i /\ digest_cbor Encoding (pr_body r) = Ok (pr_record_hash r).

Inductive pp_run : nat -> string -> ProofPathDurableLedger -> list ProofPathDurableRecord -> Prop :=
| ppr_open ns l :
    PP_open ∅ ns = Ok l -> pp_run 0 ns l []
| ppr_insert n ns l rs input l' r :
    pp_run n ns l rs -> pp_fits l input -> PP_append l input Disabled = (l', Ok (Inserted r)) ->
    pp_run (S n) ns l' (rs ++ [r])
| ppr_reopen n ns l rs disk l' :
    pp_run n ns l rs -> PP_open (PP_close disk l) ns = Ok l' -> pp_run (S n) ns l' rs
| ppr_failed n ns l rs input i (fp : AppendFault) l1 e disk l' r :
    pp_run n ns l rs -> pp_fits l input -> to_insert l input i r ->
    PP_append l input fp = (l1, Err e) -> PP_open (PP_close disk l1) ns = Ok l' ->
    pp_run (S n) ns l' (match survivors [] [] fp with [] => rs | _ => rs ++ [r] end).

Lemma pp_append_insert n ns l rs input l' r :
  pp_inv n ns l rs -> (Z.of_nat n < u64_size - 2)%Z -> pp_fits l input ->
  PP_append l input Disabled = (l', Ok (Inserted r)) ->
  pp_inv (S n) ns l' (rs ++ [r]) /\ pl_state l' = accept (pl_state l) r.
Proof.
  intros [Hns Hok Hp Hl] Hn Hfit Happ.
  destruct (normalize_input input) as [i|e] eqn:Ei;
    [| unfold ProofPath.PP_append in Happ; by rewrite Hp, Ei in Happ].
  destruct (records (pl_state l) !! ingestion_key (pl_namespace l) (pi_logical_operation_id i))
    as [r0|] eqn:Er.
  { rewrite (pp_append_present _ _ _ _ _ Hp Ei Er) in Happ. by destruct (equivalent_semantic_input r0 i). }
  destruct (pp_append_absent l input i Disabled Hp Ei Er) as (r1 & b & Hb & Ha & Ht & E).
  rewrite E in Happ. pose proof (proj1 (apply_record_spec _ _ _ _) Ha) as (Hwf & _).
  assert (payload_ok b) as Hpay by (eapply (Hfit i r1); [done | done | apply Hwf | done]).
  rewrite <- Hns in Hl. destruct (log_commit (L := pp_log (pl_namespace l)) _ _ _ _ _ _ _ Hl Hn Ha Ht Hpay)
    as (store' & o & E2 & Hl'). rewrite E2 in Happ. injection Happ as <- <-.
  split; [| done]. split; cbn; try done. by rewrite <- Hns.
Qed.

(** An insertion, whatever befalls it: it succeeds, or it poisons the handle. *)
Lemma pp_append_outcome n ns l rs input i r (fp : AppendFault) :
  pp_inv n ns l rs -> (Z.of_nat n < u64_size - 2)%Z -> pp_fits l input -> to_insert l input i r ->
  exists b, to_vec r = Ok b /\
  match PP_append l input fp with
  | (_, Ok outcome) => outcome = Inserted r
  | (l1, Err _) =>
      fp <> Disabled /\ pl_poisoned l1 = true /\ pl_state l1 = pl_state l /\
      forall disk,
        if ambiguous fp b then
          exists at_, PP_open (PP_close disk l1) ns = Err (storage_error wal_message (AmbiguousPartialPayload at_))
        else
          exists l', PP_open (PP_close disk l1) ns = Ok l' /\
            pp_inv (S n) ns l' (match survivors [] [] fp with [] => rs | _ => rs ++ [r] end)
  end.
Proof.
  intros [Hns Hok Hp Hl] Hn Hfit (Ei & Er & Hbody & Hdig).
  destruct (pp_append_absent l input i fp Hp Ei Er) as (r1 & b & Hb & Ha & Ht & E).
  pose proof (proj1 (apply_record_spec _ _ _ _) Ha) as (Hwf & _).
  assert (r1 = r) as -> by (pose proof (wf_hash _ _ Hwf) as D; destruct r1, r; cbn in *; congruence).
  assert (payload_ok b) as Hpay by (eapply (Hfit i r); done).
  exists b. split; [done |]. rewrite E. rewrite <- Hns in Hl.
  destruct (Store_append (pl_store l) b fp) as [store1 [o1|err]] eqn:Es; [done |]. split_and!; [| done | done |].
  { destruct Hl as [(sg & s & ps & Hs & Hsb & _) _]. intros ->. eapply disabled_append_ok; [exact Hs | exact Hpay | lia | exact Es]. }
  intros disk. pose proof (log_failed_commit (L := pp_log (pl_namespace l)) _ _ _ _ _ _ _ _ _ _ Hl Hn Ha Ht Hpay Es) as Hre.
  assert (default (mkRoot ∅ ∅ None false) (PP_close disk (mkPPLedger (pl_namespace l) store1 (pl_state l) true) !! ns)
          = Store_close store1) as Hdisk by (unfold PP_close; cbn; by rewrite Hns, lookup_insert_eq).
  destruct (ambiguous fp b).
  { destruct Hre as (at_ & Ho). exists at_. unfold ProofPath.PP_open. rewrite Hok. cbn [rbind]. by rewrite Hdisk, Ho. }
  destruct Hre as (st2 & Ho & Hl2). rewrite Hns in Hl2. rewrite <- Hdisk in Ho.
  destruct fp as [[]| | |]; cbn [survivors app] in Hl2 |- *;
    destruct (pp_open_log _ _ _ _ _ _ Hok Ho Hl2) as [Hopen Hinv]; eauto.
Qed.

Lemma pp_reopen n ns l rs disk :
  pp_inv n ns l rs ->
  exists l', PP_open (PP_close disk l) ns = Ok l' /\ pl_state l' = pl_state l /\
             pp_inv n ns l' rs.
Proof.
  intros [Hns Hok Hp Hl]. destruct (log_reopen (L := pp_log ns) _ _ _ _ Hl) as (st' & Ho & Hl').
  destruct (pp_open_log n ns (PP_close disk l) st' rs (pl_state l)) as [Hopen Hinv]; try done.
  - unfold PP_close. rewrite Hns, lookup_insert_eq. exact Ho.
  - eauto.
Qed.

Lemma pp_inv_weaken n m ns l rs : n <= m -> pp_inv n ns l rs -> pp_inv m ns l rs.
Proof.
  intros Hle [Hns Hok Hp [(sg & s & ps & Hs & Hb & He) Hr]]. split; try done. split; [| done].
  exists sg, s, ps. split_and!; [done | lia | done].
Qed.

Lemma pp_run_inv n ns l rs : pp_run n ns l rs -> (Z.of_nat n < u64_size - 2)%Z -> pp_inv n ns l rs.
Proof.
  induction 1 as [ns l Ho | n ns l rs input l' r Hrun IH Hfit Happ | n ns l rs disk l' Hrun IH Ho
    | n ns l rs input i fp l1 e disk l' r Hrun IH Hfit Hins Happ Ho]; intros Hn.
  - assert (normalize_namespace ns = Ok ns) as Hns.
    { unfold ProofPath.PP_open in Ho. destruct (normalize_namespace ns) as [w|] eqn:En; [| done].
      f_equal. by apply normalize_namespace_id. }
    destruct (log_open_fresh (L := pp_log ns)) as (st & Hst & Hl).
    destruct (pp_open_log 0 ns ∅ st [] ProofPathDurableState_default Hns) as [Hopen Hinv]; try done.
    rewrite Ho in Hopen. by injection Hopen as ->.
  - eapply pp_append_insert; [apply IH; lia | lia | done | done].
  - destruct (pp_reopen n ns l rs disk) as (l2 & Ho2 & _ & Hinv); [apply IH; lia |].
    rewrite Ho in Ho2. injection Ho2 as <-. by eapply pp_inv_weaken; [| exact Hinv]; lia.
  - destruct (pp_append_outcome n ns l rs input i r fp) as (b & _ & Hout); [apply IH; lia | lia | done | done |].
    rewrite Happ in Hout. destruct Hout as (_ & _ & _ & Hout). specialize (Hout disk).
    destruct (ambiguous fp b); [destruct Hout as (? & ?); congruence |].
    destruct Hout as (l3 & Ho3 & Hinv). rewrite Ho in Ho3. by injection Ho3 as <-.
Qed.

(** The authority boundary holds for every record of every ledger that opens. For any disk
    content, if opening a namespace succeeds, each record held was written for that namespace,
    authorizes storage and neither execution, mutation nor external effects, carries the digests
    of its own bytes and the hash of its own body, and is found under the key of its own
    operation. *)
Theorem proofpath_boundary disk ns l k r :
  PP_open disk ns = Ok l -> records (pl_state l) !! k = Some r ->
  well_formed ns r /\ k = ingestion_key ns (pb_logical_operation_id (pr_body r)) /\
  PP_get l (pb_logical_operation_id (pr_body r)) = Some r.
Proof.
  unfold ProofPath.PP_open. intros Ho Hk. rinv Ho. injection Ho as <-. cbn [pl_state] in Hk.
  match goal with E : normalize_namespace _ = Ok _ |- _ => apply normalize_namespace_id in E; subst end.
  match goal with E : replay_from _ _ _ = Ok _ |- _ =>
    change (log_replay_store (L := pp_log ns) a0 = Ok a1) in E; unfold log_replay_store in E; rinv E;
    destruct (log_records_inv (L := pp_log ns) _ _ _ E) as (rs & Hr & _) end.
  destruct (stored_replay ns rs a1 Hr) as [W L _ _].
  pose proof (proj1 (L _ _) Hk) as [Hin Hkey]. rewrite Forall_forall in W. pose proof (W _ Hin) as Hwf.
  rewrite (wf_key _ _ Hwf) in Hkey. split_and!; [done | done |].
  pose proof (wf_operation _ _ Hwf) as Hop. unfold bad_operation_id in Hop. bool_prop.
  match goal with E : ~ (trim _ <> _) |- _ => apply dec_stable in E; rename E into Htrim end.
  unfold PP_get. cbn [pl_state pl_namespace]. rewrite Htrim in *. rewrite decide_False by done.
  by rewrite Hkey.
Qed.

(** Appending is idempotent and fails closed. On a reachable ledger an input that normalizes
    is answered by what is stored for its operation: the stored record when it is the same
    evidence, a conflict when it is not, both without effect; when nothing is stored, a record of
    exactly this input is inserted, it is the one later returned for the operation, no other
    operation changes, and repeating the append returns it again without effect. *)
Theorem proofpath_append_idempotent n ns l rs input i :
  pp_run n ns l rs -> (Z.of_nat n < u64_size - 2)%Z -> pp_fits l input ->
  normalize_input input = Ok i ->
  match records (pl_state l) !! ingestion_key ns (pi_logical_operation_id i) with
  | Some r =>
      PP_append l input Disabled
      = (l, if equivalent_semantic_input r i then Ok (AlreadyPresent r) else Err IdempotencyConflict)
  | None =>
      exists l' r, PP_append l input Disabled = (l', Ok (Inserted r)) /\
        pr_body r = body_of_input l (ingestion_key ns (pi_logical_operation_id i)) i /\
        PP_get l' (pi_logical_operation_id i) = Some r /\
        (forall k, k <> ingestion_key ns (pi_logical_operation_id i) ->
           records (pl_state l') !! k = records (pl_state l) !! k) /\
        forall fp, PP_append l' input fp = (l', Ok (AlreadyPresent r))
  end.
Proof.
  intros Hrun Hn Hfit Hi. pose proof (pp_run_inv _ _ _ _ Hrun Hn) as Hinv.
  pose proof Hinv as [Hns Hok Hp Hl]. rewrite <- Hns.
  destruct (records (pl_state l) !! _) as [r|] eqn:Er; [by apply pp_append_present |].
  destruct (pp_append_absent l input i Disabled Hp Hi Er) as (r & b & Hb & Ha & Ht & E1).
  pose proof (proj1 (apply_record_spec _ _ _ _) Ha) as (Hwf & _).
  assert (payload_ok b) as Hpay by (eapply (Hfit i r); [done | done | apply Hwf | done]).
  rewrite <- Hns in Hl.
  destruct (log_commit (L := pp_log (pl_namespace l)) _ _ _ _ _ _ _ Hl Hn Ha Ht Hpay)
    as (store' & o & E2 & _). rewrite E2 in E1.
  set (l' := mkPPLedger (pl_namespace l) store' (accept (pl_state l) r) false) in *.
  assert (pb_ingestion_key (pr_body r)
          = ingestion_key (pl_namespace l) (pi_logical_operation_id i)) as Hkey by (by rewrite Hb).
  assert (records (pl_state l') !! ingestion_key (pl_namespace l) (pi_logical_operation_id i) = Some r)
    as Hget by (unfold l', accept; cbn; rewrite Hkey; apply lookup_insert_eq).
  exists l', r. split_and!; try done.
  - pose proof (wf_operation _ _ Hwf) as Hop. rewrite Hb in Hop. cbn in Hop.
    unfold bad_operation_id in Hop. bool_prop.
    match goal with E : ~ (trim _ <> _) |- _ => apply dec_stable in E; rename E into Htrim end.
    unfold PP_get. rewrite Htrim in *. by rewrite decide_False.
  - intros k Hk. unfold l', accept. cbn. rewrite Hkey. by rewrite lookup_insert_ne.
  - intros fp. rewrite (pp_append_present l' input i r fp); [| done | done | done].
    unfold equivalent_semantic_input. rewrite Hb. cbn. rewrite Z.eqb_refl.
    by rewrite !bool_decide_eq_true_2 by done.
Qed.

(** C11: the ledger is durable. After any run of insertions, reopens and failed insertions followed by a reopen
    that succeeds, the records held are exactly the accepted ones in chain order, and reopening succeeds with the
    same state. An insertion of the next record, of an input for whose operation nothing is stored, either answers
    this record or, when it fails at whatever point, keeps the state and poisons the handle: every later append on it
    is refused without effect. A record that was cut in the middle of its payload is refused by every reopening;
    after any other failure reopening shows the record exactly when it was completely written. *)
Theorem proofpath_run_durable n ns l rs disk :
  pp_run n ns l rs -> (Z.of_nat n < u64_size - 2)%Z ->
  pp_replay ns rs = Ok (pl_state l) /\ stored ns rs (pl_state l) /\
  (exists l', PP_open (PP_close disk l) ns = Ok l' /\ pl_state l' = pl_state l) /\
  forall input i r (fp : AppendFault), pp_fits l input -> to_insert l input i r ->
    exists b, to_vec r = Ok b /\
    match PP_append l input fp with
    | (_, Ok outcome) => outcome = Inserted r
    | (l1, Err _) =>
        fp <> Disabled /\ pl_state l1 = pl_state l /\
        (forall input' fp', PP_append l1 input' fp' = (l1, Err PoisonedAfterStorageFailure)) /\
        if ambiguous fp b then
          exists at_, PP_open (PP_close disk l1) ns = Err (storage_error wal_message (AmbiguousPartialPayload at_))
        else
          exists l', PP_open (PP_close disk l1) ns = Ok l' /\
            pp_replay ns (match survivors [] [] fp with [] => rs | _ => rs ++ [r] end) = Ok (pl_state l')
    end.
Proof.
  intros Hrun Hn. pose proof (pp_run_inv _ _ _ _ Hrun Hn) as Hinv.
  pose proof (lv_state _ _ _ _ (pv_log _ _ _ _ Hinv)) as Hr.
  split_and!; [exact Hr | by apply stored_replay | |].
  - destruct (pp_reopen _ _ _ _ disk Hinv) as (l' & Ho & Hst & _). by exists l'.
  - intros input i r fp Hfit Hins. destruct (pp_append_outcome _ _ _ _ _ _ _ fp Hinv Hn Hfit Hins) as (b & Hb & Hout).
    exists b. split; [done |]. destruct (PP_append l input fp) as [l1 [o|e]]; [done |].
    destruct Hout as (Hdis & Hpois & Hst & Hout). specialize (Hout disk). split_and!; [done | done | |].
    + intros input' fp'. unfold ProofPath.PP_append. by rewrite Hpois.
    + destruct (ambiguous fp b); [exact Hout |]. destruct Hout as (l' & Ho & Hinv'). exists l'. split; [done |].
      exact (lv_state _ _ _ _ (pv_log _ _ _ _ Hinv')).
Qed.
End spec.

(** A namespace is one safe path component. Exactly the names of 1 to 64 bytes that consist of
    ASCII letters, digits, dots, underscores and hyphens and start with a letter or digit are
    accepted, unchanged; in particular no name contains a separator or is a relative directory. *)
Theorem proofpath_namespace_safe v w :
  normalize_namespace v = Ok w <->
  w = v /\ trim v = v /\ 1 <= length (as_bytes v) <= 64 /\
  Forall (fun b => namespace_byte b = true) (as_bytes v) /\
  (exists first, head (as_bytes v) = Some first /\ is_ascii_alphanumeric first = true) /\
  Byte.x2f ∉ as_bytes v /\ v <> "." /\ v <> "..".
Proof.
  unfold normalize_namespace. cbv zeta. split.
  - intros Hv. rinv Hv. injection Hv as <-. bool_prop.
    match goal with E : ~ (trim v <> v) |- _ => apply dec_stable in E; rename E into Ht end.
    rewrite Ht in *. destruct (as_bytes v) as [|x l] eqn:Ev; [done |].
    assert (Forall (fun b => namespace_byte b = true) (x :: l)) as Hall
      by (apply Forall_forall; intros y Hy%list_elem_of_In;
          match goal with E : forallb _ _ = true |- _ => by apply (proj1 (forallb_forall _ _) E) end).
    match goal with E : (_ <=? 64) = true |- _ => apply Nat.leb_le in E end.
    split_and!; try done; [cbn; lia | by exists x |].
    intros Hin. rewrite Forall_forall in Hall. by specialize (Hall _ Hin).
  - intros (-> & Ht & Hlen & Hall & (x & Hx & Hax) & _ & N1 & N2). rewrite Ht.
    assert (forallb namespace_byte (as_bytes v) = true) as ->.
    { apply forallb_forall. intros y Hy. rewrite Forall_forall in Hall. apply Hall.
      by apply list_elem_of_In. }
    rewrite !(bool_decide_eq_false_2 (v = _)), (bool_decide_eq_false_2 (v <> v)) by naive_solver.
    destruct (as_bytes v) as [|y l]; [done |]. cbn in Hx. injection Hx as ->. rewrite Hax.
    rewrite (proj2 (Nat.leb_le _ _)) by lia. done.
Qed.

(** ** Witnesses *)
Global Instance Ser_byte : Ser Byte.byte :=
  {| ser b := [b]; par s := match s with b :: rest => Some (b, rest) | [] => None end |}.
Global Instance Ser_byte_ok : SerOk Byte.byte.
Proof. done. Qed.

Global Instance Ser_pp_body : Ser ProofPathDurableRecordBody :=
  Ser_via (fun b => (pb_schema b, pb_profile b, pb_sequence b, pb_namespace b, pb_ingestion_key b,
      pb_logical_operation_id b, pb_source_event_sha256 b, pb_source_receipt_ref b,
      pb_admission_report_sha256 b, pb_producer_repository b, pb_producer_capability_id b,
      pb_producer_capability_commit b, pb_consumer_repository b, pb_consumer_import_commit b,
      pb_consumer_contract_blob_sha b, pb_valid_time_ms b, pb_transaction_time_ms b,
      pb_source_event_bytes b, pb_admission_report_bytes b, pb_storage_admission_ref b,
      pb_persistence_scope b, pb_storage_write_authorized b, pb_execution_authorized b,
      pb_mutation_authorized b, pb_external_effects_authorized b, pb_previous_record_hash b))
    (fun '(x1, x2, x3, x4, x5, x6, x7, x8, x9, x10, x11, x12, x13, x14, x15, x16, x17, x18, x19, x20,
           x21, x22, x23, x24, x25, x26) =>
       Some (mkPPBody x1 x2 x3 x4 x5 x6 x7 x8 x9 x10 x11 x12 x13 x14 x15 x16 x17 x18 x19 x20
               x21 x22 x23 x24 x25 x26)).
Global Instance Ser_pp_body_ok : SerOk ProofPathDurableRecordBody.
Proof. apply Ser_via_ok. by intros []. Qed.

Global Instance Ser_pp_record : Ser ProofPathDurableRecord :=
  Ser_via (fun r => (pr_body r, pr_record_hash r)) (fun '(b, h) => Some (mkPPRecord b h)).
Global Instance Ser_pp_record_ok : SerOk ProofPathDurableRecord.
Proof. apply Ser_via_ok. by intros []. Qed.

Definition cbor_pp_body : Cbor ProofPathDurableRecordBody := Cbor_of _.
Definition cbor_pp_body_total : @CborTotal _ cbor_pp_body := Cbor_of_total _.
Definition cbor_pp_record : Cbor ProofPathDurableRecord := Cbor_of _.
Definition cbor_pp_record_ok : @CborOk _ cbor_pp_record := Cbor_of_ok _.
Definition cbor_pp_record_total : @CborTotal _ cbor_pp_record := Cbor_of_total _.

Section witnesses.
Local Existing Instances ieee ieee_ok checksum_sha checksum_sha_ok cbor_pp_body cbor_pp_body_total
  cbor_pp_record cbor_pp_record_ok cbor_pp_record_total.

Definition pw_message (_ : WalError) : string := "wal".
Definition pw_no_ledger : ProofPathDurableLedger :=
  mkPPLedger "" (mkStore ∅ ∅ None (mkWriter 1 1 (mkHandle "" 0) 0)) ProofPathDurableState_default true.
Definition pw_ok {A E : Type} (d : A) (r : result A E) : A :=
  match r with
  | Ok a => a
  | Err _ => d
  end.

Definition pw_input : ProofPathDurableInput :=
  mkPPInput "op-1" (as_bytes "event") (as_bytes "report") (sha256_ref (as_bytes "receipt")) 5 7
    (sha256_ref (as_bytes "admission")).
Definition pw_ledger0 : ProofPathDurableLedger :=
  Eval vm_compute in pw_ok pw_no_ledger (PP_open pw_message ∅ "ns-1").
Definition pw_ledger1 : ProofPathDurableLedger :=
  Eval vm_compute in (PP_append pw_message pw_ledger0 pw_input Disabled).1.
Definition pw_record : ProofPathDurableRecord :=
  Eval vm_compute in
    match (PP_append pw_message pw_ledger0 pw_input Disabled).2 with
    | Ok (Inserted r) => r
    | _ => mkPPRecord (body_of_input pw_ledger0 "" pw_input) ""
    end.

(** [pp_fits] by evaluation. *)
Definition pw_fits (l : ProofPathDurableLedger) (input : ProofPathDurableInput) : bool :=
  match normalize_input input with
  | Err _ => true
  | Ok i =>
      let body := body_of_input l (ingestion_key (pl_namespace l) (pi_logical_operation_id i)) i in
      match digest_cbor Encoding body with
      | Err _ => true
      | Ok h => match to_vec (mkPPRecord body h) with
                | Ok b => (blen b <? u32_size)%Z
                | Err _ => true
                end
      end
  end.

Lemma pw_fits_ok l input : pw_fits l input = true -> pp_fits l input.
Proof.
  intros Hf i [body h] b Hi Hb Hd Ht. cbn in Hb, Hd. subst body. unfold pw_fits in Hf.
  rewrite Hi, Hd, Ht in Hf. by apply Z.ltb_lt.
Qed.

Lemma pw_run0 : pp_run pw_message 0 "ns-1" pw_ledger0 [].
Proof. apply ppr_open. vm_cast_no_check (eq_refl (Ok (E := ProofPathDurableError) pw_ledger0)). Qed.

Lemma pw_run1 : pp_run pw_message 1 "ns-1" pw_ledger1 [pw_record].
Proof.
  eapply (ppr_insert pw_message 0 "ns-1" pw_ledger0 [] pw_input); [apply pw_run0 | |].
  - apply pw_fits_ok. vm_cast_no_check (eq_refl true).
  - vm_cast_no_check (eq_refl (pw_ledger1, Ok (E := ProofPathDurableError) (Inserted pw_record))).
Qed.

Definition pw_disk : gmap string Root := Eval vm_compute in PP_close ∅ pw_ledger1.
Definition pw_ledger2 : ProofPathDurableLedger :=
  Eval vm_compute in pw_ok pw_no_ledger (PP_open pw_message pw_disk "ns-1").

Lemma proofpath_boundary_witness : pb_execution_authorized (pr_body pw_record) = false.
Proof.
  exact (wf_execution _ _ (proj1 (proofpath_boundary pw_message pw_disk "ns-1" pw_ledger2
    (ingestion_key "ns-1" "op-1") pw_record
    ltac:(vm_cast_no_check (eq_refl (Ok (E := ProofPathDurableError) pw_ledger2)))
    ltac:(vm_cast_no_check (eq_refl (Some pw_record)))))).
Defined.

Lemma proofpath_append_idempotent_witness :
  exists l' r, PP_append pw_message pw_ledger0 pw_input Disabled = (l', Ok (Inserted r)) /\
               forall fp, PP_append pw_message l' pw_input fp = (l', Ok (AlreadyPresent r)).
Proof.
  pose proof (proofpath_append_idempotent pw_message 0 "ns-1" pw_ledger0 [] pw_input pw_input pw_run0
    eq_refl (pw_fits_ok _ _ ltac:(vm_cast_no_check (eq_refl true)))
    ltac:(vm_cast_no_check (eq_refl (Ok (E := ProofPathDurableError) pw_input)))) as Hw.
  assert (records (pl_state pw_ledger0) !! ingestion_key "ns-1" (pi_logical_operation_id pw_input) = None)
    as E by (vm_cast_no_check (eq_refl (@None ProofPathDurableRecord))).
  rewrite E in Hw. destruct Hw as (l' & r & Ha & _ & _ & _ & Hr). exact (ex_intro _ l' (ex_intro _ r (conj Ha Hr))).
Defined.

(** The first insertion cut after ten bytes, six of them of the payload. *)
Definition pw_cut : ProofPathDurableLedger :=
  Eval vm_compute in (PP_append pw_message pw_ledger0 pw_input (CutAt 10)).1.
Lemma pw_insert : to_insert pw_ledger0 pw_input pw_input pw_record.
Proof.
  split_and!.
  - vm_cast_no_check (eq_refl (Ok (E := ProofPathDurableError) pw_input)).
  - vm_cast_no_check (eq_refl (@None ProofPathDurableRecord)).
  - vm_cast_no_check (eq_refl (pr_body pw_record)).
  - vm_cast_no_check (eq_refl (Ok (E := ProofPathDurableError) (pr_record_hash pw_record))).
Qed.

Lemma proofpath_run_durable_witness :
  pp_replay "ns-1" [pw_record] = Ok (pl_state pw_ledger1) /\
  (forall input' fp', PP_append pw_message pw_cut input' fp' = (pw_cut, Err PoisonedAfterStorageFailure)) /\
  exists at_, PP_open pw_message (PP_close ∅ pw_cut) "ns-1" = Err (storage_error pw_message (AmbiguousPartialPayload at_)).
Proof.
  split; [exact (proj1 (proofpath_run_durable pw_message 1 "ns-1" pw_ledger1 [pw_record] ∅ pw_run1 eq_refl)) |].
  pose proof (proofpath_run_durable pw_message 0 "ns-1" pw_ledger0 [] ∅ pw_run0 eq_refl) as (_ & _ & _ & Hins).
  destruct (Hins pw_input pw_input pw_record (CutAt 10) (pw_fits_ok _ _ ltac:(vm_cast_no_check (eq_refl true))) pw_insert)
    as (b & Hb & Hout).
  assert (PP_append pw_message pw_ledger0 pw_input (CutAt 10) = (pw_cut, Err (Storage "wal"))) as E
    by (vm_cast_no_check (eq_refl (pw_cut, Err (A := ProofPathAppendOutcome) (Storage "wal")))).
  rewrite E in Hout. destruct Hout as (_ & _ & Hp & Hout).
  assert (pw_ok [] (to_vec pw_record) = b) as Hb' by (by rewrite Hb).
  assert (ambiguous (CutAt 10) b = true) as Ha by (rewrite <- Hb'; vm_compute; reflexivity).
  rewrite Ha in Hout. exact (conj Hp Hout).
Defined.
End witnesses.
