(* ===== verification/Governance.v ===== *)
(** * The governance checkpoint bridge

    [liminal-store/src/governance_checkpoint_bridge.rs]: an envelope that describes one transition
    of a governed world is validated, recorded in the transition ledger, and answered with a
    signed checkpoint and a receipt. The texts of nested errors are parameters. *)

From stdpp Require Import prelude gmap strings list fin_maps.
From Stdlib Require Import ZArith Lia.
From S2P Require Import Prelude RustStr Wal Crypto Transition SnapshotDurability Ledger Checkpoint.

Definition GOVERNANCE_ENVELOPE_SCHEMA : string := "liminalosai-governance-transition-envelope-v0.1".
Definition GOVERNANCE_RECEIPT_SCHEMA : string :=
  "liminaldb-liminalosai-governance-checkpoint-receipt-v0.1".
Definition SUBJECT_ID : string := "liminalosai:durable-governance".
Definition VERIFIED_STATUS : string := "LOCAL_SIGNATURE_VERIFIED".
Definition ZERO_SHA256 : string :=
  "0000000000000000000000000000000000000000000000000000000000000000".

Record GovernanceTransitionEnvelopeBody : Type := mkEnvelopeBody {
  ge_schema : string;
  ge_root_id_sha256 : string;
  ge_transition_kind : string;
  ge_generation_before : Z;
  ge_generation_after : Z;
  ge_world_before_sha256 : string;
  ge_world_after_sha256 : string;
  ge_reservation_sha256 : string;
  ge_operation_sha256 : string;
  ge_upstream_receipt_sha256 : string;
  ge_captured_at_ms : Z
}.

Record GovernanceTransitionEnvelope : Type := mkEnvelope {
  en_body : GovernanceTransitionEnvelopeBody;
  en_envelope_ref : string
}.

Record GovernanceCheckpointReceiptBody : Type := mkReceiptBody {
  gr_schema : string;
  gr_envelope_ref : string;
  gr_root_id_sha256 : string;
  gr_transition_kind : string;
  gr_generation_before : Z;
  gr_generation_after : Z;
  gr_world_before_sha256 : string;
  gr_world_after_sha256 : string;
  gr_reservation_sha256 : string;
  gr_operation_sha256 : string;
  gr_upstream_receipt_sha256 : string;
  gr_event_hash : string;
  gr_checkpoint_ref : string;
  gr_event_chain_head : string;
  gr_last_sequence : Z;
  gr_projection_digest : string;
  gr_snapshot_digest : string;
  gr_signer_id : string;
  gr_key_id : string;
  gr_verification_status : string
}.

Record GovernanceCheckpointReceipt : Type := mkReceipt {
  rc_body : GovernanceCheckpointReceiptBody;
  rc_receipt_ref : string
}.

Record GovernanceCheckpointBundle : Type := mkBundle {
  bu_envelope : GovernanceTransitionEnvelope;
  bu_receipt : GovernanceCheckpointReceipt;
  bu_checkpoint : SignedCheckpointManifest;
  bu_trusted_key : TrustedCheckpointKey
}.

Inductive GovernanceCheckpointBridgeError : Type :=
| GInvalidField (label : string)
| EnvelopeDigestMismatch
| GLedger (message : string)
| GCheckpoint (message : string)
| GEncoding (message : string).

Abbreviation gresult A := (result A GovernanceCheckpointBridgeError).

(** ** Validation *)
Definition is_raw_sha (value : string) : bool :=
  bool_decide (length (as_bytes value) = 64) && forallb is_lower_hex (as_bytes value).

Definition validate_raw_sha (value label : string) (allow_zero : bool) : gresult unit :=
  if negb (is_raw_sha value) || (negb allow_zero && bool_decide (value = ZERO_SHA256))
  then Err (GInvalidField label) else Ok tt.

Definition validate_ref (value label : string) : gresult unit :=
  if is_sha256_ref value then Ok tt else Err (GInvalidField label).

(** The guard of each transition kind; [true] is refused. *)
Definition kind_guard (b : GovernanceTransitionEnvelopeBody) : option (bool * string) :=
  let zero x := bool_decide (x = ZERO_SHA256) in
  let advanced := (ge_generation_after b =? u64_saturating_add (ge_generation_before b) 1)%Z in
  let k := ge_transition_kind b in
  if decide (k = "initialize") then
    Some (negb (ge_generation_before b =? 0)%Z || negb (ge_generation_after b =? 0)%Z
          || negb (zero (ge_world_before_sha256 b)) || negb (zero (ge_reservation_sha256 b))
          || negb (zero (ge_operation_sha256 b)), "initialize_semantics")
  else if decide (k = "reserve") then
    Some (negb (ge_generation_after b =? ge_generation_before b)%Z
          || bool_decide (ge_world_after_sha256 b <> ge_world_before_sha256 b)
          || zero (ge_reservation_sha256 b) || zero (ge_operation_sha256 b), "reserve_semantics")
  else if decide (k = "commit") then
    Some (negb advanced || zero (ge_reservation_sha256 b) || zero (ge_operation_sha256 b),
          "commit_semantics")
  else if decide (k = "mutate") then
    Some (negb advanced || negb (zero (ge_reservation_sha256 b))
          || negb (zero (ge_operation_sha256 b)), "mutate_semantics")
  else if decide (k = "reconcile") then
    Some (negb advanced || zero (ge_reservation_sha256 b)
          || negb (zero (ge_operation_sha256 b)), "reconcile_semantics")
  else None.

Definition validate_body (b : GovernanceTransitionEnvelopeBody) : gresult unit :=
  if bool_decide (ge_schema b <> GOVERNANCE_ENVELOPE_SCHEMA) then Err (GInvalidField "schema")
  else
    check! validate_raw_sha (ge_root_id_sha256 b) "root_id_sha256" false in
    check! validate_raw_sha (ge_world_before_sha256 b) "world_before_sha256" true in
    check! validate_raw_sha (ge_world_after_sha256 b) "world_after_sha256" false in
    check! validate_raw_sha (ge_reservation_sha256 b) "reservation_sha256" true in
    check! validate_raw_sha (ge_operation_sha256 b) "operation_sha256" true in
    check! validate_raw_sha (ge_upstream_receipt_sha256 b) "upstream_receipt_sha256" false in
    match kind_guard b with
    | Some (true, label) => Err (GInvalidField label)
    | Some (false, _) => Ok tt
    | None => Err (GInvalidField "transition_kind")
    end.

(** [str::trim_start_matches]. *)
Definition trim_start_matches (s pat : string) : string :=
  of_bytes (strip_while (length (as_bytes s)) [as_bytes pat] (as_bytes s)).

Section governance.
Context `{Crc32, Sha256, Ed25519, Cbor TransitionEventBody, Cbor TransitionEvent,
          Cbor ProjectionDigestMaterial, Cbor TransitionLedgerSnapshotBody,
          Cbor TransitionLedgerSnapshot, Cbor CheckpointManifestBody,
          Cbor GovernanceTransitionEnvelopeBody, Cbor GovernanceCheckpointReceiptBody}.
Context (wal_message : WalError -> string) (ledger_text : TransitionLedgerError -> string)
        (checkpoint_text : CheckpointError -> string).

Definition envelope_build (body : GovernanceTransitionEnvelopeBody)
  : gresult GovernanceTransitionEnvelope :=
  check! validate_body body in
  let! r := digest_cbor GEncoding body in
  Ok (mkEnvelope body r).

Definition envelope_verify (e : GovernanceTransitionEnvelope) : gresult unit :=
  check! validate_body (en_body e) in
  let! r := digest_cbor GEncoding (en_body e) in
  if decide (r = en_envelope_ref e) then Ok tt else Err EnvelopeDigestMismatch.

Definition receipt_verify (r : GovernanceCheckpointReceipt) : gresult unit :=
  let b := rc_body r in
  if bool_decide (gr_schema b <> GOVERNANCE_RECEIPT_SCHEMA)
     || bool_decide (gr_verification_status b <> VERIFIED_STATUS)
  then Err (GInvalidField "receipt_schema_or_status")
  else
    check! validate_ref (gr_envelope_ref b) "envelope_ref" in
    check! validate_ref (gr_event_hash b) "event_hash" in
    check! validate_ref (gr_checkpoint_ref b) "checkpoint_ref" in
    check! validate_ref (gr_event_chain_head b) "event_chain_head" in
    check! validate_ref (gr_projection_digest b) "projection_digest" in
    check! validate_ref (gr_snapshot_digest b) "snapshot_digest" in
    check! validate_raw_sha (gr_root_id_sha256 b) "root_id_sha256" false in
    check! validate_raw_sha (gr_world_before_sha256 b) "world_before_sha256" true in
    check! validate_raw_sha (gr_world_after_sha256 b) "world_after_sha256" false in
    check! validate_raw_sha (gr_reservation_sha256 b) "reservation_sha256" true in
    check! validate_raw_sha (gr_operation_sha256 b) "operation_sha256" true in
    check! validate_raw_sha (gr_upstream_receipt_sha256 b) "upstream_receipt_sha256" false in
    let! d := digest_cbor GEncoding b in
    if decide (d = rc_receipt_ref r) then Ok tt else Err (GInvalidField "receipt_ref").

Definition governance_transition_id (e : GovernanceTransitionEnvelope) : string :=
  "liminalosai-governance-" +:+ trim_start_matches (en_envelope_ref e) "sha256:".

Definition governance_input (e : GovernanceTransitionEnvelope) : TransitionEventInput :=
  mkInput (governance_transition_id e) SUBJECT_ID Authorization (en_envelope_ref e)
    (en_envelope_ref e) TransitionLinks_default None None (ge_captured_at_ms (en_body e)).

Definition receipt_body (e : GovernanceTransitionEnvelope) (event : TransitionEvent)
    (c : SignedCheckpointManifest) : GovernanceCheckpointReceiptBody :=
  let b := en_body e in
  let m := sm_body c in
  mkReceiptBody GOVERNANCE_RECEIPT_SCHEMA (en_envelope_ref e) (ge_root_id_sha256 b)
    (ge_transition_kind b) (ge_generation_before b) (ge_generation_after b)
    (ge_world_before_sha256 b) (ge_world_after_sha256 b) (ge_reservation_sha256 b)
    (ge_operation_sha256 b) (ge_upstream_receipt_sha256 b) (e_event_hash event)
    (sm_manifest_ref c) (mb_event_chain_head m) (mb_last_sequence m) (mb_projection_digest m)
    (mb_snapshot_digest m) (mb_signer_id m) (mb_key_id m) VERIFIED_STATUS.

(** The steps after the snapshot: material, signature, self-check and receipt. *)
Definition seal (l : TrustworthyTransitionLedger) (e : GovernanceTransitionEnvelope)
    (event : TransitionEvent) (snapshot : TransitionLedgerSnapshotInfo) (signer : CheckpointSigner)
    (issued_at : Z) : gresult GovernanceCheckpointBundle :=
  let cp_err x := GCheckpoint (checkpoint_text x) in
  let! material := map_err cp_err
                     (checkpoint_material ledger_text l
                        ("sha256:" +:+ ge_root_id_sha256 (en_body e)) snapshot) in
  let! checkpoint := map_err cp_err (sign signer material issued_at None None) in
  let key := trusted_key signer 0 None None in
  let! registry := map_err cp_err (registry_insert TrustedKeyRegistry_default key) in
  check! map_err cp_err (verify_signed_checkpoint checkpoint registry issued_at) in
  let body := receipt_body e event checkpoint in
  let! r := digest_cbor GEncoding body in
  let receipt := mkReceipt body r in
  check! receipt_verify receipt in
  Ok (mkBundle e receipt checkpoint key).

(** What a failed [open] leaves: opening the store may have repaired the tail of the WAL. *)
Definition opened_root (root : Root) : Root :=
  match Store_open root with
  | Ok store => Store_close store
  | Err _ => root
  end.

(** [append_governance_checkpoint]: the directory it leaves, and its result unless the process
    died in the snapshot. *)
Definition append_governance_checkpoint (root : Root) (e : GovernanceTransitionEnvelope)
    (signer : CheckpointSigner) (issued_at : Z) (fp : AppendFault) (F : faults)
  : Root * option (gresult GovernanceCheckpointBundle) :=
  match envelope_verify e with
  | Err x => (root, Some (Err x))
  | Ok _ =>
      if (issued_at <? ge_captured_at_ms (en_body e))%Z
      then (root, Some (Err (GInvalidField "issued_at_ms")))
      else
        match Ledger_open wal_message root with
        | Err x => (opened_root root, Some (Err (GLedger (ledger_text x))))
        | Ok l =>
            match Ledger_append wal_message l (governance_input e) fp with
            | (l1, Err x) => (Ledger_close l1, Some (Err (GLedger (ledger_text x))))
            | (l1, Ok event) =>
                match run_snapshot l1 (write_snapshot l1 issued_at) F with
                | (l2, None) => (Ledger_close l2, None)
                | (l2, Some (Err x)) => (Ledger_close l2, Some (Err (GLedger (ledger_text x))))
                | (l2, Some (Ok info)) =>
                    (Ledger_close l2, Some (seal l2 e event info signer issued_at))
                end
            end
        end
  end.
End governance.
