(* ===== verification/GovernanceProps.v ===== *)
(** * Properties of the governance checkpoint bridge

    Sealing, validation and receipts agree; an envelope that was built verifies; and on any reachable ledger
    a new envelope is recorded, answered, and found again ([governance_checkpoint_end_to_end]). *)

From stdpp Require Import prelude gmap strings list fin_maps sorting.
From Stdlib Require Import ZArith Lia.
From S2P Require Import Prelude RustStr Wal WalSpec WalRead WalProps Crypto Transition TransitionCodec TransitionInv SnapshotDurability Ledger LedgerProps Checkpoint CheckpointProps Governance.

(** ** What an accepted envelope says *)
Definition zero_sha (s : string) : Prop := s = ZERO_SHA256.

(** The meaning of each transition kind. *)
Definition kind_semantics (b : GovernanceTransitionEnvelopeBody) : Prop :=
  let advanced := ge_generation_after b = u64_saturating_add (ge_generation_before b) 1 in
  (ge_transition_kind b = "initialize" /\ ge_generation_before b = 0%Z /\
   ge_generation_after b = 0%Z /\ zero_sha (ge_world_before_sha256 b) /\
   zero_sha (ge_reservation_sha256 b) /\ zero_sha (ge_operation_sha256 b)) \/
  (ge_transition_kind b = "reserve" /\ ge_generation_after b = ge_generation_before b /\
   ge_world_after_sha256 b = ge_world_before_sha256 b /\
   ~ zero_sha (ge_reservation_sha256 b) /\ ~ zero_sha (ge_operation_sha256 b)) \/
  (ge_transition_kind b = "commit" /\ advanced /\
   ~ zero_sha (ge_reservation_sha256 b) /\ ~ zero_sha (ge_operation_sha256 b)) \/
  (ge_transition_kind b = "mutate" /\ advanced /\
   zero_sha (ge_reservation_sha256 b) /\ zero_sha (ge_operation_sha256 b)) \/
  (ge_transition_kind b = "reconcile" /\ advanced /\
   ~ zero_sha (ge_reservation_sha256 b) /\ zero_sha (ge_operation_sha256 b)).

(** The digest fields are well formed, and those that must be present are. *)
Definition fields_ok (b : GovernanceTransitionEnvelopeBody) : Prop :=
  ge_schema b = GOVERNANCE_ENVELOPE_SCHEMA /\
  Forall (fun s => is_raw_sha s = true)
    [ge_root_id_sha256 b; ge_world_before_sha256 b; ge_world_after_sha256 b;
     ge_reservation_sha256 b; ge_operation_sha256 b; ge_upstream_receipt_sha256 b] /\
  Forall (fun s => ~ zero_sha s)
    [ge_root_id_sha256 b; ge_world_after_sha256 b; ge_upstream_receipt_sha256 b].

Lemma validate_raw_sha_ok v label z :
  validate_raw_sha v label z = Ok tt <-> is_raw_sha v = true /\ (z = false -> ~ zero_sha v).
Proof.
  unfold validate_raw_sha, zero_sha. destruct (is_raw_sha v); cbn [negb orb]; [| naive_solver].
  destruct z; cbn [negb andb]; [naive_solver |]. case_bool_decide; naive_solver.
Qed.

Lemma validate_raw_any v label : is_raw_sha v = true -> validate_raw_sha v label true = Ok tt.
Proof. intros Hv. by apply validate_raw_sha_ok. Qed.

Lemma validate_raw_set v label :
  is_raw_sha v = true -> ~ zero_sha v -> validate_raw_sha v label false = Ok tt.
Proof. intros Hv Hz. by apply validate_raw_sha_ok. Qed.

Lemma kind_guard_ok b :
  (exists label, kind_guard b = Some (false, label)) <-> kind_semantics b.
Proof.
  unfold kind_guard, kind_semantics, zero_sha.
  assert (forall (g : bool) (l : string) (P : Prop), (g = false <-> P) ->
            (exists label, Some (g, l) = Some (false, label)) <-> P) as Hg.
  { intros g l P HP. rewrite <- HP. split; [by intros (? & [= -> _]) | intros ->; by exists l]. }
  repeat case_decide; try (apply Hg; rewrite ?orb_false_iff, ?negb_false_iff, ?Z.eqb_eq,
    ?bool_decide_eq_true, ?bool_decide_eq_false);
    match goal with
    | E : ge_transition_kind b = _ |- _ => rewrite E
    | _ => idtac
    end; try naive_solver.
Qed.

Lemma validate_body_ok b : validate_body b = Ok tt <-> fields_ok b /\ kind_semantics b.
Proof.
  rewrite <- kind_guard_ok. unfold validate_body, fields_ok.
  rewrite !Forall_cons, !Forall_nil.
  case_bool_decide as Hs; [naive_solver |].
  assert (forall v l z (k : gresult unit), rbind (validate_raw_sha v l z) (fun _ => k) = Ok tt <->
            (is_raw_sha v = true /\ (z = false -> ~ zero_sha v)) /\ k = Ok tt) as Hb.
  { intros v l z k. rewrite rbind_ok, <- validate_raw_sha_ok with (label := l).
    split; [intros ([] & ? & ?); done | intros [? ?]; by exists tt]. }
  rewrite !Hb.
  destruct (kind_guard b) as [[[] label]|]; naive_solver.
Qed.

(** ** The transition id of an envelope *)
Lemma lower_hex_not_ws b rest :
  is_lower_hex b = true -> strip_any (map reverse ws_encodings) (b :: rest) = None.
Proof. by destruct b. Qed.

Lemma lower_hex_not_prefix b rest :
  is_lower_hex b = true -> strip_any [as_bytes "sha256:"] (b :: rest) = None.
Proof. by destruct b. Qed.

Lemma hex_ends (d : bytes) :
  d <> [] -> exists h mid, hex_bytes d = mid ++ [h] /\ is_lower_hex h = true.
Proof.
  intros Hd. pose proof (hex_bytes_lower d) as Hl. pose proof (length_hex_bytes d) as Hlen.
  destruct (hex_bytes d) as [|h mid _] using rev_ind; [destruct d; cbn in Hlen; [done | lia] |].
  exists h, mid. split; [done |]. rewrite forallb_app in Hl. apply andb_true_iff in Hl as [_ Hl].
  cbn in Hl. by apply andb_true_iff in Hl as [Hl _].
Qed.

(** The id of a referenced envelope is already trimmed and not empty. *)
Lemma governance_id_trimmed (e : GovernanceTransitionEnvelope) (d : bytes) :
  en_envelope_ref e = of_bytes (as_bytes sha256_prefix ++ hex_bytes d) -> d <> [] ->
  trim (governance_transition_id e) = governance_transition_id e /\ governance_transition_id e <> "".
Proof.
  intros He Hd. destruct (hex_ends d Hd) as (h & mid & Hh & Hhex).
  assert (as_bytes (governance_transition_id e)
          = as_bytes "liminalosai-governance-" ++ hex_bytes d) as Hid.
  { assert (forall a b, as_bytes (a +:+ b) = as_bytes a ++ as_bytes b) as Happ.
    { intros a b. induction a as [|x a IH]; [done |].
      exact (f_equal (cons (Ascii.byte_of_ascii x)) IH). }
    unfold governance_transition_id, trim_start_matches. rewrite Happ, as_of_bytes. f_equal.
    rewrite He, as_of_bytes. change "sha256:" with sha256_prefix.
    destruct (hex_bytes d) as [|x l] eqn:Ex; [by destruct mid |].
    assert (is_lower_hex x = true) as Hx.
    { pose proof (hex_bytes_lower d) as Hl. rewrite Ex in Hl. cbn in Hl. by apply andb_true_iff in Hl as [? _]. }
    rewrite length_app. cbn [length Nat.add].
    change (length (as_bytes sha256_prefix)) with 7. cbn [Nat.add].
    change (strip_while (S (6 + S (length l))) [as_bytes sha256_prefix] (as_bytes sha256_prefix ++ x :: l)
            = x :: l).
    cbn [strip_while]. 
    change (strip_any [as_bytes sha256_prefix] (as_bytes sha256_prefix ++ x :: l)) with (Some (x :: l)).
    cbn [strip_while]. apply strip_while_id. by apply lower_hex_not_prefix. }
  split; [| intros E; apply (f_equal as_bytes) in E; by rewrite Hid in E].
  unfold trim. rewrite Hid. unfold trim_start.
  rewrite (strip_while_id _ ws_encodings) by done. unfold trim_end.
  rewrite (strip_while_id _ (map reverse ws_encodings)).
  - rewrite reverse_involutive, <- Hid. apply of_as_bytes.
  - rewrite Hh, reverse_app, reverse_snoc. by apply lower_hex_not_ws.
Qed.

Lemma raw_sha_ref v : is_raw_sha v = true -> is_sha256_ref ("sha256:" +:+ v) = true.
Proof.
  unfold is_raw_sha, is_sha256_ref. intros [Hlen Hhex]%andb_true_iff.
  apply bool_decide_eq_true in Hlen.
  change (as_bytes ("sha256:" +:+ v)) with (as_bytes "sha256:" ++ as_bytes v).
  rewrite length_app, Hlen. change (length (as_bytes "sha256:") + 64) with 71.
  change (take 7 (as_bytes "sha256:" ++ as_bytes v)) with (as_bytes sha256_prefix).
  change (drop 7 (as_bytes "sha256:" ++ as_bytes v)) with (as_bytes v).
  by rewrite Hhex, !bool_decide_eq_true_2 by done.
Qed.

Lemma windows2_middle {A} (pre : list A) x y post : (x, y) ∈ windows2 (pre ++ x :: y :: post).
Proof.
  induction pre as [|a pre IH]; [by left |].
  destruct pre as [|b pre]; cbn [app] in *; rewrite windows2_cons2; by right.
Qed.

Section bridge.
Context `{Crc32, !Crc32Ok, Sha256, !Sha256Ok, Ed25519, !Ed25519Ok,
          Cbor TransitionEventBody, !CborTotal TransitionEventBody,
          Cbor TransitionEvent, !CborOk TransitionEvent, !CborTotal TransitionEvent,
          Cbor ProjectionDigestMaterial, !CborTotal ProjectionDigestMaterial,
          Cbor TransitionLedgerSnapshotBody, !CborTotal TransitionLedgerSnapshotBody,
          Cbor TransitionLedgerSnapshot, !CborOk TransitionLedgerSnapshot,
          !CborTotal TransitionLedgerSnapshot,
          Cbor CheckpointManifestBody, !CborTotal CheckpointManifestBody,
          Cbor GovernanceTransitionEnvelopeBody,
          Cbor GovernanceCheckpointReceiptBody, !CborTotal GovernanceCheckpointReceiptBody}.
Context (wal_message : WalError -> string) (ledger_text : TransitionLedgerError -> string)
        (checkpoint_text : CheckpointError -> string).

(** An admissible input is appended. *)
Lemma append_admissible n l evs input nrm :
  ledger_run wal_message n l evs -> (Z.of_nat n < u64_size - 2)%Z -> event_fits l input ->
  normalize_input input = Ok nrm -> record_owners (lg_state l) !! i_record_ref nrm = None ->
  admissible (projections (lg_state l) !! i_transition_id nrm) nrm ->
  exists l1 ev, Ledger_append wal_message l input Disabled = (l1, Ok ev) /\
    e_body ev = body_of_input (lg_state l) nrm /\ ledger_run wal_message (S n) l1 (evs ++ [ev]).
Proof.
  intros Hrun Hn Hfit Hnrm Hfresh Hadm.
  destruct (run_ledger_inv _ _ _ _ Hrun Hn) as (sg & s & ps & Hinv).
  assert (state_ok (lg_state l)) as Hst.
  { eapply replay_ok; [apply default_ok | apply (li_state _ _ _ _ _ _ Hinv)]. }
  pose proof (li_bound _ _ _ _ _ _ Hinv).
  destruct (append_cases wal_message l input Disabled (li_poisoned _ _ _ _ _ _ Hinv))
    as [(e & _ & Hno) | (ev & c & b & Hprop & E)].
  { destruct (proj2 (proposes_iff l input nrm Hst Hnrm)) as (ev & c & b & Hprop); [done |].
    exfalso. by eapply Hno. }
  destruct (append_step _ _ _ _ _ (li_store _ _ _ _ _ _ Hinv) (Hfit _ _ _ Hprop) ltac:(lia))
    as (st' & o & sg' & s' & ps' & E2 & _). rewrite E2 in E. eexists _, ev. split; [exact E |].
  pose proof Hprop as (nrm' & Hn' & Hb & _). rewrite Hnrm in Hn'. injection Hn' as <-.
  split; [done |]. by eapply lr_append.
Qed.

Lemma digest_ok {A E} `{Cbor A, !CborTotal A} (f : string -> E) (a : A) :
  exists r, digest_cbor f a = Ok r /\ is_sha256_ref r = true.
Proof.
  destruct (digest_cbor_total f a) as (b & _ & Hd). exists (sha256_ref b).
  split; [done | apply sha256_ref_shape].
Qed.

(** Without faults a snapshot is written. *)
Lemma snapshot_written n l evs t :
  ledger_run wal_message n l evs -> (Z.of_nat n < u64_size - 2)%Z ->
  exists l2 info, run_snapshot l (write_snapshot l t) no_faults = (l2, Some (Ok info)) /\
                  ledger_run wal_message (S n) l2 evs.
Proof.
  intros Hrun Hn. destruct (run_ledger_inv _ _ _ _ Hrun Hn) as (sg & s & ps & Hinv).
  assert (exists snap b, build_snapshot l t = Ok (snap, b)) as (snap & b & Hb).
  { unfold build_snapshot, projection_digest.
    destruct (digest_ok (E := TransitionLedgerError) Encoding
      (mkMaterial (next_sequence (lg_state l)) (head_event_hash (lg_state l))
         (projections (lg_state l)) (record_owners (lg_state l)))) as (pd & -> & _). cbn [rbind].
    match goal with |- context [digest_cbor Encoding ?x] =>
      destruct (digest_ok (E := TransitionLedgerError) Encoding x) as (d & -> & _) end. cbn [rbind].
    match goal with |- context [to_vec ?x] =>
      pose proof (to_vec_total x) as Ht; destruct (to_vec x) as [b|]; [| done] end. cbn. eauto. }
  destruct (li_regular _ _ _ _ _ _ Hinv) as (R1 & R2 & R3).
  destruct (replace_total SNAPSHOT_FILE (st_snap (lg_store l)) 0 b R1 R2 R3) as (d' & n' & Hr).
  assert (write_snapshot l t no_faults (st_snap (lg_store l)) 0
          = Done d' n' (Ok (snapshot_info l snap))) as Hw.
  { unfold write_snapshot. rewrite Hb. unfold fs_bind, fs_try. by rewrite Hr. }
  eexists _, _. unfold run_snapshot at 1. rewrite Hw. split; [done |].
  eapply (lr_snapshot wal_message n l evs t false no_faults); [done |].
  unfold run_snapshot. cbn [snapshot_writer]. by rewrite Hw.
Qed.

Lemma trusted_key_valid signer_id key_id seed s :
  from_seed signer_id key_id seed = Ok s -> validate_trusted_key (trusted_key s 0 None None) = Ok tt.
Proof.
  intros (Hn1 & Hn2 & _)%from_seed_normalized. unfold validate_trusted_key, trusted_key.
  cbn [tk_signer_id tk_key_id tk_public_key_hex tk_valid_until_ms is_some_and].
  specialize (Hn1 "signer_id"). specialize (Hn2 "key_id").
  destruct (normalized (cs_signer_id s) _); [| done]. destruct (normalized (cs_key_id s) _); [| done].
  cbn [rbind]. unfold public_key_hex. by rewrite decode_fixed_encode by apply verifying_key_length.
Qed.

Lemma envelope_verify_ok e :
  envelope_verify e = Ok tt <->
  (fields_ok (en_body e) /\ kind_semantics (en_body e)) /\
  digest_cbor GEncoding (en_body e) = Ok (en_envelope_ref e).
Proof.
  rewrite <- validate_body_ok. unfold envelope_verify.
  destruct (validate_body (en_body e)) as [[]|]; cbn [rbind]; [| naive_solver].
  destruct (digest_cbor GEncoding (en_body e)); cbn [rbind]; [| naive_solver].
  case_decide; naive_solver.
Qed.

Lemma sign_ok s m issued :
  validate_material m = Ok tt ->
  exists c, sign s m issued None None = Ok c /\ material_of_body (sm_body c) = m /\
    mb_previous_checkpoint_ref (sm_body c) = None /\ is_sha256_ref (sm_manifest_ref c) = true.
Proof.
  intros Hm. unfold sign. rewrite Hm. cbn [rbind validate_expiry validate_optional].
  unfold canonical_bytes.
  match goal with |- context [to_vec ?x] =>
    pose proof (to_vec_total x) as Ht; destruct (to_vec x) as [b|]; [| done] end.
  cbn [map_err rbind]. eexists. split; [done |]. split_and!; try done; [by destruct m |].
  apply sha256_ref_shape.
Qed.

Lemma validate_material_refs m :
  validate_material m = Ok tt ->
  is_sha256_ref (cm_event_chain_head m) = true /\ is_sha256_ref (cm_projection_digest m) = true /\
  is_sha256_ref (cm_snapshot_digest m) = true.
Proof.
  unfold validate_material, Checkpoint.validate_ref. intros Hm. rinv Hm.
  repeat match goal with
    | E : (if is_sha256_ref ?x then _ else _) = Ok _ |- _ => destruct (is_sha256_ref x) eqn:?; [| done]
    end. done.
Qed.

(** The receipt of a checkpoint over validated material verifies. *)
Lemma receipt_ok e ev c :
  fields_ok (en_body e) -> is_sha256_ref (en_envelope_ref e) = true ->
  is_sha256_ref (e_event_hash ev) = true -> is_sha256_ref (sm_manifest_ref c) = true ->
  validate_material (material_of_body (sm_body c)) = Ok tt ->
  exists r, digest_cbor GEncoding (receipt_body e ev c) = Ok r /\
            receipt_verify (mkReceipt (receipt_body e ev c) r) = Ok tt.
Proof.
  intros (Hsch & Hraw & Hz) Hen Hev Hc Hm.
  destruct (digest_ok (E := GovernanceCheckpointBridgeError) GEncoding (receipt_body e ev c))
    as (r & Hd & _). exists r. split; [done |].
  destruct (validate_material_refs _ Hm) as (M1 & M2 & M3). cbn in M1, M2, M3.
  unfold receipt_verify. cbn [rc_body rc_receipt_ref]. rewrite Hd.
  unfold receipt_body at 1 2. cbn [gr_schema gr_verification_status].
  rewrite !(bool_decide_eq_false_2 (_ <> _)) by naive_solver. cbn [orb].
  unfold Governance.validate_ref.
  cbn [receipt_body gr_envelope_ref gr_event_hash gr_checkpoint_ref gr_event_chain_head
       gr_projection_digest gr_snapshot_digest gr_root_id_sha256 gr_world_before_sha256
       gr_world_after_sha256 gr_reservation_sha256 gr_operation_sha256 gr_upstream_receipt_sha256].
  rewrite Hen, Hev, Hc, M1, M2, M3. cbn [rbind].
  repeat rewrite Forall_cons in Hraw. repeat rewrite Forall_cons in Hz. destruct_and!.
  repeat first [rewrite validate_raw_any by assumption | rewrite validate_raw_set by assumption].
  cbn [rbind]. by rewrite decide_True.
Qed.

(** Sealing the ledger that has just recorded the envelope. *)
Lemma seal_ok n l evs ev t F l2 info e signer_id key_id seed s issued :
  ledger_run wal_message n l (evs ++ [ev]) -> (Z.of_nat n < u64_size - 2)%Z ->
  run_snapshot l (write_snapshot l t) F = (l2, Some (Ok info)) ->
  envelope_verify e = Ok tt -> from_seed signer_id key_id seed = Ok s ->
  (0 <= issued)%Z -> is_sha256_ref (e_event_hash ev) = true ->
  exists b, seal ledger_text checkpoint_text l2 e ev info s issued = Ok b /\
    receipt_verify (bu_receipt b) = Ok tt /\
    rc_body (bu_receipt b) = receipt_body e ev (bu_checkpoint b) /\
    gr_event_chain_head (rc_body (bu_receipt b)) = e_event_hash ev /\
    gr_last_sequence (rc_body (bu_receipt b)) = Z.of_nat (length (evs ++ [ev])) /\
    mb_storage_root_identity (sm_body (bu_checkpoint b))
      = "sha256:" +:+ ge_root_id_sha256 (en_body e) /\
    mb_previous_checkpoint_ref (sm_body (bu_checkpoint b)) = None /\
    forall r, registry_insert TrustedKeyRegistry_default (bu_trusted_key b) = Ok r ->
      forall now, (issued <= now)%Z -> verify_signed_checkpoint (bu_checkpoint b) r now = Ok tt.
Proof.
  intros Hrun Hn Hsnap Hver Hs Hi Hev.
  apply envelope_verify_ok in Hver as [[Hf Hk] Hdig].
  pose proof Hf as (_ & Hraw & _). rewrite !Forall_cons in Hraw. destruct Hraw as (Hroot & _).
  assert (is_sha256_ref ("sha256:" +:+ ge_root_id_sha256 (en_body e)) = true) as Hrootref.
  { by apply raw_sha_ref. }
  destruct (proj1 (material_of_ledger wal_message ledger_text n l evs ev t false F l2 info
    ("sha256:" +:+ ge_root_id_sha256 (en_body e)) Hrun Hn Hsnap Hrootref))
    as (m & Hm & Hvm & Hseq & Hhead & _).
  assert (cm_storage_root_identity m = "sha256:" +:+ ge_root_id_sha256 (en_body e)) as Hmr.
  { unfold checkpoint_material in Hm. rinv Hm. by injection Hm as <-. }
  destruct (sign_ok s m issued Hvm) as (c & Hsign & Hcm & Hprev & Hcref).
  destruct (receipt_ok e ev c) as (r & Hrd & Hrv); try done; [exact (digest_cbor_shape _ _ _ Hdig) | by rewrite Hcm |].
  assert (registry_insert TrustedKeyRegistry_default (trusted_key s 0 None None)
          = Ok (mkRegistry {[key_slot (cs_signer_id s) (cs_key_id s) := trusted_key s 0 None None]})) as Hreg.
  { unfold registry_insert. by rewrite (trusted_key_valid _ _ _ _ Hs). }
  assert (forall now, (issued <= now)%Z -> verify_signed_checkpoint c
    (mkRegistry {[key_slot (cs_signer_id s) (cs_key_id s) := trusted_key s 0 None None]}) now = Ok tt) as Hvs.
  { intros now Hnow. eapply sign_verifies; [exact Hs | exact Hsign | |].
    - unfold registry_get. cbn [keys]. apply lookup_insert_eq.
    - split_and!; try lia; naive_solver. }
  exists (mkBundle e (mkReceipt (receipt_body e ev c) r) c (trusted_key s 0 None None)). split.
  { unfold seal. rewrite Hm. cbn [map_err rbind]. rewrite Hsign. cbn [map_err rbind].
    rewrite Hreg. cbn [map_err rbind]. rewrite Hvs by lia. cbn [map_err rbind]. rewrite Hrd.
    cbn [rbind]. by rewrite Hrv. }
  cbn [bu_receipt bu_checkpoint bu_trusted_key rc_body].
  rewrite <- Hcm in Hseq, Hhead, Hmr. split_and!; try done.
  intros r' Hr'. rewrite Hreg in Hr'. injection Hr' as <-. exact Hvs.
Qed.

Lemma governance_normalized e :
  envelope_verify e = Ok tt ->
  exists nrm, normalize_input (governance_input e) = Ok nrm /\ nrm = governance_input e.
Proof.
  intros [_ Hdig]%envelope_verify_ok. unfold digest_cbor in Hdig. rinv Hdig.
  injection Hdig as Hdig. unfold sha256_ref in Hdig.
  destruct (governance_id_trimmed e (sha256 a)) as [Htrim Hne];
    [by rewrite <- Hdig | intros E'; pose proof (sha256_length a) as Hl; by rewrite E' in Hl |].
  assert (is_sha256_ref (en_envelope_ref e) = true) as Href
    by (rewrite <- Hdig; apply is_sha256_ref_hex, sha256_length).
  exists (governance_input e). split; [| done]. unfold normalize_input, governance_input.
  cbn [i_transition_id i_subject_id i_kind i_record_ref i_payload_digest i_links i_dimensions
       i_side_effect_committed i_captured_at_ms].
  unfold non_empty at 1. rewrite Htrim, decide_False by done. cbn [rbind].
  replace (non_empty SUBJECT_ID "subject_id")
    with (Ok (E := TransitionLedgerError) SUBJECT_ID) by (vm_compute; done).
  cbn [rbind]. unfold Transition.validate_ref. rewrite Href. done.
Qed.

(** Envelopes mean what they say. An envelope verifies exactly when its schema and digest
    fields are well formed, its generations, worlds, reservation and operation obey the rule of
    its transition kind, and its reference is the hash of its body; building accepts exactly
    the bodies whose envelope verifies. *)
Theorem governance_envelope_exact e body :
  (envelope_verify e = Ok tt <->
   (fields_ok (en_body e) /\ kind_semantics (en_body e)) /\
   digest_cbor GEncoding (en_body e) = Ok (en_envelope_ref e)) /\
  (envelope_build body = Ok e <-> en_body e = body /\ envelope_verify e = Ok tt).
Proof.
  split; [apply envelope_verify_ok |]. unfold envelope_build, envelope_verify. split.
  - intros Hb. rinv Hb. injection Hb as <-. cbn [en_body en_envelope_ref]. split; [done |].
    repeat match goal with E : _ = Ok _ |- _ => rewrite E; clear E end. cbn [rbind].
    by rewrite decide_True.
  - intros [<- Hv]. rinv Hv. repeat match goal with E : _ = Ok _ |- _ => rewrite E; clear E end.
    cbn [rbind]. subst. by destruct e.
Qed.

(** C12: the bridge works end to end. Take any reachable ledger directory, a verified envelope not
    yet recorded, a signer made from a seed, and an issue time not before the capture. Then the
    bridge succeeds: the envelope is recorded as the next event of the ledger, which reopens to
    the extended log; the receipt verifies and binds the envelope, the new chain head and the new
    sequence number; and the checkpoint verifies under the returned key at every later time. *)
Theorem governance_checkpoint_end_to_end n l evs e signer_id key_id seed s issued :
  ledger_run wal_message n l evs -> (Z.of_nat n < u64_size - 6)%Z ->
  envelope_verify e = Ok tt -> from_seed signer_id key_id seed = Ok s ->
  (0 <= ge_captured_at_ms (en_body e) <= issued)%Z -> event_fits l (governance_input e) ->
  record_owners (lg_state l) !! en_envelope_ref e = None ->
  projections (lg_state l) !! governance_transition_id e = None ->
  exists root' b ev l',
    append_governance_checkpoint wal_message ledger_text checkpoint_text (Ledger_close l) e s issued
      Disabled no_faults = (root', Some (Ok b)) /\
    b_record_ref (e_body ev) = en_envelope_ref e /\
    b_transition_id (e_body ev) = governance_transition_id e /\
    Ledger_open wal_message root' = Ok l' /\
    replay LedgerState_default (evs ++ [ev]) = Ok (lg_state l') /\
    receipt_verify (bu_receipt b) = Ok tt /\
    rc_body (bu_receipt b) = receipt_body e ev (bu_checkpoint b) /\
    gr_event_chain_head (rc_body (bu_receipt b)) = e_event_hash ev /\
    gr_last_sequence (rc_body (bu_receipt b)) = Z.of_nat (length evs + 1) /\
    forall r, registry_insert TrustedKeyRegistry_default (bu_trusted_key b) = Ok r ->
      forall now, (issued <= now)%Z -> verify_signed_checkpoint (bu_checkpoint b) r now = Ok tt.
Proof.
  intros Hrun Hn Hver Hs Ht Hfit Hfresh Hnew.
  destruct (run_ledger_inv _ _ _ _ Hrun ltac:(lia)) as (sg & sq & ps & Hinv).
  destruct (reopen wal_message _ _ _ _ _ _ Hinv) as (l0 & Ho & Hst & _).
  pose proof (lr_reopen wal_message n l evs l0 Hrun Ho) as Hrun0.
  destruct (governance_normalized e Hver) as (nrm & Hnrm & ->).
  destruct (append_admissible (S n) l0 evs (governance_input e) (governance_input e) Hrun0 ltac:(lia))
    as (l1 & ev & Happ & Hbody & Hrun1); [| done | by rewrite Hst | by rewrite Hst; cbn; rewrite Hnew |].
  { intros ev c b (n' & P). apply (Hfit ev c b). exists n'. by rewrite Hst in P. }
  destruct (snapshot_written _ _ _ issued Hrun1 ltac:(lia)) as (l2 & info & Hsnap & Hrun2).
  destruct (run_ledger_inv _ _ _ _ Hrun1 ltac:(lia)) as (sg1 & sq1 & ps1 & Hinv1).
  assert (is_sha256_ref (e_event_hash ev) = true) as Hev.
  { destruct (describes_replay _ _ (li_state _ _ _ _ _ _ Hinv1)) as [_ _ _ _ Hh].
    rewrite last_snoc in Hh. eapply sok_head_ref; [| exact Hh].
    eapply replay_ok; [apply default_ok | apply (li_state _ _ _ _ _ _ Hinv1)]. }
  destruct (seal_ok (S (S n)) l1 evs ev issued no_faults l2 info e signer_id key_id seed s issued)
    as (b & Hseal & B1 & B2 & B3 & B4 & _ & _ & B7); try done; [lia | lia |].
  destruct (run_ledger_inv _ _ _ _ Hrun2 ltac:(lia)) as (sg2 & sq2 & ps2 & Hinv2).
  destruct (reopen wal_message _ _ _ _ _ _ Hinv2) as (l' & Ho' & Hst' & Hinv').
  exists (Ledger_close l2), b, ev, l'. split_and!; try done.
  - unfold append_governance_checkpoint. rewrite Hver, (proj2 (Z.ltb_ge _ _)) by lia.
    by rewrite Ho, Happ, Hsnap, Hseal.
  - by rewrite Hbody.
  - by rewrite Hbody.
  - exact (li_state _ _ _ _ _ _ Hinv').
  - rewrite B4, length_app. done.
Qed.

Lemma seal_previous l e ev info s issued b :
  seal ledger_text checkpoint_text l e ev info s issued = Ok b ->
  mb_previous_checkpoint_ref (sm_body (bu_checkpoint b)) = None.
Proof.
  unfold seal. intros Hb. rinv Hb. injection Hb as <-. cbn [bu_checkpoint].
  match goal with E : map_err _ (sign _ _ _ _ _) = Ok _ |- _ =>
    apply map_err_ok in E; unfold sign in E; rinv E; by injection E as <- end.
Qed.

(** Every checkpoint of the bridge stands alone. Whatever directories, envelopes, signers and
    times they come from, two checkpoints returned by the bridge never verify as consecutive
    elements of a checkpoint chain, because the bridge signs each without a predecessor. *)
Theorem governance_checkpoints_standalone root1 e1 s1 t1 fp1 F1 r1 b1 root2 e2 s2 t2 fp2 F2 r2 b2
    pre post registry anchor now v :
  append_governance_checkpoint wal_message ledger_text checkpoint_text root1 e1 s1 t1 fp1 F1
    = (r1, Some (Ok b1)) ->
  append_governance_checkpoint wal_message ledger_text checkpoint_text root2 e2 s2 t2 fp2 F2
    = (r2, Some (Ok b2)) ->
  verify_checkpoint_chain (pre ++ bu_checkpoint b1 :: bu_checkpoint b2 :: post) registry anchor now
    <> Ok v.
Proof.
  intros _ H2' Hv. apply verify_chain_inv in Hv as (_ & _ & _ & _ & _ & Hw & _).
  assert (mb_previous_checkpoint_ref (sm_body (bu_checkpoint b2)) = None) as Hnone.
  { unfold append_governance_checkpoint in H2'. repeat case_match; simplify_eq.
    by eapply seal_previous. }
  assert (follows (bu_checkpoint b1) (bu_checkpoint b2)) as (_ & Hp & _); [| congruence].
  apply verify_pair_spec. rewrite Forall_forall in Hw. apply Hw.
  apply windows2_middle.
Qed.
End bridge.

(** ** Witnesses *)
Global Instance Ser_envelope_body : Ser GovernanceTransitionEnvelopeBody :=
  Ser_via (fun b => (ge_schema b, ge_root_id_sha256 b, ge_transition_kind b, ge_generation_before b,
      ge_generation_after b, ge_world_before_sha256 b, ge_world_after_sha256 b,
      ge_reservation_sha256 b, ge_operation_sha256 b, ge_upstream_receipt_sha256 b,
      ge_captured_at_ms b))
    (fun '(a, b, c, d, e, f, g, h, i, j, k) => Some (mkEnvelopeBody a b c d e f g h i j k)).
Global Instance Ser_envelope_body_ok : SerOk GovernanceTransitionEnvelopeBody.
Proof. ser_enum. Qed.

Global Instance Ser_receipt_body : Ser GovernanceCheckpointReceiptBody :=
  Ser_via (fun b => (gr_schema b, gr_envelope_ref b, gr_root_id_sha256 b, gr_transition_kind b,
      gr_generation_before b, gr_generation_after b, gr_world_before_sha256 b,
      gr_world_after_sha256 b, gr_reservation_sha256 b, gr_operation_sha256 b,
      gr_upstream_receipt_sha256 b, gr_event_hash b, gr_checkpoint_ref b, gr_event_chain_head b,
      gr_last_sequence b, gr_projection_digest b, gr_snapshot_digest b, gr_signer_id b, gr_key_id b,
      gr_verification_status b))
    (fun '(x1, x2, x3, x4, x5, x6, x7, x8, x9, x10, x11, x12, x13, x14, x15, x16, x17, x18, x19, x20) =>
       Some (mkReceiptBody x1 x2 x3 x4 x5 x6 x7 x8 x9 x10 x11 x12 x13 x14 x15 x16 x17 x18 x19 x20)).
Global Instance Ser_receipt_body_ok : SerOk GovernanceCheckpointReceiptBody.
Proof. ser_enum. Qed.

Definition cbor_envelope_body : Cbor GovernanceTransitionEnvelopeBody := Cbor_of _.
Definition cbor_receipt_body : Cbor GovernanceCheckpointReceiptBody := Cbor_of _.
Definition cbor_receipt_body_total : @CborTotal _ cbor_receipt_body := Cbor_of_total _.
Definition cbor_material_total : @CborTotal _ cbor_material := Cbor_of_total _.
Definition cbor_snapshot_body_total : @CborTotal _ cbor_snapshot_body := Cbor_of_total _.
Definition cbor_snapshot_total : @CborTotal _ cbor_snapshot := Cbor_of_total _.
Definition cbor_manifest_body_total : @CborTotal _ cbor_manifest_body := Cbor_of_total _.

Section witnesses.
Local Existing Instances ieee ieee_ok checksum_sha checksum_sha_ok toy_ed25519 toy_ed25519_ok
  cbor_body cbor_body_total cbor_event cbor_event_ok cbor_event_total cbor_material
  cbor_material_total cbor_snapshot_body cbor_snapshot_body_total cbor_snapshot cbor_snapshot_ok
  cbor_snapshot_total cbor_manifest_body cbor_manifest_body_total cbor_envelope_body
  cbor_receipt_body cbor_receipt_body_total.

Definition gw_sha (label : string) : string := of_bytes (hex_bytes (sha256 (as_bytes label))).
Definition gw_body (after : string) : GovernanceTransitionEnvelopeBody :=
  mkEnvelopeBody GOVERNANCE_ENVELOPE_SCHEMA (gw_sha "root") "mutate" 3 4 (gw_sha "before") (gw_sha after)
    ZERO_SHA256 ZERO_SHA256 (gw_sha "receipt") 50.
Definition gw_envelope (after : string) : GovernanceTransitionEnvelope :=
  ok_or_default (mkEnvelope (gw_body after) "") (envelope_build (gw_body after)).
Definition gw_signer : CheckpointSigner := mkSigner "ops" "k1" (replicate 32 Byte.x07).
Definition gw_checkpoint_text (_ : CheckpointError) : string := "checkpoint".

Lemma governance_checkpoint_end_to_end_witness :
  exists root' b,
    append_governance_checkpoint w_message w_message_of gw_checkpoint_text (Ledger_close w_ledger1)
      (gw_envelope "after") gw_signer 60 Disabled no_faults = (root', Some (Ok b)) /\
    gr_last_sequence (rc_body (bu_receipt b)) = 2%Z.
Proof.
  destruct (governance_checkpoint_end_to_end w_message w_message_of gw_checkpoint_text 1 w_ledger1
    [w_event] (gw_envelope "after") "ops" "k1" (replicate 32 Byte.x07) gw_signer 60 w_run1 eq_refl
    ltac:(vm_cast_no_check (eq_refl (Ok (E := GovernanceCheckpointBridgeError) tt)))
    ltac:(vm_cast_no_check (eq_refl (Ok (E := CheckpointError) gw_signer)))
    ltac:(vm_compute; split; discriminate)
    (fits_event_fits _ _ ltac:(vm_cast_no_check (eq_refl true)))
    ltac:(vm_cast_no_check (eq_refl (@None RecordOwner)))
    ltac:(vm_cast_no_check (eq_refl (@None TransitionProjection))))
    as (root' & b & ev & l' & Ha & _ & _ & _ & _ & _ & _ & _ & Hs & _).
  exact (ex_intro _ root' (ex_intro _ b (conj Ha Hs))).
Defined.

Definition gw_bundle0 : GovernanceCheckpointBundle :=
  mkBundle (gw_envelope "") (mkReceipt (receipt_body (gw_envelope "") w_event w_empty_manifest) "")
    w_empty_manifest w_other.
Definition gw_run1 : Root * option (gresult GovernanceCheckpointBundle) :=
  Eval vm_compute in
    append_governance_checkpoint w_message w_message_of gw_checkpoint_text (Ledger_close w_ledger1)
      (gw_envelope "after") gw_signer 60 Disabled no_faults.
Definition gw_run2 : Root * option (gresult GovernanceCheckpointBundle) :=
  Eval vm_compute in
    append_governance_checkpoint w_message w_message_of gw_checkpoint_text gw_run1.1
      (gw_envelope "later") gw_signer 70 Disabled no_faults.
Definition gw_bundle (r : Root * option (gresult GovernanceCheckpointBundle))
  : GovernanceCheckpointBundle :=
  match r.2 with
  | Some (Ok b) => b
  | _ => gw_bundle0
  end.

Lemma governance_checkpoints_standalone_witness :
  verify_checkpoint_chain [bu_checkpoint (gw_bundle gw_run1); bu_checkpoint (gw_bundle gw_run2)]
    w_registry None 100 <> Ok w_verified.
Proof.
  exact (governance_checkpoints_standalone w_message w_message_of gw_checkpoint_text
    (Ledger_close w_ledger1) (gw_envelope "after") gw_signer 60 Disabled no_faults gw_run1.1
    (gw_bundle gw_run1) gw_run1.1 (gw_envelope "later") gw_signer 70 Disabled no_faults gw_run2.1
    (gw_bundle gw_run2) [] [] w_registry None 100 w_verified
    ltac:(vm_cast_no_check (eq_refl gw_run1)) ltac:(vm_cast_no_check (eq_refl gw_run2))).
Defined.
End witnesses.
