(* ===== verification/RustOrd.v ===== *)
(** * Total orders and ordered maps

    [std::cmp::Ord] as a type class with its laws, the orders [#[derive(Ord)]] builds out of them,
    and the iteration order of a [BTreeMap]. A [BTreeMap<K, V>] is a [gmap K V] read in the order of
    its keys. *)

From stdpp Require Import prelude gmap strings list sorting.
From Stdlib Require Import ZArith Lia.
From S2P Require Import Prelude RustStr.

(** ** Comparison functions

    [CmpLaws c]: [c] decides a total order whose equality is Leibniz equality. *)
Class CmpLaws {A : Type} (c : A -> A -> comparison) : Prop := {
  cmp_eq : forall x y, c x y = Eq <-> x = y;
  cmp_opp : forall x y, c y x = CompOpp (c x y);
  cmp_trans : forall x y z, c x y = Lt -> c y z = Lt -> c x z = Lt
}.

Arguments cmp_eq {A} c {_}.
Arguments cmp_opp {A} c {_}.
Arguments cmp_trans {A} c {_}.

(** The [Ord] implementation of a type. *)
Class RustOrd (A : Type) : Type := {
  cmp : A -> A -> comparison;
  cmp_laws :: CmpLaws cmp
}.

(** [Ordering::then]. *)
Definition then_cmp (c d : comparison) : comparison :=
  match c with
  | Eq => d
  | _ => c
  end.

(** A tuple, and a struct with a derived order, compares field by field. *)
Definition prod_cmp {A B : Type} (c : A -> A -> comparison) (d : B -> B -> comparison)
    (p q : A * B) : comparison :=
  then_cmp (c p.1 q.1) (d p.2 q.2).

(** A slice compares element by element, a proper prefix first. *)
Fixpoint list_cmp {A : Type} (c : A -> A -> comparison) (l k : list A) : comparison :=
  match l, k with
  | [], [] => Eq
  | [], _ :: _ => Lt
  | _ :: _, [] => Gt
  | x :: l', y :: k' => then_cmp (c x y) (list_cmp c l' k')
  end.

(** [Ord::max], which keeps its second argument on a tie. *)
Definition cmax {A : Type} (c : A -> A -> comparison) (x y : A) : A :=
  match c x y with
  | Lt => y
  | _ => x
  end.

Section laws.
Context {A : Type} {c : A -> A -> comparison} `{!CmpLaws c}.

Lemma cmp_refl x : c x x = Eq.
Proof. by apply (cmp_eq c). Qed.

Lemma cmp_gt_lt x y : c x y = Gt <-> c y x = Lt.
Proof. rewrite (cmp_opp c x y). destruct (c x y); cbn; split; congruence. Qed.

Lemma cmax_comm x y : cmax c x y = cmax c y x.
Proof.
  unfold cmax. rewrite (cmp_opp c x y). destruct (c x y) eqn:E; cbn; try done.
  by apply (cmp_eq c).
Qed.

Lemma cmax_idemp x : cmax c x x = x.
Proof. unfold cmax. by rewrite cmp_refl. Qed.

Lemma cmp_trans_le x y z : c x y <> Gt -> c y z <> Gt -> c x z <> Gt.
Proof.
  intros Hxy Hyz. destruct (c x y) eqn:E; [| | done].
  - apply (cmp_eq c) in E as ->. done.
  - destruct (c y z) eqn:E2; [| | done].
    + apply (cmp_eq c) in E2 as ->. by rewrite E.
    + by rewrite (cmp_trans c x y z).
Qed.

Lemma cmax_assoc x y z : cmax c x (cmax c y z) = cmax c (cmax c x y) z.
Proof.
  unfold cmax. destruct (c y z) eqn:Eyz.
  - apply (cmp_eq c) in Eyz as ->.
    destruct (c x z) eqn:E; rewrite ?cmp_refl, ?E; done.
  - destruct (c x y) eqn:Exy; [| by rewrite (cmp_trans c x y z), Eyz | done].
    apply (cmp_eq c) in Exy as ->. done.
  - destruct (c x y) eqn:Exy; [| by rewrite Eyz |].
    + apply (cmp_eq c) in Exy as ->. by rewrite Eyz.
    + apply cmp_gt_lt in Exy, Eyz. pose proof (cmp_trans c z y x Eyz Exy) as Hzx.
      apply cmp_gt_lt in Hzx. by rewrite Hzx.
Qed.

(** The maximum is one of the two and no smaller than either. *)
Lemma cmax_spec x y z : cmax c x y = z -> (z = x \/ z = y) /\ c z x <> Lt /\ c z y <> Lt.
Proof.
  unfold cmax. intros <-. destruct (c x y) eqn:E.
  - apply (cmp_eq c) in E as ->. rewrite cmp_refl. auto.
  - rewrite cmp_refl. apply cmp_gt_lt in E. rewrite E. auto.
  - rewrite cmp_refl, E. auto.
Qed.
End laws.

(** ** Instances *)
Lemma cmp_laws_inj {A B : Type} (f : A -> B) `{!Inj (=) (=) f} (d : B -> B -> comparison)
    `{!CmpLaws d} : CmpLaws (fun x y => d (f x) (f y)).
Proof.
  split.
  - intros x y. split.
    + intros Hd. by apply (cmp_eq d), (inj f) in Hd.
    + intros ->. by apply (cmp_eq d).
  - intros x y. apply (cmp_opp d).
  - intros x y z. apply (cmp_trans d).
Qed.

Lemma cmp_laws_ext {A : Type} (c d : A -> A -> comparison) `{!CmpLaws d} :
  (forall x y, c x y = d x y) -> CmpLaws c.
Proof.
  intros Hcd. split; intros *; rewrite !Hcd; [apply (cmp_eq d) | apply (cmp_opp d) | apply (cmp_trans d)].
Qed.

Global Instance Zcompare_laws : CmpLaws Z.compare.
Proof.
  split.
  - intros x y. apply Z.compare_eq_iff.
  - intros x y. apply Z.compare_antisym.
  - intros x y z. rewrite !Z.compare_lt_iff. lia.
Qed.

Global Instance prod_cmp_laws {A B : Type} (c : A -> A -> comparison) (d : B -> B -> comparison)
    `{!CmpLaws c, !CmpLaws d} : CmpLaws (prod_cmp c d).
Proof.
  unfold prod_cmp. split.
  - intros [x x'] [y y']. cbn. destruct (c x y) eqn:E; cbn.
    + apply (cmp_eq c) in E as ->. rewrite (cmp_eq d). split; congruence.
    + split; [done |]. intros [= -> ->]. rewrite cmp_refl in E. done.
    + split; [done |]. intros [= -> ->]. rewrite cmp_refl in E. done.
  - intros [x x'] [y y']. cbn. rewrite (cmp_opp c x y), (cmp_opp d x' y').
    by destruct (c x y).
  - intros [x x'] [y y'] [z z']. cbn.
    destruct (c x y) eqn:E1; cbn; [| | done].
    + apply (cmp_eq c) in E1 as ->. destruct (c y z); cbn; [apply (cmp_trans d) | done | done].
    + intros _. destruct (c y z) eqn:E2; cbn; [| | done].
      * apply (cmp_eq c) in E2 as ->. by rewrite E1.
      * by rewrite (cmp_trans c x y z).
Qed.

Global Instance list_cmp_laws {A : Type} (c : A -> A -> comparison) `{!CmpLaws c} :
  CmpLaws (list_cmp c).
Proof.
  split.
  - induction x as [|x l IH]; intros [|y k]; cbn; try (split; congruence).
    destruct (c x y) eqn:E; cbn.
    + apply (cmp_eq c) in E as ->. rewrite IH. split; congruence.
    + split; [done |]. intros [= -> ->]. by rewrite cmp_refl in E.
    + split; [done |]. intros [= -> ->]. by rewrite cmp_refl in E.
  - induction x as [|x l IH]; intros [|y k]; cbn; try done.
    rewrite (cmp_opp c x y), IH. by destruct (c x y).
  - induction x as [|x l IH]; intros [|y k] [|z m]; cbn; try done.
    destruct (c x y) eqn:E1; cbn; [| | done].
    + apply (cmp_eq c) in E1 as ->. destruct (c y z); cbn; [apply IH | done | done].
    + intros _. destruct (c y z) eqn:E2; cbn; [| | done].
      * apply (cmp_eq c) in E2 as ->. by rewrite E1.
      * by rewrite (cmp_trans c x y z).
Qed.

Global Instance Z_ord : RustOrd Z := {| cmp := Z.compare |}.
Global Instance prod_ord {A B : Type} `{RustOrd A, RustOrd B} : RustOrd (A * B) :=
  {| cmp := prod_cmp cmp cmp |}.
Global Instance list_ord {A : Type} `{RustOrd A} : RustOrd (list A) := {| cmp := list_cmp cmp |}.

(** The derived order of a struct, through the tuple of its fields. *)
Definition derive_ord {A B : Type} (f : A -> B) `{!Inj (=) (=) f, !RustOrd B} : RustOrd A :=
  {| cmp := fun x y => cmp (f x) (f y); cmp_laws := cmp_laws_inj f cmp |}.

Definition byte_Z (b : Byte.byte) : Z := Z.of_N (Byte.to_N b).

Lemma byte_to_N_inj a b : Byte.to_N a = Byte.to_N b -> a = b.
Proof. intros Hab. apply (f_equal Byte.of_N) in Hab. rewrite !Byte.of_to_N in Hab. congruence. Qed.

Global Instance byte_Z_inj : Inj (=) (=) byte_Z.
Proof. intros a b Hab. apply byte_to_N_inj. unfold byte_Z in Hab. lia. Qed.

Global Instance byte_ord : RustOrd Byte.byte := derive_ord byte_Z.

Global Instance as_bytes_Inj : Inj (=) (=) as_bytes.
Proof. intros a b. apply as_bytes_inj. Qed.

Global Instance string_ord : RustOrd string := derive_ord as_bytes.

Global Instance byte_countable : Countable Byte.byte.
Proof.
  apply (inj_countable Byte.to_N Byte.of_N). intros b. apply Byte.of_to_N.
Defined.

(** ** Iteration of a [BTreeMap] *)
Section btree.
Context {K : Type} `{Countable K, !RustOrd K} {V : Type}.

Definition entry_le (p q : K * V) : Prop := cmp p.1 q.1 <> Gt.

Global Instance entry_le_dec : RelDecision entry_le.
Proof. intros p q. unfold entry_le. solve_decision. Defined.

Global Instance entry_le_trans : Transitive entry_le.
Proof. intros p q r. apply cmp_trans_le. Qed.

Global Instance entry_le_total : Total entry_le.
Proof.
  intros p q. unfold entry_le. rewrite (cmp_opp cmp p.1 q.1). destruct (cmp p.1 q.1); cbn; auto.
Qed.

(** [BTreeMap::iter], in the order of the keys. *)
Definition bt_iter (m : gmap K V) : list (K * V) := merge_sort entry_le (map_to_list m).

(** [BTreeMap::values]. *)
Definition bt_values (m : gmap K V) : list V := (bt_iter m).*2.

Lemma bt_iter_perm m : bt_iter m ≡ₚ map_to_list m.
Proof. apply merge_sort_Permutation. Qed.

Lemma bt_iter_sorted m : StronglySorted entry_le (bt_iter m).
Proof. apply StronglySorted_merge_sort; apply _. Qed.

Lemma elem_of_bt_iter m k v : (k, v) ∈ bt_iter m <-> m !! k = Some v.
Proof. rewrite bt_iter_perm. apply elem_of_map_to_list. Qed.

Lemma bt_iter_NoDup m : NoDup (bt_iter m).*1.
Proof. rewrite bt_iter_perm. apply NoDup_fst_map_to_list. Qed.

Lemma list_to_map_bt_iter m : list_to_map (bt_iter m) = m.
Proof.
  rewrite (list_to_map_proper _ (map_to_list m)).
  - apply list_to_map_to_list.
  - apply bt_iter_NoDup.
  - apply bt_iter_perm.
Qed.

Lemma bt_iter_empty : bt_iter ∅ = [].
Proof. unfold bt_iter. by rewrite map_to_list_empty. Qed.

(** A loop over the entries of a map whose body updates, in another map, the entry it reads. *)
Section fold.
Context {W : Type} (step : gmap K W -> K -> V -> gmap K W) (join : option W -> V -> W).
Hypothesis step_spec : forall m k v k',
  step m k v !! k' = if decide (k' = k) then Some (join (m !! k) v) else m !! k'.

Lemma foldl_step_lookup l m k :
  NoDup l.*1 ->
  foldl (fun acc e => step acc e.1 e.2) m l !! k
  = match (list_to_map l : gmap K V) !! k with
    | Some v => Some (join (m !! k) v)
    | None => m !! k
    end.
Proof.
  revert m. induction l as [|[k1 v1] l IH]; intros m Hnd; cbn.
  - by rewrite lookup_empty.
  - cbn in Hnd. apply NoDup_cons in Hnd as [Hk1 Hnd]. rewrite IH by done.
    rewrite step_spec. destruct (decide (k = k1)) as [-> | Hne].
    + rewrite (not_elem_of_list_to_map_1 l k1) by done.
      rewrite lookup_insert. by rewrite decide_True.
    + by rewrite lookup_insert_ne by done.
Qed.

Lemma foldl_bt_iter_lookup (o : gmap K V) m k :
  foldl (fun acc e => step acc e.1 e.2) m (bt_iter o) !! k
  = match o !! k with
    | Some v => Some (join (m !! k) v)
    | None => m !! k
    end.
Proof. rewrite foldl_step_lookup by apply bt_iter_NoDup. by rewrite list_to_map_bt_iter. Qed.
End fold.

(** Two ordered, duplicate-free key sequences with the same members are equal. *)
Lemma bt_keys_ext (l1 l2 : list (K * V)) :
  StronglySorted entry_le l1 -> StronglySorted entry_le l2 -> NoDup l1.*1 -> NoDup l2.*1 ->
  l1 ≡ₚ l2 -> l1 = l2.
Proof.
  revert l2. induction l1 as [|[k v] l1 IH]; intros l2 S1 S2 N1 N2 Hp.
  - apply Permutation_nil in Hp. done.
  - destruct l2 as [|[k2 v2] l2]; [symmetry in Hp; by apply Permutation_nil_cons in Hp |].
    apply StronglySorted_inv in S1 as [S1 F1]. apply StronglySorted_inv in S2 as [S2 F2].
    cbn in N1, N2. apply NoDup_cons in N1 as [K1 N1]. apply NoDup_cons in N2 as [K2 N2].
    assert (Hh : (k, v) = (k2, v2)).
    { assert (Hin : (k, v) ∈ (k2, v2) :: l2) by (rewrite <- Hp; left).
      assert (Hin2 : (k2, v2) ∈ (k, v) :: l1) by (rewrite Hp; left).
      apply elem_of_cons in Hin as [? | Hin]; [done |].
      apply elem_of_cons in Hin2 as [? | Hin2]; [done |].
      rewrite Forall_forall in F1, F2.
      pose proof (F1 _ Hin2) as L1. pose proof (F2 _ Hin) as L2.
      unfold entry_le in L1, L2. cbn in L1, L2. rewrite (cmp_opp cmp k2 k) in L1.
      destruct (cmp k2 k) eqn:E; cbn in *; try done.
      apply (cmp_eq cmp) in E as ->. exfalso. apply K2. apply list_elem_of_fmap.
      by exists (k, v). }
    injection Hh as -> ->. f_equal. apply IH; try done. by apply Permutation_cons_inv in Hp.
Qed.
End btree.
