(* ===== verification/Float.v ===== *)
(** * IEEE 754 arithmetic

    [f32] and [f64] as the Standard Library's [spec_float] at the two precisions, rounding to the
    nearest even; a NaN has no payload. The comparison of numbers is shown to be a total preorder
    once NaN is excluded. *)

From stdpp Require Import prelude strings list.
From Stdlib Require Import ZArith Lia SpecFloat.
From S2P Require Import Prelude RustStr RustOrd.

Abbreviation f32 := spec_float.
Abbreviation f64 := spec_float.

Definition f32_add : f32 -> f32 -> f32 := SFadd 24 128.
Definition f32_sub : f32 -> f32 -> f32 := SFsub 24 128.
Definition f64_add : f64 -> f64 -> f64 := SFadd 53 1024.
Definition f64_sub : f64 -> f64 -> f64 := SFsub 53 1024.
Definition f64_mul : f64 -> f64 -> f64 := SFmul 53 1024.
Definition f64_div : f64 -> f64 -> f64 := SFdiv 53 1024.

(** [n as f64] for a [u32] or a [u64]. *)
Definition f64_of_Z (n : Z) : f64 := binary_normalize 53 1024 n 0 false.
Definition f32_of_Z (n : Z) : f32 := binary_normalize 24 128 n 0 false.

(** A decimal literal [n / d] of type [f32]. *)
Definition f32_lit (n d : Z) : f32 := SFdiv 24 128 (f32_of_Z n) (f32_of_Z d).

Definition f_zero : spec_float := S754_zero false.

Definition is_nan (x : spec_float) : bool :=
  match x with
  | S754_nan => true
  | _ => false
  end.

(** [partial_cmp], [>], [>=] and [==] of floating-point numbers. *)
Definition f_partial_cmp : spec_float -> spec_float -> option comparison := SFcompare.
Definition f_gt (x y : spec_float) : bool := SFltb y x.
Definition f_ge (x y : spec_float) : bool := SFleb y x.

(** [max] and [min], which prefer a number to NaN. *)
Definition f_max (x y : spec_float) : spec_float :=
  if is_nan x then y else if is_nan y then x else if SFltb x y then y else x.
Definition f_min (x y : spec_float) : spec_float :=
  if is_nan x then y else if is_nan y then x else if SFltb y x then y else x.

Global Instance spec_float_eq_dec : EqDecision spec_float.
Proof. solve_decision. Defined.

(** ** The order of numbers

    [f_key] maps numbers to triples so that comparing the numbers is comparing the triples. *)
Definition f_key (x : spec_float) : Z * (Z * Z) :=
  match x with
  | S754_zero _ => (0, (0, 0))%Z
  | S754_infinity true => (-2, (0, 0))%Z
  | S754_infinity false => (2, (0, 0))%Z
  | S754_nan => (3, (0, 0))%Z
  | S754_finite true m e => (-1, (- e, Z.neg m))%Z
  | S754_finite false m e => (1, (e, Z.pos m))%Z
  end.

Lemma f_partial_cmp_key x y :
  is_nan x = false -> is_nan y = false -> f_partial_cmp x y = Some (cmp (f_key x) (f_key y)).
Proof.
  intros Hx Hy.
  destruct x as [sx | [] | | sx mx ex], y as [sy | [] | | sy my ey]; try discriminate;
    try destruct sx; try destruct sy; cbn; try done; f_equal; unfold prod_cmp; cbn.
  - replace (- ex ?= - ey)%Z with (CompOpp (ex ?= ey)%Z)
      by (rewrite <- Z.compare_antisym; symmetry; apply Z.compare_opp).
    by destruct (ex ?= ey)%Z.
  - by destruct (ex ?= ey)%Z.
Qed.

Lemma f_partial_cmp_nan x y :
  is_nan x = true \/ is_nan y = true -> f_partial_cmp x y = None.
Proof. intros [Hn | Hn]; [destruct x | destruct x, y]; done. Qed.

Lemma f_gt_key x y :
  is_nan x = false -> is_nan y = false ->
  f_gt x y = bool_decide (cmp (f_key y) (f_key x) = Lt).
Proof.
  intros Hx Hy. pose proof (f_partial_cmp_key y x Hy Hx) as Hk. unfold f_gt, SFltb.
  unfold f_partial_cmp in Hk. rewrite Hk. by destruct (cmp (f_key y) (f_key x)).
Qed.

(** * More [f32] operations of the standard library

    Arithmetic, [abs], [clamp], [round], the saturating casts between floats and integers and the
    fixed-precision text of a number, on [spec_float]. [ln] and [exp], whose precision the library
    does not specify, are the argument [FloatMath]. *)

Definition f32_mul : f32 -> f32 -> f32 := SFmul 24 128.
Definition f32_div : f32 -> f32 -> f32 := SFdiv 24 128.
Definition f32_neg : f32 -> f32 := SFopp.
Definition f32_abs : f32 -> f32 := SFabs.
Definition f_lt (x y : spec_float) : bool := SFltb x y.
Definition f_le (x y : spec_float) : bool := SFleb x y.

Definition f32_one : f32 := f32_of_Z 1.
(** [f32::EPSILON], 2 ^ -23. *)
Definition f32_epsilon : f32 := S754_finite false 8388608 (-46).

(** [f32::clamp]. *)
Definition f32_clamp (x lo hi : f32) : f32 :=
  if f_lt x lo then lo else if f_lt hi x then hi else x.

(** [f32::max] and [f32::min]: a NaN argument is ignored. *)
Definition f32_max (x y : f32) : f32 :=
  if is_nan x then y else if is_nan y then x else if f_lt x y then y else x.
Definition f32_min (x y : f32) : f32 :=
  if is_nan x then y else if is_nan y then x else if f_lt y x then y else x.

(** [f32::round]: to the nearest integer, half away from zero. *)
Definition f32_round (x : f32) : f32 :=
  match x with
  | S754_finite s m e =>
      if (0 <=? e)%Z then x
      else
        let d := (2 ^ (- e))%Z in
        match ((2 * Z.pos m + d) / (2 * d))%Z with
        | Z.pos n => binary_round 24 128 s n 0
        | _ => S754_zero s
        end
  | _ => x
  end.

(** The integer part of a finite number, towards zero. *)
Definition f_trunc (s : bool) (m : positive) (e : Z) : Z :=
  let v := if (0 <=? e)%Z then (Z.pos m * 2 ^ e)%Z else (Z.pos m / 2 ^ (- e))%Z in
  if s then (- v)%Z else v.

(** [x as iN] and [x as uN] for the range [lo..=hi]: NaN is 0 and the rest saturates. *)
Definition f_cast (lo hi : Z) (x : spec_float) : Z :=
  match x with
  | S754_zero _ | S754_nan => 0
  | S754_infinity s => if s then lo else hi
  | S754_finite s m e => Z.max lo (Z.min hi (f_trunc s m e))
  end.
Definition f_as_i32 : f32 -> Z := f_cast (- 2 ^ 31) (2 ^ 31 - 1).
Definition f_as_usize : f32 -> Z := f_cast 0 u64_max.

(** [iter().sum::<f32>()], from the left. *)
Definition f32_sum (l : list f32) : f32 := fold_left f32_add l (S754_zero true).

(** [format!("{:.k}", x)]: the exact value of [x] rounded to [k] decimals, half to even. *)
Definition fixed_digits (k : nat) (m : positive) (e : Z) : Z :=
  let n := (Z.pos m * 10 ^ Z.of_nat k)%Z in
  if (0 <=? e)%Z then (n * 2 ^ e)%Z
  else
    let d := (2 ^ (- e))%Z in
    let q := (n / d)%Z in
    let r := (2 * (n mod d))%Z in
    if (r <? d)%Z then q
    else if (d <? r)%Z then (q + 1)%Z
    else if Z.even q then q else (q + 1)%Z.

Definition fmt_fixed (k : nat) (x : f32) : string :=
  let text (s : bool) (n : Z) : string :=
    let digits := dec_digits 330 n [] in
    let digits := replicate (S k - length digits) Byte.x30 ++ digits in
    let whole := take (length digits - k) digits in
    let frac := drop (length digits - k) digits in
    (if s then "-" else "") +:+ of_bytes whole
    +:+ (if decide (k = 0) then "" else "." +:+ of_bytes frac) in
  match x with
  | S754_nan => "NaN"
  | S754_infinity s => if s then "-inf" else "inf"
  | S754_zero s => text s 0%Z
  | S754_finite s m e => text s (fixed_digits k m e)
  end.

Definition fmt_nat (n : Z) : string := of_bytes (fmt_u64 n).

(** [f32::ln] and [f32::exp]. *)
Class FloatMath : Type := {
  f32_ln : f32 -> f32;
  f32_exp : f32 -> f32
}.

Example float_ops_examples :
  f32_round (f32_lit 5 2) = f32_of_Z 3 /\ f32_round (f32_lit (-5) 2) = f32_of_Z (-3)
  /\ f32_round (f32_lit 1 4) = S754_zero false /\ f_as_i32 (f32_lit (-799) 10) = (-79)%Z
  /\ fmt_fixed 2 (f32_lit 1 8) = "0.12" /\ fmt_fixed 3 (f32_lit (-7) 10) = "-0.700"
  /\ fmt_fixed 2 (f32_lit 999 1000) = "1.00" /\ f32_add f32_one f32_epsilon <> f32_one.
Proof. vm_compute. repeat split. discriminate. Qed.

(** ** Lemmas *)
Lemma f_lt_le x y : is_nan x = false -> is_nan y = false -> f_lt x y = false <-> f_le y x = true.
Proof.
  intros Hx Hy. unfold f_lt, f_le, SFltb, SFleb.
  pose proof (f_partial_cmp_key x y Hx Hy) as Hk. unfold f_partial_cmp in Hk. rewrite Hk.
  pose proof (f_partial_cmp_key y x Hy Hx) as Hk'. unfold f_partial_cmp in Hk'. rewrite Hk'.
  rewrite (cmp_opp cmp (f_key x) (f_key y)). by destruct (cmp (f_key x) (f_key y)).
Qed.

Lemma f_le_nan x y : f_le x y = true -> is_nan x = false /\ is_nan y = false.
Proof. unfold f_le, SFleb. destruct x, y; by cbn. Qed.

Lemma f_le_trans x y z : f_le x y = true -> f_le y z = true -> f_le x z = true.
Proof.
  intros Hxy Hyz. destruct (f_le_nan _ _ Hxy) as [Hx Hy], (f_le_nan _ _ Hyz) as [_ Hz].
  unfold f_le, SFleb in *. pose proof (f_partial_cmp_key x y Hx Hy) as E1.
  pose proof (f_partial_cmp_key y z Hy Hz) as E2. pose proof (f_partial_cmp_key x z Hx Hz) as E3.
  unfold f_partial_cmp in *. rewrite E1 in Hxy. rewrite E2 in Hyz. rewrite E3.
  assert (cmp (f_key x) (f_key z) <> Gt) as Hne.
  { apply (cmp_trans_le (c := cmp)) with (f_key y); intros E; [by rewrite E in Hxy | by rewrite E in Hyz]. }
  by destruct (cmp (f_key x) (f_key z)).
Qed.

Lemma f_le_refl x : is_nan x = false -> f_le x x = true.
Proof. intros Hx. apply f_lt_le; [done | done |]. unfold f_lt, SFltb.
  pose proof (f_partial_cmp_key x x Hx Hx) as E. unfold f_partial_cmp in E. rewrite E.
  by rewrite cmp_refl.
Qed.

(** [lo <= x <= hi]. *)
Definition f_in (lo hi x : f32) : bool := f_le lo x && f_le x hi.

(** Clamping answers a number of the range, or NaN on NaN. *)
Lemma f32_clamp_in x lo hi :
  f_le lo hi = true -> is_nan x = false -> f_in lo hi (f32_clamp x lo hi) = true.
Proof.
  intros Hr Hx. destruct (f_le_nan _ _ Hr) as [Hlo Hhi]. unfold f32_clamp, f_in.
  destruct (f_lt x lo) eqn:E1; [rewrite Hr, f_le_refl by done; done |].
  destruct (f_lt hi x) eqn:E2; [rewrite Hr, f_le_refl by done; done |].
  apply andb_true_iff. split; by apply f_lt_le.
Qed.

Lemma f32_clamp_nan lo hi : f32_clamp S754_nan lo hi = S754_nan.
Proof. unfold f32_clamp, f_lt, SFltb. cbn. by destruct lo, hi. Qed.

Lemma f32_clamp_ok x lo hi :
  f_le lo hi = true ->
  is_nan (f32_clamp x lo hi) = true \/ f_in lo hi (f32_clamp x lo hi) = true.
Proof.
  intros Hr. destruct (is_nan x) eqn:E; [| right; by apply f32_clamp_in].
  left. destruct x; try done. by rewrite f32_clamp_nan.
Qed.

Lemma f32_clamp_id x lo hi : is_nan x = true \/ f_in lo hi x = true -> f32_clamp x lo hi = x.
Proof.
  intros [Hx | [H1 H2]%andb_true_iff].
  - destruct x; try done. apply f32_clamp_nan.
  - destruct (f_le_nan _ _ H1) as [? ?], (f_le_nan _ _ H2) as [? ?].
    apply f_lt_le in H1, H2; try done. unfold f32_clamp. by rewrite H1, H2.
Qed.

Lemma f_cast_range lo hi x : (lo <= 0 <= hi)%Z -> (lo <= f_cast lo hi x <= hi)%Z.
Proof. intros Hr. destruct x as [| [] | |]; cbn; lia. Qed.

(** ** Orders for sorting: [a.partial_cmp(b).unwrap_or(Equal)] and its reverse *)
Definition f_asc (x y : f32) : bool := negb (f_lt y x).
Definition f_desc (x y : f32) : bool := negb (f_lt x y).

Lemma f_asc_le x y : is_nan x = false -> is_nan y = false -> f_asc x y = f_le x y.
Proof.
  intros Hx Hy. unfold f_asc. destruct (f_lt y x) eqn:E; cbn.
  - symmetry. apply not_true_is_false. intros E'. apply f_lt_le in E'; [congruence | done | done].
  - symmetry. by apply f_lt_le.
Qed.

Lemma f_desc_le x y : is_nan x = false -> is_nan y = false -> f_desc x y = f_le y x.
Proof. intros. change (f_desc x y) with (f_asc y x). by apply f_asc_le. Qed.

Lemma f_le_total x y : is_nan x = false -> is_nan y = false -> f_le x y = true \/ f_le y x = true.
Proof.
  intros Hx Hy. destruct (f_lt y x) eqn:E; [| left; by apply f_lt_le].
  right. apply not_false_is_true. intros E'. pose proof (f_lt_le x y Hx Hy) as Hl.
  destruct (f_lt x y) eqn:E2; [| destruct Hl as [Hl _]; rewrite Hl in E'; done].
  unfold f_lt, SFltb in *. pose proof (f_partial_cmp_key x y Hx Hy) as K1.
  pose proof (f_partial_cmp_key y x Hy Hx) as K2. unfold f_partial_cmp in *. rewrite K1 in E2. rewrite K2 in E.
  rewrite (cmp_opp cmp (f_key y) (f_key x)) in E2. by destruct (cmp (f_key y) (f_key x)).
Qed.
