(* ===== verification/Crdt.v ===== *)
(** * Replicated data types

    [liminal-bridge-net/src/noetic/crdt.rs]: hybrid logical clocks, last-writer-wins registers,
    observed-remove sets and positive-negative counters, and [PeerId] of [peers.rs]. *)

From stdpp Require Import prelude gmap strings list fin_maps.
From Stdlib Require Import ZArith Lia SpecFloat.
From S2P Require Import Prelude RustStr RustOrd Float.

(** ** Peers and clocks *)
Record PeerId : Type := mkPeerId { peer_bytes : bytes }.

Global Instance PeerId_eq_dec : EqDecision PeerId.
Proof. solve_decision. Defined.
Global Instance PeerId_countable : Countable PeerId.
Proof. by apply (inj_countable' peer_bytes mkPeerId); intros []. Defined.
Global Instance peer_bytes_inj : Inj (=) (=) peer_bytes.
Proof. intros [] []. cbn. by intros ->. Qed.
Global Instance PeerId_ord : RustOrd PeerId := derive_ord peer_bytes.

Record Hlc : Type := mkHlc {
  phys_ms : Z;
  log : Z;
  node : PeerId
}.

Definition Hlc_fields (h : Hlc) : Z * (Z * PeerId) := (phys_ms h, (log h, node h)).

Global Instance Hlc_eq_dec : EqDecision Hlc.
Proof. solve_decision. Defined.
Global Instance Hlc_countable : Countable Hlc.
Proof. by apply (inj_countable' Hlc_fields (fun t => mkHlc t.1 t.2.1 t.2.2)); intros []. Defined.
Global Instance Hlc_fields_inj : Inj (=) (=) Hlc_fields.
Proof. intros [] []. cbn. by intros [= -> -> ->]. Qed.
Global Instance Hlc_ord : RustOrd Hlc := derive_ord Hlc_fields.

Definition Hlc_new (nd : PeerId) (phys : Z) : Hlc := mkHlc phys 0 nd.

(** ** Merge contexts *)
Record MergeContext : Type := mkMergeContext {
  credence : gmap PeerId f32;
  ctx_default : f32
}.

Definition MergeContext_new (dflt : f32) : MergeContext := mkMergeContext ∅ dflt.

Definition set_peer (ctx : MergeContext) (peer : PeerId) (c : f32) : MergeContext :=
  mkMergeContext (<[peer := c]> (credence ctx)) (ctx_default ctx).

Definition with_peer (ctx : MergeContext) (peer : PeerId) (c : f32) : MergeContext :=
  mkMergeContext (<[peer := c]> (credence ctx)) (ctx_default ctx).

Definition credence_for (ctx : MergeContext) (peer : PeerId) : f32 :=
  match credence ctx !! peer with
  | Some c => c
  | None => ctx_default ctx
  end.

(** 0.5 is the default credence. *)
Definition MergeContext_default : MergeContext := MergeContext_new (f32_lit 1 2).

(** ** Clock operations *)
Definition Hlc_tick (self : Hlc) (now_ms : Z) : Hlc :=
  if (phys_ms self <? now_ms)%Z
  then mkHlc now_ms 0 (node self)
  else mkHlc (phys_ms self) (u32_saturating_add (log self) 1) (node self).

Definition Hlc_merged (self other : Hlc) (nd : PeerId) (now_ms : Z) : Hlc :=
  let max_phys := Z.max (Z.max (phys_ms self) (phys_ms other)) now_ms in
  let lg :=
    if (max_phys =? phys_ms self)%Z && (max_phys =? phys_ms other)%Z then
      u32_add (Z.max (log self) (log other)) 1
    else if (max_phys =? phys_ms self)%Z then u32_add (log self) 1
    else if (max_phys =? phys_ms other)%Z then u32_add (log other) 1
    else 0%Z in
  mkHlc max_phys lg nd.

(** [Hlc::compare]: physical time, then the logical counter, then the credence of the nodes, then
    the nodes themselves; credences that do not compare are skipped. *)
Definition Hlc_compare (self other : Hlc) (ctx : MergeContext) : comparison :=
  match (phys_ms self ?= phys_ms other)%Z with
  | Eq =>
      match (log self ?= log other)%Z with
      | Eq =>
          match f_partial_cmp (credence_for ctx (node self)) (credence_for ctx (node other)) with
          | Some Eq | None => cmp (node self) (node other)
          | Some order => order
          end
      | o => o
      end
  | o => o
  end.

(** ** Last-writer-wins registers *)
Record Lww (T : Type) : Type := mkLww { lww_value : T; lww_clock : Hlc }.
Arguments mkLww {T} _ _.
Arguments lww_value {T} _.
Arguments lww_clock {T} _.

Definition Lww_merge {T : Type} (self other : Lww T) (ctx : MergeContext) : Lww T :=
  match Hlc_compare (lww_clock self) (lww_clock other) ctx with
  | Lt => mkLww (lww_value other) (lww_clock other)
  | _ => self
  end.

(** ** Observed-remove sets *)
Record OrSet (T : Type) `{Countable T} : Type := mkOrSet {
  adds : gmap T Hlc;
  removals : gmap T Hlc
}.
Arguments mkOrSet {T _ _} _ _.
Arguments adds {T _ _} _.
Arguments removals {T _ _} _.

Section orset.
Context {T : Type} `{Countable T, !RustOrd T}.

Definition OrSet_default : OrSet T := mkOrSet ∅ ∅.

(** The update both [insert] and [remove] make to their map. *)
Definition record_clock (ctx : MergeContext) (m : gmap T Hlc) (value : T) (clock : Hlc)
  : gmap T Hlc :=
  match m !! value with
  | Some existing =>
      match Hlc_compare existing clock ctx with
      | Lt => <[value := clock]> m
      | _ => m
      end
  | None => <[value := clock]> m
  end.

Definition OrSet_insert (self : OrSet T) (value : T) (clock : Hlc) (ctx : MergeContext) : OrSet T :=
  mkOrSet (record_clock ctx (adds self) value clock) (removals self).

Definition OrSet_remove (self : OrSet T) (value : T) (clock : Hlc) (ctx : MergeContext) : OrSet T :=
  mkOrSet (adds self) (record_clock ctx (removals self) value clock).

(** The test of the [filter] of [elements]. *)
Definition OrSet_visible (self : OrSet T) (ctx : MergeContext) (e : T * Hlc) : bool :=
  match removals self !! e.1 with
  | Some rem_clock =>
      match Hlc_compare e.2 rem_clock ctx with
      | Gt => true
      | _ => false
      end
  | None => true
  end.

Definition OrSet_elements (self : OrSet T) (ctx : MergeContext) : list T :=
  (List.filter (OrSet_visible self ctx) (bt_iter (adds self))).*1.

Definition OrSet_merge (self other : OrSet T) (ctx : MergeContext) : OrSet T :=
  let self := foldl (fun s e => OrSet_insert s e.1 e.2 ctx) self (bt_iter (adds other)) in
  foldl (fun s e => OrSet_remove s e.1 e.2 ctx) self (bt_iter (removals other)).
End orset.

(** ** Counters

    The [i64] operations wrap, as in a release build. *)
Definition i64_wrap (z : Z) : Z := ((z + 2 ^ 63) `mod` 2 ^ 64 - 2 ^ 63)%Z.
Definition i64_add (a b : Z) : Z := i64_wrap (a + b).
Definition i64_sub (a b : Z) : Z := i64_wrap (a - b).
Definition i64_abs (a : Z) : Z := i64_wrap (Z.abs a).

Record PnCounter : Type := mkPnCounter {
  positives : gmap PeerId Z;
  negatives : gmap PeerId Z
}.

Definition PnCounter_default : PnCounter := mkPnCounter ∅ ∅.

(** [*m.entry(peer).or_default() += delta.abs()]. *)
Definition bump (m : gmap PeerId Z) (peer : PeerId) (delta : Z) : gmap PeerId Z :=
  <[peer := i64_add (default 0%Z (m !! peer)) (i64_abs delta)]> m.

Definition PnCounter_increment (self : PnCounter) (peer : PeerId) (delta : Z) : PnCounter :=
  mkPnCounter (bump (positives self) peer delta) (negatives self).

Definition PnCounter_decrement (self : PnCounter) (peer : PeerId) (delta : Z) : PnCounter :=
  mkPnCounter (positives self) (bump (negatives self) peer delta).

(** [Iterator::sum] over the values of a map. *)
Definition i64_sum (l : list Z) : Z := foldl i64_add 0%Z l.

Definition PnCounter_value (self : PnCounter) : Z :=
  i64_sub (i64_sum (bt_values (positives self))) (i64_sum (bt_values (negatives self))).

(** The body of the loops of [merge]: the entry, zero when absent, is raised to the value. *)
Definition raise (m : gmap PeerId Z) (peer : PeerId) (value : Z) : gmap PeerId Z :=
  <[peer := Z.max (default 0%Z (m !! peer)) value]> m.

Definition PnCounter_merge (self other : PnCounter) : PnCounter :=
  let pos := foldl (fun m e => raise m e.1 e.2) (positives self) (bt_iter (positives other)) in
  let neg := foldl (fun m e => raise m e.1 e.2) (negatives self) (bt_iter (negatives other)) in
  mkPnCounter pos neg.
