(* ===== verification/CrdtProps.v ===== *)
(** * Correctness of the replicated data types

    Clocks advance, [Hlc::compare] is a total order when no credence is NaN, and merging replicas of
    a set or of a counter in any order and any number of times gives one result, which is described
    exactly. *)

From stdpp Require Import prelude gmap strings fin_maps list sorting.
From Stdlib Require Import ZArith Lia SpecFloat.
From S2P Require Import Prelude RustStr RustOrd Float Crdt.

(** ** Join semilattices

    [op] is a join on the elements that satisfy [P], with least element [e]. *)
Class Semilattice {A : Type} (P : A -> Prop) (op : A -> A -> A) (e : A) : Prop := {
  sl_unit_ok : P e;
  sl_closed : forall x y, P x -> P y -> P (op x y);
  sl_unit : forall x, P x -> op e x = x;
  sl_comm : forall x y, P x -> P y -> op x y = op y x;
  sl_assoc : forall x y z, P x -> P y -> P z -> op x (op y z) = op (op x y) z;
  sl_idemp : forall x, P x -> op x x = x
}.

Arguments sl_unit_ok {A} P op e {_}.
Arguments sl_closed {A} P op e {_}.
Arguments sl_unit {A} P op e {_}.
Arguments sl_comm {A} P op e {_}.
Arguments sl_assoc {A} P op e {_}.
Arguments sl_idemp {A} P op e {_}.

Section semilattice.
Context {A : Type} {P : A -> Prop} {op : A -> A -> A} {e : A} `{SL : !Semilattice P op e}.

Lemma sl_fold_ok l x : P x -> Forall P l -> P (foldl op x l).
Proof.
  revert x. induction l as [|y l IH]; intros x Hx Hl; cbn; [done |].
  apply Forall_cons in Hl as [Hy Hl]. apply IH; [by apply (sl_closed P op e) | done].
Qed.

(** The fold absorbs its start and every element it went through. *)
Lemma sl_fold_absorb l x y :
  P x -> Forall P l -> y = x \/ y ∈ l -> P y -> op (foldl op x l) y = foldl op x l.
Proof.
  revert x y. induction l as [|z l IH]; intros x y Hx Hl Hy HPy; cbn.
  - destruct Hy as [-> | Hy]; [by apply (sl_idemp P op e) | set_solver].
  - apply Forall_cons in Hl as [Hz Hl].
    assert (Hxz : P (op x z)) by by apply (sl_closed P op e).
    assert (Hf : P (foldl op (op x z) l)) by by apply sl_fold_ok.
    assert (Hin : op (foldl op (op x z) l) (op x z) = foldl op (op x z) l).
    { apply IH; auto. }
    destruct Hy as [-> | [-> | Hy]%elem_of_cons]; [| | apply IH; auto].
    + rewrite <- Hin at 1. rewrite <- (sl_assoc P op e) by done.
      rewrite (sl_comm P op e (op x z)) by done.
      by rewrite (sl_assoc P op e x x z), (sl_idemp P op e x) by done.
    + rewrite <- Hin at 1. rewrite <- !(sl_assoc P op e) by done.
      by rewrite (sl_idemp P op e z).
Qed.

(** Joining more elements that are already absorbed changes nothing. *)
Lemma sl_fold_fixed l x : (forall y, y ∈ l -> op x y = x) -> foldl op x l = x.
Proof.
  induction l as [|y l IH]; intros Hl; cbn; [done |].
  rewrite (Hl y) by left. apply IH. intros z Hz. apply Hl. by right.
Qed.

Lemma sl_fold_join l x y :
  P x -> P y -> Forall P l -> op x (foldl op y l) = foldl op (op x y) l.
Proof.
  revert y. induction l as [|z l IH]; intros y Hx Hy Hl; cbn; [done |].
  apply Forall_cons in Hl as [Hz Hl].
  rewrite IH; [| done | by apply (sl_closed P op e) | done].
  by rewrite (sl_assoc P op e).
Qed.

Lemma sl_fold_app_fixed l1 l2 :
  Forall P l1 -> Forall P l2 -> (forall x, x ∈ l2 -> x ∈ l1) ->
  op (foldl op e l1) (foldl op e l2) = foldl op e l1.
Proof.
  intros F1 F2 Hsub. pose proof (sl_unit_ok P op e) as He.
  assert (Hf : P (foldl op e l1)) by by apply sl_fold_ok.
  rewrite sl_fold_join by done.
  rewrite (sl_comm P op e _ e), (sl_unit P op e) by done.
  apply sl_fold_fixed. intros y Hy. apply sl_fold_absorb; auto.
  rewrite Forall_forall in F2. auto.
Qed.

(** The order and the repetitions of a fold do not matter. *)
Lemma sl_fold_ext l1 l2 :
  Forall P l1 -> (forall x, x ∈ l1 <-> x ∈ l2) -> foldl op e l1 = foldl op e l2.
Proof.
  intros F1 Hiff. pose proof (sl_unit_ok P op e) as He.
  assert (F2 : Forall P l2).
  { rewrite Forall_forall in F1 |- *. intros x Hx. apply F1, Hiff, Hx. }
  assert (P (foldl op e l1)) by by apply sl_fold_ok.
  assert (P (foldl op e l2)) by by apply sl_fold_ok.
  rewrite <- (sl_fold_app_fixed l1 l2) by (auto; set_solver).
  rewrite (sl_comm P op e) by done. apply sl_fold_app_fixed; auto. set_solver.
Qed.
End semilattice.

(** ** The order of clocks *)
Definition ctx_ok (ctx : MergeContext) : Prop :=
  is_nan (ctx_default ctx) = false /\ map_Forall (fun _ c => is_nan c = false) (credence ctx).

Definition hlc_cmp (ctx : MergeContext) (a b : Hlc) : comparison := Hlc_compare a b ctx.

Definition hlc_key (ctx : MergeContext) (h : Hlc) : Z * (Z * ((Z * (Z * Z)) * PeerId)) :=
  (phys_ms h, (log h, (f_key (credence_for ctx (node h)), node h))).

Global Instance hlc_key_inj ctx : Inj (=) (=) (hlc_key ctx).
Proof. intros [] []. unfold hlc_key. cbn. intros [= -> -> _ ->]. done. Qed.

Lemma credence_for_ok ctx p : ctx_ok ctx -> is_nan (credence_for ctx p) = false.
Proof.
  intros [Hd Hc]. unfold credence_for. destruct (credence ctx !! p) eqn:E; [| done].
  by apply (Hc p).
Qed.

Lemma hlc_cmp_key ctx a b :
  ctx_ok ctx -> hlc_cmp ctx a b = cmp (hlc_key ctx a) (hlc_key ctx b).
Proof.
  intros Hok.
  change (cmp (hlc_key ctx a) (hlc_key ctx b)) with
    (then_cmp (phys_ms a ?= phys_ms b)%Z (then_cmp (log a ?= log b)%Z
      (then_cmp (cmp (f_key (credence_for ctx (node a))) (f_key (credence_for ctx (node b))))
        (cmp (node a) (node b))))).
  unfold hlc_cmp, Hlc_compare. rewrite f_partial_cmp_key by by apply credence_for_ok.
  destruct (phys_ms a ?= phys_ms b)%Z; [| done | done].
  destruct (log a ?= log b)%Z; [| done | done].
  by destruct (cmp (f_key _) (f_key _)).
Qed.

Lemma hlc_cmp_laws ctx : ctx_ok ctx -> CmpLaws (hlc_cmp ctx).
Proof.
  intros Hok. pose proof (cmp_laws_inj (hlc_key ctx) cmp) as Hl.
  apply (cmp_laws_ext _ _ (CmpLaws0 := Hl)). intros a b. by apply hlc_cmp_key.
Qed.

(** ** Observed-remove sets *)
Section orset.
Context {T : Type} `{Countable T, !RustOrd T}.

Definition join_clocks (ctx : MergeContext) : gmap T Hlc -> gmap T Hlc -> gmap T Hlc :=
  union_with (fun x y => Some (cmax (hlc_cmp ctx) x y)).

Definition join_opt (ctx : MergeContext) (o : option Hlc) (c : Hlc) : Hlc :=
  match o with
  | Some e => cmax (hlc_cmp ctx) e c
  | None => c
  end.

Lemma record_clock_lookup ctx (m : gmap T Hlc) v c k :
  record_clock ctx m v c !! k
  = if decide (k = v) then Some (join_opt ctx (m !! v) c) else m !! k.
Proof.
  unfold record_clock, join_opt, cmax, hlc_cmp. destruct (decide (k = v)) as [-> | Hne].
  - destruct (m !! v) as [e|] eqn:E; [| by rewrite lookup_insert_eq].
    destruct (Hlc_compare e c ctx); rewrite ?E, ?lookup_insert_eq; done.
  - destruct (m !! v) as [e|] eqn:E; [| by rewrite lookup_insert_ne].
    destruct (Hlc_compare e c ctx); rewrite ?lookup_insert_ne; done.
Qed.

Lemma fold_insert_eq ctx l (s : OrSet T) :
  foldl (fun s e => OrSet_insert s e.1 e.2 ctx) s l
  = mkOrSet (foldl (fun m e => record_clock ctx m e.1 e.2) (adds s) l) (removals s).
Proof. revert s. induction l as [|x l IH]; intros []; cbn; [done |]. by rewrite IH. Qed.

Lemma fold_remove_eq ctx l (s : OrSet T) :
  foldl (fun s e => OrSet_remove s e.1 e.2 ctx) s l
  = mkOrSet (adds s) (foldl (fun m e => record_clock ctx m e.1 e.2) (removals s) l).
Proof. revert s. induction l as [|x l IH]; intros []; cbn; [done |]. by rewrite IH. Qed.

Lemma fold_record_clock_join ctx (m o : gmap T Hlc) :
  foldl (fun m e => record_clock ctx m e.1 e.2) m (bt_iter o) = join_clocks ctx m o.
Proof.
  apply map_eq. intros k.
  rewrite (foldl_bt_iter_lookup _ (join_opt ctx)) by (intros; apply record_clock_lookup).
  unfold join_clocks. rewrite lookup_union_with.
  by destruct (m !! k), (o !! k).
Qed.

(** [merge] keeps, for every value, the later of the two add clocks and of the two removal
    clocks. *)
Lemma OrSet_merge_join ctx (a b : OrSet T) :
  OrSet_merge a b ctx
  = mkOrSet (join_clocks ctx (adds a) (adds b)) (join_clocks ctx (removals a) (removals b)).
Proof.
  unfold OrSet_merge. rewrite fold_insert_eq, fold_remove_eq. cbn.
  by rewrite !fold_record_clock_join.
Qed.

Lemma join_clocks_lookup ctx (m o : gmap T Hlc) k :
  join_clocks ctx m o !! k = union_with (fun x y => Some (cmax (hlc_cmp ctx) x y)) (m !! k) (o !! k).
Proof. unfold join_clocks. by rewrite lookup_union_with. Qed.

Lemma join_clocks_semilattice ctx :
  ctx_ok ctx -> Semilattice (fun _ => True) (join_clocks ctx) ∅.
Proof.
  intros Hok. pose proof (hlc_cmp_laws ctx Hok) as Hlaws. split; try done.
  - intros m _. apply map_eq. intros k. rewrite join_clocks_lookup, lookup_empty.
    by destruct (m !! k).
  - intros m o _ _. apply map_eq. intros k. rewrite !join_clocks_lookup.
    destruct (m !! k), (o !! k); cbn; try done. f_equal. apply cmax_comm.
  - intros m o p _ _ _. apply map_eq. intros k. rewrite !join_clocks_lookup.
    destruct (m !! k), (o !! k), (p !! k); cbn; try done. f_equal. apply cmax_assoc.
  - intros m _. apply map_eq. intros k. rewrite !join_clocks_lookup.
    destruct (m !! k); cbn; try done. f_equal. apply cmax_idemp.
Qed.

Lemma OrSet_semilattice ctx :
  ctx_ok ctx ->
  Semilattice (fun _ => True) (fun a b : OrSet T => OrSet_merge a b ctx) OrSet_default.
Proof.
  intros Hok. pose proof (join_clocks_semilattice ctx Hok) as SL.
  split; try done; intros *; rewrite ?OrSet_merge_join; cbn; intros.
  - by rewrite !(sl_unit _ _ _ _ I); destruct x.
  - by rewrite (sl_comm _ _ _ (adds x) _ I I), (sl_comm _ _ _ (removals x) _ I I).
  - by rewrite !(sl_assoc _ _ _ _ _ _ I I I).
  - by rewrite !(sl_idemp _ _ _ _ I); destruct x.
Qed.

(** The replicas [l] merged one after the other into an empty set. *)
Definition orset_merge_all (ctx : MergeContext) (l : list (OrSet T)) : OrSet T :=
  foldl (fun a b => OrSet_merge a b ctx) OrSet_default l.

Lemma elem_of_OrSet_elements ctx (s : OrSet T) v :
  v ∈ OrSet_elements s ctx <->
  exists c, adds s !! v = Some c /\ forall r, removals s !! v = Some r -> hlc_cmp ctx c r = Gt.
Proof.
  unfold OrSet_elements. rewrite list_elem_of_fmap. split.
  - intros ([k c] & -> & Hin). apply list_elem_of_In, List.filter_In in Hin as [Hin Hv].
    apply list_elem_of_In, elem_of_bt_iter in Hin. exists c. split; [done |]. cbn.
    intros r Hr. unfold OrSet_visible in Hv. cbn in Hv. rewrite Hr in Hv.
    unfold hlc_cmp. by destruct (Hlc_compare c r ctx).
  - intros (c & Hc & Hr). exists (v, c). split; [done |].
    apply list_elem_of_In, List.filter_In. split.
    + by apply list_elem_of_In, elem_of_bt_iter.
    + unfold OrSet_visible. cbn. destruct (removals s !! v) as [r|] eqn:E; [| done].
      specialize (Hr r eq_refl). unfold hlc_cmp in Hr. by rewrite Hr.
Qed.

(** Reading a set lists its values in their order, each once. *)
Lemma OrSet_elements_sorted ctx (s : OrSet T) :
  StronglySorted (fun x y => cmp x y = Lt) (OrSet_elements s ctx).
Proof.
  unfold OrSet_elements. pose proof (bt_iter_sorted (adds s)) as Hs.
  pose proof (bt_iter_NoDup (adds s)) as Hn. revert Hs Hn.
  generalize (bt_iter (adds s)) as l. induction l as [|[k c] l IH]; intros Hs Hn; cbn; [constructor |].
  apply StronglySorted_inv in Hs as [Hs Hk]. cbn in Hn. apply NoDup_cons in Hn as [Hkn Hn].
  destruct (OrSet_visible s ctx (k, c)); cbn; [| auto]. constructor; [auto |].
  rewrite Forall_forall in Hk. apply Forall_forall. intros y Hy.
  apply list_elem_of_fmap in Hy as ([y' cy] & -> & Hin).
  apply list_elem_of_In, List.filter_In in Hin as [Hin _]. apply list_elem_of_In in Hin.
  specialize (Hk _ Hin). unfold entry_le in Hk. cbn in *.
  destruct (cmp k y') eqn:E; [| done | done].
  apply (cmp_eq cmp) in E as ->. exfalso. apply Hkn, list_elem_of_fmap. by exists (y', cy).
Qed.

(** ** What a merge of many replicas holds *)
Definition join_all (ctx : MergeContext) (ms : list (gmap T Hlc)) (m : gmap T Hlc) : gmap T Hlc :=
  foldl (join_clocks ctx) m ms.

Lemma orset_merge_all_join ctx l (s : OrSet T) :
  foldl (fun a b => OrSet_merge a b ctx) s l
  = mkOrSet (join_all ctx (adds <$> l) (adds s)) (join_all ctx (removals <$> l) (removals s)).
Proof.
  revert s. induction l as [|a l IH]; intros s; cbn.
  - by destruct s.
  - rewrite IH, OrSet_merge_join. done.
Qed.

(** The clock of a value after the merge is the latest of the clocks it had. *)
Lemma join_all_lookup ctx ms (m : gmap T Hlc) v :
  ctx_ok ctx ->
  match join_all ctx ms m !! v with
  | Some c =>
      (exists o, o ∈ m :: ms /\ o !! v = Some c) /\
      (forall o d, o ∈ m :: ms -> o !! v = Some d -> hlc_cmp ctx d c <> Gt)
  | None => forall o, o ∈ m :: ms -> o !! v = None
  end.
Proof.
  intros Hok. pose proof (hlc_cmp_laws ctx Hok) as Hlaws.
  revert m. induction ms as [|a ms IH]; intros m; cbn.
  - destruct (m !! v) as [c|] eqn:E.
    + split; [exists m; set_solver |].
      intros o d ->%list_elem_of_singleton Hd. assert (d = c) as -> by congruence.
      by rewrite cmp_refl.
    + intros o ->%list_elem_of_singleton. done.
  - specialize (IH (join_clocks ctx m a)). fold (join_all ctx ms (join_clocks ctx m a)).
    destruct (join_all ctx ms (join_clocks ctx m a) !! v) as [c|] eqn:E.
    + destruct IH as [(o & Ho & Hoc) Hmax].
      assert (Hj : forall o' d, o' ∈ [m; a] -> o' !! v = Some d ->
        exists d', join_clocks ctx m a !! v = Some d' /\ hlc_cmp ctx d d' <> Gt).
      { intros o' d Ho' Hd. rewrite join_clocks_lookup.
        apply elem_of_cons in Ho' as [-> | ->%list_elem_of_singleton]; rewrite Hd.
        - destruct (a !! v) as [da|]; cbn; eexists; (split; [done |]); [| by rewrite cmp_refl].
          destruct (cmax_spec (c := hlc_cmp ctx) d da _ eq_refl) as (_ & Hle & _).
          intros Hg. by apply cmp_gt_lt in Hg.
        - destruct (m !! v) as [dm|]; cbn; eexists; (split; [done |]); [| by rewrite cmp_refl].
          destruct (cmax_spec (c := hlc_cmp ctx) dm d _ eq_refl) as (_ & _ & Hle).
          intros Hg. by apply cmp_gt_lt in Hg. }
      split.
      * apply elem_of_cons in Ho as [-> | Ho]; [| exists o; set_solver].
        rewrite join_clocks_lookup in Hoc.
        destruct (m !! v) as [dm|] eqn:Em, (a !! v) as [da|] eqn:Ea; cbn in Hoc; simplify_eq.
        -- destruct (cmax_spec (c := hlc_cmp ctx) dm da _ eq_refl) as ([-> | ->] & _);
             [exists m | exists a]; set_solver.
        -- exists m; set_solver.
        -- exists a; set_solver.
      * intros o' d Ho' Hd.
        destruct (decide (o' ∈ ms)) as [Hin | Hnin]; [apply (Hmax o' d); [by right | done] |].
        destruct (Hj o' d) as (d' & Hd' & Hle); [set_solver | done |].
        eapply (cmp_trans_le (c := hlc_cmp ctx)); [exact Hle |]. apply (Hmax _ _ ltac:(left) Hd').
    + intros o Ho. pose proof (IH (join_clocks ctx m a) ltac:(left)) as Hn.
      rewrite join_clocks_lookup in Hn.
      destruct (m !! v) eqn:Em, (a !! v) eqn:Ea; cbn in Hn; try discriminate.
      apply elem_of_cons in Ho as [-> | [-> | Ho]%elem_of_cons]; [done | done |].
      apply IH. by right.
Qed.
End orset.

Section orset_read.
Context {T : Type} `{Countable T, !RustOrd T}.

Lemma orset_merged_elements ctx (l : list (OrSet T)) v :
  ctx_ok ctx ->
  v ∈ OrSet_elements (orset_merge_all ctx l) ctx <->
  exists a c, a ∈ l /\ adds a !! v = Some c /\
    forall b r, b ∈ l -> removals b !! v = Some r -> hlc_cmp ctx c r = Gt.
Proof.
  intros Hok. pose proof (hlc_cmp_laws ctx Hok) as Hlaws.
  rewrite elem_of_OrSet_elements. unfold orset_merge_all. rewrite orset_merge_all_join. cbn.
  pose proof (join_all_lookup ctx (adds <$> l) ∅ v Hok) as Ha.
  pose proof (join_all_lookup ctx (removals <$> l) ∅ v Hok) as Hr. split.
  - intros (c & Hc & Hgt). rewrite Hc in Ha. destruct Ha as [(o & Hin & Ho) _].
    apply elem_of_cons in Hin as [-> | Hin]; [by rewrite lookup_empty in Ho |].
    apply list_elem_of_fmap in Hin as (a & -> & Hin). exists a, c. split_and!; [done | done |].
    intros b r Hb Hbr.
    destruct (join_all ctx (removals <$> l) ∅ !! v) as [rm|].
    + destruct Hr as [_ Hmax]. specialize (Hgt rm eq_refl).
      assert (Hle : hlc_cmp ctx r rm <> Gt)
        by (apply (Hmax (removals b)); [right; by apply list_elem_of_fmap_2 | done]).
      apply cmp_gt_lt in Hgt. apply cmp_gt_lt. destruct (hlc_cmp ctx r rm) eqn:E; [| | done].
      * apply (cmp_eq (hlc_cmp ctx)) in E as ->. done.
      * by apply (cmp_trans (hlc_cmp ctx) r rm c).
    + rewrite (Hr (removals b)) in Hbr; [done |]. right. by apply list_elem_of_fmap_2.
  - intros (a & c & Hin & Hac & Hgt).
    destruct (join_all ctx (adds <$> l) ∅ !! v) as [cm|] eqn:E.
    + exists cm. split; [done |]. intros r Hjr. rewrite Hjr in Hr.
      destruct Hr as [(o & Ho & Hor) _].
      apply elem_of_cons in Ho as [-> | Ho]; [by rewrite lookup_empty in Hor |].
      apply list_elem_of_fmap in Ho as (b & -> & Hb). specialize (Hgt b r Hb Hor).
      destruct Ha as [_ Hmax].
      assert (Hle : hlc_cmp ctx c cm <> Gt)
        by (apply (Hmax (adds a)); [right; by apply list_elem_of_fmap_2 | done]).
      apply cmp_gt_lt in Hgt. apply cmp_gt_lt. destruct (hlc_cmp ctx c cm) eqn:E2; [| | done].
      * apply (cmp_eq (hlc_cmp ctx)) in E2 as ->. done.
      * by apply (cmp_trans (hlc_cmp ctx) r c cm).
    + rewrite (Ha (adds a)) in Hac; [done |]. right. by apply list_elem_of_fmap_2.
Qed.
End orset_read.

(** ** Counters *)
Definition i64_limit : Z := 2 ^ 63.

Lemma i64_wrap_small z : (- i64_limit <= z < i64_limit)%Z -> i64_wrap z = z.
Proof.
  unfold i64_limit, i64_wrap. intros Hz. rewrite Z.mod_small; [lia |].
  change (2 ^ 64)%Z with (2 ^ 63 + 2 ^ 63)%Z. lia.
Qed.

Fixpoint zsum (l : list Z) : Z :=
  match l with
  | [] => 0
  | x :: rest => x + zsum rest
  end.

Lemma zsum_app l k : zsum (l ++ k) = (zsum l + zsum k)%Z.
Proof. induction l as [|x l IH]; cbn; [done |]. rewrite IH. lia. Qed.

Lemma zsum_perm l k : l ≡ₚ k -> zsum l = zsum k.
Proof. induction 1; cbn; lia. Qed.

Lemma zsum_nonneg l : Forall (Z.le 0) l -> (0 <= zsum l)%Z.
Proof. induction 1; cbn; lia. Qed.

Lemma zsum_zero l : Forall (eq 0%Z) l -> zsum l = 0%Z.
Proof. induction 1; cbn; lia. Qed.

Lemma i64_sum_acc l a :
  Forall (Z.le 0) l -> (0 <= a)%Z -> (a + zsum l < i64_limit)%Z ->
  foldl i64_add a l = (a + zsum l)%Z.
Proof.
  revert a. induction l as [|x l IH]; intros a Hl Ha Hs; cbn in *; [lia |].
  apply Forall_cons in Hl as [Hx Hl]. pose proof (zsum_nonneg l Hl) as Hn.
  unfold i64_add at 2. rewrite i64_wrap_small by lia. rewrite IH; [lia | done | lia | lia].
Qed.

Lemma zsum_member {A} (f : A -> Z) (l : list A) x :
  (forall y, 0 <= f y)%Z -> x ∈ l -> (f x <= zsum (f <$> l))%Z.
Proof.
  intros Hf. induction l as [|y l IH]; intros Hx; [set_solver |]. cbn.
  assert (0 <= zsum (f <$> l))%Z by (apply zsum_nonneg, Forall_fmap, Forall_true; intros; apply Hf).
  specialize (Hf y). apply elem_of_cons in Hx as [-> | Hx]; [lia |]. specialize (IH Hx). lia.
Qed.

(** The sum of the values of a map, over any list of peers that covers its keys. *)
Lemma zsum_values_cover (ps : list PeerId) (m : gmap PeerId Z) :
  NoDup ps -> (forall p, is_Some (m !! p) -> p ∈ ps) ->
  zsum (map_to_list m).*2 = zsum ((fun p => default 0%Z (m !! p)) <$> ps).
Proof.
  revert m. induction ps as [|p ps IH]; intros m Hn Hd.
  - assert (m = ∅) as ->; [| by rewrite map_to_list_empty].
    apply map_eq. intros q. rewrite lookup_empty. destruct (m !! q) eqn:E; [| done].
    assert (q ∈ []) by (apply Hd; by eexists). set_solver.
  - apply NoDup_cons in Hn as [Hp Hn]. cbn. destruct (m !! p) as [v|] eqn:E.
    + rewrite <- (zsum_perm _ _ (fmap_Permutation snd _ _ (map_to_list_delete m p v E))). cbn.
      rewrite (IH (delete p m)); [| done |].
      * f_equal. f_equal. apply list_fmap_ext. intros i q Hq.
        rewrite lookup_delete_ne; [done |]. intros ->. apply Hp.
        by apply list_elem_of_lookup_2 in Hq.
      * intros q [x Hx]. apply lookup_delete_Some in Hx as [Hne Hx].
        assert (q ∈ p :: ps) by (apply Hd; by eexists). set_solver.
    + rewrite IH; [cbn; lia | done |]. intros q Hq. specialize (Hd q Hq).
      apply elem_of_cons in Hd as [-> | Hd]; [| done]. rewrite E in Hq. by destruct Hq.
Qed.

(** Each map of a counter holds no negative number unless an addition overflowed. *)
Definition counts_ok (m : gmap PeerId Z) : Prop := map_Forall (fun _ v => (0 <= v)%Z) m.

Definition counter_ok (c : PnCounter) : Prop := counts_ok (positives c) /\ counts_ok (negatives c).

Definition join_counts : gmap PeerId Z -> gmap PeerId Z -> gmap PeerId Z :=
  union_with (fun x y => Some (Z.max x y)).

Lemma raise_lookup m p v q :
  raise m p v !! q = if decide (q = p) then Some (Z.max (default 0%Z (m !! p)) v) else m !! q.
Proof.
  unfold raise. destruct (decide (q = p)) as [-> | Hne].
  - by rewrite lookup_insert_eq.
  - by rewrite lookup_insert_ne.
Qed.

Lemma fold_raise_join m o :
  counts_ok o -> foldl (fun m e => raise m e.1 e.2) m (bt_iter o) = join_counts m o.
Proof.
  intros Ho. apply map_eq. intros k.
  rewrite (foldl_bt_iter_lookup _ (fun w v => Z.max (default 0%Z w) v))
    by (intros; apply raise_lookup).
  unfold join_counts. rewrite lookup_union_with.
  destruct (o !! k) as [v|] eqn:E; [| by destruct (m !! k)].
  pose proof (Ho _ _ E) as Hv. cbn in Hv. destruct (m !! k); cbn; f_equal; lia.
Qed.

Lemma join_counts_lookup m o k :
  join_counts m o !! k = union_with (fun x y => Some (Z.max x y)) (m !! k) (o !! k).
Proof. unfold join_counts. by rewrite lookup_union_with. Qed.

Lemma join_counts_semilattice : Semilattice counts_ok join_counts ∅.
Proof.
  split.
  - apply map_Forall_empty.
  - intros m o Hm Ho k v. rewrite join_counts_lookup.
    destruct (m !! k) eqn:E1, (o !! k) eqn:E2; cbn; intros; simplify_eq;
      try (pose proof (Hm _ _ E1)); try (pose proof (Ho _ _ E2)); cbn in *; lia.
  - intros m _. apply map_eq. intros k. rewrite join_counts_lookup, lookup_empty.
    by destruct (m !! k).
  - intros m o _ _. apply map_eq. intros k. rewrite !join_counts_lookup.
    destruct (m !! k), (o !! k); cbn; try done. f_equal. lia.
  - intros m o p _ _ _. apply map_eq. intros k. rewrite !join_counts_lookup.
    destruct (m !! k), (o !! k), (p !! k); cbn; try done. f_equal. lia.
  - intros m _. apply map_eq. intros k. rewrite !join_counts_lookup.
    destruct (m !! k); cbn; try done. f_equal. lia.
Qed.

Lemma PnCounter_merge_join a b :
  counter_ok b ->
  PnCounter_merge a b
  = mkPnCounter (join_counts (positives a) (positives b)) (join_counts (negatives a) (negatives b)).
Proof. intros [Hp Hn]. unfold PnCounter_merge. by rewrite !fold_raise_join. Qed.

Lemma PnCounter_semilattice : Semilattice counter_ok PnCounter_merge PnCounter_default.
Proof.
  pose proof join_counts_semilattice as SL.
  assert (Hcl : forall x y, counter_ok x -> counter_ok y -> counter_ok (PnCounter_merge x y)).
  { intros x y [Hx Hx'] Hy. rewrite PnCounter_merge_join by done. destruct Hy as [Hy Hy'].
    split; cbn; by apply (sl_closed _ _ _). }
  split.
  - split; apply map_Forall_empty.
  - exact Hcl.
  - intros [] Hx. rewrite PnCounter_merge_join by done. destruct Hx as [Hx Hx'].
    by rewrite !(sl_unit _ _ _).
  - intros [] [] Hx Hy. rewrite !PnCounter_merge_join by done.
    destruct Hx as [Hx Hx'], Hy as [Hy Hy'].
    f_equal; by apply (sl_comm counts_ok join_counts ∅).
  - intros x y z Hx Hy Hz. rewrite !PnCounter_merge_join by auto. cbn.
    destruct Hx as [Hx Hx'], Hy as [Hy Hy'], Hz as [Hz Hz'].
    f_equal; by apply (sl_assoc counts_ok join_counts ∅).
  - intros [] Hx. rewrite PnCounter_merge_join by done. destruct Hx as [Hx Hx'].
    f_equal; by apply (sl_idemp counts_ok join_counts ∅).
Qed.

(** A replica's own updates. *)
Inductive CounterOp : Type :=
| Inc (delta : Z)
| Dec (delta : Z).

Definition pn_apply (p : PeerId) (c : PnCounter) (op : CounterOp) : PnCounter :=
  match op with
  | Inc delta => PnCounter_increment c p delta
  | Dec delta => PnCounter_decrement c p delta
  end.

Definition pn_replica (r : PeerId * list CounterOp) : PnCounter :=
  foldl (pn_apply r.1) PnCounter_default r.2.

Definition pn_merge_all (l : list PnCounter) : PnCounter := foldl PnCounter_merge PnCounter_default l.

Definition inc_delta (op : CounterOp) : option Z :=
  match op with
  | Inc delta => Some delta
  | Dec _ => None
  end.
Definition dec_delta (op : CounterOp) : option Z :=
  match op with
  | Inc _ => None
  | Dec delta => Some delta
  end.
Definition inc_total (ops : list CounterOp) : Z := zsum (Z.abs <$> omap inc_delta ops).
Definition dec_total (ops : list CounterOp) : Z := zsum (Z.abs <$> omap dec_delta ops).

Definition count_of (m : gmap PeerId Z) (p : PeerId) : Z := default 0%Z (m !! p).

Lemma zsum_abs_nonneg l : (0 <= zsum (Z.abs <$> l))%Z.
Proof. apply zsum_nonneg, Forall_fmap, Forall_true. intros x. cbn. lia. Qed.

Lemma count_of_nonneg m p : counts_ok m -> (0 <= count_of m p)%Z.
Proof. intros Hm. unfold count_of. destruct (m !! p) eqn:E; cbn; [by apply (Hm p) | lia]. Qed.

Lemma bump_spec m p d :
  counts_ok m -> (count_of m p + Z.abs d < i64_limit)%Z ->
  bump m p d = <[p := (count_of m p + Z.abs d)%Z]> m.
Proof.
  intros Hm Hb. pose proof (count_of_nonneg m p Hm) as Hm0.
  unfold bump, count_of, i64_abs, i64_add in *.
  rewrite (i64_wrap_small (Z.abs d)) by lia. by rewrite i64_wrap_small by lia.
Qed.

Lemma bump_all m p ds :
  counts_ok m -> (count_of m p + zsum (Z.abs <$> ds) < i64_limit)%Z ->
  let m' := foldl (fun m d => bump m p d) m ds in
  counts_ok m' /\ count_of m' p = (count_of m p + zsum (Z.abs <$> ds))%Z /\
  (forall q, q <> p -> m' !! q = m !! q).
Proof.
  revert m. induction ds as [|d ds IH]; intros m Hm Hb; cbn in *.
  - split_and!; [done | lia | done].
  - pose proof (zsum_abs_nonneg ds) as Hd. pose proof (count_of_nonneg m p Hm) as Hm0.
    rewrite bump_spec by (done || lia).
    assert (Hc : count_of (<[p := (count_of m p + Z.abs d)%Z]> m) p = (count_of m p + Z.abs d)%Z).
    { unfold count_of at 1. by rewrite lookup_insert_eq. }
    destruct (IH (<[p := (count_of m p + Z.abs d)%Z]> m)) as (Hok & Hs & Ho).
    + apply map_Forall_insert_2; [lia | done].
    + rewrite Hc. lia.
    + split_and!; [done | rewrite Hs, Hc; lia |].
      intros q Hq. rewrite Ho by done. by rewrite lookup_insert_ne.
Qed.

Lemma pn_apply_maps p ops c :
  foldl (pn_apply p) c ops
  = mkPnCounter (foldl (fun m d => bump m p d) (positives c) (omap inc_delta ops))
      (foldl (fun m d => bump m p d) (negatives c) (omap dec_delta ops)).
Proof.
  revert c. induction ops as [|[d|d] ops IH]; intros []; cbn; [done | |]; by rewrite IH.
Qed.

(** A replica counts its own additions and nothing else. *)
Lemma pn_replica_counts p ops :
  (inc_total ops < i64_limit)%Z -> (dec_total ops < i64_limit)%Z ->
  counter_ok (pn_replica (p, ops)) /\
  (forall q, count_of (positives (pn_replica (p, ops))) q = if decide (q = p) then inc_total ops else 0%Z) /\
  (forall q, count_of (negatives (pn_replica (p, ops))) q = if decide (q = p) then dec_total ops else 0%Z).
Proof.
  intros Hi Hd. unfold pn_replica. cbn. rewrite pn_apply_maps. cbn.
  destruct (bump_all ∅ p (omap inc_delta ops)) as (Hp & Hpp & Hpo);
    [apply map_Forall_empty | done |].
  destruct (bump_all ∅ p (omap dec_delta ops)) as (Hn & Hnp & Hno);
    [apply map_Forall_empty | done |].
  split_and!; [by split | |]; intros q; case_decide as Hq; subst; cbn in *.
  - rewrite Hpp. unfold count_of. rewrite lookup_empty. done.
  - unfold count_of. rewrite Hpo by done. by rewrite lookup_empty.
  - rewrite Hnp. unfold count_of. rewrite lookup_empty. done.
  - unfold count_of. rewrite Hno by done. by rewrite lookup_empty.
Qed.

Lemma count_of_join m o p :
  counts_ok m -> counts_ok o -> count_of (join_counts m o) p = Z.max (count_of m p) (count_of o p).
Proof.
  intros Hm Ho. pose proof (count_of_nonneg m p Hm) as H1. pose proof (count_of_nonneg o p Ho) as H2.
  unfold count_of in *. rewrite join_counts_lookup.
  destruct (m !! p), (o !! p); cbn in *; lia.
Qed.

Definition join_counts_all (l : list (gmap PeerId Z)) : gmap PeerId Z := foldl join_counts ∅ l.

Lemma pn_merge_all_join l :
  Forall counter_ok l ->
  pn_merge_all l = mkPnCounter (join_counts_all (positives <$> l)) (join_counts_all (negatives <$> l)).
Proof.
  unfold pn_merge_all, join_counts_all.
  change PnCounter_default with (mkPnCounter ∅ ∅). generalize (∅ : gmap PeerId Z) at 1 3.
  generalize (∅ : gmap PeerId Z). induction l as [|c l IH]; intros n m Hl; cbn; [done |].
  apply Forall_cons in Hl as [Hc Hl]. rewrite PnCounter_merge_join by done. cbn. by apply IH.
Qed.

(** The sum of the values of the join of maps that each count one peer. *)
Lemma join_counts_all_sum (f : PeerId * list CounterOp -> gmap PeerId Z)
    (tot : list CounterOp -> Z) reps :
  (forall ops, (0 <= tot ops)%Z) -> NoDup reps.*1 ->
  Forall (fun r => counts_ok (f r) /\
    forall q, count_of (f r) q = if decide (q = r.1) then tot r.2 else 0%Z) reps ->
  counts_ok (join_counts_all (f <$> reps)) /\
  forall q, count_of (join_counts_all (f <$> reps)) q
    = zsum ((fun r => if decide (q = r.1) then tot r.2 else 0%Z) <$> reps).
Proof.
  intros Ht. unfold join_counts_all. induction reps as [|r reps IH] using rev_ind; intros Hn Hf.
  - split; [apply map_Forall_empty |]. done.
  - rewrite fmap_app in Hn. setoid_rewrite fmap_app. rewrite foldl_app. cbn in *.
    apply NoDup_app in Hn as (Hn & Hdisj & _). apply Forall_app in Hf as [Hf Hr].
    apply Forall_cons in Hr as [[Hrok Hr] _]. destruct (IH Hn Hf) as [Hok Hsum].
    split; [by apply (sl_closed counts_ok join_counts ∅ (Semilattice := join_counts_semilattice)) |].
    intros q. rewrite count_of_join, Hr, Hsum, zsum_app by done. cbn.
    case_decide as Hq; [| rewrite Z.add_0_r, Z.max_l; [lia |]].
    + rewrite (zsum_zero _); [specialize (Ht r.2); lia |].
      apply Forall_fmap, Forall_forall. intros r' Hr'. cbn. rewrite decide_False; [done |].
      intros Heq. apply (Hdisj q); [rewrite Heq; by apply list_elem_of_fmap_2 | set_solver].
    + apply zsum_nonneg, Forall_fmap, Forall_true. intros r'. cbn. case_decide; [apply Ht | lia].
Qed.

Lemma zsum_fmap_add {A} (f g : A -> Z) (l : list A) :
  zsum ((fun x => (f x + g x)%Z) <$> l) = (zsum (f <$> l) + zsum (g <$> l))%Z.
Proof. induction l as [|x l IH]; cbn; [done |]. rewrite IH. lia. Qed.

Lemma zsum_indicator (ps : list PeerId) p v :
  NoDup ps -> p ∈ ps -> zsum ((fun q => if decide (q = p) then v else 0%Z) <$> ps) = v.
Proof.
  induction ps as [|q ps IH]; intros Hn Hp; [set_solver |]. cbn.
  apply NoDup_cons in Hn as [Hq Hn]. case_decide as Heq.
  - subst. rewrite (zsum_zero _); [lia |]. apply Forall_fmap, Forall_forall. intros x Hx. cbn.
    rewrite decide_False; [done |]. intros ->. done.
  - rewrite IH; [lia | done |]. by apply elem_of_cons in Hp as [-> | Hp].
Qed.

Lemma zsum_by_peer (ps : list PeerId) (tot : list CounterOp -> Z) reps :
  NoDup ps -> (forall p, p ∈ reps.*1 -> p ∈ ps) ->
  zsum ((fun q => zsum ((fun r : PeerId * list CounterOp =>
           if decide (q = r.1) then tot r.2 else 0%Z) <$> reps)) <$> ps)
  = zsum ((fun r => tot r.2) <$> reps).
Proof.
  intros Hn. induction reps as [|r reps IH]; intros Hsub; cbn.
  - apply zsum_zero, Forall_fmap, Forall_true. done.
  - rewrite zsum_fmap_add, zsum_indicator, IH; try done; intros; apply Hsub; set_solver.
Qed.

(** The values of a join of one-peer maps add up to the totals. *)
Lemma join_counts_all_values f tot reps :
  (forall ops, (0 <= tot ops)%Z) -> NoDup reps.*1 ->
  Forall (fun r => counts_ok (f r) /\
    forall q, count_of (f r) q = if decide (q = r.1) then tot r.2 else 0%Z) reps ->
  (zsum ((fun r : PeerId * list CounterOp => tot r.2) <$> reps) < i64_limit)%Z ->
  i64_sum (bt_values (join_counts_all (f <$> reps))) = zsum ((fun r => tot r.2) <$> reps).
Proof.
  intros Ht Hn Hf Hlim. destruct (join_counts_all_sum f tot reps Ht Hn Hf) as [Hok Hc].
  set (m := join_counts_all (f <$> reps)) in *.
  assert (Hsum : zsum (bt_values m) = zsum ((fun r => tot r.2) <$> reps)).
  { unfold bt_values. rewrite (zsum_perm _ _ (fmap_Permutation snd _ _ (bt_iter_perm m))).
    set (ps := elements (dom m ∪ list_to_set reps.*1 : gset PeerId)).
    rewrite (zsum_values_cover ps).
    - rewrite <- (zsum_by_peer ps).
      + f_equal. apply list_fmap_ext. intros i q _. apply Hc.
      + apply NoDup_elements.
      + intros p Hp. apply elem_of_elements. set_solver.
    - apply NoDup_elements.
    - intros p Hp. apply elem_of_elements, elem_of_union_l, elem_of_dom, Hp. }
  unfold i64_sum. rewrite i64_sum_acc; rewrite ?Hsum; try lia.
  unfold bt_values. apply Forall_fmap, Forall_forall. intros [k v] Hin. cbn.
  apply elem_of_bt_iter in Hin. by apply (Hok k).
Qed.

(** ** Clocks advance *)
Lemma hlc_cmp_same_node ctx a b :
  node a = node b ->
  hlc_cmp ctx a b = then_cmp (phys_ms a ?= phys_ms b)%Z (log a ?= log b)%Z.
Proof.
  intros Hn. unfold hlc_cmp, Hlc_compare. rewrite Hn.
  destruct (phys_ms a ?= phys_ms b)%Z; cbn [then_cmp]; [| done | done].
  destruct (log a ?= log b)%Z; [| done | done]. rewrite (cmp_refl (c := cmp)).
  destruct (is_nan (credence_for ctx (node b))) eqn:E.
  - rewrite f_partial_cmp_nan; auto.
  - rewrite f_partial_cmp_key by done. by rewrite (cmp_refl (c := cmp)).
Qed.

(** A clock is before another as soon as its physical time, or its counter at the same time, is. *)
Lemma hlc_cmp_lt ctx a b :
  (phys_ms a < phys_ms b \/ phys_ms a = phys_ms b /\ log a < log b)%Z -> hlc_cmp ctx a b = Lt.
Proof.
  intros Hlt. unfold hlc_cmp, Hlc_compare.
  destruct (Z.compare_spec (phys_ms a) (phys_ms b)); try lia; try done.
  destruct (Z.compare_spec (log a) (log b)); try lia; done.
Qed.

Lemma u32_add_one l : (0 <= l < u32_max)%Z -> u32_add l 1 = (l + 1)%Z.
Proof. intros Hl. unfold u32_add. apply Z.mod_small. unfold u32_max in Hl. lia. Qed.

Lemma merged_after ctx self other nd now :
  is_u32 (log self) -> is_u32 (log other) -> (log self < u32_max)%Z -> (log other < u32_max)%Z ->
  hlc_cmp ctx self (Hlc_merged self other nd now) = Lt /\
  hlc_cmp ctx other (Hlc_merged self other nd now) = Lt.
Proof.
  intros Hs Ho Hsm Hom. unfold is_u32 in *. unfold Hlc_merged. cbn zeta.
  split; apply hlc_cmp_lt; cbn [phys_ms log];
    destruct (Z.eqb_spec (Z.max (Z.max (phys_ms self) (phys_ms other)) now) (phys_ms self));
    destruct (Z.eqb_spec (Z.max (Z.max (phys_ms self) (phys_ms other)) now) (phys_ms other));
    cbn [andb]; try rewrite u32_add_one by lia; lia.
Qed.

(** A clock only moves forward. Ticking puts it strictly after its old value unless its counter
    is saturated and time has not moved, and then it stays where it is; merging puts the result
    strictly after both clocks as long as neither counter is at its maximum. A clock whose counter is
    at its maximum is the exception: [merged] adds one with [+], the counter wraps to zero and the
    result is before the clock it came from. *)
Theorem hlc_advances ctx self other nd now :
  is_u32 (log self) -> is_u32 (log other) ->
  (((log self < u32_max)%Z \/ (phys_ms self < now)%Z) ->
    Hlc_compare self (Hlc_tick self now) ctx = Lt) /\
  (log self = u32_max -> (now <= phys_ms self)%Z -> Hlc_tick self now = self) /\
  ((log self < u32_max)%Z -> (log other < u32_max)%Z ->
    Hlc_compare self (Hlc_merged self other nd now) ctx = Lt /\
    Hlc_compare other (Hlc_merged self other nd now) ctx = Lt) /\
  (log self = u32_max -> (phys_ms other <= phys_ms self)%Z -> (now <= phys_ms self)%Z ->
    Hlc_merged self other nd now = mkHlc (phys_ms self) 0 nd /\
    Hlc_compare (Hlc_merged self other nd now) self ctx = Lt).
Proof.
  intros Hs Ho. split_and!.
  - intros Hlt. apply hlc_cmp_lt. unfold Hlc_tick.
    destruct (Z.ltb_spec (phys_ms self) now); cbn; [lia |].
    unfold u32_saturating_add, is_u32 in *. lia.
  - intros Hl Hn. unfold Hlc_tick. destruct (Z.ltb_spec (phys_ms self) now); [lia |].
    unfold u32_saturating_add. rewrite Hl, Z.min_r by lia. rewrite <- Hl. by destruct self.
  - by apply merged_after.
  - intros Hl Hp Hn.
    assert (Heq : Hlc_merged self other nd now = mkHlc (phys_ms self) 0 nd).
    { unfold Hlc_merged, is_u32, u32_max in *. cbn zeta.
      replace (Z.max (Z.max (phys_ms self) (phys_ms other)) now) with (phys_ms self) by lia.
      rewrite Z.eqb_refl. cbn [andb].
      destruct (phys_ms self =? phys_ms other)%Z; f_equal; unfold u32_add;
        rewrite ?Z.max_l by lia; rewrite Hl; reflexivity. }
    split; [done |]. rewrite Heq. apply hlc_cmp_lt. cbn. unfold u32_max, u32_size in *. lia.
Qed.

Lemma hlc_advances_witness :
  Hlc_compare (mkHlc 5 7 (mkPeerId [])) (Hlc_merged (mkHlc 5 7 (mkPeerId [])) (mkHlc 5 9 (mkPeerId []))
    (mkPeerId []) 4) MergeContext_default = Lt.
Proof.
  apply (hlc_advances MergeContext_default (mkHlc 5 7 (mkPeerId [])) (mkHlc 5 9 (mkPeerId []))
    (mkPeerId []) 4); vm_compute; split; congruence.
Defined.

(** ** Replicas of a set *)

(** Replicas of a set converge. Whatever the order in which replicas are merged and however
    often each is merged, the result is the same set, provided no credence is NaN; reading it lists
    its values in increasing order, and a value is in it exactly when one of its add clocks is after
    every one of its removal clocks. *)
Theorem orset_converges {T : Type} `{Countable T, !RustOrd T} ctx (l1 l2 : list (OrSet T)) :
  ctx_ok ctx -> (forall s, s ∈ l1 <-> s ∈ l2) ->
  orset_merge_all ctx l1 = orset_merge_all ctx l2 /\
  StronglySorted (fun x y => cmp x y = Lt) (OrSet_elements (orset_merge_all ctx l1) ctx) /\
  forall v, v ∈ OrSet_elements (orset_merge_all ctx l1) ctx <->
    exists a c, a ∈ l1 /\ adds a !! v = Some c /\
      forall b r, b ∈ l1 -> removals b !! v = Some r -> Hlc_compare c r ctx = Gt.
Proof.
  intros Hok Hl. pose proof (OrSet_semilattice (T := T) ctx Hok) as SL. split_and!.
  - apply (sl_fold_ext (P := fun _ => True)); [by apply Forall_true | done].
  - apply OrSet_elements_sorted.
  - intros v. apply orset_merged_elements, Hok.
Qed.

(** Two peers, a context that trusts the first more, and two replicas of a set of strings. *)
Definition peer_a : PeerId := mkPeerId [Byte.x01].
Definition peer_b : PeerId := mkPeerId [Byte.x02].
Definition ctx_ab : MergeContext :=
  with_peer (with_peer MergeContext_default peer_a (f32_lit 8 10)) peer_b (f32_lit 7 10).
Definition set_a : OrSet string := OrSet_insert OrSet_default "model/a" (Hlc_new peer_a 1000) ctx_ab.
Definition set_b : OrSet string :=
  OrSet_remove (OrSet_insert OrSet_default "model/a" (Hlc_new peer_b 900) ctx_ab)
    "model/a" (Hlc_new peer_b 1100) ctx_ab.

Lemma ctx_ab_ok : ctx_ok ctx_ab.
Proof.
  split; [done |]. unfold ctx_ab, with_peer. cbn [credence MergeContext_default MergeContext_new].
  apply map_Forall_insert_2; [by vm_compute |]. apply map_Forall_insert_2; [by vm_compute |].
  apply map_Forall_empty.
Qed.

Lemma orset_converges_witness :
  orset_merge_all ctx_ab [set_a; set_b] = orset_merge_all ctx_ab [set_b; set_a; set_b] /\
  OrSet_elements (orset_merge_all ctx_ab [set_a; set_b]) ctx_ab = [].
Proof.
  split; [| vm_compute; reflexivity].
  apply (proj1 (orset_converges ctx_ab [set_a; set_b] [set_b; set_a; set_b] ctx_ab_ok
    ltac:(set_solver))).
Defined.

(** ** Replicas of a counter *)

(** Replicas of a counter converge to the exact total. Each of any number of peers applies its
    own increments and decrements; merging the replicas in any order and any number of times gives
    one counter, whose value is the sum of the amounts added less the sum of the amounts taken, as
    long as neither sum reaches 2^63. *)
Theorem pn_counter_converges (reps : list (PeerId * list CounterOp)) (l : list PnCounter) :
  NoDup reps.*1 ->
  (zsum ((fun r => inc_total r.2) <$> reps) < i64_limit)%Z ->
  (zsum ((fun r => dec_total r.2) <$> reps) < i64_limit)%Z ->
  (forall c, c ∈ l <-> c ∈ pn_replica <$> reps) ->
  PnCounter_value (pn_merge_all l)
  = (zsum ((fun r => inc_total r.2) <$> reps) - zsum ((fun r => dec_total r.2) <$> reps))%Z.
Proof.
  intros Hn Hi Hd Hl.
  assert (Hin : forall ops, (0 <= inc_total ops)%Z) by (intros; apply zsum_abs_nonneg).
  assert (Hdn : forall ops, (0 <= dec_total ops)%Z) by (intros; apply zsum_abs_nonneg).
  assert (Hr : Forall (fun r => counter_ok (pn_replica r) /\
    (forall q, count_of (positives (pn_replica r)) q = if decide (q = r.1) then inc_total r.2 else 0%Z) /\
    (forall q, count_of (negatives (pn_replica r)) q = if decide (q = r.1) then dec_total r.2 else 0%Z)) reps).
  { apply Forall_forall. intros [p ops] Hp. apply pn_replica_counts.
    - eapply Z.le_lt_trans; [| exact Hi]. by apply (zsum_member (fun r => inc_total r.2) reps (p, ops)).
    - eapply Z.le_lt_trans; [| exact Hd]. by apply (zsum_member (fun r => dec_total r.2) reps (p, ops)). }
  assert (Hok : Forall counter_ok (pn_replica <$> reps)).
  { apply Forall_fmap. eapply Forall_impl; [exact Hr |]. by intros r [? _]. }
  assert (Heq : pn_merge_all l = pn_merge_all (pn_replica <$> reps)).
  { apply (sl_fold_ext (P := counter_ok) (SL := PnCounter_semilattice)); [| done].
    apply Forall_forall. intros c Hc. rewrite Forall_forall in Hok. by apply Hok, Hl. }
  rewrite Heq, pn_merge_all_join by done. unfold PnCounter_value. cbn [positives negatives].
  rewrite <- !list_fmap_compose.
  rewrite (join_counts_all_values _ inc_total), (join_counts_all_values _ dec_total); try done.
  - apply i64_wrap_small.
    assert (0 <= zsum ((fun r => inc_total r.2) <$> reps))%Z
      by (apply zsum_nonneg, Forall_fmap, Forall_true; intros; apply Hin).
    assert (0 <= zsum ((fun r => dec_total r.2) <$> reps))%Z
      by (apply zsum_nonneg, Forall_fmap, Forall_true; intros; apply Hdn).
    lia.
  - eapply Forall_impl; [exact Hr |]. intros r ([_ ?] & _ & ?). done.
  - eapply Forall_impl; [exact Hr |]. intros r ([? _] & ? & _). done.
Qed.

Lemma pn_counter_converges_witness :
  PnCounter_value (pn_merge_all
    (pn_replica <$> [(peer_b, [Inc 3; Dec (-1)]); (peer_a, [Inc 5]); (peer_b, [Inc 3; Dec (-1)])])) = 7%Z.
Proof.
  apply (pn_counter_converges [(peer_a, [Inc 5]); (peer_b, [Inc 3; Dec (-1)])]);
    [vm_compute; repeat constructor; set_solver | done | done |].
  cbn [fmap list_fmap]. set_solver.
Defined.
