(* ===== verification/Noetic.v ===== *)
(** * The noetic state

    [liminal-bridge-net/src/noetic/state.rs]: the replicated state of a peer, built from the sets and
    registers of [Crdt], with its credence table, summaries and snapshots. The JSON values a policy
    carries and the BLAKE3 hash function are parameters. *)

From stdpp Require Import prelude gmap strings list fin_maps.
From Stdlib Require Import ZArith Lia SpecFloat.
From S2P Require Import Prelude RustStr RustOrd Float Crdt.

(** [to_be_bytes] of a [u64] and of a [u32]. *)
Definition to_be_bytes64 (v : Z) : bytes := reverse (LittleEndianList.le_split 8 v).
Definition to_be_bytes32 (v : Z) : bytes := reverse (LittleEndianList.le_split 4 v).

(** ** Data *)
Record ResonantModelHeader : Type := mkModelHeader {
  mh_id : string;
  mh_version : Hlc;
  mh_hash : string;
  mh_source : PeerId
}.
Definition mh_fields (h : ResonantModelHeader) : string * (Hlc * (string * PeerId)) :=
  (mh_id h, (mh_version h, (mh_hash h, mh_source h))).

Global Instance ResonantModelHeader_eq_dec : EqDecision ResonantModelHeader.
Proof. solve_decision. Defined.
Global Instance ResonantModelHeader_countable : Countable ResonantModelHeader.
Proof.
  by apply (inj_countable' mh_fields (fun t => mkModelHeader t.1 t.2.1 t.2.2.1 t.2.2.2)); intros [].
Defined.
Global Instance mh_fields_inj : Inj (=) (=) mh_fields.
Proof. intros [] []. cbn. by intros [= -> -> -> ->]. Qed.
Global Instance ResonantModelHeader_ord : RustOrd ResonantModelHeader := derive_ord mh_fields.

Record ResonantModelTopK : Type := mkTopK { topk_entries : list string; topk_updated : Hlc }.

Record EpochHeader : Type := mkEpochHeader { eh_id : Z; eh_version : Hlc; eh_hash : string }.
Definition eh_fields (h : EpochHeader) : Z * (Hlc * string) := (eh_id h, (eh_version h, eh_hash h)).

Global Instance EpochHeader_eq_dec : EqDecision EpochHeader.
Proof. solve_decision. Defined.
Global Instance EpochHeader_countable : Countable EpochHeader.
Proof. by apply (inj_countable' eh_fields (fun t => mkEpochHeader t.1 t.2.1 t.2.2)); intros []. Defined.
Global Instance eh_fields_inj : Inj (=) (=) eh_fields.
Proof. intros [] []. cbn. by intros [= -> -> ->]. Qed.
Global Instance EpochHeader_ord : RustOrd EpochHeader := derive_ord eh_fields.

Record SeedHeader : Type := mkSeedHeader {
  sh_id : string;
  sh_epoch : Z;
  sh_version : Hlc;
  sh_source : PeerId
}.
Definition sh_fields (h : SeedHeader) : string * (Z * (Hlc * PeerId)) :=
  (sh_id h, (sh_epoch h, (sh_version h, sh_source h))).

Global Instance SeedHeader_eq_dec : EqDecision SeedHeader.
Proof. solve_decision. Defined.
Global Instance SeedHeader_countable : Countable SeedHeader.
Proof.
  by apply (inj_countable' sh_fields (fun t => mkSeedHeader t.1 t.2.1 t.2.2.1 t.2.2.2)); intros [].
Defined.
Global Instance sh_fields_inj : Inj (=) (=) sh_fields.
Proof. intros [] []. cbn. by intros [= -> -> -> ->]. Qed.
Global Instance SeedHeader_ord : RustOrd SeedHeader := derive_ord sh_fields.

Inductive SeedStatus : Type :=
| Pending
| Active (started_ms : Z)
| Committed (finished_ms : Z)
| Failed (error : string)
| Observed (note : string).

Definition SeedStatus_as_str (s : SeedStatus) : string :=
  match s with
  | Pending => "pending"
  | Active _ => "active"
  | Committed _ => "committed"
  | Failed _ => "failed"
  | Observed _ => "observed"
  end.

Record PolicyBundle (Json : Type) : Type := mkPolicy {
  pb_version : Hlc;
  pb_hash : string;
  pb_payload : Json
}.
Arguments mkPolicy {Json} _ _ _.
Arguments pb_version {Json} _.
Arguments pb_hash {Json} _.
Arguments pb_payload {Json} _.

Record NoeticState (Json : Type) : Type := mkNoetic {
  ns_peer : PeerId;
  ns_clock : Hlc;
  ns_models : OrSet ResonantModelHeader;
  ns_model_topk : Lww ResonantModelTopK;
  ns_epochs : OrSet EpochHeader;
  ns_seeds : OrSet SeedHeader;
  ns_seed_status : Lww SeedStatus;
  ns_policies : Lww (PolicyBundle Json);
  ns_credence : gmap PeerId f32
}.
Arguments mkNoetic {Json} _ _ _ _ _ _ _ _ _.
Arguments ns_peer {Json} _.
Arguments ns_clock {Json} _.
Arguments ns_models {Json} _.
Arguments ns_model_topk {Json} _.
Arguments ns_epochs {Json} _.
Arguments ns_seeds {Json} _.
Arguments ns_seed_status {Json} _.
Arguments ns_policies {Json} _.
Arguments ns_credence {Json} _.

Record Summary : Type := mkSummary {
  su_peer : PeerId;
  su_digest : string;
  su_model_count : Z;
  su_epoch_count : Z;
  su_seed_count : Z;
  su_topk_clock : Hlc;
  su_policy_clock : Hlc;
  su_credence_sum : f32
}.

Definition is_in_sync_with (self other : Summary) : bool :=
  bool_decide (su_digest self = su_digest other).

Record NoeticSnapshot (Json : Type) : Type := mkNoeticSnapshot {
  sn_peer : PeerId;
  sn_credence : gmap PeerId f32;
  sn_models : list ResonantModelHeader;
  sn_epochs : list EpochHeader;
  sn_seeds : list SeedHeader;
  sn_model_topk : ResonantModelTopK;
  sn_seed_status : SeedStatus;
  sn_seed_status_clock : Hlc;
  sn_policies : PolicyBundle Json
}.
Arguments mkNoeticSnapshot {Json} _ _ _ _ _ _ _ _ _.
Arguments sn_peer {Json} _.
Arguments sn_credence {Json} _.
Arguments sn_models {Json} _.
Arguments sn_epochs {Json} _.
Arguments sn_seeds {Json} _.
Arguments sn_model_topk {Json} _.
Arguments sn_seed_status {Json} _.
Arguments sn_seed_status_clock {Json} _.
Arguments sn_policies {Json} _.

(** ** Operations *)
Section noetic.
Context {Json : Type} (json_null : Json) (blake3 : bytes -> bytes).

Definition NoeticState_new (peer : PeerId) : NoeticState Json :=
  let clock := Hlc_new peer 0 in
  let topk := mkTopK [] clock in
  let seed_status := Pending in
  let default_policy := mkPolicy clock "" json_null in
  mkNoetic peer clock OrSet_default (mkLww topk clock) OrSet_default OrSet_default
    (mkLww seed_status clock) (mkLww default_policy clock) ∅.

Definition set_credence (self : NoeticState Json) (peer : PeerId) (value : f32) : NoeticState Json :=
  mkNoetic (ns_peer self) (ns_clock self) (ns_models self) (ns_model_topk self) (ns_epochs self)
    (ns_seeds self) (ns_seed_status self) (ns_policies self) (<[peer := value]> (ns_credence self)).

(** The loop of [merge_context] over another state's credences. *)
Definition raise_context (ctx : MergeContext) (peer : PeerId) (value : f32) : MergeContext :=
  let current := credence_for ctx peer in
  if f_gt value current then set_peer ctx peer value else ctx.

Definition merge_context (self : NoeticState Json) (other : option (NoeticState Json))
  : MergeContext :=
  let ctx := foldl (fun c e => set_peer c e.1 e.2) MergeContext_default (bt_iter (ns_credence self)) in
  match other with
  | Some o => foldl (fun c e => raise_context c e.1 e.2) ctx (bt_iter (ns_credence o))
  | None => ctx
  end.

(** The loop of [merge] over the other state's credences. *)
Definition raise_credence (m : gmap PeerId f32) (peer : PeerId) (value : f32) : gmap PeerId f32 :=
  let entry := default value (m !! peer) in
  <[peer := if f_gt value entry then value else entry]> m.

Definition NoeticState_merge (self other : NoeticState Json) : NoeticState Json :=
  let credence :=
    foldl (fun m e => raise_credence m e.1 e.2) (ns_credence self) (bt_iter (ns_credence other)) in
  let self := mkNoetic (ns_peer self) (ns_clock self) (ns_models self) (ns_model_topk self)
    (ns_epochs self) (ns_seeds self) (ns_seed_status self) (ns_policies self) credence in
  let ctx := merge_context self (Some other) in
  let models := OrSet_merge (ns_models self) (ns_models other) ctx in
  let epochs := OrSet_merge (ns_epochs self) (ns_epochs other) ctx in
  let seeds := OrSet_merge (ns_seeds self) (ns_seeds other) ctx in
  let model_topk := Lww_merge (ns_model_topk self) (ns_model_topk other) ctx in
  let seed_status := Lww_merge (ns_seed_status self) (ns_seed_status other) ctx in
  let policies := Lww_merge (ns_policies self) (ns_policies other) ctx in
  let now_ms := Z.max (phys_ms (ns_clock self)) (phys_ms (ns_clock other)) in
  let clock := Hlc_merged (ns_clock self) (ns_clock other) (ns_peer self) now_ms in
  mkNoetic (ns_peer self) clock models model_topk epochs seeds seed_status policies credence.

Definition apply_model_header (self : NoeticState Json) (header : ResonantModelHeader)
  : NoeticState Json :=
  let ctx := merge_context self None in
  let version := mh_version header in
  mkNoetic (ns_peer self) (ns_clock self) (OrSet_insert (ns_models self) header version ctx)
    (ns_model_topk self) (ns_epochs self) (ns_seeds self) (ns_seed_status self) (ns_policies self)
    (ns_credence self).

Definition apply_epoch (self : NoeticState Json) (epoch : EpochHeader) : NoeticState Json :=
  let ctx := merge_context self None in
  let version := eh_version epoch in
  mkNoetic (ns_peer self) (ns_clock self) (ns_models self) (ns_model_topk self)
    (OrSet_insert (ns_epochs self) epoch version ctx) (ns_seeds self) (ns_seed_status self)
    (ns_policies self) (ns_credence self).

Definition apply_seed (self : NoeticState Json) (seed : SeedHeader) : NoeticState Json :=
  let ctx := merge_context self None in
  let version := sh_version seed in
  mkNoetic (ns_peer self) (ns_clock self) (ns_models self) (ns_model_topk self) (ns_epochs self)
    (OrSet_insert (ns_seeds self) seed version ctx) (ns_seed_status self) (ns_policies self)
    (ns_credence self).

Definition update_seed_status (self : NoeticState Json) (status : SeedStatus) (hlc : Hlc)
  : NoeticState Json :=
  let ctx := merge_context self None in
  let next := mkLww status hlc in
  mkNoetic (ns_peer self) (ns_clock self) (ns_models self) (ns_model_topk self) (ns_epochs self)
    (ns_seeds self) (Lww_merge (ns_seed_status self) next ctx) (ns_policies self)
    (ns_credence self).

Definition update_model_topk (self : NoeticState Json) (entries : list string) (hlc : Hlc)
  : NoeticState Json :=
  let ctx := merge_context self None in
  let next := mkLww (mkTopK entries hlc) hlc in
  mkNoetic (ns_peer self) (ns_clock self) (ns_models self)
    (Lww_merge (ns_model_topk self) next ctx) (ns_epochs self) (ns_seeds self)
    (ns_seed_status self) (ns_policies self) (ns_credence self).

Definition update_policy (self : NoeticState Json) (policy : PolicyBundle Json) : NoeticState Json :=
  let ctx := merge_context self None in
  let version := pb_version policy in
  let next := mkLww policy version in
  mkNoetic (ns_peer self) (ns_clock self) (ns_models self) (ns_model_topk self) (ns_epochs self)
    (ns_seeds self) (ns_seed_status self) (Lww_merge (ns_policies self) next ctx)
    (ns_credence self).

(** ** Summaries

    What [summary] feeds to its hasher, in order. *)
Definition summary_input (self : NoeticState Json) : bytes :=
  let ctx := merge_context self None in
  peer_bytes (ns_peer self)
  ++ to_be_bytes64 (phys_ms (lww_clock (ns_model_topk self)))
  ++ to_be_bytes32 (log (lww_clock (ns_model_topk self)))
  ++ concat ((fun h => as_bytes (mh_id h) ++ as_bytes (mh_hash h))
             <$> OrSet_elements (ns_models self) ctx)
  ++ concat ((fun h => to_be_bytes64 (eh_id h) ++ as_bytes (eh_hash h))
             <$> OrSet_elements (ns_epochs self) ctx)
  ++ concat ((fun h => as_bytes (sh_id h) ++ to_be_bytes64 (sh_epoch h))
             <$> OrSet_elements (ns_seeds self) ctx)
  ++ as_bytes (SeedStatus_as_str (lww_value (ns_seed_status self)))
  ++ to_be_bytes64 (phys_ms (lww_clock (ns_seed_status self)))
  ++ to_be_bytes32 (log (lww_clock (ns_seed_status self)))
  ++ as_bytes (pb_hash (lww_value (ns_policies self)))
  ++ to_be_bytes64 (phys_ms (lww_clock (ns_policies self)))
  ++ to_be_bytes32 (log (lww_clock (ns_policies self))).

(** [Iterator::sum] of [f32]s, which starts at negative zero. *)
Definition f32_sum (l : list f32) : f32 := foldl f32_add (S754_zero true) l.

Definition summary (self : NoeticState Json) : Summary :=
  let ctx := merge_context self None in
  mkSummary (ns_peer self) (of_bytes (hex_bytes (blake3 (summary_input self))))
    (Z.of_nat (length (OrSet_elements (ns_models self) ctx)))
    (Z.of_nat (length (OrSet_elements (ns_epochs self) ctx)))
    (Z.of_nat (length (OrSet_elements (ns_seeds self) ctx)))
    (lww_clock (ns_model_topk self)) (lww_clock (ns_policies self))
    (f32_sum (bt_values (ns_credence self))).

(** ** Snapshots *)
Definition snapshot_of (state : NoeticState Json) : NoeticSnapshot Json :=
  let ctx := merge_context state None in
  mkNoeticSnapshot (ns_peer state) (ns_credence state)
    (OrSet_elements (ns_models state) ctx) (OrSet_elements (ns_epochs state) ctx)
    (OrSet_elements (ns_seeds state) ctx) (lww_value (ns_model_topk state))
    (lww_value (ns_seed_status state)) (lww_clock (ns_seed_status state))
    (lww_value (ns_policies state)).

Definition NoeticState_restore (snapshot : NoeticSnapshot Json) : NoeticState Json :=
  let state := NoeticState_new (sn_peer snapshot) in
  let state := mkNoetic (ns_peer state) (ns_clock state) (ns_models state) (ns_model_topk state)
    (ns_epochs state) (ns_seeds state) (ns_seed_status state) (ns_policies state)
    (sn_credence snapshot) in
  let ctx := merge_context state None in
  let models := foldl (fun s h => OrSet_insert s h (mh_version h) ctx) (ns_models state)
    (sn_models snapshot) in
  let epochs := foldl (fun s h => OrSet_insert s h (eh_version h) ctx) (ns_epochs state)
    (sn_epochs snapshot) in
  let seeds := foldl (fun s h => OrSet_insert s h (sh_version h) ctx) (ns_seeds state)
    (sn_seeds snapshot) in
  let topk_clock := topk_updated (sn_model_topk snapshot) in
  let policy_clock := pb_version (sn_policies snapshot) in
  mkNoetic (ns_peer state) (ns_clock state) models (mkLww (sn_model_topk snapshot) topk_clock)
    epochs seeds (mkLww (sn_seed_status snapshot) (sn_seed_status_clock snapshot))
    (mkLww (sn_policies snapshot) policy_clock) (ns_credence state).
End noetic.
