(* ===== verification/NoeticProps.v ===== *)
(** * Correctness of the noetic state

    The states a peer can reach satisfy an invariant (every set entry carries the version of its
    header, nothing is ever removed, a register's clock is the one its value carries); replicas
    converge however they are merged, and a snapshot restores everything but the clock. *)

From stdpp Require Import prelude gmap strings fin_maps list sorting.
From Stdlib Require Import ZArith Lia SpecFloat.
From S2P Require Import Prelude RustStr RustOrd Float Crdt CrdtProps Noetic.

(** ** The invariant *)

(** Every clock of a set is the version of its value, and nothing was removed. *)
Definition versioned {T : Type} `{Countable T} (version : T -> Hlc) (s : OrSet T) : Prop :=
  map_Forall (fun v c => c = version v) (adds s) /\ removals s = ∅.

Record noetic_wf {Json : Type} (s : NoeticState Json) : Prop := {
  wf_models : versioned mh_version (ns_models s);
  wf_epochs : versioned eh_version (ns_epochs s);
  wf_seeds : versioned sh_version (ns_seeds s);
  wf_topk : lww_clock (ns_model_topk s) = topk_updated (lww_value (ns_model_topk s));
  wf_policies : lww_clock (ns_policies s) = pb_version (lww_value (ns_policies s))
}.

(** The states reachable by the operations of [NoeticState], merges with other peers included. *)
Inductive noetic_reach {Json : Type} (json_null : Json) : NoeticState Json -> Prop :=
| nr_new peer : noetic_reach json_null (NoeticState_new json_null peer)
| nr_credence s peer c : noetic_reach json_null s -> noetic_reach json_null (set_credence s peer c)
| nr_tick s now :
    noetic_reach json_null s ->
    noetic_reach json_null
      (mkNoetic (ns_peer s) (Hlc_tick (ns_clock s) now) (ns_models s) (ns_model_topk s)
        (ns_epochs s) (ns_seeds s) (ns_seed_status s) (ns_policies s) (ns_credence s))
| nr_model s h : noetic_reach json_null s -> noetic_reach json_null (apply_model_header s h)
| nr_epoch s h : noetic_reach json_null s -> noetic_reach json_null (apply_epoch s h)
| nr_seed s h : noetic_reach json_null s -> noetic_reach json_null (apply_seed s h)
| nr_status s st c : noetic_reach json_null s -> noetic_reach json_null (update_seed_status s st c)
| nr_topk s es c : noetic_reach json_null s -> noetic_reach json_null (update_model_topk s es c)
| nr_policy s p : noetic_reach json_null s -> noetic_reach json_null (update_policy s p)
| nr_merge s o :
    noetic_reach json_null s -> noetic_reach json_null o ->
    noetic_reach json_null (NoeticState_merge s o).

Section versioned.
Context {T : Type} `{Countable T, !RustOrd T} (version : T -> Hlc).

Lemma versioned_default : versioned version OrSet_default.
Proof. split; [apply map_Forall_empty | done]. Qed.

Lemma versioned_lookup s v c : versioned version s -> adds s !! v = Some c -> c = version v.
Proof. intros [Hs _] Hv. apply (Hs v c Hv). Qed.

Lemma versioned_insert s v ctx :
  versioned version s -> versioned version (OrSet_insert s v (version v) ctx).
Proof.
  intros [Ha Hr]. split; [| done]. cbn. intros k c Hk. rewrite record_clock_lookup in Hk.
  case_decide as Heq; [| by apply (Ha k)]. subst. injection Hk as <-. unfold join_opt, cmax.
  destruct (adds s !! v) as [e|] eqn:E; [| done].
  destruct (hlc_cmp ctx e (version v)); try done; by apply (Ha v).
Qed.

(** Merging two such sets is the union of their values, whatever the credences. *)
Lemma versioned_merge a b ctx :
  versioned version a -> versioned version b ->
  OrSet_merge a b ctx = mkOrSet (adds a ∪ adds b) ∅.
Proof.
  intros [Ha Hra] [Hb Hrb]. rewrite OrSet_merge_join, Hra, Hrb. f_equal.
  apply map_eq. intros k. rewrite join_clocks_lookup, lookup_union.
  destruct (adds a !! k) as [x|] eqn:Ea, (adds b !! k) as [y|] eqn:Eb; cbn; try done.
  rewrite (Ha _ _ Ea), (Hb _ _ Eb). unfold cmax. by destruct (hlc_cmp _ _ _).
Qed.

Lemma versioned_union a b ctx :
  versioned version a -> versioned version b -> versioned version (OrSet_merge a b ctx).
Proof.
  intros Ha Hb. rewrite versioned_merge by done. split; [| done]. cbn. intros k c Hk.
  apply lookup_union_Some_raw in Hk as [Hk | [_ Hk]].
  - exact (versioned_lookup a k c Ha Hk).
  - exact (versioned_lookup b k c Hb Hk).
Qed.

(** Restoring the listed elements of such a set rebuilds it. *)
Lemma versioned_rebuild s ctx ctx' :
  versioned version s ->
  foldl (fun acc h => OrSet_insert acc h (version h) ctx') OrSet_default (OrSet_elements s ctx) = s.
Proof.
  intros Hs. assert (Hel : OrSet_elements s ctx = (bt_iter (adds s)).*1).
  { unfold OrSet_elements. f_equal. destruct Hs as [_ Hr].
    induction (bt_iter (adds s)) as [|e l IH]; cbn; [done |].
    unfold OrSet_visible at 1. rewrite Hr, lookup_empty. by rewrite IH. }
  rewrite Hel.
  assert (Hfold : forall (l : list (T * Hlc)) acc,
    Forall (fun e => e.2 = version e.1) l ->
    foldl (fun acc h => OrSet_insert acc h (version h) ctx') acc l.*1
    = foldl (fun s e => OrSet_insert s e.1 e.2 ctx') acc l).
  { induction l as [|e l IH]; intros acc Hl; cbn; [done |].
    apply Forall_cons in Hl as [He Hl]. rewrite IH by done. by rewrite He. }
  rewrite Hfold.
  - rewrite fold_insert_eq, fold_record_clock_join. cbn. destruct Hs as [_ Hr].
    destruct s as [ad re]. cbn in *. subst. f_equal. apply map_eq. intros k.
    rewrite join_clocks_lookup, lookup_empty. by destruct (ad !! k).
  - apply Forall_forall. intros [k c] Hin. apply elem_of_bt_iter in Hin. cbn.
    by apply (versioned_lookup s).
Qed.
End versioned.

(** A property of a register's value and clock survives a merge. *)
Lemma Lww_merge_either {T : Type} (P : Lww T -> Prop) a b ctx :
  P a -> P b -> P (Lww_merge a b ctx).
Proof. intros Ha Hb. unfold Lww_merge. destruct (Hlc_compare _ _ _); [done | by destruct b | done]. Qed.

Lemma noetic_reach_wf {Json : Type} (json_null : Json) s :
  noetic_reach json_null s -> noetic_wf s.
Proof.
  induction 1 as [peer | s peer c _ IH | s now _ IH | s h _ IH | s h _ IH | s h _ IH | s st c _ IH
    | s es c _ IH | s p _ IH | s o _ IH _ IHo];
    try destruct IH as [Hm He Hs Ht Hp]; try destruct IHo as [Hm' He' Hs' Ht' Hp'];
    split; cbn; try done;
    try apply versioned_default; try apply versioned_insert; try apply versioned_union; try done;
    match goal with
    | |- lww_clock (Lww_merge ?a ?b ?ctx) = topk_updated _ =>
        apply (Lww_merge_either (fun r => lww_clock r = topk_updated (lww_value r)) a b ctx)
    | |- lww_clock (Lww_merge ?a ?b ?ctx) = pb_version _ =>
        apply (Lww_merge_either (fun r => lww_clock r = pb_version (lww_value r)) a b ctx)
    end; done.
Qed.

(** ** Merging in any order

    A gossip history that merges states pairwise is a tree; its leaves are the states that took
    part. *)
Inductive mtree (Json : Type) : Type :=
| Leaf (s : NoeticState Json)
| Node (t1 t2 : mtree Json).
Arguments Leaf {Json} s.
Arguments Node {Json} t1 t2.

Fixpoint leaves {Json : Type} (t : mtree Json) : list (NoeticState Json) :=
  match t with
  | Leaf s => [s]
  | Node t1 t2 => leaves t1 ++ leaves t2
  end.

Fixpoint merge_tree {Json : Type} (t : mtree Json) : NoeticState Json :=
  match t with
  | Leaf s => s
  | Node t1 t2 => NoeticState_merge (merge_tree t1) (merge_tree t2)
  end.

Definition stamp_le (a b : Hlc) : Prop :=
  (phys_ms a < phys_ms b \/ phys_ms a = phys_ms b /\ log a <= log b)%Z.

(** [r] is one of [rs] and none of them is later. *)
Definition newest {T : Type} (r : Lww T) (rs : list (Lww T)) : Prop :=
  r ∈ rs /\ forall r', r' ∈ rs -> stamp_le (lww_clock r') (lww_clock r).

(** No two different registers carry the same physical time and counter. *)
Definition no_ties {T : Type} (rs : list (Lww T)) : Prop :=
  forall r r', r ∈ rs -> r' ∈ rs ->
    phys_ms (lww_clock r) = phys_ms (lww_clock r') -> log (lww_clock r) = log (lww_clock r') -> r = r'.

Lemma newest_unique {T : Type} (r r' : Lww T) rs rs' :
  newest r rs -> newest r' rs' -> (forall x, x ∈ rs <-> x ∈ rs') -> no_ties rs -> r = r'.
Proof.
  intros [Hr Hmax] [Hr' Hmax'] Hiff Hties. apply Hiff in Hr'.
  pose proof (Hmax _ Hr') as H1. apply Hiff in Hr. pose proof (Hmax' _ Hr) as H2. apply Hiff in Hr.
  unfold stamp_le in *. apply Hties; auto; lia.
Qed.

Lemma hlc_cmp_stamp ctx a b :
  match hlc_cmp ctx a b with
  | Lt => stamp_le a b
  | _ => stamp_le b a
  end.
Proof.
  unfold hlc_cmp, Hlc_compare, stamp_le.
  destruct (Z.compare_spec (phys_ms a) (phys_ms b)); try lia.
  destruct (Z.compare_spec (log a) (log b)); try lia.
  destruct (match f_partial_cmp _ _ with Some Eq | None => _ | Some o => o end); lia.
Qed.

Lemma newest_merge {T : Type} (a b : Lww T) rs rs' ctx :
  newest a rs -> newest b rs' -> newest (Lww_merge a b ctx) (rs ++ rs').
Proof.
  intros [Ha Hma] [Hb Hmb].
  pose proof (hlc_cmp_stamp ctx (lww_clock a) (lww_clock b)) as Hc. unfold Lww_merge.
  unfold hlc_cmp in Hc. unfold newest. setoid_rewrite elem_of_app.
  destruct (Hlc_compare (lww_clock a) (lww_clock b) ctx); cbn.
  - split; [auto |]. intros r' [Hr | Hr]; [auto |]. specialize (Hmb _ Hr). unfold stamp_le in *. lia.
  - split; [right; by destruct b |].
    intros r' [Hr | Hr]; [| auto]. specialize (Hma _ Hr). unfold stamp_le in *. lia.
  - split; [auto |]. intros r' [Hr | Hr]; [auto |]. specialize (Hmb _ Hr). unfold stamp_le in *. lia.
Qed.

Lemma newest_singleton {T : Type} (a : Lww T) : newest a [a].
Proof. split; [set_solver |]. intros r ->%list_elem_of_singleton. unfold stamp_le. lia. Qed.

Section tree.
Context {Json : Type} (json_null : Json).

Lemma merge_tree_wf t : Forall (noetic_reach json_null) (leaves t) -> noetic_wf (merge_tree t).
Proof.
  intros Hl. apply (noetic_reach_wf json_null). induction t as [s | t1 IH1 t2 IH2]; cbn in *.
  - by apply Forall_cons in Hl as [Hs _].
  - apply Forall_app in Hl as [H1 H2]. apply nr_merge; auto.
Qed.

(** A field that every merge combines with [OrSet_merge] holds the union of the leaves. *)
Lemma merge_tree_set {T : Type} `{Countable T, !RustOrd T} (version : T -> Hlc)
    (field : NoeticState Json -> OrSet T) t :
  (forall s, noetic_reach json_null s -> versioned version (field s)) ->
  (forall s o, exists ctx, field (NoeticState_merge s o) = OrSet_merge (field s) (field o) ctx) ->
  Forall (noetic_reach json_null) (leaves t) ->
  versioned version (field (merge_tree t)) /\
  forall v, is_Some (adds (field (merge_tree t)) !! v) <->
    exists s, s ∈ leaves t /\ is_Some (adds (field s) !! v).
Proof.
  intros Hv Hm. induction t as [s | t1 IH1 t2 IH2]; cbn; intros Hl.
  - apply Forall_cons in Hl as [Hs _]. split; [auto |]. set_solver.
  - apply Forall_app in Hl as [H1 H2]. destruct (IH1 H1) as [V1 E1], (IH2 H2) as [V2 E2].
    destruct (Hm (merge_tree t1) (merge_tree t2)) as [ctx ->].
    split; [by apply versioned_union |]. intros v.
    rewrite (versioned_merge version) by done. cbn.
    rewrite <- elem_of_dom, dom_union_L, elem_of_union, !elem_of_dom, E1, E2.
    setoid_rewrite elem_of_app. naive_solver.
Qed.

Lemma merge_tree_set_eq {T : Type} `{Countable T, !RustOrd T} (version : T -> Hlc)
    (field : NoeticState Json -> OrSet T) t1 t2 :
  (forall s, noetic_reach json_null s -> versioned version (field s)) ->
  (forall s o, exists ctx, field (NoeticState_merge s o) = OrSet_merge (field s) (field o) ctx) ->
  Forall (noetic_reach json_null) (leaves t1) -> Forall (noetic_reach json_null) (leaves t2) ->
  (forall s, s ∈ leaves t1 <-> s ∈ leaves t2) ->
  field (merge_tree t1) = field (merge_tree t2).
Proof.
  intros Hv Hm F1 F2 Hl.
  destruct (merge_tree_set version field t1 Hv Hm F1) as [[A1 R1] E1].
  destruct (merge_tree_set version field t2 Hv Hm F2) as [[A2 R2] E2].
  destruct (field (merge_tree t1)) as [a1 r1], (field (merge_tree t2)) as [a2 r2].
  cbn in *. subst. f_equal. apply map_eq. intros v.
  assert (Hiff : is_Some (a1 !! v) <-> is_Some (a2 !! v)).
  { rewrite E1, E2. setoid_rewrite Hl. done. }
  destruct (a1 !! v) as [c1|] eqn:L1, (a2 !! v) as [c2|] eqn:L2; try done.
  - by rewrite (A1 _ _ L1), (A2 _ _ L2).
  - destruct Hiff as [Hi _]. destruct Hi; [by eexists | done].
  - destruct Hiff as [_ Hi]. destruct Hi; [by eexists | done].
Qed.

(** A field that every merge combines with [Lww_merge] holds the newest of the leaves. *)
Lemma merge_tree_register {T : Type} (field : NoeticState Json -> Lww T) t :
  (forall s o, exists ctx, field (NoeticState_merge s o) = Lww_merge (field s) (field o) ctx) ->
  newest (field (merge_tree t)) (field <$> leaves t).
Proof.
  intros Hm. induction t as [s | t1 IH1 t2 IH2]; cbn; [apply newest_singleton |].
  destruct (Hm (merge_tree t1) (merge_tree t2)) as [ctx ->]. rewrite fmap_app.
  by apply newest_merge.
Qed.

Lemma merge_tree_register_eq {T : Type} (field : NoeticState Json -> Lww T) t1 t2 :
  (forall s o, exists ctx, field (NoeticState_merge s o) = Lww_merge (field s) (field o) ctx) ->
  (forall s, s ∈ leaves t1 <-> s ∈ leaves t2) -> no_ties (field <$> leaves t1) ->
  field (merge_tree t1) = field (merge_tree t2).
Proof.
  intros Hm Hl Hn. eapply newest_unique; [by apply merge_tree_register.. | | done].
  intros r. rewrite !list_elem_of_fmap. by setoid_rewrite Hl.
Qed.
End tree.

(** C13: replicas converge. Take any two gossip histories over the same reachable states, of any
    shape and with any repetitions. Both end with the same models, epochs and seeds, whatever
    credences the states carry; each register ends with one of the newest values among the states,
    and where no two different values carry the same time and counter both histories end with the
    same register. *)
Theorem noetic_converges {Json : Type} (json_null : Json) (t1 t2 : mtree Json) :
  Forall (noetic_reach json_null) (leaves t1) -> (forall s, s ∈ leaves t1 <-> s ∈ leaves t2) ->
  ns_models (merge_tree t1) = ns_models (merge_tree t2) /\
  ns_epochs (merge_tree t1) = ns_epochs (merge_tree t2) /\
  ns_seeds (merge_tree t1) = ns_seeds (merge_tree t2) /\
  newest (ns_model_topk (merge_tree t1)) (ns_model_topk <$> leaves t1) /\
  newest (ns_seed_status (merge_tree t1)) (ns_seed_status <$> leaves t1) /\
  newest (ns_policies (merge_tree t1)) (ns_policies <$> leaves t1) /\
  (no_ties (ns_model_topk <$> leaves t1) ->
    ns_model_topk (merge_tree t1) = ns_model_topk (merge_tree t2)) /\
  (no_ties (ns_seed_status <$> leaves t1) ->
    ns_seed_status (merge_tree t1) = ns_seed_status (merge_tree t2)) /\
  (no_ties (ns_policies <$> leaves t1) ->
    ns_policies (merge_tree t1) = ns_policies (merge_tree t2)).
Proof.
  intros F1 Hl.
  assert (F2 : Forall (noetic_reach json_null) (leaves t2)).
  { rewrite Forall_forall in F1 |- *. intros s Hs. by apply F1, Hl. }
  split_and!.
  - apply (merge_tree_set_eq json_null mh_version ns_models); try done;
      [intros s Hs; by apply (noetic_reach_wf json_null) | intros; by eexists].
  - apply (merge_tree_set_eq json_null eh_version ns_epochs); try done;
      [intros s Hs; by apply (noetic_reach_wf json_null) | intros; by eexists].
  - apply (merge_tree_set_eq json_null sh_version ns_seeds); try done;
      [intros s Hs; by apply (noetic_reach_wf json_null) | intros; by eexists].
  - apply merge_tree_register. intros. by eexists.
  - apply merge_tree_register. intros. by eexists.
  - apply merge_tree_register. intros. by eexists.
  - apply merge_tree_register_eq; [intros; by eexists | done].
  - apply merge_tree_register_eq; [intros; by eexists | done].
  - apply merge_tree_register_eq; [intros; by eexists | done].
Qed.

(** Three replicas: two peers wrote a seed status at the same time, and a third knows a credence the
    other two do not. *)
Definition state_a : NoeticState unit :=
  set_credence (update_seed_status (NoeticState_new tt peer_a) (Active 5) (Hlc_new peer_a 10))
    peer_a (f32_lit 6 10).
Definition state_b : NoeticState unit :=
  set_credence (update_seed_status (NoeticState_new tt peer_b) (Failed "timeout") (Hlc_new peer_b 10))
    peer_b (f32_lit 7 10).
Definition state_c : NoeticState unit :=
  set_credence (NoeticState_new tt peer_a) peer_a (f32_lit 9 10).

Lemma states_reach : Forall (noetic_reach tt) [state_a; state_b; state_c].
Proof. repeat constructor. Qed.

Lemma noetic_converges_witness :
  ns_models (merge_tree (Node (Leaf state_a) (Leaf state_b)))
  = ns_models (merge_tree (Node (Leaf state_b) (Node (Leaf state_a) (Leaf state_b)))).
Proof.
  apply (noetic_converges tt (Node (Leaf state_a) (Leaf state_b))
    (Node (Leaf state_b) (Node (Leaf state_a) (Leaf state_b)))).
  - repeat constructor.
  - cbn. set_solver.
Defined.

(** The registers do depend on the order of the merges when clocks tie: the credence that decides
    the tie is the one known at the time of the merge, and the losing value is gone when a higher
    credence arrives later. *)
Example noetic_ties_order_dependent :
  lww_value (ns_seed_status
    (merge_tree (Node (Node (Leaf state_a) (Leaf state_b)) (Leaf state_c)))) = Failed "timeout" /\
  lww_value (ns_seed_status
    (merge_tree (Node (Node (Leaf state_a) (Leaf state_c)) (Leaf state_b)))) = Active 5.
Proof. vm_compute. done. Qed.

(** ** Snapshots *)

(** A snapshot restores the state. From every reachable state, restoring its snapshot gives
    back the same peer, credences, sets and registers, clocks of the registers included; only the
    peer's own clock is not in the snapshot and starts again at time zero. *)
Theorem noetic_snapshot_restores {Json : Type} (json_null : Json) (s : NoeticState Json) :
  noetic_reach json_null s ->
  NoeticState_restore json_null (snapshot_of s)
  = mkNoetic (ns_peer s) (Hlc_new (ns_peer s) 0) (ns_models s) (ns_model_topk s) (ns_epochs s)
      (ns_seeds s) (ns_seed_status s) (ns_policies s) (ns_credence s).
Proof.
  intros Hs. apply noetic_reach_wf in Hs as [Hm He Hsd Ht Hp].
  unfold NoeticState_restore, snapshot_of. cbn.
  rewrite (versioned_rebuild mh_version _ _ _ Hm), (versioned_rebuild eh_version _ _ _ He),
    (versioned_rebuild sh_version _ _ _ Hsd).
  rewrite <- Ht, <- Hp. f_equal.
  - by destruct (ns_model_topk s).
  - by destruct (ns_seed_status s).
  - by destruct (ns_policies s).
Qed.

Lemma noetic_snapshot_restores_witness :
  NoeticState_restore tt (snapshot_of state_a)
  = mkNoetic peer_a (Hlc_new peer_a 0) (ns_models state_a) (ns_model_topk state_a)
      (ns_epochs state_a) (ns_seeds state_a) (ns_seed_status state_a) (ns_policies state_a)
      (ns_credence state_a).
Proof. apply (noetic_snapshot_restores tt state_a). repeat constructor. Defined.

(** ** Summaries

    The digest of a summary starts with the peer that made it, so the summaries of two different
    peers agree only if the hash function collides, even when their states hold the same data. *)
Lemma summary_sync_collision {Json : Type} (blake3 : bytes -> bytes) (a b : NoeticState Json) :
  ns_peer a <> ns_peer b ->
  length (peer_bytes (ns_peer a)) = length (peer_bytes (ns_peer b)) ->
  is_in_sync_with (summary blake3 a) (summary blake3 b) = true ->
  exists x y, x <> y /\ blake3 x = blake3 y.
Proof.
  intros Hne Hlen Hsync. unfold is_in_sync_with in Hsync. cbn in Hsync.
  apply bool_decide_eq_true, of_bytes_inj, hex_bytes_inj in Hsync.
  exists (summary_input a), (summary_input b). split; [| done].
  unfold summary_input. intros Heq. apply Hne, peer_bytes_inj.
  apply (f_equal (take (length (peer_bytes (ns_peer a))))) in Heq.
  rewrite take_app_length in Heq. rewrite Hlen, take_app_length in Heq. done.
Qed.
