(* ===== verification/Consensus.v ===== *)
(** * The resonant consensus engine

    [liminal-bridge-net/src/noetic/consensus.rs]: proposals, votes weighted by credence, commits and
    snapshots. The identifier [Uuid::new_v4] draws for a proposal is an argument of the operations
    that propose. *)

From stdpp Require Import prelude gmap strings list fin_maps.
From Stdlib Require Import ZArith Lia SpecFloat.
From S2P Require Import Prelude RustStr RustOrd Float Crdt Noetic.

(** ** Data *)
Record ProposalId : Type := mkProposalId { uuid_bytes : bytes }.

Global Instance ProposalId_eq_dec : EqDecision ProposalId.
Proof. solve_decision. Defined.
Global Instance ProposalId_countable : Countable ProposalId.
Proof. by apply (inj_countable' uuid_bytes mkProposalId); intros []. Defined.
Global Instance uuid_bytes_inj : Inj (=) (=) uuid_bytes.
Proof. intros [] []. cbn. by intros ->. Qed.
Global Instance ProposalId_ord : RustOrd ProposalId := derive_ord uuid_bytes.

Inductive ProposalObject (Json : Type) : Type :=
| ObjModel (header : ResonantModelHeader) (topk : ResonantModelTopK)
| ObjSeed (header : SeedHeader) (status : SeedStatus)
| ObjPolicy (bundle : PolicyBundle Json).
Arguments ObjModel {Json} header topk.
Arguments ObjSeed {Json} header status.
Arguments ObjPolicy {Json} bundle.

Inductive ProposalKind : Type := KindModel | KindSeed | KindPolicy.
Inductive Phase : Type := PhasePropose | PhaseVote | PhaseCommit.
Inductive VoteDecision : Type := Approve | Reject.

Global Instance VoteDecision_eq_dec : EqDecision VoteDecision.
Proof. solve_decision. Defined.
Global Instance Phase_eq_dec : EqDecision Phase.
Proof. solve_decision. Defined.

Definition object_kind {Json : Type} (o : ProposalObject Json) : ProposalKind :=
  match o with
  | ObjModel _ _ => KindModel
  | ObjSeed _ _ => KindSeed
  | ObjPolicy _ => KindPolicy
  end.

Record VoteRecord : Type := mkVote {
  vr_peer : PeerId;
  vr_decision : VoteDecision;
  vr_credence : f32;
  vr_clock : Hlc
}.

Record Proposal (Json : Type) : Type := mkProposal {
  p_id : ProposalId;
  p_proposer : PeerId;
  p_object : ProposalObject Json;
  p_clock : Hlc;
  p_votes : list VoteRecord;
  p_committed : bool;
  p_credence_sum : f32
}.
Arguments mkProposal {Json} _ _ _ _ _ _ _.
Arguments p_id {Json} _.
Arguments p_proposer {Json} _.
Arguments p_object {Json} _.
Arguments p_clock {Json} _.
Arguments p_votes {Json} _.
Arguments p_committed {Json} _.
Arguments p_credence_sum {Json} _.

Record ConsensusEngine (Json : Type) : Type := mkEngine {
  e_quorum : f32;
  e_proposals : gmap ProposalId (Proposal Json)
}.
Arguments mkEngine {Json} _ _.
Arguments e_quorum {Json} _.
Arguments e_proposals {Json} _.

Record EventMeta : Type := mkMeta {
  em_phase : Phase;
  em_obj : ProposalKind;
  em_id : ProposalId;
  em_credence_sum : f32;
  em_quorum : f32
}.

Record NoeticEvent : Type := mkNoeticEvent { ev : string; ev_meta : EventMeta }.

Record ConsensusSnapshot (Json : Type) : Type := mkConsensusSnapshot {
  cs_quorum : f32;
  cs_proposals : list (Proposal Json)
}.
Arguments mkConsensusSnapshot {Json} _ _.
Arguments cs_quorum {Json} _.
Arguments cs_proposals {Json} _.

(** Later in physical time, then in the counter, then in the node. *)
Definition is_newer (a b : Hlc) : bool :=
  if (phys_ms b <? phys_ms a)%Z then true
  else if (phys_ms a <? phys_ms b)%Z then false
  else if (log b <? log a)%Z then true
  else if (log a <? log b)%Z then false
  else match cmp (node a) (node b) with
       | Gt => true
       | _ => false
       end.

(** ** Operations *)
Section consensus.
Context {Json : Type}.

Definition ConsensusEngine_new (quorum : f32) : ConsensusEngine Json := mkEngine quorum ∅.

Definition set_quorum (self : ConsensusEngine Json) (quorum : f32) : ConsensusEngine Json :=
  mkEngine (f_max quorum f_zero) (e_proposals self).

Definition event_for (quorum : f32) (proposal : Proposal Json) (phase : Phase) : NoeticEvent :=
  mkNoeticEvent "noetic"
    (mkMeta phase (object_kind (p_object proposal)) (p_id proposal) (p_credence_sum proposal) quorum).

(** What [propose_model], [propose_seed] and [propose_policy] do with their object. *)
Definition propose (self : ConsensusEngine Json) (id : ProposalId) (proposer : PeerId)
    (object : ProposalObject Json) (clock : Hlc) : ConsensusEngine Json * NoeticEvent :=
  let proposal := mkProposal id proposer object clock [] false f_zero in
  let event := event_for (e_quorum self) proposal PhasePropose in
  (mkEngine (e_quorum self) (<[id := proposal]> (e_proposals self)), event).

Definition propose_model (self : ConsensusEngine Json) (id : ProposalId) (proposer : PeerId)
    (header : ResonantModelHeader) (topk : ResonantModelTopK) (clock : Hlc)
  : ConsensusEngine Json * NoeticEvent :=
  propose self id proposer (ObjModel header topk) clock.

Definition propose_seed (self : ConsensusEngine Json) (id : ProposalId) (proposer : PeerId)
    (header : SeedHeader) (status : SeedStatus) (clock : Hlc)
  : ConsensusEngine Json * NoeticEvent :=
  propose self id proposer (ObjSeed header status) clock.

Definition propose_policy (self : ConsensusEngine Json) (id : ProposalId) (proposer : PeerId)
    (bundle : PolicyBundle Json) (clock : Hlc) : ConsensusEngine Json * NoeticEvent :=
  propose self id proposer (ObjPolicy bundle) clock.

(** The first half of [vote]: the records and the tally after the vote, or [None] when the vote is
    not newer than the one on record. *)
Fixpoint update_record (votes : list VoteRecord) (sum : f32) (peer : PeerId)
    (decision : VoteDecision) (cred : f32) (clock : Hlc)
  : option (option (list VoteRecord * f32)) :=
  match votes with
  | [] => None
  | r :: rest =>
      if decide (vr_peer r = peer) then
        Some (if is_newer clock (vr_clock r) then
                let sum1 :=
                  if decide (vr_decision r = Approve) then f32_sub sum (vr_credence r) else sum in
                let sum2 := if decide (decision = Approve) then f32_add sum1 cred else sum1 in
                Some (mkVote (vr_peer r) decision cred clock :: rest, sum2)
              else None)
      else
        match update_record rest sum peer decision cred clock with
        | Some (Some (rest', sum')) => Some (Some (r :: rest', sum'))
        | other => other
        end
  end.

Definition record_vote (votes : list VoteRecord) (sum : f32) (peer : PeerId)
    (decision : VoteDecision) (cred : f32) (clock : Hlc) : option (list VoteRecord * f32) :=
  match update_record votes sum peer decision cred clock with
  | Some updated => updated
  | None =>
      Some (votes ++ [mkVote peer decision cred clock],
            if decide (decision = Approve) then f32_add sum cred else sum)
  end.

Definition vote (self : ConsensusEngine Json) (proposal_id : ProposalId) (peer : PeerId)
    (decision : VoteDecision) (cred : f32) (clock : Hlc)
  : ConsensusEngine Json * option NoeticEvent :=
  match e_proposals self !! proposal_id with
  | None => (self, None)
  | Some pr =>
      match record_vote (p_votes pr) (p_credence_sum pr) peer decision cred clock with
      | None => (self, None)
      | Some (votes, sum) =>
          let commits := negb (p_committed pr) && f_ge sum (e_quorum self)
            && forallb (fun v => bool_decide (vr_decision v = Approve)) votes in
          let pr' := mkProposal (p_id pr) (p_proposer pr) (p_object pr) (p_clock pr) votes
            (if commits then true else p_committed pr) sum in
          (mkEngine (e_quorum self) (<[proposal_id := pr']> (e_proposals self)),
           Some (event_for (e_quorum self) pr' (if commits then PhaseCommit else PhaseVote)))
      end
  end.

Definition commit (self : ConsensusEngine Json) (proposal_id : ProposalId)
  : ConsensusEngine Json * option NoeticEvent :=
  match e_proposals self !! proposal_id with
  | None => (self, None)
  | Some pr =>
      if p_committed pr then (self, None)
      else
        let pr' := mkProposal (p_id pr) (p_proposer pr) (p_object pr) (p_clock pr) (p_votes pr)
          true (p_credence_sum pr) in
        (mkEngine (e_quorum self) (<[proposal_id := pr']> (e_proposals self)),
         Some (event_for (e_quorum self) pr' PhaseCommit))
  end.

Definition consensus_snapshot (self : ConsensusEngine Json) : ConsensusSnapshot Json :=
  mkConsensusSnapshot (e_quorum self) (bt_values (e_proposals self)).

Definition consensus_restore (snapshot : ConsensusSnapshot Json) : ConsensusEngine Json :=
  let proposals := foldl (fun m p => <[p_id p := p]> m) ∅ (cs_proposals snapshot) in
  mkEngine (cs_quorum snapshot) proposals.
End consensus.
