(* ===== verification/ConsensusProps.v ===== *)
(** * Correctness of the consensus engine

    Runs of the engine, restarts from a snapshot included: the record of a peer is its newest vote,
    a vote commits exactly when the soft quorum is reached without a rejection, and a proposal is
    committed at most once. *)

From stdpp Require Import prelude gmap strings list fin_maps.
From Stdlib Require Import ZArith Lia SpecFloat.
From S2P Require Import Prelude RustStr RustOrd Float Crdt CrdtProps Noetic Consensus.

(** ** Clocks of votes *)
Lemma is_newer_cmp a b : is_newer a b = bool_decide (cmp a b = Gt).
Proof.
  change (cmp a b) with (then_cmp (phys_ms a ?= phys_ms b)%Z (then_cmp (log a ?= log b)%Z
    (cmp (node a) (node b)))). unfold is_newer.
  destruct (Z.compare_spec (phys_ms a) (phys_ms b)) as [Hp | Hp | Hp]; cbn [then_cmp].
  - rewrite Hp, !Z.ltb_irrefl. destruct (Z.compare_spec (log a) (log b)) as [Hl | Hl | Hl]; cbn [then_cmp].
    + rewrite Hl, !Z.ltb_irrefl. by destruct (cmp (node a) (node b)).
    + destruct (Z.ltb_spec (log b) (log a)); [lia |]. by destruct (Z.ltb_spec (log a) (log b)); [| lia].
    + by destruct (Z.ltb_spec (log b) (log a)); [| lia].
  - destruct (Z.ltb_spec (phys_ms b) (phys_ms a)); [lia |].
    by destruct (Z.ltb_spec (phys_ms a) (phys_ms b)); [| lia].
  - by destruct (Z.ltb_spec (phys_ms b) (phys_ms a)); [| lia].
Qed.

Lemma is_newer_irrefl a : is_newer a a = false.
Proof. rewrite is_newer_cmp, (cmp_refl (c := cmp)). done. Qed.

(** What is not newer than an old record is not newer than its replacement. *)
Lemma is_newer_replace a b c : is_newer a b = false -> is_newer c b = true -> is_newer a c = false.
Proof.
  rewrite !is_newer_cmp. intros Ha%bool_decide_eq_false Hc%bool_decide_eq_true.
  apply bool_decide_eq_false. apply (cmp_trans_le (c := cmp) a b c); [done |].
  apply cmp_gt_lt in Hc. by rewrite Hc.
Qed.

(** ** The records of a proposal *)
Lemma update_record_spec votes sum peer d cr clk :
  match update_record votes sum peer d cr clk with
  | None => peer ∉ vr_peer <$> votes
  | Some None =>
      exists r, r ∈ votes /\ vr_peer r = peer /\ is_newer clk (vr_clock r) = false
  | Some (Some (votes', _)) =>
      exists l1 r l2, votes = l1 ++ r :: l2 /\ vr_peer r = peer /\
        is_newer clk (vr_clock r) = true /\ votes' = l1 ++ mkVote peer d cr clk :: l2
  end.
Proof.
  induction votes as [|r votes IH]; cbn [update_record].
  - cbn. set_solver.
  - destruct (decide (vr_peer r = peer)) as [Hp | Hp].
    + destruct (is_newer clk (vr_clock r)) eqn:E.
      * exists [], r, votes. rewrite Hp. done.
      * exists r. split; [left | done].
    + destruct (update_record votes sum peer d cr clk) as [[[votes' s']|]|].
      * destruct IH as (l1 & r0 & l2 & -> & Hr0 & Hnew & ->).
        exists (r :: l1), r0, l2. done.
      * destruct IH as (r0 & Hin & Hr0). exists r0. split; [by right | done].
      * cbn. rewrite not_elem_of_cons. split; [congruence | done].
Qed.

(** [votes] holds, for every peer that cast a vote, one record, and it is the newest of its votes. *)
Record tally (votes cast : list VoteRecord) : Prop := {
  tally_one : NoDup (vr_peer <$> votes);
  tally_cast : forall r, r ∈ votes -> r ∈ cast;
  tally_newest : forall c, c ∈ cast ->
    exists r, r ∈ votes /\ vr_peer r = vr_peer c /\ is_newer (vr_clock c) (vr_clock r) = false
}.

Lemma tally_nil : tally [] [].
Proof. split; [constructor | done | set_solver]. Qed.

Lemma tally_step votes cast sum peer d cr clk :
  tally votes cast ->
  tally match record_vote votes sum peer d cr clk with
        | Some (votes', _) => votes'
        | None => votes
        end (cast ++ [mkVote peer d cr clk]).
Proof.
  intros [Hone Hcast Hnew]. unfold record_vote.
  pose proof (update_record_spec votes sum peer d cr clk) as Hspec.
  destruct (update_record votes sum peer d cr clk) as [[[votes' s']|]|].
  - destruct Hspec as (l1 & r & l2 & -> & Hr & Hn & ->). split.
    + rewrite fmap_app in Hone |- *. cbn in *. by rewrite <- Hr.
    + intros x. rewrite !elem_of_app, elem_of_cons. intros [Hx | [-> | Hx]]; [left | right; left | left];
        apply Hcast; set_solver.
    + intros c. rewrite elem_of_app, list_elem_of_singleton.
      intros [Hc | ->].
      * destruct (Hnew c Hc) as (r' & Hin & Hp & Hno).
        rewrite elem_of_app, elem_of_cons in Hin. destruct Hin as [Hin | [-> | Hin]].
        -- exists r'. set_solver.
        -- exists (mkVote peer d cr clk). split; [set_solver |]. cbn. split; [congruence |].
           by apply (is_newer_replace _ (vr_clock r)).
        -- exists r'. set_solver.
      * exists (mkVote peer d cr clk). split; [set_solver |]. cbn. by rewrite is_newer_irrefl.
  - destruct Hspec as (r & Hin & Hr & Hn). split; [done | set_solver |].
    intros c. rewrite elem_of_app, list_elem_of_singleton. intros [Hc | ->]; [auto |]. by exists r.
  - split.
    + rewrite fmap_app. apply NoDup_app. cbn. split_and!; [done | set_solver | by apply NoDup_singleton].
    + set_solver.
    + intros c. rewrite elem_of_app, list_elem_of_singleton. intros [Hc | ->].
      * destruct (Hnew c Hc) as (r & Hin & ?). exists r. set_solver.
      * exists (mkVote peer d cr clk). split; [set_solver |]. cbn. by rewrite is_newer_irrefl.
Qed.

(** ** Runs *)
Inductive Op (Json : Type) : Type :=
| OpPropose (id : ProposalId) (proposer : PeerId) (object : ProposalObject Json) (clock : Hlc)
| OpVote (id : ProposalId) (v : VoteRecord)
| OpCommit (id : ProposalId)
| OpQuorum (q : f32)
| OpReload.
Arguments OpPropose {Json} id proposer object clock.
Arguments OpVote {Json} id v.
Arguments OpCommit {Json} id.
Arguments OpQuorum {Json} q.
Arguments OpReload {Json}.

Section runs.
Context {Json : Type}.
Implicit Types (e : ConsensusEngine Json) (op : Op Json) (ops : list (Op Json)).

(** One call of the engine; [OpReload] saves a snapshot and starts again from it. *)
Definition engine_step e op : ConsensusEngine Json * option NoeticEvent :=
  match op with
  | OpPropose id proposer object clock =>
      let '(e', event) := propose e id proposer object clock in (e', Some event)
  | OpVote id v => vote e id (vr_peer v) (vr_decision v) (vr_credence v) (vr_clock v)
  | OpCommit id => commit e id
  | OpQuorum q => (set_quorum e q, None)
  | OpReload => (consensus_restore (consensus_snapshot e), None)
  end.

Fixpoint engine_run e ops : ConsensusEngine Json * list NoeticEvent :=
  match ops with
  | [] => (e, [])
  | op :: rest =>
      let '(e1, event) := engine_step e op in
      let '(e2, events) := engine_run e1 rest in
      (e2, option_list event ++ events)
  end.

(** A new proposal gets an identifier that is not in use. *)
Fixpoint fresh_ids e ops : Prop :=
  match ops with
  | [] => True
  | op :: rest =>
      match op with
      | OpPropose id _ _ _ => e_proposals e !! id = None
      | _ => True
      end /\ fresh_ids (engine_step e op).1 rest
  end.

(** The votes cast on a proposal. *)
Definition cast_on (id : ProposalId) ops : list VoteRecord :=
  omap (fun op => match op with
                  | OpVote i v => if decide (i = id) then Some v else None
                  | _ => None
                  end) ops.

Definition keyed e : Prop := map_Forall (fun id p => p_id p = id) (e_proposals e).

Lemma consensus_reload e : keyed e -> consensus_restore (consensus_snapshot e) = e.
Proof.
  intros Hk. unfold consensus_restore, consensus_snapshot, bt_values. cbn. destruct e as [q ps].
  cbn in *. f_equal.
  assert (Hfold : forall (l : list (ProposalId * Proposal Json))
      (m : gmap ProposalId (Proposal Json)),
    Forall (fun x => p_id x.2 = x.1) l ->
    foldl (fun m p => <[p_id p := p]> m) m l.*2 = foldl (fun m x => <[x.1 := x.2]> m) m l).
  { induction l as [|x l IH]; intros m Hl; cbn; [done |].
    apply Forall_cons in Hl as [Hx Hl]. by rewrite IH, Hx. }
  rewrite Hfold.
  - apply map_eq. intros k.
    rewrite (foldl_bt_iter_lookup (fun m k v => <[k := v]> m) (fun _ v => v)).
    + rewrite lookup_empty. by destruct (ps !! k).
    + intros m k0 v k'. case_decide; subst; [by rewrite lookup_insert_eq | by rewrite lookup_insert_ne].
  - apply Forall_forall. intros [k p] Hin. apply elem_of_bt_iter in Hin. by apply (Hk k p).
Qed.

Lemma keyed_step e op : keyed e -> keyed (engine_step e op).1.
Proof.
  intros Hk. destruct op as [id pr o c | id v | id | q |]; cbn.
  - by apply map_Forall_insert_2.
  - unfold vote. destruct (e_proposals e !! id) as [p|] eqn:E; [| done].
    destruct (record_vote _ _ _ _ _ _) as [[vs s]|]; [| done].
    apply map_Forall_insert_2; [exact (Hk id p E) | done].
  - unfold commit. destruct (e_proposals e !! id) as [p|] eqn:E; [| done].
    destruct (p_committed p); [done |]. apply map_Forall_insert_2; [exact (Hk id p E) | done].
  - done.
  - by rewrite consensus_reload.
Qed.

(** ** What one step does to a proposal *)

(** The proposals of an engine after a step, seen at one identifier. *)
Lemma step_lookup e op id :
  keyed e ->
  e_proposals (engine_step e op).1 !! id =
  match op with
  | OpPropose i proposer object clock =>
      if decide (i = id) then Some (mkProposal id proposer object clock [] false f_zero)
      else e_proposals e !! id
  | OpVote i v =>
      if decide (i = id) then e_proposals (vote e id (vr_peer v) (vr_decision v) (vr_credence v) (vr_clock v)).1 !! id
      else e_proposals e !! id
  | OpCommit i =>
      if decide (i = id) then e_proposals (commit e id).1 !! id else e_proposals e !! id
  | _ => e_proposals e !! id
  end.
Proof.
  intros Hk.
  destruct op as [i pr o c | i v | i | q |]; cbn -[consensus_restore consensus_snapshot].
  - case_decide; subst; [by rewrite lookup_insert_eq | by rewrite lookup_insert_ne].
  - case_decide as Hi; [by subst |]. unfold vote. destruct (e_proposals e !! i); [| done].
    destruct (record_vote _ _ _ _ _ _) as [[vs s]|]; [| done]. cbn. by rewrite lookup_insert_ne.
  - case_decide as Hi; [by subst |]. unfold commit. destruct (e_proposals e !! i) as [p|]; [| done].
    destruct (p_committed p); [done |]. cbn. by rewrite lookup_insert_ne.
  - done.
  - by rewrite consensus_reload.
Qed.

Lemma vote_lookup e id v p :
  e_proposals e !! id = Some p ->
  exists p', e_proposals (vote e id (vr_peer v) (vr_decision v) (vr_credence v) (vr_clock v)).1 !! id = Some p' /\
    p_votes p' = match record_vote (p_votes p) (p_credence_sum p) (vr_peer v) (vr_decision v)
                         (vr_credence v) (vr_clock v) with
                 | Some (votes, _) => votes
                 | None => p_votes p
                 end.
Proof.
  intros Hp. unfold vote. rewrite Hp.
  destruct (record_vote _ _ _ _ _ _) as [[vs s]|]; cbn; [rewrite lookup_insert_eq | rewrite Hp];
    eexists; (split; [done |]); done.
Qed.

Lemma commit_lookup e id p :
  e_proposals e !! id = Some p ->
  exists p', e_proposals (commit e id).1 !! id = Some p' /\ p_votes p' = p_votes p /\
    p_committed p' = true.
Proof.
  intros Hp. unfold commit. rewrite Hp. destruct (p_committed p) eqn:E; cbn.
  - rewrite Hp. by exists p.
  - rewrite lookup_insert_eq. by eexists.
Qed.

Lemma fresh_not_again e op ops id p :
  fresh_ids e (op :: ops) -> e_proposals e !! id = Some p ->
  match op with OpPropose i _ _ _ => i <> id | _ => True end.
Proof. intros [Hf _] Hp. destruct op; try done. intros ->. congruence. Qed.

Lemma run_tally e ops id p cast :
  keyed e -> fresh_ids e ops -> e_proposals e !! id = Some p -> tally (p_votes p) cast ->
  exists p', e_proposals (engine_run e ops).1 !! id = Some p' /\
    tally (p_votes p') (cast ++ cast_on id ops).
Proof.
  revert e p cast. induction ops as [|op ops IH]; intros e p cast Hk Hf Hp Ht; cbn [engine_run].
  - exists p. cbn. rewrite app_nil_r. done.
  - pose proof (fresh_not_again _ _ _ _ _ Hf Hp) as Hnew. destruct Hf as [_ Hf].
    pose proof (step_lookup e op id Hk) as Hs. pose proof (keyed_step e op Hk) as Hk'.
    destruct (engine_step e op) as [e1 event] eqn:Estep. cbn in Hs, Hf, Hk'.
    assert (Hgo : forall p1 cast1, e_proposals e1 !! id = Some p1 -> tally (p_votes p1) cast1 ->
      cast1 ++ cast_on id ops = cast ++ cast_on id (op :: ops) ->
      exists p', e_proposals (let '(e2, events) := engine_run e1 ops in
                              (e2, option_list event ++ events)).1 !! id = Some p' /\
        tally (p_votes p') (cast ++ cast_on id (op :: ops))).
    { intros p1 cast1 Hp1 Ht1 <-. destruct (IH e1 p1 cast1 Hk' Hf Hp1 Ht1) as (p' & Hp' & Ht').
      exists p'. by destruct (engine_run e1 ops). }
    destruct op as [i pr o c | i v | i | q |].
    + rewrite decide_False in Hs by done. apply (Hgo p cast); [by rewrite Hs | done | done].
    + case_decide as Hi; [| apply (Hgo p cast); [by rewrite Hs | done |]].
      * subst i. destruct (vote_lookup e id v p Hp) as (p1 & Hp1 & Hv).
        apply (Hgo p1 (cast ++ [v])); [by rewrite Hs | |].
        -- rewrite Hv. destruct v as [vp vd vc vk]. by apply tally_step.
        -- unfold cast_on. cbn. rewrite decide_True by done. by rewrite <- app_assoc.
      * unfold cast_on. cbn. by rewrite decide_False by done.
    + case_decide as Hi; [| apply (Hgo p cast); [by rewrite Hs | done | done]].
      subst i. destruct (commit_lookup e id p Hp) as (p1 & Hp1 & Hv & _).
      apply (Hgo p1 cast); [by rewrite Hs | by rewrite Hv | done].
    + apply (Hgo p cast); [by rewrite Hs | done | done].
    + apply (Hgo p cast); [by rewrite Hs | done | done].
Qed.

Lemma engine_run_app e ops1 ops2 :
  engine_run e (ops1 ++ ops2)
  = let '(e1, ev1) := engine_run e ops1 in
    let '(e2, ev2) := engine_run e1 ops2 in
    (e2, ev1 ++ ev2).
Proof.
  revert e. induction ops1 as [|op ops1 IH]; intros e; cbn.
  - by destruct (engine_run e ops2).
  - destruct (engine_step e op) as [e1 event]. rewrite IH.
    destruct (engine_run e1 ops1) as [e2 ev2]. destruct (engine_run e2 ops2) as [e3 ev3].
    by rewrite app_assoc.
Qed.

Lemma fresh_ids_app e ops1 ops2 :
  fresh_ids e (ops1 ++ ops2) <-> fresh_ids e ops1 /\ fresh_ids (engine_run e ops1).1 ops2.
Proof.
  revert e. induction ops1 as [|op ops1 IH]; intros e; cbn; [tauto |].
  rewrite IH. destruct (engine_step e op) as [e1 event]. cbn.
  destruct (engine_run e1 ops1) as [e2 ev2]. cbn. tauto.
Qed.

Lemma keyed_run e ops : keyed e -> keyed (engine_run e ops).1.
Proof.
  revert e. induction ops as [|op ops IH]; intros e Hk; cbn; [done |].
  pose proof (keyed_step e op Hk) as Hk1. destruct (engine_step e op) as [e1 event]. cbn in Hk1.
  specialize (IH e1 Hk1). by destruct (engine_run e1 ops).
Qed.

Lemma keyed_new q : keyed (ConsensusEngine_new q).
Proof. apply map_Forall_empty. Qed.

(** ** Counting commits *)
Definition is_commit_of (id : ProposalId) (event : NoeticEvent) : bool :=
  bool_decide (em_phase (ev_meta event) = PhaseCommit) && bool_decide (em_id (ev_meta event) = id).

Definition commits_of (id : ProposalId) (events : list NoeticEvent) : nat :=
  length (List.filter (is_commit_of id) events).

Definition committed_count e (id : ProposalId) : nat :=
  match e_proposals e !! id with
  | Some p => if p_committed p then 1 else 0
  | None => 0
  end.

Lemma committed_ne e id i p :
  i <> id -> committed_count (mkEngine (e_quorum e) (<[i := p]> (e_proposals e))) id
  = committed_count e id.
Proof. intros Hi. unfold committed_count. cbn. by rewrite lookup_insert_ne. Qed.

Lemma commits_of_event id q (p : Proposal Json) ph :
  commits_of id [event_for q p ph]
  = if decide (ph = PhaseCommit /\ p_id p = id) then 1 else 0.
Proof.
  unfold commits_of. cbn. unfold is_commit_of. cbn.
  destruct (decide (ph = PhaseCommit /\ p_id p = id)) as [[-> ->] | Hn].
  - by rewrite !bool_decide_true.
  - destruct (bool_decide (ph = PhaseCommit)) eqn:E1; [| done].
    destruct (bool_decide (p_id p = id)) eqn:E2; [| done].
    bool_prop. tauto.
Qed.

Lemma step_commits e op id :
  keyed e -> match op with OpPropose i _ _ _ => e_proposals e !! i = None | _ => True end ->
  committed_count (engine_step e op).1 id
  = committed_count e id + commits_of id (option_list (engine_step e op).2).
Proof.
  intros Hk Hf.
  destruct op as [i pr o c | i v | i | q |]; cbn -[consensus_restore consensus_snapshot commits_of].
  - rewrite commits_of_event, decide_False by naive_solver. rewrite Nat.add_0_r.
    destruct (decide (i = id)) as [<- | Hi]; [| by apply committed_ne].
    unfold committed_count. cbn. by rewrite lookup_insert_eq, Hf.
  - unfold vote. destruct (e_proposals e !! i) as [p|] eqn:E; [| by rewrite Nat.add_0_r].
    pose proof (Hk i p E) as Hid. cbn in Hid.
    destruct (record_vote _ _ _ _ _ _) as [[vs s]|]; [| by rewrite Nat.add_0_r].
    cbn -[commits_of]. rewrite commits_of_event. cbn.
    destruct (decide (i = id)) as [<- | Hi].
    + unfold committed_count. cbn. rewrite lookup_insert_eq, E. cbn.
      destruct (p_committed p); cbn; [by rewrite decide_False by naive_solver |].
      destruct (f_ge s (e_quorum e) && _); cbn; [by rewrite decide_True |].
      by rewrite decide_False by naive_solver.
    + rewrite committed_ne by done. rewrite decide_False by naive_solver. by rewrite Nat.add_0_r.
  - unfold commit. destruct (e_proposals e !! i) as [p|] eqn:E; [| by rewrite Nat.add_0_r].
    pose proof (Hk i p E) as Hid. cbn in Hid.
    destruct (p_committed p) eqn:Ec; [by rewrite Nat.add_0_r |].
    cbn -[commits_of]. rewrite commits_of_event. cbn.
    destruct (decide (i = id)) as [<- | Hi].
    + unfold committed_count. cbn. rewrite lookup_insert_eq, E, Ec. cbn. by rewrite decide_True.
    + rewrite committed_ne by done. rewrite decide_False by naive_solver. by rewrite Nat.add_0_r.
  - by rewrite Nat.add_0_r.
  - rewrite consensus_reload by done. by rewrite Nat.add_0_r.
Qed.

Lemma commits_of_app id l k : commits_of id (l ++ k) = commits_of id l + commits_of id k.
Proof. unfold commits_of. by rewrite List.filter_app, length_app. Qed.

Lemma run_commits e ops id :
  keyed e -> fresh_ids e ops ->
  committed_count (engine_run e ops).1 id
  = committed_count e id + commits_of id (engine_run e ops).2.
Proof.
  revert e. induction ops as [|op ops IH]; intros e Hk Hf; cbn [engine_run].
  - cbn. by rewrite Nat.add_0_r.
  - destruct Hf as [Hop Hf]. pose proof (step_commits e op id Hk Hop) as Hs.
    pose proof (keyed_step e op Hk) as Hk1.
    destruct (engine_step e op) as [e1 event]. cbn in Hs, Hk1, Hf.
    specialize (IH e1 Hk1 Hf). destruct (engine_run e1 ops) as [e2 evs]. cbn -[commits_of] in *.
    rewrite commits_of_app. lia.
Qed.
End runs.

Lemma same_peer_same_record (votes : list VoteRecord) r r' :
  NoDup (vr_peer <$> votes) -> r ∈ votes -> r' ∈ votes -> vr_peer r = vr_peer r' -> r = r'.
Proof.
  induction votes as [|v votes IH]; intros Hn Hr Hr' Hp; [set_solver |].
  cbn in Hn. apply NoDup_cons in Hn as [Hv Hn].
  apply elem_of_cons in Hr as [-> | Hr], Hr' as [-> | Hr']; [done | | | auto].
  - exfalso. apply Hv. rewrite Hp. by apply list_elem_of_fmap_2.
  - exfalso. apply Hv. rewrite <- Hp. by apply list_elem_of_fmap_2.
Qed.

(** Replacing the record of a peer keeps exactly the records of the others. *)
Lemma replaced_members l1 r l2 v x :
  NoDup (vr_peer <$> l1 ++ r :: l2) -> vr_peer r = vr_peer v ->
  x ∈ l1 ++ v :: l2 <-> x = v \/ (x ∈ l1 ++ r :: l2 /\ vr_peer x <> vr_peer v).
Proof.
  intros Hn Hr.
  assert (Hsplit : forall y, y ∈ l1 \/ y ∈ l2 -> vr_peer y <> vr_peer r).
  { intros y Hy Heq. rewrite fmap_app in Hn. cbn in Hn. apply NoDup_app in Hn as (_ & Hd & Hn2).
    apply NoDup_cons in Hn2 as [Hn2 _]. destruct Hy as [Hy | Hy].
    - apply (Hd (vr_peer y)); [by apply list_elem_of_fmap_2 |]. rewrite Heq. left.
    - apply Hn2. rewrite <- Heq. by apply list_elem_of_fmap_2. }
  rewrite !elem_of_app, !elem_of_cons. rewrite <- Hr. split.
  - intros [Hx | [-> | Hx]]; [right | by left | right]; split; auto.
  - intros [-> | [[Hx | [-> | Hx]] Hne]]; auto. done.
Qed.

Lemma commit_phase (c q : bool) (votes : list VoteRecord) :
  (if negb c && q && forallb (fun v => bool_decide (vr_decision v = Approve)) votes
   then PhaseCommit else PhaseVote) = PhaseCommit <->
  c = false /\ q = true /\ Forall (fun r => vr_decision r = Approve) votes.
Proof.
  assert (Hall : forallb (fun v => bool_decide (vr_decision v = Approve)) votes = true <->
    Forall (fun r => vr_decision r = Approve) votes).
  { rewrite forallb_forall, Forall_forall. setoid_rewrite list_elem_of_In.
    setoid_rewrite bool_decide_eq_true. done. }
  rewrite <- Hall. destruct c, q, (forallb _ votes); cbn; intuition congruence.
Qed.

Lemma commit_flag (c b : bool) :
  (if b then true else c) = true <->
  c = true \/ (if b then PhaseCommit else PhaseVote) = PhaseCommit.
Proof. destruct c, b; intuition congruence. Qed.

(** ** Properties *)

(** Votes are counted once per peer and the newest one counts. In any run of the engine, with
    restarts, quorum changes and other proposals in between, the records of a proposal are a tally
    of the votes cast on it since it was made: no peer has two records, every record is a vote that
    was cast, and no vote a peer cast is newer than its record. *)
Theorem consensus_newest_vote {Json : Type} q (before after : list (Op Json)) id proposer object clock :
  fresh_ids (ConsensusEngine_new q) (before ++ OpPropose id proposer object clock :: after) ->
  exists p,
    e_proposals (engine_run (ConsensusEngine_new q)
      (before ++ OpPropose id proposer object clock :: after)).1 !! id = Some p /\
    tally (p_votes p) (cast_on id after).
Proof.
  intros Hf. apply fresh_ids_app in Hf as [_ [_ Hf]].
  pose proof (keyed_run _ before (keyed_new (Json := Json) q)) as Hk.
  rewrite engine_run_app. destruct (engine_run (ConsensusEngine_new q) before) as [e ev1].
  cbn in Hk, Hf |- *.
  pose proof (keyed_step e (OpPropose id proposer object clock) Hk) as Hk1. cbn in Hk1.
  destruct (run_tally _ after id (mkProposal id proposer object clock [] false f_zero) [] Hk1 Hf) as (p & Hp & Ht).
  - cbn. apply lookup_insert_eq.
  - apply tally_nil.
  - exists p. split; [| done]. by destruct (engine_run _ after).
Qed.

Definition uuid_1 : ProposalId := mkProposalId [Byte.x01].
Definition seed_1 : ProposalObject unit :=
  ObjSeed (mkSeedHeader "seed" 1 (Hlc_new peer_a 10) peer_a) Pending.
Definition approve_a : VoteRecord := mkVote peer_a Approve (f32_lit 6 10) (Hlc_new peer_a 11).
Definition reject_a : VoteRecord := mkVote peer_a Reject (f32_lit 6 10) (Hlc_new peer_a 13).
Definition approve_b : VoteRecord := mkVote peer_b Approve (f32_lit 6 10) (Hlc_new peer_b 12).

Lemma consensus_newest_vote_witness :
  exists p,
    e_proposals (engine_run (ConsensusEngine_new (f32_lit 11 10))
      ([] ++ OpPropose uuid_1 peer_a seed_1 (Hlc_new peer_a 10)
        :: [OpVote uuid_1 reject_a; OpReload; OpVote uuid_1 approve_a])).1 !! uuid_1 = Some p /\
    tally (p_votes p) [reject_a; approve_a].
Proof.
  apply (consensus_newest_vote (f32_lit 11 10) []
    [OpVote uuid_1 reject_a; OpReload; OpVote uuid_1 approve_a] uuid_1).
  vm_compute. repeat split.
Defined.

(** What one vote does to a proposal whose peers have one record each. A vote that is not newer
    than the peer's record changes nothing and answers nothing. Otherwise the vote becomes the
    peer's record, every other record is kept, and the answer is a commit exactly when the proposal
    was not committed, the tally reaches the quorum and every record approves; it is then committed,
    and a committed proposal stays so. *)
Theorem consensus_vote_exact {Json : Type} (e : ConsensusEngine Json) id p peer d cr clk :
  e_proposals e !! id = Some p -> NoDup (vr_peer <$> p_votes p) ->
  match vote e id peer d cr clk with
  | (e', None) =>
      e' = e /\
      exists r, r ∈ p_votes p /\ vr_peer r = peer /\ is_newer clk (vr_clock r) = false
  | (e', Some event) =>
      exists p',
        e' = mkEngine (e_quorum e) (<[id := p']> (e_proposals e)) /\
        (forall r, r ∈ p_votes p' <->
           r = mkVote peer d cr clk \/ (r ∈ p_votes p /\ vr_peer r <> peer)) /\
        (forall r, r ∈ p_votes p -> vr_peer r = peer -> is_newer clk (vr_clock r) = true) /\
        (em_phase (ev_meta event) = PhaseCommit <->
           p_committed p = false /\ f_ge (p_credence_sum p') (e_quorum e) = true /\
           Forall (fun r => vr_decision r = Approve) (p_votes p')) /\
        (p_committed p' = true <->
           p_committed p = true \/ em_phase (ev_meta event) = PhaseCommit)
  end.
Proof.
  intros Hp Hnd. unfold vote. rewrite Hp. unfold record_vote.
  pose proof (update_record_spec (p_votes p) (p_credence_sum p) peer d cr clk) as Hspec.
  destruct (update_record (p_votes p) (p_credence_sum p) peer d cr clk) as [[[votes s]|]|].
  - destruct Hspec as (l1 & r & l2 & Hv & Hr & Hn & ->).
    eexists. split; [reflexivity |]. cbn [p_votes p_committed p_credence_sum ev_meta event_for em_phase].
    split_and!.
    + intros x. rewrite Hv. apply replaced_members; [by rewrite <- Hv | done].
    + intros x Hx Hxp. rewrite (same_peer_same_record (p_votes p) x r); [done | done | done | | congruence].
      rewrite Hv. set_solver.
    + apply commit_phase.
    + apply commit_flag.
  - done.
  - eexists. split; [reflexivity |]. cbn [p_votes p_committed p_credence_sum ev_meta event_for em_phase].
    split_and!.
    + intros x. rewrite elem_of_app, list_elem_of_singleton. split; [| tauto].
      intros [Hx | ->]; [right | by left]. split; [done |]. intros Hxp. apply Hspec.
      apply list_elem_of_fmap. by exists x.
    + intros x Hx Hxp. exfalso. apply Hspec. apply list_elem_of_fmap. by exists x.
    + apply commit_phase.
    + apply commit_flag.
Qed.

Lemma consensus_vote_exact_witness :
  NoDup (vr_peer <$> [approve_a]) /\
  exists event e', vote (mkEngine (f32_lit 11 10)
      {[uuid_1 := mkProposal uuid_1 peer_a seed_1 (Hlc_new peer_a 10) [approve_a] false (f32_lit 6 10)]})
    uuid_1 peer_b Approve (f32_lit 6 10) (Hlc_new peer_b 12) = (e', Some event) /\
    em_phase (ev_meta event) = PhaseCommit.
Proof.
  split; [apply NoDup_singleton |].
  pose proof (consensus_vote_exact (mkEngine (f32_lit 11 10)
      {[uuid_1 := mkProposal uuid_1 peer_a seed_1 (Hlc_new peer_a 10) [approve_a] false (f32_lit 6 10)]})
    uuid_1 (mkProposal uuid_1 peer_a seed_1 (Hlc_new peer_a 10) [approve_a] false (f32_lit 6 10))
    peer_b Approve (f32_lit 6 10) (Hlc_new peer_b 12) eq_refl (NoDup_singleton _)) as Hv.
  destruct (vote _ _ _ _ _ _) as [e' [event|]] eqn:E.
  - exists event, e'. split; [done |]. destruct Hv as (p' & He & _ & _ & Hc & _).
    revert E. vm_compute. intros [= <- <-]. done.
  - exfalso. vm_compute in E. congruence.
Defined.

(** C14: a proposal is committed at most once. In any run from a new engine in which identifiers are
    fresh, with restarts from snapshots anywhere in it, the number of commit events of a proposal is
    one if it ends committed and zero otherwise. *)
Theorem consensus_commit_once {Json : Type} q (ops : list (Op Json)) id :
  fresh_ids (ConsensusEngine_new q) ops ->
  commits_of id (engine_run (ConsensusEngine_new q) ops).2
  = committed_count (engine_run (ConsensusEngine_new q) ops).1 id.
Proof.
  intros Hf. rewrite (run_commits _ _ _ (keyed_new q) Hf). unfold committed_count at 1. cbn.
  by rewrite lookup_empty.
Qed.

Lemma consensus_commit_once_witness :
  commits_of uuid_1 (engine_run (ConsensusEngine_new (f32_lit 11 10))
    [OpPropose uuid_1 peer_a seed_1 (Hlc_new peer_a 10); OpVote uuid_1 approve_a; OpReload;
     OpVote uuid_1 approve_b; OpCommit uuid_1; OpVote uuid_1 reject_a]).2 = 1.
Proof.
  etransitivity; [apply (consensus_commit_once (f32_lit 11 10)); vm_compute; repeat split |].
  vm_compute. reflexivity.
Defined.
