(* ===== verification/Security.v ===== *)
(** * Access control

    [liminal-core/src/security.rs]: roles, API keys, namespace quotas, the access table and the token
    bucket. The theorem reads the history of the table: a key is authorized exactly when it was
    accepted, never disabled since, and asked for its own namespace and no more than its role. The
    BLAKE3 hash function is a parameter of [hash_secret]. *)

From stdpp Require Import prelude gmap strings list fin_maps.
From Stdlib Require Import ZArith Lia SpecFloat.
From S2P Require Import Prelude RustStr RustOrd Float.

Inductive Role : Type := Admin | Writer | Reader.

Global Instance Role_eq_dec : EqDecision Role.
Proof. solve_decision. Defined.

Definition permits (self required : Role) : bool :=
  match self, required with
  | Admin, _ => true
  | Writer, (Writer | Reader) => true
  | Reader, Reader => true
  | _, _ => false
  end.

Record ApiKey : Type := mkApiKey {
  ak_id : string;
  ak_secret_hash : bytes;
  ak_role : Role;
  ak_ns : string;
  ak_created_ms : Z;
  ak_disabled : bool
}.

Definition ApiKey_new (id : string) (secret_hash : bytes) (role : Role) (ns : string) (created_ms : Z)
  : ApiKey := mkApiKey id secret_hash role ns created_ms false.

Record Quotas : Type := mkQuotas { rps : Z; burst : Z; max_cells : Z; max_views : Z }.

Definition Quotas_default : Quotas := mkQuotas 0 0 0 0.

Record Access : Type := mkAccess { keys : gmap string ApiKey; ns_quotas : gmap string Quotas }.

Definition Access_new : Access := mkAccess ∅ ∅.

Inductive AccessError : Type :=
| UnknownKey (key : string)
| KeyDisabled (key : string)
| KeyExists (key : string)
| UnknownNamespace (ns : string)
| WrongNamespace (key key_ns required_ns : string)
| Forbidden (key : string) (role required : Role).

Definition register_namespace (self : Access) (ns : string) : Access :=
  match ns_quotas self !! ns with
  | Some _ => self
  | None => mkAccess (keys self) (<[ns := Quotas_default]> (ns_quotas self))
  end.

Definition set_quota (self : Access) (ns : string) (quota : Quotas) : Access :=
  mkAccess (keys self) (<[ns := quota]> (ns_quotas self)).

Definition add_key (self : Access) (key : ApiKey) : Access * result unit AccessError :=
  match keys self !! ak_id key with
  | Some _ => (self, Err (KeyExists (ak_id key)))
  | None =>
      match ns_quotas self !! ak_ns key with
      | None => (self, Err (UnknownNamespace (ak_ns key)))
      | Some _ => (mkAccess (<[ak_id key := key]> (keys self)) (ns_quotas self), Ok tt)
      end
  end.

Definition disable_key (self : Access) (key_id : string) : Access * result unit AccessError :=
  match keys self !! key_id with
  | Some key =>
      (mkAccess (<[key_id := mkApiKey (ak_id key) (ak_secret_hash key) (ak_role key) (ak_ns key)
                               (ak_created_ms key) true]> (keys self)) (ns_quotas self), Ok tt)
  | None => (self, Err (UnknownKey key_id))
  end.

Definition authorize (self : Access) (key_id : string) (required : Role) (ns : string)
  : result Role AccessError :=
  let! key := ok_or (keys self !! key_id) (UnknownKey key_id) in
  if ak_disabled key then Err (KeyDisabled key_id)
  else if negb (bool_decide (ak_ns key = ns)) then Err (WrongNamespace key_id (ak_ns key) ns)
  else if negb (permits (ak_role key) required) then Err (Forbidden key_id (ak_role key) required)
  else Ok (ak_role key).

Definition hash_secret (blake3 : bytes -> bytes) (secret : bytes) : bytes := blake3 secret.

(** ** Rate limiting *)
Record TokenBucket : Type := mkBucket {
  capacity : f64;
  tokens : f64;
  refill_per_ms : f64;
  last_refill_ms : Z
}.

Definition TokenBucket_new (quotas : Quotas) (now_ms : Z) : TokenBucket :=
  let burst := Z.max (burst quotas) (rps quotas) in
  let capacity := f64_of_Z burst in
  let refill_per_ms :=
    if (rps quotas =? 0)%Z then f_zero else f64_div (f64_of_Z (rps quotas)) (f64_of_Z 1000) in
  mkBucket capacity capacity refill_per_ms now_ms.

Definition refill (self : TokenBucket) (now_ms : Z) : TokenBucket :=
  if (now_ms <=? last_refill_ms self)%Z then self
  else
    let elapsed := (now_ms - last_refill_ms self)%Z in
    mkBucket (capacity self)
      (f_min (f64_add (tokens self) (f64_mul (refill_per_ms self) (f64_of_Z elapsed))) (capacity self))
      (refill_per_ms self) now_ms.

Definition allow (self : TokenBucket) (now_ms : Z) (cost : f64) : TokenBucket * bool :=
  let self := refill self now_ms in
  if f_ge (tokens self) cost then
    (mkBucket (capacity self) (f64_sub (tokens self) cost) (refill_per_ms self)
       (last_refill_ms self), true)
  else (self, false).

(** The schedule of the bucket's test: five immediate calls, then one every third of a second. *)
Fixpoint allow_all (b : TokenBucket) (times : list Z) : list bool :=
  match times with
  | [] => []
  | t :: rest => let '(b', ok) := allow b t (f64_of_Z 1) in ok :: allow_all b' rest
  end.

Example token_bucket_respects_rps_and_burst :
  allow_all (TokenBucket_new (mkQuotas 3 5 0 0) 0) [0; 0; 0; 0; 0; 0; 100; 334; 668; 668]%Z
  = [true; true; true; true; true; false; false; true; true; false].
Proof. vm_compute. reflexivity. Qed.

(** ** Histories of the access table *)
Inductive AccessOp : Type :=
| OpRegister (ns : string)
| OpSetQuota (ns : string) (quota : Quotas)
| OpAddKey (key : ApiKey)
| OpDisable (key_id : string).

Definition access_step (self : Access) (op : AccessOp) : Access :=
  match op with
  | OpRegister ns => register_namespace self ns
  | OpSetQuota ns quota => set_quota self ns quota
  | OpAddKey key => (add_key self key).1
  | OpDisable key_id => (disable_key self key_id).1
  end.

Definition access_run (ops : list AccessOp) : Access := foldl access_step Access_new ops.

(** The namespace was registered, or given a quota, by some step of the history. *)
Definition registered (ns : string) (ops : list AccessOp) : Prop :=
  Exists (fun op => match op with
                    | OpRegister n | OpSetQuota n _ => n = ns
                    | _ => False
                    end) ops.

(** [key] was accepted at some step, and [after] is what followed it. *)
Definition accepted (ops : list AccessOp) (key : ApiKey) (after : list AccessOp) : Prop :=
  exists before, ops = before ++ OpAddKey key :: after /\
    keys (access_run before) !! ak_id key = None /\ registered (ak_ns key) before.

Lemma permits_refl r : permits r r = true.
Proof. by destruct r. Qed.

Lemma permits_trans a b c : permits a b = true -> permits b c = true -> permits a c = true.
Proof. by destruct a, b, c. Qed.

Lemma access_run_snoc ops op : access_run (ops ++ [op]) = access_step (access_run ops) op.
Proof. unfold access_run. by rewrite foldl_app. Qed.

Lemma registered_snoc ns ops op :
  registered ns (ops ++ [op]) <-> registered ns ops \/
    match op with OpRegister n | OpSetQuota n _ => n = ns | _ => False end.
Proof. unfold registered. rewrite Exists_app, Exists_cons, Exists_nil. tauto. Qed.

(** The quota table holds the registered namespaces. *)
Lemma quotas_registered ops ns : is_Some (ns_quotas (access_run ops) !! ns) <-> registered ns ops.
Proof.
  induction ops as [|op ops IH] using rev_ind.
  - cbn. rewrite lookup_empty. unfold registered. rewrite Exists_nil. by split; intros [].
  - rewrite access_run_snoc, registered_snoc, <- IH. destruct op as [n | n q | k | i]; cbn.
    + unfold register_namespace. destruct (ns_quotas (access_run ops) !! n) eqn:E.
      * split; [tauto |]. intros [Hs | ->]; [done | by rewrite E].
      * cbn. destruct (decide (n = ns)) as [-> | Hne].
        -- rewrite lookup_insert_eq. split; [tauto | by eexists].
        -- rewrite lookup_insert_ne by done. tauto.
    + destruct (decide (n = ns)) as [-> | Hne].
      * rewrite lookup_insert_eq. split; [tauto | by eexists].
      * rewrite lookup_insert_ne by done. tauto.
    + unfold add_key. destruct (keys _ !! _); [cbn; tauto |].
      destruct (ns_quotas _ !! ak_ns k); cbn; tauto.
    + unfold disable_key. destruct (keys _ !! i); cbn; tauto.
Qed.

(** The key was disabled by some step. *)
Definition disabled_in (id : string) (ops : list AccessOp) : bool :=
  existsb (fun op => match op with OpDisable i => bool_decide (i = id) | _ => false end) ops.

Definition disabled_by (key : ApiKey) (ops : list AccessOp) : ApiKey :=
  mkApiKey (ak_id key) (ak_secret_hash key) (ak_role key) (ak_ns key) (ak_created_ms key)
    (ak_disabled key || disabled_in (ak_id key) ops).

Lemma disabled_in_snoc id ops op :
  disabled_in id (ops ++ [op])
  = disabled_in id ops || match op with OpDisable i => bool_decide (i = id) | _ => false end.
Proof. unfold disabled_in. rewrite existsb_app. cbn. by rewrite orb_false_r. Qed.

(** One step changes an entry only by adding or disabling it. *)
Lemma step_keys ops op id :
  keys (access_step (access_run ops) op) !! id =
  match op with
  | OpAddKey key =>
      if decide (ak_id key = id /\ keys (access_run ops) !! id = None /\
                 is_Some (ns_quotas (access_run ops) !! ak_ns key))
      then Some key else keys (access_run ops) !! id
  | OpDisable i =>
      if decide (i = id) then (fun k => disabled_by k [OpDisable (ak_id k)]) <$> keys (access_run ops) !! id
      else keys (access_run ops) !! id
  | _ => keys (access_run ops) !! id
  end.
Proof.
  destruct op as [n | n q | k | i]; cbn.
  - unfold register_namespace. by destruct (ns_quotas _ !! n).
  - done.
  - unfold add_key. destruct (keys (access_run ops) !! ak_id k) as [k0|] eqn:E; cbn.
    + rewrite decide_False; [done |]. intros (Hid & Hn & _). congruence.
    + destruct (ns_quotas (access_run ops) !! ak_ns k) as [qq|] eqn:E2; cbn.
      * destruct (decide (ak_id k = id)) as [<- | Hne].
        -- rewrite lookup_insert_eq, decide_True; [done |]. split_and!; [done | done | by eexists].
        -- rewrite lookup_insert_ne by done. rewrite decide_False; [done |]. tauto.
      * rewrite decide_False; [done |]. intros (_ & _ & [? ?]). congruence.
  - unfold disable_key. destruct (keys (access_run ops) !! i) as [k|] eqn:E; cbn.
    + case_decide as Hi.
      * subst. rewrite lookup_insert_eq, E. cbn. f_equal. unfold disabled_by. cbn.
        rewrite bool_decide_true by done. by rewrite orb_true_r.
      * by rewrite lookup_insert_ne.
    + case_decide; [| done]. subst. by rewrite E.
Qed.

Lemma keyed_id ops id k : keys (access_run ops) !! id = Some k -> ak_id k = id.
Proof.
  revert k. induction ops as [|op ops IH] using rev_ind; intros k Hk; [done |].
  rewrite access_run_snoc, step_keys in Hk. destruct op as [n | n q | key | i]; auto.
  - case_decide as Hd; [| auto]. destruct Hd as [Hd _]. congruence.
  - case_decide; [| auto]. apply fmap_Some in Hk as (k0 & Hk0 & ->). cbn. auto.
Qed.

Lemma accepted_lookup ops key after :
  accepted ops key after -> keys (access_run ops) !! ak_id key = Some (disabled_by key after).
Proof.
  revert ops. induction after as [|op after IH] using rev_ind; intros ops (before & -> & Hnone & Hreg).
  - rewrite access_run_snoc, step_keys. rewrite decide_True.
    + unfold disabled_by. cbn. rewrite orb_false_r. by destruct key.
    + split_and!; [done | done | by apply quotas_registered].
  - rewrite app_comm_cons, app_assoc, access_run_snoc, step_keys.
    assert (Hk : keys (access_run (before ++ OpAddKey key :: after)) !! ak_id key
      = Some (disabled_by key after)) by (apply IH; by exists before).
    rewrite Hk. unfold disabled_by. rewrite disabled_in_snoc.
    destruct op as [n | n q | k | i]; cbn; rewrite ?orb_false_r; [done | done | |].
    + by rewrite decide_False by naive_solver.
    + case_decide as Hi.
      * rewrite (bool_decide_true (i = _)) by done. rewrite bool_decide_true by done.
        by rewrite !orb_true_r.
      * rewrite (bool_decide_false (i = _)) by done. by rewrite !orb_false_r.
Qed.

Lemma lookup_accepted ops id k :
  keys (access_run ops) !! id = Some k ->
  exists key after, accepted ops key after /\ ak_id key = id /\ k = disabled_by key after.
Proof.
  revert k. induction ops as [|op ops IH] using rev_ind; intros k Hk; [done |].
  rewrite access_run_snoc, step_keys in Hk.
  assert (Hold : forall k0, keys (access_run ops) !! id = Some k0 ->
    exists key after, accepted (ops ++ [op]) key (after ++ [op]) /\ ak_id key = id /\
      k0 = disabled_by key after).
  { intros k0 Hk0. destruct (IH k0 Hk0) as (key & after & (before & -> & Hb) & Hid & ->).
    exists key, after. split_and!; [| done | done]. exists before. by rewrite <- app_assoc. }
  assert (Hkeep : match op with OpDisable i => i <> id | _ => True end ->
    keys (access_run ops) !! id = Some k ->
    exists key after, accepted (ops ++ [op]) key after /\ ak_id key = id /\ k = disabled_by key after).
  { intros Hop Hk0. destruct (Hold k Hk0) as (key & after & Hacc & Hid & ->).
    exists key, (after ++ [op]). split_and!; [done | done |].
    unfold disabled_by. rewrite disabled_in_snoc, Hid.
    destruct op; rewrite ?orb_false_r; try done.
    rewrite bool_decide_false by done. by rewrite orb_false_r. }
  destruct op as [n | n q | key | i]; [by apply Hkeep | by apply Hkeep | |].
  - case_decide as Hd; [| by apply Hkeep]. injection Hk as <-. destruct Hd as (Hid & Hnone & Hq).
    exists key, []. split_and!; [| done |].
    + exists ops. rewrite Hid. split_and!; [done | done | by apply quotas_registered].
    + unfold disabled_by. cbn. rewrite orb_false_r. by destruct key.
  - case_decide as Hi; [| by apply Hkeep]. apply fmap_Some in Hk as (k0 & Hk0 & ->).
    destruct (Hold k0 Hk0) as (key & after & Hacc & Hid & ->).
    exists key, (after ++ [OpDisable i]). split_and!; [done | done |].
    unfold disabled_by. cbn. rewrite disabled_in_snoc, Hid, Hi, !bool_decide_true by done. cbn.
    by rewrite !orb_true_r.
Qed.

(** C15: what [authorize] answers, in terms of everything that was done to the table. A key passes
    with role [r] exactly when some step accepted it (its identifier was free and its namespace had
    been registered), with that role and the requested namespace, it was not disabled when it was
    added nor by any later step, and its role permits the required one. A key no step accepted is
    unknown; a disabled key is refused as disabled whatever it asks. *)
Theorem access_authorize_history ops id required ns :
  (forall r, authorize (access_run ops) id required ns = Ok r <->
    exists key after, accepted ops key after /\ ak_id key = id /\ ak_role key = r /\
      ak_ns key = ns /\ ak_disabled key = false /\ disabled_in id after = false /\
      permits r required = true) /\
  (authorize (access_run ops) id required ns = Err (UnknownKey id) <->
    forall key after, accepted ops key after -> ak_id key <> id) /\
  (authorize (access_run ops) id required ns = Err (KeyDisabled id) <->
    exists key after, accepted ops key after /\ ak_id key = id /\
      ak_disabled key || disabled_in id after = true).
Proof.
  unfold authorize. destruct (keys (access_run ops) !! id) as [k|] eqn:E; cbn.
  - destruct (lookup_accepted ops id k E) as (key & after & Hacc & Hid & ->).
    assert (Huniq : forall key' after', accepted ops key' after' -> ak_id key' = id ->
      disabled_by key' after' = disabled_by key after).
    { intros key' after' Hacc' Hid'. apply accepted_lookup in Hacc'. rewrite Hid', E in Hacc'.
      congruence. }
    assert (Hfields : forall key' after', accepted ops key' after' -> ak_id key' = id ->
      ak_role key' = ak_role key /\ ak_ns key' = ak_ns key /\
      ak_disabled key' || disabled_in id after' = ak_disabled key || disabled_in id after).
    { intros key' after' Ha Hi. specialize (Huniq _ _ Ha Hi). unfold disabled_by in Huniq.
      rewrite Hi, Hid in Huniq. by injection Huniq. }
    unfold disabled_by. cbn. rewrite Hid.
    destruct (ak_disabled key || disabled_in id after) eqn:Ed.
    + split_and!.
      * intros r. split; [done |]. intros (key' & after' & Ha & Hi & _ & _ & H1 & H2 & _).
        destruct (Hfields _ _ Ha Hi) as (_ & _ & Hd). rewrite H1, H2 in Hd. done.
      * split; [done |]. intros Hno. exfalso. by apply (Hno key after).
      * split; [| done]. intros _. exists key, after. done.
    + apply orb_false_iff in Ed as [Ed1 Ed2]. split_and!.
      * intros r. split.
        -- intros Hr. destruct (bool_decide (ak_ns key = ns)) eqn:En; [| done]. cbn in Hr.
           destruct (permits (ak_role key) required) eqn:Ep; [| done]. cbn in Hr.
           injection Hr as <-. apply bool_decide_eq_true in En. exists key, after. done.
        -- intros (key' & after' & Ha & Hi & <- & <- & _ & _ & Hp).
           destruct (Hfields _ _ Ha Hi) as (Hr & Hn & _). rewrite Hr in Hp |- *. rewrite Hn.
           rewrite bool_decide_true by done. cbn. by rewrite Hp.
      * split; [by repeat case_match |]. intros Hno. exfalso. by apply (Hno key after).
      * split; [by repeat case_match |]. intros (key' & after' & Ha & Hi & Hd).
        destruct (Hfields _ _ Ha Hi) as (_ & _ & Hd'). rewrite Hd in Hd'. done.
  - assert (Hno : forall key after, accepted ops key after -> ak_id key <> id).
    { intros key after Ha Hi. apply accepted_lookup in Ha. congruence. }
    split_and!; [| done |].
    + intros r. split; [done |]. intros (key & after & Ha & Hi & _). by apply Hno in Ha.
    + split; [done |]. intros (key & after & Ha & Hi & _). by apply Hno in Ha.
Qed.
