(* ===== verification/Views.v ===== *)
(** * Standing queries ([liminal-core/src/views.rs])

    The registry of views a subscription creates, and the tick that takes the views that are due.
    A [HashMap] is a [gmap] whose iteration order is unspecified: [values_mut] is a parameter that
    enumerates the values in some order. *)

From stdpp Require Import prelude gmap strings fin_maps list sorting.
From Stdlib Require Import ZArith Lia.
From S2P Require Import Prelude RustOrd Float.

Record ViewFilter : Type := mkViewFilter {
  min_strength : option f32;
  min_salience : option f32;
  adreno : option bool
}.

Definition ViewFilter_default : ViewFilter := mkViewFilter None None None.

Record View : Type := mkView {
  v_id : Z;
  v_pattern : string;
  v_window_ms : Z;
  v_every_ms : Z;
  v_last_emit : Z;
  v_filter : ViewFilter
}.

Definition set_last_emit (now_ms : Z) (v : View) : View :=
  mkView (v_id v) (v_pattern v) (v_window_ms v) (v_every_ms v) now_ms (v_filter v).

Definition should_emit (v : View) (now_ms : Z) : bool :=
  (v_every_ms v <=? u64_saturating_sub now_ms (v_last_emit v))%Z.

Record ViewRegistry : Type := mkViewRegistry {
  next_id : Z;
  views : gmap Z View
}.

Definition ViewRegistry_new : ViewRegistry := mkViewRegistry 1 ∅.

Definition add_view (self : ViewRegistry) (pattern : string) (window_ms every_ms now_ms : Z)
    (filter : ViewFilter) : ViewRegistry * Z :=
  let id := next_id self in
  let last_emit := u64_saturating_sub now_ms every_ms in
  let view := mkView id pattern window_ms every_ms last_emit filter in
  (mkViewRegistry (u64_add id 1) (<[id := view]> (views self)), id).

Definition remove_view (self : ViewRegistry) (id : Z) : ViewRegistry * bool :=
  (mkViewRegistry (next_id self) (delete id (views self)), bool_decide (is_Some (views self !! id))).

(** The body of the loop of [take_due]. *)
Definition emit (now_ms : Z) (v : View) : View :=
  if should_emit v now_ms then set_last_emit now_ms v else v.

(** [list], sorted by id. *)
Definition id_le (v w : View) : Prop := (v_id v <= v_id w)%Z.
#[export] Instance id_le_dec : RelDecision id_le.
Proof. intros v w. unfold id_le. apply _. Defined.

Definition list_views (self : ViewRegistry) : list View :=
  merge_sort id_le (snd <$> map_to_list (views self)).

Section views.
(** The order in which [HashMap::values_mut] visits the values. *)
Variable values_mut : gmap Z View -> list View.
Hypothesis values_mut_perm : forall m, values_mut m ≡ₚ (snd <$> map_to_list m).

Definition take_due (self : ViewRegistry) (now_ms : Z) : ViewRegistry * list View :=
  (mkViewRegistry (next_id self) (emit now_ms <$> views self),
   set_last_emit now_ms <$> List.filter (fun v => should_emit v now_ms) (values_mut (views self))).

(** ** Runs *)
Inductive view_op : Type :=
| VAdd (pattern : string) (window_ms every_ms now_ms : Z) (filter : ViewFilter)
| VRemove (id : Z)
| VTick (now_ms : Z).

Inductive view_out : Type :=
| Added (id : Z)
| Removed (existed : bool)
| Due (due : list View).

Definition view_step (r : ViewRegistry) (op : view_op) : ViewRegistry * view_out :=
  match op with
  | VAdd p w e n f => let '(r', id) := add_view r p w e n f in (r', Added id)
  | VRemove id => let '(r', b) := remove_view r id in (r', Removed b)
  | VTick now => let '(r', due) := take_due r now in (r', Due due)
  end.

Fixpoint view_run (r : ViewRegistry) (ops : list view_op) : ViewRegistry * list view_out :=
  match ops with
  | [] => (r, [])
  | op :: rest =>
      let '(r', out) := view_step r op in
      let '(r'', outs) := view_run r' rest in
      (r'', out :: outs)
  end.

(** What the caller observes of one view: [VTick]s at which it was due, oldest first. *)
Fixpoint due_times (id : Z) (ops : list view_op) (outs : list view_out) : list Z :=
  match ops, outs with
  | VTick now :: ops', Due due :: outs' =>
      if bool_decide (id ∈ v_id <$> due) then now :: due_times id ops' outs'
      else due_times id ops' outs'
  | _ :: ops', _ :: outs' => due_times id ops' outs'
  | _, _ => []
  end.

Definition added (outs : list view_out) : list Z :=
  omap (fun o => match o with Added id => Some id | _ => None end) outs.

(** ** The state *)
Definition views_ok (r : ViewRegistry) : Prop :=
  (1 <= next_id r)%Z /\
  map_Forall (fun k v => v_id v = k /\ (1 <= k < next_id r)%Z) (views r).

Lemma views_ok_step r op :
  (next_id r + 1 < u64_size)%Z -> views_ok r ->
  views_ok (fst (view_step r op)) /\ (next_id r <= next_id (fst (view_step r op)) <= next_id r + 1)%Z.
Proof.
  intros Hn [Hpos Hok]. destruct op as [p w e n f | id | now]; cbn.
  - rewrite u64_add_small by lia. split; [| lia]. split; cbn; [lia |].
    apply map_Forall_insert_2; cbn; [lia |].
    eapply map_Forall_impl; [exact Hok |]. cbn. intros k v [-> ?]. lia.
  - split; [| lia]. split; cbn; [done |]. by apply map_Forall_delete.
  - split; [| lia]. split; cbn; [done |].
    intros k v. rewrite lookup_fmap, fmap_Some. intros (v' & Hv & ->).
    destruct (Hok k v' Hv) as [<- ?]. unfold emit. by destruct (should_emit v' now).
Qed.

Lemma due_lookup r now id : views_ok r ->
  id ∈ v_id <$> snd (take_due r now) <->
  exists v, views r !! id = Some v /\ should_emit v now = true.
Proof.
  intros [_ Hok]. cbn. rewrite list_elem_of_fmap. split.
  - intros (v & -> & Hv). apply list_elem_of_fmap in Hv as (v' & -> & Hv).
    apply list_elem_of_In, List.filter_In in Hv as [Hin Hdue]. apply list_elem_of_In in Hin.
    rewrite values_mut_perm in Hin. apply list_elem_of_fmap in Hin as ([k v2] & -> & Hin).
    apply elem_of_map_to_list in Hin. exists v2. by destruct (Hok k v2 Hin) as [<- _].
  - intros (v & Hv & Hdue). exists (set_last_emit now v). destruct (Hok id v Hv) as [Hid _].
    split; [by rewrite <- Hid |]. apply list_elem_of_fmap. exists v. split; [done |].
    apply list_elem_of_In, List.filter_In. split; [| done]. apply list_elem_of_In.
    rewrite values_mut_perm. apply list_elem_of_fmap. exists (id, v).
    split; [done |]. by apply elem_of_map_to_list.
Qed.

(** ** Specification

    The ticks a view sees, and the ones at which it is due by the rule of its period. *)
Fixpoint ticks (id : Z) (ops : list view_op) : list Z :=
  match ops with
  | VTick now :: rest => now :: ticks id rest
  | VRemove k :: rest => if decide (k = id) then [] else ticks id rest
  | VAdd _ _ _ _ _ :: rest => ticks id rest
  | [] => []
  end.

Fixpoint due_by_period (every last : Z) (ts : list Z) : list Z :=
  match ts with
  | [] => []
  | t :: rest =>
      if (every <=? u64_saturating_sub t last)%Z then t :: due_by_period every t rest
      else due_by_period every last rest
  end.

Fixpoint spaced (every last : Z) (ts : list Z) : Prop :=
  match ts with
  | [] => True
  | t :: rest => (last + every <= t)%Z /\ spaced every t rest
  end.

Lemma due_by_period_spaced every last ts :
  (0 < every)%Z -> spaced every last (due_by_period every last ts).
Proof.
  intros He. revert last. induction ts as [|t ts IH]; intros last; cbn; [done |].
  unfold u64_saturating_sub. destruct (Z.leb_spec every (Z.max (t - last) 0)); cbn; [| done].
  split; [lia | done].
Qed.

Lemma length_view_run r ops : length (snd (view_run r ops)) = length ops.
Proof.
  revert r. induction ops as [|op ops IH]; intros r; cbn; [done |].
  destruct (view_step r op) as [r' o]. specialize (IH r').
  destruct (view_run r' ops). cbn in *. by f_equal.
Qed.

Lemma view_run_cons r op ops :
  view_run r (op :: ops)
  = (fst (view_run (fst (view_step r op)) ops),
     snd (view_step r op) :: snd (view_run (fst (view_step r op)) ops)).
Proof. cbn. destruct (view_step r op) as [r' o]. cbn. by destruct (view_run r' ops). Qed.

Lemma due_times_cons id op ops o outs :
  due_times id (op :: ops) (o :: outs)
  = match op, o with
    | VTick now, Due due => if bool_decide (id ∈ v_id <$> due) then [now] else []
    | _, _ => []
    end ++ due_times id ops outs.
Proof. destruct op, o; cbn; try done. by case_bool_decide. Qed.

Lemma view_step_lookup r op id : id <> next_id r ->
  views (fst (view_step r op)) !! id
  = match op with
    | VAdd _ _ _ _ _ => views r !! id
    | VRemove k => if decide (k = id) then None else views r !! id
    | VTick now => emit now <$> views r !! id
    end.
Proof.
  intros Hid. destruct op as [p w e n f | k | now]; cbn.
  - by rewrite lookup_insert_ne by congruence.
  - destruct (decide (k = id)) as [-> | Hk]; [apply lookup_delete_eq |].
    by rewrite lookup_delete_ne.
  - apply lookup_fmap.
Qed.

(** From any state, a view that is gone is never due, and a live one is due by its period. *)
Lemma due_times_exact ops : forall r id,
  (next_id r + Z.of_nat (length ops) < u64_size)%Z -> views_ok r -> (id < next_id r)%Z ->
  due_times id ops (snd (view_run r ops))
  = match views r !! id with
    | Some v => due_by_period (v_every_ms v) (v_last_emit v) (ticks id ops)
    | None => []
    end.
Proof.
  induction ops as [|op ops IH]; intros r id Hn Hok Hid; [by destruct (views r !! id) |].
  cbn [length] in Hn. rewrite view_run_cons. cbn [snd]. rewrite due_times_cons.
  assert (id <> next_id r) as Hne by lia.
  destruct (views_ok_step r op ltac:(lia) Hok) as [Hok' Hnext].
  rewrite IH by (lia || done). rewrite view_step_lookup by done.
  destruct op as [p w e n f | k | now]; cbn [view_step add_view remove_view snd ticks app].
  - done.
  - destruct (decide (k = id)); [by destruct (views r !! id) | done].
  - pose proof (due_lookup r now id Hok) as Hdue.
    destruct (take_due r now) as [rt due]. cbn [fst snd app] in Hdue |- *.
    destruct (views r !! id) as [v|] eqn:Hv; cbn [fmap option_fmap option_map].
    + unfold emit. cbn [due_by_period].
      destruct (should_emit v now) eqn:Es; unfold should_emit in Es; rewrite Es; cbn [v_every_ms v_last_emit set_last_emit].
      * rewrite bool_decide_true; [done |]. apply Hdue. by exists v.
      * rewrite bool_decide_false; [done |]. intros (v' & E & Es')%Hdue. simplify_eq.
        unfold should_emit in Es'. congruence.
    + rewrite bool_decide_false; [done |]. by intros (v' & ? & _)%Hdue.
Qed.

(** Identifiers are given in order. *)
Lemma added_seq ops : forall r,
  (next_id r + Z.of_nat (length ops) < u64_size)%Z -> views_ok r ->
  added (snd (view_run r ops)) = seqZ (next_id r) (Z.of_nat (length (added (snd (view_run r ops))))).
Proof.
  induction ops as [|op ops IH]; intros r Hn Hok; [done |].
  cbn [length] in Hn. rewrite view_run_cons. cbn [snd].
  destruct (views_ok_step r op ltac:(lia) Hok) as [Hok' Hnext].
  specialize (IH (fst (view_step r op)) ltac:(lia) Hok').
  destruct op as [p w e n f | k | now]; cbn [view_step add_view remove_view take_due fst snd] in IH |- *;
    unfold added in IH |- *; cbn [omap list_omap] in IH |- *; [| exact IH | exact IH].
  cbn [length]. rewrite seqZ_cons by lia. f_equal. rewrite IH at 1.
  cbn [next_id]. rewrite u64_add_small by (destruct Hok; lia). f_equal; lia.
Qed.

Lemma view_run_app r ops1 ops2 :
  view_run r (ops1 ++ ops2)
  = (fst (view_run (fst (view_run r ops1)) ops2),
     snd (view_run r ops1) ++ snd (view_run (fst (view_run r ops1)) ops2)).
Proof.
  revert r. induction ops1 as [|op ops1 IH]; intros r.
  - cbn [app view_run fst snd]. apply surjective_pairing.
  - cbn [app]. rewrite !view_run_cons, IH. done.
Qed.

Lemma views_ok_run ops : forall r,
  (next_id r + Z.of_nat (length ops) < u64_size)%Z -> views_ok r ->
  views_ok (fst (view_run r ops)) /\
  (next_id r <= next_id (fst (view_run r ops)) <= next_id r + Z.of_nat (length ops))%Z.
Proof.
  induction ops as [|op ops IH]; intros r Hn Hok; [cbn; split; [done | lia] |].
  cbn [length] in Hn. rewrite view_run_cons. cbn [fst length].
  destruct (views_ok_step r op ltac:(lia) Hok) as [Hok' Hnext].
  destruct (IH (fst (view_step r op)) ltac:(lia) Hok') as [? ?]. split; [done | lia].
Qed.

Lemma due_times_fresh ops : forall r id,
  (next_id r + Z.of_nat (length ops) < u64_size)%Z -> views_ok r ->
  (next_id (fst (view_run r ops)) <= id)%Z -> due_times id ops (snd (view_run r ops)) = [].
Proof.
  induction ops as [|op ops IH]; intros r id Hn Hok Hid; [done |].
  cbn [length] in Hn. rewrite view_run_cons in Hid |- *. cbn [fst snd] in Hid |- *.
  rewrite due_times_cons.
  destruct (views_ok_step r op ltac:(lia) Hok) as [Hok' Hnext].
  destruct (views_ok_run ops (fst (view_step r op)) ltac:(lia) Hok') as [_ Hmono2].
  rewrite IH by (lia || done). rewrite app_nil_r.
  destruct op as [p w e n f | k | now]; cbn [view_step add_view remove_view snd]; [done | done |].
  pose proof (due_lookup r now id Hok) as Hdue.
  destruct (take_due r now) as [rt due]. cbn [fst snd] in Hdue |- *.
  rewrite bool_decide_false; [done |].
  intros (v & Hv & _)%Hdue. destruct Hok as [_ Hok].
  destruct (Hok id v Hv) as [_ ?]. lia.
Qed.

Lemma due_times_app id ops1 ops2 outs1 outs2 :
  length outs1 = length ops1 ->
  due_times id (ops1 ++ ops2) (outs1 ++ outs2) = due_times id ops1 outs1 ++ due_times id ops2 outs2.
Proof.
  revert outs1. induction ops1 as [|op ops1 IH]; intros [|o outs1] Hl; try discriminate; [done |].
  cbn [app]. rewrite !due_times_cons, IH by (cbn in Hl; lia). by rewrite app_assoc.
Qed.

(** A standing query fires by its period. In any run of subscriptions, cancellations and ticks
    on a new registry, whatever the order in which the map is visited, the identifiers given are
    1, 2, 3, ...; the ticks at which a view is due are exactly those its period selects among the
    ticks between its subscription and its cancellation, starting one period before the
    subscription; so with a positive period two notifications are at least a period apart. *)
Theorem view_due_exact pre p w e n f post :
  (Z.of_nat (length (pre ++ VAdd p w e n f :: post)) + 1 < u64_size)%Z ->
  let ops := pre ++ VAdd p w e n f :: post in
  let outs := snd (view_run ViewRegistry_new ops) in
  added outs = seqZ 1 (Z.of_nat (length (added outs))) /\
  exists id,
    outs !! length pre = Some (Added id) /\
    due_times id ops outs = due_by_period e (u64_saturating_sub n e) (ticks id post) /\
    ((0 < e)%Z -> spaced e (u64_saturating_sub n e) (due_times id ops outs)).
Proof.
  intros Hlen ops outs.
  assert (views_ok ViewRegistry_new) as Hok0 by (split; [done | apply map_Forall_empty]).
  split; [apply (added_seq ops ViewRegistry_new); [cbn; unfold ops; lia | done] |].
  unfold outs, ops in *. rewrite length_app in Hlen. cbn [length] in Hlen.
  destruct (views_ok_run pre ViewRegistry_new ltac:(cbn; lia) Hok0) as [Hok1 Hn1].
  cbn [next_id ViewRegistry_new] in Hn1.
  rewrite view_run_app, view_run_cons. cbn [snd].
  set (r1 := fst (view_run ViewRegistry_new pre)) in *.
  destruct (views_ok_step r1 (VAdd p w e n f) ltac:(lia) Hok1) as [Hok2 Hn2].
  exists (next_id r1). rewrite lookup_app_r by (rewrite length_view_run; lia).
  rewrite length_view_run, Nat.sub_diag. split; [done |].
  rewrite due_times_app by apply length_view_run.
  rewrite (due_times_fresh pre ViewRegistry_new) by (cbn [next_id ViewRegistry_new]; lia || done).
  rewrite due_times_cons. cbn [app].
  assert (next_id r1 < next_id (fst (view_step r1 (VAdd p w e n f))))%Z.
  { cbn. rewrite u64_add_small by lia. lia. }
  assert (Hex : due_times (next_id r1) post (snd (view_run (fst (view_step r1 (VAdd p w e n f))) post))
    = due_by_period e (u64_saturating_sub n e) (ticks (next_id r1) post)).
  { rewrite due_times_exact by (lia || done). cbn. by rewrite lookup_insert_eq. }
  split; [exact Hex |]. intros He.
  change (spaced e (u64_saturating_sub n e)
    (due_times (next_id r1) post (snd (view_run (fst (view_step r1 (VAdd p w e n f))) post)))).
  rewrite Hex. by apply due_by_period_spaced.
Qed.
End views.

Lemma view_due_exact_witness :
  let ops := [VTick 5; VAdd "cpu" 1000 500 1000 ViewFilter_default; VTick 1000; VTick 1400; VTick 1500] in
  due_times 1 ops (snd (view_run (fun m => snd <$> map_to_list m) ViewRegistry_new ops)) = [1000; 1500]%Z.
Proof.
  destruct (view_due_exact (fun m => snd <$> map_to_list m) (fun m => reflexivity _) [VTick 5] "cpu" 1000 500 1000
    ViewFilter_default [VTick 1000; VTick 1400; VTick 1500] ltac:(vm_compute; reflexivity))
    as (_ & id & Hid & Hdue & _).
  vm_compute in Hid. injection Hid as <-. exact Hdue.
Defined.
