(* ===== verification/RustText.v ===== *)
(** * Text and number parsing of Rust's standard library

    What the query parser uses beyond [RustStr]: [split_whitespace], [split], [trim_matches],
    [strip_prefix], ASCII and Unicode case conversion, and [str::parse] of [u32], [usize] and
    [f32]. Parsing a float is exact: the decimal numeral is a ratio of integers, rounded once to
    the nearest even [f32]. *)

From stdpp Require Import prelude strings list.
From Stdlib Require Import ZArith Lia SpecFloat.
From S2P Require Import Prelude RustStr RustOrd Float.

(** ** Splitting and trimming *)

(** [str::split_whitespace]: the maximal runs without white space. [cur] is the run being read,
    reversed; a round consumes at least one byte. *)
Fixpoint split_ws (fuel : nat) (cur s : bytes) : list bytes :=
  match fuel, s with
  | O, _ | _, [] => [reverse cur]
  | S fuel', b :: rest =>
      match strip_any ws_encodings s with
      | Some s' => reverse cur :: split_ws fuel' [] s'
      | None => split_ws fuel' (b :: cur) rest
      end
  end.

Definition split_whitespace (s : string) : list string :=
  map of_bytes (List.filter (fun t => negb (bool_decide (t = []))) (split_ws (length (as_bytes s)) [] (as_bytes s))).

(** [str::split] with a non-empty pattern. *)
Fixpoint split_on (pat : bytes) (fuel : nat) (cur s : bytes) : list bytes :=
  match fuel, s with
  | O, _ | _, [] => [reverse cur]
  | S fuel', b :: rest =>
      match strip_prefix pat s with
      | Some s' => reverse cur :: split_on pat fuel' [] s'
      | None => split_on pat fuel' (b :: cur) rest
      end
  end.

Definition split (pat s : string) : list string :=
  map of_bytes (split_on (as_bytes pat) (length (as_bytes s)) [] (as_bytes s)).

(** [str::split] with a predicate on ASCII characters. *)
Fixpoint split_pred (p : Byte.byte -> bool) (cur s : bytes) : list bytes :=
  match s with
  | [] => [reverse cur]
  | b :: rest => if p b then reverse cur :: split_pred p [] rest else split_pred p (b :: cur) rest
  end.

(** [slice::join]. *)
(** [str::split_once]: before and after the first occurrence of the pattern. *)
Fixpoint split_bytes (pat s : bytes) : option (bytes * bytes) :=
  match strip_prefix pat s with
  | Some rest => Some ([], rest)
  | None =>
      match s with
      | [] => None
      | b :: s' =>
          match split_bytes pat s' with
          | Some (before, after) => Some (b :: before, after)
          | None => None
          end
      end
  end.
Definition split_once (pat s : string) : option (string * string) :=
  match split_bytes (as_bytes pat) (as_bytes s) with
  | Some (before, after) => Some (of_bytes before, of_bytes after)
  | None => None
  end.

Definition join (sep : string) (l : list string) : string := String.concat sep l.

Fixpoint skip_while (p : Byte.byte -> bool) (s : bytes) : bytes :=
  match s with
  | b :: rest => if p b then skip_while p rest else s
  | [] => []
  end.

(** [str::trim_matches] with a predicate on ASCII characters. *)
Definition trim_matches (p : Byte.byte -> bool) (s : string) : string :=
  of_bytes (reverse (skip_while p (reverse (skip_while p (as_bytes s))))).

Definition strip_prefix_str (p s : string) : option string :=
  of_bytes <$> strip_prefix (as_bytes p) (as_bytes s).

(** ** Case *)
Definition shift_byte (lo hi : N) (f : N -> N) (b : Byte.byte) : Byte.byte :=
  if in_range lo hi b then default b (Byte.of_N (f (Byte.to_N b))) else b.
Definition ascii_upper_byte : Byte.byte -> Byte.byte := shift_byte 97 122 (fun n => n - 32)%N.
Definition ascii_lower_byte : Byte.byte -> Byte.byte := shift_byte 65 90 (fun n => n + 32)%N.
Definition ascii_upper (s : string) : string := of_bytes (map ascii_upper_byte (as_bytes s)).
Definition ascii_lower (s : string) : string := of_bytes (map ascii_lower_byte (as_bytes s)).
Definition eq_ignore_ascii_case (s t : string) : bool :=
  bool_decide (ascii_lower s = ascii_lower t).

(** [str::contains] *)
Fixpoint contains_bytes (p s : bytes) : bool :=
  match strip_prefix p s, s with
  | Some _, _ => true
  | None, [] => false
  | None, _ :: s' => contains_bytes p s'
  end.
Definition contains (s needle : string) : bool := contains_bytes (as_bytes needle) (as_bytes s).

Definition is_ascii (s : string) : bool := forallb (in_range 0 127) (as_bytes s).

(** [str::to_uppercase] and [str::to_lowercase] follow the Unicode tables. Upper-casing maps
    character by character, an ASCII character to its ASCII upper case; lower-casing an ASCII
    string is ASCII lower-casing. *)
Class UnicodeCase : Type := {
  to_uppercase : string -> string;
  to_lowercase : string -> string;
  upper_nil : to_uppercase "" = "";
  upper_ascii_app : forall s t, is_ascii s = true ->
    to_uppercase (s +:+ t) = ascii_upper s +:+ to_uppercase t;
  lower_ascii : forall s, is_ascii s = true -> to_lowercase s = ascii_lower s
}.

(** ** Numbers *)

(** [str::parse::<u32>] and [str::parse::<usize>] on a 64-bit target. *)
Definition parse_u32 (s : string) : option Z :=
  match parse_u64 (as_bytes s) with
  | Some v => if (v <? u32_size)%Z then Some v else None
  | None => None
  end.
Definition parse_usize (s : string) : option Z := parse_u64 (as_bytes s).

(** A run of digits: its value, its length and what follows. *)
Fixpoint digits_run (acc count : Z) (s : bytes) : Z * Z * bytes :=
  match s with
  | b :: rest =>
      if in_range 48 57 b
      then digits_run (acc * 10 + (Z.of_N (Byte.to_N b) - 48)) (count + 1) rest
      else (acc, count, s)
  | [] => (acc, count, [])
  end.

(** A leading [-] or [+]. *)
Definition sign_of (s : bytes) : bool * bytes :=
  match s with
  | Byte.x2d :: rest => (true, rest)
  | Byte.x2b :: rest => (false, rest)
  | _ => (false, s)
  end.

(** The optional exponent that ends a number. *)
Definition parse_exponent (s : bytes) : option Z :=
  match s with
  | [] => Some 0%Z
  | c :: rest =>
      if decide (c = Byte.x65 \/ c = Byte.x45) then
        let '(neg, rest) := sign_of rest in
        let '(v, n, rest) := digits_run 0 0 rest in
        if (n =? 0)%Z then None
        else if decide (rest = []) then Some (if neg then - v else v)%Z else None
      else None
  end.

(** [digits [. digits] [e digits]] with at least one digit around the point: all its digits as an
    integer and the power of ten that scales it. *)
Definition parse_number (s : bytes) : option (Z * Z) :=
  let '(v, n, rest) := digits_run 0 0 s in
  let '(v, frac, rest) :=
    match rest with
    | Byte.x2e :: rest' => digits_run v 0 rest'
    | _ => (v, 0%Z, rest)
    end in
  if (n + frac =? 0)%Z then None
  else
    match parse_exponent rest with
    | Some e => Some (v, e - frac)%Z
    | None => None
    end.

(** [v * 10 ^ e], rounded once. *)
Definition decimal (prec emax : Z) (neg : bool) (v e : Z) : spec_float :=
  match v with
  | Z.pos m =>
      if (0 <=? e)%Z then binary_round prec emax neg (Z.to_pos (v * 10 ^ e)) 0
      else
        let '(q, e', l) := SFdiv_core_binary prec emax v 0 (10 ^ (- e)) 0 in
        binary_round_aux prec emax neg q e' l
  | _ => S754_zero neg
  end.

Definition parse_float (prec emax : Z) (s : string) : option spec_float :=
  let '(neg, rest) := sign_of (as_bytes s) in
  match parse_number rest with
  | Some (v, e) => Some (decimal prec emax neg v e)
  | None =>
      let word := ascii_lower (of_bytes rest) in
      if decide (word = "inf" \/ word = "infinity") then Some (S754_infinity neg)
      else if decide (word = "nan") then Some S754_nan
      else None
  end.

Definition parse_f32 : string -> option f32 := parse_float 24 128.

Example parse_f32_examples :
  parse_f32 "0.7" = Some (f32_lit 7 10) /\ parse_f32 "-.5E+1" = Some (f32_lit (-5) 1)
  /\ parse_f32 "1e40" = Some (S754_infinity false) /\ parse_f32 "+NaN" = Some S754_nan
  /\ parse_f32 "." = None /\ parse_f32 "1e" = None /\ parse_f32 "0x1" = None
  /\ parse_f32 "16777217" = Some (f32_lit 16777216 1).
Proof. vm_compute. repeat split. Qed.

Example split_examples :
  split_whitespace "  a  bc " = ["a"; "bc"] /\ split "->" "a->b" = ["a"; "b"]
  /\ split "," "" = [""] /\ trim_matches (fun b => bool_decide (b = Byte.x22)) "" = "".
Proof. vm_compute. repeat split. Qed.

(** ** Lemmas on text *)
Lemma as_bytes_app s t : as_bytes (s +:+ t) = as_bytes s ++ as_bytes t.
Proof.
  induction s as [|c s IH]; [done |].
  change (as_bytes (String c s +:+ t)) with (Ascii.byte_of_ascii c :: as_bytes (s +:+ t)).
  by rewrite IH.
Qed.

Lemma of_bytes_nil b : of_bytes b = "" <-> b = [].
Proof. destruct b; split; intros; (reflexivity || discriminate). Qed.

Lemma string_app_nil_r s : s +:+ "" = s.
Proof. induction s as [|c s IH]; [done |]. change (String c (s +:+ "") = String c s). by rewrite IH. Qed.

Lemma strip_prefix_str_some p s r : strip_prefix_str p s = Some r <-> s = p +:+ r.
Proof.
  unfold strip_prefix_str. rewrite fmap_Some. split.
  - intros (b & E%strip_prefix_some & ->). apply as_bytes_inj. by rewrite as_bytes_app, as_of_bytes.
  - intros ->. exists (as_bytes r). split; [| by rewrite of_as_bytes].
    apply strip_prefix_some, as_bytes_app.
Qed.

Lemma upper_ascii `{UnicodeCase} s : is_ascii s = true -> to_uppercase s = ascii_upper s.
Proof.
  intros Ha. pose proof (upper_ascii_app s "" Ha) as E.
  by rewrite upper_nil, !string_app_nil_r in E.
Qed.

(** *** Decimal integers *)
Lemma parse_digits_range acc s v : is_u64 acc -> parse_digits acc s = Some v -> is_u64 v.
Proof.
  revert acc. induction s as [|b s IH]; intros acc Hacc E; cbn in E; [by simplify_eq |].
  destruct (in_range 48 57 b) eqn:Hb; [| done].
  destruct (Z.ltb_spec (acc * 10 + (Z.of_N (Byte.to_N b) - 48)) u64_size); [| done].
  eapply IH; [| exact E]. unfold is_u64 in *.
  unfold in_range in Hb. apply andb_true_iff in Hb as [Hb _]. apply N.leb_le in Hb. lia.
Qed.

Lemma parse_u64_range s v : parse_u64 s = Some v -> is_u64 v.
Proof.
  unfold parse_u64. intros E.
  assert (forall t, parse_digits 0 t = Some v -> is_u64 v) as Hd.
  { intros t. by apply parse_digits_range. }
  destruct s as [|b s]; [done |]. destruct b; try (by apply Hd in E).
  destruct s; [done | by apply Hd in E].
Qed.

Lemma parse_u32_range s v : parse_u32 s = Some v -> is_u32 v.
Proof.
  unfold parse_u32. destruct (parse_u64 (as_bytes s)) as [w|] eqn:E; [| done].
  apply parse_u64_range in E. destruct (Z.ltb_spec w u32_size); [| done].
  intros [= ->]. unfold is_u32, is_u64 in *. lia.
Qed.

Lemma parse_fmt_u64 n : is_u64 n -> parse_u64 (fmt_u64 n) = Some n.
Proof.
  intros Hn. unfold is_u64 in Hn. assert (Forall is_digit (fmt_u64 n)) by (apply dec_digits_digits; [lia | done]).
  rewrite parse_u64_digits; [| by apply dec_digits_nonempty; lia | done].
  unfold fmt_u64. rewrite parse_dec_digits; [done | | lia | lia].
  split; [lia |]. unfold u64_size in Hn. change (Z.of_nat 20) with 20%Z. lia.
Qed.

(** *** Tokens

    A run without white space, and one that [split_whitespace] can return. *)
Definition ws_free (b : bytes) : Prop := forall u v, b = u ++ v -> strip_any ws_encodings v = None.
Definition token_bytes (b : bytes) : Prop := b <> [] /\ ws_free b.
Definition is_token (s : string) : Prop := token_bytes (as_bytes s).

Lemma ws_free_tail x b : ws_free (x :: b) -> ws_free b.
Proof. intros Hb u v ->. by apply (Hb (x :: u)). Qed.

Lemma ws_free_app_l a b : ws_free (a ++ b) -> ws_free a.
Proof.
  intros Hb u v ->. apply (strip_any_prefix _ v b). apply (Hb u). by rewrite app_assoc.
Qed.

Lemma ws_no_space : Forall (fun p => Byte.x20 ∉ drop 1 p) ws_encodings.
Proof. apply (bool_decide_unpack _). vm_compute. exact I. Qed.

(** White space cannot start inside a token that is followed by a space. *)
Lemma strip_any_token u r :
  u <> [] -> strip_any ws_encodings u = None -> strip_any ws_encodings (u ++ Byte.x20 :: r) = None.
Proof.
  intros Hu Hn. rewrite strip_any_none, Forall_forall in *. intros p Hp.
  destruct (strip_prefix p (u ++ Byte.x20 :: r)) as [q|] eqn:E; [| done].
  apply strip_prefix_some in E. exfalso. destruct (decide (length p <= length u)).
  - assert (strip_prefix p u = Some (drop (length p) u)) as Hs; [| rewrite Hn in Hs; done].
    apply strip_prefix_some. apply (f_equal (take (length p))) in E.
    rewrite take_app_le, take_app_length in E by lia. rewrite <- E at 1. by rewrite take_drop.
  - pose proof ws_no_space as Hns. rewrite Forall_forall in Hns. apply (Hns p Hp).
    apply (f_equal (take (length p))) in E. rewrite take_app_length, take_app_ge in E by lia.
    rewrite <- E. destruct (length p - length u) eqn:El; [lia |].
    destruct u; [done |]. cbn. set_solver.
Qed.

Lemma split_ws_token t : forall fuel cur r,
  ws_free t -> length t <= fuel ->
  split_ws fuel cur (t ++ Byte.x20 :: r) = split_ws (fuel - length t) (reverse t ++ cur) (Byte.x20 :: r).
Proof.
  induction t as [|b t IH]; intros fuel cur r Ht Hf; [cbn; by rewrite Nat.sub_0_r |].
  cbn [length] in Hf. destruct fuel as [|fuel]; [lia |]. cbn [app split_ws].
  assert (strip_any ws_encodings (b :: t ++ Byte.x20 :: r) = None) as ->
    by (apply (strip_any_token (b :: t)); [done | by apply (Ht [])]).
  rewrite IH by (lia || by apply ws_free_tail in Ht). cbn [length Nat.sub].
  by rewrite reverse_cons, <- app_assoc.
Qed.

Lemma split_ws_end t : forall fuel cur,
  ws_free t -> length t <= fuel -> split_ws fuel cur t = [reverse cur ++ t].
Proof.
  induction t as [|b t IH]; intros fuel cur Ht Hf; [destruct fuel; cbn; by rewrite app_nil_r |].
  cbn [length] in Hf. destruct fuel as [|fuel]; [lia |]. cbn [split_ws].
  rewrite (Ht [] (b :: t)) by done. rewrite IH by (lia || by apply ws_free_tail in Ht).
  by rewrite reverse_cons, <- app_assoc.
Qed.

Lemma as_bytes_join_cons t ts : ts <> [] ->
  as_bytes (join " " (t :: ts)) = as_bytes t ++ Byte.x20 :: as_bytes (join " " ts).
Proof. intros Hts. destruct ts; [done |]. unfold join. cbn [String.concat]. by rewrite !as_bytes_app. Qed.

Lemma split_ws_join ts : forall fuel,
  Forall is_token ts -> ts <> [] -> length (as_bytes (join " " ts)) <= fuel ->
  split_ws fuel [] (as_bytes (join " " ts)) = map as_bytes ts.
Proof.
  induction ts as [|t ts IH]; intros fuel Hts Hne Hf; [done |].
  apply Forall_cons in Hts as [[Ht0 Ht] Hts]. destruct (decide (ts = [])) as [-> | Hne'].
  - cbn. by rewrite split_ws_end.
  - rewrite as_bytes_join_cons in * by done. rewrite length_app in Hf. cbn [length] in Hf.
    rewrite split_ws_token by (lia || done).
    destruct (fuel - length (as_bytes t)) as [|f] eqn:Ef; [lia |]. cbn [split_ws].
    rewrite app_nil_r, reverse_involutive.
    change (strip_any ws_encodings (Byte.x20 :: as_bytes (join " " ts))) with (Some (as_bytes (join " " ts))).
    cbn [map]. rewrite IH by (done || lia). done.
Qed.

(** Splitting a line of tokens. *)
Lemma split_whitespace_join ts : Forall is_token ts -> ts <> [] -> split_whitespace (join " " ts) = ts.
Proof.
  intros Hts Hne. unfold split_whitespace. rewrite split_ws_join by done.
  clear Hne. induction Hts as [|t ts [Ht _] _ IH]; [done |]. cbn.
  rewrite bool_decide_false by done. cbn. by rewrite of_as_bytes, IH.
Qed.

(** *** Trimming a line of tokens *)
Lemma ws_only_space : Forall (fun p => head p = Some Byte.x20 -> p = [Byte.x20]) ws_encodings.
Proof. apply (bool_decide_unpack _). vm_compute. exact I. Qed.

Lemma strip_any_self p : p ∈ ws_encodings -> strip_any ws_encodings p <> None.
Proof.
  rewrite strip_any_none, Forall_forall. intros Hp Hn. specialize (Hn p Hp).
  assert (strip_prefix p p = Some []) by (apply strip_prefix_some; by rewrite app_nil_r). congruence.
Qed.

(** No white space ends a text whose last word is a token. *)
Lemma strip_any_rev_token a l :
  a = [] \/ (exists a', a = a' ++ [Byte.x20]) -> token_bytes l ->
  strip_any (map reverse ws_encodings) (reverse (a ++ l)) = None.
Proof.
  intros Ha [Hl Hfree]. rewrite strip_any_none, Forall_forall. intros p' Hp'.
  apply list_elem_of_fmap in Hp' as (p & -> & Hp).
  destruct (strip_prefix (reverse p) (reverse (a ++ l))) as [r|] eqn:E; [| done]. exfalso.
  apply strip_prefix_some, (f_equal reverse) in E.
  rewrite reverse_involutive, reverse_app, reverse_involutive in E.
  set (q := reverse r) in E. destruct (app_eq_inv _ _ _ _ E) as [(k & -> & ->) | (k & -> & ->)].
  - destruct Ha as [[-> ->]%app_nil | (a' & Ha)].
    { by apply (strip_any_self l Hp), (Hfree []). }
    destruct k as [|x k _] using rev_ind.
    { by apply (strip_any_self l Hp), (Hfree []). }
    rewrite app_assoc in Ha. apply app_inj_tail in Ha as [_ ->].
    destruct k as [|y k].
    + pose proof ws_only_space as Hs. rewrite Forall_forall in Hs.
      specialize (Hs _ Hp eq_refl). cbn in Hs. by injection Hs as ->.
    + pose proof ws_no_space as Hs. rewrite Forall_forall in Hs. apply (Hs _ Hp). cbn. set_solver.
  - by apply (strip_any_self p Hp), (Hfree k).
Qed.

Lemma join_last ts : Forall is_token ts -> ts <> [] ->
  exists a l, as_bytes (join " " ts) = a ++ l /\ token_bytes l /\
    (a = [] \/ exists a', a = a' ++ [Byte.x20]).
Proof.
  induction ts as [|t ts IH]; intros Hts Hne; [done |]. apply Forall_cons in Hts as [Ht Hts].
  destruct (decide (ts = [])) as [-> | Hne']; [exists [], (as_bytes t); auto |].
  destruct (IH Hts Hne') as (a & l & E & Hl & Ha). rewrite as_bytes_join_cons, E by done.
  exists (as_bytes t ++ Byte.x20 :: a), l. split; [by rewrite <- app_assoc | split; [done | right]].
  destruct Ha as [-> | (a' & ->)]; [by exists (as_bytes t) |].
  exists (as_bytes t ++ Byte.x20 :: a'). by rewrite <- app_assoc.
Qed.

Lemma join_first ts : Forall is_token ts -> ts <> [] ->
  strip_any ws_encodings (as_bytes (join " " ts)) = None.
Proof.
  destruct ts as [|t ts]; intros Hts Hne; [done |]. apply Forall_cons in Hts as [[Ht0 Ht] Hts].
  destruct (decide (ts = [])) as [-> | Hne']; [by apply (Ht []) |].
  rewrite as_bytes_join_cons by done. apply strip_any_token; [done | by apply (Ht [])].
Qed.

Lemma trim_id s :
  strip_any ws_encodings (as_bytes s) = None ->
  strip_any (map reverse ws_encodings) (reverse (as_bytes s)) = None -> trim s = s.
Proof.
  intros Hf Hl. unfold trim, trim_start, trim_end. rewrite (strip_while_id _ _ _ Hf).
  by rewrite (strip_while_id _ _ _ Hl), reverse_involutive, of_as_bytes.
Qed.

Lemma trim_join ts : Forall is_token ts -> ts <> [] -> trim (join " " ts) = join " " ts.
Proof.
  intros Hts Hne. apply trim_id; [by apply join_first |].
  destruct (join_last ts Hts Hne) as (a & l & -> & Hl & Ha). by apply strip_any_rev_token.
Qed.

(** *** The tokens of a line *)
Lemma ws_free_snoc_ok cur s :
  (forall u v, cur = u ++ v -> strip_any ws_encodings (v ++ s) = None \/ v = []) ->
  ws_free cur.
Proof.
  intros Hc u v E. destruct (Hc u v E) as [Hn | ->]; [by apply strip_any_prefix in Hn | by vm_compute].
Qed.

Lemma split_ws_free fuel : forall cur s,
  length s <= fuel ->
  (forall u v, reverse cur = u ++ v -> strip_any ws_encodings (v ++ s) = None \/ v = []) ->
  Forall ws_free (split_ws fuel cur s).
Proof.
  induction fuel as [|fuel IH]; intros cur s Hf Hc.
  { destruct s; [| cbn in Hf; lia]. repeat constructor. by apply (ws_free_snoc_ok _ []). }
  destruct s as [|b s]; [repeat constructor; by apply (ws_free_snoc_ok _ []) |].
  cbn [split_ws]. destruct (strip_any ws_encodings (b :: s)) as [s'|] eqn:E.
  - constructor; [by apply (ws_free_snoc_ok _ (b :: s)) |]. apply IH.
    + destruct (strip_any_some _ _ _ E) as (p & Hp & Ep). apply (f_equal length) in Ep.
      pose proof ws_nonempty as Hne. rewrite Forall_forall in Hne. specialize (Hne p Hp).
      rewrite length_app in Ep. destruct p; [done |]. cbn in *. lia.
    + intros u v Euv. symmetry in Euv. apply app_nil in Euv as [_ ->]. by right.
  - apply IH; [cbn in Hf; lia |]. intros u v. rewrite reverse_cons. intros Euv.
    destruct v as [|x v _] using rev_ind; [by right |]. left.
    rewrite app_assoc in Euv. apply app_inj_tail in Euv as [Euv ->].
    rewrite <- app_assoc. cbn [app]. by destruct (Hc u v Euv) as [? | ->].
Qed.

(** [split_whitespace] returns tokens. *)
Lemma split_whitespace_tokens s : Forall is_token (split_whitespace s).
Proof.
  apply Forall_forall. intros t Ht. unfold split_whitespace in Ht.
  apply list_elem_of_fmap in Ht as (b & -> & Hb). apply list_elem_of_In, List.filter_In in Hb as [Hb Hne].
  unfold is_token. rewrite as_of_bytes. split.
  - by apply negb_true_iff, bool_decide_eq_false in Hne.
  - eapply Forall_forall; [apply split_ws_free | by apply list_elem_of_In].
    + done.
    + intros u v E. symmetry in E. apply app_nil in E as [_ ->]. by right.
Qed.

Lemma split_ws_cur fuel : forall cur s, cur <> [] -> exists x l, split_ws fuel cur s = x :: l /\ x <> [].
Proof.
  assert (forall cur : bytes, cur <> [] -> reverse cur <> []) as Hrev.
  { intros cur Hc E. by rewrite <- (reverse_involutive cur), E in Hc. }
  induction fuel as [|fuel IH]; intros cur s Hc; [exists (reverse cur), []; auto |].
  destruct s as [|b s]; [exists (reverse cur), []; auto |]. cbn [split_ws].
  destruct (strip_any ws_encodings (b :: s)); [by exists (reverse cur); eauto | by apply IH].
Qed.

(** A trimmed text that is not empty has a token. *)
Lemma split_whitespace_trimmed s : trim s <> "" -> split_whitespace (trim s) <> [].
Proof.
  intros Hne. set (b := as_bytes (trim s)).
  assert (strip_any ws_encodings b = None) as Hb.
  { unfold b, trim, trim_end. rewrite as_of_bytes. set (u := trim_start (as_bytes s)).
    assert (strip_any ws_encodings u = None) as Hu by (apply strip_while_done; [apply ws_nonempty | lia]).
    destruct (strip_while_suffix (length u) (map reverse ws_encodings) (reverse u)) as [q Hq].
    apply (f_equal reverse) in Hq. rewrite reverse_involutive, reverse_app in Hq.
    rewrite Hq in Hu. by apply strip_any_prefix in Hu. }
  unfold split_whitespace. fold b. destruct b as [|x b'] eqn:Eb.
  { exfalso. apply Hne, as_bytes_inj. exact Eb. }
  cbn [length split_ws]. rewrite Hb.
  destruct (split_ws_cur (length b') [x] b' ltac:(done)) as (y & l & -> & Hy). cbn.
  by rewrite bool_decide_false.
Qed.

(** Case conversion of a text without non-ASCII letters. *)
Lemma ascii_upper_app s t : ascii_upper (s +:+ t) = ascii_upper s +:+ ascii_upper t.
Proof.
  apply as_bytes_inj. unfold ascii_upper. rewrite as_bytes_app, as_of_bytes, as_bytes_app, !as_of_bytes.
  apply map_app.
Qed.

(** *** Visible characters and splits *)
Definition graphic (b : Byte.byte) : bool := in_range 33 126 b.

Lemma ws_not_graphic :
  Forall (fun p => match p with [] => False | b :: _ => graphic b = false end) ws_encodings /\
  Forall (fun p => match reverse p with [] => False | b :: _ => graphic b = false end) ws_encodings.
Proof. split; repeat constructor. Qed.

Lemma strip_graphic pats x l :
  Forall (fun p => match p with [] => False | b :: _ => graphic b = false end) pats ->
  graphic x = true -> strip_any pats (x :: l) = None.
Proof.
  rewrite strip_any_none, !Forall_forall. intros Hp Hx p Hin. specialize (Hp p Hin).
  destruct p as [|b p]; [done |]. destruct (strip_prefix (b :: p) (x :: l)) as [r|] eqn:E; [| done].
  apply strip_prefix_some in E. injection E as -> _. congruence.
Qed.

(** A text between two visible characters has no white space around it. *)
Lemma trim_graphic x m y : graphic x = true -> graphic y = true ->
  trim (of_bytes (x :: m ++ [y])) = of_bytes (x :: m ++ [y]).
Proof.
  intros Hx Hy. destruct ws_not_graphic as [H1 H2]. apply trim_id; rewrite as_of_bytes.
  - by apply strip_graphic.
  - rewrite app_comm_cons, reverse_snoc. apply strip_graphic; [| done]. by apply Forall_fmap.
Qed.

Lemma trim_visible s : s <> "" -> forallb graphic (as_bytes s) = true -> trim s = s.
Proof.
  intros Hs Hg. rewrite <- (of_as_bytes s) in *. destruct (as_bytes s) as [|x l] eqn:E; [done |].
  rewrite as_of_bytes in Hg. rewrite forallb_forall in Hg. destruct l as [|y m _] using rev_ind.
  - destruct ws_not_graphic as [H1 H2]. assert (graphic x = true) as Hx by (apply Hg; by left).
    apply trim_id; rewrite as_of_bytes; [by apply strip_graphic |]. apply strip_graphic; [by apply Forall_fmap | done].
  - apply trim_graphic; apply Hg; [by left | right; apply in_or_app; right; by left].
Qed.

Lemma strip_prefix_cat p r : strip_prefix_str p (p +:+ r) = Some r.
Proof. by apply strip_prefix_str_some. Qed.

(** A text is not split before the first occurrence of the first byte of the pattern, *)
Lemma split_bytes_at p pat a b : p ∉ a -> split_bytes (p :: pat) (a ++ (p :: pat) ++ b) = Some (a, b).
Proof.
  induction a as [|c a IH]; intros Ha.
  - cbn [app]. unfold split_bytes.
    assert (strip_prefix (p :: pat) (p :: pat ++ b) = Some b) as -> by by apply strip_prefix_some. done.
  - apply not_elem_of_cons in Ha as [Hc Ha]. cbn [app split_bytes].
    destruct (strip_prefix (p :: pat) (c :: a ++ p :: pat ++ b)) as [r|] eqn:E.
    { apply strip_prefix_some in E. injection E as -> _. done. }
    cbn [app] in IH. by rewrite IH.
Qed.

(** and a pattern of two bytes is found at the first occurrence of the second one. *)
Lemma split_bytes_two x y a b : x <> y -> y ∉ a -> split_bytes [x; y] (a ++ [x; y] ++ b) = Some (a, b).
Proof.
  intros Hxy. induction a as [|c a IH]; intros Ha.
  - cbn [app]. unfold split_bytes.
    assert (strip_prefix [x; y] (x :: y :: b) = Some b) as -> by by apply strip_prefix_some. done.
  - apply not_elem_of_cons in Ha as [Hc Ha]. cbn [app split_bytes].
    destruct (strip_prefix [x; y] (c :: a ++ x :: y :: b)) as [r|] eqn:E.
    { apply strip_prefix_some in E. destruct a as [|d a]; cbn in E; injection E as -> ?; [congruence |].
      subst. set_solver. }
    cbn [app] in IH. by rewrite IH.
Qed.

Lemma split_once_cat pat a b :
  split_bytes (as_bytes pat) (as_bytes a ++ as_bytes pat ++ as_bytes b) = Some (as_bytes a, as_bytes b) ->
  split_once pat (a +:+ pat +:+ b) = Some (a, b).
Proof. intros E. unfold split_once. rewrite !as_bytes_app, E. by rewrite !of_as_bytes. Qed.

Definition ascii_case : UnicodeCase := {|
  to_uppercase := ascii_upper;
  to_lowercase := ascii_lower;
  upper_nil := eq_refl;
  upper_ascii_app := fun s t _ => ascii_upper_app s t;
  lower_ascii := fun s _ => eq_refl
|}.
