(* ===== verification/Lql.v ===== *)
(** * The query language ([liminal-core/src/lql.rs])

    The abstract syntax and [parse_lql] with one function per [parse_*] of the source, every error
    with its message. The tokens are those of [split_whitespace]; an iterator that a parser drains
    is the list of tokens left. JSON arguments go through [serde_json]: what it reads is the
    argument [QueryJson]. *)

From stdpp Require Import prelude gmap strings list.
From Stdlib Require Import ZArith Lia SpecFloat.
From S2P Require Import Prelude RustStr RustOrd Float RustText Views.

Record ReflexCfg : Type := mkReflexCfg {
  win_ms : Z;
  eps : f32;
  pivot_step : f32;
  hysteresis : f32;
  cooldown_ms : Z;
  min_gain : f32
}.

Inductive LqlAst : Type :=
| Select (pattern : string) (window_ms : option Z) (filter : ViewFilter)
| Subscribe (pattern : string) (window_ms every_ms : option Z) (filter : ViewFilter)
| Unsubscribe (id : Z)
| IntrospectModel (top_n : option Z)
| IntrospectInfluence (top_n : option Z)
| IntrospectTension (top_n : option Z)
| IntrospectEpochs (top_n : option Z)
| IntrospectEpoch (id : Z)
| Intend (tokens : list string) (weights : list f32) (horizon_ms : option Z) (budget : option f32)
| Variants (limit : option Z) (min_probability : option f32)
| SlideSet (id : string) (variants : list string) (goals : gmap string f64)
    (ethics_guard : option string)
| Commit (variant_id : string)
| Pivot (from to : string) (reason : option string)
| Defuse (pendulum_id : string) (drain : f32)
| ReflexOn
| ReflexOff
| ReflexStatus
| ReflexTune (cfg : ReflexCfg).

(** [LqlError] is its message. *)
Inductive LqlError : Type := lql_error (message : string).
Abbreviation lql := (result LqlAst LqlError).

(** [serde_json::from_str] at the types the parser asks for; a configuration that does not parse
    comes with the text of its error. *)
Class QueryJson : Type := {
  json_strings : string -> option (list string);
  json_f32s : string -> option (list f32);
  json_goals : string -> option (gmap string f64);
  json_reflex_cfg : string -> result ReflexCfg string
}.

Definition fail {A : Type} (message : string) : result A LqlError := Err (lql_error message).

(** [parse().map_err(|_| LqlError::new(message))?]. *)
Definition parse_or {A : Type} (o : option A) (message : string) : result A LqlError :=
  ok_or o (lql_error message).

(** [(0.0..=1.0).contains(&x)]. *)
Definition in_unit (x : f32) : bool := f_in f_zero f32_one x.
Definition is_quote (b : Byte.byte) : bool := bool_decide (b = Byte.x22 \/ b = Byte.x27).
Definition is_bracket (b : Byte.byte) : bool := bool_decide (b = Byte.x5b \/ b = Byte.x5d).
Definition trim_quotes (input : string) : string := trim_matches is_quote input.

Definition parse_variant_list (raw : string) : list string :=
  omap (fun part =>
          let trimmed := trim_quotes (trim part) in
          if decide (trimmed = "") then None else Some trimmed)
       (split "," (trim_matches is_bracket raw)).

Definition set_min_strength (x : f32) (f : ViewFilter) : ViewFilter :=
  mkViewFilter (Some x) (min_salience f) (adreno f).
Definition set_min_salience (x : f32) (f : ViewFilter) : ViewFilter :=
  mkViewFilter (min_strength f) (Some x) (adreno f).
Definition set_adreno (b : bool) (f : ViewFilter) : ViewFilter :=
  mkViewFilter (min_strength f) (min_salience f) (Some b).

Section lql.
Context `{UnicodeCase} `{QueryJson}.

Definition parse_condition_token (token : string) (filter : ViewFilter)
  : result ViewFilter LqlError :=
  match strip_prefix_str "strength>=" token with
  | Some value =>
      let! strength := parse_or (parse_f32 value) "invalid strength threshold" in
      if in_unit strength then Ok (set_min_strength strength filter)
      else fail "strength must be within 0.0..=1.0"
  | None =>
  match strip_prefix_str "salience>=" token with
  | Some value =>
      let! salience := parse_or (parse_f32 value) "invalid salience threshold" in
      if in_unit salience then Ok (set_min_salience salience filter)
      else fail "salience must be within 0.0..=1.0"
  | None =>
  match strip_prefix_str "adreno=" token with
  | Some value =>
      let lower := to_lowercase value in
      if decide (lower = "true") then Ok (set_adreno true filter)
      else if decide (lower = "false") then Ok (set_adreno false filter)
      else fail "adreno must be true or false"
  | None => fail "unsupported WHERE clause"
  end end end.

(** The loop of [parse_where_conditions] over the tokens left: how many it has consumed, whether a
    condition is expected, and the filter. *)
Fixpoint where_loop (tokens : list string) (consumed : nat) (expect_condition : bool)
    (filter : ViewFilter) : result (nat * bool * ViewFilter) LqlError :=
  match tokens with
  | [] => Ok (consumed, expect_condition, filter)
  | token :: rest =>
      let upper := to_uppercase token in
      if decide (upper = "WINDOW" \/ upper = "EVERY") then Ok (consumed, expect_condition, filter)
      else if negb expect_condition then
        if decide (upper = "AND") then where_loop rest (consumed + 1) true filter
        else fail "expected AND between WHERE clauses"
      else
        let! filter := parse_condition_token token filter in
        where_loop rest (consumed + 1) false filter
  end.

Definition parse_where_conditions (tokens : list string) (filter : ViewFilter)
  : result (nat * ViewFilter) LqlError :=
  if decide (tokens = []) then fail "WHERE requires a condition"
  else
    match where_loop tokens 0 true filter with
    | Err e => Err e
    | Ok (consumed, expect_condition, filter) =>
        if decide (consumed = 0) then fail "WHERE requires a condition"
        else if expect_condition then fail "WHERE requires a condition"
        else Ok (consumed, filter)
    end.

(** The value after [WINDOW] or [EVERY]. *)
Definition parse_millis (keyword : string) (rest : list string)
  : result (Z * list string) LqlError :=
  match rest with
  | [] => fail (keyword +:+ " requires milliseconds value")
  | t :: rest =>
      let! value := parse_or (parse_u32 t) ("invalid " +:+ keyword +:+ " value") in
      if (value =? 0)%Z then fail (keyword +:+ " must be greater than zero")
      else Ok (value, rest)
  end.

(** The loop of [parse_select]; every round consumes a token. *)
Fixpoint select_loop (fuel : nat) (rest : list string) (window_ms : option Z) (filter : ViewFilter)
  : result (option Z * ViewFilter) LqlError :=
  match fuel, rest with
  | _, [] => Ok (window_ms, filter)
  | O, _ => fail ""
  | S fuel, t :: rest =>
      let upper := to_uppercase t in
      if decide (upper = "WHERE") then
        match parse_where_conditions rest filter with
        | Err e => Err e
        | Ok (consumed, filter) => select_loop fuel (drop consumed rest) window_ms filter
        end
      else if decide (upper = "WINDOW") then
        match parse_millis "WINDOW" rest with
        | Err e => Err e
        | Ok (value, rest) => select_loop fuel rest (Some value) filter
        end
      else fail ("unexpected token in SELECT: " +:+ upper)
  end.

Definition parse_select (parts : list string) : lql :=
  match parts with
  | [] => fail "SELECT requires a pattern"
  | pattern :: rest =>
      match select_loop (length rest) rest None ViewFilter_default with
      | Err e => Err e
      | Ok (window_ms, filter) => Ok (Select pattern window_ms filter)
      end
  end.

Fixpoint subscribe_loop (fuel : nat) (rest : list string) (window_ms every_ms : option Z)
    (filter : ViewFilter) : result (option Z * option Z * ViewFilter) LqlError :=
  match fuel, rest with
  | _, [] => Ok (window_ms, every_ms, filter)
  | O, _ => fail ""
  | S fuel, t :: rest =>
      let upper := to_uppercase t in
      if decide (upper = "WHERE") then
        match parse_where_conditions rest filter with
        | Err e => Err e
        | Ok (consumed, filter) => subscribe_loop fuel (drop consumed rest) window_ms every_ms filter
        end
      else if decide (upper = "WINDOW") then
        match parse_millis "WINDOW" rest with
        | Err e => Err e
        | Ok (value, rest) => subscribe_loop fuel rest (Some value) every_ms filter
        end
      else if decide (upper = "EVERY") then
        match parse_millis "EVERY" rest with
        | Err e => Err e
        | Ok (value, rest) => subscribe_loop fuel rest window_ms (Some value) filter
        end
      else fail ("unexpected token in SUBSCRIBE: " +:+ upper)
  end.

Definition parse_subscribe (parts : list string) : lql :=
  match parts with
  | [] => fail "SUBSCRIBE requires a pattern"
  | pattern :: rest =>
      match subscribe_loop (length rest) rest None None ViewFilter_default with
      | Err e => Err e
      | Ok (window_ms, every_ms, filter) => Ok (Subscribe pattern window_ms every_ms filter)
      end
  end.

Definition parse_unsubscribe (parts : list string) : lql :=
  match parts with
  | [] => fail "UNSUBSCRIBE requires an id"
  | _ :: _ :: _ => fail "UNSUBSCRIBE takes exactly one argument"
  | [id_raw] =>
      let! id := parse_or (parse_u64 (as_bytes id_raw)) "invalid view id" in Ok (Unsubscribe id)
  end.

Definition parse_top_clause (tokens : list string) : result (option Z) LqlError :=
  match tokens with
  | [] => Ok None
  | top :: rest =>
      if negb (eq_ignore_ascii_case top "TOP") then fail ("unexpected token in INTROSPECT: " +:+ top)
      else
        match rest with
        | [] => fail "TOP requires a numeric value"
        | _ :: _ :: _ => fail "unexpected tokens after TOP clause"
        | [t] =>
            let! value := parse_or (parse_usize t) "TOP requires a positive integer" in
            if (value =? 0)%Z then fail "TOP must be greater than zero" else Ok (Some value)
        end
  end.

Definition parse_introspect (parts : list string) : lql :=
  match parts with
  | [] => fail "INTROSPECT requires a target"
  | target :: rest =>
      let upper := to_uppercase target in
      if decide (upper = "MODEL") then
        let! top_n := parse_top_clause rest in Ok (IntrospectModel top_n)
      else if decide (upper = "INFLUENCE") then
        let! top_n := parse_top_clause rest in Ok (IntrospectInfluence top_n)
      else if decide (upper = "TENSION") then
        let! top_n := parse_top_clause rest in Ok (IntrospectTension top_n)
      else if decide (upper = "EPOCHS") then
        let! top_n := parse_top_clause rest in Ok (IntrospectEpochs top_n)
      else if decide (upper = "EPOCH") then
        match rest with
        | [] => fail "INTROSPECT EPOCH requires an id"
        | _ :: _ :: _ => fail "INTROSPECT EPOCH takes a single id"
        | [t] =>
            let! id := parse_or (parse_u64 (as_bytes t)) "INTROSPECT EPOCH id must be numeric" in
            Ok (IntrospectEpoch id)
        end
      else fail ("unexpected INTROSPECT target: " +:+ upper)
  end.

Definition parse_string_array (raw : string) : result (list string) LqlError :=
  parse_or (json_strings raw) "expected string array".
Definition parse_float_array (raw : string) : result (list f32) LqlError :=
  parse_or (json_f32s raw) "expected numeric array".

(** The mutable locals of [parse_intend]. *)
Record intend_args : Type := mkIntend {
  ia_tokens : option (list string);
  ia_weights : option (list f32);
  ia_horizon : option Z;
  ia_budget : option f32
}.

(** The loop of [parse_intend], by pairs of a key and its argument. *)
Fixpoint intend_loop (tokens : list string) (a : intend_args) : result intend_args LqlError :=
  match tokens with
  | [] => Ok a
  | key :: tokens =>
      let key := to_uppercase key in
      if decide (key = "TOKENS") then
        match tokens with
        | [] => fail "INTEND TOKENS requires a list"
        | raw :: tokens =>
            let! v := parse_string_array raw in
            intend_loop tokens (mkIntend (Some v) (ia_weights a) (ia_horizon a) (ia_budget a))
        end
      else if decide (key = "WEIGHTS") then
        match tokens with
        | [] => fail "INTEND WEIGHTS requires a list"
        | raw :: tokens =>
            let! v := parse_float_array raw in
            intend_loop tokens (mkIntend (ia_tokens a) (Some v) (ia_horizon a) (ia_budget a))
        end
      else if decide (key = "HORIZON") then
        match tokens with
        | [] => fail "INTEND HORIZON requires milliseconds"
        | raw :: tokens =>
            let! v := parse_or (parse_u64 (as_bytes raw)) "INTEND HORIZON expects a positive integer" in
            intend_loop tokens (mkIntend (ia_tokens a) (ia_weights a) (Some v) (ia_budget a))
        end
      else if decide (key = "BUDGET") then
        match tokens with
        | [] => fail "INTEND BUDGET requires a value"
        | raw :: tokens =>
            let! v := parse_or (parse_f32 raw) "INTEND BUDGET expects a numeric value" in
            intend_loop tokens (mkIntend (ia_tokens a) (ia_weights a) (ia_horizon a) (Some v))
        end
      else fail ("unexpected INTEND token: " +:+ key)
  end.

Definition parse_intend (tokens : list string) : lql :=
  if decide (tokens = []) then fail "INTEND requires arguments"
  else
    let! a := intend_loop tokens (mkIntend None None None None) in
    let! focus_tokens := parse_or (ia_tokens a) "INTEND requires TOKENS" in
    let n := length focus_tokens in
    let weights :=
      match ia_weights a with
      | Some w => w
      | None =>
          if decide (focus_tokens = []) then []
          else replicate n (SFdiv 24 128 f32_one (f32_of_Z (Z.of_nat n)))
      end in
    if decide (length weights <> n) then fail "INTEND TOKENS and WEIGHTS must have the same length"
    else Ok (Intend focus_tokens weights (ia_horizon a) (ia_budget a)).

(** The loop of [VARIANTS SELECT], which skips the tokens it does not know. *)
Fixpoint variants_loop (tokens : list string) (limit : option Z) (min_probability : option f32)
  : result (option Z * option f32) LqlError :=
  match tokens with
  | [] => Ok (limit, min_probability)
  | key :: tokens =>
      let key := to_uppercase key in
      if decide (key = "WHERE") then
        match tokens with
        | [] => fail "VARIANTS WHERE requires a condition like p>=0.5"
        | condition :: tokens =>
            match strip_prefix_str "p>=" condition with
            | Some value =>
                let! parsed := parse_or (parse_f32 value) "VARIANTS WHERE p>= expects a numeric value" in
                variants_loop tokens limit (Some (f32_clamp parsed f_zero f32_one))
            | None => fail ("unsupported VARIANTS WHERE condition: " +:+ condition)
            end
        end
      else if decide (key = "LIMIT") then
        match tokens with
        | [] => fail "VARIANTS LIMIT requires a number"
        | value :: tokens =>
            let! parsed := parse_or (parse_usize value) "VARIANTS LIMIT expects an integer" in
            if (parsed =? 0)%Z then fail "VARIANTS LIMIT must be greater than zero"
            else variants_loop tokens (Some parsed) min_probability
        end
      else variants_loop tokens limit min_probability
  end.

Definition parse_variants (tokens : list string) : lql :=
  match tokens with
  | [] => Ok (Variants None None)
  | directive :: rest =>
      let first := to_uppercase directive in
      if decide (first = "TOP") then
        match rest with
        | [] => fail "VARIANTS TOP requires a number"
        | t :: _ =>
            let! parsed := parse_or (parse_usize t) "VARIANTS TOP expects a positive integer" in
            if (parsed =? 0)%Z then fail "VARIANTS TOP must be greater than zero"
            else Ok (Variants (Some parsed) None)
        end
      else if decide (first = "SELECT") then
        match variants_loop rest None None with
        | Err e => Err e
        | Ok (limit, min_probability) => Ok (Variants limit min_probability)
        end
      else fail ("unexpected VARIANTS directive: " +:+ directive)
  end.

(** The loop of [parse_slide]: the variants, the goals and the guard. *)
Fixpoint slide_loop (tokens : list string) (variant_ids : list string)
    (desired_metrics : gmap string f64) (ethics_guard : option string)
  : result (list string * gmap string f64 * option string) LqlError :=
  match tokens with
  | [] => Ok (variant_ids, desired_metrics, ethics_guard)
  | key :: tokens =>
      let key := to_uppercase key in
      if decide (key = "VARIANTS") then
        match tokens with
        | [] => fail "SLIDE VARIANTS requires a list"
        | raw :: tokens => slide_loop tokens (parse_variant_list raw) desired_metrics ethics_guard
        end
      else if decide (key = "GOALS") then
        match tokens with
        | [] => fail "SLIDE GOALS requires a map"
        | raw :: tokens =>
            let! goals := parse_or (json_goals raw) "SLIDE GOALS expects a JSON object with numeric values" in
            slide_loop tokens variant_ids goals ethics_guard
        end
      else if decide (key = "ETHICS") then
        match tokens with
        | [] => fail "SLIDE ETHICS requires a guard"
        | raw :: tokens => slide_loop tokens variant_ids desired_metrics (Some (trim_quotes raw))
        end
      else fail ("unexpected SLIDE token: " +:+ key)
  end.

Definition parse_slide (tokens : list string) : lql :=
  match tokens with
  | set :: id :: rest =>
      if decide (length rest < 2) then fail "SLIDE SET requires id and variant list"
      else if negb (eq_ignore_ascii_case set "SET") then fail "expected SLIDE SET"
      else
        match slide_loop rest [] ∅ None with
        | Err e => Err e
        | Ok (variant_ids, desired_metrics, ethics_guard) =>
            if decide (variant_ids = []) then fail "SLIDE requires at least one variant"
            else Ok (SlideSet (trim_quotes id) variant_ids desired_metrics ethics_guard)
        end
  | _ => fail "SLIDE SET requires id and variant list"
  end.

Definition parse_commit (tokens : list string) : lql :=
  match tokens with
  | [] => fail "COMMIT requires a variant id"
  | t :: _ => Ok (Commit (trim_quotes t))
  end.

(** [iter().position(|t| t.eq_ignore_ascii_case("REASON"))], with the tokens after it. *)
Fixpoint after_reason (tokens : list string) : option (list string) :=
  match tokens with
  | [] => None
  | t :: rest => if eq_ignore_ascii_case t "REASON" then Some rest else after_reason rest
  end.

Definition parse_pivot (tokens : list string) : lql :=
  match tokens with
  | [] => fail "PIVOT requires arguments"
  | t :: _ =>
      let from_to := trim_quotes t in
      let reason :=
        match after_reason tokens with
        | Some rest =>
            let message := join " " (map trim_quotes rest) in
            if decide (message = "") then None else Some message
        | None => None
        end in
      match split "->" from_to with
      | [from; to] => Ok (Pivot from to reason)
      | _ => fail "PIVOT expects format from->to"
      end
  end.

Definition parse_defuse (tokens : list string) : lql :=
  match tokens with
  | [] => fail "DEFUSE requires a pendulum id"
  | t :: rest =>
      let pendulum_id := trim_quotes t in
      let default := f32_lit 3 10 in
      match rest with
      | key :: value :: _ =>
          let key := to_uppercase key in
          if decide (key = "RATE" \/ key = "DRAIN") then
            let! drain := parse_or (parse_f32 value) "DEFUSE RATE expects a number" in
            Ok (Defuse pendulum_id drain)
          else Ok (Defuse pendulum_id default)
      | _ => Ok (Defuse pendulum_id default)
      end
  end.

Definition parse_reflex (parts : list string) : lql :=
  match parts with
  | [] => fail "REFLEX requires a subcommand"
  | action :: raw =>
      let action := to_uppercase action in
      if decide (action = "ON") then Ok ReflexOn
      else if decide (action = "OFF") then Ok ReflexOff
      else if decide (action = "STATUS") then Ok ReflexStatus
      else if decide (action = "TUNE") then
        if decide (raw = []) then fail "REFLEX TUNE requires a config"
        else
          match json_reflex_cfg (join " " raw) with
          | Ok cfg => Ok (ReflexTune cfg)
          | Err err => fail ("invalid REFLEX config: " +:+ err)
          end
      else fail ("unknown REFLEX subcommand: " +:+ action)
  end.

Definition parse_lql (input : string) : lql :=
  let trimmed := trim input in
  if decide (trimmed = "") then fail "empty LQL query"
  else
    match split_whitespace trimmed with
    | [] => fail "missing LQL command"
    | command :: parts =>
        let command := to_uppercase command in
        if decide (command = "SELECT") then parse_select parts
        else if decide (command = "SUBSCRIBE") then parse_subscribe parts
        else if decide (command = "UNSUBSCRIBE") then parse_unsubscribe parts
        else if decide (command = "INTROSPECT") then parse_introspect parts
        else if decide (command = "INTEND") then parse_intend parts
        else if decide (command = "VARIANTS") then parse_variants parts
        else if decide (command = "SLIDE") then parse_slide parts
        else if decide (command = "COMMIT") then parse_commit parts
        else if decide (command = "PIVOT") then parse_pivot parts
        else if decide (command = "DEFUSE") then parse_defuse parts
        else if decide (command = "REFLEX") then parse_reflex parts
        else fail ("unknown LQL command: " +:+ command)
    end.
End lql.
