(* ===== verification/LqlProps.v ===== *)
(** * Properties of the query parser

    What [parse_lql] returns is well formed; the [WHERE]/[WINDOW]/[EVERY] loops accept exactly the
    clauses of a grammar; printing a query and parsing it gives the query back. *)

From stdpp Require Import prelude gmap strings list.
From Stdlib Require Import ZArith Lia SpecFloat.
From S2P Require Import Prelude RustStr RustOrd Float RustText Views Lql.

(** ** Well-formed queries *)
Definition positive_u32 (o : option Z) : Prop := forall n, o = Some n -> (0 < n < u32_size)%Z.
Definition positive_usize (o : option Z) : Prop := forall n, o = Some n -> (0 < n < u64_size)%Z.

Definition filter_ok (f : ViewFilter) : Prop :=
  (forall x, min_strength f = Some x -> in_unit x = true) /\
  (forall x, min_salience f = Some x -> in_unit x = true).

(** A name the parser has stripped of quotes. *)
Definition unquoted (s : string) : Prop := trim_quotes s = s.

Definition ast_ok (a : LqlAst) : Prop :=
  match a with
  | Select p w f => is_token p /\ positive_u32 w /\ filter_ok f
  | Subscribe p w e f => is_token p /\ positive_u32 w /\ positive_u32 e /\ filter_ok f
  | Unsubscribe id | IntrospectEpoch id => is_u64 id
  | IntrospectModel n | IntrospectInfluence n | IntrospectTension n | IntrospectEpochs n => positive_usize n
  | Intend tokens weights horizon _ =>
      length weights = length tokens /\ (forall h, horizon = Some h -> is_u64 h)
  | Variants limit p =>
      positive_usize limit /\ (forall x, p = Some x -> is_nan x = true \/ in_unit x = true)
  | SlideSet id variants _ guard =>
      unquoted id /\ variants <> [] /\ Forall (fun v => v <> "" /\ unquoted v) variants /\
      (forall g, guard = Some g -> unquoted g)
  | Commit id | Defuse id _ => unquoted id
  | Pivot from to reason => forall r, reason = Some r -> r <> ""
  | ReflexOn | ReflexOff | ReflexStatus | ReflexTune _ => True
  end.

(** [resp P r]: a successful result satisfies [P]. *)
Definition resp {A E : Type} (P : A -> Prop) (r : result A E) : Prop :=
  forall a, r = Ok a -> P a.

Lemma resp_ok {A E} (P : A -> Prop) a : P a -> resp P (@Ok A E a).
Proof. intros Ha b [= ->]. exact Ha. Qed.
Lemma resp_fail {A} (P : A -> Prop) m : resp P (fail m).
Proof. intros a E. discriminate E. Qed.
Lemma resp_err {A E} (P : A -> Prop) (e : E) : resp P (Err e).
Proof. intros a E'. discriminate E'. Qed.
Lemma resp_bind {A B E} (Q : A -> Prop) (P : B -> Prop) (r : result A E) (k : A -> result B E) :
  resp Q r -> (forall a, Q a -> resp P (k a)) -> resp P (rbind r k).
Proof. intros Hr Hk b E'. apply rbind_ok in E' as (a & Ea & Eb). eapply Hk; eauto. Qed.
Lemma resp_match {A B E} (Q : A -> Prop) (P : B -> Prop) (r : result A E) (k : A -> result B E) :
  resp Q r -> (forall a, Q a -> resp P (k a)) ->
  resp P (match r with Err e => Err e | Ok a => k a end).
Proof. intros Hr Hk. destruct r; [by apply Hk, Hr | apply resp_err]. Qed.
Lemma resp_parse {A} (P : A -> Prop) o m : (forall a, o = Some a -> P a) -> resp P (parse_or o m).
Proof. intros Ho a E. destruct o; [by injection E as ->; apply Ho | discriminate E]. Qed.
Lemma resp_decide {A E} (P : A -> Prop) (Q : Prop) `{Decision Q} (x y : result A E) :
  (Q -> resp P x) -> (~ Q -> resp P y) -> resp P (if decide Q then x else y).
Proof. case_decide; auto. Qed.
Lemma resp_if {A E} (P : A -> Prop) (b : bool) (x y : result A E) :
  (b = true -> resp P x) -> (b = false -> resp P y) -> resp P (if b then x else y).
Proof. destruct b; auto. Qed.

Ltac resp_step :=
  match goal with
  | |- resp _ (Ok _) => apply resp_ok
  | |- resp _ (fail _) => apply resp_fail
  | |- resp _ (if decide _ then _ else _) => apply resp_decide; intros ?
  | |- resp _ (if _ then _ else _) => apply resp_if; intros ?
  | |- resp _ (rbind (parse_or ?o _) _) =>
      eapply (resp_bind (fun a => o = Some a)); [apply resp_parse; intros ? ?; eassumption | intros ? ?]
  end.
Ltac resp_auto := repeat resp_step.

Lemma skip_while_idemp p b : skip_while p (skip_while p b) = skip_while p b.
Proof.
  induction b as [|x b IH]; [done |]. cbn. destruct (p x) eqn:E; [done |]. cbn. by rewrite E.
Qed.

Lemma skip_while_head p b x r : skip_while p b = x :: r -> p x = false.
Proof.
  induction b as [|y b IH]; [done |]. cbn. destruct (p y) eqn:E; [done |]. congruence.
Qed.

Lemma skip_while_id p b : (forall x r, b = x :: r -> p x = false) -> skip_while p b = b.
Proof. intros Hb. destruct b as [|x b]; [done |]. cbn. by rewrite (Hb x b). Qed.

Lemma skip_while_suffix p b : exists q, b = q ++ skip_while p b.
Proof.
  induction b as [|x b [q IH]]; [by exists [] |]. cbn. destruct (p x); [| by exists []].
  exists (x :: q). cbn. by f_equal.
Qed.

Lemma trim_matches_idemp p s : trim_matches p (trim_matches p s) = trim_matches p s.
Proof.
  unfold trim_matches. rewrite as_of_bytes. f_equal. set (a := skip_while p (as_bytes s)).
  set (b := skip_while p (reverse a)).
  assert (skip_while p (reverse b) = reverse b) as ->.
  { apply skip_while_id. intros x r E.
    destruct (skip_while_suffix p (reverse a)) as [q Hq]. fold b in Hq.
    apply (f_equal reverse) in Hq. rewrite reverse_involutive, reverse_app, E in Hq.
    by apply (skip_while_head p (as_bytes s) x (r ++ reverse q)). }
  rewrite reverse_involutive. unfold b. by rewrite skip_while_idemp.
Qed.

Lemma unquoted_trim s : unquoted (trim_quotes s).
Proof. apply trim_matches_idemp. Qed.

Lemma parse_variant_list_ok raw : Forall (fun v => v <> "" /\ unquoted v) (parse_variant_list raw).
Proof.
  apply Forall_forall. intros v Hv. apply list_elem_of_omap in Hv as (part & _ & E).
  cbn in E. case_decide; [done |]. injection E as <-. split; [done | apply unquoted_trim].
Qed.

Section wf.
Context `{UnicodeCase} `{QueryJson}.

Lemma condition_ok t f : filter_ok f -> resp filter_ok (parse_condition_token t f).
Proof.
  intros [H1 H2]. unfold parse_condition_token.
  destruct (strip_prefix_str "strength>=" t); [resp_auto; split; cbn; naive_solver |].
  destruct (strip_prefix_str "salience>=" t); [resp_auto; split; cbn; naive_solver |].
  destruct (strip_prefix_str "adreno=" t); resp_auto; split; cbn; naive_solver.
Qed.

Lemma where_loop_ok ts : forall k e f, filter_ok f ->
  resp (fun p => filter_ok (snd p)) (where_loop ts k e f).
Proof.
  induction ts as [|t ts IH]; intros k e f Hf; cbn; resp_auto; [done | done | by apply IH |].
  eapply resp_bind; [by apply condition_ok | intros f' Hf'; by apply IH].
Qed.

Lemma where_conditions_ok ts f : filter_ok f ->
  resp (fun p => filter_ok (snd p)) (parse_where_conditions ts f).
Proof.
  intros Hf. unfold parse_where_conditions. resp_auto.
  eapply resp_match; [by apply where_loop_ok |]. intros [[n e] f'] Hf'. by resp_auto.
Qed.

Lemma millis_ok kw ts : resp (fun p => (0 < fst p < u32_size)%Z) (parse_millis kw ts).
Proof.
  destruct ts as [|t ts]; cbn; resp_auto. cbn.
  match goal with E : parse_u32 _ = Some _ |- _ => apply parse_u32_range in E; unfold is_u32 in E end.
  bool_prop. lia.
Qed.

Lemma positive_u32_some n : (0 < n < u32_size)%Z -> positive_u32 (Some n).
Proof. intros Hn m [= <-]. exact Hn. Qed.

Lemma select_loop_ok fuel : forall ts w f, positive_u32 w -> filter_ok f ->
  resp (fun p => positive_u32 (fst p) /\ filter_ok (snd p)) (select_loop fuel ts w f).
Proof.
  induction fuel as [|fuel IH]; intros [|t ts] w f Hw Hf; cbn [select_loop]; resp_auto; try done.
  - eapply resp_match; [by apply where_conditions_ok | intros [n f'] Hf'; by apply IH].
  - eapply resp_match; [by apply millis_ok |].
    intros [n ts'] Hn. apply IH; [by apply positive_u32_some | done].
Qed.

Lemma subscribe_loop_ok fuel : forall ts w e f, positive_u32 w -> positive_u32 e -> filter_ok f ->
  resp (fun p => positive_u32 (fst (fst p)) /\ positive_u32 (snd (fst p)) /\ filter_ok (snd p))
    (subscribe_loop fuel ts w e f).
Proof.
  induction fuel as [|fuel IH]; intros [|t ts] w e f Hw He Hf; cbn [subscribe_loop]; resp_auto; try done.
  - eapply resp_match; [by apply where_conditions_ok | intros [n f'] Hf'; by apply IH].
  - eapply resp_match; [by apply millis_ok |].
    intros [n ts'] Hn. apply IH; [by apply positive_u32_some | done | done].
  - eapply resp_match; [by apply millis_ok |].
    intros [n ts'] Hn. apply IH; [done | by apply positive_u32_some | done].
Qed.

Lemma positive_usize_parse t n : parse_usize t = Some n -> (n =? 0)%Z = false -> positive_usize (Some n).
Proof.
  intros E%parse_u64_range Hn m [= <-]. unfold is_u64 in E. bool_prop. lia.
Qed.

Lemma top_ok ts : resp positive_usize (parse_top_clause ts).
Proof.
  destruct ts as [|t [|v [|]]]; cbn; resp_auto; [done |]. by eapply positive_usize_parse.
Qed.

Lemma intend_loop_ok n : forall ts a, length ts <= n ->
  (forall h, ia_horizon a = Some h -> is_u64 h) ->
  resp (fun a' => forall h, ia_horizon a' = Some h -> is_u64 h) (intend_loop ts a).
Proof.
  induction n as [|n IH]; intros [|k [|v ts]] a Hn Ha; cbn in Hn; try lia; cbn [intend_loop];
    unfold parse_string_array, parse_float_array; resp_auto; try (apply IH; [lia | exact Ha]); try done.
  apply IH; [lia |]. cbn. intros h [= <-]. by eapply parse_u64_range.
Qed.

Lemma variants_loop_ok n : forall ts l p, length ts <= n ->
  positive_usize l -> (forall x, p = Some x -> is_nan x = true \/ in_unit x = true) ->
  resp (fun r => positive_usize (fst r) /\
                 forall x, snd r = Some x -> is_nan x = true \/ in_unit x = true)
    (variants_loop ts l p).
Proof.
  induction n as [|n IH]; intros [|k ts] l p Hn Hl Hp; cbn in Hn; try lia; cbn [variants_loop];
    resp_auto; try done; [destruct ts as [|v ts]; cbn in Hn; resp_auto .. | by apply IH; [lia | |]].
  - destruct (strip_prefix_str "p>=" v); resp_auto. apply IH; [lia | done |].
    intros x [= <-]. by apply f32_clamp_ok.
  - apply IH; [lia | by eapply positive_usize_parse | done].
Qed.

Lemma slide_loop_ok n : forall ts v g e, length ts <= n ->
  Forall (fun v => v <> "" /\ unquoted v) v -> (forall x, e = Some x -> unquoted x) ->
  resp (fun r => Forall (fun v => v <> "" /\ unquoted v) (fst (fst r)) /\
                 forall x, snd r = Some x -> unquoted x)
    (slide_loop ts v g e).
Proof.
  induction n as [|n IH]; intros [|k [|x ts]] v g e Hn Hv He; cbn in Hn; try lia; cbn [slide_loop];
    resp_auto; try done; (apply IH; [lia | done || apply parse_variant_list_ok | done || idtac]).
  intros y [= <-]. apply unquoted_trim.
Qed.

(** C17: every query that parses is well formed: patterns are single words, windows and periods are
    positive 32-bit numbers, thresholds lie in the unit interval, [TOP] and [LIMIT] are positive,
    weights pair up with tokens, a slide has a variant and no name keeps its quotes; the only
    number that can escape its range is a NaN probability. *)
Theorem lql_well_formed input a : parse_lql input = Ok a -> ast_ok a.
Proof.
  revert a. change (resp ast_ok (parse_lql input)). unfold parse_lql. resp_auto.
  pose proof (split_whitespace_tokens (trim input)) as Htok.
  destruct (split_whitespace (trim input)) as [|c parts]; [apply resp_fail |].
  apply Forall_cons in Htok as [_ Htok]. resp_auto.
  - destruct parts as [|p rest]; [apply resp_fail |]. apply Forall_cons in Htok as [Hp _].
    eapply resp_match; [by apply select_loop_ok |]. intros [w f] [? ?]. by resp_auto.
  - destruct parts as [|p rest]; [apply resp_fail |]. apply Forall_cons in Htok as [Hp _].
    eapply resp_match; [by apply subscribe_loop_ok |]. intros [[w e] f] (? & ? & ?). by resp_auto.
  - destruct parts as [|t [|]]; cbn; resp_auto. by eapply parse_u64_range.
  - destruct parts as [|t rest]; cbn; resp_auto;
      try (eapply resp_bind; [apply top_ok | intros n Hn; by resp_auto]).
    destruct rest as [|v [|]]; resp_auto. by eapply parse_u64_range.
  - unfold parse_intend. resp_auto. eapply resp_bind; [by eapply intend_loop_ok |].
    intros x Hx. resp_auto. split; [| done]. by apply dec_stable.
  - destruct parts as [|t [|v rest]]; cbn [parse_variants]; resp_auto; try done;
      try (split; [by eapply positive_usize_parse | done]);
      (eapply resp_match; [by eapply variants_loop_ok | intros [l p] [? ?]; by resp_auto]).
  - destruct parts as [|s [|id rest]]; cbn [parse_slide]; resp_auto.
    eapply resp_match; [by eapply slide_loop_ok |]. intros [[v g] e] [? ?]. resp_auto.
    split_and!; [apply unquoted_trim | done | done | done].
  - destruct parts; cbn; resp_auto. apply unquoted_trim.
  - destruct parts as [|t rest]; cbn [parse_pivot]; [apply resp_fail |].
    destruct (split "->" (trim_quotes t)) as [|x [|y [|]]]; try apply resp_fail. resp_auto.
    intros r. destruct (after_reason (t :: rest)); [| done]. case_decide; [done |]. by intros [= <-].
  - destruct parts as [|t [|k [|v rest]]]; cbn [parse_defuse]; resp_auto; apply unquoted_trim.
  - destruct parts as [|t rest]; cbn [parse_reflex]; resp_auto; try done.
    destruct (json_reflex_cfg (join " " rest)); by resp_auto.
Qed.
End wf.

(** ** The grammar of the clauses *)
Inductive cond : Type := CStrength (x : f32) | CSalience (x : f32) | CAdreno (b : bool).
Inductive clause : Type := CWhere (cs : list cond) | CWindow (ms : Z) | CEvery (ms : Z).

Definition apply_cond (f : ViewFilter) (c : cond) : ViewFilter :=
  match c with
  | CStrength x => set_min_strength x f
  | CSalience x => set_min_salience x f
  | CAdreno b => set_adreno b f
  end.

(** What the clauses of a query mean: the last value of each setting counts. *)
Fixpoint clause_window (w : option Z) (cl : list clause) : option Z :=
  match cl with
  | [] => w
  | CWindow ms :: cl => clause_window (Some ms) cl
  | _ :: cl => clause_window w cl
  end.
Fixpoint clause_every (e : option Z) (cl : list clause) : option Z :=
  match cl with
  | [] => e
  | CEvery ms :: cl => clause_every (Some ms) cl
  | _ :: cl => clause_every e cl
  end.
Fixpoint clause_filter (f : ViewFilter) (cl : list clause) : ViewFilter :=
  match cl with
  | [] => f
  | CWhere cs :: cl => clause_filter (fold_left apply_cond cs f) cl
  | _ :: cl => clause_filter f cl
  end.

Section grammar.
Context `{UnicodeCase}.

Inductive cond_text : string -> cond -> Prop :=
| ct_strength v x : parse_f32 v = Some x -> in_unit x = true -> cond_text ("strength>=" +:+ v) (CStrength x)
| ct_salience v x : parse_f32 v = Some x -> in_unit x = true -> cond_text ("salience>=" +:+ v) (CSalience x)
| ct_true v : to_lowercase v = "true" -> cond_text ("adreno=" +:+ v) (CAdreno true)
| ct_false v : to_lowercase v = "false" -> cond_text ("adreno=" +:+ v) (CAdreno false).

(** Conditions joined by [AND]. *)
Inductive where_text : list string -> list cond -> Prop :=
| wt_one t c : cond_text t c -> where_text [t] [c]
| wt_and t c a ts cs :
    cond_text t c -> to_uppercase a = "AND" -> where_text ts cs -> where_text (t :: a :: ts) (c :: cs).

Definition keyword (t : string) : Prop := to_uppercase t = "WINDOW" \/ to_uppercase t = "EVERY".
Definition where_ends (ts : list string) : Prop :=
  match ts with [] => True | t :: _ => keyword t end.

Definition millis_text (t : string) (ms : Z) : Prop := parse_u32 t = Some ms /\ ms <> 0%Z.

(** The clauses of a [SUBSCRIBE], or of a [SELECT] when [every] is [false]; a [WHERE] clause
    extends to the next [WINDOW] or [EVERY]. *)
Inductive clauses_text (every : bool) : list string -> list clause -> Prop :=
| clt_nil : clauses_text every [] []
| clt_where k ts cs rest cl :
    to_uppercase k = "WHERE" -> where_text ts cs -> where_ends rest ->
    clauses_text every rest cl -> clauses_text every (k :: ts ++ rest) (CWhere cs :: cl)
| clt_window k t ms rest cl :
    to_uppercase k = "WINDOW" -> millis_text t ms ->
    clauses_text every rest cl -> clauses_text every (k :: t :: rest) (CWindow ms :: cl)
| clt_every k t ms rest cl :
    every = true -> to_uppercase k = "EVERY" -> millis_text t ms ->
    clauses_text every rest cl -> clauses_text every (k :: t :: rest) (CEvery ms :: cl).

Lemma parse_or_ok {A} (o : option A) m a : parse_or o m = Ok a <-> o = Some a.
Proof. unfold parse_or. destruct o; cbn; naive_solver. Qed.

Lemma cond_parse t c f : cond_text t c -> parse_condition_token t f = Ok (apply_cond f c).
Proof.
  assert (forall v, strip_prefix_str "strength>=" ("strength>=" +:+ v) = Some v) as S1
    by (intros v; by apply strip_prefix_str_some).
  assert (forall v, strip_prefix_str "salience>=" ("salience>=" +:+ v) = Some v) as S2
    by (intros v; by apply strip_prefix_str_some).
  assert (forall v, strip_prefix_str "adreno=" ("adreno=" +:+ v) = Some v) as S3
    by (intros v; by apply strip_prefix_str_some).
  intros [v x Hx Hu | v x Hx Hu | v Hv | v Hv]; unfold parse_condition_token.
  - by rewrite S1, Hx; cbn; rewrite Hu.
  - change (strip_prefix_str "strength>=" ("salience>=" +:+ v)) with (@None string).
    by rewrite S2, Hx; cbn; rewrite Hu.
  - change (strip_prefix_str "strength>=" ("adreno=" +:+ v)) with (@None string).
    change (strip_prefix_str "salience>=" ("adreno=" +:+ v)) with (@None string).
    by rewrite S3, Hv, decide_True.
  - change (strip_prefix_str "strength>=" ("adreno=" +:+ v)) with (@None string).
    change (strip_prefix_str "salience>=" ("adreno=" +:+ v)) with (@None string).
    by rewrite S3, Hv, decide_False, decide_True.
Qed.

Lemma parse_cond t f f' : parse_condition_token t f = Ok f' ->
  exists c, cond_text t c /\ f' = apply_cond f c.
Proof.
  unfold parse_condition_token.
  destruct (strip_prefix_str "strength>=" t) as [v|] eqn:E1; intros E.
  { apply strip_prefix_str_some in E1 as ->. apply rbind_ok in E as (x & Ex%parse_or_ok & E). unfold fail in E. rinv E. simplify_eq.
    eexists; split; [by apply ct_strength | done]. }
  destruct (strip_prefix_str "salience>=" t) as [v|] eqn:E2.
  { apply strip_prefix_str_some in E2 as ->. apply rbind_ok in E as (x & Ex%parse_or_ok & E). unfold fail in E. rinv E. simplify_eq.
    eexists; split; [by apply ct_salience | done]. }
  destruct (strip_prefix_str "adreno=" t) as [v|] eqn:E3; [| done].
  apply strip_prefix_str_some in E3 as ->. repeat case_decide; simplify_eq/=.
  - eexists; split; [by apply ct_true | done].
  - eexists; split; [by apply ct_false | done].
Qed.

(** A condition is not one of the keywords that end a [WHERE] clause. *)
Lemma cond_not_keyword t c : cond_text t c -> ~ (to_uppercase t = "WINDOW" \/ to_uppercase t = "EVERY").
Proof.
  intros [v x _ _ | v x _ _ | v _ | v _]; rewrite upper_ascii_app by done; intros [E | E]; discriminate E.
Qed.

Lemma and_not_keyword a : to_uppercase a = "AND" -> ~ (to_uppercase a = "WINDOW" \/ to_uppercase a = "EVERY").
Proof. intros -> [E | E]; discriminate E. Qed.

Lemma where_loop_ends rest k f : where_ends rest -> where_loop rest k false f = Ok (k, false, f).
Proof. destruct rest as [|t rest]; [done |]. intros Ht. cbn. by rewrite decide_True. Qed.

Lemma where_loop_text ts cs rest : where_text ts cs -> where_ends rest -> forall k f,
  where_loop (ts ++ rest) k true f = Ok (k + length ts, false, fold_left apply_cond cs f).
Proof.
  intros Hw Hr. induction Hw as [t c Ht | t c a ts cs Ht Ha Hw IH]; intros k f; cbn [app where_loop negb].
  - rewrite decide_False by by eapply cond_not_keyword. rewrite (cond_parse t c f Ht).
    cbn [rbind]. by rewrite where_loop_ends.
  - rewrite decide_False by by eapply cond_not_keyword. rewrite (cond_parse t c f Ht). cbn [rbind].
    rewrite decide_False by by apply and_not_keyword. rewrite decide_True by done.
    rewrite IH. cbn [length fold_left]. do 3 f_equal. lia.
Qed.

Lemma where_text_loop n : forall ts k f k' f', length ts <= n ->
  where_loop ts k true f = Ok (k', false, f') ->
  exists ts1 rest cs, ts = ts1 ++ rest /\ where_text ts1 cs /\ where_ends rest /\
    k' = k + length ts1 /\ f' = fold_left apply_cond cs f.
Proof.
  induction n as [|n IH]; intros [|t ts] k f k' f' Hn E; cbn in Hn; try lia; try done.
  cbn [where_loop negb] in E. case_decide as Ek; [done |].
  destruct (parse_condition_token t f) as [f1|] eqn:Ec; cbn [rbind] in E; [| done].
  apply parse_cond in Ec as (c & Hc & ->). destruct ts as [|a ts]; cbn [where_loop negb] in E.
  - simplify_eq. exists [t], [], [c]. split_and!; try done. by constructor.
  - case_decide as Ea.
    { simplify_eq. exists [t], (a :: ts), [c]. split_and!; try done. by constructor. }
    case_decide as Eand; [| done]. cbn in Hn.
    apply IH in E as (ts1 & rest & cs & -> & Hw & Hr & -> & ->); [| lia].
    exists (t :: a :: ts1), rest, (c :: cs). split_and!; try done.
    + by constructor.
    + cbn. lia.
Qed.

Lemma where_text_nonempty ts cs : where_text ts cs -> ts <> [].
Proof. by intros []. Qed.

Lemma where_conditions_exact ts f n f' :
  parse_where_conditions ts f = Ok (n, f') <->
  exists ts1 rest cs, ts = ts1 ++ rest /\ where_text ts1 cs /\ where_ends rest /\
    n = length ts1 /\ f' = fold_left apply_cond cs f.
Proof.
  unfold parse_where_conditions. split.
  - intros E. case_decide; [done |].
    destruct (where_loop ts 0 true f) as [[[k e] f1]|] eqn:El; [| done].
    case_decide; [done |]. destruct e; [done |]. simplify_eq.
    by apply (where_text_loop (length ts)) in El.
  - intros (ts1 & rest & cs & -> & Hw & Hr & -> & ->). pose proof (where_text_nonempty _ _ Hw) as Hne.
    rewrite decide_False by (by intros [? _]%app_nil). rewrite (where_loop_text ts1 cs) by done.
    cbn. by rewrite decide_False by (by intros ?%nil_length_inv).
Qed.

Lemma millis_exact kw ts ms rest :
  parse_millis kw ts = Ok (ms, rest) <-> exists t, ts = t :: rest /\ millis_text t ms.
Proof.
  unfold parse_millis, millis_text. destruct ts as [|t ts]; [naive_solver |]. split.
  - intros E. apply rbind_ok in E as (x & Ex%parse_or_ok & E). unfold fail in E. rinv E. simplify_eq. bool_prop. naive_solver.
  - intros (t' & [= -> ->] & Ht & Hms). rewrite Ht. cbn. by rewrite (proj2 (Z.eqb_neq ms 0)).
Qed.

Lemma clauses_where_loop every ts cl : clauses_text every ts cl -> forall w e f fuel,
  length ts <= fuel ->
  (every = false ->
   select_loop fuel ts w f = Ok (clause_window w cl, clause_filter f cl)) /\
  (every = true ->
   subscribe_loop fuel ts w e f = Ok (clause_window w cl, clause_every e cl, clause_filter f cl)).
Proof.
  induction 1 as [| k ts cs rest cl Hk Hw Hr _ IH | k t ms rest cl Hk Ht _ IH | k t ms rest cl He Hk Ht _ IH];
    intros w e f fuel Hf; [by destruct fuel | | |]; cbn [length] in Hf;
    (destruct fuel as [|fuel]; [lia |]); cbn [select_loop subscribe_loop];
    rewrite Hk; repeat (rewrite decide_False by done); rewrite decide_True by done.
  - rewrite length_app in Hf.
    rewrite (proj2 (where_conditions_exact (ts ++ rest) f (length ts) (fold_left apply_cond cs f)))
      by (exists ts, rest, cs; done).
    rewrite take_drop_app. apply IH. lia.
  - rewrite (proj2 (millis_exact "WINDOW" (t :: rest) ms rest)) by (by exists t). apply IH. lia.
  - split; [by subst |]. intros _.
    rewrite (proj2 (millis_exact "EVERY" (t :: rest) ms rest)) by (by exists t). apply IH; [lia | done].
Qed.

Lemma select_loop_clauses fuel : forall ts w f w' f', length ts <= fuel ->
  select_loop fuel ts w f = Ok (w', f') ->
  exists cl, clauses_text false ts cl /\ w' = clause_window w cl /\ f' = clause_filter f cl.
Proof.
  induction fuel as [|fuel IH]; intros [|t ts] w f w' f' Hf E; cbn in Hf; try lia; cbn [select_loop] in E.
  - simplify_eq. exists []. by repeat constructor.
  - simplify_eq. exists []. by repeat constructor.
  - case_decide as Ek.
    { destruct (parse_where_conditions ts f) as [[n f1]|] eqn:Ew; [| done].
      apply where_conditions_exact in Ew as (ts1 & rest & cs & -> & Hw & Hr & -> & ->).
      rewrite take_drop_app in E. apply IH in E as (cl & Hcl & -> & ->);
        [| rewrite length_app in Hf; lia].
      exists (CWhere cs :: cl). split_and!; [by constructor | done ..]. }
    case_decide as Ek2; [| done].
    destruct (parse_millis "WINDOW" ts) as [[ms rest]|] eqn:Em; [| done].
    apply millis_exact in Em as (v & -> & Hv). apply IH in E as (cl & Hcl & -> & ->); [| cbn in Hf; lia].
    exists (CWindow ms :: cl). split_and!; [by constructor | done ..].
Qed.

Lemma subscribe_loop_clauses fuel : forall ts w e f w' e' f', length ts <= fuel ->
  subscribe_loop fuel ts w e f = Ok (w', e', f') ->
  exists cl, clauses_text true ts cl /\ w' = clause_window w cl /\ e' = clause_every e cl /\
    f' = clause_filter f cl.
Proof.
  induction fuel as [|fuel IH]; intros [|t ts] w e f w' e' f' Hf E; cbn in Hf; try lia; cbn [subscribe_loop] in E.
  - simplify_eq. exists []. by repeat constructor.
  - simplify_eq. exists []. by repeat constructor.
  - case_decide as Ek.
    { destruct (parse_where_conditions ts f) as [[n f1]|] eqn:Ew; [| done].
      apply where_conditions_exact in Ew as (ts1 & rest & cs & -> & Hw & Hr & -> & ->).
      rewrite take_drop_app in E. apply IH in E as (cl & Hcl & -> & -> & ->);
        [| rewrite length_app in Hf; lia].
      exists (CWhere cs :: cl). split_and!; [by constructor | done ..]. }
    case_decide as Ek2.
    { destruct (parse_millis "WINDOW" ts) as [[ms rest]|] eqn:Em; [| done].
      apply millis_exact in Em as (v & -> & Hv).
      apply IH in E as (cl & Hcl & -> & -> & ->); [| cbn in Hf; lia].
      exists (CWindow ms :: cl). split_and!; [by constructor | done ..]. }
    case_decide as Ek3; [| done].
    destruct (parse_millis "EVERY" ts) as [[ms rest]|] eqn:Em; [| done].
    apply millis_exact in Em as (v & -> & Hv).
    apply IH in E as (cl & Hcl & -> & -> & ->); [| cbn in Hf; lia].
    exists (CEvery ms :: cl). split_and!; [by constructor | done ..].
Qed.

(** [SELECT] and [SUBSCRIBE] accept exactly the clauses of their grammar, in any order and
    repetition, and answer with the last window, the last period and the conditions of all [WHERE]
    clauses; [SELECT] has no [EVERY] clause. *)
Theorem lql_clauses_exact parts a :
  (parse_select parts = Ok a <->
   exists p rest cl, parts = p :: rest /\ clauses_text false rest cl /\
     a = Select p (clause_window None cl) (clause_filter ViewFilter_default cl)) /\
  (parse_subscribe parts = Ok a <->
   exists p rest cl, parts = p :: rest /\ clauses_text true rest cl /\
     a = Subscribe p (clause_window None cl) (clause_every None cl) (clause_filter ViewFilter_default cl)).
Proof.
  split; (destruct parts as [|p rest]; [split; [done | by intros (? & ? & ? & ? & _)] |]);
    cbn [parse_select parse_subscribe]; split.
  - destruct (select_loop _ _ _ _) as [[w f]|] eqn:E; [| done]. intros [= <-].
    apply select_loop_clauses in E as (cl & Hcl & -> & ->); [| done]. by exists p, rest, cl.
  - intros (p' & rest' & cl & [= <- <-] & Hcl & ->).
    by rewrite (proj1 (clauses_where_loop _ _ _ Hcl None None _ (length rest) (le_n _)) eq_refl).
  - destruct (subscribe_loop _ _ _ _ _) as [[[w e] f]|] eqn:E; [| done]. intros [= <-].
    apply subscribe_loop_clauses in E as (cl & Hcl & -> & -> & ->); [| done]. by exists p, rest, cl.
  - intros (p' & rest' & cl & [= <- <-] & Hcl & ->).
    by rewrite (proj2 (clauses_where_loop _ _ _ Hcl None None _ (length rest) (le_n _)) eq_refl).
Qed.
End grammar.

(** ** Printing *)
Definition fmt_num (n : Z) : string := of_bytes (fmt_u64 n).

Section print.
(** The text of a threshold. *)
Variable fmt : f32 -> string.

Definition opt_tokens {A} (f : A -> list string) (o : option A) : list string :=
  match o with Some a => f a | None => [] end.

Definition print_conds (f : ViewFilter) : list string :=
  opt_tokens (fun x => ["strength>=" +:+ fmt x]) (min_strength f)
  ++ opt_tokens (fun x => ["salience>=" +:+ fmt x]) (min_salience f)
  ++ opt_tokens (fun b : bool => [if b then "adreno=true" else "adreno=false"]) (adreno f).

Fixpoint print_ands (cs : list string) : list string :=
  match cs with
  | [] => []
  | [c] => [c]
  | c :: rest => c :: "AND" :: print_ands rest
  end.

Definition print_where (f : ViewFilter) : list string :=
  match print_conds f with
  | [] => []
  | cs => "WHERE" :: print_ands cs
  end.

Definition print_top (n : option Z) : list string := opt_tokens (fun n => ["TOP"; fmt_num n]) n.

(** The tokens of a query without JSON arguments. *)
Definition print_lql (a : LqlAst) : option (list string) :=
  match a with
  | Select p w f =>
      Some ("SELECT" :: p :: print_where f ++ opt_tokens (fun n => ["WINDOW"; fmt_num n]) w)
  | Subscribe p w e f =>
      Some ("SUBSCRIBE" :: p :: print_where f ++ opt_tokens (fun n => ["WINDOW"; fmt_num n]) w
            ++ opt_tokens (fun n => ["EVERY"; fmt_num n]) e)
  | Unsubscribe id => Some ["UNSUBSCRIBE"; fmt_num id]
  | IntrospectModel n => Some ("INTROSPECT" :: "MODEL" :: print_top n)
  | IntrospectInfluence n => Some ("INTROSPECT" :: "INFLUENCE" :: print_top n)
  | IntrospectTension n => Some ("INTROSPECT" :: "TENSION" :: print_top n)
  | IntrospectEpochs n => Some ("INTROSPECT" :: "EPOCHS" :: print_top n)
  | IntrospectEpoch id => Some ["INTROSPECT"; "EPOCH"; fmt_num id]
  | Variants l p =>
      Some ("VARIANTS" :: "SELECT" :: opt_tokens (fun x => ["WHERE"; "p>=" +:+ fmt x]) p
            ++ opt_tokens (fun n => ["LIMIT"; fmt_num n]) l)
  | Commit id => Some ["COMMIT"; id]
  | Pivot from to reason =>
      Some ("PIVOT" :: (from +:+ "->" +:+ to)
            :: opt_tokens (fun r => "REASON" :: split_whitespace r) reason)
  | Defuse id drain => Some ["DEFUSE"; id; "RATE"; fmt drain]
  | ReflexOn => Some ["REFLEX"; "ON"]
  | ReflexOff => Some ["REFLEX"; "OFF"]
  | ReflexStatus => Some ["REFLEX"; "STATUS"]
  | Intend _ _ _ _ | SlideSet _ _ _ _ | ReflexTune _ => None
  end.

(** The number is written so that it reads back. *)
Definition fmt_ok (x : f32) : Prop := is_token (fmt x) /\ parse_f32 (fmt x) = Some x.
Definition fmt_all (o : option f32) : Prop := forall x, o = Some x -> fmt_ok x.

Definition no_arrow (s : string) : Prop :=
  forall u v, as_bytes s = u ++ v -> strip_prefix (as_bytes "->") v = None.

(** Names are single words, and a reason is a sequence of words without outer quotes. *)
Definition printable (a : LqlAst) : Prop :=
  match a with
  | Select _ _ f | Subscribe _ _ _ f => fmt_all (min_strength f) /\ fmt_all (min_salience f)
  | Variants _ p => fmt_all p
  | Commit id => is_token id
  | Defuse id drain => is_token id /\ fmt_ok drain
  | Pivot from to reason =>
      is_token (from +:+ "->" +:+ to) /\ unquoted (from +:+ "->" +:+ to) /\
      no_arrow from /\ no_arrow to /\
      forall r, reason = Some r ->
        r = join " " (split_whitespace r) /\ Forall unquoted (split_whitespace r)
  | _ => True
  end.

(** *** The words that are printed *)
Definition graphic (s : string) : bool := forallb (in_range 33 126) (as_bytes s).

Lemma strip_any_graphic b rest : in_range 33 126 b = true -> strip_any ws_encodings (b :: rest) = None.
Proof.
  intros Hb. rewrite strip_any_none. eapply Forall_impl; [exact (proj1 RustText.ws_not_graphic) |].
  intros [|x p]; [done |]. unfold RustText.graphic. intros Hx. cbn. rewrite decide_False; [done | congruence].
Qed.

Lemma ws_free_graphic_app a b : forallb (in_range 33 126) a = true -> ws_free b -> ws_free (a ++ b).
Proof.
  intros Ha Hb. induction a as [|x a IH]; [done |]. apply andb_true_iff in Ha as [Hx Ha].
  intros [|y u] v E; cbn in E.
  - subst v. by apply strip_any_graphic.
  - injection E as _ E. by apply (IH Ha u).
Qed.

Lemma ws_free_nil : ws_free [].
Proof. intros u v E. symmetry in E. apply app_nil in E as [_ ->]. by vm_compute. Qed.

Lemma graphic_token_app s t :
  s <> "" -> graphic s = true -> t = "" \/ is_token t -> is_token (s +:+ t).
Proof.
  intros Hs Hg Ht. unfold is_token, token_bytes. rewrite as_bytes_app. split.
  - intros [E _]%app_nil. by apply Hs, as_bytes_inj.
  - apply ws_free_graphic_app; [done |]. destruct Ht as [-> | [_ Ht]]; [apply ws_free_nil | done].
Qed.

Lemma graphic_token s : s <> "" -> graphic s = true -> is_token s.
Proof. intros ? ?. rewrite <- (string_app_nil_r s). apply graphic_token_app; auto. Qed.

Lemma fmt_num_token n : is_u64 n -> is_token (fmt_num n).
Proof.
  intros Hn. apply graphic_token.
  - unfold fmt_num. rewrite of_bytes_nil. apply dec_digits_nonempty. lia.
  - unfold graphic, fmt_num. rewrite as_of_bytes. apply forallb_forall. intros b Hb.
    assert (Forall is_digit (fmt_u64 n)) as Hd by (apply dec_digits_digits; [unfold is_u64 in Hn; lia | done]).
    rewrite Forall_forall in Hd. specialize (Hd b (proj2 (list_elem_of_In _ _) Hb)).
    unfold is_digit, in_range in *. apply andb_true_iff in Hd as [H1%N.leb_le H2%N.leb_le].
    apply andb_true_iff. split; apply N.leb_le; lia.
Qed.

Lemma parse_fmt_num n : is_u64 n -> parse_u64 (as_bytes (fmt_num n)) = Some n.
Proof. intros Hn. unfold fmt_num. rewrite as_of_bytes. by apply parse_fmt_u64. Qed.

Lemma parse_fmt_num32 n : is_u32 n -> parse_u32 (fmt_num n) = Some n.
Proof.
  intros Hn. unfold parse_u32, is_u32 in *. rewrite parse_fmt_num by (unfold is_u64, u64_size, u32_size in *; lia).
  destruct (Z.ltb_spec n u32_size); [done | lia].
Qed.

(** *** Reading the clauses back *)
Context `{UnicodeCase} `{QueryJson}.

Lemma upper_word s : is_ascii s = true -> ascii_upper s = s -> to_uppercase s = s.
Proof. intros Ha Hu. by rewrite upper_ascii. Qed.

Lemma print_ands_text ts cs : Forall2 cond_text ts cs -> ts <> [] -> where_text (print_ands ts) cs.
Proof.
  induction 1 as [|t c ts cs Hc Hts IH]; [done |]. intros _. destruct ts as [|t2 ts].
  - apply Forall2_nil_inv_l in Hts as ->. by constructor.
  - cbn [print_ands]. apply wt_and; [done | by rewrite upper_word | by apply IH].
Qed.

Definition filter_conds (f : ViewFilter) : list cond :=
  match min_strength f with Some x => [CStrength x] | None => [] end
  ++ match min_salience f with Some x => [CSalience x] | None => [] end
  ++ match adreno f with Some b => [CAdreno b] | None => [] end.

Lemma filter_conds_apply f : fold_left apply_cond (filter_conds f) ViewFilter_default = f.
Proof. by destruct f as [[] [] []]. Qed.

Lemma print_conds_text f : filter_ok f -> fmt_all (min_strength f) -> fmt_all (min_salience f) ->
  Forall2 cond_text (print_conds f) (filter_conds f).
Proof.
  intros [H1 H2] F1 F2. unfold print_conds, filter_conds. repeat apply Forall2_app.
  - destruct (min_strength f) as [x|]; repeat constructor; [by apply F1 | by apply H1].
  - destruct (min_salience f) as [x|]; repeat constructor; [by apply F2 | by apply H2].
  - destruct (adreno f) as [[]|]; cbn; [| | done]; (constructor; [| done]).
    + apply (ct_true "true"). by rewrite lower_ascii.
    + apply (ct_false "false"). by rewrite lower_ascii.
Qed.

(** The clauses a printed query has. *)
Definition print_clauses (f : ViewFilter) (w e : option Z) : list clause :=
  match filter_conds f with [] => [] | cs => [CWhere cs] end
  ++ match w with Some n => [CWindow n] | None => [] end
  ++ match e with Some n => [CEvery n] | None => [] end.

Lemma print_clauses_meaning f w e :
  clause_filter ViewFilter_default (print_clauses f w e) = f /\
  clause_window None (print_clauses f w e) = w /\ clause_every None (print_clauses f w e) = e.
Proof.
  unfold print_clauses. pose proof (filter_conds_apply f) as Hf.
  destruct (filter_conds f) as [|c cs] eqn:Ec; destruct w, e; cbn in *; by rewrite ?Hf.
Qed.

Lemma print_millis_text o n : positive_u32 o -> o = Some n -> millis_text (fmt_num n) n.
Proof.
  intros Ho E. specialize (Ho n E). split; [| lia]. apply parse_fmt_num32. unfold is_u32. lia.
Qed.

Lemma print_clauses_text every f w e : positive_u32 w -> positive_u32 e ->
  (e = None \/ every = true) -> filter_ok f -> fmt_all (min_strength f) -> fmt_all (min_salience f) ->
  clauses_text every
    (print_where f ++ opt_tokens (fun n => ["WINDOW"; fmt_num n]) w
     ++ opt_tokens (fun n => ["EVERY"; fmt_num n]) e)
    (print_clauses f w e).
Proof.
  intros Hw He Hev Hf F1 F2. pose proof (print_conds_text f Hf F1 F2) as Hc.
  assert (Hrest : clauses_text every
    (opt_tokens (fun n => ["WINDOW"; fmt_num n]) w ++ opt_tokens (fun n => ["EVERY"; fmt_num n]) e)
    (match w with Some n => [CWindow n] | None => [] end
     ++ match e with Some n => [CEvery n] | None => [] end)).
  { assert (Hev' : clauses_text every (opt_tokens (fun n => ["EVERY"; fmt_num n]) e)
      (match e with Some n => [CEvery n] | None => [] end)).
    { destruct e as [n|]; cbn; [| constructor]. destruct Hev as [? | ->]; [done |].
      apply clt_every; [done | by rewrite upper_word | by apply (print_millis_text (Some n)) | constructor]. }
    destruct w as [n|]; cbn; [| exact Hev'].
    apply clt_window; [by rewrite upper_word | by apply (print_millis_text (Some n)) | exact Hev']. }
  unfold print_where, print_clauses. destruct Hc as [|t c ts cs Htc Hts]; [exact Hrest |].
  cbn [app]. apply clt_where; [by rewrite upper_word | | | exact Hrest].
  - apply print_ands_text; [by constructor | done].
  - destruct w as [n|]; cbn; [left; by rewrite upper_word |].
    destruct e; cbn; [right; by rewrite upper_word | done].
Qed.

Lemma parse_top_print n : positive_usize n -> parse_top_clause (print_top n) = Ok n.
Proof.
  destruct n as [n|]; intros Hn; [| done]. specialize (Hn n eq_refl).
  unfold print_top. cbn [opt_tokens parse_top_clause]. change (eq_ignore_ascii_case "TOP" "TOP") with true.
  cbn [negb]. unfold parse_usize. rewrite parse_fmt_num by (unfold is_u64; lia).
  cbn [parse_or ok_or rbind].
  by rewrite (proj2 (Z.eqb_neq n 0)) by lia.
Qed.

Lemma split_on_none pat b : forall fuel cur, length b <= fuel ->
  (forall u v, b = u ++ v -> strip_prefix pat v = None) -> split_on pat fuel cur b = [reverse cur ++ b].
Proof.
  induction b as [|x b IH]; intros fuel cur Hf Hn; [destruct fuel; cbn; by rewrite app_nil_r |].
  cbn in Hf. destruct fuel as [|fuel]; [lia |]. cbn [split_on].
  rewrite (Hn [] (x :: b)) by done. rewrite IH; [| lia | intros u v ->; by apply (Hn (x :: u))].
  by rewrite reverse_cons, <- app_assoc.
Qed.

Lemma split_on_arrow a : forall fuel cur b, length a + 2 + length b <= fuel ->
  (forall u v, a = u ++ v -> strip_prefix (as_bytes "->") v = None) ->
  (forall u v, b = u ++ v -> strip_prefix (as_bytes "->") v = None) ->
  split_on (as_bytes "->") fuel cur (a ++ as_bytes "->" ++ b) = [reverse cur ++ a; b].
Proof.
  induction a as [|x a IH]; intros fuel cur b Hf Ha Hb; cbn in Hf.
  - destruct fuel as [|fuel]; [lia |]. rewrite app_nil_l, app_nil_r.
    change (as_bytes "->" ++ b) with (Byte.x2d :: Byte.x3e :: b). cbn [split_on].
    change (strip_prefix (as_bytes "->") (Byte.x2d :: Byte.x3e :: b)) with (Some b).
    cbv beta iota. rewrite split_on_none; [done | lia | exact Hb].
  - destruct fuel as [|fuel]; [lia |]. cbn [app split_on].
    assert (strip_prefix (as_bytes "->") (x :: a ++ as_bytes "->" ++ b) = None) as ->.
    { specialize (Ha [] (x :: a) eq_refl). cbn in Ha |- *. case_decide; [| done].
      destruct a as [|y a]; cbn in Ha |- *; [done |]. by case_decide. }
    rewrite IH; [by rewrite reverse_cons, <- app_assoc | lia | | done].
    intros u v ->. by apply (Ha (x :: u)).
Qed.

Lemma split_arrow from to : no_arrow from -> no_arrow to ->
  split "->" (from +:+ "->" +:+ to) = [from; to].
Proof.
  intros Hf Ht. unfold split. rewrite !as_bytes_app, split_on_arrow; [| | done | done].
  - cbn [map]. by rewrite reverse_nil, app_nil_l, !of_as_bytes.
  - rewrite !length_app. cbn. lia.
Qed.

(** A list of tokens, one by one. *)
Ltac each := repeat first [apply Forall_nil_2 | apply Forall_cons_2].

Lemma Forall_opt {A} (P : string -> Prop) (f : A -> list string) o :
  (forall a, o = Some a -> Forall P (f a)) -> Forall P (opt_tokens f o).
Proof. destruct o; cbn; auto. Qed.

Lemma cond_token_ok (kw : string) (o : option f32) : kw <> "" -> graphic kw = true -> fmt_all o ->
  Forall is_token (opt_tokens (fun x => [kw +:+ fmt x]) o).
Proof.
  intros Hk Hg Ho. apply Forall_opt. intros x Hx. each; apply (Ho x) in Hx as [Hx _];
    by apply graphic_token_app; auto.
Qed.

Lemma print_ands_tokens ts : Forall is_token ts -> Forall is_token (print_ands ts).
Proof.
  induction ts as [|t [|t2 ts] IH]; intros Hts; [done | done |].
  apply Forall_cons in Hts as [Ht Hts]. cbn [print_ands].
  constructor; [done | constructor; [by apply graphic_token | by apply IH]].
Qed.

Lemma print_where_tokens f : fmt_all (min_strength f) -> fmt_all (min_salience f) ->
  Forall is_token (print_where f).
Proof.
  intros F1 F2. unfold print_where.
  assert (Forall is_token (print_conds f)) as Hc.
  { unfold print_conds. repeat (apply Forall_app; split); [by apply cond_token_ok .. |].
    apply Forall_opt. intros [] _; each; by apply graphic_token. }
  destruct (print_conds f) eqn:E; [done |]. constructor; [by apply graphic_token |].
  by apply print_ands_tokens.
Qed.

Lemma num_tokens kw o : graphic kw = true -> kw <> "" -> (forall n, o = Some n -> is_u64 n) ->
  Forall is_token (opt_tokens (fun n => [kw; fmt_num n]) o).
Proof.
  intros Hk Hg Ho. apply Forall_opt. intros n Hn. each.
  - by apply graphic_token.
  - by apply fmt_num_token, Ho.
Qed.

Lemma positive_u32_u64 o n : positive_u32 o -> o = Some n -> is_u64 n.
Proof. intros Ho E. specialize (Ho n E). unfold is_u64, u64_size, u32_size in *. lia. Qed.
Lemma positive_usize_u64 o n : positive_usize o -> o = Some n -> is_u64 n.
Proof. intros Ho E. specialize (Ho n E). unfold is_u64. lia. Qed.

Ltac word := by apply graphic_token.

Lemma top_tokens n : positive_usize n -> Forall is_token (print_top n).
Proof.
  intros Hn. apply (num_tokens "TOP"); [done | done |]. intros k E. by eapply positive_usize_u64.
Qed.

Lemma millis_tokens kw o : graphic kw = true -> kw <> "" -> positive_u32 o ->
  Forall is_token (opt_tokens (fun n => [kw; fmt_num n]) o).
Proof. intros Hg Hk Ho. apply num_tokens; [done | done |]. intros k E. by eapply positive_u32_u64. Qed.

Lemma print_tokens a ts : ast_ok a -> printable a -> print_lql a = Some ts -> Forall is_token ts.
Proof.
  intros Ha Hp E.
  destruct a as [p w f | p w e f | id | n | n | n | n | id | | l p | | id | from to r | id d | | | |];
    cbn [print_lql] in E; try discriminate E; apply (inj Some) in E as <-;
    cbn [ast_ok] in Ha; cbn [printable] in Hp; (apply Forall_cons_2; [word |]).
  - destruct Ha as (Hpt & Hw & _), Hp as [F1 F2]. apply Forall_cons_2; [exact Hpt |].
    apply Forall_app. split; [by apply print_where_tokens | by apply millis_tokens].
  - destruct Ha as (Hpt & Hw & He & _), Hp as [F1 F2]. apply Forall_cons_2; [exact Hpt |].
    apply Forall_app. split; [by apply print_where_tokens |].
    apply Forall_app. split; by apply millis_tokens.
  - each. by apply fmt_num_token.
  - apply Forall_cons_2; [word | by apply top_tokens].
  - apply Forall_cons_2; [word | by apply top_tokens].
  - apply Forall_cons_2; [word | by apply top_tokens].
  - apply Forall_cons_2; [word | by apply top_tokens].
  - each; [word | by apply fmt_num_token].
  - destruct Ha as [Hl _]. apply Forall_cons_2; [word |]. apply Forall_app. split.
    + apply Forall_opt. intros x Hx. each; [word |]. apply graphic_token_app; [done | done |].
      right. apply (Hp x Hx).
    + apply num_tokens; [done | done |]. intros k E. by eapply positive_usize_u64.
  - each. exact Hp.
  - destruct Hp as (Ht & _). apply Forall_cons_2; [exact Ht |]. apply Forall_opt.
    intros x _. apply Forall_cons_2; [word | apply split_whitespace_tokens].
  - destruct Hp as (Ht & Hd & _). each; [exact Ht | word | exact Hd].
  - each. word.
  - each. word.
  - each. word.
Qed.

Lemma arrow_not_reason from to : eq_ignore_ascii_case (from +:+ "->" +:+ to) "REASON" = false.
Proof.
  unfold eq_ignore_ascii_case. apply bool_decide_eq_false. intros E.
  apply (f_equal as_bytes) in E. unfold ascii_lower in E. rewrite as_of_bytes in E.
  assert (Byte.x2d ∈ map ascii_lower_byte (as_bytes (from +:+ "->" +:+ to))) as Hin.
  { rewrite as_bytes_app, map_app. apply elem_of_app. right. apply list_elem_of_here. }
  rewrite E in Hin. by apply (bool_decide_pack (_ ∈ _)) in Hin.
Qed.

Lemma parse_pivot_print from to r :
  unquoted (from +:+ "->" +:+ to) -> no_arrow from -> no_arrow to ->
  (forall x, r = Some x -> x <> "" /\ x = join " " (split_whitespace x) /\
     Forall unquoted (split_whitespace x)) ->
  parse_pivot ((from +:+ "->" +:+ to) :: opt_tokens (fun x => "REASON" :: split_whitespace x) r)
  = Ok (Pivot from to r).
Proof.
  intros Hu Hf Ht Hr. cbn [parse_pivot]. rewrite Hu, split_arrow by done. do 2 f_equal.
  cbn [after_reason]. rewrite arrow_not_reason. destruct r as [x|]; [| done].
  destruct (Hr x eq_refl) as (Hne & Hj & Hq). cbn [opt_tokens after_reason].
  change (eq_ignore_ascii_case "REASON" "REASON") with true. cbv iota.
  assert (map trim_quotes (split_whitespace x) = split_whitespace x) as ->.
  { clear Hj. induction Hq as [|t ts E Hts IH]; [done |]. cbn. by rewrite IH, E. }
  rewrite <- Hj. by rewrite decide_False.
Qed.

Lemma parse_command cmd args : Forall is_token (cmd :: args) -> is_ascii cmd = true -> ascii_upper cmd = cmd ->
  trim (join " " (cmd :: args)) <> "" /\ split_whitespace (trim (join " " (cmd :: args))) = cmd :: args /\
  to_uppercase cmd = cmd.
Proof.
  intros Hts Ha Hu. rewrite trim_join, split_whitespace_join by done. split_and!; [| done | by apply upper_word].
  apply Forall_cons in Hts as [[Ht _] _]. intros E. apply (f_equal as_bytes) in E.
  destruct args; [done |]. rewrite as_bytes_join_cons in E by done. by apply app_nil in E as [? _].
Qed.

Ltac command Htok :=
  match type of Htok with
  | Forall is_token (?c :: ?args) =>
      let U := fresh "U" in
      destruct (parse_command c args Htok eq_refl eq_refl) as (? & -> & U);
      rewrite decide_False by done; rewrite U;
      repeat (rewrite decide_False by done); rewrite decide_True by done
  end.
Ltac subword :=
  rewrite ?upper_word by done; repeat (rewrite decide_False by done); rewrite ?decide_True by done.

(** C16: a printed query reads back: for every well-formed query without JSON arguments whose names
    are words and whose numbers are written so that they read back, parsing the line of its tokens
    gives the query. *)
Theorem lql_roundtrip a ts :
  ast_ok a -> printable a -> print_lql a = Some ts -> parse_lql (join " " ts) = Ok a.
Proof.
  intros Ha Hp E. pose proof (print_tokens a ts Ha Hp E) as Htok. unfold parse_lql.
  destruct a as [p w f | p w e f | id | n | n | n | n | id | | l p | | id | from to r | id d | | | |];
    cbn [print_lql] in E; try discriminate E; apply (inj Some) in E as <-; command Htok;
    cbn [ast_ok] in Ha; cbn [printable] in Hp.
  - destruct Ha as (_ & Hw & Hf), Hp as [F1 F2]. destruct (print_clauses_meaning f w None) as (Ef & Ew & _).
    pose proof (print_clauses_text false f w None Hw ltac:(done) (or_introl eq_refl) Hf F1 F2) as Hcl.
    cbn [opt_tokens] in Hcl. rewrite app_nil_r in Hcl. cbn [parse_select].
    rewrite (proj1 (clauses_where_loop _ _ _ Hcl None None _ _ (le_n _)) eq_refl). by rewrite Ef, Ew.
  - destruct Ha as (_ & Hw & He & Hf), Hp as [F1 F2]. destruct (print_clauses_meaning f w e) as (Ef & Ew & Ee).
    pose proof (print_clauses_text true f w e Hw He (or_intror eq_refl) Hf F1 F2) as Hcl. cbn [parse_subscribe].
    rewrite (proj2 (clauses_where_loop _ _ _ Hcl None None _ _ (le_n _)) eq_refl). by rewrite Ef, Ew, Ee.
  - cbn [parse_unsubscribe]. by rewrite parse_fmt_num.
  - cbn [parse_introspect]. subword. by rewrite parse_top_print.
  - cbn [parse_introspect]. subword. by rewrite parse_top_print.
  - cbn [parse_introspect]. subword. by rewrite parse_top_print.
  - cbn [parse_introspect]. subword. by rewrite parse_top_print.
  - cbn [parse_introspect]. subword. by rewrite parse_fmt_num.
  - destruct Ha as [Hl Hx]. cbn [parse_variants]. subword.
    assert (forall q, variants_loop (opt_tokens (fun n => ["LIMIT"; fmt_num n]) l) None q = Ok (l, q)) as El.
    { intros q. destruct l as [n|]; [| done]. specialize (Hl n eq_refl). cbn [opt_tokens variants_loop]. subword.
      unfold parse_usize. rewrite parse_fmt_num by (unfold is_u64; lia). cbn [parse_or ok_or rbind].
      by rewrite (proj2 (Z.eqb_neq n 0)) by lia. }
    destruct p as [x|]; cbn [opt_tokens app]; [| by rewrite El].
    cbn [variants_loop]. subword. rewrite (proj2 (strip_prefix_str_some "p>=" _ (fmt x))) by done.
    destruct (Hp x eq_refl) as [_ ->]. cbn [parse_or ok_or rbind].
    rewrite f32_clamp_id by (by apply Hx). by rewrite El.
  - cbn [parse_commit]. by rewrite Ha.
  - destruct Hp as (_ & Hu & Hf & Ht & Hr). apply parse_pivot_print; [done .. |].
    intros x Ex. split; [by apply Ha | by apply Hr].
  - destruct Hp as (_ & _ & Ed). cbn [parse_defuse]. rewrite upper_word by done. rewrite decide_True by auto.
    rewrite Ed. cbn [parse_or ok_or rbind]. by rewrite Ha.
  - cbn [parse_reflex]. by subword.
  - cbn [parse_reflex]. by subword.
  - cbn [parse_reflex]. by subword.
Qed.

End print.

(** ** Errors *)
Section errors.
Context `{UnicodeCase} `{QueryJson}.

(** The messages that would mean a loop ran out of rounds or a trimmed text had no token. *)
Definition meaningful (e : LqlError) : Prop :=
  let '(lql_error m) := e in m <> "" /\ m <> "missing LQL command".

Lemma errs_parse_or {A} (o : option A) m : meaningful (lql_error m) -> errs meaningful (parse_or o m).
Proof. by destruct o. Qed.

Lemma errs_match {A B} (r : result A LqlError) (k : A -> result B LqlError) :
  errs meaningful r -> (forall a, r = Ok a -> errs meaningful (k a)) ->
  errs meaningful (match r with Err e => Err e | Ok a => k a end).
Proof. destruct r; cbn; auto. Qed.

Ltac msg := split; discriminate.
Ltac errs_auto :=
  repeat first
    [ errs_step | apply errs_parse_or; msg | (change (errs meaningful (fail ?m)) with (meaningful (lql_error m)); msg) ].

Lemma errs_condition t f : errs meaningful (parse_condition_token t f).
Proof.
  unfold parse_condition_token.
  destruct (strip_prefix_str "strength>=" t), (strip_prefix_str "salience>=" t),
    (strip_prefix_str "adreno=" t); errs_auto.
Qed.

Lemma errs_where ts f : errs meaningful (parse_where_conditions ts f).
Proof.
  unfold parse_where_conditions. errs_auto.
  assert (forall l k e g, errs meaningful (where_loop l k e g)) as Hl.
  { induction l as [|t l IH]; intros k e g; cbn [where_loop]; errs_auto; try apply IH; try apply errs_condition. }
  apply errs_match; [apply Hl |]. intros [[n e] g] _. errs_auto.
Qed.

Lemma errs_millis kw ts : kw = "WINDOW" \/ kw = "EVERY" -> errs meaningful (parse_millis kw ts).
Proof. intros [-> | ->]; destruct ts; cbn [parse_millis]; errs_auto. Qed.

Lemma where_consumes ts f n f' : parse_where_conditions ts f = Ok (n, f') -> n <= length ts.
Proof.
  intros E. apply where_conditions_exact in E as (ts1 & rest & cs & -> & _ & _ & -> & _).
  rewrite length_app. lia.
Qed.

Lemma millis_consumes kw ts n rest : parse_millis kw ts = Ok (n, rest) -> length rest <= length ts.
Proof. intros E. apply millis_exact in E as (t & -> & _). cbn. lia. Qed.

Lemma errs_loops fuel : forall ts w e f, length ts <= fuel ->
  errs meaningful (select_loop fuel ts w f) /\ errs meaningful (subscribe_loop fuel ts w e f).
Proof.
  induction fuel as [|fuel IH]; intros [|t ts] w e f Hf; cbn in Hf; try lia; [by split | by split |].
  cbn [select_loop subscribe_loop]. split; repeat case_decide;
    try (cbn; msg); (apply errs_match; [apply errs_where || (apply errs_millis; auto) |]);
    intros [x y] Hxy; apply IH; auto; rewrite ?length_drop;
    first [apply where_consumes in Hxy | apply millis_consumes in Hxy]; lia.
Qed.
End errors.

(** ** Witnesses

    A parser that knows one array. *)
Definition one_array : QueryJson := {|
  json_strings := fun s => if decide (s = "[a,b]") then Some ["a"; "b"] else None;
  json_f32s := fun _ => None;
  json_goals := fun _ => None;
  json_reflex_cfg := fun _ => Err "expected value"
|}.

Example lql_examples :
  let parse := parse_lql (H := ascii_case) (H0 := one_array) in
  parse "select cpu/load where salience>=0.7 AND adreno=true WINDOW 5000"
  = Ok (Select "cpu/load" (Some 5000%Z) (mkViewFilter None (Some (f32_lit 7 10)) (Some true))) /\
  parse "SLIDE SET 'x' VARIANTS [a,'b',]" = Ok (SlideSet "x" ["a"; "b"] ∅ None) /\
  parse "INTEND TOKENS [a,b] HORIZON 5"
  = Ok (Intend ["a"; "b"] [f32_lit 1 2; f32_lit 1 2] (Some 5%Z) None) /\
  parse "SELECT cpu WHERE strength>=1.5" = fail "strength must be within 0.0..=1.0" /\
  parse "INTROSPECT model TOP 0" = fail "TOP must be greater than zero" /\
  parse "PIVOT a->b REASON 'too slow'" = Ok (Pivot "a" "b" (Some "too slow")) /\
  parse "VARIANTS SELECT p>=0.9 LIMIT 2" = Ok (Variants (Some 2%Z) None) /\
  parse "DEFUSE p RATE 2" = Ok (Defuse "p" (f32_lit 2 1)) /\
  parse "  " = fail "empty LQL query" /\ parse "FOO bar" = fail "unknown LQL command: FOO".
Proof. vm_compute. repeat split. Qed.

Lemma lql_well_formed_witness : ast_ok (Select "cpu" (Some 5%Z) ViewFilter_default).
Proof.
  apply (lql_well_formed (H := ascii_case) (H0 := one_array) "select cpu window 5").
  vm_compute. reflexivity.
Defined.

Definition w_select : LqlAst :=
  Select "cpu" (Some 5%Z) (mkViewFilter (Some (f32_lit 7 10)) None (Some false)).

Lemma lql_roundtrip_witness :
  parse_lql (H := ascii_case) (H0 := one_array)
    "SELECT cpu WHERE strength>=0.7 AND adreno=false WINDOW 5" = Ok w_select.
Proof.
  apply (lql_roundtrip (fun _ => "0.7") (H := ascii_case) (H0 := one_array) w_select
    ["SELECT"; "cpu"; "WHERE"; "strength>=0.7"; "AND"; "adreno=false"; "WINDOW"; "5"]).
  - cbn [ast_ok w_select]. split_and!.
    + by apply graphic_token.
    + intros n [= <-]. by vm_compute.
    + split; [| done]. intros x [= <-]. by vm_compute.
  - split; [| done]. intros x [= <-]. split; [by apply graphic_token | by vm_compute].
  - by vm_compute.
Defined.
