(* ===== verification/NodeCell.v ===== *)
(** * Cells ([liminal-core/src/node_cell.rs], [types.rs], [seed.rs])

    A cell of the field: what it does with an impulse, its metabolism, division and death. The
    random number generators ([rand], [rand_chacha]) are arguments: the draws a function makes are
    parameters of it. *)

From stdpp Require Import prelude gmap strings fin_maps list sorting.
From Stdlib Require Import ZArith Lia SpecFloat.
From S2P Require Import Prelude RustStr RustOrd Float RustText.

(** ** Types *)
Inductive ImpulseKind : Type := Query | Write | Affect.

Record Impulse : Type := mkImpulse {
  i_kind : ImpulseKind;
  i_pattern : string;
  i_strength : f32;
  i_ttl_ms : Z;
  i_tags : list string
}.

Inductive NodeState : Type := Active | Idle | Sleep | Dead.

Global Instance ImpulseKind_eq_dec : EqDecision ImpulseKind.
Proof. solve_decision. Defined.
Global Instance NodeState_eq_dec : EqDecision NodeState.
Proof. solve_decision. Defined.
Global Instance ImpulseKind_countable : Countable ImpulseKind.
Proof.
  refine (inj_countable' (fun k => match k with Query => 0 | Write => 1 | Affect => 2 end)
            (fun n => match n with 0 => Query | 1 => Write | _ => Affect end) _).
  by intros [].
Defined.

Record SeedParams : Type := mkSeedParams {
  sp_affinity : f32;
  base_metabolism : f32;
  core_pattern : string
}.

Record NodeCell : Type := mkCell {
  c_id : Z;
  c_seed : SeedParams;
  c_state : NodeState;
  c_links : gset Z;
  c_metabolism : f32;
  c_affinity : f32;
  c_last_response_ms : Z;
  c_energy : f32;
  c_salience : f32;
  c_adreno_tag : bool;
  c_last_recall_ms : Z
}.

(** Assignments to the fields of a cell. *)
Definition set_seed (v : SeedParams) (c : NodeCell) : NodeCell :=
  mkCell (c_id c) v (c_state c) (c_links c) (c_metabolism c) (c_affinity c)
    (c_last_response_ms c) (c_energy c) (c_salience c) (c_adreno_tag c) (c_last_recall_ms c).
Definition set_state (v : NodeState) (c : NodeCell) : NodeCell :=
  mkCell (c_id c) (c_seed c) v (c_links c) (c_metabolism c) (c_affinity c)
    (c_last_response_ms c) (c_energy c) (c_salience c) (c_adreno_tag c) (c_last_recall_ms c).
Definition set_links (v : gset Z) (c : NodeCell) : NodeCell :=
  mkCell (c_id c) (c_seed c) (c_state c) v (c_metabolism c) (c_affinity c)
    (c_last_response_ms c) (c_energy c) (c_salience c) (c_adreno_tag c) (c_last_recall_ms c).
Definition set_metabolism (v : f32) (c : NodeCell) : NodeCell :=
  mkCell (c_id c) (c_seed c) (c_state c) (c_links c) v (c_affinity c)
    (c_last_response_ms c) (c_energy c) (c_salience c) (c_adreno_tag c) (c_last_recall_ms c).
Definition set_affinity (v : f32) (c : NodeCell) : NodeCell :=
  mkCell (c_id c) (c_seed c) (c_state c) (c_links c) (c_metabolism c) v
    (c_last_response_ms c) (c_energy c) (c_salience c) (c_adreno_tag c) (c_last_recall_ms c).
Definition set_last_response_ms (v : Z) (c : NodeCell) : NodeCell :=
  mkCell (c_id c) (c_seed c) (c_state c) (c_links c) (c_metabolism c) (c_affinity c)
    v (c_energy c) (c_salience c) (c_adreno_tag c) (c_last_recall_ms c).
Definition set_energy (v : f32) (c : NodeCell) : NodeCell :=
  mkCell (c_id c) (c_seed c) (c_state c) (c_links c) (c_metabolism c) (c_affinity c)
    (c_last_response_ms c) v (c_salience c) (c_adreno_tag c) (c_last_recall_ms c).
Definition set_salience (v : f32) (c : NodeCell) : NodeCell :=
  mkCell (c_id c) (c_seed c) (c_state c) (c_links c) (c_metabolism c) (c_affinity c)
    (c_last_response_ms c) (c_energy c) v (c_adreno_tag c) (c_last_recall_ms c).
Definition set_last_recall_ms (v : Z) (c : NodeCell) : NodeCell :=
  mkCell (c_id c) (c_seed c) (c_state c) (c_links c) (c_metabolism c) (c_affinity c)
    (c_last_response_ms c) (c_energy c) (c_salience c) (c_adreno_tag c) v.

Definition lit (n d : Z) : f32 := f32_lit n d.
Definition f0 : f32 := f_zero.
Definition f1 : f32 := f32_one.

Definition from_seed (id : Z) (seed : SeedParams) : NodeCell :=
  mkCell id seed Active ∅ (base_metabolism seed) (sp_affinity seed) 0 (lit 6 10) f0 false 0.

Definition bump_salience (by_ : f32) (c : NodeCell) : NodeCell :=
  set_salience (f32_clamp (f32_add (c_salience c) by_) f0 f1) c.

Definition mark_adreno (c : NodeCell) : NodeCell :=
  mkCell (c_id c) (c_seed c) (c_state c) (c_links c) (c_metabolism c) (c_affinity c)
    (c_last_response_ms c) (c_energy c) (c_salience c) true (c_last_recall_ms c).

Definition is_separator (b : Byte.byte) : bool :=
  bool_decide (b = Byte.x2f \/ b = Byte.x3a \/ b = Byte.x2e).

Section cell.
Context `{UnicodeCase}.

Definition tokenize (input : string) : list string :=
  map (fun t => to_lowercase (of_bytes t))
    (List.filter (fun t => negb (bool_decide (t = []))) (split_pred is_separator [] (as_bytes input))).

Definition pattern_match (affinity : f32) (core pattern : string) (strength : f32)
    (tags : list string) : option f32 :=
  let core_tokens := tokenize core in
  let pattern_tokens := tokenize pattern ++ map to_lowercase tags in
  if existsb (fun token => existsb (String.eqb token) core_tokens) pattern_tokens then Some f1
  else
    let closeness := f32_sub f1 (f32_abs (f32_sub affinity strength)) in
    if f_lt (lit 45 100) closeness then Some closeness else None.

Definition ingest (imp : Impulse) (now_ms : Z) (c : NodeCell) : NodeCell * option string :=
  if decide (c_state c = Dead) then (c, None)
  else
    match pattern_match (c_affinity c) (core_pattern (c_seed c)) (i_pattern imp)
            (i_strength imp) (i_tags imp) with
    | None => (set_energy (f32_clamp (f32_sub (c_energy c) (lit 1 100)) f0 f1) c, None)
    | Some match_score =>
        let s := i_strength imp in
        let strong := f_le (lit 6 10) match_score in
        let c :=
          if bool_decide (i_kind imp = Affect)
             && bool_decide (is_Some (strip_prefix_str "affect/" (i_pattern imp))) && strong
          then bump_salience (f32_mul (lit 15 100) s) c else c in
        let '(c, delta, verb, mark) :=
          match i_kind imp with
          | Query =>
              let c := if bool_decide (c_state c = Sleep) && f_lt (lit 6 10) s
                       then set_state Idle c else c in
              let c :=
                if strong then
                  let c := set_last_recall_ms now_ms c in
                  if c_adreno_tag c then bump_salience (lit 5 100) c else c
                else c in
              (c, f32_mul (lit (-5) 100) s, " echoes '", "'?")
          | Write => (set_state Active c, f32_mul (lit 8 100) s, " records '", "'.")
          | Affect =>
              let c := if f_lt (lit 8 10) s then set_state Active c
                       else if f_lt s (lit 3 10) then set_state Idle c else c in
              (c, f32_mul (lit 5 100) (f32_sub s (lit 4 10)), " senses '", "'.")
          end in
        (set_energy (f32_clamp (f32_add (c_energy c) delta) f0 f1) c,
         Some ("n" +:+ fmt_nat (c_id c) +:+ verb +:+ i_pattern imp +:+ mark))
    end.
End cell.

Definition cell_tick (dt_ms : Z) (metabolism_scale sleep_shift : f32) (c : NodeCell) : NodeCell :=
  if decide (c_state c = Dead) then c
  else
    let target := f32_mul (base_metabolism (c_seed c)) (f32_clamp metabolism_scale (lit 5 10) (lit 15 10)) in
    let c := set_metabolism (f32_add (c_metabolism c) (f32_mul (f32_sub target (c_metabolism c)) (lit 5 100))) c in
    let decay := f32_mul (f32_mul (c_metabolism c) (f32_of_Z dt_ms)) (lit 3 10000) in
    let c := set_energy (f32_clamp (f32_sub (c_energy c) decay) f0 f1) c in
    let shift := f32_clamp sleep_shift (lit (-2) 10) (lit 2 10) in
    let idle_threshold := f32_clamp (f32_sub (lit 2 10) shift) (lit 5 100) (lit 45 100) in
    let c := if f_lt (c_energy c) idle_threshold && bool_decide (c_state c = Active)
             then set_state Idle c else c in
    let wake_threshold := f32_clamp (f32_sub (lit 6 10) shift) (lit 35 100) (lit 95 100) in
    let c := if f_lt wake_threshold (c_energy c) && bool_decide (c_state c = Idle)
             then set_state Active c else c in
    let wake_sleep_threshold := f32_clamp (f32_sub (lit 5 10) shift) (lit 2 10) (lit 85 100) in
    if bool_decide (c_state c = Sleep) && f_lt wake_sleep_threshold (c_energy c)
    then set_state Idle c else c.

(** [maybe_divide], with the draw of [gen_range(-0.05..0.05)]. *)
Definition maybe_divide (variation : f32) (c : NodeCell) : NodeCell * option NodeCell :=
  if decide (c_state c <> Active) then (c, None)
  else if f_le (c_energy c) (lit 8 10) then (c, None)
  else
    let child_affinity := f32_clamp (f32_add (c_affinity c) variation) f0 f1 in
    let child_metabolism := f32_div (f32_add (c_metabolism c) (base_metabolism (c_seed c))) (f32_of_Z 2) in
    let parent := set_energy (f32_mul (c_energy c) (lit 55 100)) c in
    let child :=
      mkCell 0 (mkSeedParams child_affinity (base_metabolism (c_seed c)) (core_pattern (c_seed c)))
        Idle ∅ child_metabolism child_affinity (c_last_response_ms parent) (lit 45 100)
        (f32_clamp (f32_mul (c_salience parent) (lit 5 10)) f0 f1) (c_adreno_tag parent)
        (c_last_recall_ms parent) in
    (parent, Some child).

Definition drift_affinity (drive : f32) (c : NodeCell) : NodeCell :=
  let t := f32_clamp (f32_mul drive (lit 5 100)) f0 (lit 25 100) in
  set_affinity (f32_add (c_affinity c) (f32_mul (f32_sub (sp_affinity (c_seed c)) (c_affinity c)) t)) c.

Definition maybe_sleep_or_die (now_ms : Z) (sleep_shift : f32) (c : NodeCell) : NodeCell * bool :=
  if decide (c_state c = Dead) then (c, false)
  else
    let idle_for := u64_saturating_sub now_ms (c_last_response_ms c) in
    let shift := f32_clamp sleep_shift (lit (-2) 10) (lit 2 10) in
    let sleep_threshold := f32_clamp (f32_sub (lit 15 100) shift) (lit 1 100) (lit 3 10) in
    let c := if f_lt (c_energy c) sleep_threshold && (3000 <? idle_for)%Z then set_state Sleep c else c in
    if f_lt (c_energy c) (lit 5 100) && (6000 <? idle_for)%Z then (set_state Dead c, true)
    else (c, false).

(** ** Roots ([seed.rs]) *)
Fixpoint derive_bytes (seed : bytes) (i n : nat) : bytes :=
  match n with
  | O => []
  | S n' =>
      let value := nth (i mod length seed) seed Byte.x00 in
      default Byte.x00 (Byte.of_N ((Byte.to_N value + N.of_nat (i * 37) mod 256) mod 256))
      :: derive_bytes seed (S i) n'
  end.

Definition derive_seed_bytes (seed_str : string) : bytes :=
  let seed := as_bytes seed_str in
  if decide (seed = []) then replicate 32 Byte.x00 else derive_bytes seed 0 32.

(** [ChaCha8Rng::from_seed] and its first three draws: two [f32] and, when it is asked for, a
    [u32]. *)
Class SeedRng : Type := chacha : bytes -> f32 * f32 * Z.

Definition create_seed `{SeedRng} (seed_str : string) : SeedParams :=
  let '(a, b, n) := chacha (derive_seed_bytes seed_str) in
  let affinity := f32_clamp a f0 f1 in
  let base_metabolism := f32_add (lit 3 10) (f32_mul b (lit 7 10)) in
  let pattern := trim seed_str in
  let pattern := if decide (pattern = "") then "seed-" +:+ fmt_nat n else pattern in
  mkSeedParams affinity base_metabolism pattern.

(** ** The life of a cell *)
Section life.
Context `{UnicodeCase}.

Inductive cell_op : Type :=
| OIngest (imp : Impulse) (now_ms : Z)
| OTick (dt_ms : Z) (metabolism_scale sleep_shift : f32)
| ODivide (variation : f32)
| ODrift (drive : f32)
| OSleepOrDie (now_ms : Z) (sleep_shift : f32)
| OBump (by_ : f32)
| OMark.

Definition cell_apply (op : cell_op) (c : NodeCell) : NodeCell :=
  match op with
  | OIngest imp now => fst (ingest imp now c)
  | OTick dt ms ss => cell_tick dt ms ss c
  | ODivide v => fst (maybe_divide v c)
  | ODrift d => drift_affinity d c
  | OSleepOrDie now ss => fst (maybe_sleep_or_die now ss c)
  | OBump b => bump_salience b c
  | OMark => mark_adreno c
  end.

Definition cell_run (ops : list cell_op) (c : NodeCell) : NodeCell := fold_left (fun c op => cell_apply op c) ops c.

Definition unit_or_nan (x : f32) : Prop := is_nan x = true \/ f_in f0 f1 x = true.

(** What no operation changes. *)
Definition same_identity (c c' : NodeCell) : Prop :=
  c_id c' = c_id c /\ c_seed c' = c_seed c /\ c_links c' = c_links c.

(** The vital state, which death freezes. *)
Definition vitals (c : NodeCell) : NodeState * f32 * f32 * Z * Z :=
  (c_state c, c_energy c, c_metabolism c, c_last_response_ms c, c_last_recall_ms c).

(** The circumstances of a death. *)
Definition dies (op : cell_op) (c : NodeCell) : Prop :=
  match op with
  | OSleepOrDie now _ => f_lt (c_energy c) (lit 5 100) = true /\ (6000 < now - c_last_response_ms c)%Z
  | _ => False
  end.

Lemma unit_clamp x : unit_or_nan (f32_clamp x f0 f1).
Proof. by apply f32_clamp_ok. Qed.

Lemma bump_identity b c : same_identity c (bump_salience b c) /\ vitals (bump_salience b c) = vitals c.
Proof. done. Qed.

(** The cases of [ingest]. *)
Lemma ingest_cases imp now c :
  c_state c <> Dead ->
  same_identity c (fst (ingest imp now c)) /\ c_state (fst (ingest imp now c)) <> Dead /\
  (unit_or_nan (c_salience c) -> unit_or_nan (c_salience (fst (ingest imp now c)))) /\
  (snd (ingest imp now c) = None -> c_state (fst (ingest imp now c)) = c_state c).
Proof.
  intros Hc. unfold ingest. rewrite decide_False by done.
  destruct (pattern_match _ _ _ _ _) as [score|]; [| by split_and!].
  set (c1 := if bool_decide (i_kind imp = Affect) && _ && _ then _ else c).
  assert (same_identity c c1 /\ c_state c1 = c_state c /\
    (unit_or_nan (c_salience c) -> unit_or_nan (c_salience c1))) as (Hi & Hs & Hu).
  { unfold c1. destruct (_ && _ && _); [| done]. split_and!; try done. intros _. apply unit_clamp. }
  clearbody c1. assert (c_state c1 <> Dead) by congruence.
  destruct Hi as (Hi1 & Hi2 & Hi3).
  destruct (i_kind imp); cbn -[f32_clamp lit f32_add f32_mul f_lt f_le strip_prefix_str].
  - destruct (bool_decide (c_state c1 = Sleep) && _), (f_le (lit 6 10) score); cbn -[f32_clamp lit];
      destruct (c_adreno_tag c1); cbn -[f32_clamp lit]; split_and!; try done; try apply unit_clamp; auto;
      intros _; apply unit_clamp.
  - by split_and!.
  - destruct (f_lt (lit 8 10) _); [| destruct (f_lt _ (lit 3 10))]; cbn -[f32_clamp lit];
      split_and!; done || auto.
Qed.

Lemma tick_cases dt ms ss c :
  c_state c <> Dead ->
  same_identity c (cell_tick dt ms ss c) /\ c_state (cell_tick dt ms ss c) <> Dead /\
  c_salience (cell_tick dt ms ss c) = c_salience c /\ unit_or_nan (c_energy (cell_tick dt ms ss c)).
Proof.
  intros Hc. unfold cell_tick. rewrite decide_False by done.
  set (c1 := set_energy _ _).
  assert (same_identity c c1 /\ c_state c1 = c_state c /\ c_salience c1 = c_salience c /\
    unit_or_nan (c_energy c1)) as (Hi & Hs & Hsal & Hu) by (split_and!; [done .. | apply unit_clamp]).
  clearbody c1.
  destruct (f_lt (c_energy c1) _ && _); cbn -[f32_clamp lit f32_sub];
    destruct (f_lt _ _ && _); cbn -[f32_clamp lit f32_sub];
    destruct (_ && f_lt _ _); cbn -[f32_clamp lit f32_sub]; split_and!; try done; congruence.
Qed.

Lemma dead_frozen op c : c_state c = Dead ->
  vitals (cell_apply op c) = vitals c /\ same_identity c (cell_apply op c).
Proof.
  intros Hd. destruct op; cbn [cell_apply]; try done.
  - unfold ingest. by rewrite decide_True.
  - unfold cell_tick. by rewrite decide_True.
  - unfold maybe_divide. by rewrite decide_True by congruence.
  - unfold maybe_sleep_or_die. by rewrite decide_True.
Qed.

Lemma cell_apply_cases op c :
  same_identity c (cell_apply op c) /\
  (unit_or_nan (c_salience c) -> unit_or_nan (c_salience (cell_apply op c))) /\
  (c_state c <> Dead -> c_state (cell_apply op c) = Dead -> dies op c).
Proof.
  destruct (decide (c_state c = Dead)) as [Hd | Hc].
  { destruct (dead_frozen op c Hd) as [_ Hi]. split_and!; [done | | done].
    destruct op; cbn [cell_apply]; try done; try (intros _; apply unit_clamp).
    - unfold ingest. by rewrite decide_True.
    - unfold cell_tick. by rewrite decide_True.
    - unfold maybe_divide. by rewrite decide_True by congruence.
    - unfold maybe_sleep_or_die. by rewrite decide_True. }
  destruct op as [imp now | dt ms ss | v | d | now ss | b |]; cbn [cell_apply].
  - destruct (ingest_cases imp now c Hc) as (? & ? & ? & _). by split_and!.
  - destruct (tick_cases dt ms ss c Hc) as (? & ? & E & _). split_and!; [done | by rewrite E | done].
  - unfold maybe_divide. case_decide; [by split_and! |]. by destruct (f_le _ _).
  - done.
  - unfold maybe_sleep_or_die. rewrite decide_False by done. cbv zeta. cbn [dies].
    set (c1 := if f_lt (c_energy c) _ && (3000 <? _)%Z then _ else c).
    assert (same_identity c c1 /\ c_salience c1 = c_salience c /\ c_energy c1 = c_energy c /\
      c_state c1 <> Dead) as (Hi & Hs & He & Hn) by (unfold c1; by destruct (_ && _)).
    clearbody c1. destruct (f_lt (c_energy c1) (lit 5 100)) eqn:E1; cbn [andb];
      [| split_and!; [done | by rewrite <- Hs | done]].
    destruct (Z.ltb_spec 6000 (u64_saturating_sub now (c_last_response_ms c))) as [Hlt |]; cbn [fst];
      [| split_and!; [done | by rewrite <- Hs | done]].
    split_and!; [done | cbn; by rewrite <- Hs |]. intros _ _. rewrite <- He. split; [done |].
    unfold u64_saturating_sub in Hlt. lia.
  - split_and!; [done | intros _; apply unit_clamp | done].
  - done.
Qed.

(** The life of a cell. In any run of impulses, ticks, divisions and drifts, identity, seed and
    links never change and salience stays in the unit interval (or NaN). A cell that is dead at the
    end died at one step of the run: a check at which its energy was below 0.05, more than six
    seconds after its last response; and from that step on its vital state never changed. *)
Theorem cell_lifecycle ops id seed :
  let c' := cell_run ops (from_seed id seed) in
  c_id c' = id /\ c_seed c' = seed /\ unit_or_nan (c_salience c') /\
  (c_state c' = Dead ->
   exists before op after,
     ops = before ++ op :: after /\
     let c := cell_run before (from_seed id seed) in
     c_state c <> Dead /\ dies op c /\ vitals c' = vitals (cell_apply op c)).
Proof.
  cbv zeta. induction ops as [|op ops IH] using rev_ind.
  - split_and!; try done. right. by vm_compute.
  - unfold cell_run in *. rewrite fold_left_app. cbn [fold_left].
    set (c := fold_left _ ops (from_seed id seed)) in *. destruct IH as (E1 & E2 & Hu & Hd).
    destruct (cell_apply_cases op c) as ((Ei & Es & _) & Hsal & Hdie).
    split_and!; [congruence | congruence | by apply Hsal |]. intros Hdead.
    destruct (decide (c_state c = Dead)) as [Hc | Hc].
    + destruct (Hd Hc) as (before & o & after & -> & Hb & Ho & Hv).
      exists before, o, (after ++ [op]). split_and!; [by rewrite <- app_assoc | done | done |].
      rewrite <- Hv. by apply dead_frozen.
    + exists ops, op, []. split_and!; [done | done | by apply Hdie | done].
Qed.

(** An impulse of NaN strength that matches by its tokens leaves the energy NaN; such a cell divides
    at every tick, since NaN is not at most 0.8, and never sleeps or dies. *)
Lemma nan_energy_divides v c : c_state c = Active -> c_energy c = S754_nan ->
  is_Some (snd (maybe_divide v c)) /\ c_energy (fst (maybe_divide v c)) = S754_nan.
Proof.
  intros Hs He. unfold maybe_divide. rewrite decide_False by (intros Hn; by apply Hn).
  rewrite He. cbn. by split.
Qed.

Lemma nan_energy_immortal now ss c : c_state c = Active -> c_energy c = S754_nan ->
  maybe_sleep_or_die now ss c = (c, false).
Proof.
  intros Hs He. unfold maybe_sleep_or_die. rewrite decide_False by congruence. rewrite He.
  assert (forall y, f_lt S754_nan y = false) as Hn by (by intros []).
  rewrite Hn. cbn [andb]. by rewrite He, Hn.
Qed.

Lemma nan_impulse_poisons imp now c : c_state c = Active -> i_kind imp = Write -> i_strength imp = S754_nan ->
  is_Some (pattern_match (c_affinity c) (core_pattern (c_seed c)) (i_pattern imp) S754_nan (i_tags imp)) ->
  c_energy (fst (ingest imp now c)) = S754_nan /\ c_state (fst (ingest imp now c)) = Active.
Proof.
  intros Hs Hk Hx [score E]. unfold ingest. rewrite decide_False by congruence.
  rewrite Hx, E, Hk. rewrite (bool_decide_false (Write = Affect)) by done. cbn [andb fst].
  change (f32_mul (lit 8 100) S754_nan) with S754_nan. split; [| done].
  cbn [set_state set_energy c_energy].
  replace (f32_add (c_energy c) S754_nan) with S754_nan by by destruct (c_energy c).
  apply f32_clamp_nan.
Qed.
End life.
