(* ===== verification/Trs.v ===== *)
(** * The load regulator ([liminal-core/src/trs.rs])

    A proportional-integral-derivative controller of the field's load. The theorem bounds what it
    can do to the field, whatever it observes. *)

From stdpp Require Import prelude.
From Stdlib Require Import ZArith Lia SpecFloat.
From S2P Require Import Prelude RustStr RustOrd Float NodeCell.

Record TrsState : Type := mkTrs {
  t_alpha : f32;
  t_beta : f32;
  t_target_load : f32;
  t_err_i : f32;
  t_k_p : f32;
  t_k_i : f32;
  t_k_d : f32;
  t_last_err : f32;
  t_last_ts : Z
}.

Definition TrsState_default : TrsState :=
  mkTrs (lit 22 100) (lit 6 10) (lit 6 10) f0 (lit 85 100) (lit 18 100) (lit 5 100) f0 0.

Record TrsConfig : Type := mkTrsConfig {
  tc_alpha : f32;
  tc_beta : f32;
  tc_target_load : f32;
  tc_k_p : f32;
  tc_k_i : f32;
  tc_k_d : f32
}.

Record TrsOutput : Type := mkTrsOutput {
  alpha_new : f32;
  tick_adjust_ms : Z;
  affinity_scale : f32;
  metabolism_scale : f32;
  sleep_threshold_delta : f32
}.

Definition apply_config (cfg : TrsConfig) (s : TrsState) : TrsState :=
  mkTrs (f32_clamp (tc_alpha cfg) (lit 1 100) (lit 95 100))
    (f32_clamp (tc_beta cfg) f0 (lit 95 100))
    (f32_clamp (tc_target_load cfg) f0 f1)
    f0
    (f_max (tc_k_p cfg) f0) (f_max (tc_k_i cfg) f0) (f_max (tc_k_d cfg) f0)
    f0 0.

Definition to_config (s : TrsState) : TrsConfig :=
  mkTrsConfig (t_alpha s) (t_beta s) (t_target_load s) (t_k_p s) (t_k_i s) (t_k_d s).

Definition set_target (target : f32) (s : TrsState) : TrsState :=
  mkTrs (t_alpha s) (t_beta s) (f32_clamp target f0 f1) (t_err_i s) (t_k_p s) (t_k_i s) (t_k_d s)
    (t_last_err s) (t_last_ts s).

Definition softsign (x : f32) : f32 := f32_div x (f32_add f1 (f32_abs x)).

Definition trs_step (now_ms : Z) (observed_load : f32) (s : TrsState) : TrsState * TrsOutput :=
  let observed := f32_clamp observed_load f0 f1 in
  let target := f32_clamp (t_target_load s) f0 f1 in
  let err := f32_sub target observed in
  let dt_ms := if (t_last_ts s =? 0)%Z then 1000%Z
               else Z.max (u64_saturating_sub now_ms (t_last_ts s)) 1 in
  let dt := f32_div (f32_of_Z dt_ms) (f32_of_Z 1000) in
  let beta := f32_clamp (t_beta s) f0 (lit 95 100) in
  let err_i := f32_clamp (f32_add (f32_mul (t_err_i s) beta) (f32_mul err dt)) (lit (-3) 1) (lit 3 1) in
  let err_d := if (t_last_ts s =? 0)%Z then f0 else f32_div (f32_sub err (t_last_err s)) dt in
  let control := f32_add (f32_add (f32_mul (t_k_p s) err) (f32_mul (t_k_i s) err_i)) (f32_mul (t_k_d s) err_d) in
  let control := softsign control in
  let damping := f32_clamp (f32_sub f1 beta) (lit 15 100) f1 in
  let control := f32_mul control damping in
  let alpha := f32_clamp (f32_add (t_alpha s) (f32_mul control (lit 6 100))) (lit 5 100) (lit 95 100) in
  let s' := mkTrs alpha (t_beta s) (t_target_load s) err_i (t_k_p s) (t_k_i s) (t_k_d s) err now_ms in
  let tick_adjust_ms :=
    f_as_i32 (f32_clamp (f32_round (f32_mul (f32_neg control) (lit 140 1))) (lit (-80) 1) (lit 80 1)) in
  (s', mkTrsOutput alpha tick_adjust_ms
         (f32_clamp (f32_add f1 (f32_mul control (lit 25 100))) (lit 7 10) (lit 135 100))
         (f32_clamp (f32_add f1 (f32_mul control (lit 3 10))) (lit 5 10) (lit 15 10))
         (f32_clamp (f32_mul (f32_neg control) (lit 1 10)) (lit (-2) 10) (lit 2 10))).

(** ** Bounds

    Rounding to a float leaves a mantissa of at most 24 bits, so the order of floats is the order of
    the integers they are cast to. *)
Definition canonical (x : f32) : Prop :=
  match x with
  | S754_finite _ m _ => (Z.pos m < 2 ^ 24)%Z
  | _ => True
  end.

Lemma digits2_bound p : (Z.pos p < 2 ^ Z.pos (digits2_pos p))%Z.
Proof.
  induction p as [p IH | p IH |]; cbn [digits2_pos]; [| | done];
    rewrite Pos2Z.inj_succ, Z.pow_succ_r by lia; lia.
Qed.

Lemma shr_1_half r : (0 <= shr_m r)%Z -> shr_m (shr_1 r) = (shr_m r / 2)%Z.
Proof.
  destruct r as [m r s]. cbn. intros Hm. destruct m as [| [p | p |] | p]; [done | | | done | lia]; cbn.
  - apply Z.div_unique with 1%Z; lia.
  - apply Z.div_unique with 0%Z; lia.
Qed.

Lemma iter_shr_half p : forall r, (0 <= shr_m r)%Z ->
  shr_m (iter_pos shr_1 p r) = (shr_m r / 2 ^ Z.pos p)%Z.
Proof.
  assert (Hnn : forall q r, (0 <= shr_m r)%Z -> (0 <= shr_m r / 2 ^ Z.pos q)%Z).
  { intros q r Hr. apply Z.div_pos; [lia |]. apply Z.pow_pos_nonneg; lia. }
  assert (Hpp : forall q, (0 < 2 ^ Z.pos q)%Z) by (intros q; apply Z.pow_pos_nonneg; lia).
  induction p as [p IH | p IH |]; intros r Hr; cbn [iter_pos].
  - assert (0 <= shr_m (shr_1 r))%Z as H1 by (rewrite shr_1_half by done; apply Z.div_pos; lia).
    rewrite IH by (rewrite IH by done; by apply Hnn). rewrite IH by done. rewrite shr_1_half by done.
    rewrite !Z.div_div by (pose proof (Hpp p); lia). f_equal.
    replace (Z.pos p~1) with (1 + Z.pos p + Z.pos p)%Z by lia. rewrite !Z.pow_add_r by lia. ring.
  - rewrite IH by (rewrite IH by done; by apply Hnn). rewrite IH by done.
    rewrite Z.div_div by (pose proof (Hpp p); lia). f_equal.
    replace (Z.pos p~0) with (Z.pos p + Z.pos p)%Z by lia. rewrite Z.pow_add_r by lia. ring.
  - by apply shr_1_half.
Qed.

(** After [shr_fexp] the mantissa fits in 24 bits. *)
Lemma shr_fexp_bound m e l : (0 <= m)%Z ->
  (0 <= shr_m (fst (shr_fexp 24 128 m e l)) < 2 ^ 24)%Z.
Proof.
  intros Hm. unfold shr_fexp.
  set (r := shr_record_of_loc m l). assert (shr_m r = m) as Er by (by destruct l as [| []]).
  assert (m < 2 ^ Zdigits2 m)%Z as Hd.
  { destruct m as [| p |]; [done | apply digits2_bound | lia]. }
  assert (Zdigits2 m - (fexp 24 128 (Zdigits2 m + e) - e) <= 24)%Z as Hfit.
  { unfold fexp. lia. }
  unfold shr. destruct (fexp 24 128 (Zdigits2 m + e) - e)%Z as [| p | p] eqn:En; cbn [fst].
  - rewrite Er. split; [done |]. eapply Z.lt_le_trans; [exact Hd |]. apply Z.pow_le_mono_r; lia.
  - rewrite iter_shr_half, Er by (by rewrite Er). split.
    + apply Z.div_pos; [lia |]. apply Z.pow_pos_nonneg; lia.
    + apply Z.div_lt_upper_bound; [apply Z.pow_pos_nonneg; lia |].
      eapply Z.lt_le_trans; [exact Hd |]. rewrite <- Z.pow_add_r by lia. apply Z.pow_le_mono_r; lia.
  - rewrite Er. split; [done |]. eapply Z.lt_le_trans; [exact Hd |]. apply Z.pow_le_mono_r; lia.
Qed.

Lemma binary_round_aux_canonical s m e l : (0 <= m)%Z -> canonical (binary_round_aux 24 128 s m e l).
Proof.
  intros Hm. unfold binary_round_aux.
  pose proof (shr_fexp_bound m e l Hm) as H1. destruct (shr_fexp 24 128 m e l) as [r1 e1]. cbn [fst] in H1.
  set (m1 := round_nearest_even (shr_m r1) (loc_of_shr_record r1)).
  assert (0 <= m1)%Z as Hm1.
  { unfold m1, round_nearest_even. destruct (loc_of_shr_record r1) as [| []]; try lia.
    destruct (Z.even (shr_m r1)); lia. }
  pose proof (shr_fexp_bound m1 e1 loc_Exact Hm1) as H2.
  destruct (shr_fexp 24 128 m1 e1 loc_Exact) as [r2 e2]. cbn [fst] in H2.
  destruct (shr_m r2) as [| p | p]; [done | | done]. destruct (e2 <=? 128 - 24)%Z; [cbn; lia | done].
Qed.

Lemma binary_round_canonical s m e : canonical (binary_round 24 128 s m e).
Proof.
  unfold binary_round. destruct (shl_align _ _ _) as [mz ez].
  apply binary_round_aux_canonical. lia.
Qed.

(** The float of the tick adjustment before it is cast: rounding leaves large numbers alone and
    rounds the others. *)
Lemma f32_round_canonical x :
  canonical (f32_round x) \/ exists s m e, f32_round x = S754_finite s m e /\ (0 <= e)%Z.
Proof.
  destruct x as [| | | s m e]; try by left. cbn [f32_round]. destruct (Z.leb_spec 0 e).
  - right. by exists s, m, e.
  - left. destruct (_ / _)%Z; try done. apply binary_round_canonical.
Qed.

Definition f80 : f32 := lit 80 1.
Definition fm80 : f32 := lit (-80) 1.

(** [m * 2 ^ e <= 80] for a canonical number that is not above 80. *)
Lemma trunc_below_80 m e : (Z.pos m < 2 ^ 24)%Z \/ (0 <= e)%Z ->
  (e < -17)%Z \/ (e = -17 /\ Z.pos m <= 10485760)%Z -> (0 <= f_trunc false m e <= 80)%Z.
Proof.
  intros Hc He. unfold f_trunc. destruct (Z.leb_spec 0 e) as [Hp | Hn]; [lia |].
  destruct Hc as [Hc | Hc]; [| lia].
  assert (0 < 2 ^ (- e))%Z as Hpos by (apply Z.pow_pos_nonneg; lia). split; [apply Z.div_pos; lia |].
  destruct He as [He | [-> Hm]].
  - assert (2 ^ 18 <= 2 ^ (- e))%Z by (apply Z.pow_le_mono_r; lia).
    assert (Z.pos m / 2 ^ (- e) < 81)%Z; [| lia]. apply Z.div_lt_upper_bound; lia.
  - assert (Z.pos m / 2 ^ (- (-17)) < 81)%Z; [| lia]. apply Z.div_lt_upper_bound; [done |].
    change (2 ^ (- (-17)))%Z with 131072%Z. lia.
Qed.

(** The order of two finite numbers of one sign. *)
Lemma f_le_finite s m e m' e' :
  f_le (S754_finite s m e) (S754_finite s m' e') = true ->
  if s then (e' < e \/ e' = e /\ Z.pos m' <= Z.pos m)%Z else (e < e' \/ e = e' /\ Z.pos m <= Z.pos m')%Z.
Proof.
  unfold f_le, SFleb, SFcompare. destruct s.
  - destruct (Z.compare_spec e e') as [-> | ? | ?]; [| done | by left].
    intros E. right. split; [done |]. rewrite Pos.compare_cont_spec in E. cbn in E.
    destruct (Pos.compare_spec m m') as [-> | ? | ?]; cbn in E; [done | done | lia].
  - destruct (Z.compare_spec e e') as [-> | ? | ?]; [| by left | done].
    intros E. right. split; [done |]. rewrite Pos.compare_cont_spec in E. cbn in E.
    destruct (Pos.compare_spec m m') as [-> | ? | ?]; cbn in E; [done | lia | done].
Qed.

Lemma cast_80 x : (canonical x \/ exists s m e, x = S754_finite s m e /\ (0 <= e)%Z) ->
  is_nan x = true \/ f_in fm80 f80 x = true -> (-80 <= f_as_i32 x <= 80)%Z.
Proof.
  intros Hc Hx. destruct x as [s | s | | s m e]; [unfold f_as_i32; cbn; lia | | unfold f_as_i32; cbn; lia |].
  { destruct Hx as [? | Hx]; [done |]. destruct s; vm_compute in Hx; done. }
  destruct Hx as [? | [H1 H2]%andb_true_iff]; [done |].
  assert (Hc' : (Z.pos m < 2 ^ 24)%Z \/ (0 <= e)%Z) by (destruct Hc as [? | (? & ? & ? & [= <- <- <-] & ?)]; auto).
  assert ((e < -17)%Z \/ (e = -17 /\ Z.pos m <= 10485760)%Z) as He.
  { replace fm80 with (S754_finite true 10485760 (-17)) in H1 by by vm_compute.
    replace f80 with (S754_finite false 10485760 (-17)) in H2 by by vm_compute.
    destruct s; [apply f_le_finite in H1 | apply f_le_finite in H2]; lia. }
  pose proof (trunc_below_80 m e Hc' He) as Ht. unfold f_as_i32, f_cast, f_trunc in *. destruct s; lia.
Qed.

(** The regulator is bounded. Whatever the state and the observation, the adjustment of the tick
    is an integer between -80 and 80 milliseconds, and the new gain, the scales and the shift of the
    sleep threshold are in their ranges unless they are NaN; the target and its bounds do not move. *)
Theorem trs_step_bounded now_ms observed s :
  let '(s', out) := trs_step now_ms observed s in
  (-80 <= tick_adjust_ms out <= 80)%Z /\
  alpha_new out = t_alpha s' /\
  (is_nan (t_alpha s') = true \/ f_in (lit 5 100) (lit 95 100) (t_alpha s') = true) /\
  (is_nan (affinity_scale out) = true \/ f_in (lit 7 10) (lit 135 100) (affinity_scale out) = true) /\
  (is_nan (metabolism_scale out) = true \/ f_in (lit 5 10) (lit 15 10) (metabolism_scale out) = true) /\
  (is_nan (sleep_threshold_delta out) = true
   \/ f_in (lit (-2) 10) (lit 2 10) (sleep_threshold_delta out) = true) /\
  t_target_load s' = t_target_load s /\ to_config s' = to_config (mkTrs (t_alpha s') (t_beta s)
    (t_target_load s) f0 (t_k_p s) (t_k_i s) (t_k_d s) f0 0).
Proof.
  unfold trs_step. cbv zeta. cbn [tick_adjust_ms alpha_new t_alpha affinity_scale metabolism_scale
    sleep_threshold_delta t_target_load to_config t_beta t_k_p t_k_i t_k_d].
  split; [| split_and!; try done; by apply f32_clamp_ok].
  apply cast_80; [| by apply f32_clamp_ok].
  unfold f32_clamp. destruct (f_lt _ (lit (-80) 1)); [left; by vm_compute |].
  destruct (f_lt (lit 80 1) _); [left; by vm_compute | apply f32_round_canonical].
Qed.

(** A gain that is infinite, which [apply_config] accepts, makes the control NaN: the gain alpha and
    every scale become NaN. *)
Example trs_infinite_gain :
  let cfg := mkTrsConfig (lit 2 10) (lit 6 10) (lit 6 10) (S754_infinity false) f0 f0 in
  let '(s, out) := trs_step 1000 (lit 3 10) (apply_config cfg TrsState_default) in
  t_alpha s = S754_nan /\ metabolism_scale out = S754_nan /\ tick_adjust_ms out = 0%Z.
Proof. vm_compute. repeat split. Qed.
