(* ===== verification/Json.v ===== *)
(** * JSON values

    [serde_json::Value]: a number is a [u64], a negative [i64] or a finite [f64], and an object is a
    [BTreeMap], a [gmap] read in the order of its keys. *)

From stdpp Require Import prelude gmap strings fin_maps list sorting.
From Stdlib Require Import ZArith Lia SpecFloat.
From S2P Require Import Prelude RustStr RustOrd Float.

Inductive json : Type :=
| JNull
| JBool (b : bool)
| JU64 (n : Z)
| JI64 (n : Z)
| JF64 (x : f64)
| JStr (s : string)
| JArr (l : list json)
| JObj (m : gmap string json).

(** [f64::from(x)] for an [f32]. *)
Definition f64_of_f32 (x : f32) : f64 :=
  match x with
  | S754_finite s m e => binary_round 53 1024 s m e
  | _ => x
  end.

(** [x as f32] for an [f64]. *)
Definition f32_of_f64 (x : f64) : f32 :=
  match x with
  | S754_finite s m e => binary_normalize 24 128 (cond_Zopp s (Z.pos m)) e s
  | _ => x
  end.

(** [json!(x)] for a float: a number that is not finite becomes [null]. *)
Definition json_f64 (x : f64) : json :=
  match x with
  | S754_nan | S754_infinity _ => JNull
  | _ => JF64 x
  end.
Definition json_f32 (x : f32) : json := json_f64 (f64_of_f32 x).

(** [json!({ ... })]. *)
Definition json_obj (l : list (string * json)) : json :=
  JObj (fold_left (fun m p => <[fst p := snd p]> m) l ∅).

Fixpoint jsize (j : json) : nat :=
  match j with
  | JArr l => S (sum_list_with jsize l)
  | JObj m => S (map_fold (fun _ x n => jsize x + n) 0 m)
  | _ => 1
  end.

Lemma map_fold_sum_le (f : json -> nat) (m : gmap string json) k x :
  m !! k = Some x -> f x <= map_fold (fun _ x n => f x + n) 0 m.
Proof.
  intros Hk. rewrite (map_fold_delete_L _ _ k x) by (done || (intros; lia)). lia.
Qed.

(** Induction with a hypothesis for every element of an array or object. *)
Lemma json_ind2 (P : json -> Prop) :
  P JNull -> (forall b, P (JBool b)) -> (forall n, P (JU64 n)) -> (forall n, P (JI64 n)) ->
  (forall x, P (JF64 x)) -> (forall s, P (JStr s)) ->
  (forall l, Forall P l -> P (JArr l)) -> (forall m, map_Forall (fun _ => P) m -> P (JObj m)) ->
  forall j, P j.
Proof.
  intros H1 H2 H3 H4 H5 H6 H7 H8 j. remember (jsize j) as n eqn:En.
  assert (jsize j <= n) as Hn by lia. clear En. revert j Hn.
  induction n as [|n IH]; intros j Hn; [by destruct j; cbn in Hn; lia |].
  destruct j as [| | | | | | l | m]; auto; cbn in Hn.
  - apply H7, Forall_forall. intros x Hx. apply IH.
    pose proof (sum_list_with_in x jsize l Hx). lia.
  - apply H8. intros k x Hx. apply IH. pose proof (map_fold_sum_le jsize m k x Hx). lia.
Qed.

(** The well-formed values: what [serde_json] can represent. *)
Fixpoint json_ok (j : json) : Prop :=
  match j with
  | JU64 n => is_u64 n
  | JI64 n => (- 2 ^ 63 <= n < 0)%Z
  | JF64 x => json_f64 x = JF64 x
  | JArr l => (fix all l := match l with [] => True | x :: l => json_ok x /\ all l end) l
  | JObj m => map_fold (fun _ x P => json_ok x /\ P) True m
  | _ => True
  end.

Lemma json_ok_arr l : json_ok (JArr l) <-> Forall json_ok l.
Proof. induction l as [|x l IH]; [by split |]. rewrite Forall_cons, <- IH. done. Qed.

Lemma json_ok_obj m : json_ok (JObj m) <-> map_Forall (fun _ => json_ok) m.
Proof.
  cbn. apply (map_fold_weak_ind (fun P m => P <-> map_Forall (fun _ => json_ok) m)).
  - split; [intros _; apply map_Forall_empty | done].
  - intros k x m' r Hk IH. by rewrite map_Forall_insert, IH.
Qed.

(** ** Access: [Value::get], [as_str], [as_u64], [as_i64], [as_f64], [as_bool], [as_array] *)
Definition jget (key : string) (j : json) : option json :=
  match j with
  | JObj m => m !! key
  | _ => None
  end.
Definition as_str (j : json) : option string :=
  match j with
  | JStr s => Some s
  | _ => None
  end.
Definition as_u64 (j : json) : option Z :=
  match j with
  | JU64 n => Some n
  | _ => None
  end.
Definition as_i64 (j : json) : option Z :=
  match j with
  | JU64 n => if (n <? 2 ^ 63)%Z then Some n else None
  | JI64 n => Some n
  | _ => None
  end.
Definition as_f64 (j : json) : option f64 :=
  match j with
  | JU64 n | JI64 n => Some (f64_of_Z n)
  | JF64 x => Some x
  | _ => None
  end.
Definition as_bool (j : json) : option bool :=
  match j with
  | JBool b => Some b
  | _ => None
  end.
Definition as_array (j : json) : option (list json) :=
  match j with
  | JArr l => Some l
  | _ => None
  end.

(** ** Text

    [serde_json::to_string] and [from_str]. A value is read back from its text, up to the last
    digit of its floats: without the feature [float_roundtrip] the reader may round a float
    differently ([reread]). The text of an object starts with a brace, and no text has white space
    around it. The laws are stated of every value; of those that are not [json_ok], which
    [serde_json] cannot hold, they say nothing about a program. *)
Class JsonText : Type := {
  json_to_string : json -> string;
  json_from_str : string -> option json;
  reread : f64 -> f64
}.

Fixpoint map_floats (g : f64 -> f64) (j : json) : json :=
  match j with
  | JF64 x => JF64 (g x)
  | JArr l => JArr (map (map_floats g) l)
  | JObj m => JObj (map_floats g <$> m)
  | _ => j
  end.

Class JsonTextOk `{JsonText} : Prop := {
  read_written : forall j, json_from_str (json_to_string j) = Some (map_floats reread j);
  written_object : forall m, exists t, json_to_string (JObj m) = "{" +:+ t;
  written_trimmed : forall j, trim (json_to_string j) = json_to_string j
}.

(** The members of [json!({ ... })], whose keys are distinct. *)
Lemma jget_obj key l : NoDup l.*1 -> jget key (json_obj l) = (list_to_map l : gmap string json) !! key.
Proof.
  intros Hn. unfold json_obj, jget. f_equal.
  assert (forall m : gmap string json, fold_left (fun m p => <[fst p := snd p]> m) l m = (list_to_map l : gmap string json) ∪ m) as E.
  { induction l as [|[k v] l IH]; intros m; cbn [fold_left fst snd]; [by rewrite list_to_map_nil, (left_id_L ∅ (∪)) |].
    apply NoDup_cons in Hn as [Hk Hn]. rewrite IH by done. rewrite list_to_map_cons, <- insert_union_l.
    rewrite insert_union_r; [done |]. by apply not_elem_of_list_to_map_1. }
  by rewrite E, (right_id_L ∅ (∪)).
Qed.
