(* ===== verification/StreamCodec.v ===== *)
(** * The stream codec ([liminal-bridge-net/src/stream_codec.rs])

    JSON and CBOR framing of the websocket stream. The CBOR form abbreviates known object keys;
    decoding expands them again. The theorem says which values survive. *)

From stdpp Require Import prelude gmap strings fin_maps list sorting.
From Stdlib Require Import ZArith Lia SpecFloat.
From S2P Require Import Prelude RustStr RustOrd Float Crypto Json.

(** [serde_cbor::Value]; a map is listed in the order of the [BTreeMap] it is. *)
Inductive cbor : Type :=
| CNull
| CBool (b : bool)
| CInteger (n : Z)
| CFloat (x : f64)
| CBytes (b : bytes)
| CText (s : string)
| CArray (l : list cbor)
| CMap (l : list (cbor * cbor))
| CTag (n : Z) (v : cbor).

Inductive StreamFormat : Type := Json | Cbor_.

(** [tungstenite::Message]; the control frames carry nothing the codec reads. *)
Inductive Message : Type :=
| MText (text : string)
| MBinary (b : bytes)
| MOther.

Definition shorten_key (key : string) : string :=
  if decide (key = "command" \/ key = "cmd") then "cmd"
  else if decide (key = "query" \/ key = "q") then "q"
  else if decide (key = "data" \/ key = "d") then "d"
  else if decide (key = "pattern" \/ key = "p") then "p"
  else if decide (key = "format" \/ key = "f") then "f"
  else if decide (key = "events" \/ key = "ev") then "ev"
  else if decide (key = "metrics" \/ key = "mt") then "mt"
  else if decide (key = "meta") then "m"
  else if decide (key = "source" \/ key = "src") then "src"
  else if decide (key = "id") then "id"
  else if decide (key = "dt") then "dt"
  else key.

Definition expand_key (key : string) : string :=
  if decide (key = "cmd") then "cmd"
  else if decide (key = "q") then "q"
  else if decide (key = "d") then "data"
  else if decide (key = "p") then "pattern"
  else if decide (key = "f") then "format"
  else if decide (key = "ev") then "events"
  else if decide (key = "mt") then "metrics"
  else if decide (key = "m") then "meta"
  else if decide (key = "src") then "source"
  else key.

(** The order of text keys in [serde_cbor]: the shorter first, then by bytes. *)
Definition cbor_key_le (p q : string * cbor) : Prop :=
  prod_cmp Z.compare cmp (blen (as_bytes p.1), p.1) (blen (as_bytes q.1), q.1) <> Gt.
#[export] Instance cbor_key_le_dec : RelDecision cbor_key_le.
Proof. intros p q. unfold cbor_key_le. solve_decision. Defined.

(** Insertion of the entries of an object under renamed keys, in order. *)
Definition insert_renamed {A : Type} (f : string -> string) (l : list (string * A)) : gmap string A :=
  fold_left (fun acc p => <[f p.1 := p.2]> acc) l ∅.

Fixpoint json_to_cbor (value : json) : cbor :=
  match value with
  | JNull => CNull
  | JBool b => CBool b
  | JU64 n | JI64 n => CInteger n
  | JF64 x => CFloat x
  | JStr s => CText s
  | JArr items => CArray (map json_to_cbor items)
  | JObj m =>
      let cbor_map := insert_renamed shorten_key (bt_iter (json_to_cbor <$> m)) in
      CMap ((fun p => (CText p.1, p.2)) <$> merge_sort cbor_key_le (map_to_list cbor_map))
  end.

(** [json!(i)] for an [i128]: [to_value] fails outside [u64] and [i64], and the macro unwraps. *)
Definition json_i128 (n : Z) : option json :=
  if (0 <=? n)%Z && (n <? u64_size)%Z then Some (JU64 n)
  else if (- 2 ^ 63 <=? n)%Z && (n <? 0)%Z then Some (JI64 n)
  else None.

Section codec.
(** The [Debug] text of a key that is not a text. *)
Variable debug_text : cbor -> string.

Definition key_str (key : cbor) : string :=
  match key with
  | CText text => text
  | other => debug_text other
  end.

(** [None] is a panic. *)
Fixpoint cbor_to_json (value : cbor) : option json :=
  match value with
  | CNull => Some JNull
  | CBool b => Some (JBool b)
  | CInteger n => json_i128 n
  | CFloat x => Some (json_f64 x)
  | CBytes b => Some (JArr (map (fun b => JU64 (byte_Z b)) b))
  | CText s => Some (JStr s)
  | CArray items => JArr <$> mapM cbor_to_json items
  | CMap l =>
      entries ← mapM (fun p => (fun j => (key_str p.1, j)) <$> cbor_to_json p.2) l;
      Some (JObj (insert_renamed expand_key entries))
  | CTag _ inner => cbor_to_json inner
  end.

(** [serde_json::to_string] and [from_str]; an error is its text. *)
Context (json_to_string : json -> result string string) (json_from_str : string -> result json string).
Context `{Cbor cbor}.

Definition encode_cbor_json (value : json) (format : StreamFormat) : result Message string :=
  match format with
  | Json => let! text := json_to_string value in Ok (MText text)
  | Cbor_ => let! b := to_vec (json_to_cbor value) in Ok (MBinary b)
  end.

(** The outcome of decoding: a value and its format, an error, or a panic. *)
Definition decode_cbor_json (message : Message) : option (result (json * StreamFormat) string) :=
  match message with
  | MText text => Some (let! value := json_from_str text in Ok (value, Json))
  | MBinary b =>
      match from_slice b with
      | Err e => Some (Err e)
      | Ok v => (fun j => Ok (j, Cbor_)) <$> cbor_to_json v
      end
  | MOther => Some (Err "unsupported websocket message")
  end.

(** ** Keys *)
Definition long_key (k : string) : string := expand_key (shorten_key k).

(** The keys that survive. *)
Definition stable_key (k : string) : Prop := long_key k = k.

(** The keys the codec knows; every other key is left alone. *)
Definition known_keys : list string :=
  ["command"; "cmd"; "query"; "q"; "data"; "d"; "pattern"; "p"; "format"; "f"; "events"; "ev";
   "metrics"; "mt"; "meta"; "m"; "source"; "src"; "id"; "dt"].

Lemma unknown_key k : k ∉ known_keys -> shorten_key k = k /\ expand_key k = k.
Proof.
  intros Hk. assert (forall x, x ∈ known_keys -> k <> x) as Hne by (intros x Hx ->; done).
  unfold shorten_key, expand_key.
  split; repeat (rewrite decide_False by (intros ?; destruct_or?; subst; apply Hk; set_solver)); done.
Qed.

Lemma known_key (P : string -> Prop) : Forall P known_keys -> forall k, k ∈ known_keys -> P k.
Proof. by rewrite Forall_forall. Qed.

Lemma long_key_idemp k : stable_key (long_key k).
Proof.
  destruct (decide (k ∈ known_keys)) as [Hk | Hk].
  - revert k Hk. apply (known_key (fun k => stable_key (long_key k))). unfold known_keys. repeat constructor.
  - unfold stable_key, long_key. destruct (unknown_key k Hk) as [-> E]. rewrite E.
    destruct (unknown_key k Hk) as [-> _]. exact E.
Qed.

Lemma shorten_long k : shorten_key (long_key k) = shorten_key k.
Proof.
  destruct (decide (k ∈ known_keys)) as [Hk | Hk].
  - revert k Hk. apply (known_key (fun k => shorten_key (long_key k) = shorten_key k)).
    unfold known_keys. repeat constructor.
  - unfold long_key. destruct (unknown_key k Hk) as [-> E]. by rewrite E, (proj1 (unknown_key k Hk)).
Qed.

Lemma expand_shorten_inj k1 k2 : long_key k1 = long_key k2 -> shorten_key k1 = shorten_key k2.
Proof. intros E. by rewrite <- (shorten_long k1), E, shorten_long. Qed.

Lemma shorten_stable_inj k1 k2 : stable_key k1 -> stable_key k2 ->
  shorten_key k1 = shorten_key k2 -> k1 = k2.
Proof. intros E1 E2 E. rewrite <- E1, <- E2. unfold long_key. by rewrite E. Qed.

(** ** Renaming entries *)
Lemma insert_renamed_snoc {A} f (l : list (string * A)) p :
  insert_renamed f (l ++ [p]) = <[f p.1 := p.2]> (insert_renamed f l).
Proof. unfold insert_renamed. by rewrite fold_left_app. Qed.

Lemma insert_renamed_elem {A} f (l : list (string * A)) s v :
  insert_renamed f l !! s = Some v -> exists k, (k, v) ∈ l /\ f k = s.
Proof.
  induction l as [|[k w] l IH] using rev_ind; [done |]. rewrite insert_renamed_snoc. cbn.
  rewrite lookup_insert_Some. intros [[<- <-] | [_ Hl]].
  - exists k. set_solver.
  - destruct (IH Hl) as (k' & ? & ?). exists k'. set_solver.
Qed.

Lemma insert_renamed_lookup {A} f (l : list (string * A)) k v :
  (forall k1 k2, k1 ∈ l.*1 -> k2 ∈ l.*1 -> f k1 = f k2 -> k1 = k2) -> NoDup l.*1 ->
  (k, v) ∈ l -> insert_renamed f l !! f k = Some v.
Proof.
  induction l as [|[k' w] l IH] using rev_ind; intros Hinj Hnd Hin; [set_solver |].
  rewrite insert_renamed_snoc. rewrite fmap_app in Hinj, Hnd. cbn in Hinj, Hnd |- *.
  apply NoDup_app in Hnd as (Hnd & Hdis & _). apply elem_of_app in Hin as [Hin | Hin].
  - assert (k ∈ l.*1) as Hk by (apply list_elem_of_fmap; by exists (k, v)).
    rewrite lookup_insert_ne; [apply IH; [| done | done] |].
    + intros k1 k2 H1 H2. apply Hinj; set_solver.
    + intros E. apply (Hdis k Hk). rewrite (Hinj k' k) by set_solver || done. set_solver.
  - apply list_elem_of_singleton in Hin as [= -> ->]. by rewrite lookup_insert_eq.
Qed.

Lemma insert_renamed_dom {A} f (l : list (string * A)) k :
  k ∈ l.*1 -> is_Some (insert_renamed f l !! f k).
Proof.
  induction l as [|[k' w] l IH] using rev_ind; [set_solver |].
  rewrite insert_renamed_snoc, fmap_app, elem_of_app. cbn. intros [Hk | Hk].
  - rewrite lookup_insert_is_Some'. auto.
  - apply list_elem_of_singleton in Hk as ->. rewrite lookup_insert_eq. eauto.
Qed.

(** ** What survives *)
Fixpoint stable (j : json) : Prop :=
  match j with
  | JArr l => (fix all l := match l with [] => True | x :: l => stable x /\ all l end) l
  | JObj m => map_fold (fun k x P => (stable_key k /\ stable x) /\ P) True m
  | _ => True
  end.

Lemma stable_arr l : stable (JArr l) <-> Forall stable l.
Proof. induction l as [|x l IH]; [by split |]. rewrite Forall_cons, <- IH. done. Qed.

Lemma stable_obj m : stable (JObj m) <-> map_Forall (fun k x => stable_key k /\ stable x) m.
Proof.
  cbn. apply (map_fold_weak_ind (fun P m => P <-> map_Forall (fun k x => stable_key k /\ stable x) m)).
  - split; [intros _; apply map_Forall_empty | done].
  - intros k x m' r Hk IH. by rewrite map_Forall_insert, IH.
Qed.

Lemma mapM_pairs (l : list (string * cbor)) (g : cbor -> json) :
  Forall (fun p => cbor_to_json p.2 = Some (g p.2)) l ->
  mapM (fun p => (fun j => (key_str p.1, j)) <$> cbor_to_json p.2) ((fun p => (CText p.1, p.2)) <$> l)
  = Some ((fun p => (p.1, g p.2)) <$> l).
Proof.
  intros Hl. apply mapM_Some_2, Forall2_fmap_l, Forall2_fmap_r, Forall_Forall2_diag.
  eapply Forall_impl; [exact Hl |]. cbn. intros p ->. done.
Qed.

Lemma json_i128_ok n : is_u64 n -> json_i128 n = Some (JU64 n).
Proof.
  intros [H1 H2]. unfold json_i128. by rewrite (proj2 (Z.leb_le 0 n)), (proj2 (Z.ltb_lt n u64_size)).
Qed.

Lemma json_i128_neg n : (- 2 ^ 63 <= n < 0)%Z -> json_i128 n = Some (JI64 n).
Proof.
  intros [H1 H2]. unfold json_i128. rewrite (proj2 (Z.leb_gt 0 n)) by done. cbn [andb].
  by rewrite (proj2 (Z.leb_le (- 2 ^ 63) n)), (proj2 (Z.ltb_lt n 0)).
Qed.

(** The decoded form of an encoded value. *)
Definition decoded (j j' : json) : Prop :=
  cbor_to_json (json_to_cbor j) = Some j' /\ stable j' /\ (stable j -> j' = j).

Lemma decoded_obj m :
  map_Forall (fun _ x => exists x', decoded x x') m -> exists j', decoded (JObj m) j'.
Proof.
  intros IH.
  (* the decoded form of an encoded element *)
  set (g := fun v => default JNull (cbor_to_json v)).
  set (cm := insert_renamed shorten_key (bt_iter (json_to_cbor <$> m))).
  set (l := merge_sort cbor_key_le (map_to_list cm)).
  assert (Hl : forall s v, (s, v) ∈ l <-> cm !! s = Some v).
  { intros s v. unfold l. rewrite merge_sort_Permutation. apply elem_of_map_to_list. }
  assert (Hcm : forall s v, cm !! s = Some v ->
    exists k x, m !! k = Some x /\ v = json_to_cbor x /\ s = shorten_key k).
  { intros s v (k & Hin & <-)%insert_renamed_elem. apply elem_of_bt_iter in Hin.
    rewrite lookup_fmap in Hin. apply fmap_Some in Hin as (x & Hx & ->). by exists k, x. }
  assert (Hg : Forall (fun p => cbor_to_json p.2 = Some (g p.2)) l).
  { apply Forall_forall. intros [s v] Hin. apply Hl, Hcm in Hin as (k & x & Hx & -> & _).
    destruct (IH k x Hx) as (x' & E & _). unfold g. cbn. by rewrite E. }
  exists (JObj (insert_renamed expand_key ((fun p => (p.1, g p.2)) <$> l))). split_and!.
  - cbn [json_to_cbor cbor_to_json]. fold cm l. by rewrite (mapM_pairs l g Hg).
  - apply stable_obj. intros k x' Hk. apply insert_renamed_elem in Hk as (s & Hin & <-).
    apply list_elem_of_fmap in Hin as ([s' v] & [= -> ->] & Hin).
    apply Hl, Hcm in Hin as (k & x & Hx & -> & ->). destruct (IH k x Hx) as (x' & E & Hst & _).
    split; [apply long_key_idemp |]. unfold g. cbn. by rewrite E.
  - intros Hst. rewrite stable_obj in Hst. f_equal. apply map_eq. intros k.
    assert (Hnd : NoDup l.*1).
    { unfold l. rewrite merge_sort_Permutation. apply NoDup_fst_map_to_list. }
    assert (Hm : forall k x, m !! k = Some x -> cm !! shorten_key k = Some (json_to_cbor x)).
    { intros k0 x Hx. apply insert_renamed_lookup.
      - intros k1 k2 H1 H2.
        apply list_elem_of_fmap in H1 as ([? ?] & -> & H1%elem_of_bt_iter).
        apply list_elem_of_fmap in H2 as ([? ?] & -> & H2%elem_of_bt_iter).
        rewrite lookup_fmap, fmap_Some in H1, H2. destruct H1 as (? & H1 & _), H2 as (? & H2 & _).
        apply shorten_stable_inj; [apply (Hst _ _ H1) | apply (Hst _ _ H2)].
      - apply bt_iter_NoDup.
      - apply elem_of_bt_iter. by rewrite lookup_fmap, Hx. }
    assert (Hinj : forall k1 k2, k1 ∈ l.*1 -> k2 ∈ l.*1 -> expand_key k1 = expand_key k2 -> k1 = k2).
    { intros k1 k2 H1 H2. apply list_elem_of_fmap in H1 as ([s1 v1] & -> & H1).
      apply list_elem_of_fmap in H2 as ([s2 v2] & -> & H2). cbn.
      apply Hl, Hcm in H1 as (a & ? & _ & _ & ->). apply Hl, Hcm in H2 as (b & ? & _ & _ & ->).
      apply (expand_shorten_inj a b). }
    assert (Hfst : ((fun p : string * cbor => (p.1, g p.2)) <$> l).*1 = l.*1).
    { rewrite <- list_fmap_compose. by apply list_fmap_ext. }
    destruct (m !! k) as [x|] eqn:Hk.
    + destruct (Hst _ _ Hk) as [Hks Hxs]. destruct (IH _ _ Hk) as (x' & E & _ & Hx').
      rewrite (Hx' Hxs) in E. unfold stable_key, long_key in Hks. rewrite <- Hks at 1.
      apply insert_renamed_lookup.
      * by rewrite Hfst.
      * by rewrite Hfst.
      * apply list_elem_of_fmap. exists (shorten_key k, json_to_cbor x). split.
        -- cbn. f_equal. unfold g. by rewrite E.
        -- apply Hl. by apply Hm.
    + apply eq_None_not_Some. intros [y Hy]. apply insert_renamed_elem in Hy as (s & Hin & <-).
      apply list_elem_of_fmap in Hin as ([s' v] & [= -> ->] & Hin).
      apply Hl, Hcm in Hin as (k0 & x & Hx & _ & ->). destruct (Hst _ _ Hx) as [Hks _].
      unfold stable_key, long_key in Hks. rewrite Hks in Hk. congruence.
Qed.

Lemma decoded_total j : json_ok j -> exists j', decoded j j'.
Proof.
  induction j as [| b | n | n | x | s | l IH | m IH] using json_ind2; intros Hok;
    try (eexists; split; [reflexivity | split; [exact I | done]]).
  - exists (JU64 n). split; [by apply json_i128_ok | split; [exact I | done]].
  - exists (JI64 n). split; [by apply json_i128_neg | split; [exact I | done]].
  - exists (JF64 x). split; [cbn; by f_equal | split; [exact I | done]].
  - rewrite json_ok_arr in Hok.
    assert (exists l', Forall2 decoded l l') as [l' Hl'].
    { clear -IH Hok. induction IH as [|x l Hx _ IH]; [by exists [] |].
      apply Forall_cons in Hok as [Hox Hok]. destruct (Hx Hox) as [x' ?], (IH Hok) as [l' ?].
      exists (x' :: l'). by constructor. }
    exists (JArr l'). split_and!.
    + cbn [json_to_cbor cbor_to_json].
      assert (mapM cbor_to_json (map json_to_cbor l) = Some l') as ->; [| done].
      apply mapM_Some_2, Forall2_fmap_l. eapply Forall2_impl; [exact Hl' |]. by intros ? ? [? _].
    + apply stable_arr. clear -Hl'. induction Hl' as [|? ? ? ? [_ [? _]]]; by constructor.
    + rewrite stable_arr. intros Hs. f_equal. clear -Hl' Hs.
      induction Hl' as [|x x' l l' (_ & _ & Hx) _ IH]; [done |].
      apply Forall_cons in Hs as [? ?]. f_equal; auto.
  - rewrite json_ok_obj in Hok. apply decoded_obj. intros k x Hx. apply (IH k x Hx), (Hok k x Hx).
Qed.

(** A value with stable keys arrives as it was sent. *)
Lemma codec_carries j msg :
  CborOk cbor -> json_ok j -> stable j -> encode_cbor_json j Cbor_ = Ok msg -> decode_cbor_json msg = Some (Ok (j, Cbor_)).
Proof.
  intros Hc Hok Hst E. cbn in E. apply rbind_ok in E as (b & Eb & [= <-]).
  apply from_to_vec in Eb. destruct (decoded_total j Hok) as (j' & Ed & _ & Hid). cbn. by rewrite Eb, Ed, (Hid Hst).
Qed.

(** C18: what the binary stream preserves. Decoding the CBOR message of a JSON value never fails or
    panics; the value that arrives has only long keys, and it is the value that was sent exactly
    when every object key of it is stable, that is, not one of the abbreviated forms and not
    [command] or [query]. *)
Theorem stream_codec_exact j msg :
  CborOk cbor -> json_ok j -> encode_cbor_json j Cbor_ = Ok msg ->
  exists j', decode_cbor_json msg = Some (Ok (j', Cbor_)) /\ stable j' /\ (j' = j <-> stable j).
Proof.
  intros Hc Hok E. cbn in E. apply rbind_ok in E as (b & Eb & [= <-]).
  apply from_to_vec in Eb. destruct (decoded_total j Hok) as (j' & Ed & Hst & Hid).
  exists j'. split_and!; [cbn; by rewrite Eb, Ed | done |].
  split; [by intros -> | exact Hid].
Qed.

(** An integer below the range of [i64], which CBOR can carry, makes the decoder panic. *)
Lemma cbor_integer_panics b n : from_slice b = Ok (CInteger n) -> (n < - 2 ^ 63)%Z ->
  decode_cbor_json (MBinary b) = None.
Proof.
  intros E Hn. cbn. rewrite E. cbn. unfold json_i128.
  rewrite (proj2 (Z.leb_gt 0 n)) by lia. cbn [andb]. by rewrite (proj2 (Z.leb_gt (- 2 ^ 63) n)).
Qed.
End codec.

(** A codec of the one-entry objects with a null value. *)
#[local] Instance one_entry : Cbor cbor := {|
  to_vec := fun v => match v with CMap [(CText k, CNull)] => Ok (as_bytes k) | _ => Err "unsupported" end;
  from_slice := fun b => Ok (CMap [(CText (of_bytes b), CNull)])
|}.

Lemma one_entry_ok : CborOk cbor.
Proof.
  intros a b. destruct a as [| | | | | | | l |]; cbn; try done.
  destruct l as [|[[] []] [|]]; try done. intros [= <-]. by rewrite of_as_bytes.
Qed.

Lemma stream_codec_exact_witness :
  let j := json_obj [("ev", JNull)] in
  exists j', decode_cbor_json (fun _ => "") (fun _ => Err "") (MBinary (as_bytes "ev")) = Some (Ok (j', Cbor_))
    /\ j' <> j.
Proof.
  intros j.
  destruct (stream_codec_exact (fun _ => "") (fun _ => Err "") (fun _ => Err "") j (MBinary (as_bytes "ev"))
    one_entry_ok) as (j' & E & _ & Hiff).
  - apply json_ok_obj. unfold j, json_obj. cbn. by apply map_Forall_insert_2; [| apply map_Forall_empty].
  - vm_compute. reflexivity.
  - exists j'. split; [exact E |]. intros Ej. apply Hiff in Ej. revert Ej. unfold j, json_obj. cbn -[stable].
    rewrite stable_obj. intros Hall. specialize (Hall "ev" JNull (lookup_insert_eq _ _ _)) as [Hk _].
    vm_compute in Hk. discriminate Hk.
Defined.
