(* ===== verification/Peers.v ===== *)
(** * Peers ([liminal-bridge-net/src/peers.rs])

    The table of gossip peers with the events it broadcasts, and the signed handshake. A [PeerId] is
    its 32 bytes; Ed25519 is the class of [Crypto]. A [HashMap] whose order matters is enumerated by
    a parameter. *)

From stdpp Require Import prelude gmap strings fin_maps list sorting.
From coqutil Require Import Word.LittleEndianList.
From Stdlib Require Import ZArith Lia.
From S2P Require Import Prelude RustStr RustOrd Float Crypto.

Abbreviation PeerId := bytes.

Record PeerInfo : Type := mkPeerInfo {
  p_id : PeerId;
  p_url : string;
  p_namespace : string;
  p_credence : f32;
  p_last_seen_ms : Z
}.

Definition with_last_seen (millis : Z) (p : PeerInfo) : PeerInfo :=
  mkPeerInfo (p_id p) (p_url p) (p_namespace p) (p_credence p) millis.

Inductive GossipEventKind : Type := Registered | Summary | Expired.

Record GossipEvent : Type := mkGossipEvent {
  ge_peer : PeerId;
  ge_kind : GossipEventKind;
  ge_info : option PeerInfo
}.

(** The manager; durations are in milliseconds, and the channel is what has been sent on it. *)
Record GossipManager : Type := mkGossip {
  local_peer : PeerId;
  g_peers : gmap PeerId PeerInfo;
  gossip_interval : Z;
  heartbeat_timeout : Z;
  g_sent : list GossipEvent
}.

Definition GossipManager_new (local_peer : PeerId) : GossipManager :=
  mkGossip local_peer ∅ 5000 45000 [].

Definition with_gossip_interval (interval : Z) (g : GossipManager) : GossipManager :=
  mkGossip (local_peer g) (g_peers g) interval (heartbeat_timeout g) (g_sent g).
Definition with_timeout (timeout : Z) (g : GossipManager) : GossipManager :=
  mkGossip (local_peer g) (g_peers g) (gossip_interval g) timeout (g_sent g).

Definition set_peers (m : gmap PeerId PeerInfo) (g : GossipManager) : GossipManager :=
  mkGossip (local_peer g) m (gossip_interval g) (heartbeat_timeout g) (g_sent g).
Definition send (e : GossipEvent) (g : GossipManager) : GossipManager :=
  mkGossip (local_peer g) (g_peers g) (gossip_interval g) (heartbeat_timeout g) (g_sent g ++ [e]).

Definition register_peer (info : PeerInfo) (g : GossipManager) : GossipManager :=
  send (mkGossipEvent (p_id info) Registered (Some info))
    (set_peers (<[p_id info := info]> (g_peers g)) g).

Definition update_summary (id : PeerId) (last_seen_ms : Z) (credence : option f32) (g : GossipManager)
  : GossipManager :=
  match g_peers g !! id with
  | Some existing =>
      let existing :=
        mkPeerInfo (p_id existing) (p_url existing) (p_namespace existing)
          (default (p_credence existing) credence) last_seen_ms in
      send (mkGossipEvent id Summary (Some existing)) (set_peers (<[id := existing]> (g_peers g)) g)
  | None => g
  end.

Definition remove_peer (id : PeerId) (g : GossipManager) : GossipManager * option PeerInfo :=
  match g_peers g !! id with
  | Some info =>
      (send (mkGossipEvent (p_id info) Expired (Some info)) (set_peers (delete id (g_peers g)) g), Some info)
  | None => (g, None)
  end.

(** One round of the removing loop of [expire_stale]. *)
Definition expire_one (acc : GossipManager * list PeerInfo) (id : PeerId) : GossipManager * list PeerInfo :=
  let '(g, removed) := acc in
  match g_peers g !! id with
  | Some info =>
      (send (mkGossipEvent (p_id info) Expired (Some info)) (set_peers (delete id (g_peers g)) g),
       removed ++ [info])
  | None => (g, removed)
  end.

Definition is_stale (now_ms timeout_ms : Z) (info : PeerInfo) : bool :=
  (timeout_ms <? u64_saturating_sub now_ms (p_last_seen_ms info))%Z.

(** ** Handshakes *)
Inductive HandshakeError : Type := NamespaceMismatch | Stale | InvalidSignature.

Record Handshake : Type := mkHandshake {
  h_peer : PeerId;
  h_namespace : string;
  h_timestamp_ms : Z;
  h_nonce : bytes;
  h_signature : bytes
}.

(** [u64::to_be_bytes]. *)
Definition to_be_bytes64 (n : Z) : bytes := rev (le_split 8 n).

Definition handshake_message (peer : PeerId) (namespace : string) (timestamp_ms : Z) (nonce : bytes) : bytes :=
  peer ++ to_be_bytes64 timestamp_ms ++ nonce ++ as_bytes namespace.

Section handshake.
Context `{Ed25519}.

Definition PeerId_from_keypair (key : bytes) : PeerId := verifying_key key.

Definition handshake_sign (signer : bytes) (namespace : string) (timestamp_ms : Z) (nonce : bytes)
  : Handshake :=
  let peer := PeerId_from_keypair signer in
  mkHandshake peer namespace timestamp_ms nonce
    (ed_sign signer (handshake_message peer namespace timestamp_ms nonce)).

(** [Signature::from_slice] asks for 64 bytes. *)
Definition handshake_verify (h : Handshake) (expected_namespace : string) (now_ms window_ms : Z)
  : result unit HandshakeError :=
  if decide (h_namespace h <> expected_namespace) then Err NamespaceMismatch
  else if (window_ms <? u64_saturating_sub now_ms (h_timestamp_ms h))%Z then Err Stale
  else if negb (valid_public_key (h_peer h)) then Err InvalidSignature
  else
    let message := handshake_message (h_peer h) (h_namespace h) (h_timestamp_ms h) (h_nonce h) in
    if decide (length (h_signature h) <> 64) then Err InvalidSignature
    else if ed_verify (h_peer h) message (h_signature h) then Ok tt
    else Err InvalidSignature.

Lemma be_bytes64_inj a b : is_u64 a -> is_u64 b -> to_be_bytes64 a = to_be_bytes64 b -> a = b.
Proof.
  intros Ha Hb E%(f_equal (@rev _)). unfold to_be_bytes64 in E. rewrite !rev_involutive in E.
  apply (f_equal le_combine) in E. rewrite !le_combine_split in E.
  rewrite !Z.mod_small in E by done. exact E.
Qed.

(** The signed message determines what it was made of. *)
Lemma handshake_message_inj p1 n1 t1 c1 p2 n2 t2 c2 :
  length p1 = 32 -> length p2 = 32 -> length c1 = 16 -> length c2 = 16 -> is_u64 t1 -> is_u64 t2 ->
  handshake_message p1 n1 t1 c1 = handshake_message p2 n2 t2 c2 ->
  p1 = p2 /\ n1 = n2 /\ t1 = t2 /\ c1 = c2.
Proof.
  unfold handshake_message. intros Hp1 Hp2 Hc1 Hc2 Ht1 Ht2 E.
  apply app_inj_1 in E as [-> E]; [| congruence].
  apply app_inj_1 in E as [Et E]; [| unfold to_be_bytes64; by rewrite !length_rev, !length_le_split].
  apply app_inj_1 in E as [-> E]; [| congruence].
  split_and!; [done | by apply as_bytes_inj | by apply be_bytes64_inj | done].
Qed.

(** The signature is one of the peer's key on the message of the fields. *)
Definition well_signed (h : Handshake) : Prop :=
  valid_public_key (h_peer h) = true /\ length (h_signature h) = 64 /\
  ed_verify (h_peer h) (handshake_message (h_peer h) (h_namespace h) (h_timestamp_ms h) (h_nonce h)) (h_signature h) = true.

Lemma well_signed_bool (h : Handshake) :
  well_signed h <-> valid_public_key (h_peer h) && bool_decide (length (h_signature h) = 64) &&
    ed_verify (h_peer h) (handshake_message (h_peer h) (h_namespace h) (h_timestamp_ms h) (h_nonce h)) (h_signature h) = true.
Proof. unfold well_signed. rewrite !andb_true_iff, bool_decide_eq_true. tauto. Qed.

(** C19: a handshake proves a key, a namespace and a time. The answer of a verification is determined: a mismatch
    exactly when the namespace is not the expected one; else staleness exactly when the timestamp is older than the
    window (one in the future never is); else an invalid signature exactly when the signature is not one of the
    peer's key on the message of its fields; and success exactly when all three hold. A signed
    handshake verifies within its window. Two handshakes with one message agree in every signed
    field, so a signature cannot be moved to another peer, namespace, time or nonce. *)
Theorem handshake_exact (h : Handshake) ns now window :
  Ed25519Ok -> (0 <= window)%Z ->
  (handshake_verify h ns now window = Err NamespaceMismatch <-> h_namespace h <> ns) /\
  (handshake_verify h ns now window = Err Stale <-> h_namespace h = ns /\ (window < now - h_timestamp_ms h)%Z) /\
  (handshake_verify h ns now window = Err InvalidSignature <->
   h_namespace h = ns /\ (now - h_timestamp_ms h <= window)%Z /\ ~ well_signed h) /\
  (handshake_verify h ns now window = Ok tt <->
   h_namespace h = ns /\ (now - h_timestamp_ms h <= window)%Z /\ well_signed h) /\
  (forall signer t nonce, (now - t <= window)%Z ->
   handshake_verify (handshake_sign signer ns t nonce) ns now window = Ok tt) /\
  (forall h', length (h_peer h) = 32 -> length (h_peer h') = 32 ->
   length (h_nonce h) = 16 -> length (h_nonce h') = 16 ->
   is_u64 (h_timestamp_ms h) -> is_u64 (h_timestamp_ms h') ->
   handshake_message (h_peer h) (h_namespace h) (h_timestamp_ms h) (h_nonce h)
   = handshake_message (h_peer h') (h_namespace h') (h_timestamp_ms h') (h_nonce h') ->
   mkHandshake (h_peer h) (h_namespace h) (h_timestamp_ms h) (h_nonce h) []
   = mkHandshake (h_peer h') (h_namespace h') (h_timestamp_ms h') (h_nonce h') []).
Proof.
  intros Hed Hwin.
  assert (handshake_verify h ns now window =
    if decide (h_namespace h <> ns) then Err NamespaceMismatch
    else if (window <? now - h_timestamp_ms h)%Z then Err Stale
    else if valid_public_key (h_peer h) && bool_decide (length (h_signature h) = 64) &&
         ed_verify (h_peer h) (handshake_message (h_peer h) (h_namespace h) (h_timestamp_ms h) (h_nonce h)) (h_signature h)
    then Ok tt else Err InvalidSignature) as ->.
  { unfold handshake_verify, u64_saturating_sub. case_decide; [done |].
    replace (window <? Z.max (now - h_timestamp_ms h) 0)%Z with (window <? now - h_timestamp_ms h)%Z by lia.
    destruct (_ <? _)%Z; [done |]. destruct (valid_public_key _); [| done]. cbn [negb andb].
    case_decide as Hl; [by rewrite bool_decide_eq_false_2 |]. rewrite bool_decide_eq_true_2 by lia.
    by destruct (ed_verify _ _ _). }
  pose proof (well_signed_bool h) as Hws.
  destruct (_ && _ && _); case_decide as Hn; destruct (Z.ltb_spec window (now - h_timestamp_ms h)).
  all: split_and!; [naive_solver lia.. | |].
  all: try (intros h' ? ? ? ? ? ? E; apply handshake_message_inj in E as (-> & -> & -> & ->); done).
  all: intros signer t nonce Ht; unfold handshake_verify, handshake_sign, PeerId_from_keypair;
    cbn [h_namespace h_timestamp_ms h_peer h_nonce h_signature]; rewrite decide_False by naive_solver;
    unfold u64_saturating_sub; destruct (Z.ltb_spec window (Z.max (now - t) 0)); [lia |];
    rewrite verifying_key_valid; cbn [negb]; rewrite decide_False by (rewrite signature_length; naive_solver);
    by rewrite verify_sign.
Qed.

(** A timestamp in the future is never stale: the subtraction saturates. *)
Lemma future_never_stale (h : Handshake) ns now window :
  (now <= h_timestamp_ms h)%Z -> (0 <= window)%Z -> handshake_verify h ns now window <> Err Stale.
Proof.
  intros Hf Hw. unfold handshake_verify. case_decide; [done |]. unfold u64_saturating_sub.
  destruct (Z.ltb_spec window (Z.max (now - h_timestamp_ms h) 0)); [lia |].
  destruct (negb _); [done |]. case_decide; [done |]. by destruct (ed_verify _ _ _).
Qed.
End handshake.

(** ** The table *)
Section table.
(** The order in which [HashMap::iter] visits the entries, and the stable sort of the listing. *)
Variable hash_iter : gmap PeerId PeerInfo -> list (PeerId * PeerInfo).
Hypothesis hash_iter_perm : forall m, hash_iter m ≡ₚ map_to_list m.

Definition expire_stale (now_ms : Z) (g : GossipManager) : GossipManager * list PeerInfo :=
  let timeout_ms := (heartbeat_timeout g `mod` u64_size)%Z in
  let peers_to_remove :=
    (List.filter (fun e => is_stale now_ms timeout_ms e.2) (hash_iter (g_peers g))).*1 in
  fold_left expire_one peers_to_remove (g, []).

(** [peers], by decreasing credence; the sort is stable, and a comparison with NaN is a tie. *)
Definition credence_le (p q : PeerInfo) : Prop := f_partial_cmp (p_credence q) (p_credence p) <> Some Gt.
#[local] Instance credence_le_dec : RelDecision credence_le.
Proof. intros p q. unfold credence_le. solve_decision. Defined.
Definition peers (g : GossipManager) : list PeerInfo := merge_sort credence_le (hash_iter (g_peers g)).*2.

Inductive gossip_op : Type :=
| GRegister (info : PeerInfo)
| GSummary (id : PeerId) (last_seen_ms : Z) (credence : option f32)
| GRemove (id : PeerId)
| GExpire (now_ms : Z).

Definition gossip_step (g : GossipManager) (op : gossip_op) : GossipManager :=
  match op with
  | GRegister info => register_peer info g
  | GSummary id t c => update_summary id t c g
  | GRemove id => fst (remove_peer id g)
  | GExpire now => fst (expire_stale now g)
  end.

(** What a subscriber that received every event knows. *)
Definition observe (m : gmap PeerId PeerInfo) (e : GossipEvent) : gmap PeerId PeerInfo :=
  match ge_kind e, ge_info e with
  | Expired, _ => delete (ge_peer e) m
  | _, Some info => <[ge_peer e := info]> m
  | _, None => m
  end.

(** Every peer is stored under its id, and the events describe the table. *)
Definition gossip_ok (g : GossipManager) : Prop :=
  map_Forall (fun k info => p_id info = k) (g_peers g) /\ fold_left observe (g_sent g) ∅ = g_peers g.

Lemma gossip_ok_expire_one g removed id :
  gossip_ok g ->
  gossip_ok (fst (expire_one (g, removed) id)) /\
  g_peers (fst (expire_one (g, removed) id)) = delete id (g_peers g) /\
  heartbeat_timeout (fst (expire_one (g, removed) id)) = heartbeat_timeout g /\
  snd (expire_one (g, removed) id) = removed ++ option_list (g_peers g !! id).
Proof.
  intros [Hid Hobs]. unfold expire_one. destruct (g_peers g !! id) as [info|] eqn:E; cbn.
  - split_and!; try done. split; cbn.
    + by apply map_Forall_delete.
    + rewrite fold_left_app. cbn. rewrite Hobs. unfold observe. cbn. by rewrite (Hid id info E).
  - rewrite app_nil_r, delete_id by done. done.
Qed.

Lemma expire_loop ids : forall g removed,
  gossip_ok g -> NoDup ids ->
  gossip_ok (fst (fold_left expire_one ids (g, removed))) /\
  g_peers (fst (fold_left expire_one ids (g, removed))) = filter (fun e => e.1 ∉ ids) (g_peers g) /\
  snd (fold_left expire_one ids (g, removed)) = removed ++ omap (fun id => g_peers g !! id) ids.
Proof.
  induction ids as [|id ids IH]; intros g removed Hok Hnd.
  - cbn. rewrite app_nil_r. split_and!; [done | | done]. symmetry. apply map_filter_id. set_solver.
  - apply NoDup_cons in Hnd as [Hid Hnd]. cbn [fold_left].
    destruct (gossip_ok_expire_one g removed id Hok) as (Hok' & Hp & _ & Hr).
    destruct (expire_one (g, removed) id) as [g' removed']. cbn [fst snd] in *.
    destruct (IH g' removed' Hok' Hnd) as (Hok'' & Hp' & Hr'). split_and!; [done | |].
    + rewrite Hp', Hp. apply map_eq. intros k. apply option_eq. intros info.
      rewrite !map_lookup_filter_Some, lookup_delete_Some. set_solver.
    + rewrite Hr', Hr, <- app_assoc. f_equal. cbn [omap list_omap].
      assert (omap (fun i => g_peers g' !! i) ids = omap (fun i => g_peers g !! i) ids) as ->.
      { apply list_omap_ext, Forall_Forall2_diag, Forall_forall. intros i Hi. rewrite Hp.
        rewrite lookup_delete_ne; [done |]. intros ->. done. }
      by destruct (g_peers g !! id).
Qed.

Lemma NoDup_fst_filter {A} (f : PeerId * A -> bool) l : NoDup l.*1 -> NoDup (List.filter f l).*1.
Proof.
  induction l as [|e l IH]; [done |]. cbn. intros [Hne Hn]%NoDup_cons.
  destruct (f e); cbn; [| by apply IH]. apply NoDup_cons. split; [| by apply IH].
  contradict Hne. apply list_elem_of_fmap in Hne as (x & E & Hx).
  apply list_elem_of_In, List.filter_In in Hx as [Hx _]. apply list_elem_of_fmap. exists x.
  split; [done | by apply list_elem_of_In].
Qed.

Lemma expire_stale_spec now g : gossip_ok g ->
  gossip_ok (fst (expire_stale now g)) /\
  g_peers (fst (expire_stale now g))
  = filter (fun e => is_stale now (heartbeat_timeout g `mod` u64_size) e.2 = false) (g_peers g) /\
  (forall info, info ∈ snd (expire_stale now g) <->
     g_peers g !! p_id info = Some info /\ is_stale now (heartbeat_timeout g `mod` u64_size) info = true).
Proof.
  intros Hok. unfold expire_stale. set (to := (heartbeat_timeout g `mod` u64_size)%Z).
  set (ids := (List.filter _ _).*1).
  assert (Hids : forall id, id ∈ ids <-> exists info, g_peers g !! id = Some info /\ is_stale now to info = true).
  { intros id. unfold ids. rewrite list_elem_of_fmap. split.
    - intros ([k info] & -> & Hin). apply list_elem_of_In, List.filter_In in Hin as [Hin Hs].
      apply list_elem_of_In in Hin. rewrite hash_iter_perm in Hin. apply elem_of_map_to_list in Hin. eauto.
    - intros (info & Hi & Hs). exists (id, info). split; [done |].
      apply list_elem_of_In, List.filter_In. split; [| done]. apply list_elem_of_In.
      rewrite hash_iter_perm. by apply elem_of_map_to_list. }
  assert (NoDup ids) as Hnd.
  { unfold ids. assert (NoDup (hash_iter (g_peers g)).*1) as Hn.
    { rewrite hash_iter_perm. apply NoDup_fst_map_to_list. }
    by apply NoDup_fst_filter. }
  destruct (expire_loop ids g [] Hok Hnd) as (Hok' & Hp & Hr). split_and!; [done | |].
  - rewrite Hp. apply map_eq. intros k. apply option_eq. intros info.
    rewrite !map_lookup_filter_Some. cbn. split.
    + intros [Hk Hn]. split; [done |]. apply not_true_is_false. intros Hs. apply Hn, Hids. eauto.
    + intros [Hk Hs]. split; [done |]. intros (info' & Hk' & Hs')%Hids. congruence.
  - intros info. rewrite Hr. cbn [app]. rewrite list_elem_of_omap. destruct Hok as [Hid _]. split.
    + intros (id & Hin & Hk). apply Hids in Hin as (info' & Hk' & Hs).
      rewrite Hk in Hk'. simplify_eq. by rewrite (Hid id info' Hk).
    + intros [Hk Hs]. exists (p_id info). split; [apply Hids; eauto | done].
Qed.

Lemma gossip_ok_step g op : gossip_ok g -> gossip_ok (gossip_step g op).
Proof.
  intros Hok. destruct op as [info | id t c | id | now]; cbn [gossip_step].
  - destruct Hok as [Hid Hobs]. split; cbn; [by apply map_Forall_insert_2 |].
    rewrite fold_left_app. cbn. by rewrite Hobs.
  - unfold update_summary. destruct (g_peers g !! id) as [e|] eqn:E; [| done].
    destruct Hok as [Hid Hobs]. split; cbn; [apply map_Forall_insert_2; [exact (Hid id e E) | done] |].
    rewrite fold_left_app. cbn. by rewrite Hobs.
  - unfold remove_peer. pose proof (gossip_ok_expire_one g [] id Hok) as (Hx & _).
    unfold expire_one in Hx. by destruct (g_peers g !! id).
  - by apply expire_stale_spec.
Qed.

(** The gossip table. After any run of registrations, summaries, removals and expirations on a
    new manager, a subscriber that applies the events it received holds exactly the table, every
    peer under its own id; and an expiration removes and returns exactly the peers not heard of for
    longer than the timeout, whatever the order in which the table is visited. *)
Theorem gossip_events_describe_table me ops now :
  let g := fold_left gossip_step ops (GossipManager_new me) in
  fold_left observe (g_sent g) ∅ = g_peers g /\
  map_Forall (fun k info => p_id info = k) (g_peers g) /\
  g_peers (fst (expire_stale now g))
  = filter (fun e => is_stale now (heartbeat_timeout g `mod` u64_size) e.2 = false) (g_peers g) /\
  (forall info, info ∈ snd (expire_stale now g) <->
     g_peers g !! p_id info = Some info /\ is_stale now (heartbeat_timeout g `mod` u64_size) info = true).
Proof.
  intros g. assert (gossip_ok g) as Hok.
  { unfold g. assert (gossip_ok (GossipManager_new me)) as Hnew by (split; [apply map_Forall_empty | done]).
    revert Hnew. generalize (GossipManager_new me). induction ops as [|op ops IH]; intros g0 H0; [done |].
    cbn. by apply IH, gossip_ok_step. }
  destruct (expire_stale_spec now g Hok) as (_ & ? & ?). by destruct Hok.
Qed.
End table.

(** Concrete signatures, for the witness: the key is its own public key and signs with its bytes. *)
#[local] Instance toy_ed25519 : Ed25519 := {
  verifying_key seed := repeat Byte.x01 32;
  ed_sign seed m := repeat Byte.x02 64;
  valid_public_key k := bool_decide (length k = 32);
  ed_verify k m s := bool_decide (s = repeat Byte.x02 64)
}.
#[local] Instance toy_ed25519_ok : Ed25519Ok.
Proof. by split. Qed.

Lemma handshake_exact_witness :
  let nonce := repeat Byte.x00 16 in
  let h := handshake_sign [Byte.x07] "ns" 100 nonce in
  handshake_verify h "ns" 130 60 = Ok tt /\ handshake_verify h "other" 900 60 = Err NamespaceMismatch /\
  handshake_verify h "ns" 900 60 = Err Stale.
Proof.
  intros nonce h. split_and!.
  - exact (proj1 (proj2 (proj2 (proj2 (proj2 (handshake_exact h "ns" 130 60 toy_ed25519_ok ltac:(lia))))))
      [Byte.x07] 100%Z nonce ltac:(lia)).
  - apply (handshake_exact h "other" 900 60 toy_ed25519_ok ltac:(lia)). done.
  - apply (handshake_exact h "ns" 900 60 toy_ed25519_ok ltac:(lia)). done.
Defined.

Lemma gossip_events_describe_table_witness :
  let info := mkPeerInfo [Byte.x01] "ws://a" "ns" f_zero 10 in
  let g := fold_left (gossip_step map_to_list) [GRegister info; GSummary [Byte.x01] 20 None; GExpire 50000]
             (GossipManager_new [Byte.x00]) in
  fold_left observe (g_sent g) ∅ = g_peers g.
Proof.
  intros info g. exact (proj1 (gossip_events_describe_table map_to_list (fun m => reflexivity _) [Byte.x00]
    [GRegister info; GSummary [Byte.x01] 20 None; GExpire 50000] 0)).
Defined.
