(* ===== verification/Collections.v ===== *)
(** * Collections of the standard library

    The order in which a [HashMap] or a [HashSet] is visited is not specified, so every operation
    that visits one takes a [HashOrder]: it answers a permutation of the entries, another one at
    every call of the program. Sorting is the stable sort of [slice::sort_by]; when the comparison
    is not a total preorder (a NaN among the keys) the library leaves the order unspecified, and
    only that the result is a permutation is used.

    Loops [for id in ids { if let Some(x) = map.get_mut(&id) { ... } }] are folds; [key_loop_*]
    says what such a loop does to each entry. *)

From stdpp Require Import prelude gmap fin_maps fin_sets list sorting.
From Stdlib Require Import ZArith Lia Sorted.
From S2P Require Import Prelude.

Record HashOrder : Type := mkHashOrder {
  visit : forall A : Type, list A -> list A;
  visit_perm : forall (A : Type) (l : list A), visit A l ≡ₚ l
}.
Arguments visit _ {A} _.
Arguments visit_perm _ {A} _.

(** Some order, for examples. *)
Definition id_order : HashOrder := mkHashOrder (fun _ l => l) (fun _ l => Permutation_refl l).
Definition rev_order : HashOrder :=
  mkHashOrder (fun _ l => reverse l) (fun _ l => reverse_Permutation l).

Section hash.
Context `{Countable K} {V : Type}.
Variable o : HashOrder.

Definition hm_iter (m : gmap K V) : list (K * V) := visit o (map_to_list m).
Definition hm_keys (m : gmap K V) : list K := visit o (map_to_list m).*1.
Definition hm_values (m : gmap K V) : list V := visit o (map_to_list m).*2.
Definition hs_iter (s : gset K) : list K := visit o (elements s).

Lemma hm_iter_perm m : hm_iter m ≡ₚ map_to_list m.
Proof. apply visit_perm. Qed.

Lemma elem_of_hm_iter m k v : (k, v) ∈ hm_iter m <-> m !! k = Some v.
Proof. unfold hm_iter. rewrite visit_perm. apply elem_of_map_to_list. Qed.

Lemma elem_of_hm_keys m k : k ∈ hm_keys m <-> is_Some (m !! k).
Proof.
  unfold hm_keys. rewrite visit_perm, list_elem_of_fmap. split.
  - intros ([k' v] & -> & Hin%elem_of_map_to_list). by exists v.
  - intros [v Hv]. exists (k, v). split; [done | by apply elem_of_map_to_list].
Qed.

Lemma hm_keys_NoDup m : NoDup (hm_keys m).
Proof. unfold hm_keys. rewrite visit_perm. apply NoDup_fst_map_to_list. Qed.

Lemma elem_of_hm_values m v : v ∈ hm_values m <-> exists k, m !! k = Some v.
Proof.
  unfold hm_values. rewrite visit_perm, list_elem_of_fmap. split.
  - intros ([k v'] & -> & Hin%elem_of_map_to_list). by exists k.
  - intros [k Hv]. exists (k, v). split; [done | by apply elem_of_map_to_list].
Qed.

Lemma elem_of_hs_iter s k : k ∈ hs_iter s <-> k ∈ s.
Proof. unfold hs_iter. rewrite visit_perm. apply elem_of_elements. Qed.

Lemma hs_iter_NoDup s : NoDup (hs_iter s).
Proof. unfold hs_iter. rewrite visit_perm. apply NoDup_elements. Qed.
End hash.

(** ** Loops over keys that update one entry each *)
Section key_loop.
Context `{Countable K} {V S : Type}.
(** One round: it sees the entry of the key and the accumulator, and replaces both. *)
Variable body : K -> V -> S -> V * S.

Definition key_round (acc : gmap K V * S) (k : K) : gmap K V * S :=
  match fst acc !! k with
  | Some v => let '(v', s') := body k v (snd acc) in (<[k := v']> (fst acc), s')
  | None => acc
  end.
Definition key_loop (ks : list K) (m : gmap K V) (s : S) : gmap K V * S := fold_left key_round ks (m, s).

Lemma key_loop_other ks : forall m s k, k ∉ ks -> fst (key_loop ks m s) !! k = m !! k.
Proof.
  unfold key_loop. induction ks as [|k' ks IH]; intros m s k Hk; [done |].
  apply not_elem_of_cons in Hk as [Hne Hk]. cbn [fold_left].
  destruct (key_round (m, s) k') as [m' s'] eqn:E. rewrite IH by done.
  unfold key_round in E. cbn [fst snd] in E. destruct (m !! k') as [v|]; [| by simplify_eq].
  destruct (body k' v s) as [v' s'']. simplify_eq. by rewrite lookup_insert_ne.
Qed.

(** Every entry is met at most once, with its original value. *)
Lemma key_loop_lookup (P : K -> V -> V -> Prop) ks : forall m s,
  (forall k v s, P k v (fst (body k v s))) -> NoDup ks ->
  forall k, k ∈ ks ->
  match m !! k, fst (key_loop ks m s) !! k with
  | Some v, Some v' => P k v v'
  | None, None => True
  | _, _ => False
  end.
Proof.
  unfold key_loop. intros m s HP. revert m s. induction ks as [|k' ks IH]; intros m s Hnd k Hk; [set_solver |].
  apply NoDup_cons in Hnd as [Hk' Hnd]. cbn [fold_left].
  destruct (key_round (m, s) k') as [m' s'] eqn:E. apply elem_of_cons in Hk as [-> | Hk].
  - fold (key_loop ks m' s'). rewrite key_loop_other by done. unfold key_round in E. cbn [fst snd] in E.
    destruct (m !! k') as [v|] eqn:Ev; [| by simplify_eq; rewrite Ev].
    pose proof (HP k' v s) as Hb. destruct (body k' v s) as [v' s'']. simplify_eq.
    by rewrite lookup_insert_eq.
  - assert (k <> k') as Hne by (intros ->; done).
    specialize (IH m' s' Hnd k Hk). unfold key_round in E. cbn [fst snd] in E.
    destruct (m !! k') as [v|] eqn:Ev; [| by simplify_eq].
    destruct (body k' v s) as [v' s'']. simplify_eq. by rewrite lookup_insert_ne in IH.
Qed.

(** Invariants of the loop, with the number of rounds. *)
Lemma key_loop_ind (I : nat -> gmap K V -> S -> Prop) ks : forall n m s,
  (forall n m s, I n m s -> I (Datatypes.S n) m s) ->
  (forall n m s k v, k ∈ ks -> m !! k = Some v -> I n m s ->
   I (Datatypes.S n) (<[k := fst (body k v s)]> m) (snd (body k v s))) ->
  I n m s -> I (length ks + n) (fst (key_loop ks m s)) (snd (key_loop ks m s)).
Proof.
  unfold key_loop. induction ks as [|k ks IH]; intros n m s Hmono Hstep Hi; [done |]. cbn [fold_left length].
  destruct (key_round (m, s) k) as [m' s'] eqn:E.
  assert (I (Datatypes.S n) m' s') as Hi'.
  { unfold key_round in E. cbn [fst snd] in E. destruct (m !! k) as [v|] eqn:Ev; [| simplify_eq; by apply Hmono].
    pose proof (Hstep n m s k v ltac:(left) Ev Hi) as Hs. destruct (body k v s). by simplify_eq. }
  replace (Datatypes.S (length ks) + n) with (length ks + Datatypes.S n) by lia.
  apply IH; [done | | done]. intros n0 m0 s0 k0 v0 Hk0. apply Hstep. by right.
Qed.

(** The keys do not change. *)
Lemma key_loop_dom ks : forall m s, dom (fst (key_loop ks m s)) = dom m.
Proof.
  unfold key_loop. induction ks as [|k ks IH]; intros m s; [done |]. cbn [fold_left].
  destruct (key_round (m, s) k) as [m' s'] eqn:E. rewrite IH. unfold key_round in E. cbn [fst snd] in E.
  destruct (m !! k) as [v|] eqn:Ev; [| by simplify_eq].
  destruct (body k v s) as [v' s'']. simplify_eq. rewrite dom_insert_L.
  apply elem_of_dom_2 in Ev. set_solver.
Qed.
End key_loop.

(** What such a loop writes: [out] is a part of the accumulator that only grows. *)
Lemma key_loop_writer `{Countable K} {V S B} (body : K -> V -> S -> V * S) (out : S -> list B)
    (h : K -> V -> list B) :
  (forall k v s, out (snd (body k v s)) = out s ++ h k v) ->
  forall ks m s, NoDup ks ->
  out (snd (key_loop body ks m s))
  = out s ++ concat (map (fun k => match m !! k with Some v => h k v | None => [] end) ks).
Proof.
  intros Hout. unfold key_loop. induction ks as [|k ks IH]; intros m s Hnd; cbn [fold_left map concat].
  { by rewrite app_nil_r. }
  apply NoDup_cons in Hnd as [Hk Hnd]. destruct (key_round body (m, s) k) as [m' s'] eqn:E.
  rewrite (IH m' s' Hnd). unfold key_round in E. cbn [fst snd] in E.
  destruct (m !! k) as [v|] eqn:Ev; [| by simplify_eq].
  pose proof (Hout k v s) as Ho. destruct (body k v s) as [v' s'']. simplify_eq. cbn [snd] in Ho.
  rewrite Ho, <- app_assoc. f_equal. f_equal. f_equal. apply map_ext_in. intros i Hi.
  rewrite lookup_insert_ne; [done |]. intros ->. by apply Hk, list_elem_of_In.
Qed.

(** A loop that visits every key of the map once. *)
Lemma key_loop_all `{Countable K} {V S} (body : K -> V -> S -> V * S) (g : K -> V -> V) o m s :
  (forall k v s, fst (body k v s) = g k v) ->
  fst (key_loop body (hm_keys o m) m s) = map_imap (fun k v => Some (g k v)) m.
Proof.
  intros Hg. apply map_eq. intros k. rewrite map_lookup_imap.
  destruct (decide (k ∈ hm_keys o m)) as [Hk | Hk].
  - pose proof (key_loop_lookup body (fun k v v' => v' = g k v) (hm_keys o m) m s
      (fun k v s => Hg k v s) (hm_keys_NoDup o m) k Hk) as Hl.
    destruct (m !! k) as [v|], (fst (key_loop body (hm_keys o m) m s) !! k) as [v'|]; try done.
    cbn. by rewrite Hl.
  - rewrite key_loop_other by done. rewrite elem_of_hm_keys in Hk.
    destruct (m !! k) eqn:E; [exfalso; eauto | done].
Qed.

(** ** Stable sorting by a comparison

    [le x y] is [compare(x, y) != Greater]. *)
Fixpoint insert_by {A : Type} (le : A -> A -> bool) (x : A) (l : list A) : list A :=
  match l with
  | [] => [x]
  | y :: l' => if le x y then x :: l else y :: insert_by le x l'
  end.
Definition sort_by {A : Type} (le : A -> A -> bool) (l : list A) : list A := foldr (insert_by le) [] l.

Lemma insert_by_perm {A} (le : A -> A -> bool) x l : insert_by le x l ≡ₚ x :: l.
Proof.
  induction l as [|y l IH]; [done |]. cbn. destruct (le x y); [done |].
  transitivity (y :: x :: l); [by apply perm_skip | apply perm_swap].
Qed.

Lemma sort_by_perm {A} (le : A -> A -> bool) (l : list A) : sort_by le l ≡ₚ l.
Proof. induction l as [|x l IH]; [done |]. cbn. rewrite insert_by_perm. by apply perm_skip. Qed.

(** The comparison has to be a total preorder on the elements only. *)
Lemma sort_by_sorted {A} (le : A -> A -> bool) (l : list A) :
  (forall x y z, x ∈ l -> y ∈ l -> z ∈ l -> le x y = true -> le y z = true -> le x z = true) ->
  (forall x y, x ∈ l -> y ∈ l -> le x y = true \/ le y x = true) ->
  StronglySorted (fun x y => le x y = true) (sort_by le l).
Proof.
  intros Htr Htot.
  assert (forall k, (forall x, x ∈ k -> x ∈ l) -> StronglySorted (fun x y => le x y = true) (sort_by le k)) as Hk;
    [| by apply Hk].
  induction k as [|x k IH]; intros Hin; [constructor |]. cbn. fold (sort_by le k).
  assert (forall y, y ∈ sort_by le k -> y ∈ l) as Hy.
  { intros y. rewrite sort_by_perm. intros ?. apply Hin. by right. }
  assert (x ∈ l) as Hx by (apply Hin; left). specialize (IH (fun y H => Hin y (list_elem_of_further _ _ _ H))).
  clear Hin. induction (sort_by le k) as [|y s IHs]; [by repeat constructor |].
  cbn. apply StronglySorted_inv in IH as [IH Hall]. destruct (le x y) eqn:E.
  - constructor; [by constructor |]. constructor; [done |].
    apply Forall_forall. intros z Hz. rewrite Forall_forall in Hall.
    apply (Htr x y z); try done; [apply Hy; left | apply Hy; by right | by apply Hall].
  - constructor; [apply IHs; [done | intros z Hz; apply Hy; by right] |].
    rewrite insert_by_perm. constructor; [| done].
    destruct (Htot x y) as [? | ?]; try done; [apply Hy; left | congruence].
Qed.

Lemma StronglySorted_filter_bool {A} (R : relation A) (f : A -> bool) l :
  StronglySorted R l -> StronglySorted R (List.filter f l).
Proof.
  induction 1 as [|x l Hl IH Hx]; [constructor |]. cbn. destruct (f x); [| done].
  constructor; [done |]. apply Forall_forall. intros y Hy. rewrite Forall_forall in Hx.
  apply Hx. apply list_elem_of_In, List.filter_In in Hy as [Hy _]. by apply list_elem_of_In.
Qed.

Lemma Permutation_filter_bool {A} (f : A -> bool) (l k : list A) :
  l ≡ₚ k -> List.filter f l ≡ₚ List.filter f k.
Proof.
  induction 1 as [| x l k Hp IH | x y l | l k k' _ IH1 _ IH2]; cbn.
  - done.
  - destruct (f x); [by apply perm_skip | done].
  - destruct (f x), (f y); try done; apply perm_swap.
  - by transitivity (List.filter f k).
Qed.

Lemma StronglySorted_take {A} (R : relation A) n (l : list A) :
  StronglySorted R l -> StronglySorted R (take n l).
Proof. rewrite <- (take_drop n l) at 1. apply StronglySorted_app_1_l. Qed.

(** ** Bounded queues ([VecDeque] used as [push_back] and [pop_front]) *)
Fixpoint pop_while {A : Type} (p : A -> bool) (l : list A) : list A :=
  match l with
  | [] => []
  | x :: l' => if p x then pop_while p l' else l
  end.

(** [while queue.len() > limit { queue.pop_front() }] *)
Definition last_n {A : Type} (limit : nat) (l : list A) : list A := drop (length l - limit) l.

Lemma last_n_length {A} limit (l : list A) : length (last_n limit l) <= limit.
Proof. unfold last_n. rewrite length_drop. lia. Qed.

Lemma last_n_id {A} limit (l : list A) : length l <= limit -> last_n limit l = l.
Proof. intros Hl. unfold last_n. replace (length l - limit) with 0 by lia. done. Qed.

Lemma pop_while_suffix {A} (p : A -> bool) l : exists k, l = k ++ pop_while p l /\ Forall (fun x => p x = true) k.
Proof.
  induction l as [|x l IH]; [by exists [] |]. cbn. destruct (p x) eqn:E; [| by exists []].
  destruct IH as (k & Hk & Hf). exists (x :: k). split; [cbn; by f_equal | by constructor].
Qed.

Lemma length_omap_le {A B} (g : A -> option B) (l : list A) : length (omap g l) <= length l.
Proof. induction l as [|x l IH]; [done |]. cbn. destruct (g x); cbn; lia. Qed.
