(* ===== verification/Seeds.v ===== *)
(** * The seed garden ([liminal-core/src/seeds.rs], [seeds_metrics.rs])

    Seeds are planted, grow with the ticks of the field and are harvested or aborted. [evaluate] is
    the placeholder of the source: its telemetry is zero, so the field is not an argument here. *)

From stdpp Require Import prelude gmap strings fin_maps list sorting.
From Stdlib Require Import ZArith Lia SpecFloat.
From S2P Require Import Prelude RustStr Float Json Collections.

Inductive SeedKind : Type :=
| BoostToken | CooldownToken | SpawnCluster | ViewWatch | PolicyBundle | Script.

Definition SeedKind_as_str (k : SeedKind) : string :=
  match k with
  | BoostToken => "BoostToken"
  | CooldownToken => "CooldownToken"
  | SpawnCluster => "SpawnCluster"
  | ViewWatch => "ViewWatch"
  | PolicyBundle => "PolicyBundle"
  | Script => "Script"
  end.

Definition SeedKind_from_str (value : string) : result SeedKind string :=
  if decide (value = "BoostToken") then Ok BoostToken
  else if decide (value = "CooldownToken") then Ok CooldownToken
  else if decide (value = "SpawnCluster") then Ok SpawnCluster
  else if decide (value = "ViewWatch") then Ok ViewWatch
  else if decide (value = "PolicyBundle") then Ok PolicyBundle
  else if decide (value = "Script") then Ok Script
  else Err ("unknown seed kind: " +:+ value).

Inductive SeedStage : Type := Planted | Sprouting | Blooming | Harvested | Aborted.
#[export] Instance SeedStage_eq_dec : EqDecision SeedStage.
Proof. solve_decision. Defined.

Definition SeedStage_as_str (s : SeedStage) : string :=
  match s with
  | Planted => "Planted"
  | Sprouting => "Sprouting"
  | Blooming => "Blooming"
  | Harvested => "Harvested"
  | Aborted => "Aborted"
  end.

Record Seed : Type := mkSeed {
  sd_id : Z;
  ts_planted : Z;
  sd_kind : SeedKind;
  sd_target : string;
  sd_args : gmap string json;
  sd_stage : SeedStage;
  ttl_ms : Z;
  vitality : f32;
  mutation : f32;
  yield_score : f32;
  sd_last_tick_ms : Z;
  sd_ns : string
}.

Definition Seed_new (kind : SeedKind) (target : string) (args : gmap string json) (ttl : Z)
    (ns : string) (now : Z) : Seed :=
  mkSeed 0 now kind target args Planted ttl f32_one f_zero f_zero now ns.

Definition lifetime_ms (now : Z) (s : Seed) : Z := u64_saturating_sub now (ts_planted s).
Definition ttl_remaining (now : Z) (s : Seed) : Z :=
  let elapsed := lifetime_ms now s in
  if (ttl_ms s <=? elapsed)%Z then 0 else (ttl_ms s - elapsed)%Z.

Definition set_sd_id (v : Z) (s : Seed) : Seed :=
  mkSeed v (ts_planted s) (sd_kind s) (sd_target s) (sd_args s) (sd_stage s) (ttl_ms s) (vitality s)
    (mutation s) (yield_score s) (sd_last_tick_ms s) (sd_ns s).
Definition set_stage (v : SeedStage) (s : Seed) : Seed :=
  mkSeed (sd_id s) (ts_planted s) (sd_kind s) (sd_target s) (sd_args s) v (ttl_ms s) (vitality s)
    (mutation s) (yield_score s) (sd_last_tick_ms s) (sd_ns s).
Definition set_growth (vit yield : f32) (now : Z) (s : Seed) : Seed :=
  mkSeed (sd_id s) (ts_planted s) (sd_kind s) (sd_target s) (sd_args s) (sd_stage s) (ttl_ms s) vit
    (mutation s) yield now (sd_ns s).

Record SeedLog : Type := mkSeedLog {
  sl_id : Z;
  sl_stage : SeedStage;
  sl_vitality : f32;
  sl_yield : f32
}.

Record SeedGarden : Type := mkGarden {
  seeds : gmap Z Seed;
  sg_next_id : Z;
  recent : list SeedLog
}.
Definition SeedGarden_default : SeedGarden := mkGarden ∅ 1 [].
Definition clear_logs (g : SeedGarden) : SeedGarden := mkGarden (seeds g) (sg_next_id g) [].

Definition plant (seed : Seed) (g : SeedGarden) : SeedGarden * Z :=
  let id := if (sd_id seed =? 0)%Z then sg_next_id g else sd_id seed in
  let next := Z.max (sg_next_id g) (u64_saturating_add id 1) in
  (mkGarden (<[id := set_sd_id id seed]> (seeds g)) next (recent g), id).

Definition log_of (id : Z) (s : Seed) : SeedLog := mkSeedLog id (sd_stage s) (vitality s) (yield_score s).

Definition abort_seed (id : Z) (g : SeedGarden) : SeedGarden * option Seed :=
  match seeds g !! id with
  | Some seed =>
      let seed := set_stage Aborted seed in
      (mkGarden (<[id := seed]> (seeds g)) (sg_next_id g) (recent g ++ [log_of id seed]), Some seed)
  | None => (g, None)
  end.

(** ** Telemetry *)
Record SeedTelemetry : Type := mkTelemetry {
  hits : Z;
  avg_latency : f32;
  errors : Z;
  energy_delta : f32;
  salience_gain : f32
}.

Definition evaluate : SeedTelemetry := mkTelemetry 0 f_zero 0 f_zero f_zero.

Definition score (t : SeedTelemetry) : f32 :=
  let latency_penalty := if f_le (avg_latency t) f_zero then f_zero else f32_neg (avg_latency t) in
  let hit_reward := f32_mul (f32_of_Z (hits t)) (f32_lit 5 10) in
  let error_penalty := f32_mul (f32_of_Z (errors t)) (f32_lit 15 10) in
  f32_sub (f32_add (f32_add (f32_add latency_penalty hit_reward) (salience_gain t)) (energy_delta t))
    error_penalty.

(** ** The tick *)
Definition is_terminal (s : SeedStage) : bool :=
  match s with Harvested | Aborted => true | _ => false end.

(** What a tick does to a seed that is not terminal. *)
Definition tick_seed (now : Z) (seed : Seed) : Seed :=
  let elapsed := lifetime_ms now seed in
  let seed := if bool_decide (sd_stage seed = Planted) && (1000 <=? elapsed)%Z
              then set_stage Sprouting seed else seed in
  let seed := if bool_decide (sd_stage seed = Sprouting) && (10000 <=? elapsed)%Z
              then set_stage Blooming seed else seed in
  let telemetry := evaluate in
  let new_score := score telemetry in
  let yield := f32_add (f32_mul (f32_lit 6 10) (yield_score seed)) (f32_mul (f32_lit 4 10) new_score) in
  let vitality_delta := f32_sub (salience_gain telemetry)
                          (f32_mul (f32_of_Z (errors telemetry)) (f32_lit 5 100)) in
  let vit := f32_clamp (f32_add (vitality seed) vitality_delta) f_zero f32_one in
  let seed := set_growth vit yield now seed in
  if (ttl_ms seed <=? elapsed)%Z then
    if f_le f_zero (yield_score seed) then set_stage Harvested seed else set_stage Aborted seed
  else seed.

Definition seed_text (id : Z) (s : Seed) : string :=
  "SEED id=" +:+ fmt_nat id +:+ " stage=" +:+ SeedStage_as_str (sd_stage s)
  +:+ " vitality=" +:+ fmt_fixed 3 (vitality s) +:+ " yield=" +:+ fmt_fixed 3 (yield_score s).

(** One round of the loop; the accumulator holds [garden.recent] and the returned lines. *)
Definition tick_body (now id : Z) (seed : Seed) (acc : list SeedLog * list string)
  : Seed * (list SeedLog * list string) :=
  if is_terminal (sd_stage seed) then (seed, acc)
  else
    let seed := tick_seed now seed in
    (seed, (fst acc ++ [log_of id seed], snd acc ++ [seed_text id seed])).

Definition tick_garden (o : HashOrder) (g : SeedGarden) (now : Z) : SeedGarden * list string :=
  let ids := hm_keys o (seeds g) in
  let '(seeds', (recent', logs)) := key_loop (tick_body now) ids (seeds g) ([], []) in
  (mkGarden seeds' (sg_next_id g) recent', logs).

(** ** Runs *)
Inductive garden_op : Type :=
| GPlant (kind : SeedKind) (target : string) (args : gmap string json) (ttl : Z) (ns : string) (now : Z)
| GAbort (id : Z)
| GTick (o : HashOrder) (now : Z).

Definition garden_step (g : SeedGarden) (op : garden_op) : SeedGarden :=
  match op with
  | GPlant kind target args ttl ns now => fst (plant (Seed_new kind target args ttl ns now) g)
  | GAbort id => fst (abort_seed id g)
  | GTick o now => fst (tick_garden o g now)
  end.
Definition garden_run (ops : list garden_op) (g : SeedGarden) : SeedGarden := fold_left garden_step ops g.

Definition is_plant (op : garden_op) : bool := match op with GPlant _ _ _ _ _ _ => true | _ => false end.
Definition plants (ops : list garden_op) : Z := Z.of_nat (length (List.filter is_plant ops)).

(** The ages at which a seed planted at [t] was ticked, and the stage they lead to. *)
Definition ages (t : Z) (ops : list garden_op) : list Z :=
  omap (fun op => match op with GTick _ now => Some (u64_saturating_sub now t) | _ => None end) ops.
Definition stage_of (ttl : Z) (es : list Z) : SeedStage :=
  if existsb (Z.leb ttl) es then Harvested
  else if existsb (Z.leb 10000) es then Blooming
  else if existsb (Z.leb 1000) es then Sprouting
  else Planted.
Definition aborted (id : Z) (ops : list garden_op) : bool :=
  existsb (fun op => match op with GAbort i => (i =? id)%Z | _ => false end) ops.
Definition stage_after (id t ttl : Z) (ops : list garden_op) : SeedStage :=
  if aborted id ops then Aborted else stage_of ttl (ages t ops).

(** *** One seed *)
Definition grown (s : Seed) : Prop := vitality s = f32_one /\ yield_score s = f_zero.
Definition same_seed (s s' : Seed) : Prop :=
  (sd_id s', sd_kind s', sd_target s', sd_args s', ts_planted s', ttl_ms s', sd_ns s')
  = (sd_id s, sd_kind s, sd_target s, sd_args s, ts_planted s, ttl_ms s, sd_ns s).

Definition next_stage (ttl e : Z) (st : SeedStage) : SeedStage :=
  if is_terminal st then st
  else if (ttl <=? e)%Z then Harvested
  else if (10000 <=? e)%Z then Blooming
  else if (1000 <=? e)%Z && bool_decide (st = Planted) then Sprouting
  else st.

Lemma tick_seed_spec now s : grown s -> is_terminal (sd_stage s) = false ->
  grown (tick_seed now s) /\ same_seed s (tick_seed now s) /\
  sd_stage (tick_seed now s) = next_stage (ttl_ms s) (lifetime_ms now s) (sd_stage s).
Proof.
  intros [Hv Hy] Ht. unfold tick_seed, next_stage. rewrite Ht.
  set (s1 := if _ && _ then set_stage Sprouting s else s).
  set (s2 := if _ && _ then set_stage Blooming s1 else s1).
  set (vit := f32_clamp _ _ _). set (yd := f32_add _ _).
  assert (ttl_ms s2 = ttl_ms s /\ vitality s2 = f32_one /\ yield_score s2 = f_zero /\ same_seed s s2) as (E1 & E2 & E3 & E4).
  { unfold s2, s1. destruct (_ && _), (_ && _); by cbn. }
  assert (vit = f32_one) as -> by (unfold vit; rewrite E2; vm_compute; reflexivity).
  assert (yd = f_zero) as -> by (unfold yd; rewrite E3; vm_compute; reflexivity).
  change (ttl_ms (set_growth f32_one f_zero now s2)) with (ttl_ms s2). rewrite E1.
  destruct (ttl_ms s <=? lifetime_ms now s)%Z eqn:Et; [by cbn |].
  split_and!; [by cbn | done |]. cbn. unfold s2, s1.
  destruct (1000 <=? lifetime_ms now s)%Z eqn:E1k; destruct (10000 <=? lifetime_ms now s)%Z eqn:E10k;
    bool_prop; try lia; cbn [andb];
    repeat (case_bool_decide || case_match); cbn in *; try congruence; destruct (sd_stage s); done.
Qed.

Lemma stage_of_snoc ttl es e : stage_of ttl (es ++ [e]) = next_stage ttl e (stage_of ttl es).
Proof.
  unfold stage_of, next_stage. rewrite !existsb_app. cbn. rewrite !orb_false_r.
  destruct (existsb (Z.leb ttl) es), (ttl <=? e)%Z; cbn; try done;
  destruct (existsb (Z.leb 10000) es), (10000 <=? e)%Z; cbn; try done;
  destruct (existsb (Z.leb 1000) es) eqn:E1, (1000 <=? e)%Z; cbn; try done.
Qed.

(** *** The garden *)
Lemma plants_snoc ops op : plants (ops ++ [op]) = (plants ops + if is_plant op then 1 else 0)%Z.
Proof. unfold plants. rewrite List.filter_app, length_app. cbn. destruct (is_plant op); cbn; lia. Qed.

Definition fresh (g : SeedGarden) (n : Z) : Prop :=
  sg_next_id g = n /\ forall i, (n <= i)%Z -> seeds g !! i = None.

Lemma garden_step_other g op i : is_plant op = false ->
  sg_next_id (garden_step g op) = sg_next_id g /\
  (seeds g !! i = None -> seeds (garden_step g op) !! i = None).
Proof.
  destruct op as [| id | o now]; [done | |]; intros _; cbn.
  - unfold abort_seed. destruct (seeds g !! id) eqn:E; cbn; [| done]. split; [done |].
    intros Hi. rewrite lookup_insert_ne; congruence.
  - unfold tick_garden. destruct (key_loop _ _ _ _) as [m [r l]] eqn:E. cbn. split; [done |].
    intros Hi. pose proof (key_loop_dom (tick_body now) (hm_keys o (seeds g)) (seeds g) ([], [])) as Hd.
    rewrite E in Hd. apply not_elem_of_dom. cbn in Hd. rewrite Hd. by apply not_elem_of_dom.
Qed.

Lemma garden_fresh ops : (plants ops < u64_max)%Z ->
  fresh (garden_run ops SeedGarden_default) (1 + plants ops).
Proof.
  induction ops as [|op ops IH] using rev_ind; [by split |]. unfold garden_run in *.
  rewrite plants_snoc, fold_left_app. intros Hb. cbn.
  destruct IH as [Hn Hf]; [unfold plants in *; destruct (is_plant op); lia |].
  set (g := fold_left garden_step ops SeedGarden_default) in *.
  destruct (is_plant op) eqn:Eop.
  - destruct op; try done. split; cbn.
    + unfold u64_saturating_add. rewrite Hn. unfold u64_max, u64_size in *. lia.
    + intros i Hi. rewrite lookup_insert_ne by (rewrite Hn; lia). apply Hf. lia.
  - split; [rewrite (proj1 (garden_step_other g op 0 Eop)); lia |].
    intros i Hi. apply (garden_step_other g op i Eop), Hf. lia.
Qed.

(** A tick does to every seed what [tick_seed] does. *)
Lemma tick_garden_lookup o g now i :
  seeds (fst (tick_garden o g now)) !! i
  = (fun s => if is_terminal (sd_stage s) then s else tick_seed now s) <$> seeds g !! i.
Proof.
  unfold tick_garden. destruct (key_loop _ _ _ _) as [m [r l]] eqn:E. cbn.
  pose proof (key_loop_all (tick_body now)
    (fun _ s => if is_terminal (sd_stage s) then s else tick_seed now s) o (seeds g) ([], [])) as Hk.
  rewrite E in Hk. cbn [fst] in Hk. rewrite Hk.
  - rewrite map_lookup_imap. by destruct (seeds g !! i).
  - intros k v s. unfold tick_body. by destruct (is_terminal (sd_stage v)).
Qed.

Lemma aborted_snoc id ops op :
  aborted id (ops ++ [op]) = aborted id ops || match op with GAbort i => (i =? id)%Z | _ => false end.
Proof. unfold aborted. rewrite existsb_app. cbn. by rewrite orb_false_r. Qed.

Lemma ages_snoc t ops op :
  ages t (ops ++ [op]) = ages t ops ++ match op with GTick _ now => [u64_saturating_sub now t] | _ => [] end.
Proof. unfold ages. rewrite omap_app. f_equal. by destruct op. Qed.

(** The life of a seed that is in the garden under [id]. *)
Lemma seed_tracked g0 id s0 t ttl ops :
  seeds g0 !! id = Some s0 -> (id < sg_next_id g0)%Z -> grown s0 -> sd_stage s0 = Planted ->
  ts_planted s0 = t -> ttl_ms s0 = ttl ->
  let g := garden_run ops g0 in
  (id < sg_next_id g)%Z /\
  exists s, seeds g !! id = Some s /\ same_seed s0 s /\ grown s /\ sd_stage s = stage_after id t ttl ops.
Proof.
  intros Hs Hid Hg Hst Ht Httl. unfold garden_run. induction ops as [|op ops IH] using rev_ind.
  { split; [done |]. exists s0. split_and!; done. }
  rewrite fold_left_app. cbn. set (g := fold_left garden_step ops g0) in *.
  destruct IH as (Hn & s & Es & Hsame & Hgr & Hstage). unfold stage_after in *.
  rewrite aborted_snoc, ages_snoc.
  destruct op as [kind target args ttl' ns now | i | o now]; cbn [garden_step].
  - split; [cbn; lia |]. exists s. cbn. rewrite lookup_insert_ne by lia.
    by rewrite app_nil_r, orb_false_r.
  - unfold abort_seed. rewrite app_nil_r. destruct (Z.eqb_spec i id) as [-> | Hne].
    + rewrite Es, orb_true_r. cbn. split; [done |]. exists (set_stage Aborted s).
      rewrite lookup_insert_eq. by split_and!.
    + rewrite orb_false_r. destruct (seeds g !! i) eqn:Ei; cbn; (split; [done |]); exists s;
        [rewrite lookup_insert_ne by done |]; done.
  - split; [pose proof (proj1 (garden_step_other g (GTick o now) 0 eq_refl)) as En; cbn [garden_step] in En; lia |].
    rewrite tick_garden_lookup, Es, orb_false_r. cbn [fmap option_fmap option_map].
    destruct (aborted id ops) eqn:Eab.
    { rewrite Hstage. cbn. by exists s. }
    rewrite stage_of_snoc, <- Hstage.
    assert (ts_planted s = t /\ ttl_ms s = ttl) as [Ets Ettl] by (unfold same_seed in Hsame; split; congruence).
    destruct (is_terminal (sd_stage s)) eqn:Eterm.
    { exists s. unfold next_stage. by rewrite Eterm. }
    destruct (tick_seed_spec now s Hgr Eterm) as (Hg' & Hs' & Hst').
    exists (tick_seed now s). split_and!; [done | unfold same_seed in *; congruence | done |].
    rewrite Hst', Ettl. unfold lifetime_ms. by rewrite Ets.
Qed.

(** C25: Every seed lives its life. In any run of plantings, aborts and ticks, in any order of
    visits, the seed of a planting gets a new identifier and keeps what it was planted with; unless
    it is aborted, its stage is the one its ages at the ticks lead to: sprouting at one second,
    blooming at ten, harvested at its ttl. So every seed that is ticked once its ttl has passed is
    harvested or aborted, and stays so. *)
Theorem seed_lifecycle before kind target args ttl ns t after :
  let op := GPlant kind target args ttl ns t in
  let id := (1 + plants before)%Z in
  (plants (before ++ op :: after) < u64_max)%Z ->
  exists s, seeds (garden_run (before ++ op :: after) SeedGarden_default) !! id = Some s /\
    same_seed (set_sd_id id (Seed_new kind target args ttl ns t)) s /\
    seeds (garden_run before SeedGarden_default) !! id = None /\
    sd_stage s = stage_after id t ttl after /\
    (forall o now, GTick o now ∈ after -> (ttl <= now - t)%Z -> is_terminal (sd_stage s) = true).
Proof.
  intros op id Hb. assert (plants before < u64_max)%Z as Hb1.
  { unfold plants in *. rewrite List.filter_app, length_app in Hb. lia. }
  assert (plants (before ++ [op]) < u64_max)%Z as Hb2.
  { unfold plants in *. rewrite List.filter_app, length_app in *. cbn in *. lia. }
  pose proof (garden_fresh before Hb1) as [Hn Hf]. rewrite plants_snoc in Hb2. cbn [is_plant op] in Hb2.
  set (g0 := garden_run (before ++ [op]) SeedGarden_default).
  assert (g0 = garden_step (garden_run before SeedGarden_default) op) as Eg0.
  { unfold g0, garden_run. by rewrite fold_left_app. }
  destruct (seed_tracked g0 id (set_sd_id id (Seed_new kind target args ttl ns t)) t ttl after)
    as (_ & s & Es & Hs & _ & Hst); try done.
  { rewrite Eg0. cbn. rewrite Hn. apply lookup_insert_eq. }
  { rewrite Eg0. cbn. rewrite Hn. unfold u64_saturating_add. lia. }
  exists s. split_and!; [| done | by apply Hf | done |].
  { rewrite cons_middle, app_assoc. unfold garden_run in *. by rewrite fold_left_app. }
  intros o now Hin Hold. rewrite Hst. unfold stage_after. destruct (aborted id after); [done |].
  unfold stage_of. assert (existsb (Z.leb ttl) (ages t after) = true) as ->; [| done].
  apply existsb_exists. exists (u64_saturating_sub now t). split.
  - apply list_elem_of_In, list_elem_of_omap. by exists (GTick o now).
  - unfold u64_saturating_sub. apply Z.leb_le. lia.
Qed.

Lemma seed_lifecycle_witness :
  exists s, seeds (garden_run [GTick id_order 0; GPlant Script "t" ∅ 5000 "ns" 10;
                               GTick rev_order 3000; GTick id_order 6000] SeedGarden_default) !! 1%Z = Some s
  /\ is_terminal (sd_stage s) = true.
Proof.
  destruct (seed_lifecycle [GTick id_order 0] Script "t" ∅ 5000 "ns" 10
    [GTick rev_order 3000; GTick id_order 6000]) as (s & Es & _ & _ & _ & Ht).
  - vm_compute. done.
  - exists s. split; [exact Es | apply (Ht id_order 6000%Z)]; [| lia].
    apply list_elem_of_further, list_elem_of_here.
Defined.
