(* ===== verification/Symmetry.v ===== *)
(** * The symmetry loop and its engine ([liminal-core/src/symmetry.rs], [reflex/legacy.rs])

    Statistics of the recent hits, the status they lead to and the mirror impulse that answers a
    drift. [f32::ln] is the argument [FloatMath]; the entropy is summed in the order in which a
    [HashMap] is visited. The line [log_mirror] appends to [reflex.log] is best-effort output and
    is not modelled. *)

From stdpp Require Import prelude gmap strings fin_maps list.
From Stdlib Require Import ZArith Lia SpecFloat.
From S2P Require Import Prelude RustStr Float NodeCell Collections.

(** [Hit] of [cluster_field.rs]. *)
Record Hit : Type := mkHit {
  h_seq : Z;
  h_ts : Z;
  h_node : Z;
  h_strength : f32;
  h_latency_ms : Z
}.

Record HarmonyMetrics : Type := mkHarmonyMetrics {
  avg_strength : f32;
  hm_avg_latency : f32;
  entropy : f32
}.
Definition HarmonyMetrics_default : HarmonyMetrics := mkHarmonyMetrics f0 f0 f0.

Inductive SymmetryStatus : Type := SOk | SDrift | SOverload.
#[export] Instance SymmetryStatus_eq_dec : EqDecision SymmetryStatus.
Proof. solve_decision. Defined.
Definition SymmetryStatus_as_str (s : SymmetryStatus) : string :=
  match s with SOk => "ok" | SDrift => "drift" | SOverload => "overload" end.

Record MirrorImpulse : Type := mkMirrorImpulse {
  mi_kind : string;
  mi_pattern : string;
  mi_strength : f32;
  mi_timestamp_ms : Z
}.

Record HarmonySnapshot : Type := mkHarmonySnapshot {
  hs_metrics : HarmonyMetrics;
  hs_delta_strength : f32;
  hs_delta_latency : f32;
  hs_entropy_ratio : f32;
  hs_dominant_pattern : option string;
  hs_status : SymmetryStatus;
  hs_mirror : option MirrorImpulse
}.

Record SymmetryLoop : Type := mkSymmetryLoop {
  sy_last : HarmonyMetrics;
  sy_decay : f32;
  sy_window_ms : Z;
  sy_current : HarmonyMetrics;
  sy_delta_strength : f32;
  sy_delta_latency : f32;
  sy_entropy_ratio : f32;
  sy_dominant_pattern : option string;
  sy_status : SymmetryStatus;
  sy_last_mirror : option MirrorImpulse
}.

Definition SymmetryLoop_new (decay : f32) (window_ms : Z) : SymmetryLoop :=
  mkSymmetryLoop HarmonyMetrics_default (f32_clamp decay f0 (lit 999 1000)) (Z.max window_ms 200)
    HarmonyMetrics_default f0 f0 f0 None SOk None.

Definition set_window (window_ms : Z) (l : SymmetryLoop) : SymmetryLoop :=
  mkSymmetryLoop (sy_last l) (sy_decay l) (Z.max window_ms 200) (sy_current l) (sy_delta_strength l)
    (sy_delta_latency l) (sy_entropy_ratio l) (sy_dominant_pattern l) (sy_status l) (sy_last_mirror l).

Definition sy_snapshot (l : SymmetryLoop) : HarmonySnapshot :=
  mkHarmonySnapshot (sy_current l) (sy_delta_strength l) (sy_delta_latency l) (sy_entropy_ratio l)
    (sy_dominant_pattern l) (sy_status l) (sy_last_mirror l).

(** [*entry += 1] on [entry(k).or_insert(0)]. *)
Definition bump_count `{Countable K} (m : gmap K Z) (k : K) : gmap K Z :=
  <[k := (default 0 (m !! k) + 1)%Z]> m.

Section loop.
Context `{FloatMath}.
Variable o : HashOrder.

Definition entropy_of (data : list string) : f32 :=
  if decide (data = []) then f0
  else
    let counts := fold_left bump_count data (∅ : gmap string Z) in
    let total := f32_of_Z (Z.of_nat (length data)) in
    if f_le total f32_epsilon then f0
    else
      let ent :=
        fold_left (fun ent count =>
          let p := f32_div (f32_of_Z count) total in
          if f_lt f0 p then f32_sub ent (f32_mul p (f32_ln p)) else ent)
          (hm_values o counts) f0 in
      let max_entropy := f32_ln (f32_of_Z (Z.of_nat (size counts))) in
      if f_lt f0 max_entropy then f32_clamp (f32_div ent max_entropy) f0 f1 else f0.

(** The loop over the samples. *)
Record Totals : Type := mkTotals {
  total_strength : f32;
  total_latency : f32;
  pattern_hits : gmap string Z;
  dominant_pattern : option string;
  dominant_count : Z
}.
Definition Totals_0 : Totals := mkTotals f0 f0 ∅ None 0.
Definition add_sample (t : Totals) (sample : string * Hit) : Totals :=
  let '(pattern, hit) := sample in
  let pattern_hits := bump_count (pattern_hits t) pattern in
  let entry := default 0%Z (pattern_hits !! pattern) in
  let '(dp, dc) := if (dominant_count t <? entry)%Z then (Some pattern, entry)
                   else (dominant_pattern t, dominant_count t) in
  mkTotals (f32_add (total_strength t) (h_strength hit))
    (f32_add (total_latency t) (f32_of_Z (h_latency_ms hit))) pattern_hits dp dc.

Definition status_for (ent delta_strength : f32) : SymmetryStatus :=
  if f_lt (lit 85 100) ent || f_lt (lit 35 100) (f32_abs delta_strength) then SOverload
  else if f_lt (lit 7 10) ent || f_lt (lit 2 10) (f32_abs delta_strength) then SDrift
  else SOk.

Definition mix (decay old new : f32) : f32 :=
  f32_add (f32_mul old decay) (f32_mul new (f32_sub f1 decay)).

Definition update_with_samples (now_ms : Z) (samples : list (string * Hit)) (l : SymmetryLoop)
  : SymmetryLoop * option MirrorImpulse :=
  let last := sy_last l in
  let decay := sy_decay l in
  if decide (samples = []) then
    (mkSymmetryLoop
       (mkHarmonyMetrics (f32_mul (avg_strength last) decay) (f32_mul (hm_avg_latency last) decay)
          (f32_mul (entropy last) decay))
       decay (sy_window_ms l) HarmonyMetrics_default f0 f0 f0 None SOk None, None)
  else
    let t := fold_left add_sample samples Totals_0 in
    let total_count := f32_of_Z (Z.of_nat (length samples)) in
    let metrics :=
      mkHarmonyMetrics (f32_div (total_strength t) total_count) (f32_div (total_latency t) total_count)
        (entropy_of samples.*1) in
    let delta_strength := f32_sub (avg_strength metrics) (avg_strength last) in
    let delta_latency := f32_sub (hm_avg_latency metrics) (hm_avg_latency last) in
    let status := status_for (entropy metrics) delta_strength in
    let mirror :=
      if f_lt (lit 2 10) (f32_abs delta_strength) || f_lt (lit 7 10) (entropy metrics)
      then Some (mkMirrorImpulse "mirror" (default "*" (dominant_pattern t)) (f32_neg delta_strength) now_ms)
      else None in
    (mkSymmetryLoop
       (mkHarmonyMetrics (mix decay (avg_strength last) (avg_strength metrics))
          (mix decay (hm_avg_latency last) (hm_avg_latency metrics))
          (mix decay (entropy last) (entropy metrics)))
       decay (sy_window_ms l) metrics delta_strength delta_latency (entropy metrics)
       (dominant_pattern t) status mirror, mirror).

(** ** The engine *)
Record ReflexEngine : Type := mkReflexEngine {
  re_symmetry : SymmetryLoop;
  re_interval_ms : Z;
  re_accum_ms : Z
}.

(** [interval_ms as u32]. *)
Definition ReflexEngine_new (interval_ms : Z) : ReflexEngine :=
  mkReflexEngine (SymmetryLoop_new (lit 85 100) (interval_ms `mod` u32_size)) (Z.max interval_ms 200) 0.
Definition with_symmetry (symmetry : SymmetryLoop) (interval_ms : Z) : ReflexEngine :=
  mkReflexEngine symmetry (Z.max interval_ms 200) 0.
Definition set_interval (interval_ms : Z) (e : ReflexEngine) : ReflexEngine :=
  let interval := Z.max interval_ms 200 in
  mkReflexEngine (set_window (interval `mod` u32_size) (re_symmetry e)) interval (re_accum_ms e).
Definition re_window (e : ReflexEngine) : Z := sy_window_ms (re_symmetry e).

Definition engine_tick (now_ms dt_ms : Z) (samples : list (string * Hit)) (e : ReflexEngine)
  : ReflexEngine * option HarmonySnapshot :=
  let accum := u64_saturating_add (re_accum_ms e) dt_ms in
  if (accum <? re_interval_ms e)%Z then (mkReflexEngine (re_symmetry e) (re_interval_ms e) accum, None)
  else
    let '(symmetry, mirror) := update_with_samples now_ms samples (re_symmetry e) in
    let s := sy_snapshot symmetry in
    (mkReflexEngine symmetry (re_interval_ms e) 0,
     Some (mkHarmonySnapshot (hs_metrics s) (hs_delta_strength s) (hs_delta_latency s)
             (hs_entropy_ratio s) (hs_dominant_pattern s) (hs_status s) mirror)).
End loop.

(** ** Lemmas *)
Definition occurrences (q : string) (l : list string) : Z := Z.of_nat (length (filter (.= q) l)).

Lemma occurrences_snoc q l p : occurrences q (l ++ [p]) = (occurrences q l + if decide (p = q) then 1 else 0)%Z.
Proof. unfold occurrences. rewrite filter_app, length_app, filter_cons, filter_nil. case_decide; cbn; lia. Qed.

Lemma occurrences_pos q l : (0 < occurrences q l)%Z <-> q ∈ l.
Proof.
  unfold occurrences. induction l as [|p l IH]; [cbn; split; [lia | by intros ?%not_elem_of_nil] |].
  rewrite filter_cons, elem_of_cons. case_decide; [subst; cbn [length]; split; [by left | lia] |].
  rewrite IH. naive_solver.
Qed.

Lemma totals_spec samples :
  let t := fold_left add_sample samples Totals_0 in
  (forall q, default 0%Z (pattern_hits t !! q) = occurrences q samples.*1) /\
  (forall q, occurrences q samples.*1 <= dominant_count t)%Z /\
  (samples <> [] -> exists p, dominant_pattern t = Some p /\ occurrences p samples.*1 = dominant_count t).
Proof.
  induction samples as [|[p h] samples IH] using rev_ind; [done |].
  cbn zeta in *. rewrite fold_left_app. cbn [fold_left]. set (t := fold_left _ _ _) in *.
  destruct IH as (Hh & Hmax & Hdom). unfold add_sample, bump_count. cbn [h_strength]. rewrite fmap_app.
  cbn [fmap list_fmap fst]. rewrite lookup_insert_eq. cbn [default from_option]. unfold id. rewrite Hh.
  assert (0 <= occurrences p samples.*1)%Z by (unfold occurrences; lia).
  destruct (Z.ltb_spec (dominant_count t) (occurrences p samples.*1 + 1)); cbn [pattern_hits dominant_count dominant_pattern];
    split_and!.
  - intros q. rewrite occurrences_snoc. destruct (decide (p = q)) as [-> |].
    + by rewrite lookup_insert_eq.
    + rewrite lookup_insert_ne by done. rewrite Hh. lia.
  - intros q. rewrite occurrences_snoc. specialize (Hmax q). case_decide; subst; lia.
  - intros _. exists p. split; [done |]. rewrite occurrences_snoc, decide_True by done. done.
  - intros q. rewrite occurrences_snoc. destruct (decide (p = q)) as [-> |].
    + by rewrite lookup_insert_eq.
    + rewrite lookup_insert_ne by done. rewrite Hh. lia.
  - intros q. rewrite occurrences_snoc. pose proof (Hmax q). case_decide; subst; lia.
  - intros _. destruct (decide (samples = [])) as [-> | Hne].
    { cbn in *. unfold t in *. cbn in *. lia. }
    destruct (Hdom Hne) as (p' & Hp & Ho). exists p'. split; [done |].
    rewrite occurrences_snoc. case_decide; subst; lia.
Qed.

Lemma entropy_of_unit `{FloatMath} o data : unit_or_nan (entropy_of o data).
Proof.
  unfold entropy_of. assert (unit_or_nan f0) by (right; by vm_compute).
  repeat case_match; try done. apply unit_clamp.
Qed.

Lemma f_lt_weaken a b x : f_le a b = true -> f_lt b x = true -> f_lt a x = true.
Proof.
  intros Hab Hbx. destruct (f_le_nan _ _ Hab) as [Ha Hb].
  assert (is_nan x = false) as Hx.
  { unfold f_lt, SFltb in Hbx. destruct b, x; by cbn in *. }
  apply not_false_iff_true. intros E. apply f_lt_le in E; [| done | done].
  pose proof (f_le_trans _ _ _ E Hab) as Hxb. apply f_lt_le in Hxb; [congruence | done | done].
Qed.

Lemma status_alarm ent d :
  status_for ent d <> SOk <-> f_lt (lit 2 10) (f32_abs d) || f_lt (lit 7 10) ent = true.
Proof.
  unfold status_for. pose proof (f_lt_weaken (lit 7 10) (lit 85 100) ent ltac:(by vm_compute)) as H1.
  pose proof (f_lt_weaken (lit 2 10) (lit 35 100) (f32_abs d) ltac:(by vm_compute)) as H2.
  destruct (f_lt (lit 85 100) ent), (f_lt (lit 35 100) (f32_abs d)), (f_lt (lit 7 10) ent),
    (f_lt (lit 2 10) (f32_abs d)); cbn; try specialize (H1 eq_refl); try specialize (H2 eq_refl);
    try discriminate; split; done.
Qed.

(** ** Runs of the engine *)
Section run.
Context `{FloatMath}.

(** A tick: the order of its visits, the clock, the time passed and the samples. *)
Abbreviation tick_input := (HashOrder * Z * Z * list (string * Hit))%type.
Definition engine_step (acc : ReflexEngine * Z) (i : tick_input) : ReflexEngine * Z :=
  let '(o, now, dt, samples) := i in
  let '(e, out) := engine_tick o now dt samples (fst acc) in
  (e, match out with Some _ => snd acc + 1 | None => snd acc end)%Z.
Definition engine_run (ticks : list tick_input) (e : ReflexEngine) : ReflexEngine * Z :=
  fold_left engine_step ticks (e, 0%Z).
Definition elapsed (ticks : list tick_input) : Z :=
  foldr (fun i t => (i.1.2 + t)%Z) 0%Z ticks.

Lemma elapsed_snoc ticks i : elapsed (ticks ++ [i]) = (elapsed ticks + i.1.2)%Z.
Proof. unfold elapsed. induction ticks as [|j ticks IH]; cbn in *; lia. Qed.

Definition engine_ok (e : ReflexEngine) : Prop :=
  (200 <= re_interval_ms e <= u64_max /\ 0 <= re_accum_ms e < re_interval_ms e)%Z.

Lemma engine_run_spec ticks e : engine_ok e -> Forall (fun i => (0 <= i.1.2)%Z) ticks ->
  let '(e', n) := engine_run ticks e in
  engine_ok e' /\ re_interval_ms e' = re_interval_ms e /\ (0 <= n)%Z /\
  (re_interval_ms e * n + re_accum_ms e' <= re_accum_ms e + elapsed ticks)%Z /\
  (n = 0%Z -> re_accum_ms e' = re_accum_ms e + elapsed ticks)%Z.
Proof.
  intros Hok. induction ticks as [|i ticks IH] using rev_ind; intros Hdt.
  { cbn. destruct Hok. unfold engine_ok. split_and!; lia. }
  apply Forall_app in Hdt as [Hdt [Hi _]%Forall_cons_1]. specialize (IH Hdt).
  unfold engine_run in *. rewrite fold_left_app. cbn [fold_left].
  destruct (fold_left engine_step ticks (e, 0%Z)) as [e1 n1]. rewrite elapsed_snoc.
  destruct IH as ([H1 H2] & Hint & Hn & Hle & H0). destruct i as [[[o now] dt] samples]. cbn [fst snd] in *.
  unfold engine_step, engine_tick, u64_saturating_add. cbn [fst snd].
  destruct (Z.ltb_spec (Z.min (re_accum_ms e1 + dt) u64_max) (re_interval_ms e1)); cbn.
  - unfold engine_ok. cbn. split_and!; lia.
  - destruct (update_with_samples _ _ _ _) as [sy mi]. unfold engine_ok. cbn. split_and!; lia.
Qed.

(** The harmony loop. On any samples the mirror impulse is sent exactly when the status is not
    ok; it carries a pattern that no other one outnumbers in the samples and the negated change of
    strength; the entropy is in the unit interval (or NaN). In any run of ticks the engine reports
    at most once per interval and at least once in every stretch of ticks that is an interval
    long. *)
Theorem symmetry_loop_exact o now samples l e ticks :
  (samples <> [] ->
   let '(l', mirror) := update_with_samples o now samples l in
   (is_Some mirror <-> sy_status l' <> SOk) /\
   unit_or_nan (entropy (sy_current l')) /\
   (forall m, mirror = Some m ->
    exists p, sy_dominant_pattern l' = Some p /\ mi_pattern m = p /\ p ∈ samples.*1 /\
      (forall q, occurrences q samples.*1 <= occurrences p samples.*1)%Z /\
      mi_strength m = f32_neg (sy_delta_strength l') /\ mi_timestamp_ms m = now)) /\
  (engine_ok e -> Forall (fun i => (0 <= i.1.2)%Z) ticks ->
   let n := snd (engine_run ticks e) in
   (re_interval_ms e * n <= re_accum_ms e + elapsed ticks)%Z /\
   (re_interval_ms e <= re_accum_ms e + elapsed ticks -> 1 <= n)%Z).
Proof.
  split.
  - intros Hne. unfold update_with_samples. rewrite decide_False by done. cbn zeta.
    cbn [sy_status sy_current entropy sy_dominant_pattern sy_delta_strength].
    destruct (totals_spec samples) as (Hh & Hmax & Hdom). destruct (Hdom Hne) as (p & Hp & Ho).
    split_and!.
    + rewrite status_alarm. case_match; split; try done.
    + apply entropy_of_unit.
    + intros m Hm. case_match; [| done]. simplify_eq. exists p. rewrite Hp. split_and!; try done.
      * apply occurrences_pos. destruct samples as [|[q h] samples]; [done |]. specialize (Hmax q).
        assert (0 < occurrences q ((q, h) :: samples).*1)%Z; [| lia].
        apply occurrences_pos. left.
      * intros q. rewrite Ho. apply Hmax.
  - intros Hok Hdt. pose proof (engine_run_spec ticks e Hok Hdt) as Hr.
    destruct (engine_run ticks e) as [e' n]. cbn [snd]. unfold engine_ok in *.
    destruct Hr as (Hok' & Hint & Hn & Hle & H0). split; [lia |]. intros Hel.
    destruct (decide (n = 0%Z)) as [E | E]; [| lia]. specialize (H0 E). lia.
Qed.
End run.

(** A logarithm good enough for the witness. *)
#[local] Instance toy_math : FloatMath := {| f32_ln x := f32_sub x f32_one; f32_exp x := x |}.

Lemma symmetry_loop_exact_witness :
  let samples := [("a", mkHit 1 0 1 (lit 9 10) 5)] in
  is_Some (snd (update_with_samples id_order 7 samples (SymmetryLoop_new (lit 85 100) 2000)))
  /\ (1 <= snd (engine_run [(id_order, 0, 1500, []); (id_order, 0, 1500, samples)] (ReflexEngine_new 2000)))%Z.
Proof.
  intros samples. split.
  - pose proof (proj1 (symmetry_loop_exact id_order 7 samples (SymmetryLoop_new (lit 85 100) 2000)
      (ReflexEngine_new 2000) []) ltac:(discriminate)) as [Hm _].
    apply Hm. vm_compute. discriminate.
  - apply (proj2 (symmetry_loop_exact id_order 7 samples (SymmetryLoop_new (lit 85 100) 2000)
      (ReflexEngine_new 2000) [(id_order, 0, 1500, []); (id_order, 0, 1500, samples)]%Z)).
    + vm_compute. repeat split; discriminate.
    + repeat constructor; vm_compute; discriminate.
    + vm_compute. discriminate.
Defined.
