(* ===== verification/FieldTypes.v ===== *)
(** * Data of the field's subsystems

    The records that the reflexes ([reflex/legacy.rs]), the dream cycle ([dream_engine.rs]), the
    collective dream ([synchrony.rs]), awakening ([awakening.rs]), the mirror ([mirror.rs],
    [recursion.rs]) and the resonant model ([resonant.rs]) exchange with the field and the journal. *)

From stdpp Require Import prelude gmap strings fin_maps list.
From Stdlib Require Import ZArith Lia SpecFloat.
From S2P Require Import Prelude RustStr Float NodeCell Symmetry.

(** ** Reflex rules *)
Inductive Hint : Type := SlowTick | FastTick | TrimField | WakeSeeds.
(** [{:?}] *)
Definition Hint_debug (h : Hint) : string :=
  match h with
  | SlowTick => "SlowTick" | FastTick => "FastTick" | TrimField => "TrimField" | WakeSeeds => "WakeSeeds"
  end.

Record ReflexWhen : Type := mkReflexWhen {
  w_token : string;
  w_kind : ImpulseKind;
  w_min_strength : f32;
  w_window_ms : Z;
  w_min_count : Z
}.

Inductive ReflexAction : Type :=
| EmitHint (hint : Hint)
| SpawnSeed (seed : string) (affinity_shift : f32)
| WakeSleeping (count : Z)
| BoostLinks (factor : f32) (top : Z).

Record ReflexRule : Type := mkReflexRule {
  r_id : Z;
  r_when : ReflexWhen;
  r_then : ReflexAction;
  r_enabled : bool
}.

Record ReflexFire : Type := mkReflexFire {
  rf_id : Z;
  rf_at_ms : Z;
  rf_matched : Z
}.

(** ** Dreams *)
Record DreamConfig : Type := mkDreamConfig {
  min_idle_s : Z;
  dc_window_ms : Z;
  strengthen_top_pct : f32;
  weaken_bottom_pct : f32;
  dc_protect_salience : f32;
  adreno_protect : bool;
  max_ops_per_cycle : Z
}.
Definition DreamConfig_default : DreamConfig :=
  mkDreamConfig 15 3000 (lit 15 100) (lit 10 100) (lit 6 10) true 256.

Record DreamReport : Type := mkDreamReport {
  dr_strengthened : Z;
  dr_weakened : Z;
  dr_pruned : Z;
  dr_protected : Z;
  dr_rewired : Z;
  dr_took_ms : Z
}.
Definition DreamReport_default : DreamReport := mkDreamReport 0 0 0 0 0 0.

Record PairStat : Type := mkPairStat {
  ps_u : Z;
  ps_v : Z;
  ps_freq : f32;
  ps_avg_strength : f32
}.

(** ** Synchrony *)
Record SyncConfig : Type := mkSyncConfig {
  phase_len_ms : Z;
  phase_gap_ms : Z;
  cooccur_threshold : f32;
  max_groups : Z;
  share_top_k : Z;
  weight_xfer : f32
}.
Definition SyncConfig_default : SyncConfig := mkSyncConfig 4000 1000 (lit 6 10) 4 8 (lit 2 10).

Record SyncGroup : Type := mkSyncGroup {
  sg_id : Z;
  sg_nodes : list Z;
  sg_tokens : list string
}.

Record SyncReport : Type := mkSyncReport {
  sr_groups : Z;
  sr_shared : Z;
  sr_aligned : Z;
  sr_protected : Z;
  sr_took_ms : Z
}.
Definition SyncReport_default : SyncReport := mkSyncReport 0 0 0 0 0.

(** ** Awakening *)
Record AwakeningConfig : Type := mkAwakeningConfig {
  max_nodes : Z;
  energy_floor : f32;
  energy_boost : f32;
  salience_boost : f32;
  ac_protect_salience : f32;
  tick_bias_ms : Z;
  target_gain : f32
}.
Definition AwakeningConfig_default : AwakeningConfig :=
  mkAwakeningConfig 4 (lit 45 100) (lit 35 100) (lit 12 100) (lit 75 100) 18 (lit 8 100).

Record AwakeningReport : Type := mkAwakeningReport {
  aw_applied : Z;
  aw_protected : Z;
  aw_tick_adjust_ms : Z;
  aw_avg_tension : f32;
  aw_energy_delta : f32
}.
Definition AwakeningReport_default : AwakeningReport := mkAwakeningReport 0 0 0 f0 f0.

(** ** Mirror epochs and their replay *)
Inductive EpochKind : Type := EDream | ECollective | EAwaken.
#[export] Instance EpochKind_eq_dec : EqDecision EpochKind.
Proof. solve_decision. Defined.
Definition EpochKind_as_str (k : EpochKind) : string :=
  match k with EDream => "dream" | ECollective => "collective" | EAwaken => "awaken" end.

Record Epoch : Type := mkEpoch {
  ep_id : Z;
  ep_kind : EpochKind;
  ep_start_ms : Z;
  ep_end_ms : Z;
  ep_cfg_hash : Z;
  ep_report_hash : Z;
  harmony_before : HarmonyMetrics;
  harmony_after : HarmonyMetrics;
  tension_before : f32;
  tension_after : f32;
  latency_avg_before : f32;
  latency_avg_after : f32;
  impact : f32
}.
Definition Epoch_duration (e : Epoch) : Z := u64_saturating_sub (ep_end_ms e) (ep_start_ms e).

Record MirrorTimeline : Type := mkTimeline {
  mt_epochs : list Epoch;
  built_ms : Z
}.

Record ReplayConfig : Type := mkReplayConfig {
  rc_mode : string;
  rc_scale : f32;
  rc_max_ops : Z;
  rc_protect_salience : f32
}.
Definition ReplayConfig_default : ReplayConfig := mkReplayConfig "dry" f1 128 (lit 75 100).

Record ReplayReport : Type := mkReplayReport {
  rr_epoch_id : Z;
  rr_mode : string;
  rr_applied : Z;
  predicted_gain : f32;
  rr_took_ms : Z
}.

(** ** The resonant model *)
Record ResonantEdge : Type := mkEdge {
  e_from : Z;
  e_to : Z;
  e_weight : f32;
  e_coherence : f32
}.

Record Influence : Type := mkInfluence {
  in_source : Z;
  in_sink : Z;
  in_weight : f32;
  in_coherence : f32
}.

Record Tension : Type := mkTension {
  tn_node : Z;
  magnitude : f32;
  relief : f32
}.

Record ModelFrame : Type := mkFrame {
  mf_hash : string;
  mf_cell_count : Z;
  mf_created_ms : Z
}.

Record ResonantModel : Type := mkModel {
  rm_edges : list ResonantEdge;
  rm_influences : list Influence;
  rm_tensions : list Tension;
  rm_coherence : f32;
  last_build : option ModelFrame;
  last_applied : option string
}.
Definition ResonantModel_default : ResonantModel := mkModel [] [] [] f0 None None.

Inductive SyncEvent : Type :=
| SyDream (at_ms strengthened weakened protected : Z)
| SyCollective (at_ms shared aligned protected : Z)
| SyBuild (at_ms : Z) (hash : string) (cell_count : Z)
| SyApply (at_ms : Z) (hash : option string) (cell_count : Z)
| SyTick (at_ms : Z).

Record SyncLog : Type := mkSyncLog {
  sl_entries : list SyncEvent;
  sl_capacity : Z
}.
