(* ===== verification/Feedback.v ===== *)
(** * The reflex feedback loop ([liminal-core/src/reflex/feedback.rs])

    A window of measurements is classified as a signal, the signal proposes an action unless the
    action is cooling down, and an action taken starts its cooldown. [apply_action], which acts on
    the field, is in [FieldAwaken]. *)

From stdpp Require Import prelude gmap strings fin_maps list.
From Stdlib Require Import ZArith Lia SpecFloat.
From S2P Require Import Prelude RustStr Float RustText NodeCell Lql Collections.

Record ReflexSnapshot : Type := mkReflexSnapshot {
  rs_ts_ms : Z;
  yield_rate : f32;
  rs_harmony : f32;
  latency_p95 : f32;
  rs_impact : f32
}.

Record MetricsDelta : Type := mkMetricsDelta {
  yield_delta : f32;
  harmony_delta : f32;
  latency_delta : f32;
  impact_delta : f32
}.
Definition MetricsDelta_default : MetricsDelta := mkMetricsDelta f0 f0 f0 f0.

Definition snapshot_delta (s other : ReflexSnapshot) : MetricsDelta :=
  mkMetricsDelta (f32_sub (yield_rate s) (yield_rate other)) (f32_sub (rs_harmony s) (rs_harmony other))
    (f32_sub (latency_p95 s) (latency_p95 other)) (f32_sub (rs_impact s) (rs_impact other)).

Inductive ReflexSignal : Type := RsOk | Plateau | DriftDown | Oscillation | Overload.

Inductive ActionKind : Type := KMicroPivot | KDefuse | KDampening | KTargetShift.
#[export] Instance ActionKind_eq_dec : EqDecision ActionKind.
Proof. solve_decision. Defined.
#[export] Instance ActionKind_countable : Countable ActionKind.
Proof.
  refine (inj_countable' (fun k => match k with KMicroPivot => 0 | KDefuse => 1 | KDampening => 2 | KTargetShift => 3 end)
            (fun n => match n with 0 => KMicroPivot | 1 => KDefuse | 2 => KDampening | _ => KTargetShift end) _).
  by intros [].
Defined.

Inductive Action : Type :=
| MicroPivot (variant : option string) (step : f32)
| Defuse (pendulum : bool)
| Dampening (ttl_ms : Z) (factor : f32)
| TargetShift (load_delta : f32).

Definition action_kind (a : Action) : ActionKind :=
  match a with
  | MicroPivot _ _ => KMicroPivot
  | Defuse _ => KDefuse
  | Dampening _ _ => KDampening
  | TargetShift _ => KTargetShift
  end.

Record ReflexReport : Type := mkReflexReport {
  rp_sig : ReflexSignal;
  rp_delta : MetricsDelta;
  rp_action : option Action;
  rp_took_ms : Z
}.

(** [RingBuf]: a queue that drops its oldest element when it is full. *)
Definition ring_push {A : Type} (limit : nat) (l : list A) (v : A) : list A :=
  (if decide (length l = limit) then tail l else l) ++ [v].

Record ReflexState : Type := mkReflexState {
  rx_cfg : ReflexCfg;
  rx_enabled : bool;
  rx_limit : nat;
  rx_window : list ReflexSnapshot;
  cooldown_until : gmap ActionKind Z;
  rx_last_report : option ReflexReport
}.

Definition ReflexState_new (cfg : ReflexCfg) : ReflexState :=
  mkReflexState cfg false (Z.to_nat (Z.max (win_ms cfg / 1000) 1) * 2) [] ∅ None.

Definition rx_set_cfg (cfg : ReflexCfg) (s : ReflexState) : ReflexState :=
  mkReflexState cfg (rx_enabled s) (rx_limit s) (rx_window s) (cooldown_until s) (rx_last_report s).
Definition set_enabled (v : bool) (s : ReflexState) : ReflexState :=
  mkReflexState (rx_cfg s) v (rx_limit s) (rx_window s) (cooldown_until s) (rx_last_report s).
Definition push_snapshot (snapshot : ReflexSnapshot) (s : ReflexState) : ReflexState :=
  mkReflexState (rx_cfg s) (rx_enabled s) (rx_limit s) (ring_push (rx_limit s) (rx_window s) snapshot)
    (cooldown_until s) (rx_last_report s).

(** [checked_sub]. *)
Definition cooldown_remaining (kind : ActionKind) (now_ms : Z) (s : ReflexState) : option Z :=
  match cooldown_until s !! kind with
  | Some until => if (now_ms <=? until)%Z then Some (until - now_ms)%Z else None
  | None => None
  end.

(** ** The signal *)
Record Scan : Type := mkScan {
  sign_changes : Z;
  last_sign : Z;
  overload : bool
}.

Definition scan_pair (cfg : ReflexCfg) (sc : Scan) (pair : ReflexSnapshot * ReflexSnapshot) : Scan :=
  let '(lhs, rhs) := pair in
  let grad := f32_sub (yield_rate rhs) (yield_rate lhs) in
  let sign := if f_lt (hysteresis cfg) grad then 1%Z
              else if f_lt grad (f32_neg (hysteresis cfg)) then (-1)%Z else 0%Z in
  let sc :=
    if (sign =? 0)%Z then sc
    else mkScan
           (if negb (last_sign sc =? 0)%Z && negb (sign =? last_sign sc)%Z
            then u32_add (sign_changes sc) 1 else sign_changes sc) sign (overload sc) in
  if f_lt (f32_mul (f32_max (min_gain cfg) f1) (lit 300 1)) (latency_p95 rhs)
  then mkScan (sign_changes sc) (last_sign sc) true else sc.

Definition evaluate_window (window : list ReflexSnapshot) (cfg : ReflexCfg) : ReflexSignal :=
  match window with
  | first :: _ :: _ =>
      let last := List.last window first in
      let duration :=
        f32_div (f32_of_Z (Z.max (u64_saturating_sub (rs_ts_ms last) (rs_ts_ms first)) 1)) (lit 1000 1) in
      let yield_grad := f32_div (f32_sub (yield_rate last) (yield_rate first)) duration in
      let harmony_grad := f32_div (f32_sub (rs_harmony last) (rs_harmony first)) duration in
      if f_lt (f32_abs yield_grad) (hysteresis cfg) && f_lt (f32_abs harmony_grad) (hysteresis cfg)
      then Plateau
      else if f_lt (yield_rate last) (f32_sub (yield_rate first) (min_gain cfg))
              && f_lt (rs_impact last) (f32_sub (rs_impact first) (min_gain cfg))
      then DriftDown
      else
        let sc := fold_left (scan_pair cfg) (windows2 window) (mkScan 0 0 false) in
        if overload sc then Overload
        else if (3 <=? sign_changes sc)%Z then Oscillation
        else RsOk
  | _ => RsOk
  end.

(** [Iterator::max_by]: the last of the greatest elements. *)
Definition max_by {A : Type} (gt : A -> A -> bool) (l : list A) : option A :=
  match l with
  | [] => None
  | x :: l' => Some (fold_left (fun best y => if gt best y then best else y) l' x)
  end.

Definition cooled (cooldowns : gmap ActionKind Z) (now_ms : Z) (kind : ActionKind) : bool :=
  match cooldowns !! kind with Some until => (until <=? now_ms)%Z | None => true end.

(** [neighbors] is in the order in which the field's table was visited. *)
Definition propose_action (signal : ReflexSignal) (cfg : ReflexCfg) (neighbors : list (string * f32))
    (now_ms : Z) (cooldowns : gmap ActionKind Z) : option Action :=
  let cooled := cooled cooldowns now_ms in
  match signal with
  | Plateau =>
      if negb (cooled KMicroPivot) then None
      else
        let neighbor := fst <$> max_by (fun a b => f_lt b.2 a.2) neighbors in
        Some (MicroPivot neighbor (pivot_step cfg))
  | DriftDown => if negb (cooled KDefuse) then None else Some (Defuse true)
  | Oscillation => if negb (cooled KDampening) then None else Some (Dampening (cooldown_ms cfg) (lit 75 100))
  | Overload => if negb (cooled KTargetShift) then None else Some (TargetShift (lit (-5) 100))
  | RsOk => None
  end.

Definition next_report (neighbors : list (string * f32)) (ctx_cfg : ReflexCfg) (now_ms : Z) (s : ReflexState)
  : ReflexState * option ReflexReport :=
  if negb (rx_enabled s) then (s, None)
  else
    let signal := evaluate_window (rx_window s) (rx_cfg s) in
    let action := propose_action signal ctx_cfg neighbors now_ms (cooldown_until s) in
    let delta :=
      match reverse (rx_window s) with
      | latest :: prev :: _ => snapshot_delta latest prev
      | _ => MetricsDelta_default
      end in
    let report := mkReflexReport signal delta action 0 in
    (mkReflexState (rx_cfg s) (rx_enabled s) (rx_limit s) (rx_window s) (cooldown_until s) (Some report),
     Some report).

Definition record_action (kind : ActionKind) (now_ms duration_ms : Z) (s : ReflexState) : ReflexState :=
  mkReflexState (rx_cfg s) (rx_enabled s) (rx_limit s) (rx_window s)
    (<[kind := u64_saturating_add now_ms duration_ms]> (cooldown_until s)) (rx_last_report s).

(** [cooldown_ms * 2] wraps in a release build. *)
Definition cooldown_for (action : Action) (cfg : ReflexCfg) : Z :=
  match action_kind action with
  | KDefuse => (cooldown_ms cfg * 2) `mod` u64_size
  | KMicroPivot | KDampening | KTargetShift => cooldown_ms cfg
  end.

(** ** Runs *)
(** What [ClusterField::record_reflex_snapshot] does with this state. *)
Definition feedback_round (snapshot : ReflexSnapshot) (neighbors : list (string * f32)) (now_ms : Z)
    (s : ReflexState) : ReflexState * option ReflexReport :=
  let s := push_snapshot snapshot s in
  let '(s, report) := next_report neighbors (rx_cfg s) now_ms s in
  match report with
  | Some r =>
      match rp_action r with
      | Some action => (record_action (action_kind action) now_ms (cooldown_for action (rx_cfg s)) s, report)
      | None => (s, report)
      end
  | None => (s, report)
  end.

Abbreviation round_input := (ReflexSnapshot * list (string * f32) * Z)%type.

(** The actions taken, with their times. *)
Definition feedback_step (acc : ReflexState * list (Z * Action)) (i : round_input)
  : ReflexState * list (Z * Action) :=
  let '(snapshot, neighbors, now) := i in
  let '(s, report) := feedback_round snapshot neighbors now (fst acc) in
  (s, snd acc ++ match report with
                 | Some r => match rp_action r with Some a => [(now, a)] | None => [] end
                 | None => []
                 end).
Definition feedback_run (rounds : list round_input) (s : ReflexState) : ReflexState * list (Z * Action) :=
  fold_left feedback_step rounds (s, []).

Lemma ring_push_last_n {A} limit (l : list A) v :
  0 < limit -> ring_push limit (last_n limit l) v = last_n limit (l ++ [v]).
Proof.
  intros Hl. unfold ring_push, last_n. rewrite length_drop, length_app. cbn [length].
  case_decide.
  - destruct (decide (length l < limit)); [lia |].
    replace (length l + 1 - limit) with (S (length l - limit)) by lia.
    rewrite drop_app_le by lia. f_equal.
    change (tail ?x) with (drop 1 x). rewrite drop_drop. f_equal. lia.
  - rewrite drop_app_le by lia. f_equal. f_equal. lia.
Qed.

Lemma propose_cooled signal cfg nb now cds a :
  propose_action signal cfg nb now cds = Some a -> cooled cds now (action_kind a) = true.
Proof. unfold propose_action. intros E. repeat case_match; simplify_eq; cbn; by apply negb_false_iff. Qed.

Lemma cooldown_for_range a cfg : is_u64 (cooldown_ms cfg) -> (0 <= cooldown_for a cfg)%Z.
Proof.
  intros [? ?]. unfold cooldown_for. destruct (action_kind a); try lia.
  apply Z.mod_pos_bound. unfold u64_size. lia.
Qed.

(** What one round does. *)
Lemma feedback_round_spec sn nb now s :
  let '(s', report) := feedback_round sn nb now s in
  rx_cfg s' = rx_cfg s /\ rx_enabled s' = rx_enabled s /\ rx_limit s' = rx_limit s /\
  rx_window s' = ring_push (rx_limit s) (rx_window s) sn /\
  match report with
  | None => rx_enabled s = false /\ cooldown_until s' = cooldown_until s
  | Some r =>
      rx_enabled s = true /\ rp_sig r = evaluate_window (rx_window s') (rx_cfg s) /\
      rp_action r = propose_action (rp_sig r) (rx_cfg s) nb now (cooldown_until s) /\
      cooldown_until s' =
        match rp_action r with
        | Some a => <[action_kind a := u64_saturating_add now (cooldown_for a (rx_cfg s))]> (cooldown_until s)
        | None => cooldown_until s
        end
  end.
Proof.
  unfold feedback_round, next_report. cbn [push_snapshot rx_enabled rx_cfg].
  destruct (rx_enabled s) eqn:En; cbn [negb]; [| cbn; by rewrite ?En].
  cbn [rp_action rx_window rx_cfg cooldown_until push_snapshot].
  destruct (propose_action _ _ _ _ _) eqn:Ep; cbn; by rewrite ?En.
Qed.

Definition cooling (cfg : ReflexCfg) (s : ReflexState) (acts : list (Z * Action)) : Prop :=
  forall t a, (t, a) ∈ acts ->
  exists u, cooldown_until s !! action_kind a = Some u /\ (u64_saturating_add t (cooldown_for a cfg) <= u)%Z.

Lemma feedback_run_spec rounds cfg :
  is_u64 (cooldown_ms cfg) -> Forall (fun i : round_input => is_u64 i.2) rounds ->
  let s0 := set_enabled true (ReflexState_new cfg) in
  let '(s, acts) := feedback_run rounds s0 in
  rx_cfg s = cfg /\ rx_enabled s = true /\ rx_limit s = rx_limit s0 /\
  rx_window s = last_n (rx_limit s0) (map (fun i : round_input => i.1.1) rounds) /\ cooling cfg s acts /\
  (forall l1 l2 l3 t1 a1 t2 a2, acts = l1 ++ (t1, a1) :: l2 ++ (t2, a2) :: l3 ->
   action_kind a1 = action_kind a2 -> (u64_saturating_add t1 (cooldown_for a1 cfg) <= t2)%Z).
Proof.
  intros Hc Ht s0. assert (0 < rx_limit s0) as Hlim by (unfold s0, ReflexState_new; cbn; lia).
  unfold feedback_run. induction rounds as [|[[sn nb] now] rounds IH] using rev_ind.
  { split_and!; try done. - intros t a Hin. by apply not_elem_of_nil in Hin.
    - intros l1 l2 l3 t1 a1 t2 a2 E. by destruct l1. }
  apply Forall_app in Ht as [Ht [Hnow _]%Forall_cons_1]. specialize (IH Ht). cbn [snd] in Hnow.
  rewrite fold_left_app, map_app. cbn [fold_left map].
  destruct (fold_left feedback_step rounds (s0, [])) as [s acts].
  destruct IH as (Ecfg & Een & Elim & Ewin & Hcool & Hpair).
  unfold feedback_step. cbn [fst snd]. pose proof (feedback_round_spec sn nb now s) as Hr.
  destruct (feedback_round sn nb now s) as [s' report].
  destruct Hr as (R1 & R2 & R3 & R4 & R5). split_and!; try congruence.
  { rewrite R4, Elim, Ewin. by apply ring_push_last_n. }
  all: destruct report as [r|]; [| destruct R5; congruence]; destruct R5 as (_ & _ & Ra & Rc).
  all: destruct (rp_action r) as [a'|] eqn:Ea; rewrite ?app_nil_r.
  - symmetry in Ra. apply propose_cooled in Ra as Hcd. unfold cooled in Hcd.
    pose proof (cooldown_for_range a' cfg Hc) as Hp. unfold is_u64, u64_saturating_add, u64_max in *.
    intros t a [Hin | Hin]%elem_of_app.
    + destruct (Hcool t a Hin) as (u & Hu & Hle). rewrite Rc, Ecfg.
      destruct (decide (action_kind a' = action_kind a)) as [Ek | Hne].
      * exists (Z.min (now + cooldown_for a' cfg) (u64_size - 1)). rewrite Ek, lookup_insert_eq.
        split; [done |]. rewrite Ek, Hu in Hcd. bool_prop. lia.
      * exists u. by rewrite lookup_insert_ne.
    + apply list_elem_of_singleton in Hin as [= -> ->]. rewrite Rc, Ecfg, lookup_insert_eq. eexists. split; reflexivity.
  - rewrite <- R1 in Ecfg. intros t a Hin. rewrite Rc. by apply Hcool.
  - intros l1 l2 l3 t1 a1 t2 a2 E Ek. destruct l3 as [|x l3 _] using rev_ind.
    + rewrite app_comm_cons, app_assoc in E. apply app_inj_tail in E as [E [= <- <-]].
      assert ((t1, a1) ∈ acts) as Hin by (rewrite E; apply elem_of_app; right; left).
      destruct (Hcool t1 a1 Hin) as (u & Hu & Hle). symmetry in Ra. apply propose_cooled in Ra as Hcd.
      unfold cooled in Hcd. rewrite <- Ek, Hu in Hcd. bool_prop. lia.
    + rewrite !app_comm_cons, !app_assoc in E. apply app_inj_tail in E as [E _].
      apply (Hpair l1 l2 l3 t1 a1 t2 a2); [| done]. rewrite E. by rewrite <- !app_assoc, <- !app_comm_cons.
  - done.
Qed.

(** Actions keep their distance. In any run of rounds of an enabled loop, whatever the
    measurements and the clock, the window holds exactly the latest snapshots it has room for, and
    between two actions of one kind the cooldown of the first has passed. *)
Theorem feedback_actions_spaced rounds cfg :
  is_u64 (cooldown_ms cfg) -> Forall (fun i : round_input => is_u64 i.2) rounds ->
  let s0 := set_enabled true (ReflexState_new cfg) in
  let '(s, acts) := feedback_run rounds s0 in
  rx_window s = last_n (rx_limit s0) (map (fun i : round_input => i.1.1) rounds) /\
  (forall l1 l2 l3 t1 a1 t2 a2, acts = l1 ++ (t1, a1) :: l2 ++ (t2, a2) :: l3 ->
   action_kind a1 = action_kind a2 -> (u64_saturating_add t1 (cooldown_for a1 cfg) <= t2)%Z).
Proof.
  intros Hc Ht s0. pose proof (feedback_run_spec rounds cfg Hc Ht) as Hr.
  cbv zeta in Hr. fold s0 in Hr. destruct (feedback_run rounds s0) as [s acts].
  destruct Hr as (_ & _ & _ & Hw & _ & Hp). by split.
Qed.

Lemma feedback_actions_spaced_witness :
  let cfg := mkReflexCfg 60000 (lit 5 100) (lit 1 10) (lit 2 100) 15000 (lit 2 100) in
  let sn t := mkReflexSnapshot t f1 f1 (lit 10 1) f0 in
  let rounds := [(sn 0, [], 0); (sn 1000, [], 1000); (sn 2000, [], 2000); (sn 17000, [], 17000)]%Z in
  let acts := snd (feedback_run rounds (set_enabled true (ReflexState_new cfg))) in
  map fst acts = [1000; 17000]%Z /\
  (forall l1 l2 l3 t1 a1 t2 a2, acts = l1 ++ (t1, a1) :: l2 ++ (t2, a2) :: l3 ->
   action_kind a1 = action_kind a2 -> (u64_saturating_add t1 (cooldown_for a1 cfg) <= t2)%Z).
Proof.
  intros cfg sn rounds acts. split; [vm_compute; reflexivity |].
  pose proof (feedback_actions_spaced rounds cfg ltac:(vm_compute; split; [discriminate | reflexivity])
    ltac:(repeat (apply Forall_cons_2; [vm_compute; split; [discriminate | reflexivity] |]); apply Forall_nil_2)) as Hr.
  cbv zeta in Hr.
  unfold acts. destruct (feedback_run rounds (set_enabled true (ReflexState_new cfg))) as [s l]. exact (proj2 Hr).
Defined.
