(* ===== verification/Variant.v ===== *)
(** * The variant manifold ([liminal-core/src/variant.rs])

    Variants ranked by probability per effort, the commitment to one of them, pivots, and pendulums
    that drain attention. [f32::exp] is the argument [FloatMath]. *)

From stdpp Require Import prelude gmap strings fin_maps list sorting.
From Stdlib Require Import ZArith Lia SpecFloat Sorted.
From S2P Require Import Prelude RustStr Float RustText NodeCell Collections.

Abbreviation VariantId := string.

Record Variant : Type := mkVariant {
  v_id : VariantId;
  v_title : string;
  evidence_score : f32;
  cost_est : f32;
  time_est_ms : Z;
  v_risk : f32;
  v_expected_gain : f32;
  path_hint : list string;
  resonance_hint : option f32
}.

Definition variant_effort (v : Variant) : f32 :=
  f32_max (f32_add (cost_est v) (f32_div (f32_of_Z (time_est_ms v)) (lit 1000 1))) (lit 1 1000).

Record Slide : Type := mkSlide {
  sl_id : string;
  variant_ids : list VariantId;
  desired_metrics : gmap string f64;
  ethics_guard : option string
}.

Record Intention : Type := mkIntention {
  focus_tokens : list string;
  in_weights : list f32;
  in_horizon_ms : option Z;
  in_budget : option f32
}.

Definition normalized_weights (i : Intention) : list f32 :=
  if decide (in_weights i = []) then []
  else
    let sum := f32_sum (List.filter (f_lt f0) (in_weights i)) in
    if f_le sum f0 then map (fun _ => f0) (in_weights i)
    else map (fun w => f32_div (f32_max w f0) sum) (in_weights i).

Record Pendulum : Type := mkPendulum {
  pd_id : string;
  signature_tokens : list string;
  drain_rate : f32;
  counter_policy : option string
}.
Definition set_drain_rate (v : f32) (p : Pendulum) : Pendulum :=
  mkPendulum (pd_id p) (signature_tokens p) v (counter_policy p).

Definition penalty_for (tokens : list string) (p : Pendulum) : f32 :=
  if decide (signature_tokens p = []) then f0
  else
    let hits :=
      length (List.filter (fun token => existsb (fun needle => eq_ignore_ascii_case needle token) (signature_tokens p)) tokens) in
    if decide (hits = 0) then f0
    else f32_mul (f32_div (f32_of_Z (Z.of_nat hits)) (f32_of_Z (Z.of_nat (length (signature_tokens p)))))
           (f32_max (drain_rate p) f0).

Record ProbabilityWeights : Type := mkWeights {
  pw_evidence : f32;
  pw_cost : f32;
  pw_gain : f32;
  pw_risk : f32;
  pw_resonance : f32
}.
Definition ProbabilityWeights_default : ProbabilityWeights :=
  mkWeights (lit 21 10) (lit 13 10) (lit 14 10) (lit 11 10) (lit 16 10).

Record ProbabilityFlow : Type := mkFlow {
  pf_weights : ProbabilityWeights;
  min_effort : f32
}.
Definition ProbabilityFlow_default : ProbabilityFlow := mkFlow ProbabilityWeights_default (lit 2 10).

Record VariantScore : Type := mkScore {
  vs_id : VariantId;
  vs_title : string;
  vs_probability : f32;
  vs_effort : f32;
  vs_score : f32;
  vs_evidence : f32;
  vs_risk : f32;
  vs_expected_gain : f32
}.

Record EvidenceEma : Type := mkEma {
  em_value : f32;
  em_alpha : f32;
  em_seen : bool
}.
Definition ema_update (sample : f32) (e : EvidenceEma) : EvidenceEma * f32 :=
  let v := if em_seen e
           then f32_add (f32_mul (em_alpha e) sample) (f32_mul (f32_sub f1 (em_alpha e)) (em_value e))
           else sample in
  (mkEma v (em_alpha e) true, v).

Record CommitState : Type := mkCommitState {
  cs_variant_id : VariantId;
  cs_started_ms : Z;
  accumulated_effort : f32
}.

Record CommitOutcome : Type := mkCommitOutcome {
  co_variant_id : VariantId;
  planted_seeds : list Z
}.
Record PivotOutcome : Type := mkPivotOutcome {
  po_from : VariantId;
  po_to : VariantId;
  po_inertia : f32
}.
Record DefuseOutcome : Type := mkDefuseOutcome {
  do_pendulum_id : string;
  previous_drain : f32;
  new_drain : f32
}.

Record VariantManifold : Type := mkManifold {
  variants : gmap VariantId Variant;
  slides : gmap string Slide;
  pendulums : gmap string Pendulum;
  evidence : gmap VariantId EvidenceEma;
  active_slide : option string;
  active_intention : option Intention;
  active_commit : option CommitState;
  flow : ProbabilityFlow
}.
Definition VariantManifold_default : VariantManifold :=
  mkManifold ∅ ∅ ∅ ∅ None None None ProbabilityFlow_default.

Definition set_variants (v : gmap VariantId Variant) (e : gmap VariantId EvidenceEma) (m : VariantManifold) :=
  mkManifold v (slides m) (pendulums m) e (active_slide m) (active_intention m) (active_commit m) (flow m).
Definition set_active_commit (c : option CommitState) (m : VariantManifold) : VariantManifold :=
  mkManifold (variants m) (slides m) (pendulums m) (evidence m) (active_slide m) (active_intention m) c (flow m).
Definition set_pendulums (p : gmap string Pendulum) (m : VariantManifold) : VariantManifold :=
  mkManifold (variants m) (slides m) p (evidence m) (active_slide m) (active_intention m) (active_commit m) (flow m).

(** ** Operations *)
Definition upsert_variant (v : Variant) (m : VariantManifold) : VariantManifold :=
  let evidence :=
    match evidence m !! v_id v with
    | Some _ => evidence m
    | None => <[v_id v := mkEma f0 (lit 35 100) false]> (evidence m)
    end in
  set_variants (<[v_id v := v]> (variants m)) evidence m.

Definition set_slide (s : Slide) (m : VariantManifold) : VariantManifold :=
  mkManifold (variants m) (<[sl_id s := s]> (slides m)) (pendulums m) (evidence m) (Some (sl_id s))
    (active_intention m) (active_commit m) (flow m).
Definition register_pendulum (p : Pendulum) (m : VariantManifold) : VariantManifold :=
  set_pendulums (<[pd_id p := p]> (pendulums m)) m.
Definition set_intention (i : Intention) (m : VariantManifold) : VariantManifold :=
  mkManifold (variants m) (slides m) (pendulums m) (evidence m) (active_slide m) (Some i) (active_commit m) (flow m).

Definition observe_variant (id : VariantId) (sample : f32) (m : VariantManifold) : VariantManifold * option f32 :=
  match evidence m !! id with
  | None => (m, None)
  | Some ema =>
      let '(ema, v) := ema_update (f32_clamp sample f0 f1) ema in
      (set_variants (variants m) (<[id := ema]> (evidence m)) m, Some v)
  end.

Definition commit_variant (id : VariantId) (now_ms : Z) (m : VariantManifold)
  : VariantManifold * option CommitOutcome :=
  match variants m !! id with
  | None => (m, None)
  | Some v =>
      (set_active_commit (Some (mkCommitState id now_ms (variant_effort v))) m, Some (mkCommitOutcome id []))
  end.

Definition pivot (from to : VariantId) (now_ms : Z) (m : VariantManifold)
  : VariantManifold * option PivotOutcome :=
  match active_commit m with
  | None => (m, None)
  | Some current =>
      if decide (cs_variant_id current <> from) then (m, None)
      else
        match variants m !! to with
        | None => (m, None)
        | Some next_variant =>
            let elapsed := f32_div (f32_of_Z (u64_saturating_sub now_ms (cs_started_ms current))) (lit 1000 1) in
            let inertia :=
              f32_mul (f32_div (accumulated_effort current) (variant_effort next_variant))
                (f32_add f1 (f32_mul elapsed (lit 5 100))) in
            (set_active_commit (Some (mkCommitState to now_ms (variant_effort next_variant))) m,
             Some (mkPivotOutcome from to inertia))
        end
  end.

Definition defuse (id : string) (reduction : f32) (m : VariantManifold) : VariantManifold * option DefuseOutcome :=
  match pendulums m !! id with
  | None => (m, None)
  | Some p =>
      let new := f32_max (f32_sub (drain_rate p) reduction) f0 in
      (set_pendulums (<[id := set_drain_rate new p]> (pendulums m)) m,
       Some (mkDefuseOutcome id (drain_rate p) new))
  end.

(** ** Ranking *)
Section ranking.
Context `{FloatMath, UnicodeCase}.
Variable o : HashOrder.

Definition sigmoid (x : f32) : f32 := f32_div f1 (f32_add f1 (f32_exp (f32_neg x))).

Definition probability (fl : ProbabilityFlow) (v : Variant) (intention : option Intention) (resonance : f32)
  : f32 :=
  let cost_norm :=
    match intention ≫= in_budget with
    | Some budget => if f_lt f0 budget then f32_div (cost_est v) (f32_max budget (lit 1 1000)) else cost_est v
    | None => cost_est v
    end in
  let w := pf_weights fl in
  let x :=
    f32_add
      (f32_sub
         (f32_add
            (f32_sub (f32_mul (pw_evidence w) (evidence_score v)) (f32_mul (pw_cost w) cost_norm))
            (f32_mul (pw_gain w) (v_expected_gain v)))
         (f32_mul (pw_risk w) (v_risk v)))
      (f32_mul (pw_resonance w) resonance) in
  sigmoid x.

Definition flow_effort (fl : ProbabilityFlow) (v : Variant) : f32 := f32_max (variant_effort v) (min_effort fl).

Definition flow_score (fl : ProbabilityFlow) (v : Variant) (intention : option Intention) (resonance : f32)
  : f32 * f32 * f32 :=
  let p := probability fl v intention resonance in
  let e := flow_effort fl v in
  (p, e, f32_div p (f32_max e (min_effort fl))).

Definition resonance_for (m : VariantManifold) (v : Variant) : f32 :=
  let score := default f0 (resonance_hint v) in
  let score :=
    match active_intention m with
    | Some intention =>
        let weights := normalized_weights intention in
        fold_left (fun score it =>
          let '(idx, token) := it in
          if existsb (fun hint => eq_ignore_ascii_case hint token) (path_hint v)
             || contains (to_lowercase (v_title v)) (to_lowercase token)
          then f32_add score (default f0 (weights !! idx)) else score)
          (imap pair (focus_tokens intention)) score
    | None => score
    end in
  let score :=
    match active_slide m ≫= (fun id => slides m !! id) with
    | Some slide => if existsb (String.eqb (v_id v)) (variant_ids slide) then f32_add score (lit 2 10) else score
    | None => score
    end in
  f32_clamp score (lit (-1) 1) f1.

Definition pendulum_penalty (m : VariantManifold) (tokens : list string) : f32 :=
  f32_min (f32_sum (map (penalty_for tokens) (hm_values o (pendulums m)))) (lit 95 100).

Definition score_variant (m : VariantManifold) (v : Variant) : VariantScore :=
  let '(p, e, s) := flow_score (flow m) v (active_intention m) (resonance_for m v) in
  let penalty := pendulum_penalty m (path_hint v) in
  let s := if f_lt f0 penalty then f32_mul s (f32_clamp (f32_sub f1 penalty) f0 f1) else s in
  mkScore (v_id v) (v_title v) p e s (evidence_score v) (v_risk v) (v_expected_gain v).

(** The filtering loop, with its break. *)
Fixpoint select_ranked (limit : option Z) (min_probability : option f32) (items filtered : list VariantScore)
  : list VariantScore :=
  match items with
  | [] => filtered
  | item :: items' =>
      if match min_probability with Some t => f_lt (vs_probability item) t | None => false end
      then select_ranked limit min_probability items' filtered
      else
        let filtered := filtered ++ [item] in
        match limit with
        | Some l => if (l <=? Z.of_nat (length filtered))%Z then filtered
                    else select_ranked limit min_probability items' filtered
        | None => select_ranked limit min_probability items' filtered
        end
  end.

Definition rank_variants (limit : option Z) (min_probability : option f32) (m : VariantManifold)
  : list VariantScore :=
  let items := map (score_variant m) (hm_values o (variants m)) in
  let items := sort_by (fun a b => f_desc (vs_score a) (vs_score b)) items in
  select_ranked limit min_probability items [].

(** ** What a ranking is *)
Definition passes (min_probability : option f32) (s : VariantScore) : bool :=
  match min_probability with Some t => negb (f_lt (vs_probability s) t) | None => true end.

(** The number of results asked for: at least one comes back. *)
Definition result_limit (limit : option Z) (n : nat) : nat :=
  match limit with Some l => Z.to_nat (Z.max l 1) | None => n end.

Lemma select_ranked_spec limit mp items : forall filtered,
  (match limit with Some l => Z.of_nat (length filtered) < Z.max l 1 | None => True end)%Z ->
  select_ranked limit mp items filtered
  = filtered ++ take (result_limit limit (length items) - match limit with Some _ => length filtered | None => 0 end)
                  (List.filter (passes mp) items).
Proof.
  induction items as [|item items IH]; intros filtered Hl; cbn [select_ranked List.filter].
  { by rewrite take_nil, app_nil_r. }
  unfold passes at 1.
  destruct (match mp with Some t => f_lt (vs_probability item) t | None => false end) eqn:E.
  - rewrite IH by done. destruct mp as [t|]; [| done]. rewrite E. cbn [negb].
    destruct limit; [done |]. cbn [result_limit length]. f_equal. rewrite !take_ge; [done | |];
    pose proof (List.filter_length_le (passes (Some t)) items); lia.
  - assert ((match mp with Some t => negb (f_lt (vs_probability item) t) | None => true end) = true) as ->.
    { destruct mp; [by rewrite E | done]. }
    destruct limit as [l|]; cbn [result_limit].
    + destruct (Z.leb_spec l (Z.of_nat (length (filtered ++ [item])))) as [Hle | Hlt];
        rewrite length_app in *; cbn [length] in *.
      * replace (Z.to_nat (Z.max l 1) - length filtered) with 1 by lia. by cbn; rewrite take_0.
      * rewrite IH by (rewrite length_app; cbn; lia). rewrite length_app. cbn [length result_limit].
        replace (Z.to_nat (Z.max l 1) - length filtered)
          with (S (Z.to_nat (Z.max l 1) - (length filtered + 1))) by lia.
        by rewrite <- app_assoc.
    + rewrite IH by done. cbn [length result_limit]. rewrite !Nat.sub_0_r. by rewrite <- app_assoc.
Qed.

(** The ranking. The answer lists scored variants of the manifold, each at most once, by
    decreasing score (while no score is NaN); every one passes the probability threshold, there
    are as many as the limit allows, and no variant left out that passes scores higher than one
    listed. This holds in whatever order the maps are visited. *)
Theorem rank_variants_exact limit mp m :
  let all := map (score_variant m) (hm_values o (variants m)) in
  let res := rank_variants limit mp m in
  Forall (fun s => is_nan (vs_score s) = false) all ->
  exists rest,
    res ++ rest ≡ₚ List.filter (passes mp) all /\
    length res = Nat.min (result_limit limit (length all)) (length (List.filter (passes mp) all)) /\
    StronglySorted (fun a b => f_le (vs_score b) (vs_score a) = true) res /\
    (forall a b, a ∈ res -> b ∈ rest -> f_le (vs_score b) (vs_score a) = true).
Proof.
  intros all res Hnan. set (le := fun a b => f_desc (vs_score a) (vs_score b)).
  set (sorted := sort_by le all). set (ok := List.filter (passes mp) sorted).
  assert (sorted ≡ₚ all) as Hperm by apply sort_by_perm.
  rewrite Forall_forall in Hnan.
  assert (forall a b, a ∈ all -> b ∈ all -> le a b = f_le (vs_score b) (vs_score a)) as Hle.
  { intros a b Ha Hb. apply f_desc_le; by apply Hnan. }
  assert (StronglySorted (fun a b => f_le (vs_score b) (vs_score a) = true) ok) as Hsorted.
  { apply StronglySorted_filter_bool. pose proof (sort_by_sorted le all) as Hs.
    assert (StronglySorted (fun a b => le a b = true) sorted) as Hs'.
    { apply Hs.
      - intros x y z Hx Hy Hz. rewrite !Hle by done. intros Hyx Hzy. by eapply f_le_trans.
      - intros x y Hx Hy. rewrite !Hle by done. apply f_le_total; by apply Hnan. }
    clear Hs. assert (forall x, x ∈ sorted -> x ∈ all) as Hin by (intros x; by rewrite Hperm).
    clearbody sorted. clear -Hs' Hle Hin. induction Hs' as [|x l Hl IH Hx]; [constructor |].
    constructor; [apply IH; intros y Hy; apply Hin; by right |].
    apply Forall_forall. intros y Hy. rewrite Forall_forall in Hx. rewrite <- Hle; [by apply Hx | |];
      apply Hin; [left | by right]. }
  assert (ok ≡ₚ List.filter (passes mp) all) as Hok by (unfold ok; apply Permutation_filter_bool, Hperm).
  assert (length sorted = length all) as Hlen by (by rewrite Hperm).
  set (n := result_limit limit (length sorted)).
  assert (res = take n ok) as ->.
  { unfold res, rank_variants. fold all le sorted. rewrite select_ranked_spec; [| destruct limit; cbn; lia].
    cbn [app]. fold ok. f_equal. unfold n. destruct limit; cbn; lia. }
  exists (drop n ok). split_and!.
  - by rewrite take_drop.
  - rewrite length_take. unfold n. rewrite Hlen, <- Hok. done.
  - by apply StronglySorted_take.
  - intros a b Ha Hb. rewrite <- (take_drop n ok) in Hsorted. exact (StronglySorted_app_1_elem_of _ _ _ _ _ Hsorted Ha Hb).
Qed.
End ranking.

(** An exponential good enough for the witness. *)
#[local] Instance toy_math : FloatMath := {| f32_ln x := x; f32_exp x := f1 |}.
#[local] Existing Instance ascii_case.

Lemma rank_variants_exact_witness :
  let v id gain := mkVariant id id (lit 5 10) f1 1000 f0 gain [] None in
  let m := upsert_variant (v "a" f0) (upsert_variant (v "b" f1) VariantManifold_default) in
  length (rank_variants id_order (Some 1%Z) None m) = 1.
Proof.
  intros v m. destruct (rank_variants_exact id_order (Some 1%Z) None m) as (rest & _ & Hl & _).
  - apply Forall_forall. intros s Hs. vm_compute in Hs.
    repeat (apply elem_of_cons in Hs as [-> | Hs]; [vm_compute; reflexivity |]).
    by apply not_elem_of_nil in Hs.
  - rewrite Hl. vm_compute. reflexivity.
Defined.
