(* ===== verification/Resonant.v ===== *)
(** * The resonant model, the synchrony log and the mirror ([liminal-core/src/resonant.rs], [mirror.rs])

    The log of dreams, collective dreams, builds and awakenings, and the model built from the most
    salient cells. *)

From stdpp Require Import prelude gmap strings fin_maps list sorting.
From Stdlib Require Import ZArith Lia SpecFloat Sorted.
From S2P Require Import Prelude RustStr RustOrd Float NodeCell Symmetry FieldTypes Collections.

(** ** Models *)
Definition record_build (frame : ModelFrame) (m : ResonantModel) : ResonantModel :=
  mkModel (rm_edges m) (rm_influences m) (rm_tensions m) (rm_coherence m) (Some frame) (last_applied m).
Definition last_hash (m : ResonantModel) : option string := mf_hash <$> last_build m.
Definition set_last_applied (hash : option string) (m : ResonantModel) : ResonantModel :=
  mkModel (rm_edges m) (rm_influences m) (rm_tensions m) (rm_coherence m) (last_build m) hash.

Definition take_top {A : Type} (items : list A) (limit : Z) : list A :=
  if (limit =? 0)%Z then [] else take (Z.to_nat limit) items.
Definition top_edges (limit : Z) (m : ResonantModel) : list ResonantEdge := take_top (rm_edges m) limit.
Definition top_influences (limit : Z) (m : ResonantModel) : list Influence := take_top (rm_influences m) limit.
Definition top_tensions (limit : Z) (m : ResonantModel) : list Tension := take_top (rm_tensions m) limit.
Definition model_truncated (limit : Z) (m : ResonantModel) : ResonantModel :=
  mkModel (take_top (rm_edges m) limit) (take_top (rm_influences m) limit) (take_top (rm_tensions m) limit)
    (rm_coherence m) (last_build m) (last_applied m).

(** ** The log *)
Definition SyncLog_new : SyncLog := mkSyncLog [] 48.

Definition sync_push (event : SyncEvent) (l : SyncLog) : SyncLog :=
  let capacity := if (sl_capacity l =? 0)%Z then 48%Z else sl_capacity l in
  mkSyncLog (last_n (Z.to_nat capacity) (sl_entries l ++ [event])) capacity.

Definition record_dream (at_ms : Z) (r : DreamReport) : SyncLog -> SyncLog :=
  sync_push (SyDream at_ms (dr_strengthened r) (dr_weakened r) (dr_protected r)).
Definition record_collective (at_ms : Z) (r : SyncReport) : SyncLog -> SyncLog :=
  sync_push (SyCollective at_ms (sr_shared r) (sr_aligned r) (sr_protected r)).
Definition sl_record_build (hash : string) (at_ms cell_count : Z) : SyncLog -> SyncLog :=
  sync_push (SyBuild at_ms hash cell_count).
Definition record_apply (hash : option string) (at_ms cell_count : Z) : SyncLog -> SyncLog :=
  sync_push (SyApply at_ms hash cell_count).
Definition record_tick (at_ms : Z) : SyncLog -> SyncLog := sync_push (SyTick at_ms).

(** [iter().map(...).sum::<u32>()] wraps in a release build. *)
Definition sum_u32 (l : list Z) : Z := fold_left u32_add l 0%Z.

Definition total_protected (l : SyncLog) : Z :=
  sum_u32 (map (fun e => match e with SyDream _ _ _ p => p | SyCollective _ _ _ p => p | _ => 0%Z end) (sl_entries l)).
Definition total_aligned (l : SyncLog) : Z :=
  sum_u32 (map (fun e => match e with SyCollective _ _ a _ => a | _ => 0%Z end) (sl_entries l)).
Definition total_shared (l : SyncLog) : Z :=
  sum_u32 (map (fun e => match e with SyCollective _ s _ _ => s | _ => 0%Z end) (sl_entries l)).

Definition coherence_bias (l : SyncLog) : f32 :=
  let best :=
    fold_left (fun best e =>
      match e with
      | SyDream _ _ _ _ => f32_max best (lit 55 100)
      | SyCollective _ shared aligned _ =>
          let total := u32_add aligned shared in
          if (0 <? total)%Z then
            let ratio := f32_div (f32_add (f32_of_Z aligned) (f32_mul (lit 5 10) (f32_of_Z shared))) (f32_of_Z total) in
            f32_max best ratio
          else best
      | _ => best
      end) (sl_entries l) (lit 5 10) in
  f32_clamp best f0 f1.

Definition protection_pressure (l : SyncLog) : f32 :=
  let protected := f32_of_Z (total_protected l) in
  f32_clamp (f32_div protected (f32_add protected (lit 8 1))) f0 f1.

Definition sync_truncated (limit : nat) (l : SyncLog) : SyncLog := mkSyncLog (last_n limit (sl_entries l)) (sl_capacity l).

(** ** Building a model *)
Definition dream_balance (history : list DreamReport) : f32 :=
  let strengthened := sum_u32 (map dr_strengthened history) in
  let weakened := sum_u32 (map dr_weakened history) in
  let total := f32_of_Z (u32_add strengthened weakened) in
  if f_le total f32_epsilon then lit 5 10
  else f32_clamp (f32_div (f32_of_Z strengthened) total) f0 f1.

(** [b.salience.partial_cmp(&a.salience).unwrap_or(Equal).then_with(|| a.id.cmp(&b.id))] *)
Definition salience_order (a b : NodeCell) : bool :=
  if f_lt (c_salience b) (c_salience a) then true
  else if f_lt (c_salience a) (c_salience b) then false
  else (c_id a <=? c_id b)%Z.

Record Build : Type := mkBuild {
  b_edges : list ResonantEdge;
  b_influences : list Influence;
  b_tension_map : gmap Z (f32 * f32);
  b_total_coherence : f32
}.

Definition raise_tension (node : Z) (t protection : f32) (m : gmap Z (f32 * f32)) : gmap Z (f32 * f32) :=
  let entry := default (f0, protection) (m !! node) in
  <[node := (f32_max (fst entry) t, protection)]> m.

Definition tension_of (c : NodeCell) (protection : f32) : f32 :=
  f32_mul (f32_add (f32_max (f32_sub f1 (c_energy c)) f0) (f32_mul (c_salience c) (lit 5 10)))
    (f32_sub f1 protection).

Definition build_pair (balance bias protection : f32) (b : Build) (pair : NodeCell * NodeCell) : Build :=
  let '(lhs, rhs) := pair in
  let half := lit 5 10 in
  let small := lit 5 100 in
  let salience_avg := f32_mul (f32_add (c_salience lhs) (c_salience rhs)) half in
  let energy_avg := f32_mul (f32_add (c_energy lhs) (c_energy rhs)) half in
  let base_weight := f32_clamp (f32_add salience_avg (lit 1 10)) f0 (lit 125 100) in
  let base_coherence := f32_clamp (f32_add energy_avg small) f0 (lit 125 100) in
  let weight := f32_clamp (f32_mul base_weight (f32_add half (f32_mul half balance))) f0 (lit 25 10) in
  let coherence :=
    f32_clamp (f32_mul base_coherence (f32_add (lit 4 10) (f32_mul (lit 6 10) bias))) f0 (lit 25 10) in
  let ratio x y := f32_clamp (f32_div (f32_add x small) (f32_add y small)) (lit 2 10) (lit 4 1) in
  let coh e := f32_clamp (f32_add (f32_mul coherence (lit 8 10)) e) f0 (lit 3 1) in
  mkBuild
    (b_edges b ++ [mkEdge (c_id lhs) (c_id rhs) weight coherence])
    (b_influences b
     ++ [mkInfluence (c_id lhs) (c_id rhs) (ratio (c_salience lhs) (c_salience rhs)) (coh energy_avg);
         mkInfluence (c_id rhs) (c_id lhs) (ratio (c_salience rhs) (c_salience lhs)) (coh (f32_mul energy_avg half))])
    (raise_tension (c_id rhs) (tension_of rhs protection) protection
       (raise_tension (c_id lhs) (tension_of lhs protection) protection (b_tension_map b)))
    (f32_add (b_total_coherence b) coherence).

(** The pairs [(ranked[i], ranked[j])], [i < j], in the order of the two loops. *)
Fixpoint all_pairs {A : Type} (l : list A) : list (A * A) :=
  match l with
  | [] => []
  | x :: l' => map (pair x) l' ++ all_pairs l'
  end.

Definition build_model (o : HashOrder) (cells : gmap Z NodeCell) (log : SyncLog) (history : list DreamReport)
  : ResonantModel :=
  if (size cells <? 2)%nat then ResonantModel_default
  else
    let ranked := take 6 (sort_by salience_order (hm_values o cells)) in
    if (length ranked <? 2)%nat then ResonantModel_default
    else
      let b := fold_left (build_pair (dream_balance history) (coherence_bias log) (protection_pressure log))
                 (all_pairs ranked) (mkBuild [] [] ∅ f0) in
      let tensions :=
        map (fun e => mkTension e.1 (f32_clamp e.2.1 f0 (lit 2 1)) (f32_clamp e.2.2 f0 f1))
          (hm_iter o (b_tension_map b)) in
      let tensions := sort_by (fun a b => f_desc (magnitude a) (magnitude b)) tensions in
      let coherence :=
        if decide (b_edges b = []) then f0
        else f32_div (b_total_coherence b) (f32_of_Z (Z.of_nat (length (b_edges b)))) in
      mkModel (b_edges b) (b_influences b) tensions coherence None None.

(** * Mirror epochs ([liminal-core/src/mirror.rs])

    The impact of an epoch and the ranking of the epochs by it. The atomic counter of identifiers
    is an argument of [record_epoch]. *)

Definition record_epoch (id : Z) (kind : EpochKind) (times : Z * Z) (cfg_hash report_hash : Z)
    (before after : HarmonyMetrics) (tension_before tension_after latency_before latency_after : f32)
  : Epoch :=
  let tension_gain := f32_sub tension_before tension_after in
  let latency_gain := f32_sub latency_before latency_after in
  let stability_before := f32_sub (avg_strength before) (hm_avg_latency before) in
  let stability_after := f32_sub (avg_strength after) (hm_avg_latency after) in
  let stability_gain := f32_sub stability_after stability_before in
  let entropy_drift := f32_sub (entropy after) (entropy before) in
  let impact :=
    f32_add (f32_add (f32_mul (lit 5 10) tension_gain) (f32_mul (lit 3 10) latency_gain))
      (f32_mul (lit 2 10) stability_gain) in
  let impact := if f_lt f0 entropy_drift then f32_sub impact (f32_mul entropy_drift (lit 15 100)) else impact in
  mkEpoch id kind times.1 times.2 cfg_hash report_hash before after tension_before tension_after
    latency_before latency_after (f32_clamp impact (lit (-5) 1) (lit 5 1)).

(** [rebuild_timeline] on the field's epochs and clock. *)
Definition rebuild_timeline (epochs : list Epoch) (now_ms : Z) : MirrorTimeline :=
  let le a b :=
    match (ep_start_ms a ?= ep_start_ms b)%Z with
    | Lt => true
    | Gt => false
    | Eq => (ep_id a <=? ep_id b)%Z
    end in
  mkTimeline (sort_by le epochs) now_ms.

(** By decreasing impact, then start, then identifier. *)
Definition impact_order (a b : Epoch) : bool :=
  if f_lt (impact b) (impact a) then true
  else if f_lt (impact a) (impact b) then false
  else match (ep_start_ms a ?= ep_start_ms b)%Z with
       | Lt => true
       | Gt => false
       | Eq => (ep_id a <=? ep_id b)%Z
       end.

Definition top_influencers (timeline : MirrorTimeline) (k : Z) : list Epoch :=
  if (k =? 0)%Z then [] else take (Z.to_nat k) (sort_by impact_order (mt_epochs timeline)).
