(* ===== verification/Journal.v ===== *)
(** * The journal of the field ([liminal-core/src/journal.rs])

    One [EventDelta] per change of the field; [CellSnapshot] is the whole state of a cell. The
    journal an implementation of the trait [Journal] keeps is the list of the deltas it was given. *)

From stdpp Require Import prelude gmap strings fin_maps list.
From Stdlib Require Import ZArith.
From S2P Require Import Prelude Float NodeCell Trs Symmetry FieldTypes.

Record CellSnapshot : Type := mkCellSnapshot {
  cn_id : Z;
  cn_seed_affinity : f32;
  cn_seed_metabolism : f32;
  cn_core_pattern : string;
  cn_state : NodeState;
  cn_links : gset Z;
  cn_metabolism : f32;
  cn_affinity : f32;
  cn_last_response_ms : Z;
  cn_energy : f32;
  cn_salience : f32;
  cn_adreno_tag : bool;
  cn_last_recall_ms : Z
}.

(** [CellSnapshot::from]. *)
Definition snapshot_of_cell (c : NodeCell) : CellSnapshot :=
  mkCellSnapshot (c_id c) (sp_affinity (c_seed c)) (base_metabolism (c_seed c)) (core_pattern (c_seed c))
    (c_state c) (c_links c) (c_metabolism c) (c_affinity c) (c_last_response_ms c) (c_energy c)
    (c_salience c) (c_adreno_tag c) (c_last_recall_ms c).

(** [snapshot_to_node] of [cluster_field.rs]. *)
Definition snapshot_to_node (s : CellSnapshot) : NodeCell :=
  mkCell (cn_id s) (mkSeedParams (cn_seed_affinity s) (cn_seed_metabolism s) (cn_core_pattern s))
    (cn_state s) (cn_links s) (cn_metabolism s) (cn_affinity s) (cn_last_response_ms s) (cn_energy s)
    (cn_salience s) (cn_adreno_tag s) (cn_last_recall_ms s).

Record EnergyDelta : Type := mkEnergyDelta {
  ed_id : Z;
  ed_energy : f32;
  ed_metabolism : f32;
  ed_state : NodeState;
  ed_last_response_ms : Z
}.

Record DreamEdgeDelta : Type := mkDreamEdge {
  de_from : Z;
  de_to : Z;
  de_score : f32;
  de_freq : f32;
  de_avg_strength : f32
}.

Record TrsTraceDelta : Type := mkTrsTrace {
  tt_now_ms : Z;
  tt_observed_load : f32;
  tt_error : f32;
  tt_tick_adjust_ms : Z;
  tt_alpha : f32
}.

Record TrsHarmonyDelta : Type := mkTrsHarmony {
  th_alpha : f32;
  th_affinity_scale : f32;
  th_metabolism_scale : f32;
  th_sleep_delta : f32
}.

Inductive EventDelta : Type :=
| DTick (now_ms : Z)
| DSpawn (cell : CellSnapshot)
| DDivide (parent : Z) (child : CellSnapshot)
| DSleep (id : Z)
| DDead (id : Z)
| DLink (from to : Z)
| DUnlink (from to : Z)
| DAffinity (id : Z) (affinity : f32)
| DEnergy (d : EnergyDelta)
| DReflexAdd (rule : ReflexRule)
| DReflexRemove (id : Z)
| DReflexFire (fire : ReflexFire)
| DTrsSet (cfg : TrsConfig)
| DTrsTarget (target_load : f32)
| DTrsTrace (t : TrsTraceDelta)
| DTrsHarmony (h : TrsHarmonyDelta)
| DDreamConfig (cfg : DreamConfig)
| DSyncConfig (cfg : SyncConfig)
| DDreamStrengthen (e : DreamEdgeDelta)
| DDreamWeaken (e : DreamEdgeDelta)
| DDreamPrune (from to : Z)
| DDreamRewire (from to : Z)
| DDreamReport (now_ms : Z) (report : DreamReport)
| DSyncShare (node : Z) (token : string) (bias : f32)
| DSyncAlign (from to : Z) (score : f32)
| DCollectiveDreamReport (now_ms : Z) (report : SyncReport)
| DModelBuild (hash : string) (cell_count now_ms : Z)
| DAwakenApply (hash : option string) (config : AwakeningConfig) (now_ms cell_count : Z)
| DAwakenTick (hash : option string) (now_ms : Z)
| DMirrorEpoch (epoch : Epoch)
| DMirrorReplay (report : ReplayReport).

(** The delta that records what an impulse, a tick or an awakening may change of a cell. *)
Definition energy_of (id : Z) (c : NodeCell) : EventDelta :=
  DEnergy (mkEnergyDelta id (c_energy c) (c_metabolism c) (c_state c) (c_last_response_ms c)).

Lemma snapshot_roundtrip c : snapshot_to_node (snapshot_of_cell c) = c.
Proof. by destruct c as [? [] ? ? ? ? ? ? ? ? ?]. Qed.
