(* ===== verification/Field.v ===== *)
(** * The cluster field: state ([liminal-core/src/cluster_field.rs])

    The fields of [ClusterField] in five groups: the graph of cells, the traffic of impulses, what
    controls the tempo, the cycles (dreams, synchrony, awakening, mirror) and the rest. [emit]
    appends to the journal when there is one. The tracking of links, routes and hits, and the index
    of tokens, are in [FieldOps]; impulses in [FieldRoute], ticks and the replay of a journal in [FieldTick]. *)

From stdpp Require Import prelude gmap strings fin_maps list sorting.
From Stdlib Require Import ZArith Lia SpecFloat.
From S2P Require Import Prelude RustStr RustOrd Float RustText Json NodeCell Trs Seeds Symmetry FieldTypes Feedback Variant Resonant Journal Collections.
From S2P Require Views.

(** ** Constants *)
Definition MAX_TOKEN_HITS : nat := 512.
Definition HIT_RETENTION_MS : Z := 120000.
Definition DEFAULT_WINDOW_MS : Z := 1000.
Definition DEFAULT_VIEW_EVERY_MS : Z := 1000.
Definition MAX_RECENT_ROUTES : nat := 96.
Definition ROUTE_RETENTION_MS : Z := 90000.
Definition MIRROR_EPOCH_LIMIT : nat := 256.
Definition MIRROR_REPLAY_LIMIT : nat := 128.
Definition DEFAULT_INTROSPECT_TOP_N : Z := 10.

Record RecentRoute : Type := mkRoute {
  ro_ts : Z;
  ro_node : Z;
  ro_strength : f32
}.

Record HarmonyTuning : Type := mkTuning {
  ht_alpha : f32;
  ht_affinity_scale : f32;
  ht_metabolism_scale : f32;
  ht_sleep_delta : f32
}.
Definition HarmonyTuning_default : HarmonyTuning := mkTuning (lit 2 10) f1 f1 f0.

Record NoradrenalineEffect : Type := mkNoradrenaline {
  na_until_ms : Z;
  na_strength : f32
}.

(** [LinkStat] and [RouteStat]. *)
Record Stat : Type := mkStat {
  st_hits : Z;
  st_last_used_ms : Z
}.

(** ** The state *)
Record Graph : Type := mkGraph {
  cells : gmap Z NodeCell;
  index : gmap string (list Z);
  next_id : Z;
  link_usage : gmap (Z * Z) Stat;
  link_scores : gmap (Z * Z) f32;
  route_usage : gmap (Z * Z) Stat
}.

Record Traffic : Type := mkTraffic {
  counters : gmap (string * ImpulseKind) (list (Z * f32));
  token_hits : gmap string (list Hit);
  next_hit_seq : Z;
  recent_routes : gmap string (list RecentRoute);
  route_bias : gmap (string * Z) f32;
  ticks_since_impulse : Z
}.

Record Control : Type := mkControl {
  rules : gmap Z ReflexRule;
  next_reflex_id : Z;
  trs : TrsState;
  harmony : HarmonyTuning;
  reflex_engine : ReflexEngine;
  reflex_feedback : ReflexState;
  reflex_reports : list ReflexReport;
  important_cells : gset Z;
  noradrenaline : option NoradrenalineEffect
}.

Record Cycles : Type := mkCycles {
  last_dream_ms : Z;
  dream_cfg : DreamConfig;
  dream_reports : list (Z * DreamReport);
  sync_cfg : SyncConfig;
  sync_reports : list (Z * SyncReport);
  cached_resonant_model : option ResonantModel;
  resonant_model : ResonantModel;
  awakening_cfg : AwakeningConfig;
  sync_log : SyncLog;
  last_awaken_tick : Z;
  mirror_epochs : list Epoch;
  mirror_replays : list ReplayReport
}.

Record ClusterField : Type := mkField {
  now_ms : Z;
  journal : option (list EventDelta);
  graph : Graph;
  traffic : Traffic;
  control : Control;
  cycles : Cycles;
  views : Views.ViewRegistry;
  view_tick_accum : Z;
  seed_garden : SeedGarden;
  variant_layer : VariantManifold
}.

(** [ReflexCfg::default]. *)
Definition ReflexCfg_default : Lql.ReflexCfg :=
  Lql.mkReflexCfg 60000 (lit 5 100) (lit 1 10) (lit 2 100) 15000 (lit 2 100).

Definition ClusterField_new : ClusterField :=
  mkField 0 None
    (mkGraph ∅ ∅ 1 ∅ ∅ ∅)
    (mkTraffic ∅ ∅ 1 ∅ ∅ 0)
    (mkControl ∅ 1 TrsState_default HarmonyTuning_default (ReflexEngine_new 2000)
       (ReflexState_new ReflexCfg_default) [] ∅ None)
    (mkCycles 0 DreamConfig_default [] SyncConfig_default [] None ResonantModel_default
       AwakeningConfig_default SyncLog_new 0 [] [])
    Views.ViewRegistry_new 0 SeedGarden_default VariantManifold_default.

(** What the field returns to its caller: a line of text, or the text of a JSON value. *)
Inductive FieldEvent : Type :=
| EText (line : string)
| EJson (value : json).
Definition event (ev : string) (meta : list (string * json)) : FieldEvent :=
  EJson (json_obj [("ev", JStr ev); ("meta", json_obj meta)]).

(** ** Assignments *)
Definition set_now_ms (v : Z) (f : ClusterField) : ClusterField :=
  mkField v (journal f) (graph f) (traffic f) (control f) (cycles f) (views f) (view_tick_accum f)
    (seed_garden f) (variant_layer f).
Definition set_journal (v : option (list EventDelta)) (f : ClusterField) : ClusterField :=
  mkField (now_ms f) v (graph f) (traffic f) (control f) (cycles f) (views f) (view_tick_accum f)
    (seed_garden f) (variant_layer f).
Definition on_graph (u : Graph -> Graph) (f : ClusterField) : ClusterField :=
  mkField (now_ms f) (journal f) (u (graph f)) (traffic f) (control f) (cycles f) (views f) (view_tick_accum f)
    (seed_garden f) (variant_layer f).
Definition on_traffic (u : Traffic -> Traffic) (f : ClusterField) : ClusterField :=
  mkField (now_ms f) (journal f) (graph f) (u (traffic f)) (control f) (cycles f) (views f) (view_tick_accum f)
    (seed_garden f) (variant_layer f).
Definition on_control (u : Control -> Control) (f : ClusterField) : ClusterField :=
  mkField (now_ms f) (journal f) (graph f) (traffic f) (u (control f)) (cycles f) (views f) (view_tick_accum f)
    (seed_garden f) (variant_layer f).
Definition on_cycles (u : Cycles -> Cycles) (f : ClusterField) : ClusterField :=
  mkField (now_ms f) (journal f) (graph f) (traffic f) (control f) (u (cycles f)) (views f) (view_tick_accum f)
    (seed_garden f) (variant_layer f).
Definition set_views (v : Views.ViewRegistry) (f : ClusterField) : ClusterField :=
  mkField (now_ms f) (journal f) (graph f) (traffic f) (control f) (cycles f) v (view_tick_accum f)
    (seed_garden f) (variant_layer f).
Definition set_view_tick_accum (v : Z) (f : ClusterField) : ClusterField :=
  mkField (now_ms f) (journal f) (graph f) (traffic f) (control f) (cycles f) (views f) v
    (seed_garden f) (variant_layer f).
Definition set_seed_garden (v : SeedGarden) (f : ClusterField) : ClusterField :=
  mkField (now_ms f) (journal f) (graph f) (traffic f) (control f) (cycles f) (views f) (view_tick_accum f)
    v (variant_layer f).
Definition set_variant_layer (v : VariantManifold) (f : ClusterField) : ClusterField :=
  mkField (now_ms f) (journal f) (graph f) (traffic f) (control f) (cycles f) (views f) (view_tick_accum f)
    (seed_garden f) v.

Definition set_cells (v : gmap Z NodeCell) : ClusterField -> ClusterField :=
  on_graph (fun g => mkGraph v (index g) (next_id g) (link_usage g) (link_scores g) (route_usage g)).
Definition set_index (v : gmap string (list Z)) : ClusterField -> ClusterField :=
  on_graph (fun g => mkGraph (cells g) v (next_id g) (link_usage g) (link_scores g) (route_usage g)).
Definition set_next_id (v : Z) : ClusterField -> ClusterField :=
  on_graph (fun g => mkGraph (cells g) (index g) v (link_usage g) (link_scores g) (route_usage g)).
Definition set_link_usage (v : gmap (Z * Z) Stat) : ClusterField -> ClusterField :=
  on_graph (fun g => mkGraph (cells g) (index g) (next_id g) v (link_scores g) (route_usage g)).
Definition set_link_scores (v : gmap (Z * Z) f32) : ClusterField -> ClusterField :=
  on_graph (fun g => mkGraph (cells g) (index g) (next_id g) (link_usage g) v (route_usage g)).
Definition set_route_usage (v : gmap (Z * Z) Stat) : ClusterField -> ClusterField :=
  on_graph (fun g => mkGraph (cells g) (index g) (next_id g) (link_usage g) (link_scores g) v).

Definition set_counters (v : gmap (string * ImpulseKind) (list (Z * f32))) : ClusterField -> ClusterField :=
  on_traffic (fun t => mkTraffic v (token_hits t) (next_hit_seq t) (recent_routes t) (route_bias t) (ticks_since_impulse t)).
Definition set_token_hits (v : gmap string (list Hit)) (seq : Z) : ClusterField -> ClusterField :=
  on_traffic (fun t => mkTraffic (counters t) v seq (recent_routes t) (route_bias t) (ticks_since_impulse t)).
Definition set_recent_routes (v : gmap string (list RecentRoute)) : ClusterField -> ClusterField :=
  on_traffic (fun t => mkTraffic (counters t) (token_hits t) (next_hit_seq t) v (route_bias t) (ticks_since_impulse t)).
Definition set_route_bias (v : gmap (string * Z) f32) : ClusterField -> ClusterField :=
  on_traffic (fun t => mkTraffic (counters t) (token_hits t) (next_hit_seq t) (recent_routes t) v (ticks_since_impulse t)).
Definition set_ticks_since_impulse (v : Z) : ClusterField -> ClusterField :=
  on_traffic (fun t => mkTraffic (counters t) (token_hits t) (next_hit_seq t) (recent_routes t) (route_bias t) v).

Definition set_rules (v : gmap Z ReflexRule) (next : Z) : ClusterField -> ClusterField :=
  on_control (fun c => mkControl v next (trs c) (harmony c) (reflex_engine c) (reflex_feedback c)
    (reflex_reports c) (important_cells c) (noradrenaline c)).
Definition set_trs (v : TrsState) : ClusterField -> ClusterField :=
  on_control (fun c => mkControl (rules c) (next_reflex_id c) v (harmony c) (reflex_engine c) (reflex_feedback c)
    (reflex_reports c) (important_cells c) (noradrenaline c)).
Definition set_harmony (v : HarmonyTuning) : ClusterField -> ClusterField :=
  on_control (fun c => mkControl (rules c) (next_reflex_id c) (trs c) v (reflex_engine c) (reflex_feedback c)
    (reflex_reports c) (important_cells c) (noradrenaline c)).
Definition set_reflex_engine (v : ReflexEngine) : ClusterField -> ClusterField :=
  on_control (fun c => mkControl (rules c) (next_reflex_id c) (trs c) (harmony c) v (reflex_feedback c)
    (reflex_reports c) (important_cells c) (noradrenaline c)).
Definition set_reflex_feedback (v : ReflexState) : ClusterField -> ClusterField :=
  on_control (fun c => mkControl (rules c) (next_reflex_id c) (trs c) (harmony c) (reflex_engine c) v
    (reflex_reports c) (important_cells c) (noradrenaline c)).
Definition set_reflex_reports (v : list ReflexReport) : ClusterField -> ClusterField :=
  on_control (fun c => mkControl (rules c) (next_reflex_id c) (trs c) (harmony c) (reflex_engine c) (reflex_feedback c)
    v (important_cells c) (noradrenaline c)).
Definition set_important_cells (v : gset Z) : ClusterField -> ClusterField :=
  on_control (fun c => mkControl (rules c) (next_reflex_id c) (trs c) (harmony c) (reflex_engine c) (reflex_feedback c)
    (reflex_reports c) v (noradrenaline c)).
Definition set_noradrenaline (v : option NoradrenalineEffect) : ClusterField -> ClusterField :=
  on_control (fun c => mkControl (rules c) (next_reflex_id c) (trs c) (harmony c) (reflex_engine c) (reflex_feedback c)
    (reflex_reports c) (important_cells c) v).

(** ** The journal *)
Definition emit (delta : EventDelta) (f : ClusterField) : ClusterField :=
  match journal f with
  | Some log => set_journal (Some (log ++ [delta])) f
  | None => f
  end.
(** [for event in events { self.emit(event) }] *)
Definition emit_all (deltas : list EventDelta) (f : ClusterField) : ClusterField :=
  fold_left (fun f d => emit d f) deltas f.
