(* ===== verification/FieldOps.v ===== *)
(** * The cluster field: tracking and roots ([liminal-core/src/cluster_field.rs])

    The index of tokens, the statistics of links and routes, the recent hits of a token and the
    spawning of roots and reflex rules. Draws of [rand] and the visits of a hash map ([HashOrder])
    are arguments. *)

From stdpp Require Import prelude gmap strings fin_maps fin_sets list sorting.
From Stdlib Require Import ZArith Lia SpecFloat.
From S2P Require Import Prelude RustStr RustOrd Float RustText Json NodeCell Trs Seeds Symmetry FieldTypes Feedback Variant Resonant Journal Collections Field.
From S2P Require Views.

(** [HashMap::get_mut] followed by an update of the cell. *)
Definition update_cell (id : Z) (u : NodeCell -> NodeCell) (f : ClusterField) : ClusterField :=
  match cells (graph f) !! id with
  | Some c => set_cells (<[id := u c]> (cells (graph f))) f
  | None => f
  end.

Definition cell (id : Z) (f : ClusterField) : option NodeCell := cells (graph f) !! id.

(** ** Links and routes *)
Definition register_link (from to : Z) (f : ClusterField) : ClusterField :=
  let f :=
    match link_usage (graph f) !! (from, to) with
    | Some _ => f
    | None => set_link_usage (<[(from, to) := mkStat 0 (now_ms f)]> (link_usage (graph f))) f
    end in
  match link_scores (graph f) !! (from, to) with
  | Some _ => f
  | None => set_link_scores (<[(from, to) := f1]> (link_scores (graph f))) f
  end.

Definition unregister_link (from to : Z) (f : ClusterField) : ClusterField :=
  let f := set_link_usage (delete (from, to) (link_usage (graph f))) f in
  set_link_scores (delete (from, to) (link_scores (graph f))) f.

Definition bump_stat (now : Z) (s : option Stat) : Stat :=
  mkStat (u64_saturating_add (st_hits (default (mkStat 0 0) s)) 1) now.

Definition record_link_hit (from to : Z) (f : ClusterField) : ClusterField :=
  set_link_usage (<[(from, to) := bump_stat (now_ms f) (link_usage (graph f) !! (from, to))]> (link_usage (graph f))) f.

(** [min_by]: the first of the least elements. *)
Definition min_by {A : Type} (gt : A -> A -> bool) (l : list A) : option A :=
  match l with
  | [] => None
  | x :: l' => Some (fold_left (fun best y => if gt best y then y else best) l' x)
  end.

Definition stat_gt (a b : (Z * Z) * Stat) : bool :=
  match (st_hits a.2 ?= st_hits b.2)%Z with
  | Lt => false
  | Gt => true
  | Eq => (st_last_used_ms b.2 <? st_last_used_ms a.2)%Z
  end.

Definition adjust_link_score (from to : Z) (delta : f32) (f : ClusterField) : ClusterField * bool :=
  match cells (graph f) !! from with
  | None => (f, false)
  | Some cell =>
      if decide (to ∉ c_links cell) then (f, false)
      else
        let entry := default f1 (link_scores (graph f) !! (from, to)) in
        let updated := f32_clamp (f32_add entry delta) (lit 2 10) (lit 3 1) in
        let changed := f_lt f32_epsilon (f32_abs (f32_sub updated entry)) in
        (set_link_scores (<[(from, to) := updated]> (link_scores (graph f))) f, changed)
  end.

Definition link_score (from to : Z) (f : ClusterField) : f32 :=
  default f1 (link_scores (graph f) !! (from, to)).

Definition prune_link (from to : Z) (f : ClusterField) : ClusterField * bool :=
  match cells (graph f) !! from with
  | None => (f, false)
  | Some cell =>
      if decide (to ∈ c_links cell) then
        let f := set_cells (<[from := set_links (c_links cell ∖ {[to]}) cell]> (cells (graph f))) f in
        let f := unregister_link from to f in
        (emit (DUnlink from to) f, true)
      else (f, false)
  end.

Definition purge_tracking_for (id : Z) (f : ClusterField) : ClusterField :=
  let keep {V : Type} (m : gmap (Z * Z) V) := filter (fun e => e.1.1 <> id /\ e.1.2 <> id) m in
  let f := set_link_usage (keep (link_usage (graph f))) f in
  let f := set_route_usage (keep (route_usage (graph f))) f in
  set_link_scores (keep (link_scores (graph f))) f.

Section ops.
Context `{UnicodeCase, SeedRng}.
Variable o : HashOrder.

Definition record_route_pair (from to : Z) (f : ClusterField) : ClusterField :=
  let usage := <[(from, to) := bump_stat (now_ms f) (route_usage (graph f) !! (from, to))]> (route_usage (graph f)) in
  let usage :=
    if (2048 <? size usage)%nat then
      match min_by stat_gt (hm_iter o usage) with
      | Some candidate => delete candidate.1 usage
      | None => usage
      end
    else usage in
  set_route_usage usage f.

Definition record_route_step (f : ClusterField) (pair : Z * Z) : ClusterField :=
  let '(from, to) := pair in
  let f :=
    match cells (graph f) !! from with
    | Some cell => if decide (to ∈ c_links cell) then record_link_hit from to f else f
    | None => f
    end in
  record_route_pair from to f.
Definition record_route_sequence (sequence : list Z) (f : ClusterField) : ClusterField :=
  fold_left record_route_step (windows2 sequence) f.

(** ** The index *)
Definition push_index (m : gmap string (list Z)) (token : string) (id : Z) : gmap string (list Z) :=
  <[token := default [] (m !! token) ++ [id]]> m.

Definition update_index_for (id : Z) (f : ClusterField) : ClusterField :=
  match cells (graph f) !! id with
  | None => f
  | Some cell =>
      let idx := List.filter (fun existing => negb (existing =? id)%Z) <$> index (graph f) in
      let idx := fold_left (fun m token => push_index m token id) (tokenize (core_pattern (c_seed cell))) idx in
      set_index idx f
  end.

Definition ensure_link_tracking (id : Z) (f : ClusterField) : ClusterField :=
  match cells (graph f) !! id with
  | None => f
  | Some cell => fold_left (fun f to => register_link id to f) (hs_iter o (c_links cell)) f
  end.

Definition attach_cell (c : NodeCell) (f : ClusterField) : ClusterField :=
  let f := set_cells (<[c_id c := c]> (cells (graph f))) f in
  let f := update_index_for (c_id c) f in
  ensure_link_tracking (c_id c) f.

Definition rebuild_index (f : ClusterField) : ClusterField :=
  fold_left (fun f id => ensure_link_tracking id (update_index_for id f))
    (hm_keys o (cells (graph f))) (set_index ∅ f).
Definition rebuild_caches : ClusterField -> ClusterField := rebuild_index.

Definition rewire_lonely (id : Z) (f : ClusterField) : ClusterField * option Z :=
  match cells (graph f) !! id with
  | None => (f, None)
  | Some cell =>
      if decide (c_links cell <> ∅) then (f, Some 0%Z)
      else
        let best :=
          fold_left (fun best e =>
            if decide (e.1 = id \/ e.1 ∈ c_links cell) then best
            else
              let distance := f32_abs (f32_sub (c_affinity e.2) (c_affinity cell)) in
              match best with
              | Some (_, current) => if f_lt distance current then Some (e.1, distance) else best
              | None => Some (e.1, distance)
              end) (hm_iter o (cells (graph f))) None in
        match best with
        | None => (f, Some 0%Z)
        | Some (target, _) =>
            let f := set_cells (<[id := set_links (c_links cell ∪ {[target]}) cell]> (cells (graph f))) f in
            let f := register_link id target f in
            let f := emit (DLink id target) f in
            (emit (DDreamRewire id target) f, Some 1%Z)
        end
  end.

(** ** Hits *)
Definition record_token_hit (token : string) (node : Z) (strength : f32) (latency_ms : Z) (f : ClusterField)
  : ClusterField :=
  let normalized := to_lowercase token in
  let seq := next_hit_seq (traffic f) in
  let entry := default [] (token_hits (traffic f) !! normalized)
               ++ [mkHit seq (now_ms f) node strength latency_ms] in
  let entry := pop_while (fun front => HIT_RETENTION_MS <? u64_saturating_sub (now_ms f) (h_ts front))%Z entry in
  let entry := last_n MAX_TOKEN_HITS entry in
  set_token_hits (<[normalized := entry]> (token_hits (traffic f))) (u64_saturating_add seq 1) f.

(** [take_while] on the reversed queue, reversed back. *)
Fixpoint take_while {A : Type} (p : A -> bool) (l : list A) : list A :=
  match l with
  | [] => []
  | x :: l' => if p x then x :: take_while p l' else []
  end.

Definition recent_for (token : string) (window_ms : Z) (f : ClusterField) : list Hit :=
  match token_hits (traffic f) !! to_lowercase token with
  | None => []
  | Some queue =>
      let cutoff := u64_saturating_sub (now_ms f) window_ms in
      reverse (take_while (fun hit => cutoff <=? h_ts hit)%Z (reverse queue))
  end.

Definition symmetry_samples (window_ms : Z) (f : ClusterField) : list (string * Hit) :=
  let cutoff := u64_saturating_sub (now_ms f) window_ms in
  concat (map (fun e => map (pair e.1) (take_while (fun hit => cutoff <=? h_ts hit)%Z (reverse e.2)))
            (hm_iter o (token_hits (traffic f)))).

(** ** The tempo of a cell *)
Definition noradrenaline_active (f : ClusterField) : option NoradrenalineEffect :=
  match noradrenaline (control f) with
  | Some effect => if (now_ms f <? na_until_ms effect)%Z then Some effect else None
  | None => None
  end.

Definition affinity_scale_for (c : NodeCell) (f : ClusterField) : f32 :=
  let scale := ht_affinity_scale (harmony (control f)) in
  if c_adreno_tag c then
    match noradrenaline_active f with
    | Some effect => f32_mul scale (f32_add f1 (f32_mul (lit 25 100) (na_strength effect)))
    | None => scale
    end
  else scale.

Definition is_important (now : Z) (c : NodeCell) : bool :=
  f_le (lit 7 10) (c_salience c) && (u64_saturating_sub now (c_last_recall_ms c) <=? 10000)%Z.
Definition refresh_important_cells (f : ClusterField) : ClusterField :=
  set_important_cells (dom (filter (fun e => is_important (now_ms f) e.2 = true) (cells (graph f)))) f.

(** ** Roots and rules *)
Definition spawn_cell (c : NodeCell) (f : ClusterField) : ClusterField := emit (DSpawn (snapshot_of_cell c)) (attach_cell c f).

Definition add_root (seed : string) (f : ClusterField) : ClusterField * Z :=
  let params := create_seed seed in
  let id := next_id (graph f) in
  let f := set_next_id (u64_add id 1) f in
  let f := attach_cell (from_seed id params) f in
  (match cells (graph f) !! id with
   | Some cell => emit (DSpawn (snapshot_of_cell cell)) f
   | None => f
   end, id).

Definition normalize_rule (id : Z) (rule : ReflexRule) : ReflexRule :=
  let w := r_when rule in
  mkReflexRule id
    (mkReflexWhen (to_lowercase (trim (w_token w))) (w_kind w) (f32_clamp (w_min_strength w) f0 f1)
       (w_window_ms w) (w_min_count w))
    (r_then rule) (r_enabled rule).

Definition add_reflex (rule : ReflexRule) (f : ClusterField) : ClusterField * Z :=
  let c := control f in
  let '(id, next) :=
    if (r_id rule =? 0)%Z then (next_reflex_id c, u64_add (next_reflex_id c) 1)
    else (r_id rule, Z.max (next_reflex_id c) (u64_add (r_id rule) 1)) in
  let rule := normalize_rule id rule in
  (emit (DReflexAdd rule) (set_rules (<[id := rule]> (rules c)) next f), id).

Definition remove_reflex (id : Z) (f : ClusterField) : ClusterField * bool :=
  match rules (control f) !! id with
  | Some _ =>
      (emit (DReflexRemove id) (set_rules (delete id (rules (control f))) (next_reflex_id (control f)) f), true)
  | None => (f, false)
  end.

Definition list_reflex (f : ClusterField) : list ReflexRule :=
  sort_by (fun a b => r_id a <=? r_id b)%Z (hm_values o (rules (control f))).
End ops.

(** ** Configuration *)
Definition set_dream_config (cfg : DreamConfig) (f : ClusterField) : ClusterField :=
  emit (DDreamConfig cfg)
    (on_cycles (fun y => mkCycles (last_dream_ms y) cfg (dream_reports y) (sync_cfg y) (sync_reports y)
       (cached_resonant_model y) (resonant_model y) (awakening_cfg y) (sync_log y) (last_awaken_tick y)
       (mirror_epochs y) (mirror_replays y)) f).

Definition set_weight_xfer (v : f32) (c : SyncConfig) : SyncConfig :=
  mkSyncConfig (phase_len_ms c) (phase_gap_ms c) (cooccur_threshold c) (max_groups c) (share_top_k c) v.
Definition put_sync_cfg (cfg : SyncConfig) : ClusterField -> ClusterField :=
  on_cycles (fun y => mkCycles (last_dream_ms y) (dream_cfg y) (dream_reports y) cfg (sync_reports y)
    (cached_resonant_model y) (resonant_model y) (awakening_cfg y) (sync_log y) (last_awaken_tick y)
    (mirror_epochs y) (mirror_replays y)).
Definition set_sync_config (cfg : SyncConfig) (f : ClusterField) : ClusterField :=
  let cfg := set_weight_xfer (f32_clamp (weight_xfer cfg) (lit 5 100) (lit 5 10)) cfg in
  emit (DSyncConfig cfg) (put_sync_cfg cfg f).

Definition set_alpha (v : f32) (h : HarmonyTuning) : HarmonyTuning :=
  mkTuning v (ht_affinity_scale h) (ht_metabolism_scale h) (ht_sleep_delta h).

Definition set_trs_config (cfg : TrsConfig) (f : ClusterField) : ClusterField * FieldEvent :=
  let t := apply_config cfg (trs (control f)) in
  let f := set_trs t f in
  let f := set_harmony (set_alpha (t_alpha t) (harmony (control f))) f in
  (emit (DTrsSet cfg) f,
   event "trs_config"
     [("alpha", json_f32 (tc_alpha cfg)); ("beta", json_f32 (tc_beta cfg)); ("k_p", json_f32 (tc_k_p cfg));
      ("k_i", json_f32 (tc_k_i cfg)); ("k_d", json_f32 (tc_k_d cfg)); ("target", json_f32 (tc_target_load cfg))]).

Definition set_trs_target (target : f32) (f : ClusterField) : ClusterField * FieldEvent :=
  let t := set_target target (trs (control f)) in
  (emit (DTrsTarget (t_target_load t)) (set_trs t f),
   event "trs_target" [("target", json_f32 (t_target_load t))]).

(** [json!(i32)]. *)
Definition json_int (n : Z) : json := if (n <? 0)%Z then JI64 n else JU64 n.

Definition apply_trs_output (now : Z) (observed_load : f32) (output : TrsOutput) (f : ClusterField)
  : ClusterField * list FieldEvent :=
  let h :=
    mkTuning (f32_clamp (alpha_new output) (lit 5 100) (lit 95 100))
      (f32_clamp (affinity_scale output) (lit 7 10) (lit 135 100))
      (f32_clamp (metabolism_scale output) (lit 5 10) (lit 15 10))
      (f32_clamp (sleep_threshold_delta output) (lit (-2) 10) (lit 2 10)) in
  let f := set_harmony h f in
  let err := t_last_err (trs (control f)) in
  let trace :=
    event "trs_trace"
      [("alpha", json_f32 (ht_alpha h)); ("err", json_f32 err); ("observed", json_f32 observed_load);
       ("tick_adj", json_int (tick_adjust_ms output))] in
  let f := emit (DTrsTrace (mkTrsTrace now observed_load err (tick_adjust_ms output) (ht_alpha h))) f in
  let harmony :=
    event "harmony"
      [("alpha", json_f32 (ht_alpha h)); ("aff_scale", json_f32 (ht_affinity_scale h));
       ("met_scale", json_f32 (ht_metabolism_scale h)); ("sleep_delta", json_f32 (ht_sleep_delta h))] in
  let f := emit (DTrsHarmony (mkTrsHarmony (ht_alpha h) (ht_affinity_scale h) (ht_metabolism_scale h)
                                (ht_sleep_delta h))) f in
  (f, [trace; harmony]).
