(* ===== verification/FieldRoute.v ===== *)
(** * The cluster field: impulses and reflexes

    [ClusterField::route_impulse] and what it calls, the statistics of a pattern ([stats_for_pattern]) with the
    event of a view, and the JSON forms of what the field answers. *)

From stdpp Require Import prelude gmap strings fin_maps fin_sets list sorting.
From Stdlib Require Import ZArith Lia SpecFloat.
From S2P Require Import Prelude RustStr RustOrd Float RustText Json NodeCell Trs Seeds Symmetry FieldTypes Feedback Variant Resonant Journal Collections Field FieldOps.
From S2P Require Views.

(** [score_cell] *)
Definition score_cell (c : NodeCell) (imp : Impulse) (affinity_scale : f32) : f32 :=
  let match_score := f32_sub f1 (f32_abs (f32_sub (c_affinity c) (i_strength imp))) in
  let affinity_score :=
    if f_lt (lit 6 10) match_score
    then f32_mul match_score (f32_clamp affinity_scale (lit 5 10) (lit 15 10)) else match_score in
  let state_bonus :=
    match c_state c with
    | Active => lit 2 10
    | Idle => f0
    | Sleep => lit (-4) 10
    | Dead => lit (-1) 1
    end in
  f32_add affinity_score state_bonus.

(** The accumulators of the two loops: the field, the logs and the rules fired so far; the field,
    the logs, the pending deltas and the responders with their latencies. *)
Abbreviation reflex_acc := (ClusterField * list string * gset Z)%type.
Abbreviation ingest_acc := (ClusterField * list string * list EventDelta * list (Z * Z))%type.

Section route.
Context `{UnicodeCase, SeedRng}.
Variable o : HashOrder.

(** ** Reflexes *)
Definition wake_priority (c : NodeCell) (token : string) : f32 :=
  let token_lower := to_lowercase token in
  if existsb (String.eqb token_lower) (tokenize (core_pattern (c_seed c))) then f0
  else f32_add (f32_abs (f32_sub (c_affinity c) (lit 5 10))) (lit 5 10).

Definition reflex_token_matches (rule_token token : string) : bool :=
  if decide (rule_token = token) then true
  else existsb (fun candidate => String.eqb candidate token) (tokenize rule_token).

Definition perform_spawn_seed (rule_id : Z) (seed : string) (affinity_shift : f32) (f : ClusterField)
  : ClusterField * list string :=
  let params := create_seed seed in
  let affinity := f32_clamp (f32_add (sp_affinity params) affinity_shift) f0 f1 in
  let params := mkSeedParams affinity (base_metabolism params) (core_pattern params) in
  let new_id := next_id (graph f) in
  let f := set_next_id (u64_add new_id 1) f in
  let cell := from_seed new_id params in
  let cell := set_affinity (f32_clamp (c_affinity cell) f0 f1) cell in
  let cell := set_seed (mkSeedParams (c_affinity cell) (base_metabolism params) (core_pattern params)) cell in
  let f := spawn_cell o cell f in
  (f, ["REFLEX_SPAWN id=" +:+ fmt_nat rule_id +:+ " node=n" +:+ fmt_nat new_id +:+ " seed=" +:+ seed
       +:+ " shift=" +:+ fmt_fixed 2 affinity_shift]).

(** One sleeper woken. *)
Definition wake_one (acc : ClusterField * Z) (id : Z) : ClusterField * Z :=
  let '(f, woke) := acc in
  match cells (graph f) !! id with
  | Some cell =>
      if decide (c_state cell = Sleep) then
        let cell := set_state Idle cell in
        let cell := set_energy (f32_max (c_energy cell) (lit 3 10)) cell in
        let cell := set_last_response_ms (now_ms f) cell in
        let f := set_cells (<[id := cell]> (cells (graph f))) f in
        (emit (energy_of id cell) f, Z.min (woke + 1) 65535)
      else acc
  | None => acc
  end.

Definition perform_wake_sleeping (rule_id count : Z) (token : string) (f : ClusterField)
  : ClusterField * list string :=
  if (count =? 0)%Z then (f, [])
  else
    let sleeping :=
      map (fun e => (wake_priority e.2 token, e.1))
        (List.filter (fun e => bool_decide (c_state e.2 = Sleep)) (hm_iter o (cells (graph f)))) in
    let sleeping := sort_by (fun a b => f_asc a.1 b.1) sleeping in
    let '(f, woke) := fold_left wake_one (take (Z.to_nat count) sleeping).*2 (f, 0%Z) in
    (f, ["REFLEX_WAKE id=" +:+ fmt_nat rule_id +:+ " requested=" +:+ fmt_nat count +:+ " woke=" +:+ fmt_nat woke]).

(** [ranked.sort_by(|a, b| b.cmp(a))] on [(count, node)]. *)
Definition rank_desc (a b : Z * Z) : bool :=
  match (a.1 ?= b.1)%Z with Gt => true | Lt => false | Eq => (b.2 <=? a.2)%Z end.

Definition boost_one (normalized : string) (factor : f32) (f : ClusterField) (node : Z) : ClusterField :=
  let entry := default f1 (route_bias (traffic f) !! (normalized, node)) in
  let factor := f32_clamp factor (lit 1 10) (lit 3 1) in
  set_route_bias (<[(normalized, node) := f32_clamp (f32_mul entry factor) (lit 2 10) (lit 5 1)]> (route_bias (traffic f))) f.

Definition perform_boost_links (rule_id : Z) (token : string) (factor : f32) (top : Z) (f : ClusterField)
  : ClusterField * list string :=
  let log boosted :=
    "REFLEX_BOOST id=" +:+ fmt_nat rule_id +:+ " top=" +:+ fmt_nat top +:+ " factor=" +:+ fmt_fixed 2 factor
    +:+ " boosted=" +:+ fmt_nat boosted in
  if (top =? 0)%Z then (f, [log 0%Z])
  else
    let normalized := to_lowercase token in
    let history := default [] (recent_routes (traffic f) !! normalized) in
    let f := set_recent_routes (<[normalized := history]> (recent_routes (traffic f))) f in
    let counts := fold_left bump_count (map ro_node (take 64 (reverse history))) (∅ : gmap Z Z) in
    let ranked := sort_by rank_desc (map (fun e => (e.2, e.1)) (hm_iter o counts)) in
    let chosen := take (Z.to_nat top) ranked in
    let f := fold_left (boost_one normalized factor) chosen.*2 f in
    (f, [log (Z.min (Z.of_nat (length chosen)) 65535)]).

Definition fire_reflex (rule : ReflexRule) (matched : Z) (token : string) (f : ClusterField)
  : ClusterField * list string :=
  let log := "REFLEX_FIRE id=" +:+ fmt_nat (r_id rule) +:+ " matched=" +:+ fmt_nat matched in
  let f := emit (DReflexFire (mkReflexFire (r_id rule) (now_ms f) matched)) f in
  let '(f, logs) :=
    match r_then rule with
    | EmitHint hint => (f, ["REFLEX_HINT id=" +:+ fmt_nat (r_id rule) +:+ " hint=" +:+ Hint_debug hint])
    | SpawnSeed seed shift => perform_spawn_seed (r_id rule) seed shift f
    | WakeSleeping count => perform_wake_sleeping (r_id rule) count token f
    | BoostLinks factor top => perform_boost_links (r_id rule) token factor top f
    end in
  (f, log :: logs).

Definition relevant_rules (normalized : string) (kind : ImpulseKind) (f : ClusterField) : list ReflexRule :=
  List.filter (fun rule =>
    r_enabled rule && bool_decide (w_kind (r_when rule) = kind)
    && reflex_token_matches (w_token (r_when rule)) normalized) (hm_values o (rules (control f))).

Definition retention_of (rules : list ReflexRule) : Z :=
  Z.max (match rules with [] => 2000 | _ => foldr Z.max 0 (map (fun r => w_window_ms (r_when r)) rules) end)%Z 1.

(** The queue of a token and a kind after the impulse. *)
Definition push_counter (now retention : Z) (strength : f32) (queue : list (Z * f32)) : list (Z * f32) :=
  last_n 256 (pop_while (fun e => retention <? u64_saturating_sub now e.1)%Z (queue ++ [(now, strength)])).

Definition matched_count (now : Z) (rule : ReflexRule) (queue : list (Z * f32)) : Z :=
  Z.of_nat (length (List.filter (fun e =>
    (u64_saturating_sub now e.1 <=? w_window_ms (r_when rule))%Z
    && f_le (w_min_strength (r_when rule)) e.2) queue)) `mod` 65536.

Definition pending_rules (now : Z) (fired : gset Z) (queue : list (Z * f32)) (rules : list ReflexRule)
  : list (ReflexRule * Z) :=
  omap (fun rule =>
    if decide (r_id rule ∈ fired) then None
    else
      let matched := matched_count now rule queue in
      if (w_min_count (r_when rule) <=? matched)%Z then Some (rule, matched) else None) rules.

Definition fire_one (normalized : string) (acc : reflex_acc) (p : ReflexRule * Z) : reflex_acc :=
  let '(f, logs, fired) := acc in
  let '(f, more) := fire_reflex p.1 p.2 normalized f in
  (f, logs ++ more, fired ∪ {[r_id p.1]}).

Definition process_reflex_for (imp : Impulse) (acc : reflex_acc) (token : string) : reflex_acc :=
  let '(f, logs, fired) := acc in
  let normalized := to_lowercase token in
  let relevant := relevant_rules normalized (i_kind imp) f in
  let key := (normalized, i_kind imp) in
  let queue :=
    push_counter (now_ms f) (retention_of relevant) (i_strength imp) (default [] (counters (traffic f) !! key)) in
  let f := set_counters (<[key := queue]> (counters (traffic f))) f in
  if decide (relevant = []) then (f, logs, fired)
  else fold_left (fire_one normalized) (pending_rules (now_ms f) fired queue relevant) (f, logs, fired).

(** ** Routing *)
Definition candidates_for (tokens : list string) (f : ClusterField) : list Z :=
  let found := list_to_set (concat (map (fun token => default [] (index (graph f) !! token)) tokens)) : gset Z in
  hs_iter o (if decide (found = ∅) then dom (cells (graph f)) else found).

Definition best_bias (tokens : list string) (id : Z) (f : ClusterField) : f32 :=
  fold_left (fun best token =>
    match route_bias (traffic f) !! (token, id) with
    | Some bias => if f_lt best bias then bias else best
    | None => best
    end) tokens f1.

Definition scored_candidates (imp : Impulse) (tokens : list string) (f : ClusterField) : list (f32 * Z) :=
  omap (fun id =>
    c ← cells (graph f) !! id;
    Some (f32_mul (score_cell c imp (affinity_scale_for c f)) (best_bias tokens id f), id))
    (candidates_for tokens f).

Definition top_candidates (imp : Impulse) (tokens : list string) (f : ClusterField) : list Z :=
  (take 3 (sort_by (fun a b => f_desc a.1 b.1) (scored_candidates imp tokens f))).*2.

(** One of the best cells takes the impulse in. *)
Definition ingest_one (imp : Impulse) (acc : ingest_acc) (id : Z) : ingest_acc :=
  let '(f, logs, deltas, responded) := acc in
  match cells (graph f) !! id with
  | None => acc
  | Some cell =>
      let before_salience := c_salience cell in
      let previous := c_last_response_ms cell in
      let '(cell, answer) := ingest imp (now_ms f) cell in
      match answer with
      | None => (set_cells (<[id := cell]> (cells (graph f))) f, logs, deltas, responded)
      | Some log =>
          let cell := set_last_response_ms (now_ms f) cell in
          let f := set_cells (<[id := cell]> (cells (graph f))) f in
          let latency := Z.min (u64_saturating_sub (now_ms f) previous) u32_max in
          let logs := logs ++ [log] in
          let logs :=
            if f_lt f32_epsilon (f32_abs (f32_sub (c_salience cell) before_salience))
            then logs ++ ["SALIENCE n" +:+ fmt_nat id +:+ " " +:+ fmt_fixed 2 before_salience +:+ "->"
                          +:+ fmt_fixed 2 (c_salience cell)]
            else logs in
          (f, logs, deltas ++ [energy_of id cell], responded ++ [(id, latency)])
      end
  end.

Definition push_routes (now : Z) (nodes : list Z) (strength : f32) (history : list RecentRoute) : list RecentRoute :=
  last_n MAX_RECENT_ROUTES
    (pop_while (fun front => ROUTE_RETENTION_MS <? u64_saturating_sub now (ro_ts front))%Z
       (history ++ map (fun id => mkRoute now id strength) nodes)).

Definition record_recent (nodes : list Z) (strength : f32) (f : ClusterField) (token : string) : ClusterField :=
  let history := default [] (recent_routes (traffic f) !! token) in
  set_recent_routes (<[token := push_routes (now_ms f) nodes strength history]> (recent_routes (traffic f))) f.

Definition record_hits (strength : f32) (responded : list (Z * Z)) (f : ClusterField) (token : string) : ClusterField :=
  fold_left (fun f r => record_token_hit token r.1 strength r.2 f) responded f.

(** The hormone of an impulse on [affect/noradrenaline]. *)
Definition hormone_step (imp : Impulse) (f : ClusterField) : ClusterField * list string :=
  if decide (i_pattern imp = "affect/noradrenaline") then
    (set_noradrenaline
       (Some (mkNoradrenaline (u64_saturating_add (now_ms f) (i_ttl_ms imp)) (f32_clamp (i_strength imp) f0 f1))) f,
     ["HORMONE noradrenaline s=" +:+ fmt_fixed 2 (i_strength imp) +:+ " window=" +:+ fmt_nat (i_ttl_ms imp) +:+ "ms";
      "ASTRO TAG on"])
  else (f, []).

(** The first occurrences, in order: [seen_tokens.insert(token)]. *)
Fixpoint distinct (seen : gset string) (tokens : list string) : list string :=
  match tokens with
  | [] => []
  | t :: rest => if decide (t ∈ seen) then distinct seen rest else t :: distinct (seen ∪ {[t]}) rest
  end.

Definition route_impulse (imp : Impulse) (f : ClusterField) : ClusterField * list string :=
  let tokens := tokenize (i_pattern imp) in
  let '(f, logs) := hormone_step imp f in
  let '(f, logs, _) := fold_left (process_reflex_for imp) (distinct ∅ tokens) (f, logs, ∅) in
  let chosen := top_candidates imp tokens f in
  let '(f, logs, deltas, responded) := fold_left (ingest_one imp) chosen (f, logs, [], []) in
  let responded_nodes := responded.*1 in
  let f := record_route_sequence o responded_nodes f in
  let seen_tokens := hs_iter o (list_to_set tokens : gset string) in
  let f := fold_left (record_recent responded_nodes (i_strength imp)) seen_tokens f in
  let f :=
    if decide (responded = []) then f
    else fold_left (record_hits (i_strength imp) responded) seen_tokens f in
  let f := set_ticks_since_impulse 0 f in
  (emit_all deltas f, logs).
End route.

(** * The cluster field: statistics of a pattern ([stats_for_pattern] and what it calls), and the
    event of a view ([ViewRegistry::build_event]) *)

Record NodeHitStat : Type := mkNodeHitStat {
  nh_id : Z;
  nh_hits : Z
}.

Record ViewStats : Type := mkViewStats {
  vs_count : Z;
  vs_avg_strength : f32;
  vs_avg_latency : f32;
  top_nodes : list NodeHitStat;
  emotional_load : f32
}.
Definition ViewStats_default : ViewStats := mkViewStats 0 f0 f0 [] f0.

Section query.
Context `{UnicodeCase}.
Variable o : HashOrder.

(** [self.cells.get(&hit.node).map(p).unwrap_or(false)] *)
Definition node_satisfies (p : NodeCell -> bool) (f : ClusterField) (hit : Hit) : bool :=
  match cells (graph f) !! h_node hit with Some c => p c | None => false end.

Definition apply_filters (flt : Views.ViewFilter) (f : ClusterField) (hits : list Hit) : list Hit :=
  let hits :=
    match Views.min_strength flt with
    | Some m => List.filter (fun hit => f_le m (h_strength hit)) hits
    | None => hits
    end in
  let hits :=
    match Views.min_salience flt with
    | Some m => List.filter (node_satisfies (fun c => f_le m (c_salience c)) f) hits
    | None => hits
    end in
  match Views.adreno flt with
  | Some a => List.filter (node_satisfies (fun c => Bool.eqb (c_adreno_tag c) a) f) hits
  | None => hits
  end.

(** [if seen.insert(hit.seq) { combined.push(hit) }] *)
Definition combine_hit (acc : list Hit * gset Z) (hit : Hit) : list Hit * gset Z :=
  let '(combined, seen) := acc in
  if decide (h_seq hit ∈ seen) then acc else (combined ++ [hit], seen ∪ {[h_seq hit]}).

Definition gather_hits_for_pattern (pattern : string) (window_ms : Z) (f : ClusterField) : list Hit :=
  let tokens := tokenize pattern in
  let hits := concat (map (fun token => recent_for token window_ms f) tokens) in
  sort_by (fun a b => h_ts a <=? h_ts b)%Z (fst (fold_left combine_hit hits ([], ∅))).

Definition hit_stat_order (a b : NodeHitStat) : bool :=
  match (nh_hits a ?= nh_hits b)%Z with Gt => true | Lt => false | Eq => (nh_id a <=? nh_id b)%Z end.

Definition stats_from_hits (f : ClusterField) (hits : list Hit) : ViewStats :=
  if decide (hits = []) then ViewStats_default
  else
    let count := (Z.of_nat (length hits) mod u32_size)%Z in
    let total_strength := f32_sum (map h_strength hits) in
    let total_latency := f32_sum (map (fun hit => f32_of_Z (h_latency_ms hit)) hits) in
    let emotional_hits :=
      f32_of_Z (Z.of_nat (length (List.filter (node_satisfies c_adreno_tag f) hits))) in
    let node_counts := fold_left bump_count (map h_node hits) (∅ : gmap Z Z) in
    let nodes := sort_by hit_stat_order (map (fun e => mkNodeHitStat e.1 e.2) (hm_iter o node_counts)) in
    mkViewStats count (f32_clamp (f32_div total_strength (f32_of_Z count)) f0 f1)
      (f32_div total_latency (f32_of_Z count)) (take 3 nodes)
      (if (count =? 0)%Z then f0 else f32_clamp (f32_div emotional_hits (f32_of_Z count)) f0 f1).

Definition stats_for_pattern (pattern : string) (window_ms : Z) (flt : Views.ViewFilter) (f : ClusterField)
  : ViewStats :=
  stats_from_hits f (apply_filters flt f (gather_hits_for_pattern pattern (Z.max window_ms 1) f)).
End query.

(** ** Serialized forms *)
Definition json_opt {A : Type} (key : string) (j : A -> json) (v : option A) : list (string * json) :=
  match v with Some a => [(key, j a)] | None => [] end.
Definition json_or_null {A : Type} (j : A -> json) (v : option A) : json :=
  match v with Some a => j a | None => JNull end.

Definition filter_json (flt : Views.ViewFilter) : json :=
  json_obj (json_opt "min_strength" json_f32 (Views.min_strength flt)
            ++ json_opt "min_salience" json_f32 (Views.min_salience flt)
            ++ json_opt "adreno" JBool (Views.adreno flt)).

Definition stats_json (s : ViewStats) : json :=
  json_obj
    [("count", JU64 (vs_count s)); ("avg_strength", json_f32 (vs_avg_strength s));
     ("avg_latency", json_f32 (vs_avg_latency s));
     ("top_nodes", JArr (map (fun n => json_obj [("id", JU64 (nh_id n)); ("hits", JU64 (nh_hits n))]) (top_nodes s)));
     ("emotional_load", json_f32 (emotional_load s))].

Definition build_event (view : Views.View) (stats : ViewStats) : FieldEvent :=
  event "view"
    [("id", JU64 (Views.v_id view)); ("pattern", JStr (Views.v_pattern view));
     ("window", JU64 (Views.v_window_ms view)); ("every", JU64 (Views.v_every_ms view));
     ("filter", filter_json (Views.v_filter view)); ("stats", stats_json stats)].
