(* ===== verification/FieldTick.v ===== *)
(** * The cluster field: ticks ([ClusterField::tick_all], [trim_low_energy],
    [inject_seed_variation])

    [tick_all] in the order of the source: metabolism of every cell, the hormone's end, divisions,
    the attachment of the children, sleep and death, the removal of the dead, the journal, the
    views, the harmony report, the seed garden and the awakening tick. [apply_delta] is the replay of a
    journal. The variation a division
    draws and the coins of trimming and injection are arguments, per cell. *)

From stdpp Require Import prelude gmap strings fin_maps fin_sets list sorting.
From Stdlib Require Import ZArith Lia SpecFloat.
From S2P Require Import Prelude RustStr RustOrd Float RustText Json NodeCell Trs Seeds Symmetry FieldTypes Feedback Variant Resonant Journal Collections Field FieldOps FieldRoute.
From S2P Require Views.

(** The shift of the sleep threshold of a cell. *)
Definition sleep_shift_for (hormone : option NoradrenalineEffect) (base_sleep : f32) (c : NodeCell) : f32 :=
  if c_adreno_tag c then
    match hormone with
    | Some effect =>
        f32_clamp (f32_sub base_sleep (f32_mul (lit 2 10) (na_strength effect))) (lit (-4) 10) (lit 2 10)
    | None => base_sleep
    end
  else base_sleep.

Definition metabolize (dt_ms : Z) (hormone : option NoradrenalineEffect) (h : HarmonyTuning) (c : NodeCell) : NodeCell :=
  let c := cell_tick dt_ms (ht_metabolism_scale h) (sleep_shift_for hormone (ht_sleep_delta h) c) c in
  drift_affinity (ht_alpha h) c.

Definition metabolize_body (dt_ms : Z) (hormone : option NoradrenalineEffect) (h : HarmonyTuning)
    (id : Z) (c : NodeCell) (pending : list EventDelta) : NodeCell * list EventDelta :=
  let c := metabolize dt_ms hormone h c in
  (c, pending ++ [energy_of id c]).

(** What the division loop carries: the next identifier, the lines, the deltas and the children. *)
Record Division : Type := mkDivision {
  dv_next_id : Z;
  dv_events : list FieldEvent;
  dv_pending : list EventDelta;
  dv_new_cells : list (Z * NodeCell)
}.

Definition child_of (now id : Z) (child : NodeCell) : NodeCell :=
  let s := c_seed child in
  mkCell id (mkSeedParams (sp_affinity s) (base_metabolism s) (core_pattern s +:+ ":n" +:+ fmt_nat id))
    (c_state child) (c_links child) (c_metabolism child) (c_affinity child) now (c_energy child)
    (c_salience child) (c_adreno_tag child) (c_last_recall_ms child).

Definition divide_body (now : Z) (variation : Z -> f32) (id : Z) (c : NodeCell) (d : Division)
  : NodeCell * Division :=
  let parent_affinity := c_affinity c in
  let '(c, child) := maybe_divide (variation id) c in
  match child with
  | None => (c, d)
  | Some child =>
      let new_id := dv_next_id d in
      let child' := child_of now new_id child in
      (c, mkDivision (u64_add new_id 1)
            (dv_events d ++ [EText ("DIVIDE parent=n" +:+ fmt_nat id +:+ " -> child=n" +:+ fmt_nat new_id
               +:+ " (aff " +:+ fmt_fixed 2 parent_affinity +:+ "->" +:+ fmt_fixed 2 (c_affinity child) +:+ ")")])
            (dv_pending d ++ [DAffinity id (c_affinity c); energy_of id c])
            (dv_new_cells d ++ [(id, child')]))
  end.

(** What the last loop carries: lines, deltas and the identifiers of the dead. *)
Definition rest_body (now : Z) (hormone : option NoradrenalineEffect) (base_sleep : f32)
    (id : Z) (c : NodeCell) (acc : list FieldEvent * list EventDelta * list Z)
  : NodeCell * (list FieldEvent * list EventDelta * list Z) :=
  let '(events, pending, purge) := acc in
  let prev_state := c_state c in
  let '(c, died) := maybe_sleep_or_die now (sleep_shift_for hormone base_sleep c) c in
  let '(events, pending) :=
    if bool_decide (prev_state <> Sleep) && bool_decide (c_state c = Sleep)
    then (events ++ [EText ("SLEEP n" +:+ fmt_nat id)], pending ++ [DSleep id]) else (events, pending) in
  let '(events, pending, purge) :=
    if died && bool_decide (prev_state <> Dead)
    then (events ++ [EText ("DEAD n" +:+ fmt_nat id)], pending ++ [DDead id], purge ++ [id])
    else (events, pending, purge) in
  (c, (events, pending ++ [energy_of id c], purge)).

Section tick.
Context `{UnicodeCase, SeedRng, FloatMath}.
Variable o : HashOrder.

(** The parent links to its child. *)
Definition link_child (parent child : Z) (f : ClusterField) (pending : list EventDelta)
  : ClusterField * list EventDelta :=
  match cells (graph f) !! parent with
  | Some parent_cell =>
      if decide (child ∈ c_links parent_cell) then (f, pending)
      else
        let f := set_cells (<[parent := set_links (c_links parent_cell ∪ {[child]}) parent_cell]> (cells (graph f))) f in
        (register_link parent child f, pending ++ [DLink parent child])
  | None => (f, pending)
  end.

(** A child joins the field; the accumulator is the field and the pending deltas. *)
Definition attach_child (acc : ClusterField * list EventDelta) (p : Z * NodeCell) : ClusterField * list EventDelta :=
  let '(parent, child) := p in
  let '(f, pending) := link_child parent (c_id child) (fst acc) (snd acc) in
  (attach_cell o child f, pending ++ [DDivide parent (snapshot_of_cell child)]).

(** The dead leave. *)
Definition bury (cs : gmap Z NodeCell) (purge_ids : list Z) (f : ClusterField) : ClusterField :=
  let living := filter (fun e => c_state e.2 <> Dead) cs in
  let needs_reindex := bool_decide (purge_ids <> []) || negb (size living =? size cs)%nat in
  let f := set_cells living f in
  let f := if needs_reindex then rebuild_index o f else f in
  let f := fold_left (fun f id => purge_tracking_for id f) purge_ids f in
  refresh_important_cells f.

(** The end of the hormone. *)
Definition hormone_end (f : ClusterField) : ClusterField * list FieldEvent :=
  match noradrenaline (control f) with
  | Some effect =>
      if (na_until_ms effect <=? now_ms f)%Z then (set_noradrenaline None f, [EText "ASTRO TAG off"]) else (f, [])
  | None => (f, [])
  end.

(** The part of [tick_all] that changes the cells, up to [refresh_important_cells]. *)
Definition tick_cells (dt_ms : Z) (variation : Z -> f32) (f : ClusterField)
  : ClusterField * list FieldEvent * list EventDelta :=
  let now := now_ms f in
  let ids := hm_keys o (cells (graph f)) in
  let hormone := noradrenaline_active f in
  let base_sleep := ht_sleep_delta (harmony (control f)) in
  let '(cs, pending) := key_loop (metabolize_body dt_ms hormone (harmony (control f))) ids (cells (graph f)) [] in
  let f := set_cells cs f in
  let '(f, events) := hormone_end f in
  let '(cs, d) :=
    key_loop (divide_body now variation) ids (cells (graph f)) (mkDivision (next_id (graph f)) events pending []) in
  let f := set_next_id (dv_next_id d) (set_cells cs f) in
  let '(f, pending) := fold_left attach_child (dv_new_cells d) (f, dv_pending d) in
  let '(cs, (events, pending, purge_ids)) :=
    key_loop (rest_body now hormone base_sleep) ids (cells (graph f)) (dv_events d, pending, []) in
  (bury cs purge_ids f, events, pending).

(** One round of the view timer. *)
Definition view_round (acc : ClusterField * list FieldEvent) : ClusterField * list FieldEvent :=
  let '(f, events) := acc in
  let '(reg, due) := Views.take_due (hm_values o) (views f) (now_ms f) in
  let f := set_view_tick_accum (view_tick_accum f - 500) (set_views reg f) in
  (f, events ++ map (fun view =>
        build_event view (stats_for_pattern o (Views.v_pattern view) (Views.v_window_ms view) (Views.v_filter view) f)) due).
Fixpoint view_rounds (n : nat) (acc : ClusterField * list FieldEvent) : ClusterField * list FieldEvent :=
  match n with
  | O => acc
  | S n' => if (500 <=? view_tick_accum (fst acc))%Z then view_rounds n' (view_round acc) else acc
  end.

Definition mirror_json (m : MirrorImpulse) : json :=
  json_obj [("k", JStr (mi_kind m)); ("p", JStr (mi_pattern m)); ("s", json_f32 (mi_strength m));
            ("t", JU64 (mi_timestamp_ms m))].

Definition harmony_event (s : HarmonySnapshot) : FieldEvent :=
  event "harmony"
    [("strength", json_f32 (avg_strength (hs_metrics s))); ("latency", json_f32 (hm_avg_latency (hs_metrics s)));
     ("entropy", json_f32 (hs_entropy_ratio s)); ("delta_strength", json_f32 (hs_delta_strength s));
     ("delta_latency", json_f32 (hs_delta_latency s)); ("status", JStr (SymmetryStatus_as_str (hs_status s)));
     ("pattern", json_or_null JStr (hs_dominant_pattern s)); ("mirror", json_or_null mirror_json (hs_mirror s))].

Definition tick_seed_garden (f : ClusterField) : ClusterField * list FieldEvent :=
  let '(garden, lines) := tick_garden o (seed_garden f) (now_ms f) in
  (set_seed_garden garden f, map EText lines).

Definition set_sync_log (v : SyncLog) (last_tick : Z) : ClusterField -> ClusterField :=
  on_cycles (fun y => mkCycles (last_dream_ms y) (dream_cfg y) (dream_reports y) (sync_cfg y) (sync_reports y)
    (cached_resonant_model y) (resonant_model y) (awakening_cfg y) v last_tick (mirror_epochs y) (mirror_replays y)).

Definition awaken_tick (f : ClusterField) : ClusterField :=
  let f := set_sync_log (record_tick (now_ms f) (sync_log (cycles f))) (now_ms f) f in
  emit (DAwakenTick (last_applied (resonant_model (cycles f))) (now_ms f)) f.

(** The part of [tick_all] after the cells: what only reports. *)
Definition tick_reports (dt_ms : Z) (f : ClusterField) (events : list FieldEvent) : ClusterField * list FieldEvent :=
  let f := set_view_tick_accum (u64_saturating_add (view_tick_accum f) dt_ms) f in
  let '(f, events) := view_rounds (Z.to_nat (view_tick_accum f / 500)) (f, events) in
  let samples := symmetry_samples o (re_window (reflex_engine (control f))) f in
  let '(engine, snapshot) := engine_tick o (now_ms f) dt_ms samples (reflex_engine (control f)) in
  let f := set_reflex_engine engine f in
  let events := match snapshot with Some s => events ++ [harmony_event s] | None => events end in
  let '(f, seed_events) := tick_seed_garden f in
  (awaken_tick f, events ++ seed_events).

Definition tick_all (dt_ms : Z) (variation : Z -> f32) (f : ClusterField) : ClusterField * list FieldEvent :=
  let f := set_now_ms (u64_saturating_add (now_ms f) dt_ms) f in
  let f := emit (DTick (now_ms f)) f in
  let '(f, events, pending) := tick_cells dt_ms variation f in
  let f := set_ticks_since_impulse (u64_saturating_add (ticks_since_impulse (traffic f)) 1) f in
  let f := emit_all pending f in
  tick_reports dt_ms f events.

(** ** Trimming *)
(** The coins [gen_bool(0.35)] and [gen_bool(0.25)] of a cell. *)
Definition trim_cell (now : Z) (coins : bool * bool) (c : NodeCell) : NodeCell :=
  if c_adreno_tag c || f_le (lit 7 10) (c_salience c) then c
  else if f_lt (c_salience c) (lit 2 10) && (60000 <? u64_saturating_sub now (c_last_recall_ms c))%Z && fst coins
  then
    let c := if decide (c_state c = Active) then set_state Sleep c else c in
    if f_lt (c_energy c) (lit 5 100) && snd coins then set_state Dead c else c
  else c.

Definition is_victim (c : NodeCell) : bool :=
  if c_adreno_tag c || f_le (lit 7 10) (c_salience c) then false
  else f_le (c_energy c) (lit 1 10) || bool_decide (c_state c = Dead).

Definition is_kept (c : NodeCell) : bool :=
  if c_adreno_tag c || f_le (lit 7 10) (c_salience c) then negb (bool_decide (c_state c = Dead))
  else f_lt (lit 1 10) (c_energy c) && negb (bool_decide (c_state c = Dead)).

Definition trim_low_energy (coins : Z -> bool * bool) (f : ClusterField) : ClusterField :=
  let before := size (cells (graph f)) in
  let '(cs, _) := key_loop (fun id c (u : unit) => (trim_cell (now_ms f) (coins id) c, u))
                    (hm_keys o (cells (graph f))) (cells (graph f)) tt in
  let victims := (List.filter (fun e => is_victim e.2) (hm_iter o cs)).*1 in
  let living := filter (fun e => is_kept e.2 = true) cs in
  let f := set_cells living f in
  let f := if (size living =? before)%nat then f else rebuild_index o f in
  let f := fold_left (fun f id => purge_tracking_for id (emit (DDead id) f)) victims f in
  refresh_important_cells f.

(** ** Injection *)
(** [bud]: the draws of [gen_range(-0.1..0.1)] and [gen_range(0.0..0.3)]; [coin id]: whether the
    cell links to the new one. *)
Definition link_body (id : Z) (coin : Z -> bool) (k : Z) (other : NodeCell) (acc : list EventDelta * list (Z * Z))
  : NodeCell * (list EventDelta * list (Z * Z)) :=
  if bool_decide (c_id other <> id) && coin k && negb (bool_decide (id ∈ c_links other))
  then (set_links (c_links other ∪ {[id]}) other,
        (fst acc ++ [DLink (c_id other) id], snd acc ++ [(c_id other, id)]))
  else (other, acc).

Definition inject_seed_variation (base_seed : string) (bud : f32 * f32) (coin : Z -> bool) (f : ClusterField)
  : ClusterField :=
  if (64 <? size (cells (graph f)))%nat then f
  else
    let params := create_seed base_seed in
    let id := next_id (graph f) in
    let affinity := f32_clamp (f32_add (sp_affinity params) (fst bud)) f0 f1 in
    let cell :=
      mkCell id
        (mkSeedParams affinity (base_metabolism params) (core_pattern params +:+ ":bud" +:+ fmt_nat id))
        Active ∅ (base_metabolism params) affinity (now_ms f) (f32_add (lit 5 10) (snd bud)) f0 false 0 in
    let f := set_next_id (u64_add id 1) f in
    let f := spawn_cell o cell f in
    let '(cs, (link_events, new_links)) :=
      key_loop (link_body id coin) (hm_keys o (cells (graph f))) (cells (graph f)) ([], []) in
    let f := set_cells cs f in
    let f := emit_all link_events f in
    fold_left (fun f l => register_link l.1 l.2 f) new_links f.
End tick.

(** * The cluster field: replay of a journal ([ClusterField::apply_delta]) *)

Definition put_dream_cfg (cfg : DreamConfig) : ClusterField -> ClusterField :=
  on_cycles (fun y => mkCycles (last_dream_ms y) cfg (dream_reports y) (sync_cfg y) (sync_reports y)
    (cached_resonant_model y) (resonant_model y) (awakening_cfg y) (sync_log y) (last_awaken_tick y)
    (mirror_epochs y) (mirror_replays y)).
Definition put_dream_reports (v : list (Z * DreamReport)) (last : Z) : ClusterField -> ClusterField :=
  on_cycles (fun y => mkCycles last (dream_cfg y) v (sync_cfg y) (sync_reports y)
    (cached_resonant_model y) (resonant_model y) (awakening_cfg y) (sync_log y) (last_awaken_tick y)
    (mirror_epochs y) (mirror_replays y)).
Definition put_sync_reports (v : list (Z * SyncReport)) : ClusterField -> ClusterField :=
  on_cycles (fun y => mkCycles (last_dream_ms y) (dream_cfg y) (dream_reports y) (sync_cfg y) v
    (cached_resonant_model y) (resonant_model y) (awakening_cfg y) (sync_log y) (last_awaken_tick y)
    (mirror_epochs y) (mirror_replays y)).
Definition put_resonant_model (v : ResonantModel) : ClusterField -> ClusterField :=
  on_cycles (fun y => mkCycles (last_dream_ms y) (dream_cfg y) (dream_reports y) (sync_cfg y) (sync_reports y)
    (cached_resonant_model y) v (awakening_cfg y) (sync_log y) (last_awaken_tick y)
    (mirror_epochs y) (mirror_replays y)).
Definition put_awakening_cfg (v : AwakeningConfig) : ClusterField -> ClusterField :=
  on_cycles (fun y => mkCycles (last_dream_ms y) (dream_cfg y) (dream_reports y) (sync_cfg y) (sync_reports y)
    (cached_resonant_model y) (resonant_model y) v (sync_log y) (last_awaken_tick y)
    (mirror_epochs y) (mirror_replays y)).
Definition put_mirror (e : list Epoch) (r : list ReplayReport) : ClusterField -> ClusterField :=
  on_cycles (fun y => mkCycles (last_dream_ms y) (dream_cfg y) (dream_reports y) (sync_cfg y) (sync_reports y)
    (cached_resonant_model y) (resonant_model y) (awakening_cfg y) (sync_log y) (last_awaken_tick y) e r).

Definition set_trace (t : TrsTraceDelta) (s : TrsState) : TrsState :=
  mkTrs (t_alpha s) (t_beta s) (t_target_load s) (t_err_i s) (t_k_p s) (t_k_i s) (t_k_d s) (tt_error t) (tt_now_ms t).

Definition lower_rule `{UnicodeCase} (rule : ReflexRule) : ReflexRule :=
  let w := r_when rule in
  mkReflexRule (r_id rule)
    (mkReflexWhen (to_lowercase (w_token w)) (w_kind w) (w_min_strength w) (w_window_ms w) (w_min_count w))
    (r_then rule) (r_enabled rule).

Section delta.
Context `{UnicodeCase}.
Variable o : HashOrder.

(** [if cell.links.insert(to) { self.register_link(from, to) }] *)
Definition insert_link (from to : Z) (f : ClusterField) : ClusterField :=
  match cells (graph f) !! from with
  | Some c =>
      if decide (to ∈ c_links c) then f
      else register_link from to (set_cells (<[from := set_links (c_links c ∪ {[to]}) c]> (cells (graph f))) f)
  | None => f
  end.

Definition put_link_score (from to : Z) (score : f32) (f : ClusterField) : ClusterField :=
  set_link_scores (<[(from, to) := score]> (link_scores (graph f))) f.

Definition restore_energy (d : EnergyDelta) (c : NodeCell) : NodeCell :=
  set_last_response_ms (ed_last_response_ms d)
    (set_state (ed_state d) (set_metabolism (ed_metabolism d) (set_energy (ed_energy d) c))).

Definition restore_affinity (a : f32) (c : NodeCell) : NodeCell :=
  let s := c_seed c in
  set_seed (mkSeedParams a (base_metabolism s) (core_pattern s)) (set_affinity a c).

Definition apply_delta (f : ClusterField) (delta : EventDelta) : ClusterField :=
  match delta with
  | DTick now => set_ticks_since_impulse 0 (set_now_ms now f)
  | DSpawn snapshot =>
      let f := attach_cell o (snapshot_to_node snapshot) f in
      set_next_id (Z.max (next_id (graph f)) (u64_add (cn_id snapshot) 1)) f
  | DDivide parent child =>
      let f := insert_link parent (cn_id child) f in
      let f := attach_cell o (snapshot_to_node child) f in
      set_next_id (Z.max (next_id (graph f)) (u64_add (cn_id child) 1)) f
  | DSleep id => update_cell id (set_state Sleep) f
  | DDead id => purge_tracking_for id (rebuild_index o (set_cells (delete id (cells (graph f))) f))
  | DLink from to => insert_link from to f
  | DUnlink from to =>
      match cells (graph f) !! from with
      | Some c =>
          if decide (to ∈ c_links c) then
            unregister_link from to (set_cells (<[from := set_links (c_links c ∖ {[to]}) c]> (cells (graph f))) f)
          else f
      | None => f
      end
  | DAffinity id a => update_cell id (restore_affinity a) f
  | DEnergy d => update_cell (ed_id d) (restore_energy d) f
  | DReflexAdd rule =>
      let rule := lower_rule rule in
      let c := control f in
      set_rules (<[r_id rule := rule]> (rules c)) (Z.max (next_reflex_id c) (u64_add (r_id rule) 1)) f
  | DReflexRemove id => set_rules (delete id (rules (control f))) (next_reflex_id (control f)) f
  | DReflexFire _ => f
  | DTrsSet cfg =>
      let t := apply_config cfg (trs (control f)) in
      let f := set_trs t f in
      set_harmony (set_alpha (t_alpha t) (harmony (control f))) f
  | DTrsTarget target => set_trs (set_target target (trs (control f))) f
  | DTrsTrace t =>
      let f := set_trs (set_trace t (trs (control f))) f in
      set_harmony (set_alpha (tt_alpha t) (harmony (control f))) f
  | DTrsHarmony h =>
      set_harmony (mkTuning (th_alpha h) (th_affinity_scale h) (th_metabolism_scale h) (th_sleep_delta h)) f
  | DDreamConfig cfg => put_dream_cfg cfg f
  | DSyncConfig cfg => put_sync_cfg cfg f
  | DDreamStrengthen e => put_link_score (de_from e) (de_to e) (de_score e) f
  | DDreamWeaken e => put_link_score (de_from e) (de_to e) (de_score e) f
  | DDreamPrune from to =>
      unregister_link from to (update_cell from (fun c => set_links (c_links c ∖ {[to]}) c) f)
  | DDreamRewire from to => insert_link from to f
  | DDreamReport now report =>
      put_dream_reports (last_n 16 (dream_reports (cycles f) ++ [(now, report)])) now f
  | DSyncShare node token bias =>
      set_route_bias (<[(to_lowercase token, node) := bias]> (route_bias (traffic f))) f
  | DSyncAlign from to score => put_link_score from to score f
  | DCollectiveDreamReport now report =>
      put_sync_reports (last_n 16 (sync_reports (cycles f) ++ [(now, report)])) f
  | DModelBuild hash cell_count now =>
      let f := put_resonant_model (record_build (mkFrame hash cell_count now) (resonant_model (cycles f))) f in
      set_sync_log (sl_record_build hash now cell_count (sync_log (cycles f))) (last_awaken_tick (cycles f)) f
  | DAwakenApply hash config now cell_count =>
      let f := put_awakening_cfg config f in
      let f := put_resonant_model (set_last_applied hash (resonant_model (cycles f))) f in
      match hash with
      | Some _ => set_sync_log (record_apply hash now cell_count (sync_log (cycles f))) (last_awaken_tick (cycles f)) f
      | None => f
      end
  | DAwakenTick hash now =>
      let f := set_sync_log (record_tick now (sync_log (cycles f))) now f in
      match hash, last_applied (resonant_model (cycles f)) with
      | Some _, None => put_resonant_model (set_last_applied hash (resonant_model (cycles f))) f
      | _, _ => f
      end
  | DMirrorEpoch epoch =>
      put_mirror (last_n MIRROR_EPOCH_LIMIT (mirror_epochs (cycles f) ++ [epoch])) (mirror_replays (cycles f)) f
  | DMirrorReplay report =>
      put_mirror (mirror_epochs (cycles f)) (last_n MIRROR_REPLAY_LIMIT (mirror_replays (cycles f) ++ [report])) f
  end.

End delta.
