(* ===== verification/FieldInv.v ===== *)
(** * The cluster field: what is well formed, and the frame of each operation

    [core] is the part of the field that identity depends on: the cells, the index and the next
    identifier. [field_wf] says that it is consistent; the lemmas of this file say what the small
    operations do to [core] and to the journal. *)

From stdpp Require Import prelude gmap strings fin_maps fin_sets list sorting.
From Stdlib Require Import ZArith Lia SpecFloat.
From S2P Require Import Prelude RustStr RustOrd Float RustText Json NodeCell Trs Seeds Symmetry FieldTypes Feedback Variant Resonant Journal Collections Field FieldOps.
From S2P Require Views.

Definition core (f : ClusterField) : gmap Z NodeCell * gmap string (list Z) * Z :=
  (cells (graph f), index (graph f), next_id (graph f)).

(** How often [x] occurs in [l]. *)
Definition occ {A : Type} `{EqDecision A} (x : A) (l : list A) : nat := length (filter (.= x) l).

Lemma occ_app {A} `{EqDecision A} (x : A) l k : occ x (l ++ k) = occ x l + occ x k.
Proof. unfold occ. by rewrite filter_app, length_app. Qed.

Lemma occ_cons {A} `{EqDecision A} (x y : A) l : occ x (y :: l) = (if decide (y = x) then 1 else 0) + occ x l.
Proof. unfold occ. rewrite filter_cons. by case_decide. Qed.

Lemma occ_pos {A} `{EqDecision A} (x : A) l : 0 < occ x l <-> x ∈ l.
Proof.
  induction l as [|y l IH]; [cbn; split; [lia | by intros ?%not_elem_of_nil] |].
  rewrite occ_cons, elem_of_cons. case_decide; [subst; split; [by left | lia] |].
  cbn. rewrite IH. naive_solver.
Qed.

Lemma occ_filter_ne (x y : Z) l :
  occ x (List.filter (fun e => negb (e =? y)%Z) l) = if decide (x = y) then 0 else occ x l.
Proof.
  induction l as [|z l IH]; [by case_decide |]. cbn [List.filter].
  destruct (Z.eqb_spec z y) as [-> | Hne]; cbn [negb]; rewrite ?occ_cons, IH;
    repeat case_decide; subst; done.
Qed.

(** ** Frames *)
Create HintDb frame.

Lemma core_set_journal v f : core (set_journal v f) = core f. Proof. done. Qed.
Lemma core_emit d f : core (emit d f) = core f.
Proof. unfold emit. by destruct (journal f). Qed.
Lemma core_emit_all ds f : core (emit_all ds f) = core f.
Proof.
  unfold emit_all. revert f. induction ds as [|d ds IH]; intros f; [done |]. cbn. by rewrite IH, core_emit.
Qed.
Lemma core_register_link a b f : core (register_link a b f) = core f.
Proof. unfold register_link. by destruct (link_usage (graph f) !! (a, b)), (link_scores _ !! (a, b)). Qed.
Lemma core_purge id f : core (purge_tracking_for id f) = core f. Proof. done. Qed.
Lemma core_refresh f : core (refresh_important_cells f) = core f. Proof. done. Qed.
Lemma core_fold {A} (step : ClusterField -> A -> ClusterField) l :
  (forall f x, core (step f x) = core f) -> forall f, core (fold_left step l f) = core f.
Proof. intros Hs. induction l as [|x l IH]; intros f; [done |]. cbn. by rewrite IH, Hs. Qed.
Lemma core_link_tracking o id f : core (ensure_link_tracking o id f) = core f.
Proof. unfold ensure_link_tracking. destruct (_ !! id); [| done]. apply core_fold. intros. apply core_register_link. Qed.

Lemma journal_emit d f log : journal f = Some log -> journal (emit d f) = Some (log ++ [d]).
Proof. intros E. unfold emit. by rewrite E. Qed.
Lemma journal_emit_all ds : forall f log, journal f = Some log -> journal (emit_all ds f) = Some (log ++ ds).
Proof.
  unfold emit_all. induction ds as [|d ds IH]; intros f log E; cbn; [by rewrite app_nil_r |].
  rewrite (IH _ _ (journal_emit d f log E)). by rewrite <- app_assoc.
Qed.
Lemma journal_fold {A} (step : ClusterField -> A -> ClusterField) l :
  (forall f x, journal (step f x) = journal f) -> forall f, journal (fold_left step l f) = journal f.
Proof. intros Hs. induction l as [|x l IH]; intros f; [done |]. cbn. by rewrite IH, Hs. Qed.
Lemma journal_register_link a b f : journal (register_link a b f) = journal f.
Proof. unfold register_link. by destruct (link_usage (graph f) !! (a, b)), (link_scores _ !! (a, b)). Qed.
Lemma journal_link_tracking o id f : journal (ensure_link_tracking o id f) = journal f.
Proof. unfold ensure_link_tracking. destruct (_ !! id); [| done]. apply journal_fold. intros. apply journal_register_link. Qed.

(** Time. *)
Lemma now_emit d f : now_ms (emit d f) = now_ms f.
Proof. unfold emit. by destruct (journal f). Qed.
Lemma now_emit_all ds f : now_ms (emit_all ds f) = now_ms f.
Proof. unfold emit_all. revert f. induction ds as [|d ds IH]; intros f; [done |]. cbn. by rewrite IH, now_emit. Qed.
Lemma now_register_link a b f : now_ms (register_link a b f) = now_ms f.
Proof. unfold register_link. by destruct (link_usage (graph f) !! (a, b)), (link_scores _ !! (a, b)). Qed.
Lemma now_fold {A} (step : ClusterField -> A -> ClusterField) l :
  (forall f x, now_ms (step f x) = now_ms f) -> forall f, now_ms (fold_left step l f) = now_ms f.
Proof. intros Hs. induction l as [|x l IH]; intros f; [done |]. cbn. by rewrite IH, Hs. Qed.
Lemma now_link_tracking o id f : now_ms (ensure_link_tracking o id f) = now_ms f.
Proof. unfold ensure_link_tracking. destruct (_ !! id); [| done]. apply now_fold. intros. apply now_register_link. Qed.

(** What the journal also carries: the clock, the rules, the configuration of the cycles and the logs of
    their reports. *)
Record Logs : Type := mkLogs {
  lg_dreams : list (Z * DreamReport);
  lg_syncs : list (Z * SyncReport);
  lg_epochs : list Epoch;
  lg_replays : list ReplayReport
}.
Definition logs (f : ClusterField) : Logs :=
  mkLogs (dream_reports (cycles f)) (sync_reports (cycles f)) (mirror_epochs (cycles f)) (mirror_replays (cycles f)).
Definition setup (f : ClusterField) : Z * gmap Z ReflexRule * Z * DreamConfig * SyncConfig * Logs :=
  (now_ms f, rules (control f), next_reflex_id (control f), dream_cfg (cycles f), sync_cfg (cycles f), logs f).

Lemma setup_emit d f : setup (emit d f) = setup f.
Proof. unfold emit. by destruct (journal f). Qed.
Lemma setup_emit_all ds f : setup (emit_all ds f) = setup f.
Proof. unfold emit_all. revert f. induction ds as [|d ds IH]; intros f; [done |]. cbn. by rewrite IH, setup_emit. Qed.
Lemma setup_register_link a b f : setup (register_link a b f) = setup f.
Proof. unfold register_link. by destruct (link_usage (graph f) !! (a, b)), (link_scores _ !! (a, b)). Qed.
Lemma setup_fold {A} (step : ClusterField -> A -> ClusterField) l :
  (forall f x, setup (step f x) = setup f) -> forall f, setup (fold_left step l f) = setup f.
Proof. intros Hs. induction l as [|x l IH]; intros f; [done |]. cbn. by rewrite IH, Hs. Qed.
Lemma setup_link_tracking o id f : setup (ensure_link_tracking o id f) = setup f.
Proof. unfold ensure_link_tracking. destruct (_ !! id); [| done]. apply setup_fold. intros. apply setup_register_link. Qed.

Section inv.
Context `{UnicodeCase}.

Lemma setup_update_index id f : setup (update_index_for id f) = setup f.
Proof. unfold update_index_for. by destruct (cells (graph f) !! id). Qed.
Lemma setup_attach o c f : setup (attach_cell o c f) = setup f.
Proof. unfold attach_cell. by rewrite setup_link_tracking, setup_update_index. Qed.
Lemma setup_rebuild o f : setup (rebuild_index o f) = setup f.
Proof.
  unfold rebuild_index. rewrite setup_fold; [done |]. intros g x.
  by rewrite setup_link_tracking, setup_update_index.
Qed.

(** The next identifier, whatever the state. *)
Lemma next_core f f' : core f' = core f -> next_id (graph f') = next_id (graph f).
Proof. unfold core. by intros [= _ _ ->]. Qed.
Lemma next_update_index id f : next_id (graph (update_index_for id f)) = next_id (graph f).
Proof. unfold update_index_for. by destruct (cells (graph f) !! id). Qed.
Lemma next_attach o c f : next_id (graph (attach_cell o c f)) = next_id (graph f).
Proof. unfold attach_cell. by rewrite (next_core _ _ (core_link_tracking _ _ _)), next_update_index. Qed.
Lemma next_fold {A} (step : ClusterField -> A -> ClusterField) l :
  (forall f x, next_id (graph (step f x)) = next_id (graph f)) ->
  forall f, next_id (graph (fold_left step l f)) = next_id (graph f).
Proof. intros Hs. induction l as [|x l IH]; intros f; [done |]. cbn. by rewrite IH, Hs. Qed.
Lemma next_rebuild o f : next_id (graph (rebuild_index o f)) = next_id (graph f).
Proof.
  unfold rebuild_index. rewrite next_fold; [done |]. intros g x.
  by rewrite (next_core _ _ (core_link_tracking _ _ _)), next_update_index.
Qed.

(** ** The index *)
Lemma index_push tokens : forall (m : gmap string (list Z)) id i t,
  occ i (default [] (fold_left (fun m token => push_index m token id) tokens m !! t))
  = occ i (default [] (m !! t)) + if decide (i = id) then occ t tokens else 0.
Proof.
  induction tokens as [|u tokens IH]; intros m id i t; cbn [fold_left]; [case_decide; cbn; lia |].
  rewrite IH. unfold push_index. destruct (decide (u = t)) as [-> | Hne].
  - rewrite lookup_insert_eq. cbn [default from_option]. unfold Datatypes.id. rewrite occ_app, !occ_cons.
    repeat case_decide; subst; cbn; try congruence; lia.
  - rewrite lookup_insert_ne by done. rewrite occ_cons. repeat case_decide; try congruence; lia.
Qed.

Definition tokens_of (c : NodeCell) : list string := tokenize (core_pattern (c_seed c)).

Lemma update_index_spec id f c : cells (graph f) !! id = Some c ->
  core (update_index_for id f) = (cells (graph f), index (graph (update_index_for id f)), next_id (graph f)) /\
  journal (update_index_for id f) = journal f /\ now_ms (update_index_for id f) = now_ms f /\
  forall t i, occ i (default [] (index (graph (update_index_for id f)) !! t))
              = if decide (i = id) then occ t (tokens_of c) else occ i (default [] (index (graph f) !! t)).
Proof.
  intros E. unfold update_index_for. rewrite E. split_and!; try done. intros t i. cbn [index graph set_index on_graph].
  rewrite index_push, lookup_fmap.
  assert (occ i (default [] (List.filter (fun e => negb (e =? id)%Z) <$> index (graph f) !! t))
          = if decide (i = id) then 0 else occ i (default [] (index (graph f) !! t))) as ->.
  { destruct (index (graph f) !! t); cbn [fmap option_fmap option_map default from_option]; unfold Datatypes.id;
      [apply occ_filter_ne | by case_decide]. }
  case_decide; [done | lia].
Qed.

(** ** Well-formedness *)
Definition index_exact (cs : gmap Z NodeCell) (idx : gmap string (list Z)) : Prop :=
  forall t id, occ id (default [] (idx !! t)) = match cs !! id with Some c => occ t (tokens_of c) | None => 0 end.

Definition cells_wf (cs : gmap Z NodeCell) (next : Z) : Prop :=
  (0 < next)%Z /\
  map_Forall (fun id c => c_id c = id /\ (0 < id < next)%Z /\ forall to, to ∈ c_links c -> (0 < to < next)%Z) cs.

Definition core_wf (k : gmap Z NodeCell * gmap string (list Z) * Z) : Prop :=
  let '(cs, idx, next) := k in cells_wf cs next /\ index_exact cs idx.

Definition alive (cs : gmap Z NodeCell) : Prop := map_Forall (fun _ c => c_state c <> Dead) cs.

(** The invariant of the field. *)
Definition field_wf (f : ClusterField) : Prop := core_wf (core f) /\ alive (cells (graph f)).

Lemma cells_wf_mono cs n n' : (n <= n')%Z -> cells_wf cs n -> cells_wf cs n'.
Proof.
  intros Hn [Hpos Hf]. split; [lia |]. eapply map_Forall_impl; [exact Hf |]. cbn.
  intros id c (? & ? & Hl). split_and!; [done | lia | lia |]. intros to Hto. specialize (Hl to Hto). lia.
Qed.

(** A cell with an identifier below the next one joins. *)
Lemma attach_cell_spec o c f :
  core_wf (core f) -> (0 < c_id c < next_id (graph f))%Z ->
  (forall to, to ∈ c_links c -> (0 < to < next_id (graph f))%Z) ->
  core_wf (core (attach_cell o c f)) /\
  cells (graph (attach_cell o c f)) = <[c_id c := c]> (cells (graph f)) /\
  next_id (graph (attach_cell o c f)) = next_id (graph f) /\
  journal (attach_cell o c f) = journal f /\ now_ms (attach_cell o c f) = now_ms f.
Proof.
  intros [[Hpos Hcs] Hidx] Hid Hlinks. unfold attach_cell.
  set (f1 := set_cells _ f).
  assert (cells (graph f1) !! c_id c = Some c) as E by apply lookup_insert_eq.
  destruct (update_index_spec (c_id c) f1 c E) as (Hc & Hj & Hn & Ho).
  set (f2 := update_index_for (c_id c) f1) in *.
  rewrite core_link_tracking, journal_link_tracking, now_link_tracking.
  pose proof (core_link_tracking o (c_id c) f2) as Hl. rewrite Hc in Hl. unfold core in Hl.
  injection Hl as Hl1 _ Hl3. rewrite Hl1, Hl3. split_and!; try done.
  rewrite Hc. split.
  - split; [done |]. apply map_Forall_insert_2; [done | exact Hcs].
  - intros t id. rewrite Ho. cbn [cells graph f1 set_cells on_graph index].
    destruct (decide (id = c_id c)) as [-> | Hne]; [by rewrite lookup_insert_eq |].
    rewrite lookup_insert_ne by done. apply Hidx.
Qed.

(** The index is rebuilt from the cells alone. *)
Lemma rebuild_loop o ids : forall f,
  NoDup ids -> (forall id, id ∈ ids -> is_Some (cells (graph f) !! id)) ->
  (forall t id, id ∈ ids -> occ id (default [] (index (graph f) !! t)) = 0) ->
  let f' := fold_left (fun f id => ensure_link_tracking o id (update_index_for id f)) ids f in
  cells (graph f') = cells (graph f) /\ next_id (graph f') = next_id (graph f) /\
  journal f' = journal f /\ now_ms f' = now_ms f /\
  forall t id, occ id (default [] (index (graph f') !! t))
    = if decide (id ∈ ids) then match cells (graph f) !! id with Some c => occ t (tokens_of c) | None => 0 end
      else occ id (default [] (index (graph f) !! t)).
Proof.
  induction ids as [|k ids IH]; intros f Hnd Hin Hz; cbn [fold_left]; [done |].
  apply NoDup_cons in Hnd as [Hk Hnd]. destruct (Hin k ltac:(left)) as [c Ec].
  destruct (update_index_spec k f c Ec) as (Hc & Hj & Hn & Ho).
  set (f1 := ensure_link_tracking o k (update_index_for k f)).
  assert (core f1 = core (update_index_for k f)) as Hc1 by apply core_link_tracking.
  rewrite Hc in Hc1. unfold core in Hc1. injection Hc1 as E1 E2 E3.
  destruct (IH f1 Hnd) as (H1 & H2 & H3 & H4 & H5).
  - intros id Hid. rewrite E1. apply Hin. by right.
  - intros t id Hid. rewrite E2, Ho. rewrite decide_False by (intros ->; done). apply Hz. by right.
  - split_and!; [congruence | congruence | | |].
    + rewrite H3. unfold f1. by rewrite journal_link_tracking, Hj.
    + rewrite H4. unfold f1. by rewrite now_link_tracking, Hn.
    + intros t id. rewrite H5, E1, E2, Ho. destruct (decide (id = k)) as [-> | Hne].
      * rewrite decide_False by done. rewrite decide_True by left. by rewrite Ec.
      * destruct (decide (id ∈ ids)) as [Hi | Hi].
        -- by rewrite decide_True by (by right).
        -- rewrite decide_False; [done |]. by intros [? | ?]%elem_of_cons.
Qed.

Lemma rebuild_index_spec o f :
  cells_wf (cells (graph f)) (next_id (graph f)) ->
  core_wf (core (rebuild_index o f)) /\
  cells (graph (rebuild_index o f)) = cells (graph f) /\ next_id (graph (rebuild_index o f)) = next_id (graph f) /\
  journal (rebuild_index o f) = journal f /\ now_ms (rebuild_index o f) = now_ms f.
Proof.
  intros Hcs. unfold rebuild_index.
  destruct (rebuild_loop o (hm_keys o (cells (graph f))) (set_index ∅ f)) as (H1 & H2 & H3 & H4 & H5).
  - apply hm_keys_NoDup.
  - intros id Hid. by apply elem_of_hm_keys in Hid.
  - done.
  - split_and!; [| done | done | done | done]. split; [by rewrite H1, H2 |].
    intros t id. rewrite H5, H1. case_decide as Hin; [done |]. cbn.
    rewrite elem_of_hm_keys in Hin. destruct (cells (graph f) !! id) eqn:E; [exfalso; eauto | done].
Qed.

(** An update of the cells that keeps identity. *)
Definition keeps (next : Z) (c c' : NodeCell) : Prop :=
  c_id c' = c_id c /\ core_pattern (c_seed c') = core_pattern (c_seed c) /\
  (forall to, to ∈ c_links c' -> to ∈ c_links c \/ (0 < to < next)%Z).

Lemma keeps_cells cs cs' idx next :
  core_wf (cs, idx, next) ->
  (forall id, match cs !! id, cs' !! id with
              | Some c, Some c' => keeps next c c'
              | None, None => True
              | _, _ => False
              end) -> core_wf (cs', idx, next).
Proof.
  intros [[Hpos Hcs] Hidx] Hk. split; [split; [done |] |].
  - intros id c' E. specialize (Hk id). rewrite E in Hk. destruct (cs !! id) as [c|] eqn:Ec; [| done].
    destruct (Hcs id c Ec) as (Hi & Hr & Hl). destruct Hk as (Hi' & _ & Hl').
    split_and!; [congruence | lia | lia |]. intros to Hto. destruct (Hl' to Hto) as [? |]; [by apply Hl | done].
  - intros t id. rewrite Hidx. specialize (Hk id).
    destruct (cs !! id) as [c|], (cs' !! id) as [c'|]; try done.
    destruct Hk as (_ & Hp & _). unfold tokens_of. by rewrite Hp.
Qed.

Lemma keeps_insert cs idx next id c c' :
  core_wf (cs, idx, next) -> cs !! id = Some c -> keeps next c c' -> core_wf (<[id := c']> cs, idx, next).
Proof.
  intros Hwf E Hk. apply (keeps_cells cs); [done |]. intros i.
  destruct (decide (id = i)) as [-> | Hne]; [by rewrite E, lookup_insert_eq |].
  rewrite lookup_insert_ne by done. destruct (cs !! i) as [d|]; [| done].
  split_and!; [done | done | by left].
Qed.

Lemma alive_insert cs id c : alive cs -> c_state c <> Dead -> alive (<[id := c]> cs).
Proof. intros Ha Hc. by apply map_Forall_insert_2. Qed.
End inv.

#[export] Hint Rewrite core_emit core_emit_all core_register_link core_purge core_refresh core_link_tracking
  now_emit now_emit_all now_register_link now_link_tracking journal_register_link journal_link_tracking : frame.
