(* ===== verification/FieldReplay.v ===== *)
(** * The cluster field: what a delta says about a cell

    [effect d id] is what the delta does to the cell [id]; [apply_delta] does exactly that to every
    cell. The skeleton of a cell is what every delta that changes the graph carries; the vital signs
    are what an [Energy] delta carries. *)

From stdpp Require Import prelude gmap strings fin_maps fin_sets list sorting.
From Stdlib Require Import ZArith Lia SpecFloat.
From S2P Require Import Prelude RustStr RustOrd Float RustText Json NodeCell Trs Seeds Symmetry FieldTypes Feedback Variant Resonant Journal Collections Field FieldOps FieldInv FieldTick.
From S2P Require Views.

Definition Skeleton : Type := Z * string * f32 * gset Z.
Definition skel (c : NodeCell) : Skeleton :=
  (c_id c, core_pattern (c_seed c), base_metabolism (c_seed c), c_links c).
Definition add_link (to : Z) (s : Skeleton) : Skeleton := (s.1, s.2 ∪ {[to]}).
Definition drop_link (to : Z) (s : Skeleton) : Skeleton := (s.1, s.2 ∖ {[to]}).

(** What a subscriber of the journal can know of a cell. *)
Definition vital_signs (c : NodeCell) : f32 * f32 * NodeState * Z :=
  (c_energy c, c_metabolism c, c_state c, c_last_response_ms c).
Definition observed (c : NodeCell) : Skeleton * (f32 * f32 * NodeState * Z) := (skel c, vital_signs c).

Definition with_link (to : Z) (c : NodeCell) : NodeCell := set_links (c_links c ∪ {[to]}) c.
Definition without_link (to : Z) (c : NodeCell) : NodeCell := set_links (c_links c ∖ {[to]}) c.

Definition effect (d : EventDelta) (id : Z) (x : option NodeCell) : option NodeCell :=
  match d with
  | DSpawn s => if decide (id = cn_id s) then Some (snapshot_to_node s) else x
  | DDivide p s =>
      if decide (id = cn_id s) then Some (snapshot_to_node s)
      else if decide (id = p) then with_link (cn_id s) <$> x else x
  | DSleep i => if decide (id = i) then set_state Sleep <$> x else x
  | DDead i => if decide (id = i) then None else x
  | DLink a b | DDreamRewire a b => if decide (id = a) then with_link b <$> x else x
  | DUnlink a b | DDreamPrune a b => if decide (id = a) then without_link b <$> x else x
  | DAffinity i a => if decide (id = i) then restore_affinity a <$> x else x
  | DEnergy e => if decide (id = ed_id e) then restore_energy e <$> x else x
  | _ => x
  end.

Definition sk_effect (d : EventDelta) (id : Z) (x : option Skeleton) : option Skeleton :=
  match d with
  | DSpawn s => if decide (id = cn_id s) then Some (skel (snapshot_to_node s)) else x
  | DDivide p s =>
      if decide (id = cn_id s) then Some (skel (snapshot_to_node s))
      else if decide (id = p) then add_link (cn_id s) <$> x else x
  | DDead i => if decide (id = i) then None else x
  | DLink a b | DDreamRewire a b => if decide (id = a) then add_link b <$> x else x
  | DUnlink a b | DDreamPrune a b => if decide (id = a) then drop_link b <$> x else x
  | _ => x
  end.

Definition effects (ds : list EventDelta) (id : Z) (x : option NodeCell) : option NodeCell :=
  fold_left (fun x d => effect d id x) ds x.
Definition sk_effects (ds : list EventDelta) (id : Z) (x : option Skeleton) : option Skeleton :=
  fold_left (fun x d => sk_effect d id x) ds x.

Lemma sk_effects_app ds ds' id x : sk_effects (ds ++ ds') id x = sk_effects ds' id (sk_effects ds id x).
Proof. unfold sk_effects. apply fold_left_app. Qed.
Lemma effects_app ds ds' id x : effects (ds ++ ds') id x = effects ds' id (effects ds id x).
Proof. unfold effects. apply fold_left_app. Qed.

Lemma effect_skel d id x : skel <$> effect d id x = sk_effect d id (skel <$> x).
Proof. destruct d; cbn; repeat case_decide; try done; by destruct x. Qed.

Lemma effects_skel ds id : forall x, skel <$> effects ds id x = sk_effects ds id (skel <$> x).
Proof.
  unfold effects, sk_effects. induction ds as [|d ds IH]; intros x; [done |]. cbn.
  by rewrite IH, effect_skel.
Qed.

(** A cell that is not dead, if it is there at all; and deltas that bring none back dead. *)
Definition living (x : option NodeCell) : Prop := match x with Some c => c_state c <> Dead | None => True end.
Definition calm (ds : list EventDelta) : Prop := forall id x, living x -> living (effects ds id x).
Definition calm_delta (d : EventDelta) : Prop :=
  match d with
  | DSpawn s | DDivide _ s => cn_state s <> Dead
  | DEnergy e => ed_state e <> Dead
  | _ => True
  end.

Lemma calm_nil : calm []. Proof. by intros id x. Qed.
Lemma calm_app ds ds' : calm ds -> calm ds' -> calm (ds ++ ds').
Proof. intros H1 H2 id x Hx. rewrite effects_app. by apply H2, H1. Qed.
Lemma calm_one d : calm_delta d -> calm [d].
Proof. intros Hd id x Hx. destruct d; cbn in *; repeat case_decide; try done; by destruct x. Qed.
Lemma calm_all ds : Forall (fun d => calm [d]) ds -> calm ds.
Proof. induction 1 as [|d ds Hd _ IH]; [apply calm_nil |]. by apply (calm_app [d] ds). Qed.
Lemma calm_concat {A} (h : A -> list EventDelta) l : (forall k, calm (h k)) -> calm (concat (map h l)).
Proof. intros Hh. induction l as [|k l IH]; [apply calm_nil |]. by apply calm_app. Qed.
#[export] Hint Resolve calm_nil calm_app calm_one : frame.

Section replay.
Context `{UnicodeCase}.

(** What a delta says about the next identifier, and about the setup. *)
Definition next_effect (d : EventDelta) (n : Z) : Z :=
  match d with
  | DSpawn s | DDivide _ s => Z.max n (u64_add (cn_id s) 1)
  | _ => n
  end.
Definition next_effects (ds : list EventDelta) (n : Z) : Z := fold_left (fun n d => next_effect d n) ds n.

Definition Setup : Type := Z * gmap Z ReflexRule * Z * DreamConfig * SyncConfig * Logs.

(** What a delta adds to the logs. *)
Definition log_effect (d : EventDelta) (l : Logs) : Logs :=
  match d with
  | DDreamReport now r => mkLogs (last_n 16 (lg_dreams l ++ [(now, r)])) (lg_syncs l) (lg_epochs l) (lg_replays l)
  | DCollectiveDreamReport now r =>
      mkLogs (lg_dreams l) (last_n 16 (lg_syncs l ++ [(now, r)])) (lg_epochs l) (lg_replays l)
  | DMirrorEpoch e =>
      mkLogs (lg_dreams l) (lg_syncs l) (last_n MIRROR_EPOCH_LIMIT (lg_epochs l ++ [e])) (lg_replays l)
  | DMirrorReplay r =>
      mkLogs (lg_dreams l) (lg_syncs l) (lg_epochs l) (last_n MIRROR_REPLAY_LIMIT (lg_replays l ++ [r]))
  | _ => l
  end.
Definition setup_effect (d : EventDelta) (s : Setup) : Setup :=
  let '(now, rs, next, dream, sync, l) := s in
  match d with
  | DTick now' => (now', rs, next, dream, sync, l)
  | DReflexAdd r => (now, <[r_id r := lower_rule r]> rs, Z.max next (u64_add (r_id r) 1), dream, sync, l)
  | DReflexRemove id => (now, delete id rs, next, dream, sync, l)
  | DDreamConfig cfg => (now, rs, next, cfg, sync, l)
  | DSyncConfig cfg => (now, rs, next, dream, cfg, l)
  | _ => (now, rs, next, dream, sync, log_effect d l)
  end.
Definition setup_effects (ds : list EventDelta) (s : Setup) : Setup := fold_left (fun s d => setup_effect d s) ds s.

(** The setup as the journal tells it: a replica lowers the token of a rule once more. *)
Definition tell (s : Setup) : Setup :=
  let '(now, rs, next, dream, sync, l) := s in (now, lower_rule <$> rs, next, dream, sync, l).

Lemma next_effects_app ds ds' n : next_effects (ds ++ ds') n = next_effects ds' (next_effects ds n).
Proof. unfold next_effects. apply fold_left_app. Qed.
Lemma setup_effects_app ds ds' s : setup_effects (ds ++ ds') s = setup_effects ds' (setup_effects ds s).
Proof. unfold setup_effects. apply fold_left_app. Qed.

(** Deltas that say nothing of the skeletons, of the next identifier and of the setup. *)
Definition neutral (d : EventDelta) : Prop :=
  (forall id x, sk_effect d id x = x) /\ (forall n, next_effect d n = n) /\ (forall s, setup_effect d s = s) /\ calm [d].

Lemma neutral_ok d :
  match d with
  | DTick _ | DSpawn _ | DDivide _ _ | DDead _ | DLink _ _ | DUnlink _ _ | DDreamPrune _ _ | DDreamRewire _ _
  | DReflexAdd _ | DReflexRemove _ | DDreamConfig _ | DSyncConfig _
  | DDreamReport _ _ | DCollectiveDreamReport _ _ | DMirrorEpoch _ | DMirrorReplay _ => False
  | DEnergy e => ed_state e <> Dead
  | _ => True
  end -> neutral d.
Proof.
  intros Hd. split_and!; [by destruct d | by destruct d | | by apply calm_one; destruct d].
  intros [[[[[? ?] ?] ?] ?] ?]. by destruct d.
Qed.
Lemma calm_neutral ds : Forall neutral ds -> calm ds.
Proof. intros Hn. apply calm_all. eapply Forall_impl; [exact Hn |]. by intros d (_ & _ & _ & Hc). Qed.

Lemma sk_effects_neutral ds id x : Forall neutral ds -> sk_effects ds id x = x.
Proof.
  intros Hn. revert x. induction Hn as [|d ds (Hd & _) Hn IH]; intros x; [done |]. cbn. rewrite Hd. apply IH.
Qed.
Lemma next_effects_neutral ds n : Forall neutral ds -> next_effects ds n = n.
Proof.
  intros Hn. revert n. induction Hn as [|d ds (_ & Hd & _) Hn IH]; intros n; [done |]. cbn. rewrite Hd. apply IH.
Qed.
Lemma setup_effects_neutral ds s : Forall neutral ds -> setup_effects ds s = s.
Proof.
  intros Hn. revert s. induction Hn as [|d ds (_ & _ & Hd & _) Hn IH]; intros s; [done |]. cbn. rewrite Hd. apply IH.
Qed.

Lemma cells_update_cell id i u f :
  cells (graph (update_cell i u f)) !! id = if decide (id = i) then u <$> (cells (graph f) !! id) else cells (graph f) !! id.
Proof.
  unfold update_cell. destruct (cells (graph f) !! i) as [c|] eqn:E.
  - cbn. case_decide; subst; [by rewrite lookup_insert_eq, E | by rewrite lookup_insert_ne].
  - case_decide; subst; [by rewrite E | done].
Qed.

Lemma cells_core f f' : core f = core f' -> cells (graph f) = cells (graph f').
Proof. unfold core. by intros [= -> _ _]. Qed.

Lemma cells_insert_link id a b f :
  cells (graph (insert_link a b f)) !! id
  = if decide (id = a) then with_link b <$> (cells (graph f) !! id) else cells (graph f) !! id.
Proof.
  unfold insert_link. destruct (cells (graph f) !! a) as [c|] eqn:E.
  - destruct (decide (b ∈ c_links c)) as [Hb | Hb].
    + case_decide; subst; [| done]. rewrite E. cbn. f_equal. unfold with_link.
      replace (c_links c ∪ {[b]}) with (c_links c) by set_solver. by destruct c.
    + rewrite (cells_core _ _ (core_register_link a b _)). cbn.
      case_decide; subst; [by rewrite lookup_insert_eq, E | by rewrite lookup_insert_ne].
  - case_decide; subst; [by rewrite E | done].
Qed.

Lemma cells_update_index id f : cells (graph (update_index_for id f)) = cells (graph f).
Proof. unfold update_index_for. by destruct (cells (graph f) !! id). Qed.

Lemma cells_attach o c f : cells (graph (attach_cell o c f)) = <[c_id c := c]> (cells (graph f)).
Proof.
  unfold attach_cell. rewrite (cells_core _ _ (core_link_tracking _ _ _)). by rewrite cells_update_index.
Qed.

Lemma cells_rebuild o f : cells (graph (rebuild_index o f)) = cells (graph f).
Proof.
  unfold rebuild_index. generalize (hm_keys o (cells (graph f))). intros ids.
  change (cells (graph f)) with (cells (graph (set_index ∅ f))). generalize (set_index ∅ f).
  induction ids as [|k ids IH]; intros g; [done |]. cbn. rewrite IH.
  by rewrite (cells_core _ _ (core_link_tracking _ _ _)), cells_update_index.
Qed.

(** [apply_delta] does to each cell what the delta says. *)
Lemma cells_apply_delta o f d id :
  cells (graph (apply_delta o f d)) !! id = effect d id (cells (graph f) !! id).
Proof.
  destruct d; cbn [apply_delta effect];
    rewrite ?cells_update_cell, ?cells_insert_link; try done.
  - cbn. rewrite cells_attach. cbn. case_decide; subst; [by rewrite lookup_insert_eq | by rewrite lookup_insert_ne].
  - cbn. rewrite cells_attach. cbn. destruct (decide (id = cn_id child)) as [-> | Hne].
    + by rewrite lookup_insert_eq.
    + rewrite lookup_insert_ne by done. apply cells_insert_link.
  - cbn. rewrite cells_rebuild. cbn. case_decide; subst; [by rewrite lookup_delete_eq | by rewrite lookup_delete_ne].
  - destruct (cells (graph f) !! from) as [c|] eqn:E; [| case_decide; subst; [by rewrite E | done]].
    destruct (decide (to ∈ c_links c)) as [Ht | Ht].
    + cbn. case_decide; subst; [by rewrite lookup_insert_eq, E | by rewrite lookup_insert_ne].
    + case_decide; subst; [| done]. rewrite E. cbn. f_equal. unfold without_link.
      replace (c_links c ∖ {[to]}) with (c_links c) by set_solver. by destruct c.
  - cbn. apply cells_update_cell.
  - by destruct hash.
  - by destruct hash, (last_applied (resonant_model (cycles f))) eqn:E; cbn; rewrite ?E.
Qed.

(** A journal replayed in some order of visits per delta. *)
Definition replay_all (ds : list (HashOrder * EventDelta)) (f : ClusterField) : ClusterField :=
  fold_left (fun f p => apply_delta p.1 f p.2) ds f.

Lemma cells_replay ds : forall f id,
  cells (graph (replay_all ds f)) !! id = effects ds.*2 id (cells (graph f) !! id).
Proof.
  unfold replay_all, effects. induction ds as [|[o d] ds IH]; intros f id; [done |].
  cbn. by rewrite IH, cells_apply_delta.
Qed.

(** The next identifier and the setup of the replica. *)
Lemma next_update_cell i u f : next_id (graph (update_cell i u f)) = next_id (graph f).
Proof. unfold update_cell. by destruct (cells (graph f) !! i). Qed.
Lemma setup_update_cell i u f : setup (update_cell i u f) = setup f.
Proof. unfold update_cell. by destruct (cells (graph f) !! i). Qed.
Lemma next_insert_link a b f : next_id (graph (insert_link a b f)) = next_id (graph f).
Proof.
  unfold insert_link. destruct (cells (graph f) !! a); [case_decide |]; [done | | done].
  by rewrite (next_core _ _ (core_register_link _ _ _)).
Qed.
Lemma setup_insert_link a b f : setup (insert_link a b f) = setup f.
Proof.
  unfold insert_link. destruct (cells (graph f) !! a); [case_decide |]; [done | | done].
  by rewrite setup_register_link.
Qed.

Lemma next_apply_delta o f d : next_id (graph (apply_delta o f d)) = next_effect d (next_id (graph f)).
Proof.
  destruct d; cbn [apply_delta next_effect]; rewrite ?next_update_cell, ?next_insert_link; try done.
  - cbn. by rewrite next_attach.
  - cbn. by rewrite next_attach, next_insert_link.
  - cbn. by rewrite next_rebuild.
  - destruct (cells (graph f) !! from); [case_decide |]; done.
  - cbn. by rewrite next_update_cell.
  - by destruct hash.
  - by destruct hash, (last_applied (resonant_model (cycles f))) eqn:E; cbn; rewrite ?E.
Qed.

Lemma setup_apply_delta o f d : setup (apply_delta o f d) = setup_effect d (setup f).
Proof.
  destruct d; cbn [apply_delta]; try done.
  - change (setup (attach_cell o (snapshot_to_node cell) f) = setup f). apply setup_attach.
  - change (setup (attach_cell o (snapshot_to_node child) (insert_link parent (cn_id child) f)) = setup f).
    by rewrite setup_attach, setup_insert_link.
  - apply setup_update_cell.
  - change (setup (rebuild_index o (set_cells (delete id (cells (graph f))) f)) = setup f). by rewrite setup_rebuild.
  - apply setup_insert_link.
  - destruct (cells (graph f) !! from); [case_decide |]; done.
  - apply setup_update_cell.
  - apply setup_update_cell.
  - change (setup (update_cell from (fun c => set_links (c_links c ∖ {[to]}) c) f) = setup f). apply setup_update_cell.
  - apply setup_insert_link.
  - by destruct hash.
  - by destruct hash, (last_applied (resonant_model (cycles f))) eqn:E; cbn; rewrite ?E.
Qed.

Lemma next_replay ds : forall f, next_id (graph (replay_all ds f)) = next_effects ds.*2 (next_id (graph f)).
Proof.
  unfold replay_all, next_effects. induction ds as [|[o d] ds IH]; intros f; [done |].
  cbn. by rewrite IH, next_apply_delta.
Qed.
Lemma setup_replay ds : forall f, setup (replay_all ds f) = setup_effects ds.*2 (setup f).
Proof.
  unfold replay_all, setup_effects. induction ds as [|[o d] ds IH]; intros f; [done |].
  cbn. by rewrite IH, setup_apply_delta.
Qed.
End replay.
