(* ===== verification/FieldSteps.v ===== *)
(** * The cluster field: sound steps

    [ok_step n f f']: the step keeps the field well formed, gives out at most [n] identifiers,
    leaves the clock and the rules alone, and what it appends to the journal accounts for every
    change of the cells' skeletons. Impulses are such steps. *)

From stdpp Require Import prelude gmap strings fin_maps fin_sets list sorting.
From Stdlib Require Import ZArith Lia SpecFloat.
From S2P Require Import Prelude RustStr RustOrd Float RustText Json NodeCell Trs Seeds Symmetry FieldTypes Feedback Variant Resonant Journal Collections Field FieldOps FieldRoute FieldTick FieldInv FieldReplay.
From S2P Require Views.

Section steps.
Context `{UnicodeCase}.

(** The journal of [f'] extends the one of [f] by [ds], which accounts for the skeletons, the next
    identifier and the setup, and brings no cell back dead. *)
Definition accounts (ds : list EventDelta) (f f' : ClusterField) : Prop :=
  (forall log, journal f = Some log -> journal f' = Some (log ++ ds)) /\
  (forall id, skel <$> (cells (graph f') !! id) = sk_effects ds id (skel <$> (cells (graph f) !! id))) /\
  next_id (graph f') = next_effects ds (next_id (graph f)) /\
  tell (setup f') = setup_effects ds (tell (setup f)) /\
  calm ds.

Record ok_step (n : Z) (f f' : ClusterField) : Prop := {
  os_wf : field_wf f';
  os_next : (next_id (graph f) <= next_id (graph f') <= next_id (graph f) + n)%Z;
  os_setup : setup f' = setup f;
  os_log : exists ds, accounts ds f f'
}.

Lemma accounts_trans ds1 ds2 f f1 f2 : accounts ds1 f f1 -> accounts ds2 f1 f2 -> accounts (ds1 ++ ds2) f f2.
Proof.
  intros (J1 & S1 & N1 & U1 & C1) (J2 & S2 & N2 & U2 & C2). split_and!; [.. | by apply calm_app].
  - intros log E. rewrite app_assoc. by apply J2, J1.
  - intros id. by rewrite S2, S1, sk_effects_app.
  - by rewrite N2, N1, next_effects_app.
  - by rewrite U2, U1, setup_effects_app.
Qed.

Lemma ok_trans n m f f1 f2 : ok_step n f f1 -> ok_step m f1 f2 -> ok_step (n + m) f f2.
Proof.
  intros [W1 N1 T1 [ds1 L1]] [W2 N2 T2 [ds2 L2]]. split; [done | lia | congruence |].
  exists (ds1 ++ ds2). by eapply accounts_trans.
Qed.

Lemma os_rules n f f' : ok_step n f f' -> rules (control f') = rules (control f).
Proof. intros Hs. pose proof (os_setup _ _ _ Hs) as E. unfold setup in E. by injection E. Qed.

Lemma ok_weaken n m f f' : (n <= m)%Z -> ok_step n f f' -> ok_step m f f'.
Proof. intros Hn [W N T L]. split; try done. lia. Qed.

Lemma field_wf_core f f' : core f' = core f -> field_wf f -> field_wf f'.
Proof. intros E [Hw Ha]. split; [by rewrite E |]. by rewrite (cells_core _ _ E). Qed.

Lemma ok_frame f f' :
  field_wf f -> core f' = core f -> journal f' = journal f -> setup f' = setup f -> ok_step 0 f f'.
Proof.
  intros Hw Hc Hj Hs. split; try done.
  - by eapply field_wf_core.
  - rewrite (next_core _ _ Hc). lia.
  - exists []. split_and!; [intros log E; by rewrite Hj, app_nil_r | | by rewrite (next_core _ _ Hc) | by rewrite Hs | apply calm_nil].
    intros id. by rewrite (cells_core _ _ Hc).
Qed.

Lemma ok_emit d f : field_wf f -> neutral d -> ok_step 0 f (emit d f).
Proof.
  intros Hw (Hd1 & Hd2 & Hd3 & Hd4). pose proof (next_core _ _ (core_emit d f)) as Hn.
  split; [| lia | apply setup_emit |].
  - eapply field_wf_core; [apply core_emit | done].
  - exists [d]. split_and!; [intros log; apply journal_emit | | by unfold next_effects; cbn [fold_left]; rewrite Hd2
      | by unfold setup_effects; cbn [fold_left]; rewrite Hd3, setup_emit | done].
    intros id. rewrite (cells_core _ _ (core_emit d f)). cbn. by rewrite Hd1.
Qed.

Lemma ok_emit_all ds : forall f, field_wf f -> Forall neutral ds -> ok_step 0 f (emit_all ds f).
Proof.
  unfold emit_all. induction ds as [|d ds IH]; intros f Hw Hd; cbn [fold_left]; [by apply ok_frame |].
  apply Forall_cons_1 in Hd as [Hd Hds]. pose proof (ok_emit d f Hw Hd) as Hs.
  eapply (ok_trans 0 0); [exact Hs |]. apply IH; [apply Hs | done].
Qed.

Lemma neutral_energy id c : c_state c <> Dead -> neutral (energy_of id c). Proof. intros Hc. by apply neutral_ok. Qed.

Lemma skel_keeps next c c' : skel c' = skel c -> keeps next c c'.
Proof. unfold skel. intros [= Hi Hp _ Hl]. split_and!; [done | done |]. intros to. rewrite Hl. by left. Qed.

(** A cell changes, its skeleton does not. *)
Lemma ok_cell id c c' f :
  field_wf f -> cells (graph f) !! id = Some c -> skel c' = skel c -> c_state c' <> Dead ->
  ok_step 0 f (set_cells (<[id := c']> (cells (graph f))) f).
Proof.
  intros [Hw Ha] E Hs Hd. split; try done.
  - split; [eapply keeps_insert; [exact Hw | exact E | by apply skel_keeps] | by apply alive_insert].
  - cbn. lia.
  - exists []. split_and!; [intros log El; cbn; by rewrite app_nil_r | | done | done | apply calm_nil]. intros i. cbn.
    destruct (decide (id = i)) as [-> | Hne]; [by rewrite lookup_insert_eq, E; cbn; rewrite Hs |].
    by rewrite lookup_insert_ne.
Qed.

(** A new cell. *)
Lemma ok_spawn o c f :
  field_wf f -> c_id c = next_id (graph f) -> c_links c = ∅ -> c_state c <> Dead ->
  (next_id (graph f) + 1 < u64_size)%Z ->
  ok_step 1 f (spawn_cell o c (set_next_id (u64_add (next_id (graph f)) 1) f)) /\
  cells (graph f) !! c_id c = None.
Proof.
  intros [[[Hpos Hcs] Hidx] Ha] Hid Hl Hd Hn.
  assert (cells (graph f) !! c_id c = None) as Hfresh.
  { destruct (cells (graph f) !! c_id c) as [c'|] eqn:E; [| done].
    destruct (Hcs _ _ E) as (_ & Hr & _). lia. }
  split; [| done]. set (f1 := set_next_id _ f).
  assert (next_id (graph f1) = next_id (graph f) + 1)%Z as En1.
  { cbn. apply u64_add_small. unfold u64_size in *. lia. }
  assert (core_wf (core f1)) as Hw1.
  { unfold core. rewrite En1. split; [| exact Hidx]. eapply cells_wf_mono; [| split; [exact Hpos | exact Hcs]]. lia. }
  destruct (attach_cell_spec o c f1 Hw1) as (Hw2 & Hc2 & Hn2 & Hj2 & Ht2).
  { rewrite En1, Hid. lia. }
  { rewrite Hl. set_solver. }
  unfold spawn_cell. pose proof (next_core _ _ (core_emit (DSpawn (snapshot_of_cell c)) (attach_cell o c f1))) as En.
  split.
  - split; [by rewrite core_emit |]. rewrite (cells_core _ _ (core_emit _ _)), Hc2. by apply alive_insert.
  - lia.
  - by rewrite setup_emit, setup_attach.
  - exists [DSpawn (snapshot_of_cell c)]. split_and!; [.. | by apply calm_one].
    + intros log E. apply journal_emit. by rewrite Hj2.
    + intros id. rewrite (cells_core _ _ (core_emit _ _)), Hc2. cbn [sk_effects fold_left sk_effect].
      change (cn_id (snapshot_of_cell c)) with (c_id c). rewrite snapshot_roundtrip.
      destruct (decide (id = c_id c)) as [-> | Hne]; [by rewrite lookup_insert_eq |].
      by rewrite lookup_insert_ne.
    + cbn. rewrite En, Hn2, En1, Hid, u64_add_small by (unfold u64_size in *; lia). lia.
    + unfold setup_effects. cbn [fold_left]. rewrite setup_emit, setup_attach.
      by destruct (tell (setup f1)) as [[[[[? ?] ?] ?] ?] ?] eqn:Et; rewrite <- Et.
Qed.

(** A loop of steps, on a state that contains the field. *)
Lemma ok_fold {S A} (pr : S -> ClusterField) (step : S -> A -> S) n l (P : S -> Prop) : forall s,
  (0 <= n)%Z -> field_wf (pr s) ->
  (forall s x, x ∈ l -> field_wf (pr s) -> P s -> (next_id (graph (pr s)) + n < u64_size)%Z ->
   ok_step n (pr s) (pr (step s x)) /\ P (step s x)) ->
  P s -> (next_id (graph (pr s)) + n * Z.of_nat (length l) < u64_size)%Z ->
  ok_step (n * Z.of_nat (length l)) (pr s) (pr (fold_left step l s)) /\ P (fold_left step l s).
Proof.
  induction l as [|x l IH]; intros s Hn Hw Hs Hp Hr; cbn [fold_left].
  { split; [| done]. replace (n * _)%Z with 0%Z by (cbn; lia). by apply ok_frame. }
  cbn [length] in *. destruct (Hs s x ltac:(left) Hw Hp ltac:(lia)) as [Hx Hpx].
  destruct (IH (step s x) Hn) as [Hl Hpl]; try done; [apply Hx | | |].
  - intros g y Hy. apply Hs. by right.
  - pose proof (os_next _ _ _ Hx). lia.
  - split; [| done]. eapply ok_weaken; [| eapply ok_trans; [exact Hx | exact Hl]]. lia.
Qed.

(** Loops that give out no identifier. *)
Lemma ok_fold0 {S A} (pr : S -> ClusterField) (step : S -> A -> S) l s :
  field_wf (pr s) -> (next_id (graph (pr s)) < u64_size)%Z ->
  (forall s x, field_wf (pr s) -> ok_step 0 (pr s) (pr (step s x))) ->
  ok_step 0 (pr s) (pr (fold_left step l s)).
Proof.
  intros Hw Hr Hs. destruct (ok_fold pr step 0 l (fun _ => True) s) as [Hok _]; try done; [| lia].
  intros s' x _ Hw' _ _. split; [by apply Hs | done].
Qed.
End steps.

(** ** Impulses *)
Section route.
Context `{UnicodeCase, SeedRng}.
Variable o : HashOrder.

Lemma ok_spawn_seed rule_id seed shift f :
  field_wf f -> (next_id (graph f) + 1 < u64_size)%Z ->
  ok_step 1 f (fst (perform_spawn_seed o rule_id seed shift f)).
Proof.
  intros Hw Hn. unfold perform_spawn_seed. cbn [fst].
  set (c := set_seed _ _). by apply (ok_spawn o c f).
Qed.

Lemma ok_wake_one acc id : field_wf (fst acc) -> ok_step 0 (fst acc) (fst (wake_one acc id)).
Proof.
  destruct acc as [f woke]. cbn [fst]. intros Hw. unfold wake_one.
  destruct (cells (graph f) !! id) as [c|] eqn:E; [| by apply ok_frame].
  case_decide as Hs; [| by apply ok_frame]. cbn [fst].
  set (c' := set_last_response_ms _ _).
  pose proof (ok_cell id c c' f Hw E eq_refl ltac:(done)) as Hok.
  eapply (ok_trans 0 0); [exact Hok |]. apply ok_emit; [apply Hok | by apply neutral_energy].
Qed.

Lemma ok_wake rule_id count token f :
  field_wf f -> (next_id (graph f) < u64_size)%Z ->
  ok_step 0 f (fst (perform_wake_sleeping o rule_id count token f)).
Proof.
  intros Hw Hn. unfold perform_wake_sleeping. destruct (count =? 0)%Z; [by apply ok_frame |].
  set (l := (take _ _).*2). pose proof (ok_fold0 fst wake_one l (f, 0%Z) Hw Hn) as Hok.
  destruct (fold_left wake_one l (f, 0%Z)) as [f' woke]. apply Hok. intros s x. apply ok_wake_one.
Qed.

Lemma ok_boost rule_id token factor top f :
  field_wf f -> ok_step 0 f (fst (perform_boost_links o rule_id token factor top f)).
Proof.
  intros Hw. unfold perform_boost_links. destruct (top =? 0)%Z; [by apply ok_frame |]. cbn [fst].
  set (f1 := set_recent_routes _ f). set (l := (take _ _).*2).
  assert (forall step : ClusterField -> Z -> ClusterField,
    (forall g x, exists v, step g x = set_route_bias v g) -> forall g, field_wf g ->
    ok_step 0 g (fold_left step l g)) as Hl.
  { intros step Hs. induction l as [|x l' IH]; intros g Hg; cbn [fold_left]; [by apply ok_frame |].
    assert (ok_step 0 g (step g x)) as Hx by (destruct (Hs g x) as [v ->]; by apply ok_frame).
    eapply (ok_trans 0 0); [exact Hx |]. apply IH, Hx. }
  eapply (ok_trans 0 0 f f1); [by apply ok_frame |]. apply Hl; [| done].
  intros g x. unfold boost_one. by eexists.
Qed.

Lemma ok_fire rule matched token f :
  field_wf f -> (next_id (graph f) + 1 < u64_size)%Z -> ok_step 1 f (fst (fire_reflex o rule matched token f)).
Proof.
  intros Hw Hn. unfold fire_reflex. set (f1 := emit _ f).
  assert (ok_step 0 f f1) as H1 by by apply ok_emit, neutral_ok.
  pose proof (os_next _ _ _ H1) as Hn1.
  assert (ok_step 1 f1 (fst (match r_then rule with
    | EmitHint hint => (f1, ["REFLEX_HINT id=" +:+ fmt_nat (r_id rule) +:+ " hint=" +:+ Hint_debug hint])
    | SpawnSeed seed shift => perform_spawn_seed o (r_id rule) seed shift f1
    | WakeSleeping count => perform_wake_sleeping o (r_id rule) count token f1
    | BoostLinks factor top => perform_boost_links o (r_id rule) token factor top f1
    end))) as H2.
  { destruct (r_then rule).
    - eapply ok_weaken; [| by apply ok_frame; [apply H1 | ..]]. lia.
    - apply ok_spawn_seed; [apply H1 | lia].
    - eapply ok_weaken; [| apply ok_wake; [apply H1 | lia]]. lia.
    - eapply ok_weaken; [| apply ok_boost, H1]. lia. }
  destruct (match r_then rule with EmitHint _ => _ | _ => _ end) as [f2 logs].
  eapply (ok_trans 0 1); [exact H1 | exact H2].
Qed.

Lemma pending_length now fired queue normalized kind f :
  length (pending_rules now fired queue (relevant_rules o normalized kind f)) <= size (rules (control f)).
Proof.
  unfold pending_rules. etrans; [apply length_omap_le |]. unfold relevant_rules.
  etrans; [apply List.filter_length_le |]. unfold hm_values. rewrite visit_perm, length_fmap.
  by rewrite length_map_to_list.
Qed.

Definition acc_field (acc : reflex_acc) : ClusterField := acc.1.1.

Lemma ok_fire_one normalized acc p :
  field_wf (acc_field acc) -> (next_id (graph (acc_field acc)) + 1 < u64_size)%Z ->
  ok_step 1 (acc_field acc) (acc_field (fire_one o normalized acc p)).
Proof.
  destruct acc as [[f logs] fired]. cbn. intros Hw Hn. pose proof (ok_fire p.1 p.2 normalized f Hw Hn) as Hok.
  unfold fire_one. by destruct (fire_reflex o p.1 p.2 normalized f).
Qed.

Lemma ok_process imp acc token :
  let n := Z.of_nat (size (rules (control (acc_field acc)))) in
  field_wf (acc_field acc) -> (next_id (graph (acc_field acc)) + n < u64_size)%Z ->
  ok_step n (acc_field acc) (acc_field (process_reflex_for o imp acc token)).
Proof.
  destruct acc as [[f logs] fired]. intros n Hw Hn. cbn [acc_field fst] in *. unfold process_reflex_for.
  set (relevant := relevant_rules _ _ _ f). set (queue := push_counter _ _ _ _). set (f1 := set_counters _ f).
  assert (ok_step 0 f f1) as H1 by by apply ok_frame.
  case_decide as Hr; [eapply ok_weaken; [| exact H1]; lia |].
  set (pend := pending_rules _ _ _ _).
  assert (length pend <= size (rules (control f))) as Hlen by apply pending_length.
  destruct (ok_fold acc_field (fire_one o (to_lowercase token)) 1 pend (fun _ => True) (f1, logs, fired)) as [Hok _]; try done.
  - intros s x _ Hs _ Hroom. split; [by apply ok_fire_one | done].
  - cbn. unfold n in *. lia.
  - eapply ok_weaken; [| eapply ok_trans; [exact H1 | exact Hok]]. unfold n. lia.
Qed.

Definition ing_field (acc : ingest_acc) : ClusterField := acc.1.1.1.

Lemma ok_ingest_one imp acc id :
  field_wf (ing_field acc) -> ok_step 0 (ing_field acc) (ing_field (ingest_one imp acc id)).
Proof.
  destruct acc as [[[f logs] deltas] responded]. cbn [ing_field fst]. intros Hw. unfold ingest_one.
  destruct (cells (graph f) !! id) as [c|] eqn:E; [| by apply ok_frame].
  assert (c_state c <> Dead) as Hd by apply (proj2 Hw id c E).
  destruct (ingest_cases imp (now_ms f) c Hd) as ((Hi1 & Hi2 & Hi3) & Hs & _).
  assert (skel (fst (ingest imp (now_ms f) c)) = skel c) as Hsk by (unfold skel; by rewrite Hi1, Hi2, Hi3).
  destruct (ingest imp (now_ms f) c) as [c' [log|]]; cbn [fst ing_field] in *.
  - apply (ok_cell id c (set_last_response_ms (now_ms f) c') f); done.
  - by apply (ok_cell id c).
Qed.

Lemma ok_hormone imp f : field_wf f -> ok_step 0 f (fst (hormone_step imp f)).
Proof. intros Hw. unfold hormone_step. case_decide; by apply ok_frame. Qed.

Lemma distinct_length tokens : forall seen, length (distinct seen tokens) <= length tokens.
Proof.
  induction tokens as [|t tokens IH]; intros seen; [done |]. cbn. case_decide; cbn.
  - etrans; [apply IH |]. lia.
  - specialize (IH (seen ∪ {[t]})). lia.
Qed.

Lemma ingest_deltas imp l : forall acc,
  field_wf (ing_field acc) -> Forall neutral acc.1.2 -> Forall neutral (fold_left (ingest_one imp) l acc).1.2.
Proof.
  induction l as [|id l IH]; intros acc Hw Ha; [done |]. cbn [fold_left].
  apply IH; [apply (ok_ingest_one imp acc id Hw) |].
  destruct acc as [[[f logs] deltas] responded]. cbn in Ha, Hw. unfold ingest_one.
  destruct (cells (graph f) !! id) as [c|] eqn:E; [| done].
  destruct (ingest_cases imp (now_ms f) c (proj2 Hw id c E)) as (_ & Hs & _).
  destruct (ingest imp (now_ms f) c) as [c' [log|]]; [| done].
  cbn. apply Forall_app. split; [done |]. by apply Forall_singleton, neutral_energy.
Qed.

(** The identifiers an impulse can give out. *)
Definition impulse_demand (imp : Impulse) (f : ClusterField) : Z :=
  (Z.of_nat (size (rules (control f))) * Z.of_nat (length (tokenize (i_pattern imp))))%Z.

(** Updates of what is known of the traffic. *)
Lemma ok_traffic {A} (step : ClusterField -> A -> ClusterField) l :
  (forall g x, exists u, step g x = on_traffic u g) -> forall g, field_wf g -> ok_step 0 g (fold_left step l g).
Proof.
  intros Hs. induction l as [|x l IH]; intros g Hg; cbn [fold_left]; [by apply ok_frame |].
  assert (ok_step 0 g (step g x)) as Hx by (destruct (Hs g x) as [u ->]; by apply ok_frame).
  eapply (ok_trans 0 0); [exact Hx |]. apply IH, Hx.
Qed.

Lemma record_route_sequence_shape seq g :
  exists v u, record_route_sequence o seq g = set_route_usage v (set_link_usage u g).
Proof.
  unfold record_route_sequence. generalize (windows2 seq). intros l. revert g.
  induction l as [|[a b] l IH]; intros g; cbn [fold_left].
  { exists (route_usage (graph g)), (link_usage (graph g)). by destruct g as [? ? [] ? ? ? ? ? ? ?]. }
  destruct (IH (record_route_step o g (a, b))) as (v & u & ->). unfold record_route_step, record_route_pair, record_link_hit.
  exists v. destruct (cells (graph g) !! a); [case_decide |]; by eexists.
Qed.

Lemma ok_route_sequence seq g : field_wf g -> ok_step 0 g (record_route_sequence o seq g).
Proof. intros Hw. destruct (record_route_sequence_shape seq g) as (v & u & ->). by apply ok_frame. Qed.

Lemma record_hits_shape strength responded token g : exists u, record_hits strength responded g token = on_traffic u g.
Proof.
  unfold record_hits. generalize responded. intros l. revert g.
  induction l as [|r l IH]; intros g; cbn [fold_left]; [exists (fun t => t); by destruct g |].
  destruct (IH (record_token_hit token r.1 strength r.2 g)) as [u ->].
  unfold record_token_hit, set_token_hits. by eexists (fun t => u _).
Qed.

(** The reflexes of an impulse. *)
Lemma ok_reflexes imp f1 logs dts :
  let n := Z.of_nat (size (rules (control f1))) in
  field_wf f1 -> (next_id (graph f1) + n * Z.of_nat (length dts) < u64_size)%Z ->
  ok_step (n * Z.of_nat (length dts)) f1 (acc_field (fold_left (process_reflex_for o imp) dts (f1, logs, ∅))).
Proof.
  intros n Hw Hroom.
  destruct (ok_fold acc_field (process_reflex_for o imp) n dts
    (fun s => rules (control (acc_field s)) = rules (control f1)) (f1, logs, ∅)) as [Hok _]; try done; [lia |].
  intros s x _ Hs Hr Hs1. pose proof (ok_process imp s x) as Hp. cbn zeta in Hp. rewrite Hr in Hp.
  split; [by apply Hp |]. by rewrite (os_rules _ _ _ (Hp Hs Hs1)).
Qed.

Lemma ok_route imp f :
  field_wf f -> (next_id (graph f) + impulse_demand imp f < u64_size)%Z ->
  ok_step (impulse_demand imp f) f (fst (route_impulse o imp f)).
Proof.
  intros Hw Hn. unfold route_impulse. set (tokens := tokenize (i_pattern imp)).
  pose proof (ok_hormone imp f Hw) as H1. destruct (hormone_step imp f) as [f1 logs1]. cbn [fst] in H1.
  set (n := Z.of_nat (size (rules (control f)))).
  pose proof (distinct_length tokens ∅) as Hlen. set (dts := distinct ∅ tokens) in *.
  assert (next_id (graph f1) + n * Z.of_nat (length dts) < u64_size)%Z as Hroom.
  { pose proof (os_next _ _ _ H1). unfold impulse_demand in Hn. fold tokens n in Hn.
    assert (n * Z.of_nat (length dts) <= n * Z.of_nat (length tokens))%Z by (apply Z.mul_le_mono_nonneg_l; lia). lia. }
  pose proof (ok_reflexes imp f1 logs1 dts) as H2. cbn zeta in H2. rewrite (os_rules _ _ _ H1) in H2. fold n in H2.
  specialize (H2 (os_wf _ _ _ H1) Hroom).
  destruct (fold_left (process_reflex_for o imp) dts (f1, logs1, ∅)) as [[f2 logs2] fired]. cbn [acc_field fst] in H2.
  set (chosen := top_candidates o imp tokens f2).
  pose proof (ok_fold0 ing_field (ingest_one imp) chosen (f2, logs2, [], [])) as H3.
  pose proof (ingest_deltas imp chosen (f2, logs2, [], []) (os_wf _ _ _ H2) ltac:(constructor)) as Hneutral.
  destruct (fold_left (ingest_one imp) chosen (f2, logs2, [], [])) as [[[f3 logs3] deltas] responded].
  cbn [ing_field fst snd] in *.
  assert (ok_step 0 f2 f3) as H3'.
  { apply H3; [apply H2 | | intros s x; apply ok_ingest_one].
    pose proof (os_next _ _ _ H2). lia. }
  set (f4 := record_route_sequence o responded.*1 f3).
  assert (ok_step 0 f3 f4) as H4 by (apply ok_route_sequence, H3').
  set (seen := hs_iter o _). set (f5 := fold_left (record_recent _ _) seen f4).
  assert (ok_step 0 f4 f5) as H5.
  { apply ok_traffic; [| apply H4]. intros g x. unfold record_recent, set_recent_routes. by eexists. }
  set (f6 := if decide (responded = []) then f5 else _).
  assert (ok_step 0 f5 f6) as H6.
  { unfold f6. case_decide; [apply ok_frame; try done; apply H5 |].
    apply ok_traffic; [intros g x; apply record_hits_shape | apply H5]. }
  assert (ok_step 0 f6 (emit_all deltas (set_ticks_since_impulse 0 f6))) as H7.
  { eapply (ok_trans 0 0 f6 (set_ticks_since_impulse 0 f6)); [apply ok_frame; try done; apply H6 |]. apply ok_emit_all; [| done].
    apply (field_wf_core f6); [done | apply H6]. }
  eapply ok_weaken; [| eapply ok_trans; [exact H1 | eapply ok_trans; [exact H2 | eapply ok_trans; [exact H3' |
    eapply ok_trans; [exact H4 | eapply ok_trans; [exact H5 | eapply ok_trans; [exact H6 | exact H7]]]]]]].
  unfold impulse_demand. fold tokens n.
  assert (n * Z.of_nat (length dts) <= n * Z.of_nat (length tokens))%Z by (apply Z.mul_le_mono_nonneg_l; lia). lia.
Qed.
End route.
