(* ===== verification/FieldTickInv.v ===== *)
(** * The cluster field: what a tick does to the cells

    [tick_cells_spec]: the cells stay well formed, and a replica of the skeletons that is given the
    deltas of the tick ends with the skeletons and the vital signs of the cells. One lemma per
    phase of [tick_cells]. *)

From stdpp Require Import prelude gmap strings fin_maps fin_sets list sorting.
From Stdlib Require Import ZArith Lia SpecFloat.
From S2P Require Import Prelude RustStr RustOrd Float RustText Json NodeCell Trs Seeds Symmetry FieldTypes Feedback Variant Resonant Journal Collections Field FieldOps FieldRoute FieldTick FieldInv FieldReplay FieldSteps.
From S2P Require Views.

(** The same skeletons, and none dead. *)
Definition renewed (cs cs' : gmap Z NodeCell) : Prop :=
  forall id, match cs !! id, cs' !! id with
             | Some c, Some c' => skel c' = skel c /\ c_state c' <> Dead
             | None, None => True
             | _, _ => False
             end.

Lemma renewed_refl cs : alive cs -> renewed cs cs.
Proof. intros Ha id. destruct (cs !! id) as [c|] eqn:E; [| done]. split; [done |]. by apply (Ha id). Qed.

Lemma renewed_insert cs m k v v' :
  renewed cs m -> m !! k = Some v -> skel v' = skel v -> c_state v' <> Dead -> renewed cs (<[k := v']> m).
Proof.
  intros Hr E Hs Hd id. specialize (Hr id). destruct (decide (k = id)) as [<- | Hne].
  - rewrite lookup_insert_eq. rewrite E in Hr. destruct (cs !! k); [| done].
    split; [by rewrite Hs; apply Hr | done].
  - by rewrite lookup_insert_ne.
Qed.

Lemma renewed_alive cs m k v : renewed cs m -> m !! k = Some v -> c_state v <> Dead.
Proof. intros Hr E. specialize (Hr k). rewrite E in Hr. destruct (cs !! k); [apply Hr | done]. Qed.

Lemma renewed_skel cs m id : renewed cs m -> skel <$> (m !! id) = skel <$> (cs !! id).
Proof.
  intros Hr. specialize (Hr id). destruct (cs !! id), (m !! id); try done.
  destruct Hr as [Hs _]. cbn. by rewrite Hs.
Qed.

Lemma renewed_wf `{UnicodeCase} cs cs' idx next : core_wf (cs, idx, next) -> renewed cs cs' -> core_wf (cs', idx, next).
Proof.
  intros Hw Hr. apply (keeps_cells cs); [done |]. intros id. specialize (Hr id).
  destruct (cs !! id), (cs' !! id); try done. apply skel_keeps, Hr.
Qed.

Lemma same_identity_skel c c' : same_identity c c' -> skel c' = skel c.
Proof. intros (Hi & Hs & Hl). unfold skel. by rewrite Hi, Hs, Hl. Qed.

Section phases.
Context `{UnicodeCase}.

(** A neutral delta does not create a cell. *)
Lemma effects_none ds id : Forall neutral ds -> effects ds id None = None.
Proof.
  intros Hn. pose proof (effects_skel ds id None) as He. rewrite sk_effects_neutral in He by done.
  by destruct (effects ds id None).
Qed.

(** ** Metabolism *)
Lemma metabolism_phase dt hormone h ids cs :
  alive cs ->
  let r := key_loop (metabolize_body dt hormone h) ids cs [] in
  renewed cs r.1 /\ Forall neutral r.2.
Proof.
  intros Ha. apply (key_loop_ind _ (fun _ m s => renewed cs m /\ Forall neutral s) ids 0).
  - done.
  - intros _ m s k v _ Ev [Hr Hn]. cbn [metabolize_body fst snd].
    pose proof (renewed_alive _ _ _ _ Hr Ev) as Hd. unfold metabolize.
    destruct (tick_cases dt (ht_metabolism_scale h) (sleep_shift_for hormone (ht_sleep_delta h) v) v Hd) as (Hi & Hd' & _).
    split.
    + eapply renewed_insert; [exact Hr | exact Ev | | done]. by apply same_identity_skel in Hi.
    + apply Forall_app. split; [done |]. by apply Forall_singleton, neutral_energy.
  - split; [by apply renewed_refl | constructor].
Qed.

(** ** Divisions *)
(** The children of the phase have the identifiers [lo], [lo + 1], ..., no links, and are idle. *)
Definition litter (lo : Z) (kids : list (Z * NodeCell)) : Prop :=
  map (fun k => c_id k.2) kids = seqZ lo (Z.of_nat (length kids)) /\
  Forall (fun k : Z * NodeCell => c_links k.2 = ∅ /\ c_state k.2 = Idle) kids.

Lemma litter_snoc lo kids p child :
  litter lo kids -> c_id child = (lo + Z.of_nat (length kids))%Z -> c_links child = ∅ -> c_state child = Idle ->
  litter lo (kids ++ [(p, child)]).
Proof.
  intros [Hm Hf] Hid Hl Hs. split.
  - rewrite map_app, Hm, length_app. cbn [map length snd]. rewrite Hid.
    replace (Z.of_nat (length kids + 1)) with (Z.of_nat (length kids) + 1)%Z by lia.
    rewrite seqZ_app by lia. done.
  - apply Forall_app. split; [done |]. by apply Forall_singleton.
Qed.

Lemma litter_cons lo k kids : litter lo (k :: kids) ->
  c_id k.2 = lo /\ c_links k.2 = ∅ /\ c_state k.2 = Idle /\ litter (lo + 1) kids.
Proof.
  intros [Hm Hf]. apply Forall_cons_1 in Hf as [[Hl Hs] Hf]. cbn [map length] in Hm.
  rewrite seqZ_cons in Hm by lia. injection Hm as Hid Hm. split_and!; try done. split; [| done].
  rewrite Hm. f_equal; lia.
Qed.

Lemma maybe_divide_cases v c :
  match maybe_divide v c with
  | (c', None) => c' = c
  | (c', Some child) => same_identity c c' /\ c_state c' = c_state c /\ c_links child = ∅ /\ c_state child = Idle
  end.
Proof. unfold maybe_divide. case_decide; [done |]. by destruct (f_le _ _). Qed.

Lemma division_phase now variation ids cs next events pending :
  alive cs -> Forall neutral pending -> (0 < next)%Z -> (next + Z.of_nat (length ids) < u64_size)%Z ->
  let r := key_loop (divide_body now variation) ids cs (mkDivision next events pending []) in
  renewed cs r.1 /\ Forall neutral (dv_pending r.2) /\ litter next (dv_new_cells r.2) /\
  dv_next_id r.2 = (next + Z.of_nat (length (dv_new_cells r.2)))%Z /\
  (length (dv_new_cells r.2) <= length ids).
Proof.
  intros Ha Hn Hpos Hroom.
  pose (I := fun n (m : gmap Z NodeCell) d =>
    n <= length ids ->
    renewed cs m /\ Forall neutral (dv_pending d) /\ litter next (dv_new_cells d) /\
    dv_next_id d = (next + Z.of_nat (length (dv_new_cells d)))%Z /\ length (dv_new_cells d) <= n).
  assert (I (length ids + 0) (key_loop (divide_body now variation) ids cs (mkDivision next events pending [])).1
    (key_loop (divide_body now variation) ids cs (mkDivision next events pending [])).2) as Hi.
  { apply key_loop_ind; unfold I.
    - intros n m d Hd Hle. destruct (Hd ltac:(lia)) as (? & ? & ? & ? & ?). split_and!; [done .. | lia].
    - intros n m d k v _ Ev Hd Hle. destruct (Hd ltac:(lia)) as (Hr & Hf & Hl & Hnx & Hlen).
      pose proof (renewed_alive _ _ _ _ Hr Ev) as Hv. unfold divide_body.
      pose proof (maybe_divide_cases (variation k) v) as Hc.
      destruct (maybe_divide (variation k) v) as [c' [child|]]; cbn [fst snd dv_pending dv_new_cells dv_next_id].
      + destruct Hc as (Hsi & Hst & Hkl & Hks). split_and!.
        * eapply renewed_insert; [exact Hr | exact Ev | by apply same_identity_skel | by rewrite Hst].
        * apply Forall_app. split; [done |]. repeat constructor; apply neutral_ok; cbn; by rewrite ?Hst.
        * by apply litter_snoc.
        * rewrite length_app. cbn [length]. unfold u64_size in *. rewrite u64_add_small by (unfold u64_size; lia). lia.
        * rewrite length_app. cbn [length]. lia.
      + subst c'. split_and!; [eapply renewed_insert; [exact Hr | exact Ev | done | done] | done | done | done | lia].
    - intros _. split_and!; [by apply renewed_refl | done | by split | cbn; lia | done]. }
  unfold I in Hi. destruct (Hi ltac:(lia)) as (? & ? & ? & ? & ?). cbv zeta. split_and!; [done .. | lia].
Qed.

End phases.

(** ** Children join *)
Section attach.
Context `{UnicodeCase}.
Variable o : HashOrder.

Lemma effects_one d id x : effects [d] id x = effect d id x.
Proof. done. Qed.

Lemma with_link_twice k c : with_link k (with_link k c) = with_link k c.
Proof. unfold with_link. destruct c. cbn. unfold set_links. cbn. f_equal. set_solver. Qed.

Lemma with_link_present k c : k ∈ c_links c -> with_link k c = c.
Proof. intros Hk. destruct c. unfold with_link, set_links. cbn in *. f_equal. set_solver. Qed.

(** [r] is [f] with the deltas [ds]: still well formed, the cells are what [ds] says, and nothing but
    the graph has changed. *)
Record grown (f : ClusterField) (ds : list EventDelta) (r : ClusterField) : Prop := {
  gr_wf : core_wf (core r);
  gr_alive : alive (cells (graph r));
  gr_next : next_id (graph r) = next_id (graph f);
  gr_journal : journal r = journal f;
  gr_setup : setup r = setup f;
  gr_cells : forall id, cells (graph r) !! id = effects ds id (cells (graph f) !! id);
  gr_calm : calm ds
}.

Lemma grown_refl f : core_wf (core f) -> alive (cells (graph f)) -> grown f [] f.
Proof. split; try done. apply calm_nil. Qed.

Lemma grown_trans f ds1 f1 ds2 f2 : grown f ds1 f1 -> grown f1 ds2 f2 -> grown f (ds1 ++ ds2) f2.
Proof.
  intros [] []. split; try done; try congruence; [| by apply calm_app].
  intros id. rewrite effects_app. by rewrite gr_cells1, gr_cells0.
Qed.

Lemma link_child_spec parent child f pending :
  core_wf (core f) -> alive (cells (graph f)) -> (0 < child < next_id (graph f))%Z ->
  exists ds, let r := link_child parent child f pending in
    r.2 = pending ++ ds /\ grown f ds r.1 /\
    (forall n, next_effects ds n = n) /\ (forall s, setup_effects ds s = s) /\
    with_link child <$> (cells (graph r.1) !! parent) = cells (graph r.1) !! parent.
Proof.
  intros Hw Ha Hid. unfold link_child. destruct (cells (graph f) !! parent) as [c|] eqn:E.
  2: { exists []. cbn. rewrite app_nil_r, E. split_and!; try done. by apply grown_refl. }
  case_decide as Hin.
  { exists []. cbn. rewrite app_nil_r, E. cbn. rewrite with_link_present by done.
    split_and!; try done. by apply grown_refl. }
  exists [DLink parent child]. cbn [fst snd]. fold (with_link child c).
  set (f1 := set_cells _ f).
  pose proof (core_register_link parent child f1) as Hcore. pose proof Hcore as Hcore'.
  unfold core in Hcore. cbn [cells index next_id graph set_cells on_graph f1] in Hcore. injection Hcore as Hc1 Hi1 Hn1.
  split_and!; [done | split | done | by intros [[[[[? ?] ?] ?] ?] ?] |].
  - rewrite Hcore'. unfold core. cbn. apply (keeps_insert _ _ _ _ c); [exact Hw | done |].
    split_and!; try done. intros to [? | ->%elem_of_singleton]%elem_of_union; [by left | by right].
  - rewrite Hc1. apply alive_insert; [done |]. exact (Ha parent c E).
  - by rewrite Hn1.
  - by rewrite journal_register_link.
  - by rewrite setup_register_link.
  - intros id. rewrite Hc1. cbn. case_decide; subst; [by rewrite lookup_insert_eq, E | by rewrite lookup_insert_ne].
  - by apply calm_one.
  - rewrite Hc1, lookup_insert_eq. cbn. by rewrite with_link_twice.
Qed.

Lemma attach_child_spec f pending parent child :
  core_wf (core f) -> alive (cells (graph f)) -> (0 < c_id child < next_id (graph f))%Z ->
  c_links child = ∅ -> c_state child = Idle ->
  exists ds, let r := attach_child o (f, pending) (parent, child) in r.2 = pending ++ ds /\ grown f ds r.1 /\
    (forall n, next_effects ds n = Z.max n (u64_add (c_id child) 1)) /\ forall s, setup_effects ds s = s.
Proof.
  intros Hw Ha Hid Hl Hs. unfold attach_child. cbn [fst snd].
  destruct (link_child_spec parent (c_id child) f pending Hw Ha Hid) as (ds & Hp & Hg & Hnx & Hst & Hfix).
  destruct (link_child parent (c_id child) f pending) as [f1 pending1]. cbn [fst snd] in *.
  exists (ds ++ [DDivide parent (snapshot_of_cell child)]).
  split_and!; [by rewrite Hp, <- app_assoc | | intros n; by rewrite next_effects_app, Hnx
    | intros s; rewrite setup_effects_app, Hst; by destruct s as [[[[[? ?] ?] ?] ?] ?]].
  eapply grown_trans; [exact Hg |]. destruct Hg as [Hw1 Ha1 Hn1 _ _ _ _].
  destruct (attach_cell_spec o child f1 Hw1) as (Hw2 & Hcs2 & Hn2 & Hj2 & Ht2).
  { by rewrite Hn1. }
  { rewrite Hl. set_solver. }
  split; try done.
  - rewrite Hcs2. apply alive_insert; [done | by rewrite Hs].
  - apply setup_attach.
  - intros id. rewrite Hcs2, effects_one. cbn [effect]. change (cn_id (snapshot_of_cell child)) with (c_id child).
    destruct (decide (id = c_id child)) as [-> | Hne].
    + by rewrite lookup_insert_eq, snapshot_roundtrip.
    + rewrite lookup_insert_ne by done. case_decide; [by subst; rewrite Hfix | done].
  - apply calm_one. cbn. by rewrite Hs.
Qed.

Lemma attach_phase kids : forall f pending lo,
  core_wf (core f) -> alive (cells (graph f)) -> (0 < lo)%Z -> litter lo kids ->
  (lo + Z.of_nat (length kids) <= next_id (graph f))%Z -> (lo + Z.of_nat (length kids) < u64_size)%Z ->
  exists ds, let r := fold_left (attach_child o) kids (f, pending) in r.2 = pending ++ ds /\ grown f ds r.1 /\
    next_effects ds lo = (lo + Z.of_nat (length kids))%Z /\ forall s, setup_effects ds s = s.
Proof.
  induction kids as [|[p child] kids IH]; intros f pending lo Hw Ha Hlo Hl Hn Hu; cbn [fold_left].
  { exists []. cbn. rewrite app_nil_r. split_and!; [done | by apply grown_refl | lia | done]. }
  apply litter_cons in Hl as (Hid & Hk & Hs & Hl). cbn [snd length] in *.
  destruct (attach_child_spec f pending p child Hw Ha) as (ds & Hp & Hg & Hnx & Hst); [lia | done | done |].
  destruct (attach_child o (f, pending) (p, child)) as [f1 pending1]. cbn [fst snd] in *.
  destruct (IH f1 pending1 (lo + 1)%Z) as (ds' & Hp' & Hg' & Hnx' & Hst');
    [apply Hg | apply Hg | lia | done | rewrite (gr_next _ _ _ Hg); lia | lia |].
  exists (ds ++ ds'). split_and!; [by rewrite Hp', Hp, <- app_assoc | by eapply grown_trans | |].
  - rewrite next_effects_app, Hnx, Hid, u64_add_small by (unfold u64_size in *; lia).
    rewrite Z.max_r, Hnx' by lia. lia.
  - intros s. by rewrite setup_effects_app, Hst, Hst'.
Qed.
End attach.

(** ** Sleep and death *)
Section rest.
Context `{UnicodeCase}.

Lemma maybe_sleep_or_die_cases now ss c :
  c_state c <> Dead ->
  let '(c', died) := maybe_sleep_or_die now ss c in
  same_identity c c' /\ (died = true <-> c_state c' = Dead).
Proof.
  intros Hd. unfold maybe_sleep_or_die. rewrite decide_False by done. cbv zeta.
  set (c1 := if f_lt _ _ && (3000 <? _)%Z then _ else c).
  assert (same_identity c c1 /\ c_state c1 <> Dead) as [Hi Hn] by (unfold c1; by destruct (_ && _)).
  clearbody c1. destruct (f_lt _ _ && _); [done |]. by split.
Qed.

Definition rested (now : Z) (hormone : option NoradrenalineEffect) (base : f32) (c : NodeCell) : NodeCell * bool :=
  maybe_sleep_or_die now (sleep_shift_for hormone base c) c.

(** The deltas of one cell. *)
Definition rest_deltas (now : Z) (hormone : option NoradrenalineEffect) (base : f32) (id : Z) (c : NodeCell)
  : list EventDelta :=
  let '(c', died) := rested now hormone base c in
  (if bool_decide (c_state c <> Sleep) && bool_decide (c_state c' = Sleep) then [DSleep id] else [])
  ++ (if died && bool_decide (c_state c <> Dead) then [DDead id] else []) ++ [energy_of id c'].

Lemma rest_body_cell now hormone base id c acc :
  fst (rest_body now hormone base id c acc) = fst (rested now hormone base c).
Proof.
  unfold rest_body, rested. destruct acc as [[events pending] purge].
  destruct (maybe_sleep_or_die _ _ _) as [c' died].
  destruct (bool_decide _ && _); destruct (died && _); done.
Qed.

Lemma rest_body_deltas now hormone base id c acc :
  (snd (rest_body now hormone base id c acc)).1.2 = acc.1.2 ++ rest_deltas now hormone base id c.
Proof.
  unfold rest_body, rest_deltas, rested. destruct acc as [[events pending] purge].
  destruct (maybe_sleep_or_die _ _ _) as [c' died].
  destruct (bool_decide _ && _); destruct (died && _); cbn [fst snd]; by rewrite <- ?app_assoc.
Qed.

(** Deltas that say nothing of the next identifier and of the setup. *)
Definition quiet (d : EventDelta) : Prop := (forall n, next_effect d n = n) /\ forall s, setup_effect d s = s.

Lemma quiet_effects ds : Forall quiet ds ->
  (forall n, next_effects ds n = n) /\ forall s, setup_effects ds s = s.
Proof.
  induction 1 as [|d ds [Hn Hs] _ [IHn IHs]]; [done |]. unfold next_effects, setup_effects in *. cbn [fold_left].
  split; [intros n; by rewrite Hn | intros s; by rewrite Hs].
Qed.

Lemma quiet_local d : match d with DSleep _ | DDead _ | DEnergy _ | DLink _ _ => True | _ => False end -> quiet d.
Proof. intros Hd. split; [by destruct d |]. intros [[[[[? ?] ?] ?] ?] ?]. by destruct d. Qed.

Lemma rest_deltas_quiet now hormone base id c : Forall quiet (rest_deltas now hormone base id c).
Proof.
  unfold rest_deltas. destruct (rested now hormone base c) as [c' died].
  destruct (bool_decide _ && _); destruct (died && _); cbn; repeat constructor; by apply quiet_local.
Qed.

Lemma rest_deltas_calm now hormone base id c : c_state c <> Dead -> calm (rest_deltas now hormone base id c).
Proof.
  intros Hd. pose proof (maybe_sleep_or_die_cases now (sleep_shift_for hormone base c) c Hd) as Hc.
  unfold rest_deltas, rested. destruct (maybe_sleep_or_die _ _ _) as [c' died]. destruct Hc as [_ Hdied].
  apply calm_app; [case_match; [by apply calm_one | apply calm_nil] |].
  rewrite (bool_decide_true (c_state c <> Dead)) by done. destruct died; cbn [andb app].
  - intros i x Hx. cbn. case_decide; subst; by destruct x.
  - apply calm_one. intros E. by apply Hdied in E.
Qed.

(** They concern no other cell. *)
Lemma rest_deltas_other now hormone base id c i x : i <> id -> effects (rest_deltas now hormone base id c) i x = x.
Proof.
  intros Hne. unfold rest_deltas. destruct (rested now hormone base c) as [c' died].
  destruct (bool_decide _ && _); destruct (died && _); cbn; by rewrite ?decide_False by done.
Qed.

(** A replica with the skeleton of the cell ends with what there is to know of the rested cell. *)
Lemma rest_deltas_observed now hormone base id c y :
  c_state c <> Dead -> skel y = skel c ->
  observed <$> effects (rest_deltas now hormone base id c) id (Some y)
  = let c' := fst (rested now hormone base c) in if decide (c_state c' = Dead) then None else Some (observed c').
Proof.
  intros Hd Hs. pose proof (maybe_sleep_or_die_cases now (sleep_shift_for hormone base c) c Hd) as Hc.
  unfold rest_deltas, rested in *. destruct (maybe_sleep_or_die _ _ _) as [c' died]. destruct Hc as [Hi Hdied].
  rewrite (bool_decide_true (c_state c <> Dead)) by done. rewrite andb_true_r. cbn [fst].
  apply same_identity_skel in Hi. rewrite !effects_app.
  set (y1 := effects (if _ && _ then _ else _) id (Some y)).
  assert (exists y', y1 = Some y' /\ skel y' = skel c) as (y' & -> & Hs').
  { unfold y1. destruct (_ && _); cbn; [rewrite decide_True by done |]; by eexists. }
  destruct died.
  - rewrite decide_True by by apply Hdied. cbn. rewrite decide_True by done. cbn. by rewrite decide_True.
  - rewrite decide_False by (intros E; by apply Hdied in E). cbn. rewrite decide_True by done. cbn.
    change (Some (skel y', vital_signs c') = Some (skel c', vital_signs c')). by rewrite Hs', Hi.
Qed.

Lemma effects_concat_other {A} (h : A -> list EventDelta) i l x :
  (forall k, k ∈ l -> forall y, effects (h k) i y = y) -> effects (concat (map h l)) i x = x.
Proof.
  intros Hh. revert x. induction l as [|k l IH]; intros x; [done |]. cbn [map concat].
  rewrite effects_app, Hh by left. apply IH. intros k' Hk'. apply Hh. by right.
Qed.

(** Deltas about one cell each: only those about the cell count. *)
Lemma effects_concat_one (h : Z -> list EventDelta) i l x :
  (forall k i y, i <> k -> effects (h k) i y = y) -> NoDup l -> i ∈ l ->
  effects (concat (map h l)) i x = effects (h i) i x.
Proof.
  intros Hh Hnd Hi. revert x. induction l as [|k l IH]; intros x; [set_solver |]. cbn [map concat].
  apply NoDup_cons in Hnd as [Hk Hnd]. rewrite effects_app. destruct (decide (i = k)) as [<- | Hne].
  - apply effects_concat_other. intros k' Hk' y. apply Hh. intros ->. done.
  - rewrite Hh by done. apply IH; [done |]. by apply elem_of_cons in Hi as [? | ?].
Qed.

Lemma rest_phase now hormone base ids cs events pending purge :
  alive cs -> NoDup ids ->
  let r := key_loop (rest_body now hormone base) ids cs (events, pending, purge) in
  exists ds, r.2.1.2 = pending ++ ds /\ Forall quiet ds /\ calm ds /\
    (forall id, r.1 !! id = if decide (id ∈ ids) then (fun c => fst (rested now hormone base c)) <$> (cs !! id) else cs !! id) /\
    (forall id x, id ∉ ids -> effects ds id x = x) /\
    forall id x, id ∈ ids -> skel <$> x = skel <$> (cs !! id) ->
      observed <$> effects ds id x
      = observed <$> (c ← r.1 !! id; if decide (c_state c = Dead) then None else Some c).
Proof.
  intros Ha Hnd r. set (h := fun k => match cs !! k with Some v => rest_deltas now hormone base k v | None => [] end).
  assert (forall id, r.1 !! id = if decide (id ∈ ids)
    then (fun c => fst (rested now hormone base c)) <$> (cs !! id) else cs !! id) as Hcs.
  { intros id. case_decide as Hin; [| by apply key_loop_other].
    pose proof (key_loop_lookup (rest_body now hormone base) (fun _ v v' => v' = fst (rested now hormone base v)) ids cs
      (events, pending, purge) (fun k v s => rest_body_cell now hormone base k v s) Hnd id Hin) as Hl.
    fold r in Hl. destruct (cs !! id), (r.1 !! id); cbn; by subst. }
  assert (forall k i y, i <> k -> effects (h k) i y = y) as Hother.
  { intros k i y Hne. unfold h. destruct (cs !! k); [by apply rest_deltas_other | done]. }
  exists (concat (map h ids)). split_and!; [| | | exact Hcs | |].
  - exact (key_loop_writer (rest_body now hormone base) (fun s => s.1.2) (rest_deltas now hormone base)
      (fun k v s => rest_body_deltas now hormone base k v s) ids cs (events, pending, purge) Hnd).
  - apply Forall_concat, Forall_forall. intros ds Hds. apply list_elem_of_In, in_map_iff in Hds as (k & <- & _).
    unfold h. destruct (cs !! k); [apply rest_deltas_quiet | constructor].
  - apply calm_concat. intros k. unfold h. destruct (cs !! k) as [c|] eqn:E; [by apply rest_deltas_calm, (Ha k) | apply calm_nil].
  - intros id x Hin. apply effects_concat_other. intros k Hk y. apply Hother. by intros ->.
  - intros id x Hin Hx. rewrite (effects_concat_one h) by done. rewrite Hcs, decide_True by done. unfold h.
    destruct (cs !! id) as [c|] eqn:E; destruct x as [y|]; cbn in Hx; try done.
    rewrite rest_deltas_observed; [| exact (Ha id c E) | by apply (inj Some) in Hx].
    cbn. by case_decide.
Qed.

End rest.

(** ** The dead leave *)
Section tick.
Context `{UnicodeCase, SeedRng, FloatMath}.
Variable o : HashOrder.

Lemma filter_same_size {A} (P : Z * A -> Prop) `{!forall x, Decision (P x)} (m : gmap Z A) :
  size (filter P m) = size m -> filter P m = m.
Proof.
  intros Hs. apply map_subseteq_size_eq; [apply map_filter_subseteq | lia].
Qed.

Lemma cells_wf_filter (P : Z * NodeCell -> Prop) `{!forall x, Decision (P x)} cs next :
  cells_wf cs next -> cells_wf (filter P cs) next.
Proof.
  intros [Hpos Hf]. split; [done |]. intros id c [E _]%map_lookup_filter_Some. by apply Hf.
Qed.

Lemma bury_spec cs purge f :
  core_wf (cs, index (graph f), next_id (graph f)) ->
  field_wf (bury o cs purge f) /\
  cells (graph (bury o cs purge f)) = filter (fun e => c_state e.2 <> Dead) cs /\
  next_id (graph (bury o cs purge f)) = next_id (graph f) /\ journal (bury o cs purge f) = journal f /\
  setup (bury o cs purge f) = setup f.
Proof.
  intros Hw. unfold bury. set (living := filter _ cs). set (f1 := set_cells living f).
  set (needs := bool_decide (purge <> []) || negb (size living =? size cs)%nat).
  set (f2 := if needs then rebuild_index o f1 else f1).
  assert (core_wf (core f2) /\ cells (graph f2) = living /\ next_id (graph f2) = next_id (graph f) /\
    journal f2 = journal f /\ setup f2 = setup f)
    as (Hw2 & Hc2 & Hn2 & Hj2 & Hs2).
  { unfold f2. destruct needs eqn:En.
    - assert (cells_wf living (next_id (graph f))) as Hl by (apply cells_wf_filter, Hw).
      destruct (rebuild_index_spec o f1 Hl) as (? & ? & ? & ? & ?). split_and!; try done. by rewrite setup_rebuild.
    - split_and!; try done. unfold core. cbn. unfold living.
      rewrite filter_same_size; [done |].
      unfold needs in En. apply orb_false_iff in En as [_ En]. apply negb_false_iff, Nat.eqb_eq in En. done. }
  clearbody f2.
  set (f3 := fold_left _ purge f2).
  assert (core f3 = core f2) as Hc3 by (by apply core_fold).
  assert (setup f3 = setup f2) as Hs3 by (by apply setup_fold).
  assert (journal f3 = journal f2) as Hj3 by (by apply journal_fold).
  unfold core in Hc3. injection Hc3 as E1 E2 E3. split_and!; try done.
  - split; [by rewrite core_refresh; unfold core; rewrite E1, E2, E3 |]. cbn. rewrite E1, Hc2.
    intros id c Hc. by apply map_lookup_filter_Some in Hc as [_ Hc].
  - cbn. by rewrite E1.
  - cbn. by rewrite E3.
  - cbn. by rewrite Hj3.
  - change (setup f3 = setup f). by rewrite Hs3.
Qed.

Lemma hm_keys_length {V} (m : gmap Z V) : length (hm_keys o m) = size m.
Proof. unfold hm_keys. rewrite visit_perm, length_fmap. apply length_map_to_list. Qed.

Lemma hormone_end_frame f :
  core (hormone_end f).1 = core f /\ journal (hormone_end f).1 = journal f /\ setup (hormone_end f).1 = setup f.
Proof. unfold hormone_end. destruct (noradrenaline (control f)); [case_match |]; done. Qed.

(** The living after the rest are the cells after it, less the dead. *)
Lemma living_lookup (cs : gmap Z NodeCell) id :
  filter (fun e => c_state e.2 <> Dead) cs !! id
  = c ← cs !! id; if decide (c_state c = Dead) then None else Some c.
Proof.
  rewrite map_lookup_filter. destruct (cs !! id) as [c|]; [| done]. cbn.
  case_decide as Hd; [rewrite option_guard_False by (intros Hn; apply Hn, Hd) | rewrite option_guard_True by done]; done.
Qed.

(** Where a cell of the field stands after the rest. *)
Lemma rested_keeps now hormone base next cs cs' (ids : list Z) idx :
  core_wf (cs, idx, next) -> alive cs ->
  (forall id, cs' !! id = if decide (id ∈ ids) then (fun c => fst (rested now hormone base c)) <$> (cs !! id) else cs !! id) ->
  core_wf (cs', idx, next).
Proof.
  intros Hw Ha Hcs. apply (keeps_cells cs); [done |]. intros id. rewrite Hcs.
  destruct (cs !! id) as [c|] eqn:E; [| by case_decide].
  case_decide; cbn; apply skel_keeps; [| done].
  pose proof (maybe_sleep_or_die_cases now (sleep_shift_for hormone base c) c (Ha id c E)) as Hc.
  unfold rested. destruct (maybe_sleep_or_die _ _ _). apply same_identity_skel, Hc.
Qed.

Lemma tick_cells_spec dt variation f :
  field_wf f -> (next_id (graph f) + Z.of_nat (size (cells (graph f))) < u64_size)%Z ->
  let '(f', _, pending) := tick_cells o dt variation f in
  field_wf f' /\
  (next_id (graph f) <= next_id (graph f') <= next_id (graph f) + Z.of_nat (size (cells (graph f))))%Z /\
  setup f' = setup f /\ journal f' = journal f /\
  next_effects pending (next_id (graph f)) = next_id (graph f') /\ (forall s, setup_effects pending s = s) /\
  calm pending /\
  forall id x, skel <$> x = skel <$> (cells (graph f) !! id) ->
    observed <$> effects pending id x = observed <$> (cells (graph f') !! id).
Proof.
  intros [Hw Ha] Hroom. unfold tick_cells.
  set (ids := hm_keys o (cells (graph f))). pose proof (hm_keys_NoDup o (cells (graph f))) as Hnd.
  rewrite <- hm_keys_length in Hroom |- *. fold ids in Hnd, Hroom |- *.
  pose proof (metabolism_phase dt (noradrenaline_active f) (harmony (control f)) ids _ Ha) as H1'. cbv zeta in H1'.
  destruct (key_loop (metabolize_body _ _ _) ids _ []) as [cs1 p1]. cbn [fst snd] in H1'. destruct H1' as [Hr1 Hn1].
  destruct (hormone_end_frame (set_cells cs1 f)) as (Hc2 & Hj2 & Hs2).
  destruct (hormone_end (set_cells cs1 f)) as [f2 events]. cbn [fst] in *.
  unfold core in Hc2. cbn in Hc2. injection Hc2 as Hc2 Hi2 Hx2. rewrite Hc2, Hx2.
  assert (alive cs1) as Ha1 by (intros id c E; by eapply renewed_alive).
  destruct Hw as [Hcw Hix] eqn:EHw. clear EHw.
  pose proof (division_phase (now_ms f) variation ids cs1 (next_id (graph f)) events p1 Ha1 Hn1
    (proj1 Hcw) Hroom) as H3. cbv zeta in H3.
  destruct (key_loop (divide_body _ _) ids cs1 _) as [cs3 d]. cbn [fst snd] in H3.
  destruct H3 as (Hr3 & Hn3 & Hl3 & Hx3 & Hlen3).
  set (f3 := set_next_id (dv_next_id d) (set_cells cs3 f2)).
  assert (renewed (cells (graph f)) cs3) as Hr13.
  { intros id. specialize (Hr1 id). specialize (Hr3 id).
    destruct (cells (graph f) !! id), (cs1 !! id), (cs3 !! id); try done.
    destruct Hr1 as [<- _], Hr3 as [-> ?]. done. }
  assert (core_wf (core f3)) as Hw3.
  { unfold core. cbn. rewrite Hi2. apply (renewed_wf (cells (graph f))); [| done]. split; [| exact Hix].
    eapply cells_wf_mono; [| exact Hcw]. lia. }
  assert (alive (cells (graph f3))) as Ha3 by (intros id c E; by eapply renewed_alive).
  destruct (attach_phase o (dv_new_cells d) f3 (dv_pending d) (next_id (graph f)) Hw3 Ha3 (proj1 Hcw) Hl3)
    as (ds4 & Hp4 & Hg4 & Hnx4 & Hst4); [cbn; lia | lia |].
  destruct (fold_left (attach_child o) (dv_new_cells d) (f3, dv_pending d)) as [f4 pending4]. cbn [fst snd] in *.
  destruct Hg4 as [Hw4 Ha4 Hx4 Hj4 Hs4 Hcs4 Hcalm4].
  destruct (rest_phase (now_ms f) (noradrenaline_active f) (ht_sleep_delta (harmony (control f))) ids
    (cells (graph f4)) (dv_events d) pending4 [] Ha4 Hnd) as (ds5 & Hp5 & Hq5 & Hcalm5 & Hcs5 & Hout5 & Hin5).
  destruct (key_loop (rest_body _ _ _) ids _ _) as [cs5 [[events5 pending5] purge]]. cbn [fst snd] in *.
  destruct (bury_spec cs5 purge f4) as (Hw6 & Hc6 & Hx6 & Hj6 & Hs6).
  { by eapply rested_keeps. }
  split_and!; [done | rewrite Hx6, Hx4; cbn; rewrite Hx3; lia | rewrite Hx6, Hx4; cbn; rewrite Hx3; lia
    | | rewrite Hj6, Hj4; cbn; by rewrite Hj2 | | | |].
  { rewrite Hs6, Hs4. change (setup f2 = setup f). by rewrite Hs2. }
  { rewrite Hp5, Hp4, !next_effects_app, (next_effects_neutral _ _ Hn3), Hnx4, Hx6, Hx4.
    cbn. rewrite Hx3. by apply quiet_effects. }
  { intros s. rewrite Hp5, Hp4, !setup_effects_app, (setup_effects_neutral _ _ Hn3), Hst4. by apply quiet_effects. }
  { rewrite Hp5, Hp4. repeat apply calm_app; try done. by apply calm_neutral. }
  intros id x Hx. rewrite Hp5, Hp4, !effects_app, Hc6, living_lookup.
  set (y := effects (dv_pending d) id x).
  assert (skel <$> y = skel <$> (cs3 !! id)) as Hy.
  { unfold y. rewrite effects_skel, sk_effects_neutral by done. rewrite Hx. symmetry. by apply renewed_skel. }
  assert (skel <$> effects ds4 id y = skel <$> (cells (graph f4) !! id)) as Hz.
  { rewrite Hcs4, !effects_skel. cbn. by rewrite Hy. }
  destruct (decide (id ∈ ids)) as [Hin | Hout]; [by apply Hin5 |].
  rewrite Hout5, Hcs5, decide_False by done.
  assert (cells (graph f) !! id = None) as Hnone.
  { unfold ids in Hout. rewrite elem_of_hm_keys in Hout. by apply eq_None_not_Some. }
  specialize (Hr13 id). rewrite Hnone in Hr13. destruct (cs3 !! id) eqn:E3; [done |].
  assert (y = None) as -> by by destruct y.
  assert (cells (graph f4) !! id = effects ds4 id None) as <- by by rewrite Hcs4; cbn; rewrite E3.
  destruct (cells (graph f4) !! id) as [c|] eqn:E4; [| done]. cbn. rewrite decide_False; [done |].
  exact (Ha4 id c E4).
Qed.
End tick.
