(* ===== verification/FieldSound.v ===== *)
(** * The cluster field: every operation is sound

    [sound n logged f f']: the step keeps the field well formed, gives out at most [n] identifiers
    and, when [logged] holds, what it appends to the journal accounts for the skeletons, the next
    identifier and the setup. Impulses are [ok_step]s; this file has the other operations: roots,
    rules, configuration, ticks, trimming and injection. *)

From stdpp Require Import prelude gmap strings fin_maps fin_sets list sorting.
From Stdlib Require Import ZArith Lia SpecFloat.
From S2P Require Import Prelude RustStr RustOrd Float RustText Json NodeCell Trs Seeds Symmetry FieldTypes Feedback Variant Resonant Journal Collections Field FieldOps FieldRoute FieldTick FieldInv FieldReplay FieldSteps FieldTickInv.
From S2P Require Views.

Section sound.
Context `{UnicodeCase, SeedRng, FloatMath}.
Variable o : HashOrder.

Definition sound (n : Z) (logged : Prop) (f f' : ClusterField) : Prop :=
  field_wf f' /\ (next_id (graph f) <= next_id (graph f') <= next_id (graph f) + n)%Z /\
  (logged -> exists ds, accounts ds f f').

Lemma ok_sound n logged f f' : ok_step n f f' -> sound n logged f f'.
Proof. by intros [Hw Hn Hs Hl]. Qed.

(** ** Roots *)
Lemma add_root_ok seed f :
  field_wf f -> (next_id (graph f) + 1 < u64_size)%Z -> ok_step 1 f (fst (add_root o seed f)).
Proof.
  intros Hw Hn. unfold add_root. set (c := from_seed (next_id (graph f)) (create_seed seed)).
  destruct (ok_spawn o c f Hw) as [Hok _]; try done. cbn [fst].
  set (f1 := attach_cell o c _).
  assert (cells (graph f1) !! next_id (graph f) = Some c) as ->; [| exact Hok].
  unfold f1. by rewrite cells_attach, lookup_insert_eq.
Qed.

(** ** Rules and configuration *)
Lemma sound_trans n m (P : Prop) f f1 f2 : sound n P f f1 -> sound m P f1 f2 -> sound (n + m) P f f2.
Proof.
  intros (W1 & N1 & D1) (W2 & N2 & D2). split_and!; [done | lia | lia |]. intros Hp.
  destruct (D1 Hp) as [ds1 ?], (D2 Hp) as [ds2 ?]. exists (ds1 ++ ds2). by eapply accounts_trans.
Qed.

(** A step that changes the setup only, and says so. *)
Lemma setup_step_gen d f f' :
  field_wf f -> core f' = core f -> (forall log, journal f = Some log -> journal f' = Some (log ++ [d])) ->
  (forall id x, sk_effect d id x = x) -> (forall n, next_effect d n = n) -> calm [d] ->
  tell (setup f') = setup_effect d (tell (setup f)) -> sound 0 True f f'.
Proof.
  intros Hw Hc Hj Hsk Hn Hcalm Hs.
  split_and!; [by eapply field_wf_core | rewrite (next_core _ _ Hc); lia | rewrite (next_core _ _ Hc); lia |].
  intros _. exists [d]. split_and!; [exact Hj | | | exact Hs | exact Hcalm].
  - intros id. rewrite (cells_core _ _ Hc). cbn. by rewrite Hsk.
  - rewrite (next_core _ _ Hc). unfold next_effects. cbn [fold_left]. by rewrite Hn.
Qed.

Lemma setup_step d f f1 :
  field_wf f -> core f1 = core f -> journal f1 = journal f ->
  (forall id x, sk_effect d id x = x) -> (forall n, next_effect d n = n) -> calm [d] ->
  tell (setup f1) = setup_effect d (tell (setup f)) -> sound 0 True f (emit d f1).
Proof.
  intros Hw Hc Hj Hsk Hn Hcalm Hs. apply (setup_step_gen d); try done; [by rewrite core_emit | | by rewrite setup_emit].
  intros log E. apply journal_emit. by rewrite Hj.
Qed.

Lemma add_reflex_sound rule f :
  field_wf f -> (next_reflex_id (control f) + 1 < u64_size)%Z -> (0 <= next_reflex_id (control f))%Z ->
  sound 0 True f (fst (add_reflex rule f)).
Proof.
  intros Hw Hr Hpos. unfold add_reflex.
  destruct (Z.eqb_spec (r_id rule) 0) as [E | E]; cbn [fst]; apply setup_step; try (done || by apply calm_one); cbn;
    rewrite fmap_insert; try done.
  rewrite u64_add_small by (unfold u64_size in *; lia). do 4 f_equal. lia.
Qed.

Lemma remove_reflex_sound id f : field_wf f -> sound 0 True f (fst (remove_reflex id f)).
Proof.
  intros Hw. unfold remove_reflex. destruct (rules (control f) !! id); [| by apply ok_sound, ok_frame].
  cbn [fst]. apply setup_step; try (done || by apply calm_one). cbn. by rewrite fmap_delete.
Qed.

Lemma set_dream_config_sound cfg f : field_wf f -> sound 0 True f (set_dream_config cfg f).
Proof. intros Hw. by apply setup_step; try apply calm_one. Qed.
Lemma set_sync_config_sound cfg f : field_wf f -> sound 0 True f (set_sync_config cfg f).
Proof. intros Hw. by apply setup_step; try apply calm_one. Qed.

(** The tempo. *)
Lemma set_trs_config_ok cfg f : field_wf f -> ok_step 0 f (fst (set_trs_config cfg f)).
Proof.
  intros Hw. unfold set_trs_config. cbn [fst]. set (f1 := set_harmony _ _).
  eapply (ok_trans 0 0 f f1); [by apply ok_frame |]. apply ok_emit; [by apply (field_wf_core f) | by apply neutral_ok].
Qed.
Lemma set_trs_target_ok target f : field_wf f -> ok_step 0 f (fst (set_trs_target target f)).
Proof.
  intros Hw. unfold set_trs_target. cbn [fst]. set (f1 := set_trs _ f).
  eapply (ok_trans 0 0 f f1); [by apply ok_frame |]. apply ok_emit; [by apply (field_wf_core f) | by apply neutral_ok].
Qed.
Lemma apply_trs_output_ok now load out f : field_wf f -> ok_step 0 f (fst (apply_trs_output now load out f)).
Proof.
  intros Hw. unfold apply_trs_output. cbv zeta. cbn [fst]. set (f1 := set_harmony _ f).
  eapply (ok_trans 0 0 f f1); [by apply ok_frame |].
  assert (field_wf f1) as Hw1 by by apply (field_wf_core f).
  set (f2 := emit _ f1). assert (ok_step 0 f1 f2) as H2 by by apply ok_emit, neutral_ok.
  eapply (ok_trans 0 0); [exact H2 |]. apply ok_emit; [apply H2 | by apply neutral_ok].
Qed.

(** ** Ticks *)
Definition same_ground (f f' : ClusterField) : Prop :=
  core f' = core f /\ setup f' = setup f /\ journal f' = journal f.

Lemma view_rounds_ground n : forall acc, same_ground (fst acc) (fst (view_rounds o n acc)).
Proof.
  induction n as [|n IH]; intros [f events]; [done |]. cbn [view_rounds].
  destruct (500 <=? _)%Z; [| done]. unfold view_round.
  destruct (Views.take_due (hm_values o) (views f) (now_ms f)) as [reg due].
  match goal with |- context [view_rounds o n ?a] => pose proof (IH a) as Hi end. exact Hi.
Qed.

Lemma tick_reports_spec dt f events :
  let f' := fst (tick_reports o dt f events) in
  core f' = core f /\ setup f' = setup f /\
  exists hash now, forall log, journal f = Some log -> journal f' = Some (log ++ [DAwakenTick hash now]).
Proof.
  unfold tick_reports. set (f1 := set_view_tick_accum _ f).
  pose proof (view_rounds_ground (Z.to_nat (view_tick_accum f1 / 500)) (f1, events)) as (Hc2 & Hs2 & Hj2).
  destruct (view_rounds o _ (f1, events)) as [f2 events2]. cbn [fst] in *.
  destruct (engine_tick _ _ _ _ _) as [engine snapshot].
  unfold tick_seed_garden. destruct (tick_garden _ _ _) as [garden lines]. cbn [fst].
  unfold awaken_tick. set (f3 := set_sync_log _ _ _).
  assert (core f3 = core f /\ setup f3 = setup f /\ journal f3 = journal f) as (Hc3 & Hs3 & Hj3) by done.
  rewrite core_emit, setup_emit. split_and!; try done.
  do 2 eexists. intros log E. apply journal_emit. by rewrite Hj3.
Qed.

(** A tick: the deltas account for it, and bring the vital signs as well. *)
Lemma tick_all_spec dt variation f :
  field_wf f -> (next_id (graph f) + Z.of_nat (size (cells (graph f))) < u64_size)%Z ->
  let f' := fst (tick_all o dt variation f) in
  field_wf f' /\
  (next_id (graph f) <= next_id (graph f') <= next_id (graph f) + Z.of_nat (size (cells (graph f))))%Z /\
  setup f' = setup (set_now_ms (u64_saturating_add (now_ms f) dt) f) /\
  exists ds, accounts ds f f' /\
    forall id x, skel <$> x = skel <$> (cells (graph f) !! id) ->
      observed <$> effects ds id x = observed <$> (cells (graph f') !! id).
Proof.
  intros Hw Hroom. unfold tick_all. set (f1 := set_now_ms _ f). set (f2 := emit _ f1).
  assert (core f2 = core f) as Hc2 by exact (core_emit _ f1). pose proof (cells_core _ _ Hc2) as Hcs2.
  pose proof (next_core _ _ Hc2) as Hn2.
  pose proof (tick_cells_spec o dt variation f2 (field_wf_core _ _ Hc2 Hw)) as Ht. rewrite Hn2, Hcs2 in Ht.
  destruct (tick_cells o dt variation f2) as [[f3 events] pending].
  destruct (Ht Hroom) as (Hw3 & Hn3 & Hs3 & Hj3 & Hx3 & Hu3 & Hcalm3 & Ho3). clear Ht.
  set (f4 := set_ticks_since_impulse _ f3). set (f5 := emit_all pending f4).
  destruct (tick_reports_spec dt f5 events) as (Hc6 & Hs6 & hash & now & Hj6).
  set (f6 := fst (tick_reports o dt f5 events)) in *. cbv zeta.
  assert (core f6 = core f3) as Hc by (rewrite Hc6; exact (core_emit_all pending f4)).
  pose proof (cells_core _ _ Hc) as Hcs. pose proof (next_core _ _ Hc) as Hn.
  assert (setup f6 = setup f1) as Hs.
  { rewrite Hs6. unfold f5. rewrite setup_emit_all. change (setup f3 = setup f1). rewrite Hs3. exact (setup_emit _ f1). }
  set (ds := DTick (now_ms f1) :: pending ++ [DAwakenTick hash now]).
  assert (forall id x, effects ds id x = effects pending id x) as Heff.
  { intros id x. unfold ds, effects. cbn [fold_left effect]. by rewrite fold_left_app. }
  split_and!; [by apply (field_wf_core f3) | by rewrite Hn; apply Hn3 | by rewrite Hn; apply Hn3 | exact Hs |].
  exists ds. split; [split_and!; [.. | by apply (calm_app [DTick _]), calm_app; [apply calm_one | .. | apply calm_one]] |].
  - intros log E. replace (log ++ ds) with (((log ++ [DTick (now_ms f1)]) ++ pending) ++ [DAwakenTick hash now])
      by (unfold ds; by rewrite <- !app_assoc).
    apply Hj6, journal_emit_all. change (journal f3 = Some (log ++ [DTick (now_ms f1)])).
    rewrite Hj3. by apply journal_emit.
  - intros id. rewrite Hcs, <- effects_skel, Heff.
    pose proof (Ho3 id (cells (graph f) !! id) eq_refl) as Ho. apply (f_equal (fmap fst)) in Ho.
    rewrite <- !option_fmap_compose in Ho. symmetry. exact Ho.
  - rewrite Hn, <- Hx3. unfold ds, next_effects. cbn [fold_left next_effect]. by rewrite fold_left_app.
  - rewrite Hs. unfold ds, setup_effects. cbn [fold_left]. rewrite fold_left_app.
    fold (setup_effects pending (setup_effect (DTick (now_ms f1)) (tell (setup f)))). rewrite Hu3. done.
  - intros id x Hx. rewrite Heff, Hcs. by apply Ho3.
Qed.

(** ** Trimming *)
Lemma trim_cell_cases now coins c : c_state c <> Dead ->
  skel (trim_cell now coins c) = skel c /\ c_energy (trim_cell now coins c) = c_energy c /\
  (is_nan (c_energy c) = false -> is_kept (trim_cell now coins c) = negb (is_victim (trim_cell now coins c))).
Proof.
  intros Hd.
  assert (forall e, is_nan e = false -> f_lt (lit 1 10) e = negb (f_le e (lit 1 10))) as Hlt.
  { intros e He. destruct (f_lt (lit 1 10) e) eqn:E1, (f_le e (lit 1 10)) eqn:E2; try done.
    - apply (f_lt_le (lit 1 10) e) in E2; [congruence | done | done].
    - apply (f_lt_le (lit 1 10) e) in E1; [congruence | done | done]. }
  unfold trim_cell. destruct (c_adreno_tag c || f_le (lit 7 10) (c_salience c)) eqn:Ex.
  - split_and!; [done | done |]. intros _. unfold is_kept, is_victim. rewrite Ex. by rewrite bool_decide_false.
  - destruct (f_lt (c_salience c) (lit 2 10) && _ && _).
    + case_decide; destruct (f_lt _ (lit 5 100) && _); (split_and!; [done | done |]); intros He;
        unfold is_kept, is_victim; cbn -[f_le f_lt lit bool_decide]; rewrite Ex, Hlt by done;
        by destruct (f_le (c_energy c) (lit 1 10)), (bool_decide _).
    + split_and!; [done | done |]. intros He. unfold is_kept, is_victim. rewrite Ex, Hlt by done.
      by destruct (f_le (c_energy c) (lit 1 10)), (bool_decide _).
Qed.

Lemma is_kept_alive c : is_kept c = true -> c_state c <> Dead.
Proof.
  unfold is_kept. intros Hk Hd. rewrite (bool_decide_true (c_state c = Dead)) in Hk by done.
  destruct (_ || _); cbn in Hk; [done |]. by rewrite andb_false_r in Hk.
Qed.

(** The deaths of the victims. *)
Lemma sk_effects_deaths victims id x :
  sk_effects (map DDead victims) id x = if decide (id ∈ victims) then None else x.
Proof.
  revert x. induction victims as [|v victims IH]; intros x; [done |]. unfold sk_effects in *. cbn [map fold_left].
  rewrite IH. cbn [sk_effect]. repeat case_decide; subst; set_solver.
Qed.

Lemma deaths_quiet victims : Forall quiet (map DDead victims).
Proof. apply Forall_map, Forall_forall. intros v _. by apply quiet_local. Qed.

Lemma bury_victims victims : forall f,
  let f' := fold_left (fun f id => purge_tracking_for id (emit (DDead id) f)) victims f in
  core f' = core f /\ setup f' = setup f /\
  forall log, journal f = Some log -> journal f' = Some (log ++ map DDead victims).
Proof.
  induction victims as [|v victims IH]; intros f; cbn [fold_left].
  { split_and!; [done | done |]. intros log E. by rewrite app_nil_r. }
  set (f1 := purge_tracking_for v (emit (DDead v) f)). destruct (IH f1) as (Hc & Hs & Hj). split_and!.
  - rewrite Hc. exact (core_emit (DDead v) f).
  - rewrite Hs. exact (setup_emit (DDead v) f).
  - intros log E. cbn [map]. rewrite (cons_middle (DDead v) log (map DDead victims)).
    rewrite app_assoc. apply Hj. exact (journal_emit (DDead v) f log E).
Qed.

(** The cells of a trimmed field. *)
Definition trimmed (coins : Z -> bool * bool) (f : ClusterField) : gmap Z NodeCell :=
  map_imap (fun id c => Some (trim_cell (now_ms f) (coins id) c)) (cells (graph f)).

Lemma trimmed_lookup coins f id :
  trimmed coins f !! id = trim_cell (now_ms f) (coins id) <$> (cells (graph f) !! id).
Proof. unfold trimmed. rewrite map_lookup_imap. by destruct (cells (graph f) !! id). Qed.

Lemma trimmed_size coins f : size (trimmed coins f) = size (cells (graph f)).
Proof.
  rewrite <- !size_dom. f_equal. apply set_eq. intros id. rewrite !elem_of_dom, trimmed_lookup.
  by rewrite fmap_is_Some.
Qed.

Lemma trim_wf coins f :
  field_wf f ->
  let living := filter (fun e => is_kept e.2 = true) (trimmed coins f) in
  let f1 := set_cells living f in
  let f2 := if (size living =? size (cells (graph f)))%nat then f1 else rebuild_index o f1 in
  field_wf f2 /\ cells (graph f2) = living /\ next_id (graph f2) = next_id (graph f) /\
  setup f2 = setup f /\ journal f2 = journal f.
Proof.
  intros [Hw Ha] living f1 f2.
  assert (core_wf (trimmed coins f, index (graph f), next_id (graph f))) as Hwt.
  { apply (keeps_cells (cells (graph f))); [exact Hw |]. intros id. rewrite trimmed_lookup.
    destruct (cells (graph f) !! id) as [c|] eqn:E; [| done]. cbn. apply skel_keeps.
    by apply trim_cell_cases, (Ha id). }
  assert (alive living) as Hal.
  { intros id c E. apply map_lookup_filter_Some in E as [_ Hk]. by apply is_kept_alive. }
  unfold f2. destruct (Nat.eqb_spec (size living) (size (cells (graph f)))) as [Hs | Hs].
  - split_and!; try done. split; [| done]. unfold core. cbn.
    assert (living = trimmed coins f) as ->; [| done].
    apply filter_same_size. fold living. by rewrite Hs, trimmed_size.
  - assert (cells_wf living (next_id (graph f))) as Hl by (apply cells_wf_filter, Hwt).
    destruct (rebuild_index_spec o f1 Hl) as (Hw' & Hc' & Hn' & Hj' & _).
    split_and!; try done; [split; [done | by rewrite Hc'] | by rewrite setup_rebuild].
Qed.

Lemma trim_sound coins f :
  field_wf f ->
  setup (trim_low_energy o coins f) = setup f /\
  sound 0 (map_Forall (fun _ c => is_nan (c_energy c) = false) (cells (graph f))) f (trim_low_energy o coins f).
Proof.
  intros Hw. unfold trim_low_energy.
  set (body := fun id c (u : unit) => (trim_cell (now_ms f) (coins id) c, u)).
  assert (fst (key_loop body (hm_keys o (cells (graph f))) (cells (graph f)) tt) = trimmed coins f) as Ek.
  { by apply (key_loop_all body (fun id c => trim_cell (now_ms f) (coins id) c)). }
  destruct (key_loop body _ _ tt) as [cs u]. cbn [fst] in Ek. subst cs.
  destruct (trim_wf coins f Hw) as (Hw2 & Hc2 & Hn2 & Hs2 & Hj2). cbv zeta in *.
  set (living := filter _ (trimmed coins f)) in *. set (f2 := if (size living =? _)%nat then _ else _) in *.
  set (victims := (List.filter _ _).*1). destruct (bury_victims victims f2) as (Hc3 & Hs3 & Hj3).
  set (f3 := fold_left _ victims f2) in *.
  assert (core (refresh_important_cells f3) = core f2) as Hc by by rewrite core_refresh.
  split; [change (setup f3 = setup f); by rewrite Hs3, Hs2 |].
  split_and!; [by apply (field_wf_core f2) | rewrite (next_core _ _ Hc), Hn2; lia | rewrite (next_core _ _ Hc), Hn2; lia |].
  intros Hnan. exists (map DDead victims). pose proof (quiet_effects _ (deaths_quiet victims)) as [Hqn Hqs].
  split_and!; [intros log E; apply Hj3; by rewrite Hj2 | | by rewrite (next_core _ _ Hc), Hn2, Hqn
    | rewrite Hqs; change (tell (setup f3) = tell (setup f)); by rewrite Hs3, Hs2 | apply calm_all, Forall_map, Forall_forall; intros; by apply calm_one].
  intros id. rewrite (cells_core _ _ Hc), Hc2, sk_effects_deaths.
  assert (id ∈ victims <-> exists c, trimmed coins f !! id = Some c /\ is_victim c = true) as Hv.
  { unfold victims. rewrite list_elem_of_fmap. split.
    - intros ([i c] & -> & Hin%list_elem_of_In). apply filter_In in Hin as [Hin Hk].
      exists c. split; [| done]. by apply (elem_of_hm_iter o), list_elem_of_In.
    - intros (c & E & Hk). exists (id, c). split; [done |]. apply list_elem_of_In, filter_In.
      split; [| done]. by apply list_elem_of_In, (elem_of_hm_iter o). }
  destruct Hw as [_ Ha]. unfold living. rewrite map_lookup_filter, trimmed_lookup in *.
  destruct (cells (graph f) !! id) as [c|] eqn:E; cbn in *; [| by case_decide].
  destruct (trim_cell_cases (now_ms f) (coins id) c (Ha id c E)) as (Hsk & _ & Hk).
  specialize (Hk (Hnan id c E)). set (c' := trim_cell _ _ c) in *. case_decide as Hin.
  - apply Hv in Hin as (? & [= <-] & Hvi). rewrite option_guard_False; [done |]. by rewrite Hk, Hvi.
  - rewrite option_guard_True; [by cbn; rewrite Hsk |]. rewrite Hk. destruct (is_victim c') eqn:Ev; [| done].
    exfalso. apply Hin, Hv. by exists c'.
Qed.

(** ** Injection *)
Definition links_to (id : Z) (coin : Z -> bool) (k : Z) (c : NodeCell) : bool :=
  bool_decide (c_id c <> id) && coin k && negb (bool_decide (id ∈ c_links c)).
Definition linked (id : Z) (coin : Z -> bool) (k : Z) (c : NodeCell) : NodeCell :=
  if links_to id coin k c then with_link id c else c.
Definition link_deltas (id : Z) (coin : Z -> bool) (k : Z) (c : NodeCell) : list EventDelta :=
  if links_to id coin k c then [DLink (c_id c) id] else [].

Lemma link_deltas_effects id coin k c : c_id c = k ->
  (forall i x, i <> k -> effects (link_deltas id coin k c) i x = x) /\
  effects (link_deltas id coin k c) k (Some c) = Some (linked id coin k c) /\ Forall quiet (link_deltas id coin k c).
Proof.
  intros <-. unfold link_deltas, linked. destruct (links_to id coin (c_id c) c); [| done]. split_and!.
  - intros i x Hne. rewrite effects_one. cbn. by rewrite decide_False.
  - rewrite effects_one. cbn. by rewrite decide_True.
  - constructor; [by apply quiet_local | done].
Qed.

Lemma link_phase id coin f :
  field_wf f -> (0 < id < next_id (graph f))%Z ->
  let '(cs, (evs, links)) := key_loop (link_body id coin) (hm_keys o (cells (graph f))) (cells (graph f)) ([], []) in
  ok_step 0 f (fold_left (fun f l => register_link l.1 l.2 f) links (emit_all evs (set_cells cs f))).
Proof.
  intros [Hw Ha] Hid. pose proof (hm_keys_NoDup o (cells (graph f))) as Hnd.
  set (h := fun k => match cells (graph f) !! k with Some v => link_deltas id coin k v | None => [] end).
  assert (fst (key_loop (link_body id coin) (hm_keys o (cells (graph f))) (cells (graph f)) ([], []))
    = map_imap (fun k c => Some (linked id coin k c)) (cells (graph f))) as Ecs.
  { apply (key_loop_all (link_body id coin) (linked id coin)). intros k v s. unfold link_body, linked, links_to.
    by destruct (_ && _ && _). }
  assert (fst (snd (key_loop (link_body id coin) (hm_keys o (cells (graph f))) (cells (graph f)) ([], [])))
    = concat (map h (hm_keys o (cells (graph f))))) as Eds.
  { refine (key_loop_writer (link_body id coin) fst (link_deltas id coin) _ _ _ ([], []) Hnd).
    intros k v s. unfold link_body, link_deltas, links_to. destruct (_ && _ && _); [done | by rewrite app_nil_r]. }
  destruct (key_loop (link_body id coin) _ _ _) as [cs [evs links]]. cbn [fst snd] in *.
  set (f1 := set_cells cs f).
  assert (forall k, cs !! k = linked id coin k <$> (cells (graph f) !! k)) as Hcs.
  { intros k. rewrite Ecs, map_lookup_imap. by destruct (cells (graph f) !! k). }
  assert (forall k c, cells (graph f) !! k = Some c -> c_id c = k) as Hids.
  { intros k c E. destruct Hw as [[_ Hf] _]. by destruct (Hf k c E). }
  assert (Forall quiet evs) as Hq.
  { rewrite Eds. apply Forall_concat, Forall_forall. intros ds Hds.
    apply list_elem_of_In, in_map_iff in Hds as (k & <- & _). unfold h.
    destruct (cells (graph f) !! k) as [c|] eqn:E; [by apply link_deltas_effects, Hids | constructor]. }
  apply quiet_effects in Hq as [Hqn Hqs].
  assert (forall k, effects evs k (cells (graph f) !! k) = cs !! k) as Heff.
  { intros k. rewrite Eds, Hcs.
    assert (forall k' i y, i <> k' -> effects (h k') i y = y) as Hother.
    { intros k' i y Hne. unfold h. destruct (cells (graph f) !! k') as [c|] eqn:E; [| done].
      by apply (link_deltas_effects id coin k' c (Hids k' c E)). }
    destruct (decide (k ∈ hm_keys o (cells (graph f)))) as [Hin | Hin].
    - rewrite (effects_concat_one h) by done. unfold h.
      destruct (cells (graph f) !! k) as [c|] eqn:E; [| done].
      by apply (link_deltas_effects id coin k c (Hids k c E)).
    - rewrite effects_concat_other by (intros k' Hk' y; apply Hother; intros ->; done).
      rewrite elem_of_hm_keys in Hin. apply eq_None_not_Some in Hin. by rewrite Hin. }
  assert (ok_step 0 f (emit_all evs f1)) as Hok.
  { pose proof (core_emit_all evs f1) as Hc. split.
    - split; [rewrite Hc; unfold core; cbn | rewrite (cells_core _ _ Hc); cbn].
      + apply (keeps_cells (cells (graph f))); [exact Hw |]. intros k. rewrite Hcs.
        destruct (cells (graph f) !! k) as [c|]; [| done]. cbn. unfold linked.
        destruct (links_to id coin k c); split_and!; try done; [| by left].
        intros to [? | ->%elem_of_singleton]%elem_of_union; [by left | by right].
      + intros k c E. rewrite Hcs in E. destruct (cells (graph f) !! k) as [c0|] eqn:E0; [| done].
        injection E as <-. unfold linked. destruct (links_to id coin k c0); exact (Ha k c0 E0).
    - rewrite (next_core _ _ Hc). cbn. lia.
    - by rewrite setup_emit_all.
    - exists evs. split_and!; [intros log E; by apply journal_emit_all | | rewrite (next_core _ _ Hc), Hqn; done
        | rewrite setup_emit_all, Hqs; done | rewrite Eds; apply calm_concat; intros k; unfold h, link_deltas;
            destruct (cells (graph f) !! k); [case_match; [by apply calm_one | apply calm_nil] | apply calm_nil]].
      intros k. rewrite (cells_core _ _ Hc), <- effects_skel, Heff. done. }
  eapply (ok_trans 0 0); [exact Hok |]. apply ok_frame; [apply Hok | ..].
  - apply core_fold. intros. apply core_register_link.
  - apply journal_fold. intros. apply journal_register_link.
  - apply setup_fold. intros. apply setup_register_link.
Qed.

Lemma inject_ok base bud coin f :
  field_wf f -> (next_id (graph f) + 1 < u64_size)%Z -> ok_step 1 f (inject_seed_variation o base bud coin f).
Proof.
  intros Hw Hn. unfold inject_seed_variation. destruct (64 <? size (cells (graph f)))%nat.
  { eapply ok_weaken; [| by apply ok_frame]. lia. }
  set (c := mkCell _ _ Active _ _ _ _ _ _ _ _).
  destruct (ok_spawn o c f Hw eq_refl eq_refl ltac:(done) Hn) as [Hok _].
  set (f1 := spawn_cell o c _) in *.
  assert (0 < next_id (graph f) < next_id (graph f1))%Z as Hid.
  { destruct Hw as [[[Hpos _] _] _]. split; [done |]. unfold f1, spawn_cell.
    rewrite (next_core _ _ (core_emit _ _)), next_attach. cbn. rewrite u64_add_small; unfold u64_size in *; lia. }
  pose proof (link_phase (next_id (graph f)) coin f1 (os_wf _ _ _ Hok) Hid) as Hl.
  destruct (key_loop (link_body _ coin) _ _ _) as [cs [evs links]].
  eapply (ok_trans 1 0); [exact Hok | exact Hl].
Qed.
End sound.
