(* ===== verification/FieldDream.v ===== *)
(** * The cluster field: dreams and collective dreams

    [run_dream] ([dream_engine.rs]) strengthens the links of the pairs of cells that answered
    together most often and weakens, prunes and rewires those of the rarest; [run_collective_dream]
    ([synchrony.rs]) shares tokens in groups of cells that answered together. The time a cycle took
    ([Instant::now().elapsed()]) is the argument [took]. *)

From stdpp Require Import prelude gmap strings fin_maps fin_sets list sorting.
From Stdlib Require Import ZArith Lia SpecFloat.
From S2P Require Import Prelude RustStr RustOrd Float RustText Json NodeCell Trs Seeds Symmetry FieldTypes Feedback Variant Resonant Journal Collections Field FieldOps FieldTick.
From S2P Require Views.

(** ** Pairs of cells that answered together *)
(** The pairs of one token: [relevant] from the left, each entry with the later ones until they are
    too far apart. *)
Fixpoint pairs_with (window_ms : Z) (l : RecentRoute) (rest : list RecentRoute) : list (Z * Z * f32) :=
  match rest with
  | [] => []
  | r :: rest' =>
      if (window_ms <? u64_saturating_sub (ro_ts r) (ro_ts l))%Z then []
      else if (ro_node l =? ro_node r)%Z then pairs_with window_ms l rest'
      else
        (Z.min (ro_node l) (ro_node r), Z.max (ro_node l) (ro_node r),
         f32_mul (f32_add (ro_strength l) (ro_strength r)) (lit 5 10)) :: pairs_with window_ms l rest'
  end.
Fixpoint pairs_of_history (window_ms : Z) (relevant : list RecentRoute) : list (Z * Z * f32) :=
  match relevant with
  | [] => []
  | l :: rest => pairs_with window_ms l rest ++ pairs_of_history window_ms rest
  end.

Definition count_pair (accum : gmap (Z * Z) (Z * f32)) (p : Z * Z * f32) : gmap (Z * Z) (Z * f32) :=
  let entry := default (0%Z, f0) (accum !! p.1) in
  <[p.1 := (Z.min (fst entry + 1) u32_max, f32_add (snd entry) p.2)]> accum.

Section dream.
Context `{UnicodeCase}.
Variable o : HashOrder.

Definition collect_recent_pairs (window_ms : Z) (f : ClusterField) : list PairStat :=
  let cutoff := u64_saturating_sub (now_ms f) window_ms in
  let found :=
    concat (map (fun history =>
      let relevant := List.filter (fun entry => cutoff <=? ro_ts entry)%Z history in
      if (length relevant <? 2)%nat then [] else pairs_of_history window_ms relevant)
      (hm_values o (recent_routes (traffic f)))) in
  map (fun e =>
    let '(count, total) := e.2 in
    mkPairStat e.1.1 e.1.2 (f32_of_Z count)
      (if (0 <? count)%Z then f32_div total (f32_of_Z count) else f0))
    (hm_iter o (fold_left count_pair found ∅)).
Definition recent_pairs : Z -> ClusterField -> list PairStat := collect_recent_pairs.

(** ** Dreams *)
Definition should_protect (u v : Z) (cfg : DreamConfig) (f : ClusterField) : bool :=
  let protect id :=
    match cell id f with
    | Some c => f_le (dc_protect_salience cfg) (c_salience c) || (adreno_protect cfg && c_adreno_tag c)
    | None => false
    end in
  protect u || protect v.

Definition has_link (from to : Z) (f : ClusterField) : bool :=
  match cell from f with Some c => bool_decide (to ∈ c_links c) | None => false end.

Definition pick_direction (a b : Z) (f : ClusterField) : option (Z * Z) :=
  if has_link a b f then Some (a, b) else if has_link b a f then Some (b, a) else None.

Definition emit_dream_strengthen (from to : Z) (freq avg : f32) (f : ClusterField) : ClusterField :=
  emit (DDreamStrengthen (mkDreamEdge from to (link_score from to f) freq avg)) f.
Definition emit_dream_weaken (from to : Z) (freq avg : f32) (f : ClusterField) : ClusterField :=
  emit (DDreamWeaken (mkDreamEdge from to (link_score from to f) freq avg)) f.

(** What the loops carry. *)
Record Dreaming : Type := mkDreaming {
  dg_field : ClusterField;
  dg_report : DreamReport;
  dg_ops : Z;
  dg_touched : gset (Z * Z)
}.

Definition add_strengthened (r : DreamReport) : DreamReport :=
  mkDreamReport (u32_add (dr_strengthened r) 1) (dr_weakened r) (dr_pruned r) (dr_protected r) (dr_rewired r) (dr_took_ms r).
Definition add_weakened (r : DreamReport) : DreamReport :=
  mkDreamReport (dr_strengthened r) (u32_add (dr_weakened r) 1) (dr_pruned r) (dr_protected r) (dr_rewired r) (dr_took_ms r).
Definition add_pruned (r : DreamReport) : DreamReport :=
  mkDreamReport (dr_strengthened r) (dr_weakened r) (u32_add (dr_pruned r) 1) (dr_protected r) (dr_rewired r) (dr_took_ms r).
Definition add_protected (r : DreamReport) : DreamReport :=
  mkDreamReport (dr_strengthened r) (dr_weakened r) (dr_pruned r) (u32_add (dr_protected r) 1) (dr_rewired r) (dr_took_ms r).
Definition add_rewired (n : Z) (r : DreamReport) : DreamReport :=
  mkDreamReport (dr_strengthened r) (dr_weakened r) (dr_pruned r) (dr_protected r) (u32_add (dr_rewired r) n) (dr_took_ms r).
Definition set_took_ms (took : Z) (r : DreamReport) : DreamReport :=
  mkDreamReport (dr_strengthened r) (dr_weakened r) (dr_pruned r) (dr_protected r) (dr_rewired r) took.

(** [saturating_sub] on the budget of operations. *)
Definition spend (n : Z) (ops : Z) : Z := Z.max (ops - n) 0.

Definition strengthen_one (cfg : DreamConfig) (d : Dreaming) (entry : PairStat) : Dreaming :=
  let '(mkDreaming f report ops touched) := d in
  if (ops =? 0)%Z then d
  else if should_protect (ps_u entry) (ps_v entry) cfg f then mkDreaming f (add_protected report) ops touched
  else if decide ((ps_u entry, ps_v entry) ∈ touched) then d
  else
    let touched := touched ∪ {[(ps_u entry, ps_v entry)]} in
    match pick_direction (ps_u entry) (ps_v entry) f with
    | None => mkDreaming f report ops touched
    | Some (from, to) =>
        let '(f, changed) := adjust_link_score from to (lit 15 100) f in
        if changed then
          mkDreaming (emit_dream_strengthen from to (ps_freq entry) (ps_avg_strength entry) f)
            (add_strengthened report) (spend 1 ops) touched
        else mkDreaming f report ops touched
    end.

(** The end of a weak link. *)
Definition prune_and_rewire (from to : Z) (f : ClusterField) (report : DreamReport) (ops : Z)
  : ClusterField * DreamReport * Z :=
  let '(f, pruned) := prune_link from to f in
  if pruned then
    let report := add_pruned report in
    let f := emit (DDreamPrune from to) f in
    let ops := spend 1 ops in
    if (ops =? 0)%Z then (f, report, ops)
    else
      let '(f, a) := rewire_lonely o from f in
      let '(f, b) := rewire_lonely o to f in
      let a := default 0%Z a in
      let b := default 0%Z b in
      (f, add_rewired (u32_add a b) report, spend (Z.min (a + b) u32_max) ops)
  else (f, report, ops).

Definition weaken_one (cfg : DreamConfig) (d : Dreaming) (entry : PairStat) : Dreaming :=
  let '(mkDreaming f report ops touched) := d in
  if (ops =? 0)%Z then d
  else if should_protect (ps_u entry) (ps_v entry) cfg f then mkDreaming f (add_protected report) ops touched
  else if decide ((ps_u entry, ps_v entry) ∈ touched) then d
  else
    let touched := touched ∪ {[(ps_u entry, ps_v entry)]} in
    match pick_direction (ps_u entry) (ps_v entry) f with
    | None => mkDreaming f report ops touched
    | Some (from, to) =>
        let '(f, changed) := adjust_link_score from to (lit (-2) 10) f in
        if changed then
          let ops := spend 1 ops in
          let report := add_weakened report in
          let f := emit_dream_weaken from to (ps_freq entry) (ps_avg_strength entry) f in
          if f_le (link_score from to f) (lit 25 100) then
            let '(f, report, ops) := prune_and_rewire from to f report ops in
            mkDreaming f report ops touched
          else mkDreaming f report ops touched
        else mkDreaming f report ops touched
    end.

Definition record_dream_report (now : Z) (report : DreamReport) (f : ClusterField) : ClusterField :=
  let f := set_sync_log (record_dream now report (sync_log (cycles f))) (last_awaken_tick (cycles f)) f in
  let f := put_dream_reports (last_n 16 (dream_reports (cycles f) ++ [(now, report)])) (last_dream_ms (cycles f)) f in
  emit (DDreamReport now report) f.

(** [((total as f32) * pct).round().clamp(0.0, total as f32) as usize] *)
Definition share_of (total : nat) (pct : f32) : nat :=
  let t := f32_of_Z (Z.of_nat total) in
  Z.to_nat (f_as_usize (f32_clamp (f32_round (f32_mul t pct)) f0 t)).

Definition run_dream (cfg : DreamConfig) (now took : Z) (f : ClusterField) : ClusterField * DreamReport :=
  if (max_ops_per_cycle cfg =? 0)%Z then (f, DreamReport_default)
  else
    match recent_pairs (dc_window_ms cfg) f with
    | [] => (f, set_took_ms took DreamReport_default)
    | pairs =>
        let pairs := sort_by (fun a b => f_desc (ps_freq a) (ps_freq b)) pairs in
        let strengthen_count := share_of (length pairs) (strengthen_top_pct cfg) in
        let weaken_count := share_of (length pairs) (weaken_bottom_pct cfg) in
        let d := fold_left (strengthen_one cfg) (take strengthen_count pairs)
                   (mkDreaming f DreamReport_default (max_ops_per_cycle cfg) ∅) in
        let d :=
          if (0 <? dg_ops d)%Z && (0 <? weaken_count)%nat then
            fold_left (weaken_one cfg)
              (take weaken_count (sort_by (fun a b => f_asc (ps_freq a) (ps_freq b)) pairs)) d
          else d in
        let report := set_took_ms took (dg_report d) in
        (record_dream_report now report (dg_field d), report)
    end.

Definition run_dream_cycle (took : Z) (f : ClusterField) : ClusterField * option DreamReport :=
  if (size (cells (graph f)) <? 2)%nat then (f, None)
  else
    let '(f', report) := run_dream (dream_cfg (cycles f)) (now_ms f) took f in
    (put_dream_reports (dream_reports (cycles f')) (now_ms f') f', Some report).

(** ** The cell that [rewire_lonely] picks *)
Lemma best_known {A} (P : Z -> Prop) (step : option (Z * f32) -> Z * A -> option (Z * f32)) (l : list (Z * A)) :
  (forall b e, e ∈ l -> step b e = b \/ P e.1 /\ exists d, step b e = Some (e.1, d)) ->
  forall b, (forall t d, b = Some (t, d) -> P t) -> forall t d, fold_left step l b = Some (t, d) -> P t.
Proof.
  induction l as [|e l IH]; intros Hs b Hb t d E; cbn [fold_left] in E; [by eapply Hb |].
  eapply (IH ltac:(intros; apply Hs; by right) (step b e)); [| exact E].
  intros t' d' Et. destruct (Hs b e ltac:(by left)) as [Eq | (Hp & d0 & Eq)]; rewrite Eq in Et; [by eapply Hb |].
  by injection Et as <- _.
Qed.

Lemma rewire_shape id f :
  fst (rewire_lonely o id f) = f \/
  exists c target, cells (graph f) !! id = Some c /\ c_links c = ∅ /\ target <> id /\ is_Some (cells (graph f) !! target) /\
    fst (rewire_lonely o id f) = emit (DDreamRewire id target) (emit (DLink id target) (register_link id target
      (set_cells (<[id := set_links (c_links c ∪ {[target]}) c]> (cells (graph f))) f))).
Proof.
  unfold rewire_lonely. destruct (cells (graph f) !! id) as [c|] eqn:E; [| by left].
  case_decide as Hc; [by left |]. set (step := fun best e => _). set (all := hm_iter o (cells (graph f))).
  destruct (fold_left step all None) as [[target dist]|] eqn:Eb; [| by left]. right. exists c, target.
  assert (target <> id /\ is_Some (cells (graph f) !! target)) as [Hne Hs]; [| by split_and!].
  refine (best_known (fun t => t <> id /\ is_Some (cells (graph f) !! t)) step all _ None ltac:(done) target dist Eb).
  intros b [k c'] Hin. apply elem_of_hm_iter in Hin. unfold step. cbn [fst snd].
  case_decide as Hk; [by left |]. assert (k <> id /\ is_Some (cells (graph f) !! k)) by (split; [tauto | by eexists]).
  destruct b as [[t d]|]; [| right; split; [done | by eexists]].
  destruct (f_lt _ d); [right; split; [done | by eexists] | by left].
Qed.
End dream.

(** * The cluster field: collective dreams ([synchrony.rs])

    Groups of cells that answered together are the connected components of the graph of strong
    pairs ([FieldComponents.sync_groups_exact]); [run_collective_dream] shares tokens, tempo and links
    within each group. *)

Definition score_pair (p : PairStat) : f32 :=
  f32_mul (f32_add (f32_max (ps_freq p) f0) f1) (f32_add (f32_max (ps_avg_strength p) f0) (lit 5 10)).

(** [adjacency.entry(u).or_default().push(v)] *)
Definition push_edge (u v : Z) (m : gmap Z (list Z)) : gmap Z (list Z) := <[u := default [] (m !! u) ++ [v]]> m.
Definition build_adjacency (pairs : list PairStat) (threshold : f32) : gmap Z (list Z) :=
  fold_left (fun m p =>
    if f_lt (ps_avg_strength p) threshold then m
    else push_edge (ps_v p) (ps_u p) (push_edge (ps_u p) (ps_v p) m)) pairs ∅.

(** ** The components *)
Section components.
Variable adjacency : gmap Z (list Z).

Definition neighbors (n : Z) : list Z := default [] (adjacency !! n).

(** One component: the stack has its top first. *)
Fixpoint component_loop (fuel : nat) (seen : gset Z) (stack component : list Z) : gset Z * list Z :=
  match fuel, stack with
  | S fuel, current :: stack =>
      if decide (current ∈ seen) then component_loop fuel seen stack component
      else
        let seen := seen ∪ {[current]} in
        let stack := fold_left (fun stack next => if decide (next ∈ seen) then stack else next :: stack)
                       (neighbors current) stack in
        component_loop fuel seen stack (component ++ [current])
  | _, _ => (seen, component)
  end.

(** Every edge is pushed at most once. *)
Definition component_fuel : nat := S (size adjacency + length (concat (map snd (map_to_list adjacency)))).

Definition component_step (acc : gset Z * list (list Z)) (node : Z) : gset Z * list (list Z) :=
  let '(seen, groups) := acc in
  if decide (node ∈ seen) then acc
  else
    let '(seen, component) := component_loop component_fuel seen [node] [] in
    (seen, if (1 <? length component)%nat then groups ++ [component] else groups).
End components.
Definition extract_components (o : HashOrder) (adjacency : gmap Z (list Z)) : list (list Z) :=
  snd (fold_left (component_step adjacency) (hm_keys o adjacency) (∅, [])).

Section sync.
Context `{UnicodeCase}.
Variable o : HashOrder.

(** ** Tokens of a group *)
Definition route_score (focus : gset Z) (history : list RecentRoute) : option f32 :=
  let '(total, hits) :=
    fold_left (fun acc entry =>
      if decide (ro_node entry ∈ focus) then (f32_add (fst acc) (ro_strength entry), (snd acc + 1)%Z) else acc)
      (take 64 (reverse history)) (f0, 0%Z) in
  if (0 <? hits)%Z then Some (f32_add total (f32_mul (f32_of_Z hits) (lit 25 100))) else None.

Definition count_token (m : gmap string Z) (token : string) : gmap string Z :=
  <[token := u32_add (default 0%Z (m !! token)) 1]> m.

Definition sync_top_tokens (nodes : list Z) (top_k : Z) (f : ClusterField) : list string :=
  if bool_decide (nodes = []) || (top_k =? 0)%Z then []
  else
    let focus : gset Z := list_to_set nodes in
    let scores : gmap string f32 := omap (route_score focus) (recent_routes (traffic f)) in
    let ranked := sort_by (fun a b => f_desc a.2 b.2) (hm_iter o scores) in
    let selected := (take (Z.to_nat top_k) ranked).*1 in
    if decide (selected = []) then
      let fallback :=
        fold_left (fun m node =>
          match cells (graph f) !! node with
          | Some c => fold_left count_token (tokenize (core_pattern (c_seed c))) m
          | None => m
          end) nodes ∅ in
      (take (Z.to_nat top_k) (sort_by (fun a b => b.2 <=? a.2)%Z (hm_iter o fallback))).*1
    else selected.

(** [None] is the panic of [partial_cmp(...).unwrap()] on a NaN. *)
Definition detect_sync_groups (cfg : SyncConfig) (now : Z) (f : ClusterField) : option (list SyncGroup) :=
  let window := Z.max (phase_len_ms cfg) 500 in
  match recent_pairs o window f with
  | [] => Some []
  | pairs =>
      let strong := List.filter (fun p => f_le (cooccur_threshold cfg) (ps_avg_strength p)) pairs in
      if (1 <? length strong)%nat && existsb (fun p => is_nan (score_pair p)) strong then None
      else
        let sorted := sort_by (fun a b => f_desc (score_pair a) (score_pair b)) strong in
        let components := extract_components o (build_adjacency sorted (cooccur_threshold cfg)) in
        let components := sort_by (fun a b => length b <=? length a)%nat components in
        Some (omap (fun e : nat * list Z =>
                let tokens := sync_top_tokens e.2 (share_top_k cfg) f in
                if decide (tokens = []) then None
                else Some (mkSyncGroup (u64_add (Z.shiftl now 16 mod u64_size) (Z.of_nat e.1)) e.2 tokens))
              (take (Z.to_nat (max_groups cfg)) (zip (seq 0 (length components)) components)))
  end.

(** ** Sharing *)
Definition community_centroid (nodes : list Z) (f : ClusterField) : f32 :=
  let '(total, count) :=
    fold_left (fun acc node =>
      match cells (graph f) !! node with
      | Some c => (f32_add (fst acc) (c_affinity c), Z.min (snd acc + 1) u32_max)
      | None => acc
      end) nodes (f0, 0%Z) in
  if (count =? 0)%Z then f0 else f32_div total (f32_of_Z count).

Definition u32_inc (n : Z) : Z := Z.min (n + 1) u32_max.

(** The cell of a node moves towards the centroid; whether it was aligned, and whether protected. *)
Definition share_cell (centroid norm_weight : f32) (c : NodeCell) : NodeCell * bool * bool :=
  let node_protected := f_le (lit 6 10) (c_salience c) || c_adreno_tag c in
  let diff := f32_sub centroid (c_affinity c) in
  let moved := f_lt (lit 2 1000) (f32_abs diff) in
  let c := if moved then set_affinity (f32_clamp (f32_add (c_affinity c) (f32_mul diff (lit 8 100))) f0 f1) c else c in
  let c :=
    if node_protected then c
    else
      let adjust :=
        if f_lt diff f0 then f32_sub f1 (f32_mul norm_weight (lit 5 100))
        else f32_add f1 (f32_mul norm_weight (lit 5 100)) in
      set_metabolism (f32_clamp (f32_mul (c_metabolism c) adjust) (lit 5 100) (lit 5 1)) c in
  (c, moved, node_protected).

(** What the loops of [share_tokens] carry: the field, the three counts and the shares. *)
Record Sharing : Type := mkSharing {
  sh_field : ClusterField;
  sh_shared : Z;
  sh_aligned : Z;
  sh_protected : Z;
  sh_events : list EventDelta
}.

Definition share_token (norm_weight : f32) (node : Z) (s : Sharing) (token : string) : Sharing :=
  let f := sh_field s in
  let entry := default f1 (route_bias (traffic f) !! (token, node)) in
  let updated := f32_clamp (f32_add entry norm_weight) (lit 2 10) (lit 5 1) in
  if f_lt f32_epsilon (f32_abs (f32_sub updated entry)) then
    mkSharing (set_route_bias (<[(token, node) := updated]> (route_bias (traffic f))) f)
      (u32_inc (sh_shared s)) (sh_aligned s) (sh_protected s) (sh_events s ++ [DSyncShare node token updated])
  else
    mkSharing (set_route_bias (<[(token, node) := entry]> (route_bias (traffic f))) f)
      (sh_shared s) (sh_aligned s) (sh_protected s) (sh_events s).

Definition share_node (centroid norm_weight : f32) (tokens : list string) (s : Sharing) (node : Z) : Sharing :=
  match cells (graph (sh_field s)) !! node with
  | None => s
  | Some c =>
      let '(c, moved, node_protected) := share_cell centroid norm_weight c in
      let s :=
        mkSharing (set_cells (<[node := c]> (cells (graph (sh_field s)))) (sh_field s)) (sh_shared s)
          (if moved then u32_inc (sh_aligned s) else sh_aligned s)
          (if node_protected then u32_inc (sh_protected s) else sh_protected s) (sh_events s) in
      fold_left (share_token norm_weight node) tokens s
  end.

(** One direction of a pair; the accumulator is the field and the count of alignments. *)
Definition align_one (norm_weight : f32) (from to : Z) (acc : ClusterField * Z) : ClusterField * Z :=
  let '(f, aligned) := acc in
  let '(f, changed) := adjust_link_score from to norm_weight f in
  if changed then (emit (DSyncAlign from to (link_score from to f)) f, u32_inc aligned) else (f, aligned).
Definition align_pair (norm_weight : f32) (acc : ClusterField * Z) (p : Z * Z) : ClusterField * Z :=
  align_one norm_weight p.2 p.1 (align_one norm_weight p.1 p.2 acc).

(** The field and (shared, aligned, protected). *)
Definition share_tokens (nodes : list Z) (tokens : list string) (weight : f32) (f : ClusterField)
  : ClusterField * (Z * Z * Z) :=
  if bool_decide (nodes = []) || bool_decide (tokens = []) then (f, (0, 0, 0)%Z)
  else
    let norm_weight := f32_clamp weight (lit 5 100) (lit 5 10) in
    let centroid := community_centroid nodes f in
    let s := fold_left (share_node centroid norm_weight (map to_lowercase tokens)) nodes (mkSharing f 0 0 0 []) in
    let '(f, aligned) := fold_left (align_pair norm_weight) (all_pairs nodes) (sh_field s, sh_aligned s) in
    (emit_all (sh_events s) f, (sh_shared s, aligned, sh_protected s)).

Definition record_sync_report (now : Z) (report : SyncReport) (f : ClusterField) : ClusterField :=
  let f := set_sync_log (record_collective now report (sync_log (cycles f))) (last_awaken_tick (cycles f)) f in
  let f := put_sync_reports (last_n 16 (sync_reports (cycles f) ++ [(now, report)])) f in
  emit (DCollectiveDreamReport now report) f.

Definition u32_sat (a b : Z) : Z := Z.min (a + b) u32_max.
Definition share_group (weight : f32) (acc : ClusterField * SyncReport) (group : SyncGroup) : ClusterField * SyncReport :=
  let '(f, r) := acc in
  let '(f, (shared, aligned, protected)) := share_tokens (sg_nodes group) (sg_tokens group) weight f in
  (f, mkSyncReport (sr_groups r) (u32_sat (sr_shared r) shared) (u32_sat (sr_aligned r) aligned)
        (u32_sat (sr_protected r) protected) (sr_took_ms r)).

Definition run_collective_dream (groups : list SyncGroup) (cfg : SyncConfig) (now took : Z) (f : ClusterField)
  : ClusterField * SyncReport :=
  match groups with
  | [] => (f, SyncReport_default)
  | _ =>
      let report := mkSyncReport (Z.of_nat (length groups) mod 2 ^ 16) 0 0 0 0 in
      let '(f, r) := fold_left (share_group (weight_xfer cfg)) groups (f, report) in
      let r := mkSyncReport (sr_groups r) (sr_shared r) (sr_aligned r) (sr_protected r) took in
      (record_sync_report now r f, r)
  end.
End sync.
