(* ===== verification/FieldComponents.v ===== *)
(** * The cluster field: groups are connected components

    The depth-first search of [extract_components] against the relation it computes. *)

From stdpp Require Import prelude gmap strings fin_maps fin_sets list sorting relations.
From Stdlib Require Import ZArith Lia SpecFloat.
From S2P Require Import Prelude RustStr Float RustText NodeCell FieldTypes Collections Field FieldOps FieldDream.

Section search.
Variable adjacency : gmap Z (list Z).

Definition edge (a b : Z) : Prop := b ∈ neighbors adjacency a.
Definition connected : relation Z := rtc edge.

(** ** Fuel *)
Definition open_degree (seen : gset Z) (e : Z * list Z) : nat := if decide (e.1 ∈ seen) then 0 else length e.2.
Definition open_degrees (seen : gset Z) : nat := sum_list (map (open_degree seen) (map_to_list adjacency)).

Lemma open_degrees_out (l : list (Z * list Z)) seen n : n ∉ l.*1 ->
  sum_list (map (open_degree (seen ∪ {[n]})) l) = sum_list (map (open_degree seen) l).
Proof.
  induction l as [|[k ns] l IH]; intros Hn; [done |]. cbn in Hn. apply not_elem_of_cons in Hn as [Hne Hn].
  cbn [map sum_list]. rewrite IH by done. f_equal. unfold open_degree. cbn [fst snd].
  repeat case_decide; set_solver.
Qed.

Lemma open_degrees_in (l : list (Z * list Z)) seen n ns : NoDup l.*1 -> (n, ns) ∈ l -> n ∉ seen ->
  sum_list (map (open_degree seen) l) = length ns + sum_list (map (open_degree (seen ∪ {[n]})) l).
Proof.
  induction l as [|[k ks] l IH]; intros Hnd Hin Hn; [set_solver |]. cbn in Hnd. apply NoDup_cons in Hnd as [Hk Hnd].
  change (sum_list (map (open_degree seen) ((k, ks) :: l)))
    with (open_degree seen (k, ks) + sum_list (map (open_degree seen) l)).
  change (sum_list (map (open_degree (seen ∪ {[n]})) ((k, ks) :: l)))
    with (open_degree (seen ∪ {[n]}) (k, ks) + sum_list (map (open_degree (seen ∪ {[n]})) l)).
  apply elem_of_cons in Hin as [[= -> ->] | Hin].
  - rewrite open_degrees_out by done. unfold open_degree at 1 3. cbn [fst snd].
    rewrite decide_False, decide_True by set_solver. lia.
  - assert (n <> k) as Hne. { intros ->. apply Hk, list_elem_of_fmap. by exists (k, ns). }
    rewrite IH by done. assert (open_degree (seen ∪ {[n]}) (k, ks) = open_degree seen (k, ks)) as ->; [| lia].
    unfold open_degree. cbn [fst snd]. repeat case_decide; set_solver.
Qed.

Lemma open_degrees_see seen n : n ∉ seen ->
  open_degrees seen = length (neighbors adjacency n) + open_degrees (seen ∪ {[n]}).
Proof.
  intros Hn. unfold open_degrees, neighbors. destruct (adjacency !! n) as [ns|] eqn:En; cbn [default from_option].
  - apply open_degrees_in; [apply NoDup_fst_map_to_list | by apply elem_of_map_to_list | done].
  - rewrite open_degrees_out; [done |]. intros ([k ns] & -> & Hin)%list_elem_of_fmap.
    apply elem_of_map_to_list in Hin. cbn in En. congruence.
Qed.

Lemma open_degrees_le seen : S (open_degrees seen) <= component_fuel adjacency.
Proof.
  unfold component_fuel, open_degrees.
  assert (sum_list (map (open_degree seen) (map_to_list adjacency))
    <= length (concat (map snd (map_to_list adjacency)))) as Hle; [| lia].
  induction (map_to_list adjacency) as [|e l IH]; [done |]. cbn. rewrite length_app. unfold open_degree at 1.
  case_decide; lia.
Qed.

(** ** One component *)
Definition push_unseen (seen : gset Z) (next stack : list Z) : list Z :=
  fold_left (fun stack n => if decide (n ∈ seen) then stack else n :: stack) next stack.

Lemma push_unseen_spec seen next : forall stack,
  length (push_unseen seen next stack) <= length next + length stack /\
  forall x, x ∈ push_unseen seen next stack <-> x ∈ stack \/ (x ∈ next /\ x ∉ seen).
Proof.
  unfold push_unseen. induction next as [|n next IH]; intros stack; cbn [fold_left].
  { split; [cbn; lia |]. intros x. set_solver. }
  destruct (IH (if decide (n ∈ seen) then stack else n :: stack)) as [Hl Hx]. split.
  - etrans; [exact Hl |]. case_decide; cbn; lia.
  - intros x. rewrite Hx. case_decide; set_solver.
Qed.

Record searching (done : gset Z) (root : Z) (seen : gset Z) (stack component : list Z) : Prop := {
  se_seen : forall x, x ∈ seen <-> x ∈ done \/ x ∈ component;
  se_new : forall x, x ∈ component -> x ∉ done;
  se_nodup : NoDup component;
  se_reach : forall x, x ∈ component \/ x ∈ stack -> connected root x;
  se_closed : forall a b, a ∈ component -> edge a b -> b ∈ seen \/ b ∈ stack;
  se_root : root ∈ component \/ root ∈ stack
}.

Lemma component_loop_spec done root fuel : forall seen stack component,
  root ∉ done -> length stack + open_degrees seen <= fuel ->
  searching done root seen stack component ->
  let r := component_loop adjacency fuel seen stack component in searching done root r.1 [] r.2.
Proof.
  induction fuel as [|fuel IH]; intros seen stack component Hroot Hf Hs.
  { destruct stack; [done | cbn in Hf; lia]. }
  destruct stack as [|current stack]; [done |]. cbn [component_loop]. destruct Hs as [H1 H2 H3 H4 H5 H6].
  case_decide as Hc.
  - apply IH; [done | cbn in Hf; lia |]. split; try done.
    + intros x Hx. apply H4. set_solver.
    + intros a b Ha He. destruct (H5 a b Ha He) as [? | [-> | ?]%elem_of_cons]; [by left | by left | by right].
    + destruct H6 as [? | [-> | ?]%elem_of_cons]; [by left | | by right].
      left. apply H1 in Hc as [? | ?]; done.
  - fold (push_unseen (seen ∪ {[current]}) (neighbors adjacency current) stack).
    set (seen' := seen ∪ {[current]}). destruct (push_unseen_spec seen' (neighbors adjacency current) stack) as [Hl Hx].
    set (stack' := push_unseen seen' _ stack) in *.
    assert (connected root current) as Hrc by (apply H4; right; left).
    assert (current ∉ component) as Hnc by (intros Hin; apply Hc, H1; by right).
    apply IH; [done | pose proof (open_degrees_see seen current Hc) as Ho; fold seen' in Ho; cbn in Hf; lia |]. split.
    + intros x. unfold seen'. rewrite elem_of_union, elem_of_singleton, H1, elem_of_app, list_elem_of_singleton. tauto.
    + intros x [? | ->%list_elem_of_singleton]%elem_of_app; [by apply H2 |]. intros Hd. apply Hc, H1. by left.
    + apply NoDup_app. split_and!; [done | | apply NoDup_singleton]. intros x Hin ->%list_elem_of_singleton. done.
    + intros x [[Hin | ->%list_elem_of_singleton]%elem_of_app | Hin]; [apply H4; by left | done |].
      apply Hx in Hin as [Hin | [Hin _]]; [apply H4; right; by right |]. eapply rtc_r; [exact Hrc | exact Hin].
    + intros a b [Ha | ->%list_elem_of_singleton]%elem_of_app He.
      * destruct (H5 a b Ha He) as [? | [-> | ?]%elem_of_cons]; [left; set_solver | left; set_solver | right; apply Hx; by left].
      * destruct (decide (b ∈ seen')) as [? | ?]; [by left | right; apply Hx; right; by split].
    + destruct H6 as [? | [-> | ?]%elem_of_cons]; [left; set_solver | left; set_solver | right; apply Hx; by left].
Qed.

(** ** All components *)
Hypothesis symmetric_edges : forall a b, edge a b -> edge b a.

Definition closed (seen : gset Z) : Prop := forall a b, a ∈ seen -> edge a b -> b ∈ seen.

Lemma closed_connected seen a b : closed seen -> a ∈ seen -> connected a b -> b ∈ seen.
Proof. intros Hc Ha Hr. induction Hr as [|x y z He _ IH]; [done |]. apply IH. by apply (Hc x). Qed.

Lemma connected_sym a b : connected a b -> connected b a.
Proof.
  intros Hr. induction Hr as [|x y z He _ IH]; [apply rtc_refl |]. eapply rtc_r; [exact IH | by apply symmetric_edges].
Qed.

Lemma one_component seen root :
  closed seen -> root ∉ seen ->
  let r := component_loop adjacency (component_fuel adjacency) seen [root] [] in
  closed r.1 /\ NoDup r.2 /\ (forall x, x ∈ r.2 <-> connected root x) /\ (forall x, x ∈ r.1 <-> x ∈ seen \/ x ∈ r.2).
Proof.
  intros Hcl Hroot r.
  assert (searching seen root r.1 [] r.2) as [H1 H2 H3 H4 H5 H6].
  { apply component_loop_spec; [done | cbn; pose proof (open_degrees_le seen); lia |]. split.
    - set_solver.
    - set_solver.
    - constructor.
    - intros x [Hx | ->%list_elem_of_singleton]; [set_solver | apply rtc_refl].
    - set_solver.
    - right. left. }
  assert (root ∈ r.2) as Hin by (destruct H6 as [? | ?]; [done | set_solver]).
  assert (forall a b, a ∈ r.2 -> edge a b -> b ∈ r.2) as Hcomp.
  { intros a b Ha He. destruct (H5 a b Ha He) as [Hb | ?]; [| set_solver].
    apply H1 in Hb as [Hb | ?]; [| done]. exfalso. apply (H2 a Ha). by apply (Hcl b a Hb), symmetric_edges. }
  split_and!; [| done | | done].
  - intros a b Ha He. apply H1 in Ha as [Ha | Ha]; apply H1; [left; by apply (Hcl a) | right; by apply (Hcomp a)].
  - intros x. split; [intros Hx; apply H4; by left |]. intros Hr.
    assert (forall a b, connected a b -> a ∈ r.2 -> b ∈ r.2) as Hrtc; [| by apply (Hrtc root)].
    clear -Hcomp. intros a b Hr. induction Hr as [|a c b He _ IH]; [done |]. intros Ha. apply IH. by apply (Hcomp a).
Qed.

(** A list of distinct nodes, more than one, all those connected to any of them. *)
Definition component_of (g : list Z) : Prop :=
  NoDup g /\ 1 < length g /\ forall x y, x ∈ g -> (y ∈ g <-> connected x y).

Lemma components_loop nodes : forall seen groups,
  closed seen -> Forall component_of groups ->
  (forall x y, x ∈ seen -> connected x y -> x <> y -> exists g, g ∈ groups /\ x ∈ g) ->
  (forall g x, g ∈ groups -> x ∈ g -> x ∈ seen) -> NoDup groups ->
  let r := fold_left (component_step adjacency) nodes (seen, groups) in
  Forall component_of r.2 /\ NoDup r.2 /\ (forall x, x ∈ nodes -> x ∈ r.1) /\ seen ⊆ r.1 /\
  forall x y, x ∈ r.1 -> connected x y -> x <> y -> exists g, g ∈ r.2 /\ x ∈ g.
Proof.
  induction nodes as [|node nodes IH]; intros seen groups Hcl Hg Hcov Hin Hnd; cbn [fold_left].
  { split_and!; try done. intros x ?%not_elem_of_nil. done. }
  cbn [component_step]. case_decide as Hs.
  { destruct (IH seen groups Hcl Hg Hcov Hin Hnd) as (? & ? & Hn & Hsub & ?). split_and!; try done.
    intros x [-> | Hx]%elem_of_cons; [by apply Hsub | by apply Hn]. }
  destruct (one_component seen node Hcl Hs) as (Hcl' & Hnd' & Hcon & Hseen).
  destruct (component_loop adjacency (component_fuel adjacency) seen [node] []) as [seen' comp]. cbn [fst snd] in *.
  assert (node ∈ comp) as Hnode by (apply Hcon, rtc_refl).
  set (groups' := if (1 <? length comp) then groups ++ [comp] else groups).
  assert (forall g, g ∈ groups' <-> g ∈ groups \/ (g = comp /\ 1 < length comp)) as Hg'.
  { intros g. unfold groups'. destruct (Nat.ltb_spec 1 (length comp)); [set_solver by lia | naive_solver lia]. }
  destruct (IH seen' groups') as (? & ? & Hn & Hsub & ?).
  - done.
  - apply Forall_forall. intros g [Hgg | [-> Hlen]]%Hg'; [by apply (proj1 (Forall_forall _ _) Hg) |].
    split_and!; [done | done |]. intros x y Hx%Hcon. rewrite Hcon. split; intros Hy.
    + etrans; [by apply connected_sym | done].
    + by etrans.
  - intros x y Hx Hc Hne. apply Hseen in Hx as [Hx | Hx].
    + destruct (Hcov x y Hx Hc Hne) as (g & Hgg & Hxg). exists g. split; [apply Hg'; by left | done].
    + exists comp. split; [| done]. apply Hg'. right. split; [done |].
      assert (y ∈ comp) as Hy by (apply Hcon; etrans; [by apply Hcon | done]).
      destruct comp as [|a [|b comp]]; [set_solver | | cbn; lia].
      apply list_elem_of_singleton in Hx, Hy. congruence.
  - intros g x [Hgg | [-> _]]%Hg' Hx; apply Hseen; [left; by eapply Hin | by right].
  - unfold groups'. destruct (1 <? length comp); [| done]. apply NoDup_app. split_and!; [done | | apply NoDup_singleton].
    intros g Hgg ->%list_elem_of_singleton. apply Hs. by apply (Hin comp).
  - split_and!; try done.
    + intros x [-> | Hx]%elem_of_cons; [| by apply Hn]. apply Hsub, Hseen. by right.
    + intros x Hx. apply Hsub, Hseen. by left.
Qed.
End search.

(** ** The graph of strong pairs *)
(** Two nodes answered together strongly enough. *)
Definition strong (pairs : list PairStat) (threshold : f32) (a b : Z) : Prop :=
  exists p, p ∈ pairs /\ f_lt (ps_avg_strength p) threshold = false /\
    ((a = ps_u p /\ b = ps_v p) \/ (a = ps_v p /\ b = ps_u p)).

Lemma neighbors_push u v m a b : b ∈ neighbors (push_edge u v m) a <-> b ∈ neighbors m a \/ (a = u /\ b = v).
Proof.
  unfold neighbors, push_edge. destruct (decide (u = a)) as [-> | Hne].
  - rewrite lookup_insert_eq. cbn [default from_option]. unfold Datatypes.id.
    rewrite elem_of_app, list_elem_of_singleton. naive_solver.
  - rewrite lookup_insert_ne by done. naive_solver.
Qed.

Lemma edge_strong pairs threshold a b : edge (build_adjacency pairs threshold) a b <-> strong pairs threshold a b.
Proof.
  unfold build_adjacency, edge.
  assert (forall m, b ∈ neighbors (fold_left (fun m p => if f_lt (ps_avg_strength p) threshold then m
      else push_edge (ps_v p) (ps_u p) (push_edge (ps_u p) (ps_v p) m)) pairs m) a
    <-> b ∈ neighbors m a \/ strong pairs threshold a b) as Hm.
  { unfold strong. induction pairs as [|p pairs IH]; intros m; cbn [fold_left].
    { split; [by left |]. intros [? | (p & ?%not_elem_of_nil & _)]; done. }
    rewrite IH. destruct (f_lt (ps_avg_strength p) threshold) eqn:E.
    - split; (intros [? | (q & Hq & Hs & Hab)]; [by left | right; exists q; split; [| done]]); [by right |].
      apply elem_of_cons in Hq as [-> | Hq]; [congruence | done].
    - rewrite !neighbors_push. split.
      + intros [[[? | [-> ->]] | [-> ->]] | (q & Hq & ?)]; [by left | right; exists p; split_and!; [left | done | by left] |
          right; exists p; split_and!; [left | done | by right] | right; exists q; split; [by right | done]].
      + intros [? | (q & [-> | Hq]%elem_of_cons & Hs & Hab)]; [by left; left; left | naive_solver |].
        right. by exists q. }
  rewrite Hm. split; [| by right]. intros [Hb | ?]; [| done]. unfold neighbors in Hb. rewrite lookup_empty in Hb. set_solver.
Qed.

Lemma strong_sym pairs threshold a b : strong pairs threshold a b -> strong pairs threshold b a.
Proof. intros (p & Hp & Hs & Hab). exists p. naive_solver. Qed.

(** Together with the other members of the group, and nobody else. *)
Definition together (pairs : list PairStat) (threshold : f32) (g : list Z) : Prop :=
  NoDup g /\ 1 < length g /\ forall x y, x ∈ g -> (y ∈ g <-> rtc (strong pairs threshold) x y).

Lemma extract_components_spec o pairs threshold :
  let groups := extract_components o (build_adjacency pairs threshold) in
  Forall (together pairs threshold) groups /\ NoDup groups /\
  forall x y, strong pairs threshold x y -> x <> y -> exists g, g ∈ groups /\ x ∈ g /\ y ∈ g.
Proof.
  set (adj := build_adjacency pairs threshold). unfold extract_components. cbv zeta.
  assert (forall a b, edge adj a b -> edge adj b a) as Hsym.
  { intros a b. unfold adj. rewrite !edge_strong. apply strong_sym. }
  assert (forall x y, connected adj x y <-> rtc (strong pairs threshold) x y) as Hcon.
  { intros x y. split; apply rtc_subrel; intros a b; unfold adj; by rewrite edge_strong. }
  destruct (components_loop adj Hsym (hm_keys o adj) ∅ []) as (Hg & Hnd & Hn & _ & Hcov);
    [by intros a b ?%elem_of_empty | constructor | by intros x y ?%elem_of_empty | by intros g x ?%not_elem_of_nil
      | constructor |].
  destruct (fold_left (component_step adj) (hm_keys o adj) (∅, [])) as [seen groups]. cbn [fst snd] in *.
  assert (Forall (together pairs threshold) groups) as Ht.
  { eapply Forall_impl; [exact Hg |]. intros g (Hng & Hlg & Hxy). split_and!; [done | done |].
    intros x y Hx. rewrite <- Hcon. by apply Hxy. }
  split_and!; [done | done |]. intros x y He Hne.
  assert (x ∈ hm_keys o adj) as Hx.
  { apply elem_of_hm_keys. apply (edge_strong pairs threshold) in He. fold adj in He. unfold edge, neighbors in He.
    destruct (adj !! x); [done | set_solver]. }
  destruct (Hcov x y (Hn x Hx)) as (g & Hgg & Hxg); [by apply Hcon, rtc_once | done |].
  exists g. split_and!; [done | done |]. rewrite Forall_forall in Ht. apply (Ht g Hgg) with x; [done | by apply rtc_once].
Qed.

Section groups.
Context `{UnicodeCase}.
Variable o : HashOrder.

(** C27: The groups of a collective dream. The components found in the graph of strong pairs are
    exactly its connected components of more than one node: two nodes are in one group exactly when a
    chain of strong pairs leads from one to the other, no node is listed twice, no component is
    reported twice and every strong pair is in one. The groups that are detected are such components,
    with a token at least, and no more than the configuration allows. The search ends within its fuel,
    whatever the order of the visits. *)
Theorem sync_groups_exact pairs threshold cfg now f :
  (let groups := extract_components o (build_adjacency pairs threshold) in
   Forall (together pairs threshold) groups /\ NoDup groups /\
   forall x y, strong pairs threshold x y -> x <> y -> exists g, g ∈ groups /\ x ∈ g /\ y ∈ g) /\
  (forall found, detect_sync_groups o cfg now f = Some found ->
   (length found <= Z.to_nat (max_groups cfg))%nat /\
   Forall (fun g => sg_tokens g <> [] /\
     together (List.filter (fun p => f_le (cooccur_threshold cfg) (ps_avg_strength p)) (recent_pairs o (Z.max (phase_len_ms cfg) 500) f))
       (cooccur_threshold cfg) (sg_nodes g)) found).
Proof.
  split; [apply extract_components_spec |]. intros found Hd. unfold detect_sync_groups in Hd.
  set (pairs0 := recent_pairs o _ f) in *. destruct pairs0 as [|p0 rest] eqn:Ep; [injection Hd as <-; split; [cbn; lia | constructor] |]. rewrite <- Ep in *.
  set (sel := List.filter _ pairs0) in *. destruct (_ && _); [done |]. injection Hd as <-.
  set (sorted := sort_by _ sel). set (comps := sort_by _ _). split.
  - etrans; [apply length_omap_le |]. rewrite length_take. lia.
  - apply Forall_forall. intros g Hin. apply list_elem_of_omap in Hin as ([i nodes] & Hin & Hg). cbn in Hg.
    case_decide as Ht; [done |]. injection Hg as <-. cbn [sg_tokens sg_nodes]. split; [done |].
    apply elem_of_take in Hin as (j & Hin & _). apply list_elem_of_lookup_2, elem_of_zip_r in Hin.
    unfold comps in Hin. rewrite sort_by_perm in Hin.
    destruct (extract_components_spec o sorted (cooccur_threshold cfg)) as (Hall & _ & _).
    rewrite Forall_forall in Hall. destruct (Hall nodes Hin) as (Hnd & Hlen & Hxy). split_and!; [done | done |].
    intros x y Hx. rewrite (Hxy x y Hx). assert (sorted ≡ₚ sel) as Hperm by apply sort_by_perm.
    assert (forall a b, strong sorted (cooccur_threshold cfg) a b <-> strong sel (cooccur_threshold cfg) a b) as Hs.
    { intros a b. unfold strong. split; intros (p & Hp & ?); exists p; (split; [| done]);
        [by rewrite <- Hperm | by rewrite Hperm]. }
    split; apply rtc_subrel; intros a b; apply Hs.
Qed.
End groups.

(** A triangle with a tail, and a pair apart. *)
#[local] Instance sync_case : UnicodeCase := ascii_case.
Definition demo_pairs : list PairStat :=
  [mkPairStat 1 2 f1 (lit 9 10); mkPairStat 2 3 f1 (lit 9 10); mkPairStat 1 3 f1 (lit 9 10); mkPairStat 3 4 f1 (lit 9 10);
   mkPairStat 5 6 f1 (lit 9 10); mkPairStat 4 5 f1 (lit 1 10)].
Lemma sync_groups_exact_witness :
  extract_components rev_order (build_adjacency demo_pairs (lit 6 10)) = [[1; 3; 4; 2]; [6; 5]]%Z /\
  Forall (together demo_pairs (lit 6 10)) (extract_components rev_order (build_adjacency demo_pairs (lit 6 10))).
Proof.
  split; [by vm_compute |].
  by destruct (sync_groups_exact rev_order demo_pairs (lit 6 10) SyncConfig_default 0 Field.ClusterField_new) as [(? & _) _].
Defined.
