(* ===== verification/FieldDreamProps.v ===== *)
(** * The cluster field: what a dream may do

    A dream changes links and nothing else of the cells; it leaves protected cells and pairs that did
    not answer together alone, and stays within its budget of operations. *)

From stdpp Require Import prelude gmap strings fin_maps fin_sets list sorting.
From Stdlib Require Import ZArith Lia SpecFloat.
From S2P Require Import Prelude RustStr RustOrd Float RustText NodeCell FieldTypes Journal Collections Field FieldOps FieldInv FieldReplay FieldDream.

(** ** What the dream of [f] has made of it *)
Definition links_at (f : ClusterField) (id : Z) : gset Z := default ∅ (c_links <$> (cells (graph f) !! id)).
Definition unlinked (f : ClusterField) (id : Z) : option NodeCell := set_links ∅ <$> (cells (graph f) !! id).

(** [P u v]: the link from [u] to [v] may change. *)
Record dreamt (P : Z -> Z -> Prop) (f f' : ClusterField) : Prop := {
  dm_cells : forall id, unlinked f' id = unlinked f id;
  dm_kept : forall u v, ~ P u v ->
    link_score u v f' = link_score u v f /\ (v ∈ links_at f u -> v ∈ links_at f' u);
  dm_links : forall id, links_at f' id ⊆ links_at f id \/
    exists to, links_at f' id = {[to]} /\ to <> id /\ is_Some (cells (graph f) !! to)
}.

Lemma unlinked_some f f' id : unlinked f' id = unlinked f id -> is_Some (cells (graph f') !! id) <-> is_Some (cells (graph f) !! id).
Proof. unfold unlinked. destruct (_ !! id), (_ !! id); cbn; intros E; try done; by rewrite !is_Some_alt. Qed.

Section dreamt.
Context (P : Z -> Z -> Prop).

Lemma dreamt_graph f f' : graph f' = graph f -> dreamt P f f'.
Proof. intros E. split; unfold unlinked, link_score, links_at; rewrite E; try done. by left. Qed.

Lemma dreamt_trans f f1 f2 : dreamt P f f1 -> dreamt P f1 f2 -> dreamt P f f2.
Proof.
  intros [C1 K1 L1] [C2 K2 L2]. split.
  - intros id. by rewrite C2.
  - intros u v Hn. destruct (K1 u v Hn) as [S1 H1], (K2 u v Hn) as [S2 H2]. split; [congruence | auto].
  - intros id. destruct (L2 id) as [Hs | (to & E & Hne & Hto)].
    + destruct (L1 id) as [Hs1 | (to & E & Hne & Hto)]; [left; set_solver |].
      rewrite E in Hs. destruct (decide (to ∈ links_at f2 id)).
      * right. exists to. split_and!; [set_solver | done | done].
      * left. set_solver.
    + right. exists to. split_and!; try done. by apply (unlinked_some f f1).
Qed.

Lemma graph_emit d f : graph (emit d f) = graph f.
Proof. unfold emit. by destruct (journal f). Qed.

Lemma dreamt_adjust from to delta f : P from to -> dreamt P f (fst (adjust_link_score from to delta f)).
Proof.
  intros Hp. unfold adjust_link_score. destruct (cells (graph f) !! from); [case_decide |]; try by apply dreamt_graph.
  split; [done | | by left]. intros u v Hn. split; [| done]. unfold link_score. cbn.
  rewrite lookup_insert_ne; [done |]. by intros [= -> ->].
Qed.

Lemma dreamt_prune from to f : P from to -> dreamt P f (fst (prune_link from to f)).
Proof.
  intros Hp. unfold prune_link. destruct (cells (graph f) !! from) as [c|] eqn:E; [| by apply dreamt_graph].
  case_decide; [| by apply dreamt_graph]. cbn [fst].
  assert (forall id, links_at (emit (DUnlink from to) (unregister_link from to (set_cells (<[from := set_links (c_links c ∖ {[to]}) c]> (cells (graph f))) f))) id
    = if decide (id = from) then c_links c ∖ {[to]} else links_at f id) as Hl.
  { intros id. unfold links_at. rewrite graph_emit. cbn. case_decide as Hd; [subst; by rewrite lookup_insert_eq |].
    by rewrite lookup_insert_ne. }
  assert (links_at f from = c_links c) as Hf by by (unfold links_at; rewrite E).
  split.
  - intros id. unfold unlinked. rewrite graph_emit. cbn. destruct (decide (from = id)) as [-> | ?].
    + rewrite lookup_insert_eq, E. done.
    + by rewrite lookup_insert_ne.
  - intros u v Hn. assert ((u, v) <> (from, to)) as Hne by (by intros [= -> ->]). split.
    + unfold link_score. rewrite graph_emit. cbn. by rewrite lookup_delete_ne.
    + rewrite Hl. case_decide; [subst u | done]. rewrite Hf.
      assert (v <> to) by (intros ->; done). set_solver.
  - intros id. left. rewrite Hl. case_decide; [subst; rewrite Hf |]; set_solver.
Qed.

Lemma link_score_register a b u v f : link_score u v (register_link a b f) = link_score u v f.
Proof.
  unfold register_link, link_score. set (g := match link_usage (graph f) !! (a, b) with Some _ => _ | None => _ end).
  assert (link_scores (graph g) = link_scores (graph f)) as Hg by (unfold g; by destruct (_ !! (a, b))).
  destruct (link_scores (graph g) !! (a, b)) eqn:E; [by rewrite Hg |]. cbn. rewrite Hg in *.
  destruct (decide ((a, b) = (u, v))) as [<- | ?]; [by rewrite lookup_insert_eq, E | by rewrite lookup_insert_ne].
Qed.

Lemma dreamt_rewire o id f : dreamt P f (fst (rewire_lonely o id f)).
Proof.
  destruct (rewire_shape o id f) as [-> | (c & target & E & Hc & Hne & Ht & ->)]; [by apply dreamt_graph |].
  set (f1 := set_cells _ f). set (f' := emit _ _).
  assert (cells (graph f') = cells (graph f1)) as Hcs.
  { unfold f'. rewrite !graph_emit. apply (cells_core _ _ (core_register_link _ _ _)). }
  assert (forall i, links_at f' i = if decide (i = id) then {[target]} else links_at f i) as Hl.
  { intros i. unfold links_at. rewrite Hcs. cbn. case_decide as Hd.
    - subst. rewrite lookup_insert_eq. cbn. rewrite Hc. set_solver.
    - by rewrite lookup_insert_ne. }
  split.
  - intros i. unfold unlinked. rewrite Hcs. cbn. destruct (decide (id = i)) as [-> | ?].
    + by rewrite lookup_insert_eq, E.
    + by rewrite lookup_insert_ne.
  - intros u v _. split.
    + transitivity (link_score u v (register_link id target f1)); [| by rewrite link_score_register].
      unfold link_score, f'. by rewrite !graph_emit.
    + rewrite Hl. case_decide; [subst | done]. unfold links_at. rewrite E. cbn. rewrite Hc. set_solver.
  - intros i. rewrite Hl. case_decide; [subst; right; by exists target | by left].
Qed.
End dreamt.

(** ** The loops *)
Section loops.
Context `{UnicodeCase}.
Variable o : HashOrder.
Variable cfg : DreamConfig.

(** The pairs a dream may touch. *)
Definition may_touch (f : ClusterField) (u v : Z) : Prop :=
  exists p, p ∈ recent_pairs o (dc_window_ms cfg) f /\ should_protect (ps_u p) (ps_v p) cfg f = false /\
    (u = ps_u p /\ v = ps_v p \/ u = ps_v p /\ v = ps_u p).

#[local] Instance may_touch_dec f u v : Decision (may_touch f u v).
Proof. unfold may_touch. apply list_exist_dec. intros p. apply _. Defined.

Lemma should_protect_unlinked f f' u v :
  (forall id, unlinked f' id = unlinked f id) -> should_protect u v cfg f' = should_protect u v cfg f.
Proof.
  intros E. unfold should_protect. f_equal.
  - generalize (E u). unfold cell, unlinked. destruct (_ !! u) as [[]|], (_ !! u) as [[]|]; cbn; intros Eq; try done. by simplify_eq.
  - generalize (E v). unfold cell, unlinked. destruct (_ !! v) as [[]|], (_ !! v) as [[]|]; cbn; intros Eq; try done. by simplify_eq.
Qed.

Definition used (r : DreamReport) : Z := (dr_strengthened r + dr_weakened r + dr_pruned r + dr_rewired r)%Z.
Definition counted (r : DreamReport) : Prop :=
  (0 <= dr_strengthened r)%Z /\ (0 <= dr_weakened r)%Z /\ (0 <= dr_pruned r)%Z /\ (0 <= dr_rewired r)%Z.

(** The budget: what was used and what is left. *)
Definition budget (max : Z) (r : DreamReport) (ops : Z) : Prop :=
  counted r /\ (0 <= ops)%Z /\ (used r + ops <= max + 1)%Z /\ ((0 < ops)%Z -> (used r + ops <= max)%Z).

Definition dreaming (f : ClusterField) (max : Z) (d : Dreaming) : Prop :=
  dreamt (may_touch f) f (dg_field d) /\ budget max (dg_report d) (dg_ops d).

(** One more operation of a kind. *)
Definition one_more (max : Z) (bump : DreamReport -> DreamReport) : Prop :=
  forall r ops, (max < u32_max)%Z -> (0 < ops)%Z -> budget max r ops -> budget max (bump r) (spend 1 ops) /\
    (used (bump r) + spend 1 ops <= max)%Z.

Lemma one_more_ok max :
  one_more max add_strengthened /\ one_more max add_weakened /\ one_more max add_pruned.
Proof.
  unfold one_more, budget, counted, used, add_strengthened, add_weakened, add_pruned, spend, u32_add, u32_max.
  split_and!; intros [] ops; cbn; intros Hm Ho ((? & ? & ? & ?) & ? & ? & Hb); specialize (Hb Ho);
    rewrite Z.mod_small by lia; rewrite Z.max_l by lia; lia.
Qed.

Lemma rewired_ok max r ops a b :
  (max < u32_max)%Z -> (0 < ops)%Z -> (0 <= a <= 1)%Z -> (0 <= b <= 1)%Z -> (used r + ops <= max)%Z -> counted r ->
  budget max (add_rewired (u32_add a b) r) (spend (Z.min (a + b) u32_max) ops).
Proof.
  unfold budget, counted, used, add_rewired, spend, u32_add, u32_max. intros Hm Ho Ha Hb Hu (? & ? & ? & ?).
  destruct r; cbn in *. rewrite (Z.mod_small (a + b)) by lia. rewrite Z.mod_small by lia. lia.
Qed.

Lemma rewire_count id f : (0 <= default 0%Z (snd (rewire_lonely o id f)) <= 1)%Z.
Proof.
  unfold rewire_lonely. destruct (_ !! id); [| done]. case_decide; [done |].
  destruct (fold_left _ _ _) as [[? ?]|]; done.
Qed.

Lemma pick_direction_of a b f from to :
  pick_direction a b f = Some (from, to) -> (from = a /\ to = b) \/ (from = b /\ to = a).
Proof. unfold pick_direction. destruct (has_link a b f); [| destruct (has_link b a f)]; intros [= <- <-]; tauto. Qed.

Lemma dreamt_then_emit P f f' d : dreamt P f f' -> dreamt P f (emit d f').
Proof. intros Hd. eapply dreamt_trans; [exact Hd |]. apply dreamt_graph, graph_emit. Qed.

(** The pair that a round touches. *)
Lemma touches f d entry from to :
  dreaming f (max_ops_per_cycle cfg) d -> entry ∈ recent_pairs o (dc_window_ms cfg) f ->
  should_protect (ps_u entry) (ps_v entry) cfg (dg_field d) = false ->
  pick_direction (ps_u entry) (ps_v entry) (dg_field d) = Some (from, to) -> may_touch f from to.
Proof.
  intros [Hd _] Hin Hp Hpick. exists entry. split_and!; [done | | by apply pick_direction_of in Hpick].
  rewrite <- Hp. symmetry. apply should_protect_unlinked, (dm_cells _ _ _ Hd).
Qed.

Lemma strengthen_dreaming f d entry :
  (max_ops_per_cycle cfg < u32_max)%Z -> entry ∈ recent_pairs o (dc_window_ms cfg) f ->
  dreaming f (max_ops_per_cycle cfg) d -> dreaming f (max_ops_per_cycle cfg) (strengthen_one cfg d entry).
Proof.
  intros Hm Hin Hd. pose proof (touches f d entry) as Ht. destruct d as [g report ops touched]. unfold strengthen_one.
  destruct (Z.eqb_spec ops 0) as [| Hops]; [done |]. destruct (should_protect _ _ _ g) eqn:Ep; [exact Hd |].
  case_decide; [exact Hd |]. destruct (pick_direction _ _ g) as [[from to]|] eqn:Epick; [| exact Hd].
  specialize (Ht from to Hd Hin Ep Epick). destruct Hd as [Hg Hb]. cbn [dg_field dg_report dg_ops] in *.
  pose proof (dreamt_adjust (may_touch f) from to (lit 15 100) g Ht) as Ha.
  destruct (adjust_link_score _ _ _ g) as [g1 changed]. cbn [fst] in Ha.
  assert (dreamt (may_touch f) f g1) as H1 by by eapply dreamt_trans.
  destruct changed; [| done]. split; cbn [dg_field dg_report dg_ops]; [by apply dreamt_then_emit |].
  apply (proj1 (one_more_ok (max_ops_per_cycle cfg))); [done | | done]. destruct Hb as (_ & ? & _). lia.
Qed.

(** A link that the last operation weakened is still pruned. *)
Lemma last_prune max r : (max < u32_max)%Z -> budget max r 0 -> (used r + 0 <= max)%Z -> budget max (add_pruned r) 0.
Proof.
  unfold budget, counted, used, add_pruned, u32_add, u32_max. intros Hm ((? & ? & ? & ?) & _) Hu.
  destruct r; cbn in *. rewrite Z.mod_small by lia. lia.
Qed.

Lemma prune_dreaming f g report ops from to :
  (max_ops_per_cycle cfg < u32_max)%Z -> may_touch f from to -> dreamt (may_touch f) f g ->
  budget (max_ops_per_cycle cfg) report ops -> (used report + ops <= max_ops_per_cycle cfg)%Z ->
  let '(g', report', ops') := prune_and_rewire o from to g report ops in
  dreamt (may_touch f) f g' /\ budget (max_ops_per_cycle cfg) report' ops'.
Proof.
  intros Hm Ht Hg Hb Hu. unfold prune_and_rewire. pose proof (dreamt_prune (may_touch f) from to g Ht) as Hp.
  destruct (prune_link from to g) as [g1 pruned]. cbn [fst] in Hp.
  assert (dreamt (may_touch f) f g1) as H1 by by eapply dreamt_trans.
  destruct pruned; [| done]. apply (dreamt_then_emit _ _ _ (DDreamPrune from to)) in H1.
  set (g2 := emit _ g1) in *. destruct (decide (ops = 0%Z)) as [-> | Hops].
  { cbn. split; [done |]. by apply last_prune. }
  destruct (proj2 (proj2 (one_more_ok (max_ops_per_cycle cfg))) report ops) as [Hb1 Hu1]; [done | destruct Hb as (_ & ? & _); lia | done |].
  destruct (Z.eqb_spec (spend 1 ops) 0) as [| Hs]; [done |].
  pose proof (rewire_count from g2) as Hca. pose proof (dreamt_rewire (may_touch f) o from g2) as Hra.
  destruct (rewire_lonely o from g2) as [g3 a]. cbn [fst snd] in Hca, Hra.
  pose proof (rewire_count to g3) as Hcb. pose proof (dreamt_rewire (may_touch f) o to g3) as Hrb.
  destruct (rewire_lonely o to g3) as [g4 b]. cbn [fst snd] in Hcb, Hrb. split.
  - eapply dreamt_trans; [exact H1 |]. by eapply dreamt_trans.
  - apply rewired_ok; try done; [destruct Hb1 as (_ & ? & _); lia | apply Hb1].
Qed.

Lemma weaken_dreaming f d entry :
  (max_ops_per_cycle cfg < u32_max)%Z -> entry ∈ recent_pairs o (dc_window_ms cfg) f ->
  dreaming f (max_ops_per_cycle cfg) d -> dreaming f (max_ops_per_cycle cfg) (weaken_one o cfg d entry).
Proof.
  intros Hm Hin Hd. pose proof (touches f d entry) as Ht. destruct d as [g report ops touched]. unfold weaken_one.
  destruct (Z.eqb_spec ops 0) as [| Hops]; [done |]. destruct (should_protect _ _ _ g) eqn:Ep; [exact Hd |].
  case_decide; [exact Hd |]. destruct (pick_direction _ _ g) as [[from to]|] eqn:Epick; [| exact Hd].
  specialize (Ht from to Hd Hin Ep Epick). destruct Hd as [Hg Hb]. cbn [dg_field dg_report dg_ops] in *.
  pose proof (dreamt_adjust (may_touch f) from to (lit (-2) 10) g Ht) as Ha.
  destruct (adjust_link_score _ _ _ g) as [g1 changed]. cbn [fst] in Ha.
  assert (dreamt (may_touch f) f g1) as H1 by by eapply dreamt_trans. destruct changed; [| done].
  assert (dreamt (may_touch f) f (emit_dream_weaken from to (ps_freq entry) (ps_avg_strength entry) g1)) as H2 by
    by apply dreamt_then_emit.
  destruct (proj1 (proj2 (one_more_ok (max_ops_per_cycle cfg))) report ops) as [Hb1 Hu1]; [done | destruct Hb as (_ & ? & _); lia | done |].
  destruct (f_le _ _); [| done].
  pose proof (prune_dreaming f _ (add_weakened report) (spend 1 ops) from to Hm Ht H2 Hb1 Hu1) as Hp.
  destruct (prune_and_rewire _ _ _ _ _ _) as [[g3 report3] ops3]. exact Hp.
Qed.

Lemma dreaming_fold f (step : Dreaming -> PairStat -> Dreaming) l : forall d,
  (forall d e, e ∈ l -> dreaming f (max_ops_per_cycle cfg) d -> dreaming f (max_ops_per_cycle cfg) (step d e)) ->
  dreaming f (max_ops_per_cycle cfg) d -> dreaming f (max_ops_per_cycle cfg) (fold_left step l d).
Proof.
  induction l as [|e l IH]; intros d Hs Hd; [done |]. cbn [fold_left]. apply IH; [intros; apply Hs; [by right | done] |].
  apply Hs; [by left | done].
Qed.

Lemma taken_pairs {A} (le : A -> A -> bool) n (l : list A) e : e ∈ take n (sort_by le l) -> e ∈ l.
Proof.
  intros Hin. rewrite <- (sort_by_perm le l). rewrite <- (take_drop n (sort_by le l)). apply elem_of_app. by left.
Qed.

Lemma budget_start max : (0 <= max)%Z -> budget max DreamReport_default max.
Proof. intros Hm. unfold budget, counted, used. cbn. lia. Qed.

(** C26: a dream stays within what it may do. It changes the links of the cells and nothing else of
    them; the score of a link and the link itself stay what they were unless its two cells answered
    together within the window and neither is protected by its salience or its noradrenaline tag; a
    cell that gains a link had lost all of its own and now has that one, to another cell of the field;
    and the operations reported are at most one more than the budget. *)
Theorem dream_keeps_bounds now took f :
  (0 <= max_ops_per_cycle cfg < u32_max)%Z ->
  let '(f', report) := run_dream o cfg now took f in
  (forall id, unlinked f' id = unlinked f id) /\
  (forall u v, link_score u v f' <> link_score u v f \/ (v ∈ links_at f u /\ v ∉ links_at f' u) ->
     may_touch f u v) /\
  (forall id, links_at f' id ⊆ links_at f id \/
     exists to, links_at f' id = {[to]} /\ to <> id /\ is_Some (cells (graph f) !! to)) /\
  (used report <= max_ops_per_cycle cfg + 1)%Z.
Proof.
  intros Hm. pose proof (budget_start _ (proj1 Hm)) as H0.
  assert (forall f' r ops, dreamt (may_touch f) f f' -> budget (max_ops_per_cycle cfg) r ops ->
    (forall id, unlinked f' id = unlinked f id) /\
    (forall u v, link_score u v f' <> link_score u v f \/ (v ∈ links_at f u /\ v ∉ links_at f' u) -> may_touch f u v) /\
    (forall id, links_at f' id ⊆ links_at f id \/
       exists to, links_at f' id = {[to]} /\ to <> id /\ is_Some (cells (graph f) !! to)) /\
    (used r <= max_ops_per_cycle cfg + 1)%Z) as Hdone.
  { intros f' r ops [C K L] (_ & Hops & Hu & _). split_and!; [done | | done | lia].
    intros u v Hc. apply dec_stable. intros Hn. destruct (K u v Hn) as [Hs Hl]. destruct Hc as [? | [? Hnin]]; [done |]. by apply Hnin, Hl. }
  unfold run_dream. destruct (max_ops_per_cycle cfg =? 0)%Z; [by eapply Hdone; [by apply dreamt_graph | exact H0] |].
  destruct (recent_pairs o (dc_window_ms cfg) f) as [|p pairs] eqn:Ep;
    [by eapply Hdone; [by apply dreamt_graph | exact H0] |]. cbv zeta.
  set (sorted := sort_by _ (p :: pairs)). set (d1 := fold_left (strengthen_one cfg) _ _).
  assert (dreaming f (max_ops_per_cycle cfg) d1) as Hd1.
  { apply dreaming_fold; [| split; [by apply dreamt_graph | exact H0]]. intros d e He.
    apply strengthen_dreaming; [lia |]. rewrite Ep. by eapply taken_pairs. }
  set (d2 := if _ && _ then _ else d1).
  assert (dreaming f (max_ops_per_cycle cfg) d2) as Hd2.
  { unfold d2. destruct (_ && _); [| done]. apply dreaming_fold; [| done]. intros d e He.
    apply weaken_dreaming; [lia |]. rewrite Ep. apply taken_pairs in He. unfold sorted in He. by rewrite sort_by_perm in He. }
  destruct Hd2 as [Hf Hb]. eapply (Hdone _ _ (dg_ops d2)); [| by destruct (dg_report d2)].
  eapply dreamt_trans; [exact Hf |]. apply dreamt_then_emit. by apply dreamt_graph.
Qed.
End loops.

(** ** A dream *)
#[local] Instance dream_case : UnicodeCase := ascii_case.

(** Two linked cells that answered together, and a third that shares the affinity of both. *)
Definition demo_cell (id : Z) (links : gset Z) : NodeCell :=
  mkCell id (mkSeedParams (lit 5 10) (lit 5 10) "joy") Active links (lit 5 10) (lit 5 10) 0 (lit 5 10) f0 false 0.
Definition demo_dreamer : ClusterField :=
  let f := set_cells (<[1%Z := demo_cell 1 {[2%Z]}]> (<[2%Z := demo_cell 2 ∅]> (<[3%Z := demo_cell 3 {[1%Z]}]> ∅))) ClusterField_new in
  let f := set_link_scores (<[(1, 2)%Z := lit 4 10]> ∅) f in
  set_recent_routes (<["joy" := [mkRoute 0 1 f1; mkRoute 0 2 f1]]> ∅) f.
Definition demo_dream_cfg (max : Z) : DreamConfig :=
  mkDreamConfig 0 1000 f0 f1 (lit 9 10) true max.

Definition demo_dream : ClusterField * DreamReport := run_dream rev_order (demo_dream_cfg 3) 0 7 demo_dreamer.

(** The link is weakened and pruned, both of its cells are lonely afterwards and are linked again, the
    first one to the cell it was pruned from: four operations on a budget of three. *)
Lemma dream_keeps_bounds_witness :
  used (snd demo_dream) = 4%Z /\ elements (links_at (fst demo_dream) 1) = [2%Z] /\
  (used (snd demo_dream) <= 3 + 1)%Z.
Proof.
  pose proof (dream_keeps_bounds rev_order (demo_dream_cfg 3) 0 7 demo_dreamer ltac:(done)) as Hd.
  fold demo_dream in Hd. split_and!; [by vm_compute | by vm_compute |].
  destruct demo_dream as [f' report]. apply Hd.
Defined.
