(* ===== verification/FieldAwaken.v ===== *)
(** * The cluster field: models, awakening, feedback, mirror and summaries

    The rest of the operations of [ClusterField] that change its state: building and applying the
    resonant model, awakening ([awakening.rs]), the actions of the reflex feedback
    ([reflex/feedback.rs]), the replay of mirror epochs ([recursion.rs]) and the seeds of a committed
    variant. The BLAKE3 hash, the CBOR
    codec and the time a replay took are arguments. *)

From stdpp Require Import prelude gmap strings fin_maps fin_sets list sorting.
From Stdlib Require Import ZArith Lia SpecFloat.
From coqutil Require Import Word.LittleEndianList.
From S2P Require Import Prelude RustStr RustOrd Float RustText Json NodeCell Trs Seeds Symmetry FieldTypes Feedback Variant Resonant Journal Collections Field FieldOps FieldTick FieldDream.
From S2P Require Views.

(** ** Variants *)
Definition plant_token (variant_id : string) (variant : Variant) (ttl now : Z) (acc : SeedGarden * list Z) (token : string)
  : SeedGarden * list Z :=
  let '(garden, planted) := acc in
  let args : gmap string json :=
    <["source" := JStr variant_id]> (<["token" := JStr token]>
      (<["expected_gain" := json_f32 (v_expected_gain variant)]> ∅)) in
  let '(garden, id) := plant (Seed_new PolicyBundle token args ttl "manifold" now) garden in
  (garden, planted ++ [id]).

Definition plant_variant_seeds (variant_id : string) (f : ClusterField) : ClusterField * list Z :=
  match variants (variant_layer f) !! variant_id with
  | None => (f, [])
  | Some variant =>
      let ttl := Z.max (time_est_ms variant) 1 in
      let tokens := if decide (path_hint variant = []) then [v_title variant] else path_hint variant in
      let '(garden, planted) :=
        fold_left (plant_token variant_id variant ttl (now_ms f)) (take 3 tokens) (seed_garden f, []) in
      (set_seed_garden garden f, planted)
  end.

(** ** Models *)
Definition NodeState_debug (s : NodeState) : string :=
  match s with Active => "Active" | Idle => "Idle" | Sleep => "Sleep" | Dead => "Dead" end.

(** [format!("{}|{}|{:?}|{:.3}|{:.3}|{:.3}|{}", ...)] *)
Definition cell_fingerprint (c : NodeCell) : string :=
  join "|" [fmt_nat (c_id c); core_pattern (c_seed c); NodeState_debug (c_state c); fmt_fixed 3 (c_affinity c);
            fmt_fixed 3 (c_metabolism c); fmt_fixed 3 (c_energy c); fmt_nat (Z.of_nat (size (c_links c)))].

Definition model_input (o : HashOrder) (f : ClusterField) : bytes :=
  let ids := sort_by Z.leb (hm_keys o (cells (graph f))) in
  concat (map (fun id => match cells (graph f) !! id with Some c => as_bytes (cell_fingerprint c) | None => [] end) ids)
  ++ le_split 8 (now_ms f) ++ le_split 8 (Z.of_nat (size (cells (graph f)))).

Definition cell_count (f : ClusterField) : Z := Z.min (Z.of_nat (size (cells (graph f)))) u32_max.

Definition last_dream_reports (count : nat) (f : ClusterField) : list (Z * DreamReport) :=
  reverse (take count (reverse (dream_reports (cycles f)))).
Definition last_sync_reports (count : nat) (f : ClusterField) : list (Z * SyncReport) :=
  reverse (take count (reverse (sync_reports (cycles f)))).

Definition put_cached_model (v : option ResonantModel) : ClusterField -> ClusterField :=
  on_cycles (fun y => mkCycles (last_dream_ms y) (dream_cfg y) (dream_reports y) (sync_cfg y) (sync_reports y)
    v (resonant_model y) (awakening_cfg y) (sync_log y) (last_awaken_tick y) (mirror_epochs y) (mirror_replays y)).
Definition set_resonant_model (m : ResonantModel) : ClusterField -> ClusterField := put_cached_model (Some m).
Definition clear_resonant_model : ClusterField -> ClusterField := put_cached_model None.
Definition set_awakening_config : AwakeningConfig -> ClusterField -> ClusterField := put_awakening_cfg.

Definition restore_awakening_state (cfg : AwakeningConfig) (model : ResonantModel) (log : SyncLog) (last_tick : Z)
    (f : ClusterField) : ClusterField :=
  set_sync_log log last_tick (put_resonant_model model (set_resonant_model model (put_awakening_cfg cfg f))).

Section awaken.
Variable o : HashOrder.

Definition build_resonant_model (blake3 : bytes -> bytes) (f : ClusterField) : ClusterField * string :=
  let hash := of_bytes (hex_bytes (blake3 (model_input o f))) in
  let frame := mkFrame hash (cell_count f) (now_ms f) in
  let f' := put_resonant_model (record_build frame (resonant_model (cycles f))) f in
  let f' := set_sync_log (sl_record_build hash (now_ms f) (cell_count f) (sync_log (cycles f'))) (last_awaken_tick (cycles f')) f' in
  (emit (DModelBuild hash (cell_count f) (now_ms f)) f', hash).

Definition apply_awakening_model (f : ClusterField) : ClusterField :=
  let hash := last_hash (resonant_model (cycles f)) in
  let count := cell_count f in
  let f :=
    match hash with
    | Some _ => set_sync_log (record_apply hash (now_ms f) count (sync_log (cycles f))) (last_awaken_tick (cycles f)) f
    | None => f
    end in
  let f := put_resonant_model (set_last_applied hash (resonant_model (cycles f))) f in
  emit (DAwakenApply hash (awakening_cfg (cycles f)) (now_ms f) count) f.

Definition rebuild_resonant_model (f : ClusterField) : ClusterField * option ResonantModel :=
  let history := (last_dream_reports 8 f).*2 in
  if bool_decide (history = []) && bool_decide (sl_entries (sync_log (cycles f)) = []) then (clear_resonant_model f, None)
  else
    let model := build_model o (cells (graph f)) (sync_log (cycles f)) history in
    (set_resonant_model model f, Some model).

(** ** Awakening *)
Definition emit_energy_state (id : Z) (f : ClusterField) : ClusterField :=
  match cells (graph f) !! id with Some c => emit (energy_of id c) f | None => f end.

Definition awakened (cfg : AwakeningConfig) (tension : f32) (c : NodeCell) : NodeCell * f32 :=
  let before := c_energy c in
  let floor := f32_max (energy_floor cfg) before in
  let boost := f32_min (f32_mul tension (energy_boost cfg)) (f32_sub f1 floor) in
  let after := f32_clamp (f32_add floor boost) f0 f1 in
  if f_lt f32_epsilon (f32_abs (f32_sub after before)) then
    (bump_salience (f32_mul (salience_boost cfg) (f32_add f1 tension)) (set_energy after c), f32_sub after before)
  else (c, f0).

(** What the loop carries: the field, applied, protected, the total tension, the count and the
    change of energy. *)
Record Awakening : Type := mkAwakening {
  ak_field : ClusterField;
  ak_applied : Z;
  ak_protected : Z;
  ak_total : f32;
  ak_counted : Z;
  ak_energy : f32
}.

Definition awaken_one (cfg : AwakeningConfig) (a : Awakening) (t : Tension) : Awakening :=
  let inc n := Z.min (n + 1) u32_max in
  let f := ak_field a in
  let total := f32_add (ak_total a) (magnitude t) in
  let counted := inc (ak_counted a) in
  match cells (graph f) !! tn_node t with
  | None => mkAwakening f (ak_applied a) (ak_protected a) total counted (ak_energy a)
  | Some c =>
      if f_le (ac_protect_salience cfg) (c_salience c) then
        mkAwakening f (ak_applied a) (inc (ak_protected a)) total counted (ak_energy a)
      else
        let '(c, delta) := awakened cfg (magnitude t) c in
        let f := set_cells (<[tn_node t := c]> (cells (graph f))) f in
        if f_lt f32_epsilon (f32_abs delta) then
          mkAwakening (emit_energy_state (tn_node t) f) (inc (ak_applied a)) (ak_protected a) total counted
            (f32_add (ak_energy a) delta)
        else mkAwakening f (ak_applied a) (ak_protected a) total counted (ak_energy a)
  end.

(** The field, the tempo it is given, and the report. *)
Definition awaken (model : ResonantModel) (cfg : AwakeningConfig) (t : TrsState) (f : ClusterField)
  : ClusterField * TrsState * AwakeningReport :=
  match rm_tensions model with
  | [] => (f, t, AwakeningReport_default)
  | tensions =>
      let consider := take (Z.to_nat (max_nodes cfg)) (sort_by (fun a b => f_desc (magnitude a) (magnitude b)) tensions) in
      let a := fold_left (awaken_one cfg) consider (mkAwakening f 0 0 f0 0 f0) in
      let avg := if (0 <? ak_counted a)%Z then f32_div (ak_total a) (f32_of_Z (ak_counted a)) else f0 in
      let tension_delta := f32_sub avg (lit 5 10) in
      let adjust :=
        if (tick_bias_ms cfg =? 0)%Z then 0%Z
        else f_as_i32 (f32_clamp (f32_round (f32_mul (f32_of_Z (tick_bias_ms cfg)) tension_delta)) (lit (-64) 1) (lit 64 1)) in
      let t :=
        if f_lt f0 (target_gain cfg) then
          let delta := f32_clamp (f32_mul (target_gain cfg) tension_delta) (lit (-15) 100) (lit 15 100) in
          set_target (f32_clamp (f32_add (t_target_load t) delta) (lit 3 10) (lit 95 100)) t
        else t in
      (ak_field a, t, mkAwakeningReport (ak_applied a) (ak_protected a) adjust avg (ak_energy a))
  end.

(** [std::mem::take] leaves the default tempo in the field while it awakens. *)
Definition awaken_now (f : ClusterField) : ClusterField * AwakeningReport :=
  let '(f, rebuilt) := rebuild_resonant_model f in
  let model :=
    match rebuilt with
    | Some m => m
    | None => default ResonantModel_default (cached_resonant_model (cycles f))
    end in
  let t := trs (control f) in
  let '(f, t, report) := awaken model (awakening_cfg (cycles f)) t (set_trs TrsState_default f) in
  (set_trs t f, report).

(** ** Feedback *)
Definition drain_route_bias (factor : f32) (f : ClusterField) : ClusterField :=
  let decay := f32_clamp (f32_sub f1 factor) f0 f1 in
  set_route_bias ((fun v => f32_mul v decay) <$> route_bias (traffic f)) f.

Definition apply_dampening (now : Z) (strength : f32) (ttl_ms : Z) (f : ClusterField) : ClusterField :=
  set_noradrenaline (Some (mkNoradrenaline (u64_saturating_add now ttl_ms) (f32_clamp strength f0 f1))) f.

Definition shift_target (delta : f32) (f : ClusterField) : ClusterField :=
  let t := trs (control f) in
  set_trs (set_target (f32_clamp (f32_add (t_target_load t) delta) (lit 2 10) (lit 95 100)) t) f.

Definition apply_action (now : Z) (a : Action) (f : ClusterField) : ClusterField :=
  match a with
  | MicroPivot _ step => shift_target (f32_clamp step (lit (-2) 10) (lit 2 10)) f
  | Defuse _ => drain_route_bias (lit 1 10) f
  | Dampening ttl_ms factor => apply_dampening now factor ttl_ms f
  | TargetShift load_delta => shift_target load_delta f
  end.

Definition reflex_neighbors (f : ClusterField) : list (string * f32) :=
  map (fun e => (e.1.1, e.2)) (hm_iter o (route_bias (traffic f))).

Definition record_reflex_snapshot (snapshot : ReflexSnapshot) (f : ClusterField) : ClusterField * option ReflexReport :=
  let s := push_snapshot snapshot (reflex_feedback (control f)) in
  let f := set_reflex_feedback s f in
  let '(s, report) := next_report (reflex_neighbors f) (rx_cfg s) (now_ms f) s in
  let f := set_reflex_feedback s f in
  match report with
  | None => (f, None)
  | Some report =>
      let f :=
        match rp_action report with
        | Some action =>
            let f := apply_action (now_ms f) action f in
            let s := reflex_feedback (control f) in
            set_reflex_feedback (record_action (action_kind action) (now_ms f) (cooldown_for action (rx_cfg s)) s) f
        | None => f
        end in
      (set_reflex_reports (last_n 128 (reflex_reports (control f) ++ [report])) f, Some report)
  end.

Definition set_reflex_enabled (enabled : bool) (f : ClusterField) : ClusterField :=
  set_reflex_feedback (set_enabled enabled (reflex_feedback (control f))) f.

(** ** The mirror *)
Definition mirror_timeline (f : ClusterField) : MirrorTimeline := mkTimeline (mirror_epochs (cycles f)) (now_ms f).

Definition push_mirror_epoch (epoch : Epoch) (f : ClusterField) : ClusterField :=
  let f := emit (DMirrorEpoch epoch) f in
  put_mirror (last_n MIRROR_EPOCH_LIMIT (mirror_epochs (cycles f) ++ [epoch])) (mirror_replays (cycles f)) f.

Definition record_mirror_replay (report : ReplayReport) (f : ClusterField) : ClusterField :=
  let f := emit (DMirrorReplay report) f in
  put_mirror (mirror_epochs (cycles f)) (last_n MIRROR_REPLAY_LIMIT (mirror_replays (cycles f) ++ [report])) f.

Definition mirror_negative_streak (window : nat) (f : ClusterField) : bool :=
  if (window =? 0)%nat || (length (mirror_epochs (cycles f)) <? window)%nat then false
  else forallb (fun epoch => f_le (impact epoch) f0) (take window (reverse (mirror_epochs (cycles f)))).

Definition mirror_recent_impacts (window : nat) (f : ClusterField) : list f32 :=
  map impact (take window (reverse (mirror_epochs (cycles f)))).

Definition mirror_top_influencers (k : Z) (f : ClusterField) : list Epoch := top_influencers (mirror_timeline f) k.

Definition mirror_cell (awakens : bool) (metabolism_delta affinity_delta : f32) (c : NodeCell) : NodeCell :=
  let c :=
    if awakens then set_metabolism (f32_clamp (f32_mul (c_metabolism c) (f32_sub f1 metabolism_delta)) (lit 5 100) (lit 25 10)) c
    else c in
  set_affinity (f32_clamp (f32_mul (c_affinity c) (f32_add f1 affinity_delta)) f0 (lit 2 1)) c.

(** The loop ends when [max_ops] cells are done. *)
Definition mirror_body (protect : f32) (max_ops : Z) (change : NodeCell -> NodeCell) (_ : Z) (c : NodeCell) (applied : Z)
  : NodeCell * Z :=
  if (max_ops <=? applied)%Z then (c, applied)
  else if f_le protect (c_salience c) then (c, applied)
  else (change c, (applied + 1)%Z).

Definition apply_mirror_epoch (epoch : Epoch) (scale : f32) (max_ops : Z) (protect_salience : f32) (f : ClusterField)
  : ClusterField * Z :=
  if (max_ops =? 0)%Z then (f, 0%Z)
  else
    let protect := f32_clamp protect_salience f0 f1 in
    let scale := f32_clamp scale (lit (-4) 1) (lit 4 1) in
    let affinity_delta := f32_clamp (f32_mul (lit 6 100) scale) (lit (-35) 100) (lit 35 100) in
    let metabolism_delta := f32_clamp (f32_mul (lit 3 100) scale) (lit (-2) 10) (lit 2 10) in
    let change := mirror_cell (bool_decide (ep_kind epoch = EAwaken)) metabolism_delta affinity_delta in
    let '(cs, applied) :=
      key_loop (mirror_body protect max_ops change) (hm_keys o (cells (graph f))) (cells (graph f)) 0%Z in
    (set_cells cs f, applied).

Definition average_tension (f : ClusterField) : f32 :=
  match rm_tensions (resonant_model (cycles f)) with
  | [] => f0
  | tensions => f32_div (f32_sum (map magnitude tensions)) (f32_of_Z (Z.of_nat (length tensions)))
  end.

Definition set_mirror_interval (interval_ms : Z) (f : ClusterField) : ClusterField :=
  set_reflex_engine (set_interval interval_ms (reflex_engine (control f))) f.

(** *** Replays of epochs ([recursion.rs]) *)
Definition replay_epoch `{UnicodeCase} (timeline : MirrorTimeline) (epoch_id : Z) (cfg : ReplayConfig) (took : Z)
    (f : ClusterField) : ClusterField * ReplayReport :=
  match List.find (fun epoch => ep_id epoch =? epoch_id)%Z (mt_epochs timeline) with
  | None => (f, mkReplayReport epoch_id (rc_mode cfg) 0 f0 0)
  | Some epoch =>
      let scale := f32_clamp (rc_scale cfg) f0 (lit 4 1) in
      let gain := f32_mul (impact epoch) (f32_abs scale) in
      let '(f, applied) :=
        if String.eqb (to_lowercase (rc_mode cfg)) "apply" && (0 <? rc_max_ops cfg)%Z
        then apply_mirror_epoch epoch scale (rc_max_ops cfg) (rc_protect_salience cfg) f
        else (f, 0%Z) in
      let report := mkReplayReport (ep_id epoch) (rc_mode cfg) applied gain took in
      (record_mirror_replay report f, report)
  end.
Definition replay_epoch_by_id `{UnicodeCase} (epoch_id : Z) (cfg : ReplayConfig) (took : Z) (f : ClusterField)
  : ClusterField * ReplayReport :=
  replay_epoch (rebuild_timeline (mirror_epochs (cycles f)) (now_ms f)) epoch_id cfg took f.

(** ** Reports *)
Definition partial_snapshot (ids : gset Z) (f : ClusterField) : Z * list CellSnapshot :=
  (now_ms f, omap (fun id => snapshot_of_cell <$> (cells (graph f) !! id)) (hs_iter o ids)).

Definition metrics_snapshot (f : ClusterField) : list (Z * f32 * NodeState * Z * f32) :=
  map (fun c => (c_id c, c_metabolism c, c_state c, u64_saturating_sub (now_ms f) (c_last_response_ms c), c_energy c))
    (hm_values o (cells (graph f))).
End awaken.

(** * What the field reports ([morph_mind.rs], [summaries.rs])

    The metrics from which the tempo is regulated, the hints, and the status and token summaries.
    The coins of [hints] are its argument. *)

Record Metrics : Type := mkMetrics {
  m_cells : Z;
  sleeping_pct : f32;
  avg_metabolism : f32;
  avg_latency_ms : f32;
  active_pct : f32;
  live_load : f32
}.
Definition Metrics_default : Metrics := mkMetrics 0 f0 f0 f0 f0 f0.

Definition observed_load (m : Metrics) : f32 := live_load m.
Definition suggest_target (m : Metrics) : f32 :=
  let target := live_load m in
  let target := if f_lt target (lit 55 100) then f32_mul (f32_add target (lit 55 100)) (lit 5 10) else target in
  let target := if f_lt (lit 7 10) target then f32_mul (f32_add target (lit 7 10)) (lit 5 10) else target in
  f32_clamp target (lit 3 10) (lit 8 10).

Definition count_state (s : NodeState) (snapshot : list (Z * f32 * NodeState * Z * f32)) : Z :=
  Z.of_nat (length (List.filter (fun e => bool_decide (e.1.1.2 = s)) snapshot)).

Definition analyze (o : HashOrder) (f : ClusterField) : Metrics :=
  match metrics_snapshot o f with
  | [] => Metrics_default
  | snapshot =>
      let n := f32_of_Z (Z.of_nat (length snapshot)) in
      let metabolism_sum := fold_left (fun s e => f32_add s e.1.1.1.2) snapshot f0 in
      let latency_sum := fold_left (fun s e => f32_add s (f32_of_Z e.1.2)) snapshot f0 in
      let sleeping := f32_div (f32_of_Z (count_state Sleep snapshot)) n in
      let active := f32_div (f32_of_Z (count_state Active snapshot)) n in
      let metabolism := f32_div metabolism_sum n in
      let latency := f32_div latency_sum n in
      let latency_norm := f32_clamp (f32_div latency (lit 320 1)) f0 f1 in
      let metabolism_norm := f32_clamp metabolism f0 f1 in
      let vitality := f32_clamp (f32_sub f1 sleeping) f0 f1 in
      let load :=
        f32_div (f32_add (f32_add (f32_add active (f32_sub f1 latency_norm)) metabolism_norm) vitality) (lit 4 1) in
      mkMetrics (Z.of_nat (length snapshot)) sleeping metabolism latency active (f32_clamp load f0 f1)
  end.

(** [coins]: [gen_bool(0.6)] in a field of fewer than three cells, [gen_bool(0.25)] in one that
    sleeps. *)
Definition hints (coins : bool * bool) (m : Metrics) : list Hint :=
  (if f_lt (lit 7 10) (sleeping_pct m) then [SlowTick] else [])
  ++ (if f_lt (lit 8 10) (avg_metabolism m) then [TrimField] else [])
  ++ (if f_lt (lit 150 1) (avg_latency_ms m) then [FastTick] else [])
  ++ (if (m_cells m <? 3)%Z then (if fst coins then [WakeSeeds] else [])
      else if f_lt (lit 6 10) (sleeping_pct m) && snd coins then [WakeSeeds] else []).

(** ** Summaries *)
Record Status : Type := mkStatus {
  st_harmony : f32;
  emotional_load : f32;
  top_salient : list string;
  last_dream : option Z;
  last_awaken : option Z;
  st_target_load : f32
}.

Definition token_order (a b : string * nat) : bool :=
  match (b.2 ?= a.2)%nat with
  | Lt => true
  | Gt => false
  | Eq => match cmp a.1 b.1 with Gt => false | _ => true end
  end.

Definition make_status (o : HashOrder) (f : ClusterField) : Status :=
  let '(total_affinity, total_energy, count) :=
    fold_left (fun acc c => (f32_add acc.1.1 (c_affinity c), f32_add acc.1.2 (c_energy c), f32_add acc.2 f1))
      (hm_values o (cells (graph f))) (f0, f0, f0) in
  let harmony := if f_lt f0 count then f32_div total_affinity count else f0 in
  let emotional := if f_lt f0 count then f32_div total_energy count else f0 in
  let top_tokens := sort_by token_order (map (fun e => (e.1, length e.2)) (hm_iter o (index (graph f)))) in
  mkStatus harmony emotional (take 3 top_tokens).*1 (fst <$> head (last_dream_reports 1 f))
    (Some (last_awaken_tick (cycles f))) (t_target_load (trs (control f))).

Record Short : Type := mkShort {
  s_token : string;
  s_occurrences : Z;
  s_avg_latency_ms : option f32;
  s_resonance : list string;
  s_salience : f32
}.

Definition explain_token `{UnicodeCase} (token : string) (f : ClusterField) : Short :=
  let ids := default [] (index (graph f) !! to_lowercase token) in
  let occurrences := Z.of_nat (length ids) in
  let salience :=
    fold_left (fun s id => match cells (graph f) !! id with Some c => f32_add s (c_salience c) | None => s end) ids f0 in
  mkShort token occurrences None [] (if (0 <? occurrences)%Z then f32_div salience (f32_of_Z occurrences) else f0).
