(* ===== verification/FieldLql.v ===== *)
(** * The cluster field: execution of queries ([ClusterField::exec_lql])

    Every command of the query language on the state of the field, with its response and the event
    it answers. [exec_lql_sound] shows that a query leaves the cells, the rules and the journal
    alone; [exec_lql_exact] says which queries fail and what each changes. *)

From stdpp Require Import prelude gmap strings fin_maps fin_sets list sorting.
From Stdlib Require Import ZArith Lia SpecFloat.
From S2P Require Import Prelude RustStr RustOrd Float RustText Json NodeCell Trs Seeds Symmetry FieldTypes Feedback Variant Resonant Journal Collections Field FieldOps FieldRoute FieldAwaken.
From S2P Require Views Lql.

(** ** Responses *)
Record LqlSelectResult : Type := mkSelectResult {
  ls_pattern : string;
  ls_window_ms : Z;
  ls_filter : Views.ViewFilter;
  ls_stats : ViewStats
}.
Record LqlSubscribeResult : Type := mkSubscribeResult {
  lb_id : Z;
  lb_pattern : string;
  lb_window_ms : Z;
  lb_every_ms : Z;
  lb_filter : Views.ViewFilter
}.
Record LqlUnsubscribeResult : Type := mkUnsubscribeResult {
  lu_id : Z;
  lu_removed : bool
}.
Record LqlSlideResult : Type := mkSlideResult {
  lq_slide_id : string;
  lq_variant_ids : list string;
  lq_desired_metrics : gmap string f64
}.
Record LqlCommitResult : Type := mkCommitResult {
  lc_variant_id : string;
  lc_seeds : list Z
}.
Record LqlPivotResult : Type := mkPivotResult {
  lp_from : string;
  lp_to : string;
  lp_inertia : f32;
  lp_reason : option string
}.

(** [LqlIntendResult], [LqlVariantInfo] and [LqlDefuseResult] have the fields of [Intention],
    [VariantScore] and [DefuseOutcome]. *)
Inductive LqlResponse : Type :=
| RSelect (r : LqlSelectResult)
| RSubscribe (r : LqlSubscribeResult)
| RUnsubscribe (r : LqlUnsubscribeResult)
| RIntend (r : Intention)
| RVariants (limit : option Z) (min_probability : option f32) (ranked : list VariantScore)
| RSlide (r : LqlSlideResult)
| RCommit (r : LqlCommitResult)
| RPivot (r : LqlPivotResult)
| RDefuse (r : DefuseOutcome).

Record LqlExecResult : Type := mkExecResult {
  response : option LqlResponse;
  events : list FieldEvent
}.

(** ** Serialized forms *)
Definition lql_filter_fields (flt : Views.ViewFilter) : list (string * json) :=
  json_opt "min_strength" json_f32 (Views.min_strength flt)
  ++ json_opt "min_salience" json_f32 (Views.min_salience flt)
  ++ json_opt "adreno" JBool (Views.adreno flt).

Definition select_json (r : LqlSelectResult) : json :=
  json_obj ([("pattern", JStr (ls_pattern r)); ("window_ms", JU64 (ls_window_ms r))]
            ++ lql_filter_fields (ls_filter r) ++ [("stats", stats_json (ls_stats r))]).
Definition subscribe_json (r : LqlSubscribeResult) : json :=
  json_obj ([("id", JU64 (lb_id r)); ("pattern", JStr (lb_pattern r)); ("window_ms", JU64 (lb_window_ms r));
             ("every_ms", JU64 (lb_every_ms r))] ++ lql_filter_fields (lb_filter r)).
Definition edge_json (e : ResonantEdge) : json :=
  json_obj [("from", JU64 (e_from e)); ("to", JU64 (e_to e)); ("weight", json_f32 (e_weight e));
            ("coherence", json_f32 (e_coherence e))].
Definition influence_json (i : Influence) : json :=
  json_obj [("source", JU64 (in_source i)); ("sink", JU64 (in_sink i)); ("weight", json_f32 (in_weight i));
            ("coherence", json_f32 (in_coherence i))].
Definition tension_json (t : Tension) : json :=
  json_obj [("node", JU64 (tn_node t)); ("magnitude", json_f32 (magnitude t)); ("relief", json_f32 (relief t))].
Definition harmony_json (m : HarmonyMetrics) : json :=
  json_obj [("avg_strength", json_f32 (avg_strength m)); ("avg_latency", json_f32 (hm_avg_latency m));
            ("entropy", json_f32 (entropy m))].
Definition epoch_json (e : Epoch) : json :=
  json_obj [("id", JU64 (ep_id e)); ("kind", JStr (EpochKind_as_str (ep_kind e)));
            ("start_ms", JU64 (ep_start_ms e)); ("end_ms", JU64 (ep_end_ms e));
            ("cfg_hash", JU64 (ep_cfg_hash e)); ("report_hash", JU64 (ep_report_hash e));
            ("harmony_before", harmony_json (harmony_before e)); ("harmony_after", harmony_json (harmony_after e));
            ("tension_before", json_f32 (tension_before e)); ("tension_after", json_f32 (tension_after e));
            ("latency_avg_before", json_f32 (latency_avg_before e));
            ("latency_avg_after", json_f32 (latency_avg_after e)); ("impact", json_f32 (impact e))].
Definition score_json (s : VariantScore) : json :=
  json_obj [("id", JStr (vs_id s)); ("title", JStr (vs_title s)); ("probability", json_f32 (vs_probability s));
            ("effort", json_f32 (vs_effort s)); ("score", json_f32 (vs_score s)); ("evidence", json_f32 (vs_evidence s));
            ("risk", json_f32 (vs_risk s)); ("expected_gain", json_f32 (vs_expected_gain s))].
Definition slide_json (s : Slide) : json :=
  json_obj [("id", JStr (sl_id s)); ("variant_ids", JArr (map JStr (variant_ids s)));
            ("desired_metrics", JObj (json_f64 <$> desired_metrics s)); ("ethics_guard", json_or_null JStr (ethics_guard s))].
Definition reflex_cfg_json (c : Lql.ReflexCfg) : json :=
  json_obj [("win_ms", JU64 (Lql.win_ms c)); ("eps", json_f32 (Lql.eps c)); ("pivot_step", json_f32 (Lql.pivot_step c));
            ("hysteresis", json_f32 (Lql.hysteresis c)); ("cooldown_ms", JU64 (Lql.cooldown_ms c));
            ("min_gain", json_f32 (Lql.min_gain c))].
Definition signal_json (s : ReflexSignal) : json :=
  JStr match s with
       | RsOk => "ok" | Plateau => "plateau" | DriftDown => "drift_down" | Oscillation => "oscillation"
       | Feedback.Overload => "overload"
       end.
Definition action_json (a : Action) : json :=
  match a with
  | MicroPivot variant step =>
      json_obj [("kind", JStr "MicroPivot"); ("meta", json_obj [("variant", json_or_null JStr variant); ("step", json_f32 step)])]
  | Defuse pendulum => json_obj [("kind", JStr "Defuse"); ("meta", json_obj [("pendulum", JBool pendulum)])]
  | Dampening ttl_ms factor =>
      json_obj [("kind", JStr "Dampening"); ("meta", json_obj [("ttl_ms", JU64 ttl_ms); ("factor", json_f32 factor)])]
  | TargetShift load_delta => json_obj [("kind", JStr "TargetShift"); ("meta", json_obj [("load_delta", json_f32 load_delta)])]
  end.
Definition report_json (r : ReflexReport) : json :=
  let d := rp_delta r in
  json_obj [("sig", signal_json (rp_sig r));
            ("delta", json_obj [("yield_delta", json_f32 (yield_delta d)); ("harmony_delta", json_f32 (harmony_delta d));
                                ("latency_delta", json_f32 (latency_delta d)); ("impact_delta", json_f32 (impact_delta d))]);
            ("action", json_or_null action_json (rp_action r)); ("took_ms", JU64 (rp_took_ms r))].

Definition reflex_cfg (f : ClusterField) : Lql.ReflexCfg := rx_cfg (reflex_feedback (control f)).
Definition reflex_enabled (f : ClusterField) : bool := rx_enabled (reflex_feedback (control f)).
Definition reflex_last_report (f : ClusterField) : option ReflexReport := last (reflex_reports (control f)).

Section exec.
Context `{UnicodeCase, FloatMath}.
Variable o : HashOrder.

Definition answer (f : ClusterField) (r : option LqlResponse) (ev : FieldEvent)
  : ClusterField * result LqlExecResult Lql.LqlError := (f, Ok (mkExecResult r [ev])).
Definition refuse (f : ClusterField) (message : string) : ClusterField * result LqlExecResult Lql.LqlError :=
  (f, Err (Lql.lql_error message)).

Definition exec_select (pattern : string) (window_ms : option Z) (flt : Views.ViewFilter) (f : ClusterField) :=
  let window := Z.max (default DEFAULT_WINDOW_MS window_ms) 1 in
  let payload := mkSelectResult pattern window flt (stats_for_pattern o pattern window flt f) in
  answer f (Some (RSelect payload)) (event "lql" [("select", select_json payload)]).

Definition exec_subscribe (pattern : string) (window_ms every_ms : option Z) (flt : Views.ViewFilter) (f : ClusterField) :=
  let window := Z.max (default DEFAULT_WINDOW_MS window_ms) 1 in
  let every := Z.max (default DEFAULT_VIEW_EVERY_MS every_ms) 200 in
  let '(reg, id) := Views.add_view (views f) pattern window every (now_ms f) flt in
  let payload := mkSubscribeResult id pattern window every flt in
  answer (set_views reg f) (Some (RSubscribe payload)) (event "lql" [("subscribe", subscribe_json payload)]).

Definition exec_unsubscribe (id : Z) (f : ClusterField) :=
  let '(reg, removed) := Views.remove_view (views f) id in
  answer (set_views reg f) (Some (RUnsubscribe (mkUnsubscribeResult id removed)))
    (event "lql" [("unsubscribe", json_obj [("id", JU64 id); ("removed", JBool removed)])]).

(** INTROSPECT MODEL, INFLUENCE, TENSION and EPOCHS: the best [top_n] entries. *)
Definition exec_introspect {A : Type} (name entries : string) (top : Z -> list A) (j : A -> json) (top_n : option Z)
    (f : ClusterField) :=
  let limit := default DEFAULT_INTROSPECT_TOP_N top_n in
  answer f None (event "lql" [(name, json_obj [("limit", JU64 limit); (entries, JArr (map j (top limit)))])]).

Definition exec_introspect_epoch (id : Z) (f : ClusterField) :=
  let epoch := List.find (fun e => ep_id e =? id)%Z (mirror_epochs (cycles f)) in
  answer f None (event "lql" [("introspect_epoch", json_obj [("id", JU64 id); ("epoch", json_or_null epoch_json epoch)])]).

Definition exec_intend (tokens : list string) (weights : list f32) (horizon_ms : option Z) (budget : option f32)
    (f : ClusterField) :=
  let intention := mkIntention tokens weights horizon_ms budget in
  answer (set_variant_layer (set_intention intention (variant_layer f)) f) (Some (RIntend intention))
    (event "manifold"
       [("intention",
          json_obj [("tokens", JArr (map JStr tokens)); ("weights", JArr (map json_f32 weights));
                    ("horizon_ms", json_or_null JU64 horizon_ms); ("budget", json_or_null json_f32 budget)])]).

Definition exec_variants (limit : option Z) (min_probability : option f32) (f : ClusterField) :=
  let ranked := rank_variants o limit min_probability (variant_layer f) in
  answer f (Some (RVariants limit min_probability ranked))
    (event "manifold" [("variants", JArr (map score_json ranked)); ("limit", json_or_null JU64 limit);
                       ("min_probability", json_or_null json_f32 min_probability)]).

Definition exec_slide (id : string) (vs : list string) (goals : gmap string f64) (guard : option string) (f : ClusterField) :=
  let slide := mkSlide id vs goals guard in
  answer (set_variant_layer (set_slide slide (variant_layer f)) f) (Some (RSlide (mkSlideResult id vs goals)))
    (event "manifold" [("slide", slide_json slide)]).

Definition exec_commit (variant_id : string) (f : ClusterField) :=
  let '(layer, outcome) := commit_variant variant_id (now_ms f) (variant_layer f) in
  let f := set_variant_layer layer f in
  match outcome with
  | None => refuse f ("unknown variant " +:+ variant_id)
  | Some out =>
      let '(f, seeds) := plant_variant_seeds variant_id f in
      answer f (Some (RCommit (mkCommitResult (co_variant_id out) seeds)))
        (event "commit" [("variant", JStr (co_variant_id out)); ("seeds", JArr (map JU64 seeds))])
  end.

Definition exec_pivot (from to : string) (reason : option string) (f : ClusterField) :=
  let '(layer, outcome) := pivot from to (now_ms f) (variant_layer f) in
  let f := set_variant_layer layer f in
  match outcome with
  | None => refuse f "unable to pivot: variant mismatch"
  | Some out =>
      answer f (Some (RPivot (mkPivotResult (po_from out) (po_to out) (po_inertia out) reason)))
        (event "pivot" [("from", JStr (po_from out)); ("to", JStr (po_to out)); ("reason", json_or_null JStr reason);
                        ("inertia", json_f32 (po_inertia out))])
  end.

Definition exec_defuse (pendulum_id : string) (drain : f32) (f : ClusterField) :=
  let '(layer, outcome) := defuse pendulum_id drain (variant_layer f) in
  let f := set_variant_layer layer f in
  match outcome with
  | None => refuse f "unknown pendulum"
  | Some out =>
      answer f (Some (RDefuse out))
        (event "defuse" [("pendulum", JStr (do_pendulum_id out)); ("drain_rate", json_f32 (new_drain out))])
  end.

Definition exec_reflex (f : ClusterField) (with_cfg : bool) :=
  answer f None
    (event "lql" [("reflex", json_obj (("enabled", JBool (reflex_enabled f))
       :: if with_cfg then [("cfg", reflex_cfg_json (reflex_cfg f))] else []))]).

Definition exec_reflex_status (f : ClusterField) :=
  answer f None
    (event "lql" [("reflex_status",
       json_obj [("enabled", JBool (reflex_enabled f)); ("cfg", reflex_cfg_json (reflex_cfg f));
                 ("last_report", json_or_null report_json (reflex_last_report f))])]).

Definition exec_lql (ast : Lql.LqlAst) (f : ClusterField) : ClusterField * result LqlExecResult Lql.LqlError :=
  let model := resonant_model (cycles f) in
  match ast with
  | Lql.Select pattern window_ms flt => exec_select pattern window_ms flt f
  | Lql.Subscribe pattern window_ms every_ms flt => exec_subscribe pattern window_ms every_ms flt f
  | Lql.IntrospectModel top_n =>
      exec_introspect "introspect_model" "edges" (fun n => top_edges n model) edge_json top_n f
  | Lql.IntrospectInfluence top_n =>
      exec_introspect "introspect_influence" "influences" (fun n => top_influences n model) influence_json top_n f
  | Lql.IntrospectTension top_n =>
      exec_introspect "introspect_tension" "tensions" (fun n => top_tensions n model) tension_json top_n f
  | Lql.IntrospectEpochs top_n =>
      exec_introspect "introspect_epochs" "epochs" (fun n => mirror_top_influencers n f) epoch_json top_n f
  | Lql.IntrospectEpoch id => exec_introspect_epoch id f
  | Lql.Intend tokens weights horizon_ms budget => exec_intend tokens weights horizon_ms budget f
  | Lql.Variants limit min_probability => exec_variants limit min_probability f
  | Lql.SlideSet id vs goals guard => exec_slide id vs goals guard f
  | Lql.Commit variant_id => exec_commit variant_id f
  | Lql.Pivot from to reason => exec_pivot from to reason f
  | Lql.Defuse pendulum_id drain => exec_defuse pendulum_id drain f
  | Lql.Unsubscribe id => exec_unsubscribe id f
  | Lql.ReflexOn => exec_reflex (set_reflex_enabled true f) true
  | Lql.ReflexOff => exec_reflex (set_reflex_enabled false f) false
  | Lql.ReflexStatus => exec_reflex_status f
  | Lql.ReflexTune cfg => exec_reflex (set_reflex_feedback (rx_set_cfg cfg (reflex_feedback (control f))) f) true
  end.
End exec.

(** ** What a query may do *)
(** The queries that are refused, with the message. *)
Definition refusal (ast : Lql.LqlAst) (f : ClusterField) : option string :=
  let layer := variant_layer f in
  match ast with
  | Lql.Commit id => if decide (is_Some (variants layer !! id)) then None else Some ("unknown variant " +:+ id)
  | Lql.Pivot from to _ =>
      if decide (cs_variant_id <$> active_commit layer = Some from /\ is_Some (variants layer !! to)) then None
      else Some "unable to pivot: variant mismatch"
  | Lql.Defuse id _ => if decide (is_Some (pendulums layer !! id)) then None else Some "unknown pendulum"
  | _ => None
  end.

(** The part of the state a query may write. *)
Definition writes (ast : Lql.LqlAst) (f f' : ClusterField) : Prop :=
  match ast with
  | Lql.Subscribe _ _ _ _ | Lql.Unsubscribe _ => f' = set_views (views f') f
  | Lql.Intend _ _ _ _ | Lql.SlideSet _ _ _ _ | Lql.Pivot _ _ _ | Lql.Defuse _ _ =>
      f' = set_variant_layer (variant_layer f') f
  | Lql.Commit _ => f' = set_seed_garden (seed_garden f') (set_variant_layer (variant_layer f') f)
  | Lql.ReflexOn | Lql.ReflexOff | Lql.ReflexTune _ => f' = set_reflex_feedback (reflex_feedback (control f')) f
  | _ => f' = f
  end.

Lemma set_variant_layer_eta f : set_variant_layer (variant_layer f) f = f.
Proof. by destruct f. Qed.

(** The three words of [plant_variant_seeds]. *)
Definition hinted (v : Variant) : list string :=
  take 3 (if decide (path_hint v = []) then [v_title v] else path_hint v).

(** Planting some tokens. *)
Lemma plant_tokens_spec id v ttl now tokens : forall g acc,
  (0 < sg_next_id g)%Z -> (sg_next_id g + Z.of_nat (length tokens) < u64_size)%Z ->
  let '(g', planted) := fold_left (plant_token id v ttl now) tokens (g, acc) in
  planted = acc ++ seqZ (sg_next_id g) (Z.of_nat (length tokens)) /\
  sg_next_id g' = (sg_next_id g + Z.of_nat (length tokens))%Z /\
  (forall k, (k < sg_next_id g)%Z -> seeds g' !! k = seeds g !! k) /\
  forall i token, tokens !! i = Some token ->
    exists s, seeds g' !! (sg_next_id g + Z.of_nat i)%Z = Some s /\ sd_kind s = PolicyBundle /\ sd_target s = token /\
      sd_stage s = Planted /\ ttl_ms s = ttl /\ ts_planted s = now /\ sd_args s !! "source" = Some (JStr id).
Proof.
  induction tokens as [|token tokens IH]; intros g acc Hpos Hroom; cbn [fold_left].
  - rewrite seqZ_nil by (cbn; lia). rewrite app_nil_r. split_and!; try done. cbn. lia.
  - cbn [length] in Hroom. unfold plant_token at 2, plant. cbn [sd_id Seed_new]. rewrite Z.eqb_refl.
    set (s := set_sd_id _ _). set (g1 := mkGarden _ _ _).
    assert (sg_next_id g1 = sg_next_id g + 1)%Z as En.
    { unfold g1. cbn [sg_next_id]. unfold u64_saturating_add, u64_max. unfold u64_size in *. lia. }
    specialize (IH g1 (acc ++ [sg_next_id g]) ltac:(lia) ltac:(lia)).
    destruct (fold_left _ tokens _) as [g' planted]. rewrite En in IH. destruct IH as (Hp & Hn & Hk & Hs). split_and!.
    + rewrite Hp, <- app_assoc. f_equal. cbn [length]. rewrite Nat2Z.inj_succ. rewrite (seqZ_cons (sg_next_id g)) by lia.
      cbn. do 2 f_equal; lia.
    + rewrite Hn. cbn [length]. lia.
    + intros k Hlt. rewrite Hk by lia. unfold g1. cbn [seeds]. by rewrite lookup_insert_ne by lia.
    + intros [|i] tok Hi; cbn in Hi.
      * injection Hi as <-. exists s. rewrite Z.add_0_r. split; [| by split_and!].
        rewrite Hk by lia. unfold g1. cbn [seeds]. by rewrite lookup_insert_eq.
      * destruct (Hs i tok Hi) as (s' & Hs' & Hrest). exists s'. split; [| done]. rewrite <- Hs'. f_equal. lia.
Qed.

Section exact.
Context `{UnicodeCase, FloatMath}.
Variable o : HashOrder.

(** What a commit leaves behind. *)
Definition committed (id : string) (v : Variant) (f f' : ClusterField) (seeds' : list Z) : Prop :=
  active_commit (variant_layer f') = Some (mkCommitState id (now_ms f) (variant_effort v)) /\
  ((0 < sg_next_id (seed_garden f))%Z -> (sg_next_id (seed_garden f) + 3 < u64_size)%Z ->
   seeds' = seqZ (sg_next_id (seed_garden f)) (Z.of_nat (length (hinted v))) /\
   Forall2 (fun k token => exists s, seeds (seed_garden f') !! k = Some s /\ sd_kind s = PolicyBundle /\ sd_target s = token /\
     sd_stage s = Planted /\ ttl_ms s = Z.max (time_est_ms v) 1 /\ ts_planted s = now_ms f /\
     sd_args s !! "source" = Some (JStr id)) seeds' (hinted v) /\
   forall k, (k < sg_next_id (seed_garden f))%Z -> seeds (seed_garden f') !! k = seeds (seed_garden f) !! k).

Lemma exec_commit_spec id f :
  match variants (variant_layer f) !! id with
  | None => exec_commit id f = refuse f ("unknown variant " +:+ id)
  | Some v => exists f' seeds' ev, exec_commit id f = (f', Ok (mkExecResult (Some (RCommit (mkCommitResult id seeds'))) [ev])) /\
      writes (Lql.Commit id) f f' /\ committed id v f f' seeds'
  end.
Proof.
  unfold exec_commit, commit_variant. destruct (variants (variant_layer f) !! id) as [v|] eqn:E; [| by rewrite set_variant_layer_eta].
  set (layer := set_active_commit _ _). set (f1 := set_variant_layer layer f). unfold plant_variant_seeds.
  assert (variants (variant_layer f1) !! id = Some v) as -> by exact E.
  change (take 3 (if decide (path_hint v = []) then [v_title v] else path_hint v)) with (hinted v).
  pose proof (plant_tokens_spec id v (Z.max (time_est_ms v) 1) (now_ms f1) (hinted v) (seed_garden f1) []) as Hp.
  destruct (fold_left _ _ _) as [garden planted]. exists (set_seed_garden garden f1), planted. eexists.
  split; [reflexivity |]. split; [done |]. split; [done |]. intros Hpos Hroom.
  assert (length (hinted v) <= 3) as Hlen by (unfold hinted; rewrite length_take; lia).
  specialize (Hp Hpos ltac:(cbn; lia)). destruct Hp as (-> & _ & Hk & Hs). cbn [app]. split_and!; [done | | exact Hk].
  apply Forall2_same_length_lookup. split; [by rewrite length_seqZ, Nat2Z.id |]. intros i k token Hi Ht.
  apply lookup_seqZ in Hi as [-> _]. by apply Hs.
Qed.

Lemma exec_lql_writes ast f : writes ast f (fst (exec_lql o ast f)).
Proof.
  destruct ast; cbn [exec_lql fst]; try done; try by destruct f as [? ? ? ? [] ? ? ? ? ?].
  - pose proof (exec_commit_spec variant_id f) as Hc. destruct (variants (variant_layer f) !! variant_id) as [v|].
    + destruct Hc as (f' & seeds' & ev & -> & Hw & _). exact Hw.
    + rewrite Hc. by destruct f.
  - unfold exec_pivot. destruct (pivot _ _ _ _) as [layer [out|]]; by destruct f.
  - unfold exec_defuse. destruct (defuse _ _ _) as [layer [out|]]; by destruct f.
Qed.

(** C28: what a query does to the field. It is refused, with its message and without any change,
    exactly when it commits an unknown variant, pivots from a variant that is not committed or to an
    unknown one, or defuses an unknown pendulum; otherwise it answers one event. A SELECT, an
    INTROSPECT, a VARIANTS and a REFLEX STATUS change nothing, and every other query changes no more
    than the part of the state it is about. A subscription stores its view under the identifier it
    answers, with a period of 200 ms at least, and unsubscribing that identifier restores the views. A
    commit makes the variant the active one and plants one policy seed for each of the first three
    hints of its path (or for its title), leaving the other seeds alone. *)
Theorem exec_lql_exact ast f :
  let '(f', r) := exec_lql o ast f in
  match refusal ast f with
  | Some message => r = Err (Lql.lql_error message) /\ f' = f
  | None => exists resp ev, r = Ok (mkExecResult resp [ev]) /\
      match ast with
      | Lql.Subscribe pattern _ every_ms flt =>
          let id := Views.next_id (views f) in
          exists sub, resp = Some (RSubscribe sub) /\ lb_id sub = id /\ (200 <= lb_every_ms sub)%Z /\ (1 <= lb_window_ms sub)%Z /\
            (exists view, Views.views (views f') !! id = Some view /\ Views.v_pattern view = pattern /\
               Views.v_every_ms view = lb_every_ms sub) /\
            (Views.views (views f) !! id = None ->
             Views.views (views (fst (exec_lql o (Lql.Unsubscribe id) f'))) = Views.views (views f))
      | Lql.Commit id => exists v seeds', resp = Some (RCommit (mkCommitResult id seeds')) /\
          variants (variant_layer f) !! id = Some v /\ committed id v f f' seeds'
      | _ => True
      end
  end /\ writes ast f f'.
Proof.
  destruct ast; cbn [exec_lql refusal]; try (split; [by do 2 eexists | by destruct f as [? ? ? ? [] ? ? ? ? ?]]).
  - split; [| done]. do 2 eexists. split; [reflexivity |]. eexists. split; [reflexivity |]. cbn.
    split_and!; [done | lia | lia | |].
    + eexists. by rewrite lookup_insert_eq.
    + intros Hn. by rewrite delete_insert_id.
  - pose proof (exec_commit_spec variant_id f) as Hc. destruct (variants (variant_layer f) !! variant_id) as [v|] eqn:E.
    + destruct Hc as (f' & seeds' & ev & -> & Hw & Hc). rewrite decide_True by by eexists. split; [| exact Hw].
      do 2 eexists. split; [reflexivity |]. by exists v, seeds'.
    + rewrite Hc, decide_False by (by intros []). unfold refuse. by destruct f.
  - unfold exec_pivot, pivot. destruct (active_commit (variant_layer f)) as [cur|] eqn:Ec; cbn [fmap option_fmap option_map].
    2: { rewrite decide_False by (by intros []). rewrite set_variant_layer_eta. by destruct f. }
    destruct (decide (cs_variant_id cur <> from)) as [Hne | Heq].
    { rewrite decide_False by (intros [[=] _]; done). rewrite set_variant_layer_eta. by destruct f. }
    apply dec_stable in Heq. destruct (variants (variant_layer f) !! to) as [next|] eqn:Et.
    + rewrite decide_True by (split; [by rewrite Heq | by eexists]). split; [by do 2 eexists | done].
    + rewrite decide_False by (intros [_ []]; done). rewrite set_variant_layer_eta. by destruct f.
  - unfold exec_defuse, defuse. destruct (pendulums (variant_layer f) !! pendulum_id) as [p|] eqn:E.
    + rewrite decide_True by by eexists. split; [by do 2 eexists | done].
    + rewrite decide_False by (by intros []). rewrite set_variant_layer_eta. by destruct f.
Qed.
End exact.

(** A commit, a pivot to an unknown variant. *)
#[local] Instance exec_case : UnicodeCase := ascii_case.
#[local] Instance exec_math : FloatMath := {| f32_ln x := x; f32_exp x := x |}.
Definition demo_variant : Variant :=
  mkVariant "calm" "Calm" f1 f1 0 f0 f1 ["rest"; "walk"; "read"; "write"] None.
Definition demo_planner : ClusterField :=
  set_variant_layer (upsert_variant demo_variant VariantManifold_default) ClusterField_new.

Lemma exec_lql_exact_witness :
  refusal (Lql.Commit "calm") demo_planner = None /\
  (exists ev, snd (exec_lql rev_order (Lql.Commit "calm") demo_planner)
     = Ok (mkExecResult (Some (RCommit (mkCommitResult "calm" [1; 2; 3]%Z))) [ev])) /\
  active_commit (variant_layer (fst (exec_lql rev_order (Lql.Commit "calm") demo_planner)))
    = Some (mkCommitState "calm" 0 (variant_effort demo_variant)) /\
  refusal (Lql.Pivot "calm" "storm" None) (fst (exec_lql rev_order (Lql.Commit "calm") demo_planner))
    = Some "unable to pivot: variant mismatch".
Proof.
  split_and!; [by vm_compute | eexists; vm_compute; reflexivity | | by vm_compute].
  pose proof (exec_lql_exact rev_order (Lql.Commit "calm") demo_planner) as He.
  destruct (exec_lql rev_order (Lql.Commit "calm") demo_planner) as [f' r].
  assert (refusal (Lql.Commit "calm") demo_planner = None) as Hr by by vm_compute. rewrite Hr in He.
  destruct He as [(resp & ev & _ & v & seeds' & _ & Ev & Hc & _) _].
  assert (variants (variant_layer demo_planner) !! "calm" = Some demo_variant) as Hv by by vm_compute.
  rewrite Hv in Ev. injection Ev as <-. exact Hc.
Defined.
