(* ===== verification/FieldCycles.v ===== *)
(** * The cluster field: dreams, awakening and replays are sound

    Every operation of [FieldDream] and [FieldAwaken] that changes the state is an
    [ok_step]: it keeps the field well formed, gives out no identifier, and what it appends to the
    journal accounts for the links it removes and adds. *)

From stdpp Require Import prelude gmap strings fin_maps fin_sets list sorting.
From Stdlib Require Import ZArith Lia SpecFloat.
From S2P Require Import Prelude RustStr RustOrd Float RustText Json NodeCell Trs Seeds Symmetry FieldTypes Feedback Variant Resonant Journal Collections Field FieldOps FieldRoute FieldTick FieldInv FieldReplay FieldSteps FieldTickInv FieldSound FieldDream FieldAwaken FieldLql.
From S2P Require Views Lql.

Section cycles.
Context `{UnicodeCase}.
Variable o : HashOrder.

(** ** Shapes of steps *)
Lemma ok_refl f : field_wf f -> ok_step 0 f f.
Proof. intros Hw. by apply ok_frame. Qed.

Lemma ok_trans0 f f1 f2 : ok_step 0 f f1 -> (field_wf f1 -> ok_step 0 f1 f2) -> ok_step 0 f f2.
Proof. intros H1 H2. eapply (ok_trans 0 0); [exact H1 | apply H2, H1]. Qed.

Lemma ok_loop {S A} (pr : S -> ClusterField) (step : S -> A -> S) l :
  (forall s x, field_wf (pr s) -> ok_step 0 (pr s) (pr (step s x))) ->
  forall s, field_wf (pr s) -> ok_step 0 (pr s) (pr (fold_left step l s)).
Proof.
  intros Hs. induction l as [|x l IH]; intros s Hw; cbn [fold_left]; [by apply ok_refl |].
  eapply ok_trans0; [by apply Hs |]. apply IH.
Qed.

(** A change outside the cells, then a delta that says nothing of the cells. *)
Lemma ok_tell d f f1 :
  field_wf f -> core f1 = core f -> journal f1 = journal f -> setup f1 = setup f -> neutral d ->
  ok_step 0 f (emit d f1).
Proof.
  intros Hw Hc Hj Hs Hd. eapply ok_trans0; [by apply (ok_frame f f1) |]. intros Hw1. by apply ok_emit.
Qed.

(** A delta that tells what the field already knows. *)
Lemma ok_emit_known d f :
  field_wf f -> (forall id, sk_effect d id (skel <$> (cells (graph f) !! id)) = skel <$> (cells (graph f) !! id)) ->
  (forall n, next_effect d n = n) -> (forall s, setup_effect d s = s) -> calm [d] -> ok_step 0 f (emit d f).
Proof.
  intros Hw Hsk Hn Hs Hcalm. pose proof (next_core _ _ (core_emit d f)) as En.
  split; [| lia | apply setup_emit |].
  - eapply field_wf_core; [apply core_emit | done].
  - exists [d]. split_and!; [intros log; apply journal_emit | | by unfold next_effects; cbn [fold_left]; rewrite Hn
      | by unfold setup_effects; cbn [fold_left]; rewrite Hs, setup_emit | exact Hcalm].
    intros id. rewrite (cells_core _ _ (core_emit d f)). cbn. by rewrite Hsk.
Qed.

(** One cell changes its links, and a delta says how. *)
Lemma ok_relink id c links d f f1 :
  field_wf f -> cells (graph f) !! id = Some c ->
  (forall to, to ∈ links -> to ∈ c_links c \/ (0 < to < next_id (graph f))%Z) ->
  core f1 = core (set_cells (<[id := set_links links c]> (cells (graph f))) f) ->
  journal f1 = journal f -> setup f1 = setup f ->
  (forall i x, sk_effect d i x = if decide (i = id) then (fun s => (s.1, match d with DLink _ b => s.2 ∪ {[b]} | DUnlink _ b => s.2 ∖ {[b]} | _ => s.2 end)) <$> x else x) ->
  links = match d with DLink _ b => c_links c ∪ {[b]} | DUnlink _ b => c_links c ∖ {[b]} | _ => c_links c end ->
  (forall n, next_effect d n = n) -> (forall s, setup_effect d s = s) -> calm [d] ->
  ok_step 0 f (emit d f1).
Proof.
  intros [Hw Ha] E Hl Hc Hj Hs Hsk -> Hn Hse Hcalm. set (links := match d with DLink _ b => _ | _ => _ end) in *.
  assert (core (emit d f1) = core (set_cells (<[id := set_links links c]> (cells (graph f))) f)) as Hc' by by rewrite core_emit.
  pose proof (next_core _ _ Hc') as En. pose proof (cells_core _ _ Hc') as Ec. cbn in En, Ec.
  split; [| lia | by rewrite setup_emit |].
  - split; [rewrite Hc' | rewrite Ec].
    + eapply keeps_insert; [exact Hw | exact E |]. split_and!; [done | done | exact Hl].
    + apply alive_insert; [done | exact (Ha id c E)].
  - exists [d]. split_and!; [.. | exact Hcalm].
    + intros log Ej. apply journal_emit. by rewrite Hj.
    + intros i. rewrite Ec. cbn [sk_effects fold_left]. rewrite Hsk. case_decide as Hi.
      * subst i. rewrite lookup_insert_eq, E. by destruct d.
      * by rewrite lookup_insert_ne.
    + unfold next_effects. cbn [fold_left]. by rewrite Hn, En.
    + unfold setup_effects. cbn [fold_left]. by rewrite Hse, setup_emit, Hs.
Qed.

(** The cells change, their skeletons do not. *)
Lemma ok_cells cs f :
  field_wf f ->
  (forall id, match cells (graph f) !! id, cs !! id with
              | Some c, Some c' => skel c' = skel c /\ c_state c' = c_state c
              | None, None => True
              | _, _ => False
              end) -> ok_step 0 f (set_cells cs f).
Proof.
  intros [Hw Ha] Hk. split; try done.
  - split.
    + apply (keeps_cells (cells (graph f))); [exact Hw |]. intros id. specialize (Hk id). cbn.
      destruct (_ !! id), (cs !! id); try done. by apply skel_keeps, Hk.
    + intros id c' E. cbn in E. specialize (Hk id). rewrite E in Hk.
      destruct (cells (graph f) !! id) as [c|] eqn:Ec; [| done]. destruct Hk as [_ ->]. exact (Ha id c Ec).
  - cbn. lia.
  - exists []. split_and!; [intros log El; cbn; by rewrite app_nil_r | | done | done | apply calm_nil]. intros id. cbn.
    specialize (Hk id). destruct (_ !! id), (cs !! id); cbn; try done. by destruct Hk as [-> _].
Qed.

(** ** Links *)
Lemma ok_adjust from to delta f : field_wf f -> ok_step 0 f (fst (adjust_link_score from to delta f)).
Proof.
  intros Hw. unfold adjust_link_score. destruct (cells (graph f) !! from); [case_decide |]; by apply ok_frame.
Qed.

(** A pruned link is told twice. *)
Lemma ok_prune from to f :
  field_wf f -> ok_step 0 f (fst (prune_link from to f)) /\
  (snd (prune_link from to f) = true -> field_wf (fst (prune_link from to f)) ->
   ok_step 0 (fst (prune_link from to f)) (emit (DDreamPrune from to) (fst (prune_link from to f)))).
Proof.
  intros Hw. unfold prune_link. destruct (cells (graph f) !! from) as [c|] eqn:E; [| split; [by apply ok_refl | done]].
  case_decide as Hto; [| split; [by apply ok_refl | done]]. cbn [fst snd]. set (f1 := unregister_link _ _ _).
  split.
  - eapply (ok_relink from c (c_links c ∖ {[to]}) (DUnlink from to) f f1); try (done || by apply calm_one).
    + intros t Ht. left. set_solver.
    + by intros [[[[[? ?] ?] ?] ?] ?].
  - intros _ Hw'. apply ok_emit_known; [done | | done | by intros [[[[[? ?] ?] ?] ?] ?] | by apply calm_one]. intros id.
    rewrite (cells_core _ _ (core_emit _ _)). cbn. case_decide; subst; [| done].
    rewrite lookup_insert_eq. cbn. unfold drop_link, skel. cbn. do 2 f_equal. set_solver.
Qed.

Lemma ok_rewire id f : field_wf f -> ok_step 0 f (fst (rewire_lonely o id f)).
Proof.
  intros Hw. destruct (rewire_shape o id f) as [-> | (c & target & E & Hc & _ & [c' Et] & ->)]; [by apply ok_refl |].
  assert (0 < target < next_id (graph f))%Z as Ht.
  { destruct Hw as [[[_ Hcs] _] _]. by destruct (Hcs _ _ Et) as (_ & ? & _). }
  set (f1 := register_link _ _ _).
  assert (ok_step 0 f (emit (DLink id target) f1)) as Hok.
  { eapply (ok_relink id c (c_links c ∪ {[target]}) (DLink id target) f f1); try (done || by apply calm_one).
    - intros t [? | ->%elem_of_singleton]%elem_of_union; [by left | by right].
    - apply core_register_link.
    - etrans; [apply journal_register_link | done].
    - etrans; [apply setup_register_link | done].
    - by intros [[[[[? ?] ?] ?] ?] ?]. }
  eapply ok_trans0; [exact Hok |]. intros Hw1.
  apply ok_emit_known; [done | | done | by intros [[[[[? ?] ?] ?] ?] ?] | by apply calm_one]. intros i.
  rewrite (cells_core _ _ (core_emit _ _)). unfold f1. rewrite (cells_core _ _ (core_register_link _ _ _)). cbn.
  case_decide; subst; [| done].
  rewrite lookup_insert_eq. cbn. unfold add_link, skel. cbn. do 2 f_equal. set_solver.
Qed.

(** ** Dreams *)
Lemma ok_strengthen cfg d e : field_wf (dg_field d) -> ok_step 0 (dg_field d) (dg_field (strengthen_one cfg d e)).
Proof.
  destruct d as [f report ops touched]. cbn [dg_field]. intros Hw. unfold strengthen_one.
  destruct (ops =? 0)%Z; [by apply ok_refl |]. destruct (should_protect _ _ _ _); [by apply ok_refl |].
  case_decide; [by apply ok_refl |]. destruct (pick_direction _ _ _) as [[from to]|]; [| by apply ok_refl].
  pose proof (ok_adjust from to (lit 15 100) f Hw) as Ha.
  destruct (adjust_link_score _ _ _ f) as [f1 changed]. cbn [fst] in Ha. destruct changed; [| exact Ha].
  eapply ok_trans0; [exact Ha |]. intros Hw1. by apply ok_emit, neutral_ok.
Qed.

Lemma ok_prune_and_rewire from to f report ops :
  field_wf f -> ok_step 0 f (prune_and_rewire o from to f report ops).1.1.
Proof.
  intros Hw. unfold prune_and_rewire. destruct (ok_prune from to f Hw) as [Hp He].
  destruct (prune_link from to f) as [f1 pruned]. cbn [fst snd] in *. destruct pruned; [| exact Hp].
  eapply ok_trans0; [exact Hp |]. intros Hw1. specialize (He eq_refl Hw1).
  set (f2 := emit _ f1) in *. destruct (spend 1 ops =? 0)%Z; [exact He |].
  eapply ok_trans0; [exact He |]. intros Hw2. pose proof (ok_rewire from f2 Hw2) as Ha.
  destruct (rewire_lonely o from f2) as [f3 a]. cbn [fst] in Ha.
  pose proof (ok_rewire to f3 (os_wf _ _ _ Ha)) as Hb. destruct (rewire_lonely o to f3) as [f4 b].
  eapply ok_trans0; [exact Ha |]. by intros _.
Qed.

Lemma ok_weaken_one cfg d e : field_wf (dg_field d) -> ok_step 0 (dg_field d) (dg_field (weaken_one o cfg d e)).
Proof.
  destruct d as [f report ops touched]. cbn [dg_field]. intros Hw. unfold weaken_one.
  destruct (ops =? 0)%Z; [by apply ok_refl |]. destruct (should_protect _ _ _ _); [by apply ok_refl |].
  case_decide; [by apply ok_refl |]. destruct (pick_direction _ _ _) as [[from to]|]; [| by apply ok_refl].
  pose proof (ok_adjust from to (lit (-2) 10) f Hw) as Ha.
  destruct (adjust_link_score _ _ _ f) as [f1 changed]. cbn [fst] in Ha. destruct changed; [| exact Ha].
  set (f2 := emit_dream_weaken _ _ _ _ f1).
  assert (ok_step 0 f f2) as H2 by (eapply ok_trans0; [exact Ha |]; intros Hw1; by apply ok_emit, neutral_ok).
  destruct (f_le (link_score from to f2) (lit 25 100)); [| exact H2].
  pose proof (ok_prune_and_rewire from to f2 (add_weakened report) (spend 1 ops) (os_wf _ _ _ H2)) as Hp.
  destruct (prune_and_rewire _ _ _ _ _ _) as [[f3 report3] ops3].
  eapply ok_trans0; [exact H2 |]. by intros _.
Qed.

(** A dream: the loops, then the report. *)
Definition dreamt_out (cfg : DreamConfig) (now took : Z) (f : ClusterField) (f1 : ClusterField) : Prop :=
  ok_step 0 f f1 /\
  (fst (run_dream o cfg now took f) = f1 \/
   fst (run_dream o cfg now took f) = record_dream_report now (snd (run_dream o cfg now took f)) f1).

Lemma run_dream_out cfg now took f : field_wf f -> exists f1, dreamt_out cfg now took f f1.
Proof.
  intros Hw. unfold dreamt_out, run_dream.
  destruct (max_ops_per_cycle cfg =? 0)%Z; [exists f; split; [by apply ok_refl | by left] |].
  destruct (recent_pairs o _ f) as [|p pairs]; [exists f; split; [by apply ok_refl | by left] |]. cbv zeta.
  set (sorted := sort_by _ (p :: pairs)). set (d1 := fold_left (strengthen_one cfg) _ _).
  assert (ok_step 0 f (dg_field d1)) as H1 by
    exact (ok_loop dg_field (strengthen_one cfg) _ (fun s x => ok_strengthen cfg s x)
             (mkDreaming f DreamReport_default (max_ops_per_cycle cfg) ∅) Hw).
  set (d2 := if _ && _ then _ else d1).
  assert (ok_step 0 (dg_field d1) (dg_field d2)) as H2.
  { unfold d2. destruct (_ && _); [| apply ok_refl, H1].
    exact (ok_loop dg_field (weaken_one o cfg) _ (fun s x => ok_weaken_one cfg s x) d1 (os_wf _ _ _ H1)). }
  exists (dg_field d2). split; [| by right]. eapply ok_trans0; [exact H1 |]. by intros _.
Qed.

Lemma record_dream_sound now report f : field_wf f -> sound 0 True f (record_dream_report now report f).
Proof. intros Hw. by apply setup_step; try apply calm_one. Qed.

Lemma ok_sound_trans n f f1 f2 : ok_step 0 f f1 -> (field_wf f1 -> sound n True f1 f2) -> sound n True f f2.
Proof.
  intros H1 H2. replace n with (0 + n)%Z by lia. eapply sound_trans; [by apply ok_sound | apply H2, H1].
Qed.
Lemma sound_ok_trans n f f1 f2 : sound n True f f1 -> (field_wf f1 -> ok_step 0 f1 f2) -> sound n True f f2.
Proof.
  intros H1 H2. replace n with (n + 0)%Z by lia. eapply sound_trans; [exact H1 | apply ok_sound, H2, H1].
Qed.

Lemma run_dream_sound cfg now took f : field_wf f -> sound 0 True f (fst (run_dream o cfg now took f)).
Proof.
  intros Hw. destruct (run_dream_out cfg now took f Hw) as (f1 & Hok & [-> | ->]); [by apply ok_sound |].
  eapply ok_sound_trans; [exact Hok |]. intros Hw1. by apply record_dream_sound.
Qed.

Lemma dream_cycle_sound took f : field_wf f -> sound 0 True f (fst (run_dream_cycle o took f)).
Proof.
  intros Hw. unfold run_dream_cycle. destruct (_ <? 2); [by apply ok_sound, ok_refl |].
  pose proof (run_dream_sound (dream_cfg (cycles f)) (now_ms f) took f Hw) as Hd.
  destruct (run_dream _ _ _ _ f) as [f1 report]. cbn [fst] in *.
  eapply sound_ok_trans; [exact Hd |]. intros Hw1. by apply ok_frame.
Qed.

(** ** Collective dreams *)
Lemma share_cell_skel centroid w c :
  skel (share_cell centroid w c).1.1 = skel c /\ c_state (share_cell centroid w c).1.1 = c_state c.
Proof. unfold share_cell. cbn [fst]. repeat destruct (_ || _); destruct (f_lt _ _); done. Qed.

Lemma ok_share_token w node s token : field_wf (sh_field s) -> ok_step 0 (sh_field s) (sh_field (share_token w node s token)).
Proof. intros Hw. unfold share_token. destruct (f_lt _ _); by apply ok_frame. Qed.

Lemma ok_share_node centroid w tokens s node :
  field_wf (sh_field s) -> ok_step 0 (sh_field s) (sh_field (share_node centroid w tokens s node)).
Proof.
  intros Hw. unfold share_node. destruct (cells (graph (sh_field s)) !! node) as [c|] eqn:E; [| by apply ok_refl].
  destruct (share_cell_skel centroid w c) as [Hs Hd].
  destruct (share_cell centroid w c) as [[c' moved] protected]. cbn [fst] in *. set (s1 := mkSharing _ _ _ _ _).
  assert (ok_step 0 (sh_field s) (sh_field s1)) as H1.
  { apply (ok_cell node c c'); [done | done | done |]. rewrite Hd. exact (proj2 Hw node c E). }
  eapply ok_trans0; [exact H1 |]. intros Hw1.
  exact (ok_loop sh_field (share_token w node) tokens (fun s t => ok_share_token w node s t) s1 Hw1).
Qed.

Lemma share_events w node tokens : forall s,
  Forall neutral (sh_events s) -> Forall neutral (sh_events (fold_left (share_token w node) tokens s)).
Proof.
  induction tokens as [|t tokens IH]; intros s Hs; [done |]. cbn [fold_left]. apply IH. unfold share_token.
  destruct (f_lt _ _); cbn; [| done]. apply Forall_app. split; [done |]. by apply Forall_singleton, neutral_ok.
Qed.

Lemma share_nodes_events centroid w tokens nodes : forall s,
  Forall neutral (sh_events s) -> Forall neutral (sh_events (fold_left (share_node centroid w tokens) nodes s)).
Proof.
  induction nodes as [|n nodes IH]; intros s Hs; [done |]. cbn [fold_left]. apply IH. unfold share_node.
  destruct (_ !! n) as [c|]; [| done]. destruct (share_cell centroid w c) as [[c' moved] protected].
  by apply share_events.
Qed.

Lemma ok_align_one w from to acc : field_wf (fst acc) -> ok_step 0 (fst acc) (fst (align_one w from to acc)).
Proof.
  destruct acc as [f aligned]. cbn [fst]. intros Hw. unfold align_one. pose proof (ok_adjust from to w f Hw) as Ha.
  destruct (adjust_link_score from to w f) as [f1 changed]. destruct changed; [| exact Ha].
  eapply ok_trans0; [exact Ha |]. intros Hw1. by apply ok_emit, neutral_ok.
Qed.

Lemma ok_share_tokens nodes tokens weight f : field_wf f -> ok_step 0 f (fst (share_tokens nodes tokens weight f)).
Proof.
  intros Hw. unfold share_tokens. destruct (_ || _); [by apply ok_refl |]. cbv zeta.
  set (w := f32_clamp weight _ _). set (centroid := community_centroid nodes f). set (lowered := map to_lowercase tokens).
  pose proof (share_nodes_events centroid w lowered nodes (mkSharing f 0 0 0 []) ltac:(constructor)) as Hev.
  pose proof (ok_loop sh_field (share_node centroid w lowered) nodes ltac:(intros; by apply ok_share_node) (mkSharing f 0 0 0 []) Hw) as H1.
  set (s := fold_left _ nodes _) in *. cbn [sh_field] in H1.
  pose proof (ok_loop fst (align_pair w) (all_pairs nodes)) as H2.
  specialize (H2 ltac:(intros acc x Hx; unfold align_pair; eapply ok_trans0; [by apply (ok_align_one w x.1 x.2) |];
    intros; by apply ok_align_one) (sh_field s, sh_aligned s) (os_wf _ _ _ H1)). cbn [fst] in H2.
  destruct (fold_left (align_pair w) _ _) as [f2 aligned]. cbn [fst] in *.
  eapply ok_trans0; [exact H1 |]. intros _. eapply ok_trans0; [exact H2 |]. intros Hw2. by apply ok_emit_all.
Qed.

(** The groups of a collective dream. *)
Lemma ok_share_groups weight groups acc :
  field_wf (fst acc) -> ok_step 0 (fst acc) (fst (fold_left (share_group weight) groups acc)).
Proof.
  apply (ok_loop fst (share_group weight) groups). intros [f1 r] x Hx. cbn [fst] in *. unfold share_group.
  pose proof (ok_share_tokens (sg_nodes x) (sg_tokens x) weight f1 Hx) as Hs.
  by destruct (share_tokens _ _ _ f1) as [f2 [[? ?] ?]].
Qed.

Lemma collective_out groups cfg now took f :
  field_wf f -> exists f1, ok_step 0 f f1 /\
    fst (run_collective_dream groups cfg now took f) =
      if decide (groups = []) then f1
      else record_sync_report now (snd (run_collective_dream groups cfg now took f)) f1.
Proof.
  intros Hw. unfold run_collective_dream. destruct groups as [|g groups]; [exists f; split; [by apply ok_refl | done] |].
  cbv zeta. set (r0 := mkSyncReport _ _ _ _ _).
  pose proof (ok_share_groups (weight_xfer cfg) (g :: groups) (f, r0) Hw) as H1.
  destruct (fold_left _ _ (f, r0)) as [f1 r]. exists f1. split; [exact H1 | by rewrite decide_False].
Qed.

Lemma collective_sound groups cfg now took f :
  field_wf f -> sound 0 True f (fst (run_collective_dream groups cfg now took f)).
Proof.
  intros Hw. destruct (collective_out groups cfg now took f Hw) as (f1 & Hok & ->). case_decide; [by apply ok_sound |].
  eapply ok_sound_trans; [exact Hok |]. intros Hw1. by apply setup_step; try apply calm_one.
Qed.

(** ** Models and awakening *)
Lemma ok_build_model blake3 f : field_wf f -> ok_step 0 f (fst (build_resonant_model o blake3 f)).
Proof. intros Hw. by apply (ok_tell _ f), neutral_ok. Qed.

Lemma ok_apply_model f : field_wf f -> ok_step 0 f (apply_awakening_model f).
Proof.
  intros Hw. unfold apply_awakening_model.
  destruct (last_hash _); by apply (ok_tell _ f), neutral_ok.
Qed.

Lemma ok_rebuild_model f : field_wf f -> ok_step 0 f (fst (rebuild_resonant_model o f)).
Proof. intros Hw. unfold rebuild_resonant_model. destruct (_ && _); by apply ok_frame. Qed.

Lemma awakened_skel cfg tension c :
  skel (awakened cfg tension c).1 = skel c /\ c_state (awakened cfg tension c).1 = c_state c.
Proof. unfold awakened. by destruct (f_lt _ _). Qed.

Lemma ok_awaken_one cfg a t : field_wf (ak_field a) -> ok_step 0 (ak_field a) (ak_field (awaken_one cfg a t)).
Proof.
  intros Hw. unfold awaken_one. destruct (cells (graph (ak_field a)) !! tn_node t) as [c|] eqn:E; [| by apply ok_refl].
  destruct (f_le _ _); [by apply ok_refl |]. destruct (awakened_skel cfg (magnitude t) c) as [Hs Hd].
  destruct (awakened cfg (magnitude t) c) as [c' delta]. cbn [fst] in *. set (f1 := set_cells _ _).
  assert (ok_step 0 (ak_field a) f1) as H1.
  { apply (ok_cell (tn_node t) c c'); [done | done | done |]. rewrite Hd. exact (proj2 Hw _ c E). }
  destruct (f_lt _ _); [| exact H1]. cbn [ak_field]. eapply ok_trans0; [exact H1 |]. intros Hw1.
  unfold emit_energy_state. destruct (cells (graph f1) !! tn_node t) as [c1|] eqn:E1; [| by apply ok_refl].
  apply ok_emit; [done | by apply neutral_energy, (proj2 Hw1 _ c1 E1)].
Qed.

Lemma ok_awaken model cfg t f : field_wf f -> ok_step 0 f (awaken model cfg t f).1.1.
Proof.
  intros Hw. unfold awaken. destruct (rm_tensions model) as [|x tensions]; [by apply ok_refl |]. cbn [fst].
  apply (ok_loop ak_field (awaken_one cfg) _ (fun a t => ok_awaken_one cfg a t) (mkAwakening f 0 0 f0 0 f0) Hw).
Qed.

Lemma ok_awaken_now f : field_wf f -> ok_step 0 f (fst (awaken_now o f)).
Proof.
  intros Hw. unfold awaken_now. pose proof (ok_rebuild_model f Hw) as H1.
  destruct (rebuild_resonant_model o f) as [f1 rebuilt]. cbn [fst] in H1. set (model := match rebuilt with Some m => m | None => _ end).
  pose proof (ok_awaken model (awakening_cfg (cycles f1)) (trs (control f1)) (set_trs TrsState_default f1)) as H2.
  eapply ok_trans0; [exact H1 |]. intros Hw1. assert (ok_step 0 f1 (set_trs TrsState_default f1)) as Ht by by apply ok_frame.
  specialize (H2 (os_wf _ _ _ Ht)). destruct (awaken _ _ _ (set_trs TrsState_default f1)) as [[f2 t] report]. cbn [fst] in *.
  eapply ok_trans0; [exact Ht |]. intros _. eapply ok_trans0; [exact H2 |]. intros Hw2. by apply ok_frame.
Qed.

(** ** Feedback and the mirror *)
Lemma ok_apply_action now a f : field_wf f -> ok_step 0 f (apply_action now a f).
Proof. intros Hw. destruct a; by apply ok_frame. Qed.

Lemma ok_reflex_snapshot snapshot f : field_wf f -> ok_step 0 f (fst (record_reflex_snapshot o snapshot f)).
Proof.
  intros Hw. unfold record_reflex_snapshot. set (f1 := set_reflex_feedback _ f).
  destruct (next_report _ _ _ _) as [s report]. set (f2 := set_reflex_feedback s f1).
  assert (ok_step 0 f f2) as H2 by by apply ok_frame.
  destruct report as [report|]; [| exact H2]. cbn [fst].
  destruct (rp_action report) as [action|]; [| by apply ok_frame].
  eapply ok_trans0; [exact H2 |]. intros Hw2. eapply ok_trans0; [by apply (ok_apply_action (now_ms f2) action) |].
  intros Hw3. by apply ok_frame.
Qed.

Lemma push_epoch_sound epoch f : field_wf f -> sound 0 True f (push_mirror_epoch epoch f).
Proof.
  intros Hw. unfold push_mirror_epoch. set (f1 := emit _ f).
  apply (setup_step_gen (DMirrorEpoch epoch)); try (done || by apply calm_one); [exact (core_emit _ f) | intros log; apply (journal_emit _ f) |].
  unfold setup, logs. cbn [cycles put_mirror on_cycles now_ms control rules dream_cfg sync_cfg dream_reports sync_reports mirror_epochs mirror_replays].
  unfold f1, emit. by destruct (journal f).
Qed.
Lemma push_replay_sound report f : field_wf f -> sound 0 True f (record_mirror_replay report f).
Proof.
  intros Hw. unfold record_mirror_replay. set (f1 := emit _ f).
  apply (setup_step_gen (DMirrorReplay report)); try (done || by apply calm_one); [exact (core_emit _ f) | intros log; apply (journal_emit _ f) |].
  unfold setup, logs, f1, emit. by destruct (journal f).
Qed.

Lemma ok_mirror_epoch epoch scale max_ops protect f :
  field_wf f -> ok_step 0 f (fst (apply_mirror_epoch o epoch scale max_ops protect f)).
Proof.
  intros Hw. unfold apply_mirror_epoch. destruct (max_ops =? 0)%Z; [by apply ok_refl |]. cbv zeta.
  set (change := mirror_cell _ _ _). set (body := mirror_body _ _ change).
  pose proof (key_loop_lookup body (fun _ c c' => skel c' = skel c /\ c_state c' = c_state c)
    (hm_keys o (cells (graph f))) (cells (graph f)) 0%Z) as Hk.
  specialize (Hk ltac:(intros k v s; unfold body, mirror_body, change, mirror_cell;
    destruct (_ <=? _)%Z; [done |]; destruct (f_le _ _); [done |]; cbn [fst]; by destruct (bool_decide _))
    (hm_keys_NoDup _ _)).
  destruct (key_loop body _ _ _) as [cs applied] eqn:El. cbn [fst] in *. apply ok_cells; [done |]. intros id.
  destruct (decide (id ∈ hm_keys o (cells (graph f)))) as [Hin | Hin]; [by apply Hk |].
  assert (cs !! id = cells (graph f) !! id) as ->.
  { replace cs with (fst (key_loop body (hm_keys o (cells (graph f))) (cells (graph f)) 0%Z)) by by rewrite El.
    by apply key_loop_other. }
  rewrite elem_of_hm_keys in Hin. apply eq_None_not_Some in Hin. by rewrite Hin.
Qed.

Lemma replay_epoch_sound timeline epoch_id cfg took f :
  field_wf f -> sound 0 True f (fst (replay_epoch o timeline epoch_id cfg took f)).
Proof.
  intros Hw. unfold replay_epoch. destruct (List.find _ _) as [epoch|]; [| by apply ok_sound, ok_refl]. cbv zeta.
  destruct (_ && _).
  - pose proof (ok_mirror_epoch epoch (f32_clamp (rc_scale cfg) f0 (lit 4 1)) (rc_max_ops cfg) (rc_protect_salience cfg) f Hw) as Hm.
    destruct (apply_mirror_epoch _ _ _ _ _ f) as [f1 applied]. cbn [fst] in *.
    eapply ok_sound_trans; [exact Hm |]. intros Hw1. by apply push_replay_sound.
  - by apply push_replay_sound.
Qed.

Lemma ok_plant variant_id f : field_wf f -> ok_step 0 f (fst (plant_variant_seeds variant_id f)).
Proof.
  intros Hw. unfold plant_variant_seeds. destruct (_ !! variant_id); [| by apply ok_refl].
  destruct (fold_left _ _ _) as [garden planted]. by apply ok_frame.
Qed.
End cycles.

(** ** Queries *)
Lemma ok_query `{UnicodeCase, FloatMath} o ast f : field_wf f -> ok_step 0 f (fst (exec_lql o ast f)).
Proof.
  intros Hw. pose proof (exec_lql_writes o ast f) as He. destruct (exec_lql o ast f) as [f' r]. cbn [fst] in *.
  destruct ast; cbn [writes] in He; rewrite He; by apply ok_frame.
Qed.
