(* ===== verification/FieldProps.v ===== *)
(** * The cluster field: the invariant and the journal

    Runs of the field are sequences of operations, each with the orders in which it visits maps,
    as long as the counters of identifiers have room ([room]). [field_invariant] and
    [journal_rebuilds_field] hold at every point of every run. [recent_hits_exact] compares the bounded
    queue of the hits of a token with its complete history. *)

From stdpp Require Import prelude gmap strings fin_maps fin_sets list sorting relations.
From Stdlib Require Import ZArith Lia SpecFloat Sorted.
From S2P Require Import Prelude RustStr RustOrd Float RustText Json NodeCell Trs Seeds Symmetry FieldTypes Feedback Variant Resonant Journal Collections Field FieldOps FieldRoute FieldTick FieldInv FieldReplay FieldSteps FieldTickInv FieldSound FieldDream FieldAwaken FieldLql FieldCycles.
From S2P Require Views Lql.

Section runs.
Context `{UnicodeCase, SeedRng, FloatMath}.

Inductive field_op : Type :=
| FAddRoot (seed : string)
| FAddReflex (rule : ReflexRule)
| FRemoveReflex (id : Z)
| FImpulse (imp : Impulse)
| FTick (dt_ms : Z) (variation : Z -> f32)
| FTrim (coins : Z -> bool * bool)
| FInject (base_seed : string) (bud : f32 * f32) (coin : Z -> bool)
| FDreamConfig (cfg : DreamConfig)
| FSyncConfig (cfg : SyncConfig)
| FTrsConfig (cfg : TrsConfig)
| FTrsTarget (target : f32)
| FTrsOutput (now : Z) (load : f32) (out : TrsOutput)
| FDream (took : Z)
| FCollective (groups : list SyncGroup) (cfg : SyncConfig) (now took : Z)
| FBuildModel (blake3 : bytes -> bytes)
| FApplyModel
| FRebuildModel
| FAwakenNow
| FAwakeningConfig (cfg : AwakeningConfig)
| FRestoreAwakening (cfg : AwakeningConfig) (model : ResonantModel) (log : SyncLog) (last_tick : Z)
| FReflexSnapshot (snapshot : ReflexSnapshot)
| FReflexEnabled (enabled : bool)
| FMirrorInterval (interval_ms : Z)
| FMirrorEpoch (epoch : Epoch)
| FReplay (epoch_id : Z) (cfg : ReplayConfig) (took : Z)
| FPlantVariant (variant_id : string)
| FSeedTick
| FQuery (ast : Lql.LqlAst).

Definition field_apply (o : HashOrder) (op : field_op) (f : ClusterField) : ClusterField :=
  match op with
  | FAddRoot seed => fst (add_root o seed f)
  | FAddReflex rule => fst (add_reflex rule f)
  | FRemoveReflex id => fst (remove_reflex id f)
  | FImpulse imp => fst (route_impulse o imp f)
  | FTick dt variation => fst (tick_all o dt variation f)
  | FTrim coins => trim_low_energy o coins f
  | FInject base bud coin => inject_seed_variation o base bud coin f
  | FDreamConfig cfg => set_dream_config cfg f
  | FSyncConfig cfg => set_sync_config cfg f
  | FTrsConfig cfg => fst (set_trs_config cfg f)
  | FTrsTarget target => fst (set_trs_target target f)
  | FTrsOutput now load out => fst (apply_trs_output now load out f)
  | FDream took => fst (run_dream_cycle o took f)
  | FCollective groups cfg now took => fst (run_collective_dream groups cfg now took f)
  | FBuildModel blake3 => fst (build_resonant_model o blake3 f)
  | FApplyModel => apply_awakening_model f
  | FRebuildModel => fst (rebuild_resonant_model o f)
  | FAwakenNow => fst (awaken_now o f)
  | FAwakeningConfig cfg => set_awakening_config cfg f
  | FRestoreAwakening cfg model log last_tick => restore_awakening_state cfg model log last_tick f
  | FReflexSnapshot snapshot => fst (record_reflex_snapshot o snapshot f)
  | FReflexEnabled enabled => set_reflex_enabled enabled f
  | FMirrorInterval interval_ms => set_mirror_interval interval_ms f
  | FMirrorEpoch epoch => push_mirror_epoch epoch f
  | FReplay epoch_id cfg took => fst (replay_epoch_by_id o epoch_id cfg took f)
  | FPlantVariant variant_id => fst (plant_variant_seeds variant_id f)
  | FSeedTick => fst (tick_seed_garden o f)
  | FQuery ast => fst (exec_lql o ast f)
  end.

(** The counters of identifiers are [u64]; an operation is given room for what it can use. *)
Definition room (op : field_op) (f : ClusterField) : Prop :=
  match op with
  | FAddRoot _ | FInject _ _ _ => (next_id (graph f) + 1 < u64_size)%Z
  | FImpulse imp => (next_id (graph f) + impulse_demand imp f < u64_size)%Z
  | FTick _ _ => (next_id (graph f) + Z.of_nat (size (cells (graph f))) < u64_size)%Z
  | FAddReflex _ => (0 <= next_reflex_id (control f) < u64_size - 1)%Z
  | _ => True
  end.

(** Trimming drops a cell with a NaN energy without a delta. *)
Definition no_nan_energy (f : ClusterField) : bool :=
  forallb (fun e => negb (is_nan (c_energy e.2))) (map_to_list (cells (graph f))).
Definition visible (op : field_op) (f : ClusterField) : Prop :=
  match op with FTrim _ => no_nan_energy f = true | _ => True end.

Inductive field_step : ClusterField -> ClusterField -> Prop :=
| FieldStep o op f : room op f -> field_step f (field_apply o op f).

(** The steps whose deltas tell everything. *)
Inductive told_step : ClusterField -> ClusterField -> Prop :=
| ToldStep o op f : room op f -> visible op f -> told_step f (field_apply o op f).

Lemma no_nan_energy_spec f : no_nan_energy f = true ->
  map_Forall (fun _ c => is_nan (c_energy c) = false) (cells (graph f)).
Proof.
  unfold no_nan_energy. rewrite forallb_forall. intros Hf id c E. apply negb_true_iff.
  apply (Hf (id, c)), list_elem_of_In. by apply elem_of_map_to_list.
Qed.

Lemma field_apply_sound o op f :
  field_wf f -> room op f -> exists n, sound n (visible op f) f (field_apply o op f).
Proof.
  intros Hw Hr. destruct op; cbn [field_apply room visible] in *.
  - exists 1%Z. by apply ok_sound, add_root_ok.
  - exists 0%Z. apply add_reflex_sound; [done | unfold u64_size in *; lia | lia].
  - exists 0%Z. by apply remove_reflex_sound.
  - eexists. by apply ok_sound, ok_route.
  - destruct (tick_all_spec o dt_ms variation f Hw Hr) as (? & Hn & _ & ds & Hd & _). eexists. split_and!; [done | apply Hn | apply Hn |]. intros _. by exists ds.
  - exists 0%Z. destruct (trim_sound o coins f Hw) as (_ & ? & ? & Hl). split_and!; [done | lia | lia |].
    intros Hn. by apply Hl, no_nan_energy_spec.
  - exists 1%Z. by apply ok_sound, inject_ok.
  - exists 0%Z. by apply set_dream_config_sound.
  - exists 0%Z. by apply set_sync_config_sound.
  - exists 0%Z. by apply ok_sound, set_trs_config_ok.
  - exists 0%Z. by apply ok_sound, set_trs_target_ok.
  - exists 0%Z. by apply ok_sound, apply_trs_output_ok.
  - exists 0%Z. by apply dream_cycle_sound.
  - exists 0%Z. by apply collective_sound.
  - exists 0%Z. by apply ok_sound, ok_build_model.
  - exists 0%Z. by apply ok_sound, ok_apply_model.
  - exists 0%Z. by apply ok_sound, ok_rebuild_model.
  - exists 0%Z. by apply ok_sound, ok_awaken_now.
  - exists 0%Z. by apply ok_sound, ok_frame.
  - exists 0%Z. by apply ok_sound, ok_frame.
  - exists 0%Z. by apply ok_sound, ok_reflex_snapshot.
  - exists 0%Z. by apply ok_sound, ok_frame.
  - exists 0%Z. by apply ok_sound, ok_frame.
  - exists 0%Z. by apply push_epoch_sound.
  - exists 0%Z. by apply replay_epoch_sound.
  - exists 0%Z. by apply ok_sound, ok_plant.
  - exists 0%Z. apply ok_sound. unfold tick_seed_garden. destruct (tick_garden _ _ _). by apply ok_frame.
  - exists 0%Z. by apply ok_sound, ok_query.
Qed.

Definition journalled_field : ClusterField := set_journal (Some []) ClusterField_new.

Lemma new_field_wf j : field_wf (set_journal j ClusterField_new).
Proof.
  split; [| by intros id c]. split; [split; [done | by intros id c] |]. intros t id. done.
Qed.

Lemma reach_wf j f : rtc field_step (set_journal j ClusterField_new) f -> field_wf f.
Proof.
  intros Hr. pose proof (new_field_wf j) as Hw. induction Hr as [|f f1 f2 Hs _ IH]; [done |].
  apply IH. destruct Hs as [o op f Hroom]. by destruct (field_apply_sound o op f Hw Hroom) as (n & ? & _).
Qed.

(** What the journal of a run tells. *)
Lemma reach_told f : rtc told_step journalled_field f ->
  field_wf f /\ exists log, journal f = Some log /\ accounts log journalled_field f.
Proof.
  intros Hr.
  assert (forall g, field_wf g -> rtc told_step g f -> field_wf f /\ exists ds, accounts ds g f) as Hg.
  { clear Hr. intros g Hw Hr. induction Hr as [g | g g1 g2 Hs _ IH].
    - split; [done |]. exists []. split_and!; try done; [intros log; by rewrite app_nil_r | apply calm_nil].
    - destruct Hs as [o op g Hroom Hv]. destruct (field_apply_sound o op g Hw Hroom) as (n & Hw1 & _ & Hd).
      destruct (Hd Hv) as [ds1 Hd1]. destruct (IH Hw1) as [Hw2 [ds2 Hd2]]. split; [done |].
      exists (ds1 ++ ds2). by eapply accounts_trans. }
  destruct (Hg journalled_field (new_field_wf _) Hr) as [Hw [ds Hd]]. split; [done |].
  exists ds. split; [by apply (proj1 Hd [] eq_refl) | done].
Qed.

(** A replica that has replayed the deltas, in whatever orders it visits its maps. *)
Definition replica (ds : list (HashOrder * EventDelta)) : ClusterField := replay_all ds ClusterField_new.

Lemma replica_follows f log ds :
  accounts log journalled_field f -> ds.*2 = log ->
  (forall id, skel <$> (cells (graph (replica ds)) !! id) = skel <$> (cells (graph f) !! id)) /\
  next_id (graph (replica ds)) = next_id (graph f) /\ setup (replica ds) = tell (setup f).
Proof.
  intros (_ & Hsk & Hn & Hs & _) <-. unfold replica. split_and!.
  - intros id. by rewrite cells_replay, effects_skel, Hsk.
  - by rewrite next_replay, Hn.
  - by rewrite setup_replay, Hs.
Qed.

(** C20: the invariant of the field. After any run of operations, whatever orders the maps are
    visited in: a cell is stored under its own identifier, which was given out by the counter; it is
    not dead; its links lead to identifiers that were given out; and the index of every token lists
    exactly the cells whose pattern has the token, as often as the pattern has it. *)
Theorem field_invariant j f :
  rtc field_step (set_journal j ClusterField_new) f ->
  (forall id c, cells (graph f) !! id = Some c ->
     c_id c = id /\ (0 < id < next_id (graph f))%Z /\ c_state c <> Dead /\
     forall to, to ∈ c_links c -> (0 < to < next_id (graph f))%Z) /\
  (forall token id,
     occ id (default [] (index (graph f) !! token))
     = match cells (graph f) !! id with Some c => occ token (tokenize (core_pattern (c_seed c))) | None => 0 end).
Proof.
  intros Hr. destruct (reach_wf j f Hr) as [[[_ Hcs] Hidx] Ha]. split; [| exact Hidx].
  intros id c E. destruct (Hcs id c E) as (Hi & Hrg & Hl). split_and!; try done; try lia. exact (Ha id c E).
Qed.

End runs.

(** ** A run *)
#[local] Instance demo_case : UnicodeCase := ascii_case.
#[local] Instance demo_rng : SeedRng := fun _ => (lit 5 10, lit 9 10, 7%Z).
#[local] Instance demo_math : FloatMath := {| f32_ln x := x; f32_exp x := x |}.

(** An operation sequence, and whether there is room for it. *)
Definition run_ops (ops : list (HashOrder * field_op)) (f : ClusterField) : ClusterField :=
  fold_left (fun f p => field_apply p.1 p.2 f) ops f.
Fixpoint rooms (ops : list (HashOrder * field_op)) (f : ClusterField) : Prop :=
  match ops with
  | [] => True
  | p :: ops' => room p.2 f /\ visible p.2 f /\ rooms ops' (field_apply p.1 p.2 f)
  end.

Lemma run_told ops : forall f, rooms ops f -> rtc told_step f (run_ops ops f).
Proof.
  induction ops as [|[o op] ops IH]; intros f Hr; [done |]. destruct Hr as (Hroom & Hv & Hr).
  eapply rtc_l; [by apply (ToldStep o op) |]. by apply IH.
Qed.

Lemma told_field f f' : rtc told_step f f' -> rtc field_step f f'.
Proof. intros Hr. eapply rtc_subrel; [| exact Hr]. intros ? ? []. by constructor. Qed.

Definition demo_ops : list (HashOrder * field_op) :=
  [(id_order, FAddRoot "affect/joy"); (rev_order, FAddRoot "ops/joy");
   (id_order, FAddReflex (mkReflexRule 0 (mkReflexWhen " Joy " Affect (lit 1 10) 1000 1) (SpawnSeed "ops/seed" f0) true));
   (id_order, FImpulse (mkImpulse Affect "affect/joy" (lit 9 10) 1000 []));
   (id_order, FImpulse (mkImpulse Write "joy" f1 1000 [])); (rev_order, FImpulse (mkImpulse Write "joy" f1 1000 []));
   (id_order, FImpulse (mkImpulse Write "joy" f1 1000 [])); (rev_order, FTick 200 (fun _ => f0))].
(** The children and the buds of a dying generation. *)
Definition demo_rest : list (HashOrder * field_op) :=
  [(id_order, FInject "bud/joy" (f0, f0) (fun _ => true)); (rev_order, FTick 8000 (fun _ => f0));
   (id_order, FInject "bud/new" (f0, f0) (fun _ => true)); (id_order, FTrim (fun _ => (true, true)))].
Definition demo_field : ClusterField := run_ops demo_rest (run_ops demo_ops journalled_field).


Lemma demo_rooms : rooms (demo_ops ++ demo_rest) journalled_field.
Proof. vm_compute. repeat split; (reflexivity || discriminate). Qed.

Lemma demo_reached : rtc told_step journalled_field demo_field.
Proof.
  unfold demo_field. replace (run_ops demo_rest _) with (run_ops (demo_ops ++ demo_rest) journalled_field)
    by (unfold run_ops; by rewrite fold_left_app).
  apply run_told, demo_rooms.
Qed.

Lemma field_invariant_witness :
  rtc field_step journalled_field demo_field /\ (map_to_list (cells (graph demo_field))).*1 = [7%Z] /\
  forall id c, cells (graph demo_field) !! id = Some c -> c_id c = id /\ c_state c <> Dead.
Proof.
  assert (rtc field_step journalled_field demo_field) as Hr by exact (told_field _ _ demo_reached).
  split_and!; [done | by vm_compute |].
  destruct (field_invariant (Some []) demo_field Hr) as [Hc _]. intros id c E.
  destruct (Hc id c E) as (? & _ & ? & _). by split.
Defined.


(** ** The hits of a token

    [record_token_hit] keeps a bounded queue per token and drops what is too old only at the front,
    when something is recorded; [recent_for] reads it from the back. [recent_hits_exact]: for every
    window up to the retention the answer is the one of the complete history. *)

Lemma last_n_app {A} n (l m : list A) : last_n n (l ++ m) = last_n (n - length m) l ++ last_n n m.
Proof.
  unfold last_n. rewrite length_app, drop_app. f_equal; [| f_equal; lia].
  destruct (decide (length m <= n)); [f_equal; lia | by rewrite !drop_ge by lia].
Qed.

Lemma last_n_last_n {A} n (l m : list A) : last_n n (last_n n l ++ m) = last_n n (l ++ m).
Proof.
  rewrite !last_n_app. f_equal. unfold last_n. rewrite drop_drop, length_drop. f_equal. lia.
Qed.

Lemma last_n_suffix {A} n (l : list A) : exists k, l = k ++ last_n n l.
Proof. exists (take (length l - n) l). unfold last_n. by rewrite take_drop. Qed.

Lemma filter_all_false {A} (p : A -> bool) l : Forall (fun x => p x = false) l -> List.filter p l = [].
Proof. induction 1 as [|x l Hx _ IH]; [done |]. cbn. by rewrite Hx. Qed.

(** Reading from the back stops at the first entry that is too old; in a list sorted by time nothing
    is missed. *)
Lemma take_while_back {A} (p : A -> bool) (l : list A) :
  StronglySorted (fun x y => p x = true -> p y = true) l ->
  reverse (take_while p (reverse l)) = List.filter p l.
Proof.
  induction l as [|x l IH] using rev_ind; intros Hs; [done |].
  assert (StronglySorted (fun x y => p x = true -> p y = true) l) as Hl by (by eapply StronglySorted_app_1_l).
  rewrite reverse_snoc, List.filter_app. cbn [take_while List.filter]. destruct (p x) eqn:E.
  - rewrite reverse_cons, IH by done. done.
  - rewrite app_nil_r, reverse_nil. symmetry. apply filter_all_false, Forall_forall. intros y Hy.
    destruct (p y) eqn:Ey; [| done]. exfalso.
    assert (p x = true); [| congruence].
    by apply (StronglySorted_app_1_elem_of _ l [x] y x Hs Hy ltac:(left)).
Qed.

Lemma StronglySorted_weaken {A} (R R' : relation A) l :
  (forall x y, R x y -> R' x y) -> StronglySorted R l -> StronglySorted R' l.
Proof.
  intros Hr. induction 1 as [|x l _ IH Hx]; constructor; [done |]. eapply Forall_impl; [exact Hx | apply Hr].
Qed.

Section hits.
Context `{UnicodeCase}.

(** The clock advances and hits are recorded. *)
Inductive hit_op : Type :=
| HAdvance (dt : Z)
| HRecord (token : string) (node : Z) (strength : f32) (latency_ms : Z).
Definition hit_step (f : ClusterField) (op : hit_op) : ClusterField :=
  match op with
  | HAdvance dt => set_now_ms (u64_saturating_add (now_ms f) dt) f
  | HRecord token node strength latency => record_token_hit token node strength latency f
  end.
Definition hit_run (ops : list hit_op) : ClusterField := fold_left hit_step ops ClusterField_new.
Definition hit_op_ok (op : hit_op) : Prop := match op with HAdvance dt => (0 <= dt)%Z | _ => True end.

(** The history of a token: every hit with the time it was recorded at. *)
Definition history_step (token : string) (acc : Z * Z * list Hit) (op : hit_op) : Z * Z * list Hit :=
  let '(now, seq, hist) := acc in
  match op with
  | HAdvance dt => (u64_saturating_add now dt, seq, hist)
  | HRecord t node strength latency =>
      (now, u64_saturating_add seq 1,
       if decide (to_lowercase t = to_lowercase token) then hist ++ [mkHit seq now node strength latency] else hist)
  end.
Definition history (token : string) (ops : list hit_op) : Z * Z * list Hit :=
  fold_left (history_step token) ops (0%Z, 1%Z, []).

Definition older (now : Z) (h : Hit) : Prop := (h_ts h < now - HIT_RETENTION_MS)%Z.

(** The queue of a token is its history, less what is beyond the bound and what is too old. *)
Lemma queue_invariant token ops :
  Forall hit_op_ok ops ->
  let f := hit_run ops in
  let '(now, seq, hist) := history token ops in
  now_ms f = now /\ next_hit_seq (traffic f) = seq /\ (0 <= now <= u64_max)%Z /\
  StronglySorted (fun x y => (h_ts x <= h_ts y)%Z) hist /\ Forall (fun h => (h_ts h <= now)%Z) hist /\
  exists old, last_n MAX_TOKEN_HITS hist = old ++ default [] (token_hits (traffic f) !! to_lowercase token) /\
    Forall (older now) old.
Proof.
  induction ops as [|op ops IH] using rev_ind; intros Hok.
  { cbn. split_and!; try done; [constructor |]. by exists []. }
  apply Forall_app in Hok as [Hok Hop]. apply Forall_cons_1 in Hop as [Hop _]. specialize (IH Hok).
  unfold hit_run, history in *. rewrite !fold_left_app. cbn [fold_left].
  set (f := fold_left hit_step ops ClusterField_new) in *.
  destruct (fold_left (history_step token) ops _) as [[now seq] hist]. cbv zeta in IH.
  destruct IH as (Hn & Hq & Hpos & Hs & Hle & old & Hold & Hf).
  destruct op as [dt | t node strength latency]; cbn [hit_step history_step hit_op_ok] in *.
  - cbn. rewrite Hn.
    assert (now <= u64_saturating_add now dt <= u64_max)%Z as Hmono by (unfold u64_saturating_add; lia).
    split_and!; try done; [lia | lia | |].
    + eapply Forall_impl; [exact Hle |]. cbn. intros h Hh. lia.
    + exists old. split; [done |]. eapply Forall_impl; [exact Hf |]. unfold older. intros h Hh. lia.
  - unfold record_token_hit. cbn. rewrite Hn, Hq.
    set (h := mkHit seq now node strength latency). set (entry := default [] (token_hits (traffic f) !! to_lowercase t)).
    destruct (decide (to_lowercase t = to_lowercase token)) as [E | E].
    2: { rewrite lookup_insert_ne by done. split_and!; try done; try lia. by exists old. }
    rewrite E, lookup_insert_eq. cbn [default from_option]. unfold Datatypes.id.
    assert (entry = default [] (token_hits (traffic f) !! to_lowercase token)) as He by (unfold entry; by rewrite E).
    rewrite <- He in Hold. clearbody entry.
    destruct (pop_while_suffix (fun front => HIT_RETENTION_MS <? u64_saturating_sub now (h_ts front))%Z (entry ++ [h]))
      as (k & Hk & Hkold). set (m := pop_while _ (entry ++ [h])) in *.
    split_and!; try done; try lia.
    + apply StronglySorted_app_2; [| done | by repeat constructor]. intros x y Hx ->%list_elem_of_singleton.
      rewrite Forall_forall in Hle. by apply Hle.
    + apply Forall_app. split; [done |]. by apply Forall_singleton.
    + rewrite <- last_n_last_n, Hold, <- app_assoc, Hk, app_assoc, last_n_app. eexists. split; [done |].
      assert (Forall (older now) (old ++ k)) as Hall.
      { apply Forall_app. split; [done |]. eapply Forall_impl; [exact Hkold |]. cbn. intros x Hx.
        apply Z.ltb_lt in Hx. unfold older, u64_saturating_sub, HIT_RETENTION_MS in *. lia. }
      destruct (last_n_suffix (MAX_TOKEN_HITS - length m) (old ++ k)) as [k' Hk'].
      rewrite Hk' in Hall. by apply Forall_app in Hall as [_ Hall].
Qed.

(** C24: the recent hits of a token. In any run in which the clock advances and hits are recorded,
    [recent_for] with a window of at most the retention of two minutes answers exactly the hits of
    the window among the last 512 of the token, oldest first: the pruning of the queue at its front
    and the reading from its back never lose or add one. *)
Theorem recent_hits_exact ops token window :
  Forall hit_op_ok ops -> (0 <= window <= HIT_RETENTION_MS)%Z ->
  let '(now, _, hist) := history token ops in
  recent_for token window (hit_run ops)
  = List.filter (fun h => u64_saturating_sub now window <=? h_ts h)%Z (last_n MAX_TOKEN_HITS hist).
Proof.
  intros Hok Hw. pose proof (queue_invariant token ops Hok) as Hi. cbv zeta in Hi.
  destruct (history token ops) as [[now seq] hist]. destruct Hi as (Hn & _ & Hpos & Hs & Hle & old & Hold & Hf).
  rewrite Hold, List.filter_app. rewrite filter_all_false; [| eapply Forall_impl; [exact Hf |]; cbn; intros h Hh;
    apply Z.leb_gt; unfold older, u64_saturating_sub in *; lia].
  cbn [app]. unfold recent_for. rewrite Hn. destruct (token_hits _ !! _) as [queue|]; [| done]. cbn in *.
  apply take_while_back.
  assert (StronglySorted (fun x y => (h_ts x <= h_ts y)%Z) queue) as Hsq.
  { destruct (last_n_suffix MAX_TOKEN_HITS hist) as [k Hk]. rewrite Hk, Hold in Hs.
    do 2 apply StronglySorted_app_1_r in Hs. done. }
  eapply StronglySorted_weaken; [| exact Hsq]. cbn. intros x y Hxy Hx. apply Z.leb_le in Hx. apply Z.leb_le. lia.
Qed.
End hits.

(** ** A run *)
#[local] Instance hits_case : UnicodeCase := ascii_case.
Definition demo_hits : list hit_op :=
  [HRecord "joy" 1 (lit 5 10) 10; HAdvance 1000; HRecord "Joy" 2 (lit 6 10) 20; HRecord "calm" 3 (lit 6 10) 20; HAdvance 500].

Lemma recent_hits_exact_witness :
  Forall hit_op_ok demo_hits /\ (0 <= 1200 <= HIT_RETENTION_MS)%Z /\
  map h_node (recent_for "JOY" 1200 (hit_run demo_hits)) = [2%Z].
Proof.
  assert (Forall hit_op_ok demo_hits) as Hok by (repeat constructor; cbn; lia).
  assert (0 <= 1200 <= HIT_RETENTION_MS)%Z as Hw by (unfold HIT_RETENTION_MS; lia).
  split_and!; [done | apply Hw | apply Hw |].
  pose proof (recent_hits_exact demo_hits "JOY" 1200 Hok Hw) as Ht.
  destruct (history "JOY" demo_hits) as [[now seq] hist] eqn:E. rewrite Ht.
  vm_compute in E. injection E as <- <- <-. reflexivity.
Defined.
