(* ===== verification/LifeLoop.v ===== *)
(** * The life loop ([liminal-core/src/life_loop.rs])

    One round of [run_loop]: the tick of the field, the metrics and the regulation of the tempo, dreams,
    collective dreams, awakening and the partial snapshot. The mutex is free while the loop sleeps, so
    other operations run between the rounds ([LifeProps]). What the environment decides in a round is
    its [LifeInput]; [serde_json::to_vec], [serde_cbor::to_vec] and BLAKE3 are parameters. *)

From stdpp Require Import prelude gmap strings fin_maps fin_sets list sorting.
From Stdlib Require Import ZArith Lia SpecFloat.
From coqutil Require Import Word.LittleEndianList.
From S2P Require Import Prelude RustStr RustOrd Float RustText Json NodeCell Trs Seeds Symmetry FieldTypes Feedback Variant Resonant Journal Collections Field FieldOps FieldTick FieldDream FieldAwaken FieldLql.
From S2P Require Views.

(** ** State, inputs and outputs *)
(** The local variables of [run_loop] with its [DreamState] and [SharedDreamState], and the counter of
    epochs ([EPOCH_SEQ]). *)
Record DreamState : Type := mkDreamState {
  last_start_ms : Z;
  ds_restore_tick : option Z;
  slowed_once : bool
}.
Record SharedDreamState : Type := mkShared {
  sh_active : bool;
  phase_until : Z;
  last_phase_end : Z;
  sh_restore_tick : option Z
}.
Record LifeState : Type := mkLife {
  tick_ms : Z;
  elapsed_since_metrics : Z;
  elapsed_since_partial : Z;
  last_metrics : option Metrics;
  dream_state : DreamState;
  shared_state : SharedDreamState;
  epoch_seq : Z
}.
Definition LifeState_new (tick epoch : Z) : LifeState :=
  mkLife tick 0 0 None (mkDreamState 0 None false) (mkShared false 0 0 None) epoch.

Definition set_tick (v : Z) (s : LifeState) : LifeState :=
  mkLife v (elapsed_since_metrics s) (elapsed_since_partial s) (last_metrics s) (dream_state s) (shared_state s) (epoch_seq s).
Definition set_elapsed_metrics (v : Z) (s : LifeState) : LifeState :=
  mkLife (tick_ms s) v (elapsed_since_partial s) (last_metrics s) (dream_state s) (shared_state s) (epoch_seq s).
Definition set_elapsed_partial (v : Z) (s : LifeState) : LifeState :=
  mkLife (tick_ms s) (elapsed_since_metrics s) v (last_metrics s) (dream_state s) (shared_state s) (epoch_seq s).
Definition set_last_metrics (v : Metrics) (s : LifeState) : LifeState :=
  mkLife (tick_ms s) (elapsed_since_metrics s) (elapsed_since_partial s) (Some v) (dream_state s) (shared_state s) (epoch_seq s).
Definition set_dream_state (v : DreamState) (s : LifeState) : LifeState :=
  mkLife (tick_ms s) (elapsed_since_metrics s) (elapsed_since_partial s) (last_metrics s) v (shared_state s) (epoch_seq s).
Definition set_shared_state (v : SharedDreamState) (s : LifeState) : LifeState :=
  mkLife (tick_ms s) (elapsed_since_metrics s) (elapsed_since_partial s) (last_metrics s) (dream_state s) v (epoch_seq s).
Definition set_epoch_seq (v : Z) (s : LifeState) : LifeState :=
  mkLife (tick_ms s) (elapsed_since_metrics s) (elapsed_since_partial s) (last_metrics s) (dream_state s) (shared_state s) v.

(** What a round is given: the orders of the maps, the random draws, the elapsed times and what the
    file system answers ([None] is success). *)
Record LifeInput : Type := mkInput {
  in_order : HashOrder;
  in_variation : Z -> f32;
  in_hint_coins : bool * bool;
  in_trim_coins : Z -> bool * bool;
  in_bud : f32 * f32;
  in_link_coins : Z -> bool;
  in_took_dream : Z;
  in_took_sync : Z;
  in_took_replay : nat -> Z;
  in_create_dir : option string;
  in_write : option string
}.

Inductive LifeOutput : Type :=
| OEvent (e : FieldEvent)
| OHint (h : Hint)
| OMetrics (m : Metrics).

(** What is hashed into an epoch. *)
Inductive Hashed : Type :=
| HDreamConfig (c : DreamConfig)
| HDreamReport (r : DreamReport)
| HSyncConfig (c : SyncConfig)
| HSyncReport (r : SyncReport)
| HAwakeningConfig (c : AwakeningConfig)
| HAwakeningReport (r : AwakeningReport).

Class LifeEnv : Type := {
  json_to_vec : Hashed -> bytes;
  life_blake3 : bytes -> bytes;
  cbor_to_vec : Z * list CellSnapshot -> bytes
}.

(** ** Integers and texts *)
Definition as_i64 (n : Z) : Z := if (n <? 2 ^ 63)%Z then n else (n - 2 ^ 64)%Z.
Definition fmt_i32 (n : Z) : string := if (n <? 0)%Z then "-" +:+ fmt_nat (- n) else fmt_nat n.
(** [((tick_ms as i64) + adjust as i64).clamp(lo, hi) as u64] *)
Definition adjust_tick (tick adjust lo hi : Z) : Z := Z.min (Z.max (as_i64 tick + adjust) lo) hi.

(** The tick after a dream, [factor] slower. *)
Definition slower_tick (factor : f32) (tick : Z) : Z :=
  let slower := f_as_usize (f32_round (f32_mul (f32_of_Z tick) factor)) in
  let slower := if (slower <=? tick)%Z then u64_saturating_add tick 5 else slower in
  Z.min (Z.max slower 80) 800.

Definition ActionKind_debug (k : ActionKind) : string :=
  match k with
  | KMicroPivot => "MicroPivot" | KDefuse => "Defuse" | KDampening => "Dampening" | KTargetShift => "TargetShift"
  end.
Definition ReflexSignal_debug (s : ReflexSignal) : string :=
  match s with
  | RsOk => "Ok" | Plateau => "Plateau" | DriftDown => "DriftDown" | Oscillation => "Oscillation"
  | Feedback.Overload => "Overload"
  end.

Definition reflex_events (r : ReflexReport) : list FieldEvent :=
  let action := match rp_action r with Some a => ActionKind_debug (action_kind a) | None => "None" end in
  let sig := ReflexSignal_debug (rp_sig r) in
  let d := rp_delta r in
  [EText ("REFLEX sig=" +:+ sig +:+ " action=" +:+ action);
   event "reflex"
     [("sig", JStr sig); ("action", JStr action);
      ("delta", json_obj [("yield", json_f32 (yield_delta d)); ("harmony", json_f32 (harmony_delta d));
                          ("latency", json_f32 (latency_delta d)); ("impact", json_f32 (impact_delta d))])]].

Definition dream_events (r : DreamReport) : list FieldEvent :=
  [EText ("DREAM strengthened=" +:+ fmt_nat (dr_strengthened r) +:+ " weakened=" +:+ fmt_nat (dr_weakened r)
     +:+ " pruned=" +:+ fmt_nat (dr_pruned r) +:+ " rewired=" +:+ fmt_nat (dr_rewired r)
     +:+ " protected=" +:+ fmt_nat (dr_protected r) +:+ " took=" +:+ fmt_nat (dr_took_ms r) +:+ "ms");
   event "dream"
     [("strengthened", JU64 (dr_strengthened r)); ("weakened", JU64 (dr_weakened r)); ("pruned", JU64 (dr_pruned r));
      ("rewired", JU64 (dr_rewired r)); ("protected", JU64 (dr_protected r)); ("took_ms", JU64 (dr_took_ms r))]].

Definition collective_events (r : SyncReport) : list FieldEvent :=
  [EText ("COLLECTIVE_DREAM groups=" +:+ fmt_nat (sr_groups r) +:+ " shared=" +:+ fmt_nat (sr_shared r)
     +:+ " aligned=" +:+ fmt_nat (sr_aligned r) +:+ " protected=" +:+ fmt_nat (sr_protected r)
     +:+ " took=" +:+ fmt_nat (sr_took_ms r) +:+ "ms");
   event "collective_dream"
     [("groups", JU64 (sr_groups r)); ("shared", JU64 (sr_shared r)); ("aligned", JU64 (sr_aligned r));
      ("protected", JU64 (sr_protected r)); ("took_ms", JU64 (sr_took_ms r))]].

Definition awaken_events (r : AwakeningReport) : list FieldEvent :=
  [EText ("AWAKEN applied=" +:+ fmt_nat (aw_applied r) +:+ " protected=" +:+ fmt_nat (aw_protected r)
     +:+ " tension=" +:+ fmt_fixed 2 (aw_avg_tension r) +:+ " tick=" +:+ fmt_i32 (aw_tick_adjust_ms r) +:+ "ms");
   event "awaken_apply" [("count", JU64 (aw_applied r)); ("energy_delta", json_f32 (aw_energy_delta r))];
   event "awaken_protect" [("count", JU64 (aw_protected r))];
   event "awaken_tick" [("adjust_ms", json_int (aw_tick_adjust_ms r)); ("avg_tension", json_f32 (aw_avg_tension r))]].

Definition epoch_events (e : Epoch) : list FieldEvent :=
  [EText ("MIRROR_EPOCH id=" +:+ fmt_nat (ep_id e) +:+ " kind=" +:+ EpochKind_as_str (ep_kind e)
     +:+ " impact=" +:+ fmt_fixed 3 (impact e));
   event "mirror" [("epoch", epoch_json e)]].

Definition replay_events (r : ReplayReport) : list FieldEvent :=
  [EText ("REPLAY epoch=" +:+ fmt_nat (rr_epoch_id r) +:+ " mode=" +:+ rr_mode r
     +:+ " predicted_gain=" +:+ fmt_fixed 3 (predicted_gain r) +:+ " applied=" +:+ fmt_nat (rr_applied r));
   event "replay"
     [("epoch_id", JU64 (rr_epoch_id r)); ("mode", JStr (rr_mode r)); ("applied", JU64 (rr_applied r));
      ("predicted_gain", json_f32 (predicted_gain r)); ("took_ms", JU64 (rr_took_ms r))]].

Definition symmetry_snapshot (f : ClusterField) : HarmonySnapshot := sy_snapshot (re_symmetry (reflex_engine (control f))).

Section life.
Context `{UnicodeCase, SeedRng, FloatMath, LifeEnv}.

(** [hash_bytes]: the first eight bytes of the digest. *)
Definition hash_bytes (b : bytes) : Z := le_combine (take 8 (life_blake3 b)).
Definition hash_value (h : Hashed) : Z := hash_bytes (json_to_vec h).

(** ** Epochs *)
(** What is measured before and after a phase: harmony, tension and latency. *)
Record Measured : Type := mkMeasured {
  me_harmony : HarmonyMetrics;
  me_tension : f32;
  me_latency : f32
}.
Definition measure (m : Metrics) (f : ClusterField) : Measured :=
  mkMeasured (hs_metrics (symmetry_snapshot f)) (average_tension f) (avg_latency_ms m).

(** [auto_reflect]: after four epochs without gain the best one is replayed dry. *)
Definition auto_reflect (took : Z) (f : ClusterField) : ClusterField * list FieldEvent :=
  if negb (mirror_negative_streak 4 f) then (f, [])
  else
    match List.find (fun e => f_lt f0 (impact e)) (mirror_top_influencers 1 f) with
    | None => (f, [])
    | Some best =>
        let cfg := mkReplayConfig "dry" (lit 75 100) 96 (lit 8 10) in
        let '(f, report) := replay_epoch id_order (mirror_timeline f) (ep_id best) cfg took f in
        (f, replay_events report)
    end.

(** An epoch is recorded, told and reflected upon; [id] is taken from the counter. *)
Definition close_epoch (kind : EpochKind) (id start cfg_hash report_hash : Z) (before : Measured) (metrics_after : Metrics)
    (took : Z) (f : ClusterField) : ClusterField * list FieldEvent :=
  let after := measure metrics_after f in
  let epoch :=
    record_epoch id kind (start, now_ms f) cfg_hash report_hash (me_harmony before) (me_harmony after)
      (me_tension before) (me_tension after) (me_latency before) (me_latency after) in
  let f := push_mirror_epoch epoch f in
  let '(f, reflected) := auto_reflect took f in
  (f, epoch_events epoch ++ reflected).

(** What the phases of a round carry: the state, the field, the events kept for the end of the round
    and the calls already made. *)
Record Round : Type := mkRound {
  rd_state : LifeState;
  rd_field : ClusterField;
  rd_events : list FieldEvent;
  rd_out : list LifeOutput
}.

(** ** Awakening *)
Definition rebuild_and_awaken (took : Z) (i : LifeInput) (s : LifeState) (f : ClusterField)
  : LifeState * ClusterField * list FieldEvent :=
  let o := in_order i in
  let history := (last_dream_reports 8 f).*2 in
  if bool_decide (history = []) && bool_decide (sl_entries (sync_log (cycles f)) = []) then
    (s, clear_resonant_model f, [])
  else
    let start := now_ms f in
    let before := measure (analyze o f) f in
    let model := build_model o (cells (graph f)) (sync_log (cycles f)) history in
    let f := set_resonant_model model f in
    let cfg := awakening_cfg (cycles f) in
    let t := trs (control f) in
    let '(f, t, report) := awaken model cfg t (set_trs TrsState_default f) in
    let f := set_trs t f in
    let s :=
      if (aw_tick_adjust_ms report =? 0)%Z then s
      else set_tick (adjust_tick (tick_ms s) (aw_tick_adjust_ms report) 80 800) s in
    let '(f, told) :=
      close_epoch EAwaken (epoch_seq s) start (hash_value (HAwakeningConfig cfg)) (hash_value (HAwakeningReport report))
        before (analyze o f) took f in
    (set_epoch_seq (u64_add (epoch_seq s) 1) s, f, awaken_events report ++ told).

(** ** Hints *)
Definition apply_hint (i : LifeInput) (acc : LifeState * ClusterField) (h : Hint) : LifeState * ClusterField :=
  let '(s, f) := acc in
  match h with
  | SlowTick => (set_tick (Z.min (u64_add (tick_ms s) 50) 400) s, f)
  | FastTick => if (100 <? tick_ms s)%Z then (set_tick (Z.max (u64_saturating_sub (tick_ms s) 10) 100) s, f) else (s, f)
  | TrimField => (s, trim_low_energy (in_order i) (in_trim_coins i) f)
  | WakeSeeds => (s, inject_seed_variation (in_order i) "liminal/wake" (in_bud i) (in_link_coins i) f)
  end.
Definition apply_hints (i : LifeInput) (hs : list Hint) (s : LifeState) (f : ClusterField) : LifeState * ClusterField :=
  fold_left (apply_hint i) hs (s, f).

(** ** The phases of a round *)
(** Before the sleep: the tick of before a dream comes back a round after it was slowed down. *)
Definition restore_tick (s : LifeState) : LifeState :=
  let d := dream_state s in
  match ds_restore_tick d with
  | Some original =>
      if slowed_once d then set_dream_state (mkDreamState (last_start_ms d) None false) (set_tick original s) else s
  | None => s
  end.
(** After the sleep. *)
Definition mark_slowed (s : LifeState) : LifeState :=
  let d := dream_state s in
  match ds_restore_tick d with
  | Some original =>
      if slowed_once d then s else set_dream_state (mkDreamState (last_start_ms d) (Some original) true) s
  | None => s
  end.

(** The end of a collective phase. *)
Definition end_phase (now : Z) (s : LifeState) : LifeState :=
  let sh := shared_state s in
  if sh_active sh && (phase_until sh <=? now)%Z then
    let s := set_shared_state (mkShared false (phase_until sh) now None) s in
    match sh_restore_tick sh with Some original => set_tick original s | None => s end
  else s.

(** The partial snapshot that is due: bytes, number of cells and time. *)
Definition partial_phase (i : LifeInput) (s : LifeState) (f : ClusterField) : LifeState * option (bytes * Z * Z) :=
  let elapsed := u64_add (elapsed_since_partial s) (tick_ms s) in
  if (5000 <=? elapsed)%Z then
    let important := important_cells (control f) in
    (set_elapsed_partial 0 s,
     if decide (important = ∅) then None
     else Some (cbor_to_vec (partial_snapshot (in_order i) important f), Z.of_nat (size important), now_ms f))
  else (set_elapsed_partial elapsed s, None).

Definition reflex_phase (i : LifeInput) (metrics : Metrics) (f : ClusterField) : ClusterField * list FieldEvent :=
  if reflex_enabled f then
    let snapshot :=
      mkReflexSnapshot (now_ms f) (live_load metrics) (avg_strength (hs_metrics (symmetry_snapshot f)))
        (avg_latency_ms metrics)
        (f32_clamp (f32_sub (active_pct metrics) (sleeping_pct metrics)) (lit (-1) 1) f1) in
    let '(f, report) := record_reflex_snapshot (in_order i) snapshot f in
    (f, match report with Some r => reflex_events r | None => [] end)
  else (f, []).

(** The metrics of a second and what they regulate. *)
Definition metrics_phase (i : LifeInput) (r : Round) : Round :=
  let '(mkRound s f events out) := r in
  if (1000 <=? elapsed_since_metrics s)%Z then
    let metrics := analyze (in_order i) f in
    let observed := observed_load metrics in
    let f := set_trs (set_target (suggest_target metrics) (trs (control f))) f in
    let '(t, output) := trs_step (now_ms f) observed (trs (control f)) in
    let f := set_trs t f in
    let s := set_tick (adjust_tick (tick_ms s) (tick_adjust_ms output) 80 450) s in
    let '(f, trs_events) := apply_trs_output (now_ms f) observed output f in
    let advice := hints (in_hint_coins i) metrics in
    let '(s, f) := apply_hints i advice s f in
    let '(f, reflected) := reflex_phase i metrics f in
    mkRound (set_elapsed_metrics 0 (set_last_metrics metrics s)) f (events ++ reflected)
      (out ++ map OEvent trs_events ++ map OHint advice ++ [OMetrics metrics])
  else r.

(** The field is asleep long enough for a dream. *)
Definition dream_due (metrics : Metrics) (s : LifeState) (f : ClusterField) : bool :=
  f_lt (lit 6 10) (sleeping_pct metrics) && f_lt (live_load metrics) (lit 4 10)
  && (min_idle_s (dream_cfg (cycles f)) * 1000 <? u64_saturating_sub (now_ms f) (last_start_ms (dream_state s)))%Z.

Definition dream_phase (i : LifeInput) (metrics : Metrics) (r : Round) : Round :=
  let '(mkRound s f events out) := r in
  if dream_due metrics s f then
    let before := measure metrics f in
    let start := now_ms f in
    let '(f, ran) := run_dream_cycle (in_order i) (in_took_dream i) f in
    match ran with
    | None => mkRound s f events out
    | Some report =>
        let original := default (tick_ms s) (ds_restore_tick (dream_state s)) in
        let s := set_dream_state (mkDreamState (now_ms f) (Some original) false) s in
        let s := set_tick (slower_tick (lit 115 100) (tick_ms s)) s in
        let metrics_after := analyze (in_order i) f in
        let '(f, told) :=
          close_epoch EDream (epoch_seq s) start (hash_value (HDreamConfig (dream_cfg (cycles f))))
            (hash_value (HDreamReport report)) before metrics_after (in_took_replay i 0) f in
        let s := set_last_metrics metrics_after (set_epoch_seq (u64_add (epoch_seq s) 1) s) in
        let '(s, f, awakened) := rebuild_and_awaken (in_took_replay i 1) i s f in
        mkRound s f (events ++ dream_events report ++ told ++ awakened) out
    end
  else r.

Definition collective_due (metrics : Metrics) (s : LifeState) (f : ClusterField) : bool :=
  let last_dream := last_dream_ms (cycles f) in
  negb (sh_active (shared_state s))
  && ((0 <? last_dream)%Z && f_lt (lit 65 100) (sleeping_pct metrics)
      && (u64_saturating_sub (now_ms f) last_dream <=? 30000)%Z
      && (phase_gap_ms (sync_cfg (cycles f)) <=? u64_saturating_sub (now_ms f) (last_phase_end (shared_state s)))%Z).

(** [None] is the panic of [detect_sync_groups]. *)
Definition collective_phase (i : LifeInput) (metrics : Metrics) (r : Round) : option Round :=
  let '(mkRound s f events out) := r in
  if collective_due metrics s f then
    let cfg := sync_cfg (cycles f) in
    match detect_sync_groups (in_order i) cfg (now_ms f) f with
    | None => None
    | Some [] => Some r
    | Some groups =>
        let before := measure (default Metrics_default (last_metrics s)) f in
        let start := now_ms f in
        let '(f, report) := run_collective_dream groups cfg (now_ms f) (in_took_sync i) f in
        let metrics_after := analyze (in_order i) f in
        let '(f, told) :=
          close_epoch ECollective (epoch_seq s) start (hash_value (HSyncConfig (sync_cfg (cycles f))))
            (hash_value (HSyncReport report)) before metrics_after (in_took_replay i 2) f in
        let s := set_last_metrics metrics_after (set_epoch_seq (u64_add (epoch_seq s) 1) s) in
        let '(s, f, awakened) := rebuild_and_awaken (in_took_replay i 3) i s f in
        let sh := shared_state s in
        let baseline := default (default (tick_ms s) (sh_restore_tick sh)) (ds_restore_tick (dream_state s)) in
        let s :=
          set_shared_state
            (mkShared true (u64_saturating_add (now_ms f) (phase_len_ms cfg)) (last_phase_end sh) (Some baseline)) s in
        let s := set_tick (slower_tick (lit 11 10) (tick_ms s)) s in
        Some (mkRound s f (events ++ collective_events report ++ told ++ awakened) out)
    end
  else Some r.

(** The files of the partial snapshot, once the field is unlocked. *)
Definition partial_events (i : LifeInput) (payload : option (bytes * Z * Z)) : list FieldEvent :=
  match payload with
  | None => []
  | Some (data, count, ts) =>
      match in_create_dir i with
      | Some err => [EText ("PARTIAL SNAPSHOT ERROR: create dir failed: " +:+ err)]
      | None =>
          match in_write i with
          | Some err => [EText ("PARTIAL SNAPSHOT ERROR: write snap/partial_" +:+ fmt_nat ts +:+ ".psnap: " +:+ err)]
          | None =>
              [EText ("PARTIAL SNAPSHOT: cells=" +:+ fmt_nat count +:+ " size="
                 +:+ fmt_fixed 1 (f32_div (f32_of_Z (Z.of_nat (length data))) (lit 1024 1)) +:+ "KB");
               event "snapshot" [("kind", JStr "partial"); ("cells", JU64 count)]]
          end
      end
  end.

(** One round from the end of the sleep; [None] is a panic of the task. *)
Definition life_round (i : LifeInput) (s : LifeState) (f : ClusterField)
  : option (LifeState * ClusterField * list LifeOutput) :=
  let s := mark_slowed (restore_tick s) in
  let '(f, events) := tick_all (in_order i) (tick_ms s) (in_variation i) f in
  let s := end_phase (now_ms f) s in
  let s := set_elapsed_metrics (u64_add (elapsed_since_metrics s) (tick_ms s)) s in
  let '(s, payload) := partial_phase i s f in
  let r := metrics_phase i (mkRound s f events []) in
  let r :=
    match last_metrics (rd_state r) with
    | Some metrics => collective_phase i metrics (dream_phase i metrics r)
    | None => Some r
    end in
  match r with
  | None => None
  | Some r => Some (rd_state r, rd_field r, rd_out r ++ map OEvent (rd_events r ++ partial_events i payload))
  end.
End life.
