(* ===== verification/LifeProps.v ===== *)
(** * The life loop: tempo, spacing and the invariant of the field

    The rounds of the loop and the operations of the clients that hold the mutex while it sleeps
    interleave in any order. [life_loop_paced]: the tempo stays between 80 and 800 ms and the field
    well formed whatever the clients do; a round begins a dream or a collective phase only after its
    idle time or gap; and in a run whose clients do not tick, dream or configure dreams ([quiet_step])
    the logs keep these distances. The last part shows that what a round appends to the journal
    accounts for what it changes. *)

From stdpp Require Import prelude gmap strings fin_maps fin_sets list sorting relations.
From Stdlib Require Import ZArith Lia SpecFloat Sorted.
From S2P Require Import Prelude RustStr RustOrd Float RustText Json NodeCell Trs Seeds Symmetry FieldTypes Feedback Variant Resonant Journal Collections Field FieldOps FieldRoute FieldTick FieldInv FieldReplay FieldSteps FieldSound FieldDream FieldAwaken FieldLql FieldCycles FieldProps LifeLoop.
From S2P Require Views Lql.

(** ** Distances *)
(** Consecutive times at least [d] apart. *)
Definition spaced (d : Z) (l : list Z) : Prop := Sorted (fun a b => a + d <= b)%Z l.

Lemma spaced_snoc d l x : spaced d l -> (forall y, last l = Some y -> (y + d <= x)%Z) -> spaced d (l ++ [x]).
Proof.
  unfold spaced. induction l as [|a l IH]; intros Hs Hl; [by repeat constructor |]. cbn.
  apply Sorted_inv in Hs as [Hs Ha]. destruct l as [|b l].
  - repeat constructor. by apply Hl.
  - constructor; [apply IH; [done |]; intros y Hy; by apply Hl |].
    constructor. by apply HdRel_inv in Ha.
Qed.

Lemma spaced_drop d n l : spaced d l -> spaced d (drop n l).
Proof.
  unfold spaced. revert n. induction l as [|a l IH]; intros [|n] Hs; try done. cbn. apply IH. exact (proj1 (Sorted_inv Hs)).
Qed.

Lemma last_n_drop {A} n (l : list A) : exists k, last_n n l = drop k l.
Proof. by eexists. Qed.

(** A log that keeps its last entries. *)
Lemma spaced_log {A} d n (l : list (Z * A)) e :
  spaced d l.*1 -> (forall y, last l.*1 = Some y -> (y + d <= e.1)%Z) -> spaced d (last_n n (l ++ [e])).*1.
Proof.
  intros Hs Hl. destruct (last_n_drop n (l ++ [e])) as [k ->]. rewrite fmap_drop, fmap_app. cbn.
  by apply spaced_drop, spaced_snoc.
Qed.

Lemma last_log {A} n (l : list (Z * A)) e : 0 < n -> last (last_n n (l ++ [e])).*1 = Some e.1.
Proof.
  intros Hn. unfold last_n. rewrite drop_app_le by (rewrite length_app; cbn; lia). rewrite fmap_app. cbn. by rewrite last_snoc.
Qed.

(** ** Phases that keep the clock, the configuration and the logs of dreams *)
Definition pace (f : ClusterField) : Z * DreamConfig * SyncConfig * list (Z * DreamReport) * list (Z * SyncReport) :=
  (now_ms f, dream_cfg (cycles f), sync_cfg (cycles f), dream_reports (cycles f), sync_reports (cycles f)).

Lemma pace_setup f f' : setup f' = setup f -> pace f' = pace f.
Proof. unfold setup, logs, pace. by intros [= -> _ _ -> -> -> -> _ _]. Qed.

Section steady.
Context `{UnicodeCase}.

Record steady (n : Z) (f f' : ClusterField) : Prop := {
  sd_wf : field_wf f';
  sd_next : (next_id (graph f) <= next_id (graph f') <= next_id (graph f) + n)%Z;
  sd_pace : pace f' = pace f
}.

Lemma steady_refl f : field_wf f -> steady 0 f f.
Proof. intros Hw. split; [done | lia | done]. Qed.
Lemma steady_ok n f f' : ok_step n f f' -> steady n f f'.
Proof. intros [Hw Hn Hs _]. split; [done | done | by apply pace_setup]. Qed.
Lemma steady_sound n P f f' : sound n P f f' -> pace f' = pace f -> steady n f f'.
Proof. by intros (Hw & Hn & _) Hp. Qed.
Lemma steady_trans n m k f f1 f2 :
  (n + m <= k)%Z -> steady n f f1 -> (field_wf f1 -> steady m f1 f2) -> steady k f f2.
Proof.
  intros Hk [W1 N1 P1] H2. destruct (H2 W1) as [W2 N2 P2]. split; [done | lia | congruence].
Qed.
Lemma steady_trans0 f f1 f2 : steady 0 f f1 -> (field_wf f1 -> steady 0 f1 f2) -> steady 0 f f2.
Proof. intros H1 H2. by apply (steady_trans 0 0 0 f f1 f2). Qed.
Lemma steady_frame f f' :
  field_wf f -> core f' = core f -> pace f' = pace f -> steady 0 f f'.
Proof. intros Hw Hc Hp. split; [by eapply field_wf_core | rewrite (next_core _ _ Hc); lia | done]. Qed.

Lemma pace_emit d f : pace (emit d f) = pace f.
Proof. unfold emit. by destruct (journal f). Qed.
End steady.

Section life.
Context `{UnicodeCase, SeedRng, FloatMath, LifeEnv}.

(** ** Epochs and awakening *)
Lemma push_epoch_steady epoch f : field_wf f -> steady 0 f (push_mirror_epoch epoch f).
Proof.
  intros Hw. eapply steady_sound; [by apply push_epoch_sound |]. unfold push_mirror_epoch.
  etrans; [| exact (pace_emit (DMirrorEpoch epoch) f)]. done.
Qed.

Lemma replay_steady o timeline id cfg took f : field_wf f -> steady 0 f (fst (replay_epoch o timeline id cfg took f)).
Proof.
  intros Hw. eapply steady_sound; [by apply replay_epoch_sound |]. unfold replay_epoch.
  destruct (List.find _ _) as [epoch|]; [| done]. cbv zeta.
  assert (forall r g, pace (record_mirror_replay r g) = pace g) as Hr.
  { intros r g. etrans; [| exact (pace_emit (DMirrorReplay r) g)]. done. }
  destruct (_ && _); [| apply Hr].
  pose proof (ok_mirror_epoch o epoch (f32_clamp (rc_scale cfg) f0 (lit 4 1)) (rc_max_ops cfg) (rc_protect_salience cfg) f Hw) as Hm.
  destruct (apply_mirror_epoch _ _ _ _ _ f) as [f1 applied]. cbn [fst] in *. rewrite Hr.
  by apply pace_setup, (os_setup _ _ _ Hm).
Qed.

Lemma auto_reflect_steady took f : field_wf f -> steady 0 f (fst (auto_reflect took f)).
Proof.
  intros Hw. unfold auto_reflect. destruct (negb _); [by apply steady_refl |].
  destruct (List.find _ _) as [best|]; [| by apply steady_refl]. cbv zeta.
  pose proof (replay_steady id_order (mirror_timeline f) (ep_id best) (mkReplayConfig "dry" (lit 75 100) 96 (lit 8 10)) took f Hw) as Hr.
  by destruct (replay_epoch _ _ _ _ _ f).
Qed.

Lemma close_epoch_steady kind id start ch rh before after took f :
  field_wf f -> steady 0 f (fst (close_epoch kind id start ch rh before after took f)).
Proof.
  intros Hw. unfold close_epoch. cbv zeta. set (f1 := push_mirror_epoch _ f).
  assert (steady 0 f f1) as K1 by by apply push_epoch_steady.
  pose proof (auto_reflect_steady took f1 (sd_wf _ _ _ K1)) as K2.
  destruct (auto_reflect took f1) as [f2 evs]. eapply steady_trans0; [exact K1 |]. by intros _.
Qed.

(** What a phase does to the loop: the tempo. *)
Definition tempo_ok (t : Z) : Prop := (80 <= t <= 800)%Z.
Record retimed (s s' : LifeState) : Prop := {
  rt_tick : tempo_ok (tick_ms s) -> tempo_ok (tick_ms s');
  rt_dream : dream_state s' = dream_state s;
  rt_shared : shared_state s' = shared_state s
}.
Lemma retimed_refl s : retimed s s. Proof. by split. Qed.
Lemma retimed_trans s s1 s2 : retimed s s1 -> retimed s1 s2 -> retimed s s2.
Proof. intros [T1 D1 S1] [T2 D2 S2]. split; [auto | congruence | congruence]. Qed.
Lemma retimed_tick v s : (tempo_ok (tick_ms s) -> tempo_ok v) -> retimed s (set_tick v s).
Proof. by split. Qed.

Lemma adjust_tick_ok t a lo hi : (80 <= lo)%Z -> (lo <= hi <= 800)%Z -> tempo_ok (adjust_tick t a lo hi).
Proof. unfold adjust_tick, tempo_ok. lia. Qed.
Lemma slower_tick_ok x t : tempo_ok (slower_tick x t).
Proof. unfold slower_tick, tempo_ok. lia. Qed.

Lemma awaken_field_steady model cfg t f :
  field_wf f -> steady 0 f (set_trs (awaken model cfg t (set_trs TrsState_default f)).1.2 (awaken model cfg t (set_trs TrsState_default f)).1.1).
Proof.
  intros Hw. apply steady_ok. assert (ok_step 0 f (set_trs TrsState_default f)) as K1 by by apply ok_frame.
  pose proof (ok_awaken model cfg t _ (os_wf _ _ _ K1)) as K2. eapply ok_trans0; [exact K1 |]. intros _.
  eapply ok_trans0; [exact K2 |]. intros Hw2. by apply ok_frame.
Qed.

Lemma rebuild_and_awaken_steady took i s f :
  field_wf f ->
  let '(s', f', _) := rebuild_and_awaken took i s f in steady 0 f f' /\ retimed s s'.
Proof.
  intros Hw. unfold rebuild_and_awaken. destruct (_ && _).
  { split; [by apply steady_frame | apply retimed_refl]. }
  cbv zeta. set (model := build_model _ _ _ _). set (f1 := set_resonant_model model f).
  assert (steady 0 f f1) as K1 by by apply steady_frame.
  pose proof (awaken_field_steady model (awakening_cfg (cycles f1)) (trs (control f1)) f1 (sd_wf _ _ _ K1)) as K2.
  destruct (awaken model _ _ (set_trs TrsState_default f1)) as [[f2 t] report]. cbn [fst snd] in K2.
  set (s1 := if (aw_tick_adjust_ms report =? 0)%Z then s else _).
  assert (retimed s s1) as Hs1.
  { unfold s1. destruct (_ =? 0)%Z; [apply retimed_refl |]. apply retimed_tick. intros _. by apply adjust_tick_ok. }
  match goal with |- context [close_epoch ?k ?n ?st ?a ?b ?c ?d ?e ?g] =>
    pose proof (close_epoch_steady k n st a b c d e g (sd_wf _ _ _ K2)) as K3;
    destruct (close_epoch k n st a b c d e g) as [f3 told] end.
  split; [| by destruct Hs1]. eapply steady_trans0; [exact K1 |]. intros _. eapply steady_trans0; [exact K2 |]. by intros _.
Qed.

(** ** The metrics of a second *)
Lemma apply_hint_steady i s f h :
  field_wf f -> (next_id (graph f) + 1 < u64_size)%Z ->
  steady 1 f (snd (apply_hint i (s, f) h)) /\ retimed s (fst (apply_hint i (s, f) h)).
Proof.
  intros Hw Hn. assert (forall g, steady 0 f g -> steady 1 f g) as Hone.
  { intros g [Ha Hb Hc]. split; [done | lia | done]. }
  destruct h; cbn [apply_hint].
  - split; [by apply Hone, steady_refl |]. apply retimed_tick. unfold tempo_ok. intros Ht.
    rewrite u64_add_small by (unfold u64_size; lia). lia.
  - destruct (Z.ltb_spec 100 (tick_ms s)); (split; [by apply Hone, steady_refl |]); [| apply retimed_refl].
    apply retimed_tick. unfold tempo_ok, u64_saturating_sub. lia.
  - split; [| apply retimed_refl]. apply Hone. destruct (trim_sound (in_order i) (in_trim_coins i) f Hw) as [Hs Hk].
    eapply steady_sound; [exact Hk | by apply pace_setup].
  - split; [| apply retimed_refl]. by apply steady_ok, inject_ok.
Qed.

Lemma apply_hints_steady i hs : forall s f,
  field_wf f -> (next_id (graph f) + Z.of_nat (length hs) < u64_size)%Z ->
  steady (Z.of_nat (length hs)) f (snd (apply_hints i hs s f)) /\ retimed s (fst (apply_hints i hs s f)).
Proof.
  unfold apply_hints. induction hs as [|h hs IH]; intros s f Hw Hn; cbn [fold_left length].
  { split; [by apply steady_refl | apply retimed_refl]. }
  cbn [length] in Hn. destruct (apply_hint_steady i s f h Hw ltac:(lia)) as [Ha Hb].
  destruct (apply_hint i (s, f) h) as [s1 f1]. cbn [fst snd] in *.
  destruct (IH s1 f1 (sd_wf _ _ _ Ha)) as [Hc Hd]; [pose proof (sd_next _ _ _ Ha); lia |].
  split; [| by eapply retimed_trans]. apply (steady_trans 1 (Z.of_nat (length hs)) _ f f1); [lia | done | by intros _].
Qed.

Lemma hints_length coins m : length (hints coins m) <= 4.
Proof.
  unfold hints. rewrite !length_app. repeat case_match; cbn; lia.
Qed.

Lemma reflex_phase_steady i m f : field_wf f -> steady 0 f (fst (reflex_phase i m f)).
Proof.
  intros Hw. unfold reflex_phase. destruct (reflex_enabled f); [| by apply steady_refl]. cbv zeta.
  match goal with |- context [record_reflex_snapshot ?o ?s f] =>
    pose proof (ok_reflex_snapshot o s f Hw) as Hr; destruct (record_reflex_snapshot o s f) as [f1 report] end.
  cbn [fst] in *. by apply steady_ok.
Qed.

Lemma metrics_phase_steady i r :
  field_wf (rd_field r) -> (next_id (graph (rd_field r)) + 4 < u64_size)%Z ->
  steady 4 (rd_field r) (rd_field (metrics_phase i r)) /\ retimed (rd_state r) (rd_state (metrics_phase i r)).
Proof.
  destruct r as [s f events out]. cbn [rd_field rd_state]. intros Hw Hn. unfold metrics_phase.
  destruct (1000 <=? elapsed_since_metrics s)%Z.
  2: { split; [| apply retimed_refl]. split; [done | cbn; lia | done]. }
  cbv zeta. set (m := analyze (in_order i) f). set (f1 := set_trs _ f).
  destruct (trs_step (now_ms f1) (observed_load m) (trs (control f1))) as [t output]. set (f2 := set_trs t f1).
  assert (steady 0 f f2) as K1 by by apply steady_frame.
  pose proof (apply_trs_output_ok (now_ms f2) (observed_load m) output f2 (sd_wf _ _ _ K1)) as K2.
  destruct (apply_trs_output _ _ output f2) as [f3 trs_events]. cbn [fst] in K2.
  set (s1 := set_tick _ s). assert (retimed s s1) as Hs1 by (apply retimed_tick; intros _; by apply adjust_tick_ok).
  pose proof (hints_length (in_hint_coins i) m) as Hlen. set (advice := hints _ m) in *.
  destruct (apply_hints_steady i advice s1 f3 (os_wf _ _ _ K2)) as [K3 Hs2].
  { pose proof (os_next _ _ _ K2). pose proof (sd_next _ _ _ K1). lia. }
  destruct (apply_hints i advice s1 f3) as [s2 f4]. cbn [fst snd] in *.
  pose proof (reflex_phase_steady i m f4 (sd_wf _ _ _ K3)) as K4. destruct (reflex_phase i m f4) as [f5 reflected].
  cbn [rd_field rd_state fst] in *. split.
  - apply (steady_trans 0 4 4 f f2); [lia | exact K1 |]. intros _. apply (steady_trans 0 4 4 f2 f3); [lia | by apply steady_ok |]. intros _.
    apply (steady_trans (Z.of_nat (length advice)) 0 4 f3 f4); [lia | exact K3 |]. by intros _.
  - eapply retimed_trans; [exact Hs1 |]. by destruct Hs2.
Qed.

(** ** Dreams *)
(** A step that may add an entry of now to the log of dreams. *)
Definition dream_logged (f f' : ClusterField) : Prop :=
  field_wf f' /\ next_id (graph f') = next_id (graph f) /\
  exists ds, pace f' = (now_ms f, dream_cfg (cycles f), sync_cfg (cycles f), ds, sync_reports (cycles f)) /\
    (ds = dream_reports (cycles f) \/ exists r, ds = last_n 16 (dream_reports (cycles f) ++ [(now_ms f, r)])).

Lemma steady_logged f f' : steady 0 f f' -> dream_logged f f'.
Proof.
  intros [Hw Hn Hp]. split_and!; [done | lia |]. exists (dream_reports (cycles f)). split; [done | by left].
Qed.

Lemma dream_logged_steady f f1 f2 : dream_logged f f1 -> steady 0 f1 f2 -> dream_logged f f2.
Proof.
  intros (W1 & N1 & ds & P1 & Hd) [W2 N2 P2]. split_and!; [done | lia |]. exists ds. by rewrite P2.
Qed.

Lemma dream_cycle_logged o took f : field_wf f -> dream_logged f (fst (run_dream_cycle o took f)).
Proof.
  intros Hw. unfold run_dream_cycle. destruct (_ <? 2); [by apply steady_logged, steady_refl |].
  destruct (run_dream_out o (dream_cfg (cycles f)) (now_ms f) took f Hw) as (g & Hok & Hg).
  destruct (run_dream o _ (now_ms f) took f) as [f1 report]. cbn [fst snd] in *.
  pose proof (pace_setup _ _ (os_setup _ _ _ Hok)) as Hp. pose proof (os_next _ _ _ Hok) as Hn.
  set (f2 := put_dream_reports _ _ f1). assert (pace f2 = pace f1) as Hp2 by done.
  destruct Hg as [-> | ->].
  - split_and!; [by apply (field_wf_core g), Hok | cbn; lia |]. exists (dream_reports (cycles f)).
    rewrite Hp2, Hp. split; [done | by left].
  - assert (core (record_dream_report (now_ms f) report g) = core g) as Hc by exact (core_emit _ _).
    split_and!; [| transitivity (next_id (graph g)); [exact (next_core _ _ Hc) | lia] |].
    + apply (field_wf_core g); [exact Hc | apply Hok].
    + exists (last_n 16 (dream_reports (cycles f) ++ [(now_ms f, report)])). split; [| right; by eexists].
      rewrite Hp2. etrans; [apply pace_emit |].
      assert (pace (put_dream_reports (last_n 16 (dream_reports (cycles g) ++ [(now_ms f, report)])) (last_dream_ms (cycles g)) g)
        = (now_ms g, dream_cfg (cycles g), sync_cfg (cycles g),
           last_n 16 (dream_reports (cycles g) ++ [(now_ms f, report)]), sync_reports (cycles g))) as E by done.
      etrans; [exact E |]. unfold pace in Hp. injection Hp as E1 E2 E3 E4 E5. by rewrite E1, E2, E3, E4, E5.
Qed.

(** Whether the phase dreamt, and what it leaves in the loop. *)
Definition dreamt_round (m : Metrics) (r r' : Round) : Prop :=
  let s := rd_state r in
  let s' := rd_state r' in
  dream_due m s (rd_field r) = true /\ (tempo_ok (tick_ms s) -> tempo_ok (tick_ms s')) /\
  shared_state s' = shared_state s /\
  dream_state s' = mkDreamState (now_ms (rd_field r)) (Some (default (tick_ms s) (ds_restore_tick (dream_state s)))) false.

Lemma dream_phase_spec i m r :
  field_wf (rd_field r) ->
  dream_logged (rd_field r) (rd_field (dream_phase i m r)) /\
  (steady 0 (rd_field r) (rd_field (dream_phase i m r)) /\ retimed (rd_state r) (rd_state (dream_phase i m r)) \/
   dreamt_round m r (dream_phase i m r)).
Proof.
  destruct r as [s f events out]. cbn [rd_field rd_state]. intros Hw. unfold dream_phase, dreamt_round. cbn [rd_field rd_state].
  destruct (dream_due m s f) eqn:Hdue.
  2: { split; [by apply steady_logged, steady_refl | left; split; [by apply steady_refl | apply retimed_refl]]. }
  pose proof (dream_cycle_logged (in_order i) (in_took_dream i) f Hw) as Hl.
  assert (snd (run_dream_cycle (in_order i) (in_took_dream i) f) = None ->
    fst (run_dream_cycle (in_order i) (in_took_dream i) f) = f) as Hnone.
  { unfold run_dream_cycle. destruct (_ <? 2); [done |]. by destruct (run_dream _ _ _ _ f). }
  destruct (run_dream_cycle (in_order i) (in_took_dream i) f) as [f1 [report|]]; cbn [fst snd] in *.
  2: { rewrite Hnone by done. split; [by apply steady_logged, steady_refl |].
       left. split; [by apply steady_refl | apply retimed_refl]. }
  cbv zeta.
  match goal with |- context [close_epoch ?k ?n ?st ?a ?b ?c ?d ?e f1] =>
    pose proof (close_epoch_steady k n st a b c d e f1 (proj1 Hl)) as K2;
    destruct (close_epoch k n st a b c d e f1) as [f2 told] end. cbn [fst] in K2.
  match goal with |- context [rebuild_and_awaken ?t i ?s2 f2] =>
    pose proof (rebuild_and_awaken_steady t i s2 f2 (sd_wf _ _ _ K2)) as K3; set (s1 := s2) in *;
    destruct (rebuild_and_awaken t i s1 f2) as [[s3 f3] awakened] end.
  destruct K3 as [K3 [Ht Hd Hs]]. cbn [rd_field rd_state]. split.
  - eapply dream_logged_steady; [| exact K3]. by eapply dream_logged_steady.
  - right. split_and!; [done | | by rewrite Hs | ].
    + intros _. apply Ht. apply slower_tick_ok.
    + rewrite Hd. cbn. f_equal. destruct Hl as (_ & _ & ds & Hp & _). unfold pace in Hp. by injection Hp.
Qed.

(** ** Collective dreams *)
Definition sync_logged (f f' : ClusterField) : Prop :=
  field_wf f' /\ next_id (graph f') = next_id (graph f) /\
  exists r, pace f' = (now_ms f, dream_cfg (cycles f), sync_cfg (cycles f), dream_reports (cycles f),
                       last_n 16 (sync_reports (cycles f) ++ [(now_ms f, r)])).

Lemma sync_logged_steady f f1 f2 : sync_logged f f1 -> steady 0 f1 f2 -> sync_logged f f2.
Proof.
  intros (W1 & N1 & r & P1) [W2 N2 P2]. split_and!; [done | lia |]. exists r. by rewrite P2.
Qed.

Lemma collective_logged groups cfg took f :
  groups <> [] -> field_wf f -> sync_logged f (fst (run_collective_dream groups cfg (now_ms f) took f)).
Proof.
  intros Hne Hw. destruct (collective_out groups cfg (now_ms f) took f Hw) as (g & Hok & ->).
  rewrite decide_False by done. set (r := snd _).
  pose proof (pace_setup _ _ (os_setup _ _ _ Hok)) as Hp. pose proof (os_next _ _ _ Hok) as Hn.
  assert (core (record_sync_report (now_ms f) r g) = core g) as Hc by exact (core_emit _ _).
  split_and!; [by apply (field_wf_core g); [| apply Hok] | rewrite (next_core _ _ Hc); lia |].
  exists r. etrans; [apply pace_emit |].
  unfold pace in *. injection Hp as E1 E2 E3 E4 E5. cbn. by rewrite E1, E2, E3, E4, E5.
Qed.

(** What a collective phase leaves in the loop. *)
Definition shared_round (m : Metrics) (r r' : Round) : Prop :=
  let s := rd_state r in
  let s' := rd_state r' in
  let f := rd_field r in
  collective_due m s f = true /\ tempo_ok (tick_ms s') /\ dream_state s' = dream_state s /\
  sh_active (shared_state s') = true /\
  phase_until (shared_state s') = u64_saturating_add (now_ms f) (phase_len_ms (sync_cfg (cycles f))) /\
  last_phase_end (shared_state s') = last_phase_end (shared_state s) /\
  ((tempo_ok (tick_ms s) /\ (forall t, sh_restore_tick (shared_state s) = Some t -> tempo_ok t) /\
    (forall t, ds_restore_tick (dream_state s) = Some t -> tempo_ok t)) ->
   exists t, sh_restore_tick (shared_state s') = Some t /\ tempo_ok t).

Lemma collective_phase_spec i m r r' :
  field_wf (rd_field r) -> collective_phase i m r = Some r' ->
  r' = r \/ sync_logged (rd_field r) (rd_field r') /\ shared_round m r r'.
Proof.
  destruct r as [s f events out]. cbn [rd_field rd_state]. intros Hw. unfold collective_phase, shared_round. cbn [rd_field rd_state].
  destruct (collective_due m s f) eqn:Hdue; [| intros [= <-]; by left].
  destruct (detect_sync_groups _ _ _ f) as [[|g groups]|]; [intros [= <-]; by left | | done]. cbv zeta.
  pose proof (collective_logged (g :: groups) (sync_cfg (cycles f)) (in_took_sync i) f ltac:(done) Hw) as Hl.
  destruct (run_collective_dream _ _ _ _ f) as [f1 report]. cbn [fst] in Hl.
  match goal with |- context [close_epoch ?k ?n ?st ?a ?b ?c ?d ?e f1] =>
    pose proof (close_epoch_steady k n st a b c d e f1 (proj1 Hl)) as K2;
    destruct (close_epoch k n st a b c d e f1) as [f2 told] end. cbn [fst] in K2.
  match goal with |- context [rebuild_and_awaken ?t i ?s2 f2] =>
    pose proof (rebuild_and_awaken_steady t i s2 f2 (sd_wf _ _ _ K2)) as K3; set (s1 := s2) in *;
    destruct (rebuild_and_awaken t i s1 f2) as [[s3 f3] awakened] end.
  destruct K3 as [K3 [Ht Hd Hs]]. intros [= <-]. right. cbn [rd_field rd_state].
  assert (sync_logged f f3) as Hf3 by (eapply sync_logged_steady; [| exact K3]; by eapply sync_logged_steady).
  split; [done |]. split_and!; try done.
  - apply slower_tick_ok.
  - cbn. destruct Hf3 as (_ & _ & r & Hp). unfold pace in Hp. injection Hp as -> _ _ _ _. done.
  - cbn. by rewrite Hs.
  - intros (Htick & Hsh & Hdr). cbn. eexists. split; [done |]. rewrite Hs, Hd. cbn.
    destruct (ds_restore_tick (dream_state s)) as [t|] eqn:Ed; [by apply Hdr |]. cbn.
    destruct (sh_restore_tick (shared_state s)) as [t|] eqn:Es; [by apply Hsh | by apply Ht].
Qed.

(** ** Rounds and clients *)
(** A round is given room for the identifiers and the time it can use. *)
Definition life_room (f : ClusterField) : Prop :=
  (next_id (graph f) + Z.of_nat (size (cells (graph f))) + 4 < u64_size)%Z /\
  (now_ms f + 800 + phase_len_ms (sync_cfg (cycles f)) < u64_max)%Z.

(** A round of the loop, or an operation of another holder of the mutex: any one. *)
Inductive life_step : LifeState * ClusterField -> LifeState * ClusterField -> Prop :=
| LifeRound i s f s' f' out : life_room f -> life_round i s f = Some (s', f', out) -> life_step (s, f) (s', f')
| LifeClient o op s f : room op f -> life_step (s, f) (s, field_apply o op f).

(** The operations that neither tick nor dream nor configure dreams. *)
Definition client (op : field_op) : bool :=
  match op with
  | FTick _ _ | FDream _ | FCollective _ _ _ _ | FDreamConfig _ | FSyncConfig _ => false
  | _ => true
  end.
(** The loop with clients of these operations only. *)
Inductive quiet_step : LifeState * ClusterField -> LifeState * ClusterField -> Prop :=
| QuietRound i s f s' f' out : life_room f -> life_round i s f = Some (s', f', out) -> quiet_step (s, f) (s', f')
| QuietClient o op s f : client op = true -> room op f -> quiet_step (s, f) (s, field_apply o op f).

(** What holds with any client: the tempo, and what a phase will restore. *)
Record tempo (s : LifeState) (f : ClusterField) : Prop := {
  tm_wf : field_wf f;
  tm_tick : tempo_ok (tick_ms s);
  tm_restore : forall t, ds_restore_tick (dream_state s) = Some t -> tempo_ok t;
  tm_shared : forall t, sh_restore_tick (shared_state s) = Some t -> tempo_ok t
}.

(** The pace of one round, by the configuration at its beginning: the loop dreams only when more than
    the idle time has passed since the dream it began last, and a collective dream begins only when
    no phase runs and the gap after the last one is over. *)
Definition dream_pace (s : LifeState) (f : ClusterField) (s' : LifeState) (f' : ClusterField) : Prop :=
  last_start_ms (dream_state s') = last_start_ms (dream_state s) /\
  dream_reports (cycles f') = dream_reports (cycles f) \/
  last_start_ms (dream_state s') = now_ms f' /\
  (min_idle_s (dream_cfg (cycles f)) * 1000 < u64_saturating_sub (now_ms f') (last_start_ms (dream_state s)))%Z /\
  (dream_reports (cycles f') = dream_reports (cycles f) \/
   exists r, dream_reports (cycles f') = last_n 16 (dream_reports (cycles f) ++ [(now_ms f', r)])).
(** The phase of before still runs at the end of the round. *)
Definition still_shared (s : LifeState) (now : Z) : bool :=
  sh_active (shared_state s) && negb (phase_until (shared_state s) <=? now)%Z.
Definition phase_pace (s : LifeState) (f : ClusterField) (s' : LifeState) (f' : ClusterField) : Prop :=
  last_phase_end (shared_state s') =
    (if sh_active (shared_state s) && (phase_until (shared_state s) <=? now_ms f')%Z then now_ms f'
     else last_phase_end (shared_state s)) /\
  (sh_active (shared_state s') = still_shared s (now_ms f') /\ sync_reports (cycles f') = sync_reports (cycles f) \/
   still_shared s (now_ms f') = false /\ sh_active (shared_state s') = true /\
   (phase_gap_ms (sync_cfg (cycles f)) <= u64_saturating_sub (now_ms f') (last_phase_end (shared_state s')))%Z /\
   phase_until (shared_state s') = u64_saturating_add (now_ms f') (phase_len_ms (sync_cfg (cycles f))) /\
   exists r, sync_reports (cycles f') = last_n 16 (sync_reports (cycles f) ++ [(now_ms f', r)])).

(** The parts of a round. *)
Lemma round_parts i s f s' f' out :
  field_wf f -> life_room f -> life_round i s f = Some (s', f', out) ->
  let s1 := mark_slowed (restore_tick s) in
  let f1 := fst (tick_all (in_order i) (tick_ms s1) (in_variation i) f) in
  exists r r1 r', retimed (end_phase (now_ms f1) s1) (rd_state r) /\ steady 4 f1 (rd_field r) /\
    (r1 = r \/ exists m, r1 = dream_phase i m r) /\ (r1 = r' \/ exists m, collective_phase i m r1 = Some r') /\
    s' = rd_state r' /\ f' = rd_field r'.
Proof.
  intros Hw [Hroom _] Hr s1 f1. unfold life_round in Hr. fold s1 in Hr.
  destruct (tick_all_spec (in_order i) (tick_ms s1) (in_variation i) f Hw ltac:(lia)) as (Hw1 & Hn1 & _).
  fold f1 in Hw1, Hn1. unfold f1 in *.
  destruct (tick_all (in_order i) (tick_ms s1) (in_variation i) f) as [g events]. cbn [fst] in *.
  set (s2 := end_phase (now_ms g) s1) in *. set (s3 := set_elapsed_metrics _ s2) in *.
  destruct (partial_phase i s3 g) as [s4 payload] eqn:Ep.
  assert (retimed s2 s4) as Hrt.
  { unfold partial_phase in Ep. destruct (5000 <=? _)%Z; injection Ep as <- _; by split. }
  destruct (metrics_phase_steady i (mkRound s4 g events []) Hw1 ltac:(cbn; lia)) as [Hst Hrm].
  set (r := metrics_phase i _) in *. exists r.
  assert (retimed s2 (rd_state r)) as Hr2 by by eapply retimed_trans.
  destruct (last_metrics (rd_state r)) as [m|].
  - destruct (collective_phase i m (dream_phase i m r)) as [r'|] eqn:Ec; [| done]. injection Hr as <- <- _.
    exists (dream_phase i m r), r'. split_and!; try done; right; by exists m.
  - injection Hr as <- <- _. exists r, r. split_and!; try done; by left.
Qed.

Lemma client_pace o op f : field_wf f -> room op f -> client op = true -> pace (field_apply o op f) = pace f.
Proof.
  intros Hw Hr Hc. destruct op; try done; cbn [field_apply room] in *.
  - by apply pace_setup, (os_setup 1), add_root_ok.
  - unfold add_reflex. destruct (r_id rule =? 0)%Z; (etrans; [apply pace_emit | done]).
  - unfold remove_reflex. destruct (_ !! id); [etrans; [apply pace_emit | done] | done].
  - by eapply pace_setup, os_setup, ok_route.
  - by apply pace_setup, trim_sound.
  - by apply pace_setup, (os_setup 1), inject_ok.
  - by apply pace_setup, (os_setup 0), set_trs_config_ok.
  - by apply pace_setup, (os_setup 0), set_trs_target_ok.
  - by apply pace_setup, (os_setup 0), apply_trs_output_ok.
  - by apply pace_setup, (os_setup 0), ok_build_model.
  - by apply pace_setup, (os_setup 0), ok_apply_model.
  - by apply pace_setup, (os_setup 0), ok_rebuild_model.
  - by apply pace_setup, (os_setup 0), ok_awaken_now.
  - by apply pace_setup, (os_setup 0), ok_reflex_snapshot.
  - by apply push_epoch_steady.
  - by apply replay_steady.
  - by apply pace_setup, (os_setup 0), ok_plant.
  - unfold tick_seed_garden. by destruct (tick_garden _ _ _).
  - by apply pace_setup, (os_setup 0), ok_query.
Qed.

(** ** The invariant of a run *)
Section run.
Variables (dc : DreamConfig) (sc : SyncConfig).
Hypothesis dc_ok : (0 <= min_idle_s dc)%Z.
Hypothesis sc_ok : (0 <= phase_len_ms sc)%Z /\ (0 <= phase_gap_ms sc)%Z.

Definition dream_distance : Z := (min_idle_s dc * 1000 + 1)%Z.
Definition phase_distance : Z := (phase_len_ms sc + phase_gap_ms sc)%Z.

Record paced (s : LifeState) (f : ClusterField) : Prop := {
  pc_wf : field_wf f;
  pc_cfg : dream_cfg (cycles f) = dc /\ sync_cfg (cycles f) = sc;
  pc_tick : tempo_ok (tick_ms s);
  pc_restore : forall t, ds_restore_tick (dream_state s) = Some t -> tempo_ok t;
  pc_shared : forall t, sh_restore_tick (shared_state s) = Some t -> tempo_ok t;
  pc_dreams : spaced dream_distance (dream_reports (cycles f)).*1;
  pc_last_dream : forall y, last (dream_reports (cycles f)).*1 = Some y -> (y <= last_start_ms (dream_state s))%Z;
  pc_syncs : spaced phase_distance (sync_reports (cycles f)).*1;
  pc_last_sync : forall y, last (sync_reports (cycles f)).*1 = Some y ->
    (y + phase_len_ms sc <= (if sh_active (shared_state s) then phase_until (shared_state s)
                             else last_phase_end (shared_state s)))%Z;
  pc_end : (last_phase_end (shared_state s) <= now_ms f)%Z
}.

(** What the fields and states of the phases keep. *)
Lemma paced_steady n s s' f f' : paced s f -> steady n f f' -> retimed s s' -> paced s' f'.
Proof.
  intros [Hw [Hd Hs] Ht Hr Hsh Hds Hld Hss Hls He] [Hw' _ Hp] [Rt Rd Rs].
  unfold pace in Hp. injection Hp as E1 E2 E3 E4 E5.
  split; rewrite ?Rd, ?Rs, ?E1, ?E2, ?E3, ?E4, ?E5; auto.
Qed.

Lemma paced_before s f : paced s f -> paced (mark_slowed (restore_tick s)) f.
Proof.
  intros [Hw Hc Ht Hr Hsh Hds Hld Hss Hls He].
  destruct s as [tick em ep lm [last [t|] [|]] sh ep']; cbn in *; split; cbn; try done; by apply Hr.
Qed.

(** The tick, and the end of a phase that is over. *)
Lemma paced_tick i s f :
  paced s f -> life_room f ->
  let f' := fst (tick_all (in_order i) (tick_ms s) (in_variation i) f) in
  paced (end_phase (now_ms f') s) f' /\ (now_ms f <= now_ms f' <= now_ms f + 800)%Z /\
  (next_id (graph f') + 4 < u64_size)%Z.
Proof.
  intros [Hw [Hd Hs] Ht Hr Hsh Hds Hld Hss Hls He] [Hroom Hnow] f'.
  destruct (tick_all_spec (in_order i) (tick_ms s) (in_variation i) f Hw ltac:(lia)) as (Hw' & Hn' & Hset & _).
  fold f' in Hw', Hn', Hset. apply pace_setup in Hset. unfold pace in Hset. injection Hset as E1 E2 E3 E4 E5.
  cbn in E1, E2, E3, E4, E5. rewrite Hs in Hnow. unfold tempo_ok in Ht.
  assert (now_ms f' = now_ms f + tick_ms s)%Z as En by (rewrite E1; unfold u64_saturating_add; lia).
  split; [| lia]. unfold end_phase.
  destruct (sh_active (shared_state s)) eqn:Ea; cbn [andb].
  - destruct (Z.leb_spec (phase_until (shared_state s)) (now_ms f')) as [Hp | Hp].
    + assert (tempo_ok (tick_ms match sh_restore_tick (shared_state s) with
        | Some original => set_tick original (set_shared_state (mkShared false (phase_until (shared_state s)) (now_ms f') None) s)
        | None => set_shared_state (mkShared false (phase_until (shared_state s)) (now_ms f') None) s end)) as Ht'
        by (destruct (sh_restore_tick (shared_state s)) as [t|] eqn:Er; [by apply Hsh | done]).
      destruct (sh_restore_tick (shared_state s)) as [t|]; split; cbn; rewrite ?E2, ?E3, ?E4, ?E5; try done; try lia;
        intros y Hy; specialize (Hls y Hy); lia.
    + split; rewrite ?E2, ?E3, ?E4, ?E5; try done; [| lia]. intros y Hy. rewrite Ea. by apply Hls.
  - split; rewrite ?E2, ?E3, ?E4, ?E5; try done; [| lia]. intros y Hy. rewrite Ea. by apply Hls.
Qed.

Lemma paced_dream i m r :
  paced (rd_state r) (rd_field r) -> paced (rd_state (dream_phase i m r)) (rd_field (dream_phase i m r)).
Proof.
  intros Hp. destruct (dream_phase_spec i m r (pc_wf _ _ Hp)) as [Hl [[Hst Hrt] | Hdr]]; [by eapply paced_steady |].
  destruct Hdr as (Hdue & Htick & Hshared & Hds'). destruct Hl as (Hw' & _ & ds & Hpace & Hlog).
  destruct Hp as [Hw [Hd Hs] Ht Hr Hsh Hds Hld Hss Hls He].
  unfold pace in Hpace. injection Hpace as E1 E2 E3 E4 E5.
  unfold dream_due in Hdue. apply andb_true_iff in Hdue as [_ Hidle%Z.ltb_lt]. rewrite Hd in Hidle. unfold u64_saturating_sub in Hidle.
  split; rewrite ?Hshared, ?Hds', ?E1, ?E2, ?E3, ?E5; auto.
  - cbn. intros t [= <-]. destruct (ds_restore_tick _) as [t|] eqn:Er; [by apply Hr | done].
  - rewrite E4. destruct Hlog as [-> | [rep ->]]; [done |]. apply spaced_log; [done |]. cbn.
    intros y Hy. specialize (Hld y Hy). unfold dream_distance. lia.
  - rewrite E4. cbn. intros y Hy. destruct Hlog as [-> | [rep ->]].
    + specialize (Hld y Hy). lia.
    + rewrite last_log in Hy by lia. cbn in Hy. injection Hy as <-. lia.
Qed.

Lemma paced_collective i m r r' :
  (now_ms (rd_field r) + phase_len_ms sc < u64_max)%Z ->
  paced (rd_state r) (rd_field r) -> collective_phase i m r = Some r' -> paced (rd_state r') (rd_field r').
Proof.
  intros Hroom Hp Hc. destruct (collective_phase_spec i m r r' (pc_wf _ _ Hp) Hc) as [-> | [Hl Hr']]; [done |].
  destruct Hr' as (Hdue & Htick & Hdream & Hact & Huntil & Hend & Hrest). destruct Hl as (Hw' & _ & rep & Hpace).
  destruct Hp as [Hw [Hd Hs] Ht Hr Hsh Hds Hld Hss Hls He].
  unfold pace in Hpace. injection Hpace as E1 E2 E3 E4 E5.
  unfold collective_due in Hdue. apply andb_true_iff in Hdue as [Hna%negb_true_iff Hdue].
  apply andb_true_iff in Hdue as [_ Hgap%Z.leb_le]. rewrite Hs in Hgap, Huntil. unfold u64_saturating_sub in Hgap.
  split; rewrite ?Hdream, ?E1, ?E2, ?E3, ?E4, ?E5; auto.
  - destruct Hrest as (t & -> & Hto); [done |]. by intros ? [= <-].
  - apply spaced_log; [done |]. cbn. intros y Hy. specialize (Hls y Hy). rewrite Hna in Hls. unfold phase_distance. lia.
  - intros y Hy. rewrite last_log in Hy by lia. cbn in Hy. injection Hy as <-. rewrite Hact, Huntil.
    unfold u64_saturating_add. lia.
  - by rewrite Hend.
Qed.

Lemma paced_round i s f s' f' out :
  paced s f -> life_room f -> life_round i s f = Some (s', f', out) -> paced s' f'.
Proof.
  intros Hp Hroom Hr. unfold life_round in Hr. apply paced_before in Hp.
  set (s1 := mark_slowed (restore_tick s)) in *. destruct (paced_tick i s1 f Hp Hroom) as (K1 & Hnow & Hnext).
  destruct (tick_all (in_order i) (tick_ms s1) (in_variation i) f) as [f1 events]. cbn [fst] in *.
  set (s2 := end_phase (now_ms f1) s1) in *. set (s3 := set_elapsed_metrics _ s2) in *.
  destruct (partial_phase i s3 f1) as [s4 payload] eqn:Ep.
  assert (retimed s2 s4) as Hrt.
  { unfold partial_phase in Ep. destruct (5000 <=? _)%Z; injection Ep as <- _; by split. }
  assert (paced s4 f1) as K2 by (eapply paced_steady; [exact K1 | apply steady_refl, (pc_wf _ _ K1) | exact Hrt]).
  destruct (metrics_phase_steady i (mkRound s4 f1 events []) (pc_wf _ _ K2) Hnext) as [Hst Hrm].
  set (r := metrics_phase i _) in *. assert (paced (rd_state r) (rd_field r)) as K3 by by eapply paced_steady.
  assert (forall r', match last_metrics (rd_state r) with
    | Some metrics => collective_phase i metrics (dream_phase i metrics r) | None => Some r end = Some r' ->
    paced (rd_state r') (rd_field r')) as Hlast.
  { intros r' Hr'. destruct (last_metrics (rd_state r)) as [m|]; [| by injection Hr' as <-].
    eapply paced_collective; [| apply (paced_dream i m r K3) | exact Hr'].
    destruct (dream_phase_spec i m r (pc_wf _ _ K3)) as [(_ & _ & ds & Hpd & _) _].
    pose proof (sd_pace _ _ _ Hst) as Hpr. unfold pace in Hpd, Hpr. injection Hpd as -> _ _ _ _. injection Hpr as -> _ _ _ _.
    cbn [rd_field]. destruct Hroom as [_ Hroom]. rewrite (proj2 (pc_cfg _ _ Hp)) in Hroom. lia. }
  destruct (match last_metrics (rd_state r) with Some _ => _ | None => _ end) as [r'|]; [| done].
  specialize (Hlast r' eq_refl). by injection Hr as <- <- _.
Qed.

Lemma paced_run p q : rtc quiet_step p q -> paced p.1 p.2 -> paced q.1 q.2.
Proof.
  induction 1 as [| p1 p2 p3 Hs _ IH]; [done |]. intros Hp. apply IH.
  destruct Hs as [i s f s' f' out Hroom Hr | o op s f Hc Hroom]; cbn [fst snd] in *; [by eapply paced_round |].
  destruct (field_apply_sound o op f (pc_wf _ _ Hp) Hroom) as [n Hsound].
  eapply (paced_steady n s s); [exact Hp | | apply retimed_refl].
  eapply steady_sound; [exact Hsound |]. apply client_pace; [apply Hp | done | done].
Qed.
End run.

(** ** Any client *)
Lemma tempo_retimed s s' f f' : tempo s f -> retimed s s' -> field_wf f' -> tempo s' f'.
Proof. intros [Hw Ht Hr Hs] [Rt Rd Rs] Hw'. split; rewrite ?Rd, ?Rs; auto. Qed.
Lemma tempo_before s f : tempo s f -> tempo (mark_slowed (restore_tick s)) f.
Proof.
  intros [Hw Ht Hr Hs]. destruct s as [tick em ep lm [last [t|] [|]] sh ep']; cbn in *; split; cbn; try done; by apply Hr.
Qed.
Lemma tempo_end now s f : tempo s f -> tempo (end_phase now s) f.
Proof.
  intros [Hw Ht Hr Hs]. unfold end_phase. destruct (_ && _); [| done]. cbv zeta.
  destruct (sh_restore_tick (shared_state s)) as [t|] eqn:E; split; cbn; auto; done.
Qed.
Lemma before_states s :
  last_start_ms (dream_state (mark_slowed (restore_tick s))) = last_start_ms (dream_state s) /\
  shared_state (mark_slowed (restore_tick s)) = shared_state s.
Proof. by destruct s as [tick em ep lm [last [t|] [|]] sh ep']. Qed.
Lemma end_phase_states now s :
  dream_state (end_phase now s) = dream_state s /\
  sh_active (shared_state (end_phase now s)) = still_shared s now /\
  last_phase_end (shared_state (end_phase now s)) =
    (if sh_active (shared_state s) && (phase_until (shared_state s) <=? now)%Z then now else last_phase_end (shared_state s)).
Proof.
  unfold end_phase, still_shared. destruct (sh_active (shared_state s)) eqn:Ea; cbn [andb]; [| done].
  destruct (phase_until _ <=? now)%Z; cbn [negb]; [| by rewrite Ea]. by destruct (sh_restore_tick (shared_state s)).
Qed.

Lemma dream_phase_pace i m r :
  tempo (rd_state r) (rd_field r) ->
  let r1 := dream_phase i m r in
  tempo (rd_state r1) (rd_field r1) /\ dream_pace (rd_state r) (rd_field r) (rd_state r1) (rd_field r1) /\
  shared_state (rd_state r1) = shared_state (rd_state r) /\ now_ms (rd_field r1) = now_ms (rd_field r) /\
  sync_cfg (cycles (rd_field r1)) = sync_cfg (cycles (rd_field r)) /\
  sync_reports (cycles (rd_field r1)) = sync_reports (cycles (rd_field r)).
Proof.
  intros Hp r1. destruct (dream_phase_spec i m r (tm_wf _ _ Hp)) as [(Hw' & _ & ds & Hpace & Hlog) Hcase]. fold r1 in Hw', Hpace, Hcase.
  unfold pace in Hpace. injection Hpace as E1 E2 E3 E4 E5. unfold dream_pace. rewrite E1, E3, E4, E5.
  destruct Hcase as [[Hst Hrt] | (Hdue & Htick & Hshared & Hds')].
  - pose proof (sd_pace _ _ _ Hst) as Hp'. unfold pace in Hp'. injection Hp' as _ _ _ E4' _. destruct Hrt as [Rt Rd Rs].
    split_and!; try done; [by eapply tempo_retimed |]. left. rewrite Rd. split; congruence.
  - unfold dream_due in Hdue. apply andb_true_iff in Hdue as [_ Hidle%Z.ltb_lt]. destruct Hp as [Hw Ht Hr Hs].
    rewrite Hshared, Hds'. split_and!; try done.
    + split; rewrite ?Hshared, ?Hds'; auto. cbn. intros t [= <-].
      destruct (ds_restore_tick _) as [t|] eqn:Er; [by apply Hr | done].
    + right. split_and!; [done | done |]. destruct Hlog as [-> | [rep ->]]; [by left | right; by exists rep].
Qed.

(** Whether a phase of a round began a collective dream. *)
Definition phase_began (r r' : Round) : Prop :=
  last_phase_end (shared_state (rd_state r')) = last_phase_end (shared_state (rd_state r)) /\
  (sh_active (shared_state (rd_state r')) = sh_active (shared_state (rd_state r)) /\
   sync_reports (cycles (rd_field r')) = sync_reports (cycles (rd_field r)) \/
   sh_active (shared_state (rd_state r)) = false /\ sh_active (shared_state (rd_state r')) = true /\
   (phase_gap_ms (sync_cfg (cycles (rd_field r)))
    <= u64_saturating_sub (now_ms (rd_field r)) (last_phase_end (shared_state (rd_state r))))%Z /\
   phase_until (shared_state (rd_state r'))
   = u64_saturating_add (now_ms (rd_field r)) (phase_len_ms (sync_cfg (cycles (rd_field r)))) /\
   exists rep, sync_reports (cycles (rd_field r'))
     = last_n 16 (sync_reports (cycles (rd_field r)) ++ [(now_ms (rd_field r), rep)])).

Lemma collective_phase_pace i m r r' :
  tempo (rd_state r) (rd_field r) -> collective_phase i m r = Some r' ->
  tempo (rd_state r') (rd_field r') /\ now_ms (rd_field r') = now_ms (rd_field r) /\
  dream_state (rd_state r') = dream_state (rd_state r) /\
  dream_reports (cycles (rd_field r')) = dream_reports (cycles (rd_field r)) /\ phase_began r r'.
Proof.
  intros Hp Hc. destruct (collective_phase_spec i m r r' (tm_wf _ _ Hp) Hc) as [-> | [Hl Hr']].
  { split_and!; try done. split; [done | by left]. }
  destruct Hr' as (Hdue & Htick & Hdream & Hact & Huntil & Hend & Hrest). destruct Hl as (Hw' & _ & rep & Hpace).
  destruct Hp as [Hw Ht Hr Hs]. unfold pace in Hpace. injection Hpace as E1 E2 E3 E4 E5.
  unfold collective_due in Hdue. apply andb_true_iff in Hdue as [Hna%negb_true_iff Hdue].
  apply andb_true_iff in Hdue as [_ Hgap%Z.leb_le].
  unfold phase_began. rewrite Hdream, Hend, Hact, Huntil, Hna, E1, E4, E5. split_and!; try done.
  - split; rewrite ?Hdream; auto. destruct Hrest as (t & -> & Hto); [done |]. by intros ? [= <-].
  - right. split_and!; try done. by exists rep.
Qed.

Lemma tempo_round i s f s' f' out :
  tempo s f -> life_room f -> life_round i s f = Some (s', f', out) ->
  tempo s' f' /\ dream_pace s f s' f' /\ phase_pace s f s' f'.
Proof.
  intros Hp Hroom Hr. destruct (round_parts i s f s' f' out (tm_wf _ _ Hp) Hroom Hr) as (r & r1 & r' & K1 & K2 & K3 & K4 & -> & ->).
  set (s1 := mark_slowed (restore_tick s)) in *.
  destruct (tick_all_spec (in_order i) (tick_ms s1) (in_variation i) f (tm_wf _ _ Hp) ltac:(destruct Hroom; lia)) as (Hw1 & _ & Hset & _).
  set (f1 := fst (tick_all _ _ _ f)) in *. apply pace_setup in Hset. unfold pace in Hset. injection Hset as _ E2 E3 E4 E5.
  cbn in E2, E3, E4, E5. destruct (before_states s) as [Hb1 Hb2]. fold s1 in Hb1, Hb2.
  destruct (end_phase_states (now_ms f1) s1) as (He1 & He2 & He3). unfold still_shared in He2. rewrite Hb2 in He2, He3.
  assert (tempo (rd_state r) (rd_field r)) as Tr.
  { eapply tempo_retimed; [apply tempo_end, (tempo_before s f1) | exact K1 | apply K2].
    destruct Hp as [_ Ht Hd Hs]. by split. }
  pose proof (sd_pace _ _ _ K2) as Hpr. unfold pace in Hpr. injection Hpr as R1 R2 R3 R4 R5.
  rewrite E2 in R2. rewrite E3 in R3. rewrite E4 in R4. rewrite E5 in R5.
  destruct K1 as [_ Kd Ks]. rewrite <- Ks in He2, He3. rewrite <- Kd in He1. clear Ks Kd K2 E2 E3 E4 E5 Hw1.
  assert (tempo (rd_state r1) (rd_field r1) /\ dream_pace (rd_state r) (rd_field r) (rd_state r1) (rd_field r1) /\
    shared_state (rd_state r1) = shared_state (rd_state r) /\ now_ms (rd_field r1) = now_ms (rd_field r) /\
    sync_cfg (cycles (rd_field r1)) = sync_cfg (cycles (rd_field r)) /\
    sync_reports (cycles (rd_field r1)) = sync_reports (cycles (rd_field r))) as (T1 & D1 & S1 & N1 & C1 & L1).
  { destruct K3 as [-> | [m ->]]; [| by apply dream_phase_pace]. split_and!; try done. by left. }
  assert (tempo (rd_state r') (rd_field r') /\ now_ms (rd_field r') = now_ms (rd_field r1) /\
    dream_state (rd_state r') = dream_state (rd_state r1) /\
    dream_reports (cycles (rd_field r')) = dream_reports (cycles (rd_field r1)) /\
    phase_began r1 r') as (T2 & N2 & D2 & L2 & P2).
  { destruct K4 as [<- | [m Hm]]; [| by eapply collective_phase_pace]. split_and!; try done. split; [done | by left]. }
  split; [done |]. destruct P2 as [P2 P3]. split.
  - unfold dream_pace in *. rewrite D2, L2, N2, R2, R4, He1, Hb1 in *. exact D1.
  - split; [by rewrite P2, S1, He3, N2, N1, R1 |].
    unfold still_shared. rewrite N2, N1, R1, <- He2. rewrite S1, N1, C1, L1, R1, R3, R5 in P3. rewrite P2, S1. exact P3.
Qed.

Lemma tempo_run p q : rtc life_step p q -> tempo p.1 p.2 -> tempo q.1 q.2.
Proof.
  induction 1 as [| p1 p2 p3 Hs _ IH]; [done |]. intros Hp. apply IH.
  destruct Hs as [i s f s' f' out Hroom Hr | o op s f Hroom]; cbn [fst snd] in *.
  - by apply (tempo_round i s f s' f' out).
  - destruct (field_apply_sound o op f (tm_wf _ _ Hp) Hroom) as [n Hsound].
    eapply tempo_retimed; [exact Hp | apply retimed_refl | apply Hsound].
Qed.

Lemma quiet_life p q : rtc quiet_step p q -> rtc life_step p q.
Proof.
  intros Hr. eapply rtc_subrel; [| exact Hr]. intros ? ? []; [by eapply LifeRound | by eapply LifeClient].
Qed.

(** C29: the life loop keeps its pace. Its rounds and any operations of its clients interleave in any
    order. At every point of every run the tick is between 80 and 800 ms and the field is well formed.
    In every round, by the configuration at its beginning: the loop begins a dream only when more than
    [min_idle_s] seconds have passed since the last dream it began itself, at most one dream is logged,
    and the dream is logged only by a round that began it; a collective dream is logged exactly by the
    round that begins a phase, which happens only when no phase runs and [phase_gap_ms] have passed since
    the end of the last, and the phase runs for [phase_len_ms]. Where the logs are empty at the start
    and the clients neither tick nor dream nor configure dreams themselves, the dreams of the log are so
    far apart, and so are the collective dreams. The clock and the identifiers are given room in the
    u64 range at each step. *)
Theorem life_loop_paced j f0 tick epoch s f :
  rtc field_step (set_journal j ClusterField_new) f0 -> (80 <= tick <= 800)%Z ->
  rtc life_step (LifeState_new tick epoch, f0) (s, f) ->
  (80 <= tick_ms s <= 800)%Z /\ field_wf f /\
  (forall i s' f' out, life_room f -> life_round i s f = Some (s', f', out) ->
   dream_pace s f s' f' /\ phase_pace s f s' f') /\
  (dream_reports (cycles f0) = [] -> sync_reports (cycles f0) = [] -> (0 <= now_ms f0)%Z ->
   (0 <= min_idle_s (dream_cfg (cycles f0)))%Z ->
   (0 <= phase_len_ms (sync_cfg (cycles f0)) /\ 0 <= phase_gap_ms (sync_cfg (cycles f0)))%Z ->
   rtc quiet_step (LifeState_new tick epoch, f0) (s, f) ->
   spaced (min_idle_s (dream_cfg (cycles f0)) * 1000 + 1) (dream_reports (cycles f)).*1 /\
   spaced (phase_len_ms (sync_cfg (cycles f0)) + phase_gap_ms (sync_cfg (cycles f0))) (sync_reports (cycles f)).*1).
Proof.
  intros Hreach Htick Hrun.
  assert (tempo s f) as Hp by (apply (tempo_run _ _ Hrun); split; [by eapply reach_wf | done..]).
  split_and!; [apply Hp | apply Hp | apply Hp | |].
  { intros i s' f' out Hroom Hr. by apply (tempo_round i s f s' f' out). }
  intros Hd Hs Hnow Hdc Hsc Hquiet.
  assert (paced (dream_cfg (cycles f0)) (sync_cfg (cycles f0)) s f) as Hq.
  { apply (paced_run _ _ Hdc Hsc _ _ Hquiet). split; cbn; try done.
    - by eapply reach_wf.
    - rewrite Hd. constructor.
    - by rewrite Hd.
    - rewrite Hs. constructor.
    - by rewrite Hs. }
  by destruct Hq.
Qed.
End life.

(** ** The journal of a round

    Whatever a round of the loop does to the field it tells the journal, except for a cell with a NaN
    energy that a trim drops. *)
Section sound.
Context `{UnicodeCase, SeedRng, FloatMath, LifeEnv}.

(** [sound] steps in a row. *)
Lemma sound_then n m k (P : Prop) f f1 f2 :
  (n + m <= k)%Z -> sound n P f f1 -> (field_wf f1 -> sound m P f1 f2) -> sound k P f f2.
Proof.
  intros Hk K1 K2. specialize (K2 (proj1 K1)). destruct (sound_trans n m P f f1 f2 K1 K2) as (Hw & Hn & Hd).
  split_and!; [done | lia | lia | done].
Qed.
Lemma sound_then0 (P : Prop) f f1 f2 : sound 0 P f f1 -> (field_wf f1 -> sound 0 P f1 f2) -> sound 0 P f f2.
Proof. by apply sound_then. Qed.
Lemma sound_under n (P : Prop) f f' : sound n True f f' -> sound n P f f'.
Proof. intros (Hw & Hn & Hd). split_and!; [done | lia | lia |]. intros _. by apply Hd. Qed.
Lemma sound_refl n P f : (0 <= n)%Z -> field_wf f -> sound n P f f.
Proof. intros Hn Hw. apply ok_sound. eapply ok_weaken; [| by apply ok_refl]. lia. Qed.
Lemma sound_frame P f f' :
  field_wf f -> core f' = core f -> journal f' = journal f -> setup f' = setup f -> sound 0 P f f'.
Proof. intros. by apply ok_sound, ok_frame. Qed.

(** ** Epochs and awakening *)
Lemma auto_reflect_sound took f : field_wf f -> sound 0 True f (fst (auto_reflect took f)).
Proof.
  intros Hw. unfold auto_reflect. destruct (negb _); [by apply sound_refl |].
  destruct (List.find _ _) as [best|]; [| by apply sound_refl]. cbv zeta.
  pose proof (replay_epoch_sound id_order (mirror_timeline f) (ep_id best) (mkReplayConfig "dry" (lit 75 100) 96 (lit 8 10)) took f Hw) as Hr.
  by destruct (replay_epoch _ _ _ _ _ f).
Qed.

Lemma close_epoch_sound kind id start ch rh before after took f :
  field_wf f -> sound 0 True f (fst (close_epoch kind id start ch rh before after took f)).
Proof.
  intros Hw. unfold close_epoch. cbv zeta. set (epoch := record_epoch _ _ _ _ _ _ _ _ _ _ _).
  pose proof (push_epoch_sound epoch f Hw) as K1. pose proof (auto_reflect_sound took _ (proj1 K1)) as K2.
  destruct (auto_reflect took _) as [f2 evs]. eapply sound_then0; [exact K1 |]. by intros _.
Qed.

Lemma rebuild_and_awaken_sound took i s f : field_wf f -> sound 0 True f (rebuild_and_awaken took i s f).1.2.
Proof.
  intros Hw. unfold rebuild_and_awaken. destruct (_ && _); [by apply sound_frame |].
  cbv zeta. set (model := build_model _ _ _ _). set (f1 := set_resonant_model model f).
  assert (sound 0 True f f1) as K1 by by apply sound_frame. eapply sound_then0; [exact K1 |]. intros Hw1.
  assert (sound 0 True f1 (set_trs TrsState_default f1)) as K2 by by apply sound_frame.
  pose proof (ok_awaken model (awakening_cfg (cycles f1)) (trs (control f1)) _ (proj1 K2)) as K3.
  destruct (awaken model _ _ (set_trs TrsState_default f1)) as [[f2 t] report]. cbn [fst snd] in K3.
  eapply sound_then0; [exact K2 |]. intros _. eapply sound_then0; [by apply ok_sound |]. intros Hw2.
  assert (sound 0 True f2 (set_trs t f2)) as K4 by by apply sound_frame. eapply sound_then0; [exact K4 |]. intros Hw3.
  match goal with |- context [close_epoch ?k ?n ?st ?a ?b ?c ?d ?e ?g] =>
    pose proof (close_epoch_sound k n st a b c d e g Hw3) as K5; by destruct (close_epoch k n st a b c d e g) end.
Qed.

(** An epoch that is closed, and the awakening after it. *)
Lemma epoch_then_awaken_sound f0 f1 kind id start ch rh before after took took' i s' :
  sound 0 True f0 f1 ->
  sound 0 True f0 (rebuild_and_awaken took' i s' (fst (close_epoch kind id start ch rh before after took f1))).1.2.
Proof.
  intros K1. eapply sound_then0; [exact K1 |]. intros Hw1. eapply sound_then0; [by apply close_epoch_sound |].
  apply rebuild_and_awaken_sound.
Qed.

(** ** The metrics of a second *)
(** What the hints of a second do to the field: a trim, then a new seed. *)
Lemma apply_hints_field i m s f :
  exists trims wakes : bool,
    let g := if trims then trim_low_energy (in_order i) (in_trim_coins i) f else f in
    snd (apply_hints i (hints (in_hint_coins i) m) s f)
      = if wakes then inject_seed_variation (in_order i) "liminal/wake" (in_bud i) (in_link_coins i) g else g.
Proof.
  exists (f_lt (lit 8 10) (avg_metabolism m)),
    (if (m_cells m <? 3)%Z then fst (in_hint_coins i) else f_lt (lit 6 10) (sleeping_pct m) && snd (in_hint_coins i)).
  cbv zeta. unfold apply_hints, hints.
  assert (forall s h, h = SlowTick \/ h = FastTick -> forall f, exists s', apply_hint i (s, f) h = (s', f)) as Htick.
  { intros s0 h [-> | ->] g; cbn [apply_hint]; [by eexists |]. case_match; by eexists. }
  assert (forall s f (b : bool) h, h = SlowTick \/ h = FastTick ->
    exists s', fold_left (apply_hint i) (if b then [h] else []) (s, f) = (s', f)) as Hif.
  { intros s0 g b h Hh. destruct b; [| by eexists]. cbn [fold_left]. by apply Htick. }
  rewrite !fold_left_app. destruct (Hif s f (f_lt (lit 7 10) (sleeping_pct m)) SlowTick) as [s1 ->]; [by left |].
  assert (fold_left (apply_hint i) (if f_lt (lit 8 10) (avg_metabolism m) then [TrimField] else []) (s1, f)
    = (s1, if f_lt (lit 8 10) (avg_metabolism m) then trim_low_energy (in_order i) (in_trim_coins i) f else f)) as -> by by case_match.
  set (g := if f_lt (lit 8 10) _ then _ else _).
  destruct (Hif s1 g (f_lt (lit 150 1) (avg_latency_ms m)) FastTick) as [s2 ->]; [by right |].
  destruct (m_cells m <? 3)%Z; [by destruct (fst (in_hint_coins i)) |].
  by destruct (f_lt (lit 6 10) (sleeping_pct m) && snd (in_hint_coins i)).
Qed.

Lemma apply_hints_sound i m s f :
  field_wf f -> (next_id (graph f) + 1 < u64_size)%Z ->
  sound 1 (no_nan_energy f = true) f (snd (apply_hints i (hints (in_hint_coins i) m) s f)).
Proof.
  intros Hw Hn. destruct (apply_hints_field i m s f) as (trims & wakes & E). cbv zeta in E. rewrite E. clear E.
  set (g := if trims then _ else f).
  assert (sound 0 (no_nan_energy f = true) f g) as K1.
  { unfold g. destruct trims; [| by apply sound_refl]. destruct (trim_sound (in_order i) (in_trim_coins i) f Hw) as (_ & Hg & Hx & Hl).
    split_and!; [done | lia | lia |]. intros E. by apply Hl, no_nan_energy_spec. }
  apply (sound_then 0 1 1 _ f g); [lia | exact K1 |]. intros Hw1. destruct wakes; [| by apply sound_refl].
  apply ok_sound, inject_ok; [done |]. destruct K1 as (_ & ? & _). lia.
Qed.

Lemma reflex_phase_sound i m f : field_wf f -> sound 0 True f (fst (reflex_phase i m f)).
Proof.
  intros Hw. unfold reflex_phase. destruct (reflex_enabled f); [| by apply sound_refl]. cbv zeta.
  match goal with |- context [record_reflex_snapshot ?o ?s f] =>
    pose proof (ok_reflex_snapshot o s f Hw) as Hr; destruct (record_reflex_snapshot o s f) as [f1 report] end.
  by apply ok_sound.
Qed.

Lemma metrics_phase_sound i r :
  field_wf (rd_field r) -> (next_id (graph (rd_field r)) + 1 < u64_size)%Z ->
  sound 1 (no_nan_energy (rd_field r) = true) (rd_field r) (rd_field (metrics_phase i r)).
Proof.
  destruct r as [s f events out]. cbn [rd_field rd_state]. intros Hw Hn. unfold metrics_phase.
  destruct (1000 <=? elapsed_since_metrics s)%Z; [| by apply sound_refl].
  cbv zeta. set (m := analyze (in_order i) f). set (f1 := set_trs _ f).
  destruct (trs_step (now_ms f1) (observed_load m) (trs (control f1))) as [t output]. set (f2 := set_trs t f1).
  assert (field_wf f2) as Hw2 by by apply (field_wf_core f).
  pose proof (apply_trs_output_ok (now_ms f2) (observed_load m) output f2 Hw2) as K2.
  assert (core (fst (apply_trs_output (now_ms f2) (observed_load m) output f2)) = core f) as Ec.
  { unfold apply_trs_output. cbv zeta. cbn [fst]. by rewrite !core_emit. }
  destruct (apply_trs_output _ _ output f2) as [f3 trs_events]. cbn [fst] in K2, Ec.
  set (s1 := set_tick _ s).
  pose proof (apply_hints_sound i m s1 f3 (os_wf _ _ _ K2) ltac:(rewrite (next_core _ _ Ec); lia)) as K3.
  assert (no_nan_energy f3 = no_nan_energy f) as En by (unfold no_nan_energy; by rewrite (cells_core _ _ Ec)).
  rewrite En in K3. destruct (apply_hints i _ s1 f3) as [s2 f4]. cbn [fst snd] in *.
  pose proof (reflex_phase_sound i m f4 (proj1 K3)) as K4. destruct (reflex_phase i m f4) as [f5 reflected].
  cbn [rd_field fst] in *.
  apply (sound_then 0 1 1 _ f f2); [lia | by apply sound_frame |]. intros _.
  apply (sound_then 0 1 1 _ f2 f3); [lia | by apply ok_sound |]. intros _.
  apply (sound_then 1 0 1 _ f3 f4); [lia | exact K3 |]. intros _. by apply sound_under.
Qed.

(** ** Dreams *)
Lemma dream_phase_sound i m r : field_wf (rd_field r) -> sound 0 True (rd_field r) (rd_field (dream_phase i m r)).
Proof.
  destruct r as [s f events out]. cbn [rd_field]. intros Hw. unfold dream_phase. destruct (dream_due m s f); [| by apply sound_refl].
  cbv zeta. pose proof (dream_cycle_sound (in_order i) (in_took_dream i) f Hw) as K1.
  destruct (run_dream_cycle (in_order i) (in_took_dream i) f) as [f1 [report|]]; cbn [fst] in K1; [| done].
  match goal with |- context [close_epoch ?k ?n ?st ?a ?b ?c ?d ?e f1] =>
    pose proof (epoch_then_awaken_sound f f1 k n st a b c d e) as K2; destruct (close_epoch k n st a b c d e f1) as [f2 told] end.
  cbn [fst] in K2.
  match goal with |- context [rebuild_and_awaken ?t i ?s2 f2] =>
    specialize (K2 t i s2 K1); destruct (rebuild_and_awaken t i s2 f2) as [[s3 f3] awakened] end.
  exact K2.
Qed.

Lemma collective_phase_sound i m r r' :
  field_wf (rd_field r) -> collective_phase i m r = Some r' -> sound 0 True (rd_field r) (rd_field r').
Proof.
  destruct r as [s f events out]. cbn [rd_field]. intros Hw. unfold collective_phase.
  destruct (collective_due m s f); [| intros [= <-]; by apply sound_refl].
  destruct (detect_sync_groups _ _ _ f) as [[|g groups]|]; [intros [= <-]; by apply sound_refl | | done]. cbv zeta.
  pose proof (collective_sound (g :: groups) (sync_cfg (cycles f)) (now_ms f) (in_took_sync i) f Hw) as K1.
  destruct (run_collective_dream _ _ _ _ f) as [f1 report]. cbn [fst] in K1.
  match goal with |- context [close_epoch ?k ?n ?st ?a ?b ?c ?d ?e f1] =>
    pose proof (epoch_then_awaken_sound f f1 k n st a b c d e) as K2; destruct (close_epoch k n st a b c d e f1) as [f2 told] end.
  cbn [fst] in K2.
  match goal with |- context [rebuild_and_awaken ?t i ?s2 f2] =>
    specialize (K2 t i s2 K1); destruct (rebuild_and_awaken t i s2 f2) as [[s3 f3] awakened] end.
  intros [= <-]. exact K2.
Qed.

(** ** A round *)
Definition ticked (i : LifeInput) (s : LifeState) (f : ClusterField) : ClusterField :=
  fst (tick_all (in_order i) (tick_ms (mark_slowed (restore_tick s))) (in_variation i) f).

(** No cell has a NaN energy when a round may trim. *)
Definition round_visible (i : LifeInput) (s : LifeState) (f : ClusterField) : Prop := no_nan_energy (ticked i s f) = true.

Lemma life_round_sound i s f s' f' out :
  field_wf f -> life_room f -> life_round i s f = Some (s', f', out) ->
  exists n, sound n (round_visible i s f) f f'.
Proof.
  intros Hw [Hroom _]. unfold life_round, round_visible, ticked. cbv zeta. set (s0 := mark_slowed (restore_tick s)).
  destruct (tick_all_spec (in_order i) (tick_ms s0) (in_variation i) f Hw ltac:(lia)) as (Hw1 & Hn1 & _ & ds & Hds & _).
  destruct (tick_all (in_order i) (tick_ms s0) (in_variation i) f) as [f1 events]. cbn [fst] in *.
  set (sz := Z.of_nat (size (cells (graph f)))) in *.
  assert (sound sz (no_nan_energy f1 = true) f f1) as K1 by (split_and!; [done | lia | lia | intros _; by exists ds]).
  destruct (partial_phase i _ f1) as [s2 payload].
  pose proof (metrics_phase_sound i (mkRound s2 f1 events []) Hw1 ltac:(cbn; lia)) as K2. cbn [rd_field] in K2.
  set (r1 := metrics_phase i (mkRound s2 f1 events [])) in *.
  assert (sound (sz + 1) (no_nan_energy f1 = true) f (rd_field r1)) as K3 by (eapply sound_then; [reflexivity | exact K1 |]; by intros _).
  destruct (last_metrics (rd_state r1)) as [m|].
  2: { intros [= _ <- _]. by eexists. }
  pose proof (dream_phase_sound i m r1 (proj1 K3)) as K4.
  destruct (collective_phase i m (dream_phase i m r1)) as [r3|] eqn:E3; [| done]. intros [= _ <- _].
  pose proof (collective_phase_sound i m _ r3 (proj1 K4) E3) as K5. exists (sz + 1 + 0)%Z.
  eapply sound_then; [reflexivity | exact K3 |]. intros _. apply sound_under. eapply sound_then0; [exact K4 |]. by intros _.
Qed.
End sound.

(** ** A run *)
#[local] Instance life_case : UnicodeCase := ascii_case.
#[local] Instance life_rng : SeedRng := fun _ => (lit 5 10, lit 2 10, 7%Z).
#[local] Instance life_math : FloatMath := {| f32_ln x := x; f32_exp x := x |}.
#[local] Instance life_env : LifeEnv := {| json_to_vec _ := []; life_blake3 b := b; cbor_to_vec _ := [] |}.

(** Two cells that answered one impulse. *)
Definition demo_setup : list (HashOrder * field_op) :=
  [(id_order, FDreamConfig (mkDreamConfig 1 10000 f1 f0 (lit 9 10) true 8));
   (id_order, FSyncConfig (mkSyncConfig 6000 1000 (lit 5 10) 4 8 (lit 2 10)));
   (id_order, FTick 20000 (fun _ => f0)); (id_order, FAddRoot "calm/joy"); (rev_order, FAddRoot "deep/joy");
   (id_order, FImpulse (mkImpulse Affect "joy" (lit 9 10) 1000 []))].
Definition apply_all (ops : list (HashOrder * field_op)) (f : ClusterField) : ClusterField :=
  fold_left (fun f p => field_apply p.1 p.2 f) ops f.
Fixpoint all_room (ops : list (HashOrder * field_op)) (f : ClusterField) : Prop :=
  match ops with
  | [] => True
  | p :: ops => room p.2 f /\ all_room ops (field_apply p.1 p.2 f)
  end.
Lemma apply_reach ops : forall f, all_room ops f -> rtc field_step f (apply_all ops f).
Proof.
  induction ops as [|[o op] ops IH]; intros f Hr; [done |]. destruct Hr as [Hroom Hr].
  eapply rtc_l; [by apply (FieldStep o op) |]. by apply IH.
Qed.
Definition demo_sleeper : ClusterField := apply_all demo_setup journalled_field.
Lemma demo_sleeper_reached : rtc field_step journalled_field demo_sleeper.
Proof. apply apply_reach. vm_compute. repeat split; (reflexivity || discriminate). Qed.

Definition demo_input : LifeInput :=
  mkInput id_order (fun _ => f0) (false, false) (fun _ => (true, true)) (f0, f0) (fun _ => true) 3 4 (fun _ => 5%Z) None None.

(** A script of rounds ([None]) and client operations. *)
Definition play_one (p : LifeState * ClusterField) (op : option (HashOrder * field_op)) : LifeState * ClusterField :=
  match op with
  | Some (o, op) => (p.1, field_apply o op p.2)
  | None => match life_round demo_input p.1 p.2 with Some (s, f, _) => (s, f) | None => p end
  end.
Definition play (ops : list (option (HashOrder * field_op))) (p : LifeState * ClusterField) : LifeState * ClusterField :=
  fold_left play_one ops p.
Definition playable (p : LifeState * ClusterField) (op : option (HashOrder * field_op)) : Prop :=
  match op with
  | Some (o, op) => client op = true /\ room op p.2
  | None => life_room p.2 /\ (if life_round demo_input p.1 p.2 then true else false) = true
  end.
Fixpoint all_playable (ops : list (option (HashOrder * field_op))) (p : LifeState * ClusterField) : Prop :=
  match ops with
  | [] => True
  | op :: ops => playable p op /\ all_playable ops (play_one p op)
  end.

Lemma play_run ops : forall p, all_playable ops p -> rtc quiet_step p (play ops p).
Proof.
  induction ops as [|op ops IH]; intros p Hp; [done |]. destruct Hp as [Hop Hp]. eapply rtc_l; [| by apply IH].
  destruct p as [s f], op as [[o op]|]; cbn in *.
  - by apply QuietClient; destruct Hop.
  - destruct Hop as [Hroom Hr]. destruct (life_round demo_input s f) as [[[s' f'] out]|] eqn:E; [by eapply QuietRound | done].
Qed.

Definition demo_script : list (option (HashOrder * field_op)) :=
  replicate 14 None ++ [Some (id_order, FImpulse (mkImpulse Affect "joy" (lit 9 10) 1000 [])); Some (rev_order, FQuery Lql.ReflexOn)] ++ replicate 24 None.
Definition demo_life : LifeState * ClusterField := play demo_script (LifeState_new 400 1, demo_sleeper).

Lemma demo_life_run : rtc quiet_step (LifeState_new 400 1, demo_sleeper) demo_life.
Proof. apply play_run. vm_compute. repeat split; (reflexivity || discriminate). Qed.

(** A client that dreams itself, and the round after it. *)
Definition demo_busy : LifeState * ClusterField := play_one demo_life (Some (id_order, FDream 3)).
Definition demo_next : LifeState * ClusterField := play_one demo_busy None.
Lemma client_step o op p : room op p.2 -> life_step p ((play_one p (Some (o, op))).1, (play_one p (Some (o, op))).2).
Proof. destruct p as [s f]. apply LifeClient. Qed.
Lemma demo_busy_run : rtc life_step (LifeState_new 400 1, demo_sleeper) (demo_busy.1, demo_busy.2).
Proof. eapply rtc_r; [exact (quiet_life _ _ demo_life_run) | exact (client_step id_order (FDream 3) demo_life I)]. Qed.
Lemma round_step p : (if life_round demo_input p.1 p.2 then true else false) = true ->
  exists out, life_round demo_input p.1 p.2 = Some ((play_one p None).1, (play_one p None).2, out).
Proof. unfold play_one. destruct (life_round demo_input p.1 p.2) as [[[s' f'] out]|] eqn:E; [by exists out | done]. Qed.

(** Two dreams; the second collective dream has to wait for the end of the gap. A dream of a client is
    none of the loop. *)
Lemma life_loop_paced_witness :
  (dream_reports (cycles demo_life.2)).*1 = [24605; 31293]%Z /\ (sync_reports (cycles demo_life.2)).*1 = [24605%Z] /\
  tick_ms demo_life.1 = 368%Z /\ spaced 1001 (dream_reports (cycles demo_life.2)).*1 /\
  dream_pace demo_busy.1 demo_busy.2 demo_next.1 demo_next.2.
Proof.
  assert (dream_cfg (cycles demo_sleeper) = mkDreamConfig 1 10000 f1 f0 (lit 9 10) true 8) as Ed by by vm_compute.
  assert (sync_cfg (cycles demo_sleeper) = mkSyncConfig 6000 1000 (lit 5 10) 4 8 (lit 2 10)) as Es by by vm_compute.
  assert (dream_reports (cycles demo_sleeper) = []) as E1 by by vm_compute.
  assert (sync_reports (cycles demo_sleeper) = []) as E2 by by vm_compute.
  assert (now_ms demo_sleeper = 20000%Z) as E3 by by vm_compute.
  split_and!; [by vm_compute | by vm_compute | by vm_compute | |].
  - pose proof (life_loop_paced (Some []) demo_sleeper 400 1 demo_life.1 demo_life.2 demo_sleeper_reached ltac:(lia)) as Hl.
    rewrite Ed, Es, E3, <- (surjective_pairing demo_life) in Hl. cbn [min_idle_s phase_len_ms phase_gap_ms] in Hl.
    apply Hl; [by apply quiet_life, demo_life_run | exact E1 | exact E2 | lia | lia | lia | exact demo_life_run].
  - destruct (life_loop_paced (Some []) demo_sleeper 400 1 demo_busy.1 demo_busy.2 demo_sleeper_reached ltac:(lia)
      demo_busy_run) as (_ & _ & Hround & _).
    destruct (round_step demo_busy) as [out Hout]; [by vm_compute |].
    refine (proj1 (Hround demo_input demo_next.1 demo_next.2 out _ Hout)). vm_compute. split; reflexivity.
Defined.
