(* ===== verification/StoreFiles.v ===== *)
(** * The files of a store besides its log: [liminal-store/src/wal.rs], [codec.rs]

    The manifest, the names of snapshots, the directories a store creates and its writer lock. The
    manifest is one file, which [write_manifest] rewrites in place. *)

From stdpp Require Import prelude gmap strings list sorting.
From Stdlib Require Import ZArith Lia.
From S2P Require Import Prelude RustStr Wal Crypto.

(** ** The manifest *)
Record StoreManifest : Type := mkManifest {
  last_snapshot : option string;
  wal_segment : Z;
  wal_position : Z
}.
Definition StoreManifest_default : StoreManifest := mkManifest None 0 0.

(** What the store and its journal can fail with: the log, the serializer, or the file system. *)
Inductive StoreError : Type :=
| LogError (e : WalError)
| CborError (message : string)
| FileError (name : string).

(** [std::fs::read]; [std::fs::write] creates or replaces a file, and refuses a directory. *)
Definition fs_read (d : dir) (name : string) : result bytes StoreError :=
  match file_content d name with
  | Some c => Ok c
  | None => Err (FileError name)
  end.
Definition fs_write (d : dir) (name : string) (b : bytes) : result dir StoreError :=
  match d !! name with
  | Some OtherEntry => Err (FileError name)
  | _ => Ok (<[name := RegularFile b]> d)
  end.

Section manifest.
Context `{Cbor StoreManifest}.

Definition read_manifest (s : Store) : result (option StoreManifest) StoreError :=
  match st_manifest s with
  | None => Ok None
  | Some b =>
      let! m := map_err CborError (from_slice b) in
      Ok (Some m)
  end.

Definition write_manifest (m : StoreManifest) (s : Store) : result Store StoreError :=
  let! b := map_err CborError (to_vec m) in
  Ok (mkStore (st_data s) (st_snap s) (Some b) (st_writer s)).
End manifest.

(** ** Snapshots *)
Definition SNAP_EXTENSION : string := "snap".

Definition snapshot_path (id : Z) : string :=
  of_bytes (fmt_u64_08 id ++ Byte.x2e :: as_bytes SNAP_EXTENSION).

Definition snapshot_of_name (name : string) : option Z :=
  match stem_and_extension name with
  | Some (stem, ext) => if decide (ext = as_bytes SNAP_EXTENSION) then parse_u64 stem else None
  | None => None
  end.

Definition list_snapshots (d : dir) : list Z :=
  let ids :=
    omap (fun '(name, e) =>
            match e with
            | RegularFile _ => snapshot_of_name name
            | OtherEntry => None
            end) (map_to_list d) in
  dedup (merge_sort Z.le ids).

(** [ids.last().copied().unwrap_or(0) + 1], with the wrap-around of a release build. *)
Definition next_snapshot_id (s : Store) : Z :=
  u64_add (default 0%Z (last (merge_sort Z.le (list_snapshots (st_snap s))))) 1.

(** ** Deltas on disk: [codec.rs] *)
Definition encode_delta `{Cbor D} (delta : D) : result bytes StoreError := map_err CborError (to_vec delta).
Definition decode_delta `{Cbor D} (b : bytes) : result D StoreError := map_err CborError (from_slice b).

(** ** Directories: [create_dir_all_durable]

    A path is whether it starts at the root, and its components. The calls of the function are a
    trace: the directories [create_dir_all] makes, and the parents that are synced, in order. *)
Record fpath : Type := mkPath { rooted : bool; parts : list string }.
#[export] Instance fpath_eq_dec : EqDecision fpath.
Proof. solve_decision. Defined.

(** [Path::parent] and [as_os_str().is_empty()]. *)
Definition parent (p : fpath) : option fpath :=
  match parts p with
  | [] => None
  | _ => Some (mkPath (rooted p) (removelast (parts p)))
  end.
Definition path_is_empty (p : fpath) : bool := negb (rooted p) && bool_decide (parts p = []).
Definition dot : fpath := mkPath false ["."].

(** The loop that collects the missing directories, the innermost first. *)
Fixpoint missing_dirs (fuel : nat) (exists_ : fpath -> bool) (current : fpath) : list fpath :=
  match fuel with
  | O => []
  | S fuel' =>
      if exists_ current then []
      else
        current ::
        match parent current with
        | None => []
        | Some up => if path_is_empty up then [] else missing_dirs fuel' exists_ up
        end
  end.

Inductive dir_call : Type :=
| CreateDirAll (p : fpath)
| SyncDirectory (p : fpath).

Definition synced_parent (directory : fpath) : fpath :=
  let up := default dot (parent directory) in
  if path_is_empty up then dot else up.

(** One round per component is enough: every round shortens the path. *)
Definition create_dir_all_durable (exists_ : fpath -> bool) (p : fpath) : list dir_call :=
  let missing := missing_dirs (S (length (parts p))) exists_ p in
  CreateDirAll p :: map (fun d => SyncDirectory (synced_parent d)) (reverse missing).

(** ** The writer lock: [acquire_writer_lock]

    The lock file is created when it is missing; [try_lock_exclusive] decides before the file is
    touched further. *)
Definition WRITER_LOCK_FILE : string := ".liminaldb-writer.lock".

Definition acquire_writer_lock (pid : Z) (held : bool) (root : dir) : dir * result FileHandle WalError :=
  match root !! WRITER_LOCK_FILE with
  | Some OtherEntry => (root, Err (OpenFailed WRITER_LOCK_FILE))
  | entry =>
      let root :=
        match entry with
        | None => <[WRITER_LOCK_FILE := RegularFile []]> root
        | Some _ => root
        end in
      if held then (root, Err WriterLockHeld)
      else
        let line := as_bytes "pid=" ++ fmt_u64 pid ++ [Byte.x0a] in
        (<[WRITER_LOCK_FILE := RegularFile line]> root, Ok (mkHandle WRITER_LOCK_FILE (length line)))
  end.

(** ** Lemmas *)
Lemma snapshot_of_path id : is_u64 id -> snapshot_of_name (snapshot_path id) = Some id.
Proof.
  intros Hs. unfold snapshot_of_name, snapshot_path. pose proof (fmt_u64_08_length id) as Hl.
  rewrite stem_and_extension_app.
  - rewrite decide_True by done. by apply parse_fmt_u64_08.
  - intros E. rewrite E in Hl. cbn in Hl. lia.
  - lia.
  - apply (bool_decide_unpack _). by vm_compute.
Qed.

Lemma fs_read_write d d' name b : fs_write d name b = Ok d' -> fs_read d' name = Ok b.
Proof.
  unfold fs_write, fs_read, file_content. intros Hw. destruct (d !! name) as [[]|]; simplify_eq;
    by rewrite lookup_insert_eq.
Qed.

Lemma elem_of_list_snapshots d id :
  id ∈ list_snapshots d <-> exists name c, d !! name = Some (RegularFile c) /\ snapshot_of_name name = Some id.
Proof.
  unfold list_snapshots. rewrite elem_of_dedup, merge_sort_Permutation, list_elem_of_omap. split.
  - intros ([name [c|]] & Hin & Hx); [| done]. apply elem_of_map_to_list in Hin. by exists name, c.
  - intros (name & c & Hin & Hx). exists (name, RegularFile c). split; [by apply elem_of_map_to_list | done].
Qed.

Lemma last_sorted_max (l : list Z) x : x ∈ l -> exists m, last (merge_sort Z.le l) = Some m /\ (x <= m)%Z.
Proof.
  intros Hx. pose proof (StronglySorted_merge_sort Z.le l) as Hs.
  assert (x ∈ merge_sort Z.le l) as Hin by by rewrite merge_sort_Permutation.
  destruct (merge_sort Z.le l) as [|y k] using rev_ind; [set_solver |]. clear IHk.
  exists y. split; [apply last_snoc |]. apply StronglySorted_app in Hs as (Hle & _ & _).
  apply elem_of_app in Hin as [Hin | ->%list_elem_of_singleton]; [| done]. apply Hle; [done | set_solver].
Qed.

(** A new snapshot overwrites none: its identifier is above every identifier in use, unless the
    identifiers have run out. *)
Lemma next_snapshot_above s id :
  id ∈ list_snapshots (st_snap s) -> (next_snapshot_id s <> 0)%Z -> (0 <= id < u64_size)%Z ->
  (forall k, k ∈ list_snapshots (st_snap s) -> is_u64 k) -> (id < next_snapshot_id s)%Z.
Proof.
  intros Hin Hnz Hid Hall. unfold next_snapshot_id in *.
  destruct (last_sorted_max _ _ Hin) as (m & Hm & Hle). rewrite Hm in *. cbn in *.
  assert (is_u64 m) as Hu.
  { apply Hall. apply last_Some in Hm as [l Hm].
    assert (m ∈ merge_sort Z.le (list_snapshots (st_snap s))) as Hmm by (rewrite Hm; set_solver).
    by rewrite merge_sort_Permutation in Hmm. }
  unfold u64_add, is_u64, u64_size in *.
  destruct (decide (m = 2 ^ 64 - 1)%Z) as [-> | Hne]; [by vm_compute in Hnz |].
  rewrite Z.mod_small by lia. lia.
Qed.

(** Every directory that was missing on the way to [p] has its parent synced. *)
Lemma missing_dirs_prefix fuel exists_ : forall p q,
  length (parts p) < fuel -> (forall a b, exists_ (mkPath (rooted p) (a ++ b)) = true -> exists_ (mkPath (rooted p) a) = true) ->
  rooted q = rooted p -> parts q `prefix_of` parts p -> parts q <> [] -> exists_ q = false ->
  q ∈ missing_dirs fuel exists_ p.
Proof.
  induction fuel as [|fuel IH]; intros p q Hf Hcl Hr [k Hk] Hne Hq; [lia |]. cbn [missing_dirs].
  assert (exists_ p = false) as ->.
  { destruct (exists_ p) eqn:E; [| done]. destruct p as [r ps], q as [rq qs]. cbn in *. subst.
    rewrite (Hcl qs k E) in Hq. done. }
  apply elem_of_cons. destruct k as [|x k] using rev_ind.
  { left. destruct p, q. cbn in *. subst. by rewrite app_nil_r. }
  clear IHk. right. unfold parent. destruct (parts p) as [|y ps] eqn:Ep; [by destruct (parts q), k |].
  rewrite <- Ep in *. rewrite Hk, app_assoc, removelast_last.
  assert (path_is_empty (mkPath (rooted p) (parts q ++ k)) = false) as ->.
  { unfold path_is_empty. cbn. rewrite bool_decide_false; [by rewrite andb_false_r |]. by destruct (parts q). }
  apply IH; try done.
  - rewrite Hk in Hf. cbn. rewrite !length_app in *. cbn in Hf. lia.
  - by exists k.
Qed.

Lemma dirs_synced exists_ p q :
  (forall a b, exists_ (mkPath (rooted p) (a ++ b)) = true -> exists_ (mkPath (rooted p) a) = true) ->
  rooted q = rooted p -> parts q `prefix_of` parts p -> parts q <> [] -> exists_ q = false ->
  SyncDirectory (synced_parent q) ∈ create_dir_all_durable exists_ p.
Proof.
  intros Hcl Hr Hp Hne Hq. unfold create_dir_all_durable. apply elem_of_cons. right.
  apply list_elem_of_In, (in_map (fun d => SyncDirectory (synced_parent d)) _ q), list_elem_of_In, elem_of_reverse.
  apply missing_dirs_prefix; try done. lia.
Qed.

Example dirs_created :
  create_dir_all_durable (fun p => bool_decide (p = mkPath true ["srv"])) (mkPath true ["srv"; "db"; "data"])
  = [CreateDirAll (mkPath true ["srv"; "db"; "data"]); SyncDirectory (mkPath true ["srv"]);
     SyncDirectory (mkPath true ["srv"; "db"])].
Proof. vm_compute. reflexivity. Qed.
