(* ===== verification/Snapshot.v ===== *)
(** * Snapshots of a field: [liminal-store/src/snapshot.rs]

    [create_snapshot] writes an envelope with the cells, the rules and the configuration of a field;
    [load_snapshot] reads it into a seed, and [into_field] makes a field of the seed. The caches
    (index, link tracking) are rebuilt; the views, the traffic and the reports are not part of a
    snapshot. Two types of the envelope have fields that serde skips: [wire] is what is left. *)

From stdpp Require Import prelude gmap strings fin_maps fin_sets list sorting.
From Stdlib Require Import ZArith Lia SpecFloat.
From S2P Require Import Prelude RustStr RustOrd Crypto Float RustText Json NodeCell Trs Seeds Symmetry FieldTypes Feedback Variant Resonant Journal Collections Field FieldOps FieldTick FieldInv FieldReplay FieldSteps FieldAwaken StoreFiles.

Definition RESONANT_SNAPSHOT_LIMIT : Z := 48.
Definition SYNCLOG_SNAPSHOT_LIMIT : nat := 96.
Definition MIRROR_SNAPSHOT_LIMIT : nat := 64.

Record SnapshotEnvelope : Type := mkEnvelope {
  se_now_ms : Z;
  se_next_id : Z;
  se_cells : list CellSnapshot;
  se_rules : list ReflexRule;
  se_next_reflex_id : Z;
  se_trs : option TrsState;
  se_dream : option DreamConfig;
  se_sync : option SyncConfig;
  se_awakening : option AwakeningConfig;
  se_resonant : option ResonantModel;
  se_sync_log : option SyncLog;
  se_last_awaken_tick : Z;
  se_mirror : option MirrorTimeline;
  se_seed_garden : SeedGarden
}.

Record ClusterFieldSeed : Type := mkFieldSeed {
  fs_now_ms : Z;
  fs_next_id : Z;
  fs_cells : list CellSnapshot;
  fs_rules : list ReflexRule;
  fs_next_reflex_id : Z;
  fs_trs : TrsState;
  fs_dream : DreamConfig;
  fs_sync : SyncConfig;
  fs_awakening : AwakeningConfig;
  fs_resonant : ResonantModel;
  fs_sync_log : SyncLog;
  fs_last_awaken_tick : Z;
  fs_mirror : MirrorTimeline;
  fs_seed_garden : SeedGarden
}.

(** [#[serde(skip)]]: the last build and application of a model, and the capacity of a log, are
    read back as their defaults. *)
Definition wire_model (m : ResonantModel) : ResonantModel :=
  mkModel (rm_edges m) (rm_influences m) (rm_tensions m) (rm_coherence m) None None.
Definition wire_log (l : SyncLog) : SyncLog := mkSyncLog (sl_entries l) 0.
Definition wire (e : SnapshotEnvelope) : SnapshotEnvelope :=
  mkEnvelope (se_now_ms e) (se_next_id e) (se_cells e) (se_rules e) (se_next_reflex_id e) (se_trs e) (se_dream e)
    (se_sync e) (se_awakening e) (wire_model <$> se_resonant e) (wire_log <$> se_sync_log e)
    (se_last_awaken_tick e) (se_mirror e) (se_seed_garden e).

(** The law of the serializer at this type: it reads back what is on the wire. *)
Class EnvelopeOk `{Cbor SnapshotEnvelope} : Prop :=
  envelope_read : forall e b, to_vec e = Ok b -> from_slice b = Ok (wire e).

Definition truncate_timeline (timeline : MirrorTimeline) (limit : nat) : MirrorTimeline :=
  if length (mt_epochs timeline) <=? limit then timeline
  else mkTimeline (reverse (take limit (reverse (mt_epochs timeline)))) (built_ms timeline).

(** [snapshot_to_node]: a cell of the seed's parameters, then every field. *)
Definition node_of_snapshot (s : CellSnapshot) : NodeCell :=
  let cell := from_seed (cn_id s) (mkSeedParams (cn_seed_affinity s) (cn_seed_metabolism s) (cn_core_pattern s)) in
  let cell := set_links (cn_links s) cell in
  let cell := set_metabolism (cn_metabolism s) cell in
  let cell := set_affinity (cn_affinity s) cell in
  let cell := set_last_response_ms (cn_last_response_ms s) cell in
  let cell := set_energy (cn_energy s) cell in
  let cell := set_state (cn_state s) cell in
  let cell := set_salience (cn_salience s) cell in
  let cell := if cn_adreno_tag s then mark_adreno cell else cell in
  set_last_recall_ms (cn_last_recall_ms s) cell.

(** The number of the next rule, when the snapshot does not carry one. *)
Definition next_reflex_of (rules : gmap Z ReflexRule) : Z :=
  u64_saturating_add (foldr Z.max 0%Z (map_to_list rules).*1) 1.

Section snapshot.
Context `{UnicodeCase}.
Variable o : HashOrder.

Definition into_field (s : ClusterFieldSeed) : ClusterField :=
  let cs := fold_left (fun cs c => <[c_id c := c]> cs) (map node_of_snapshot (fs_cells s)) (∅ : gmap Z NodeCell) in
  let f := set_next_id (fs_next_id s) (set_now_ms (fs_now_ms s) (set_cells cs ClusterField_new)) in
  let rs := fold_left (fun rs r => <[r_id r := r]> rs) (fs_rules s) (∅ : gmap Z ReflexRule) in
  let next := if (fs_next_reflex_id s =? 0)%Z then next_reflex_of rs else fs_next_reflex_id s in
  let f := set_trs (fs_trs s) (set_rules rs next f) in
  let f := set_sync_config (fs_sync s) (set_dream_config (fs_dream s) f) in
  let f := restore_awakening_state (fs_awakening s) (fs_resonant s) (fs_sync_log s) (fs_last_awaken_tick s) f in
  let f := rebuild_caches o f in
  let f := fold_left (fun f epoch => push_mirror_epoch epoch f) (mt_epochs (fs_mirror s)) f in
  set_seed_garden (fs_seed_garden s) f.

Definition envelope_of (f : ClusterField) : SnapshotEnvelope :=
  mkEnvelope (now_ms f) (next_id (graph f)) (map snapshot_of_cell (hm_values o (cells (graph f))))
    (list_reflex o f) (next_reflex_id (control f)) (Some (trs (control f))) (Some (dream_cfg (cycles f)))
    (Some (sync_cfg (cycles f))) (Some (awakening_cfg (cycles f)))
    (model_truncated RESONANT_SNAPSHOT_LIMIT <$> cached_resonant_model (cycles f))
    (Some (sync_truncated SYNCLOG_SNAPSHOT_LIMIT (sync_log (cycles f)))) (last_awaken_tick (cycles f))
    (Some (truncate_timeline (mirror_timeline f) MIRROR_SNAPSHOT_LIMIT)) (seed_garden f).

Definition create_snapshot `{Cbor SnapshotEnvelope} (f : ClusterField) : result bytes StoreError :=
  map_err CborError (to_vec (envelope_of f)).

Definition seed_of (e : SnapshotEnvelope) : ClusterFieldSeed :=
  mkFieldSeed (se_now_ms e) (se_next_id e) (se_cells e) (se_rules e) (se_next_reflex_id e)
    (default TrsState_default (se_trs e)) (default DreamConfig_default (se_dream e))
    (default SyncConfig_default (se_sync e)) (default AwakeningConfig_default (se_awakening e))
    (default ResonantModel_default (se_resonant e)) (default (mkSyncLog [] 0) (se_sync_log e))
    (se_last_awaken_tick e) (default (mkTimeline [] 0) (se_mirror e)) (se_seed_garden e).

Definition load_snapshot `{Cbor SnapshotEnvelope} (b : bytes) : result ClusterFieldSeed StoreError :=
  let! e := map_err CborError (from_slice b) in
  Ok (seed_of e).
End snapshot.

(** ** Lemmas *)
Lemma node_of_snapshot_eq s : node_of_snapshot s = snapshot_to_node s.
Proof. unfold node_of_snapshot. by destruct s as [? ? ? ? ? ? ? ? ? ? ? [] ?]. Qed.

Lemma nodes_of_cells cs : map node_of_snapshot (map snapshot_of_cell cs) = cs.
Proof.
  rewrite map_map. etrans; [| apply map_id]. apply map_ext. intros c. by rewrite node_of_snapshot_eq, snapshot_roundtrip.
Qed.

(** Insertion of values under their own keys. *)
Lemma insert_all {V} (key : V -> Z) (l : list V) : forall m : gmap Z V,
  NoDup (map key l) ->
  fold_left (fun m v => <[key v := v]> m) l m = list_to_map (map (fun v => (key v, v)) l) ∪ m.
Proof.
  induction l as [|v l IH]; intros m Hn; cbn [fold_left map].
  { by rewrite list_to_map_nil, map_empty_union. }
  apply NoDup_cons in Hn as [Hv Hn]. rewrite IH by done. rewrite list_to_map_cons.
  assert ((list_to_map (map (fun v => (key v, v)) l) : gmap Z V) !! key v = None) as Hnone.
  { apply not_elem_of_list_to_map_1. change (key v ∉ map fst (map (fun v => (key v, v)) l)). by rewrite map_map. }
  rewrite <- insert_union_l. by rewrite insert_union_r.
Qed.

(** A map whose values know their key is its values, in any order. *)
Lemma collect_values {V} (key : V -> Z) (m : gmap Z V) l :
  map_Forall (fun k v => key v = k) m -> l ≡ₚ (map_to_list m).*2 ->
  fold_left (fun m v => <[key v := v]> m) l ∅ = m.
Proof.
  intros Hk Hl.
  assert (map (fun v => (key v, v)) l ≡ₚ map_to_list m) as Hp.
  { etrans; [apply Permutation_map, Hl |]. apply reflexive_eq. rewrite map_map. etrans; [| apply map_id].
    apply map_ext_in. intros [k v] Hin%list_elem_of_In. apply elem_of_map_to_list in Hin. cbn. by rewrite (Hk k v Hin). }
  assert (NoDup (map key l)) as Hn.
  { replace (map key l) with (map fst (map (fun v => (key v, v)) l)) by (rewrite map_map; by apply map_ext).
    rewrite Hp. apply NoDup_fst_map_to_list. }
  rewrite (insert_all key l ∅ Hn), (right_id_L ∅ (∪)).
  rewrite <- (list_to_map_to_list m). apply list_to_map_proper; [| exact Hp].
  change (NoDup (map fst (map (fun v => (key v, v)) l))). by rewrite map_map.
Qed.

(** The rules of a field are stored under their own numbers. *)
Definition rules_keyed (f : ClusterField) : Prop := map_Forall (fun k r => r_id r = k) (rules (control f)).

Lemma push_epochs epochs : forall f, journal f = None ->
  length (mirror_epochs (cycles f)) + length epochs <= MIRROR_EPOCH_LIMIT ->
  fold_left (fun f epoch => push_mirror_epoch epoch f) epochs f
  = put_mirror (mirror_epochs (cycles f) ++ epochs) (mirror_replays (cycles f)) f.
Proof.
  induction epochs as [|e epochs IH]; intros f Hj Hlen; cbn [fold_left].
  { rewrite app_nil_r. by destruct f as [? ? ? ? ? [] ? ? ? ?]. }
  assert (push_mirror_epoch e f = put_mirror (mirror_epochs (cycles f) ++ [e]) (mirror_replays (cycles f)) f) as ->.
  { unfold push_mirror_epoch, emit. rewrite Hj. rewrite last_n_id; [done |]. rewrite length_app. cbn in *. lia. }
  rewrite IH; [| done | cbn; rewrite length_app; cbn in *; lia]. cbn. by rewrite <- app_assoc.
Qed.

(** ** What a snapshot preserves *)
Section restore.
Context `{UnicodeCase}.
Variable o : HashOrder.

(** [on_graph] swallows the caches. *)
Lemma register_link_graph a b f : exists u, register_link a b f = on_graph u f.
Proof.
  unfold register_link. destruct (link_usage (graph f) !! (a, b)), (link_scores _ !! (a, b)).
  - exists (fun g => g). by destruct f.
  - by eexists.
  - by eexists.
  - by eexists (fun g => _).
Qed.

Lemma graph_fold {A} (step : ClusterField -> A -> ClusterField) l :
  (forall f x, exists u, step f x = on_graph u f) -> forall f, exists u, fold_left step l f = on_graph u f.
Proof.
  intros Hs. induction l as [|x l IH]; intros f; cbn [fold_left]; [exists (fun g => g); by destruct f |].
  destruct (Hs f x) as [u ->]. destruct (IH (on_graph u f)) as [v ->]. by exists (fun g => v (u g)).
Qed.

Lemma rebuild_graph f : exists u, rebuild_index o f = on_graph u f.
Proof.
  unfold rebuild_index. destruct (graph_fold (fun f id => ensure_link_tracking o id (update_index_for id f))
    (hm_keys o (cells (graph f)))) with (f := set_index ∅ f) as [u Hu].
  - intros g id.
    assert (exists u, update_index_for id g = on_graph u g) as [u ->].
    { unfold update_index_for. destruct (cells (graph g) !! id); [by eexists | exists (fun x => x); by destruct g]. }
    unfold ensure_link_tracking. destruct (cells _ !! id) as [c|]; [| by exists u].
    destruct (graph_fold (fun f to => register_link id to f) (hs_iter o (c_links c))) with (f := on_graph u g) as [v ->];
      [intros; apply register_link_graph |]. by exists (fun x => v (u x)).
  - rewrite Hu. by eexists (fun g => u _).
Qed.

Definition clamp_sync (cfg : SyncConfig) : SyncConfig :=
  set_weight_xfer (f32_clamp (weight_xfer cfg) (lit 5 100) (lit 5 10)) cfg.

(** The number the next rule gets. *)
Definition reflex_number (s : ClusterFieldSeed) (rs : gmap Z ReflexRule) : Z :=
  if (fs_next_reflex_id s =? 0)%Z then next_reflex_of rs else fs_next_reflex_id s.

Lemma into_field_spec s cs rs :
  fold_left (fun cs c => <[c_id c := c]> cs) (map node_of_snapshot (fs_cells s)) ∅ = cs ->
  fold_left (fun rs r => <[r_id r := r]> rs) (fs_rules s) ∅ = rs ->
  cells_wf cs (fs_next_id s) -> length (mt_epochs (fs_mirror s)) <= MIRROR_EPOCH_LIMIT ->
  exists g,
    into_field o s
    = mkField (fs_now_ms s) None g (traffic ClusterField_new)
        (mkControl rs (reflex_number s rs) (fs_trs s) HarmonyTuning_default (ReflexEngine_new 2000)
           (ReflexState_new ReflexCfg_default) [] ∅ None)
        (mkCycles 0 (fs_dream s) [] (clamp_sync (fs_sync s)) [] (Some (fs_resonant s)) (fs_resonant s)
           (fs_awakening s) (fs_sync_log s) (fs_last_awaken_tick s) (mt_epochs (fs_mirror s)) [])
        Views.ViewRegistry_new 0 (fs_seed_garden s) VariantManifold_default /\
    cells g = cs /\ next_id g = fs_next_id s /\ index_exact cs (index g).
Proof.
  intros Ecs Ers Hw Hm. unfold into_field. rewrite Ecs, Ers.
  set (f1 := restore_awakening_state _ _ _ _ _).
  destruct (rebuild_index_spec o f1 Hw) as (Hcore & Hc & Hn & Hj & _).
  destruct (rebuild_graph f1) as [u Hu]. unfold rebuild_caches. rewrite Hu in *.
  exists (u (graph f1)). split_and!; [| exact Hc | exact Hn |].
  - by rewrite push_epochs.
  - unfold core in Hcore. rewrite Hc in Hcore. apply Hcore.
Qed.
End restore.

Lemma truncate_last_n timeline limit :
  mt_epochs (truncate_timeline timeline limit) = last_n limit (mt_epochs timeline).
Proof.
  unfold truncate_timeline. destruct (Nat.leb_spec (length (mt_epochs timeline)) limit); [by rewrite last_n_id |].
  cbn. unfold last_n. by rewrite take_reverse, reverse_involutive.
Qed.

Section roundtrip.
Context `{UnicodeCase}.

(** The seed of a snapshot of [f], and the field it makes. *)
Definition snapshot_seed (o : HashOrder) (f : ClusterField) : ClusterFieldSeed := seed_of (wire (envelope_of o f)).

Lemma snapshot_field o o' f : field_wf f -> rules_keyed f ->
  exists g,
    into_field o' (snapshot_seed o f)
    = mkField (now_ms f) None g (traffic ClusterField_new)
        (mkControl (rules (control f)) (reflex_number (snapshot_seed o f) (rules (control f))) (trs (control f))
           HarmonyTuning_default (ReflexEngine_new 2000) (ReflexState_new ReflexCfg_default) [] ∅ None)
        (mkCycles 0 (dream_cfg (cycles f)) [] (clamp_sync (sync_cfg (cycles f))) []
           (Some (fs_resonant (snapshot_seed o f))) (fs_resonant (snapshot_seed o f)) (awakening_cfg (cycles f))
           (mkSyncLog (last_n SYNCLOG_SNAPSHOT_LIMIT (sl_entries (sync_log (cycles f)))) 0) (last_awaken_tick (cycles f))
           (last_n MIRROR_SNAPSHOT_LIMIT (mirror_epochs (cycles f))) [])
        Views.ViewRegistry_new 0 (seed_garden f) VariantManifold_default /\
    cells g = cells (graph f) /\ next_id g = next_id (graph f) /\ index_exact (cells (graph f)) (index g).
Proof.
  intros [[Hcw Hidx] Ha] Hr.
  destruct (into_field_spec o' (snapshot_seed o f) (cells (graph f)) (rules (control f))) as (g & -> & Hc & Hn & Hi).
  - cbn [snapshot_seed seed_of wire envelope_of fs_cells se_cells]. rewrite nodes_of_cells.
    apply collect_values; [| apply visit_perm]. intros id c E. by destruct (proj2 Hcw id c E).
  - cbn [snapshot_seed seed_of wire envelope_of fs_rules se_rules]. apply collect_values; [exact Hr |].
    unfold list_reflex. rewrite sort_by_perm. apply visit_perm.
  - exact Hcw.
  - change (length (mt_epochs (truncate_timeline (mirror_timeline f) MIRROR_SNAPSHOT_LIMIT)) <= MIRROR_EPOCH_LIMIT).
    rewrite truncate_last_n. etrans; [apply last_n_length |]. unfold MIRROR_SNAPSHOT_LIMIT, MIRROR_EPOCH_LIMIT. lia.
  - exists g. split_and!; try done.
    change (mt_epochs (fs_mirror (snapshot_seed o f)))
      with (mt_epochs (truncate_timeline (mirror_timeline f) MIRROR_SNAPSHOT_LIMIT)).
    by rewrite truncate_last_n.
Qed.

Lemma load_created `{Cbor SnapshotEnvelope, !EnvelopeOk} o f b :
  create_snapshot o f = Ok b -> load_snapshot b = Ok (snapshot_seed o f).
Proof.
  unfold create_snapshot, load_snapshot. intros Hb. apply map_err_ok in Hb. by rewrite (envelope_read _ _ Hb).
Qed.
End roundtrip.

(** * The cluster field: a field restored by replay

    What replay of a journal on top of a well-formed field gives: [explains ds b f] says that the
    deltas [ds] lead from the durable part of [b] to that of [f]; then the replay of [ds] on [b] is
    well formed and has the durable part of [f] ([replay_restores]). The durable part is the
    skeletons of the cells, the next identifier and the [plan]: clock, rules (with the tokens in
    lower case), next rule number and configuration. *)

#[local] Arguments clamp_sync : simpl never.

(** Lower-casing a string twice is lower-casing it once. *)
Class CaseStable `{UnicodeCase} : Prop := lower_twice : forall s, to_lowercase (to_lowercase s) = to_lowercase s.

Section restore.
Context `{UnicodeCase, !CaseStable}.

(** ** The durable part *)
Definition Plan : Type := Z * gmap Z ReflexRule * Z * DreamConfig * SyncConfig.
Definition plan (s : Setup) : Plan :=
  let '(now, rs, next, dream, sync, _) := s in (now, lower_rule <$> rs, next, dream, clamp_sync sync).

Lemma lower_rule_twice r : lower_rule (lower_rule r) = lower_rule r.
Proof. unfold lower_rule. cbn. by rewrite lower_twice. Qed.

Lemma plan_tell s : plan (tell s) = plan s.
Proof.
  destruct s as [[[[[now rs] next] dream] sync] l]. cbn. rewrite <- map_fmap_compose. do 4 f_equal.
  apply map_fmap_ext. intros k r _. apply lower_rule_twice.
Qed.

Lemma plan_effect d s s' : plan s = plan s' -> plan (setup_effect d s) = plan (setup_effect d s').
Proof.
  destruct s as [[[[[now rs] next] dream] sync] l], s' as [[[[[now' rs'] next'] dream'] sync'] l'].
  cbn [plan]. intros [[[[-> Hrs]%pair_eq ->]%pair_eq ->]%pair_eq Hsync]%pair_eq. destruct d; cbn [plan setup_effect]; rewrite ?Hrs, ?Hsync; try done.
  - by rewrite !fmap_insert, Hrs.
  - by rewrite !fmap_delete, Hrs.
Qed.

Lemma plan_effects ds : forall s s', plan s = plan s' -> plan (setup_effects ds s) = plan (setup_effects ds s').
Proof.
  unfold setup_effects. induction ds as [|d ds IH]; intros s s' Hs; [done |]. cbn. by apply IH, plan_effect.
Qed.

(** Rules are stored under their numbers, and the next number is positive. *)
Definition setup_ok (s : Setup) : Prop :=
  let '(_, rs, next, _, _, _) := s in map_Forall (fun k r => r_id r = k) rs /\ (0 < next)%Z.

Lemma setup_ok_effect d s : setup_ok s -> setup_ok (setup_effect d s).
Proof.
  destruct s as [[[[[now rs] next] dream] sync] l]. intros [Hk Hn]. destruct d; cbn in *; try done.
  - split; [| lia]. by apply map_Forall_insert_2.
  - split; [| done]. by apply map_Forall_delete.
Qed.
Lemma setup_ok_effects ds : forall s, setup_ok s -> setup_ok (setup_effects ds s).
Proof.
  unfold setup_effects. induction ds as [|d ds IH]; intros s Hs; [done |]. cbn. by apply IH, setup_ok_effect.
Qed.
Lemma setup_ok_tell s : setup_ok (tell s) <-> setup_ok s.
Proof.
  destruct s as [[[[[now rs] next] dream] sync] l]. cbn. rewrite map_Forall_fmap. done.
Qed.

(** ** The index of a replica *)
Definition own_ids (cs : gmap Z NodeCell) : Prop := map_Forall (fun id c => c_id c = id) cs.

Definition indexed (f : ClusterField) : Prop := own_ids (cells (graph f)) /\ index_exact (cells (graph f)) (index (graph f)).

Lemma indexed_core f f' : core f' = core f -> indexed f -> indexed f'.
Proof. unfold core, indexed. by intros [= -> -> _]. Qed.

Lemma indexed_attach o c f : indexed f -> indexed (attach_cell o c f).
Proof.
  intros [Hown Hidx]. unfold attach_cell. set (f1 := set_cells _ f).
  assert (cells (graph f1) !! c_id c = Some c) as E by apply lookup_insert_eq.
  destruct (update_index_spec (c_id c) f1 c E) as (Hc & _ & _ & Ho). set (f2 := update_index_for (c_id c) f1) in *.
  apply (indexed_core f2); [apply core_link_tracking |].
  unfold core in Hc. injection Hc as Hc. split.
  - rewrite Hc. by apply map_Forall_insert_2.
  - intros t id. rewrite Ho, Hc. cbn [f1 cells graph set_cells on_graph index].
    destruct (decide (id = c_id c)) as [-> | Hne]; [by rewrite lookup_insert_eq |].
    rewrite lookup_insert_ne by done. apply Hidx.
Qed.

(** Cells may change as long as their identifiers and patterns stay. *)
Lemma indexed_change f f' :
  indexed f -> index (graph f') = index (graph f) ->
  (forall id, (fun c => (c_id c, core_pattern (c_seed c))) <$> (cells (graph f') !! id)
              = (fun c => (c_id c, core_pattern (c_seed c))) <$> (cells (graph f) !! id)) ->
  indexed f'.
Proof.
  intros [Hown Hidx] Hi Hk. split.
  - intros id c' E. specialize (Hk id). rewrite E in Hk. destruct (cells (graph f) !! id) as [c|] eqn:Ec; [| done].
    cbn in Hk. injection Hk as -> _. exact (Hown id c Ec).
  - intros t id. rewrite Hi, Hidx. specialize (Hk id). unfold tokens_of.
    destruct (cells (graph f) !! id), (cells (graph f') !! id); cbn in Hk; try done. by injection Hk as _ ->.
Qed.

Lemma indexed_update id u f :
  (forall c, c_id (u c) = c_id c /\ core_pattern (c_seed (u c)) = core_pattern (c_seed c)) ->
  indexed f -> indexed (update_cell id u f).
Proof.
  intros Hu Hf. apply (indexed_change f); [done | unfold update_cell; by destruct (_ !! id) |].
  intros i. rewrite cells_update_cell. case_decide; [| done]. subst i. destruct (_ !! id) as [c|]; [| done]. cbn.
  by destruct (Hu c) as [-> ->].
Qed.

Lemma indexed_insert_link a b f : indexed f -> indexed (insert_link a b f).
Proof.
  intros Hf. apply (indexed_change f); [done | |].
  - unfold insert_link. destruct (cells (graph f) !! a); [case_decide |]; [done | | done].
    pose proof (core_register_link a b (set_cells (<[a := set_links (c_links n ∪ {[b]}) n]> (cells (graph f))) f)) as E.
    unfold core in E. by injection E.
  - intros i. rewrite cells_insert_link. case_decide; [| done]. subst i. by destruct (_ !! a).
Qed.

Lemma indexed_rebuild o f : own_ids (cells (graph f)) -> indexed (rebuild_index o f).
Proof.
  intros Hown. unfold rebuild_index.
  destruct (rebuild_loop o (hm_keys o (cells (graph f))) (set_index ∅ f)) as (H1 & _ & _ & _ & H5).
  - apply hm_keys_NoDup.
  - intros id Hid. by apply elem_of_hm_keys in Hid.
  - done.
  - split; [by rewrite H1 |]. intros t id. rewrite H5, H1. case_decide as Hin; [done |]. cbn.
    rewrite elem_of_hm_keys in Hin. destruct (cells (graph f) !! id) eqn:E; [exfalso; eauto | done].
Qed.

Lemma indexed_delta o f d : indexed f -> indexed (apply_delta o f d).
Proof.
  intros Hf. destruct d; cbn [apply_delta]; try exact Hf;
    try (apply indexed_insert_link; exact Hf); try (apply indexed_update; [done | exact Hf]).
  - change (indexed (attach_cell o (snapshot_to_node cell) f)). by apply indexed_attach.
  - change (indexed (attach_cell o (snapshot_to_node child) (insert_link parent (cn_id child) f))).
    by apply indexed_attach, indexed_insert_link.
  - change (indexed (rebuild_index o (set_cells (delete id (cells (graph f))) f))). apply indexed_rebuild.
    destruct Hf as [Hown _]. by apply map_Forall_delete.
  - destruct (cells (graph f) !! from) as [c|] eqn:E; [case_decide |]; [| done | done].
    apply (indexed_change f); [done | done |]. intros i. cbn.
    destruct (decide (i = from)) as [-> |]; [by rewrite lookup_insert_eq, E | by rewrite lookup_insert_ne].
  - destruct hash; exact Hf.
  - destruct hash; [| exact Hf]. cbn. by destruct (last_applied (resonant_model (cycles f))).
Qed.

Lemma indexed_replay ds : forall f, indexed f -> indexed (replay_all ds f).
Proof.
  unfold replay_all. induction ds as [|[o d] ds IH]; intros f Hf; [done |]. cbn. by apply IH, indexed_delta.
Qed.

(** ** Restoring *)
(** The deltas lead from the durable part of [b] to that of [f]. *)
Record leads (ds : list EventDelta) (b f : ClusterField) : Prop := {
  le_cells : forall id, skel <$> (cells (graph f) !! id) = sk_effects ds id (skel <$> (cells (graph b) !! id));
  le_next : next_id (graph f) = next_effects ds (next_id (graph b));
  le_plan : plan (setup f) = plan (setup_effects ds (setup b))
}.
Definition explains (ds : list EventDelta) (b f : ClusterField) : Prop := leads ds b f /\ calm ds.

(** The same durable part. *)
Record durably (f r : ClusterField) : Prop := {
  du_cells : forall id, skel <$> (cells (graph r) !! id) = skel <$> (cells (graph f) !! id);
  du_next : next_id (graph r) = next_id (graph f);
  du_plan : plan (setup r) = plan (setup f)
}.

Lemma explains_refl b f : durably f b -> explains [] b f.
Proof. intros [Hc Hn Hp]. split; [split; [intros id; symmetry; apply Hc | done | done] | apply calm_nil]. Qed.

Lemma leads_more ds ds' b f f' : leads ds b f -> leads ds' f f' -> leads (ds ++ ds') b f'.
Proof.
  intros [C1 N1 P1] [C2 N2 P2]. split.
  - intros id. by rewrite sk_effects_app, C2, C1.
  - by rewrite next_effects_app, N2, N1.
  - rewrite P2, setup_effects_app. by apply plan_effects.
Qed.

(** What is left of a longer list of deltas. *)
Lemma leads_rest ds ds' b f r : leads ds b f -> leads (ds ++ ds') b r -> leads ds' f r.
Proof.
  intros [C1 N1 P1] [C2 N2 P2]. split.
  - intros id. by rewrite C2, C1, sk_effects_app.
  - by rewrite N2, N1, next_effects_app.
  - rewrite P2, setup_effects_app. by apply plan_effects.
Qed.

Lemma accounts_leads ds f f' : accounts ds f f' -> leads ds f f'.
Proof.
  intros (_ & C2 & N2 & P2 & _). split; [done | done |].
  rewrite <- (plan_tell (setup f')), P2. apply plan_effects. apply plan_tell.
Qed.

Lemma explains_durably ds b f r : explains ds b f -> durably f r -> explains ds b r.
Proof.
  intros [[C1 N1 P1] A1] [C2 N2 P2]. split; [| done].
  split; [intros id; by rewrite C2, C1 | by rewrite N2, N1 | by rewrite P2, P1].
Qed.

Lemma explains_more ds ds' b f f' : explains ds b f -> accounts ds' f f' -> explains (ds ++ ds') b f'.
Proof.
  intros [L1 A1] Ha. split; [| apply calm_app; [done | apply Ha]].
  eapply leads_more; [exact L1 | by apply accounts_leads].
Qed.

(** A field with the durable part of a well-formed one. *)
Lemma durably_wf f r : field_wf f -> durably f r -> indexed r -> alive (cells (graph r)) -> field_wf r.
Proof.
  intros [[[Hpos Hcs] _] _] [Hc Hn _] [Hown Hidx] Ha. split; [| done]. split; [| done]. rewrite Hn. split; [done |].
  intros id c E. specialize (Hc id). rewrite E in Hc. destruct (cells (graph f) !! id) as [c'|] eqn:E'; [| done].
  cbn in Hc. unfold skel in Hc. injection Hc as Hi _ _ Hl. destruct (Hcs id c' E') as (Hi' & Hr & Hto).
  split_and!; [by rewrite Hi | lia | lia |]. intros to. rewrite Hl. apply Hto.
Qed.

Lemma replay_leads ds b : leads ds.*2 b (replay_all ds b).
Proof.
  split; [| by rewrite next_replay | by rewrite setup_replay].
  intros id. by rewrite cells_replay, effects_skel.
Qed.

Lemma replay_restores ds b f :
  explains ds.*2 b f -> field_wf f -> setup_ok (setup b) -> indexed b -> alive (cells (graph b)) ->
  field_wf (replay_all ds b) /\ durably f (replay_all ds b) /\ setup_ok (setup (replay_all ds b)).
Proof.
  intros [[Hc Hn Hp] Hcalm] Hw Hs Hi Ha.
  assert (durably f (replay_all ds b)) as Hd.
  { split; [| by rewrite next_replay, Hn | by rewrite setup_replay, Hp].
    intros id. by rewrite cells_replay, effects_skel, Hc. }
  split_and!; [| done | rewrite setup_replay; by apply setup_ok_effects].
  apply (durably_wf f); [done | done | by apply indexed_replay |].
  intros id c E. rewrite cells_replay in E. specialize (Hcalm id (cells (graph b) !! id)).
  rewrite E in Hcalm. apply Hcalm. destruct (cells (graph b) !! id) as [c'|] eqn:E'; [exact (Ha id c' E') | done].
Qed.
End restore.
