(* ===== verification/Database.v ===== *)
(** * A field on disk: start, operations, snapshots, restart

    How the command line and the bridge put a field and its journal together
    ([run_interactive] in [liminal-cli/src/main.rs], [BridgeState::new] and
    [spawn_snapshot_loop] in [liminal-bridge-abi/src/ffi.rs]): at the start the latest snapshot is
    loaded and the log is replayed from its offset; then every operation appends its deltas; from
    time to time a snapshot is written and the log compacted. The journal itself, [DiskJournal] of
    [liminal-store/src/journal_impl.rs], comes first. *)

From stdpp Require Import prelude gmap strings fin_maps fin_sets list sorting relations.
From Stdlib Require Import ZArith Lia SpecFloat.
From S2P Require Import Prelude RustStr Wal WalSpec WalRead WalProps Crypto RustOrd Float RustText Json NodeCell Trs Seeds Symmetry FieldTypes Feedback Variant Resonant Journal Collections Field FieldOps FieldTick FieldInv FieldReplay FieldSteps FieldProps StoreFiles Snapshot.

(** ** The journal on disk: [liminal-store/src/journal_impl.rs]

    A [DiskJournal] is a store, the number of deltas since the last snapshot and the identifier of
    the last snapshot. Every method holds the store's lock for its whole length, so that the methods
    are steps. [append_delta] has no result: a delta that cannot be encoded or written is reported on
    the standard error, and lost. *)
Record SnapshotInfo : Type := mkSnapshotInfo {
  si_id : Z;
  si_path : string;
  si_offset : Offset;
  si_size_bytes : Z
}.

Record StoreStats : Type := mkStats {
  ss_current_segment : Z;
  ss_current_position : Z;
  ss_wal_segments : list Z;
  ss_last_snapshot : option Z;
  ss_delta_since_snapshot : Z
}.

Record DiskJournal : Type := mkJournal {
  dj_store : Store;
  delta_counter : Z;
  last_id : Z
}.

Definition with_store (j : DiskJournal) (s : Store) : DiskJournal := mkJournal s (delta_counter j) (last_id j).

(** [Path::file_stem], of the last component of a path. *)
Definition file_stem (name : string) : option bytes :=
  match stem_and_extension name with
  | Some (stem, _) => Some stem
  | None => if decide (name = "" \/ name = "..") then None else Some (as_bytes name)
  end.

Section journal.
Context `{Crc32, Cbor EventDelta, Cbor StoreManifest, Cbor SnapshotEnvelope}.

Definition DiskJournal_open (r : Root) : result DiskJournal StoreError :=
  let! store := map_err LogError (Store_open r) in
  Ok (mkJournal store 0 (foldr Z.max 0%Z (list_snapshots (st_snap store)))).

Definition journal_end_offset (j : DiskJournal) : Offset := end_offset (dj_store j).

(** Everything [stream_from] yields, up to the first error. *)
Definition journal_stream (j : DiskJournal) (offset : Offset)
  : result (list (result bytes WalError)) StoreError :=
  map_err LogError (read_from (st_data (dj_store j)) offset).

Definition load_latest_snapshot (j : DiskJournal)
  : DiskJournal * result (option (ClusterFieldSeed * Offset)) StoreError :=
  match read_manifest (dj_store j) with
  | Err e => (j, Err e)
  | Ok None => (j, Ok None)
  | Ok (Some manifest) =>
      match last_snapshot manifest with
      | None => (j, Ok None)
      | Some name =>
          match (let! b := fs_read (st_snap (dj_store j)) name in load_snapshot b) with
          | Err e => (j, Err e)
          | Ok seed =>
              let offset := mkOffset (wal_segment manifest) (wal_position manifest) in
              let id :=
                match file_stem name ≫= parse_u64 with
                | Some stem => stem
                | None => last_id j
                end in
              (mkJournal (dj_store j) 0 id, Ok (Some (seed, offset)))
          end
      end
  end.

Definition write_snapshot (o : HashOrder) (f : ClusterField) (j : DiskJournal)
  : DiskJournal * result SnapshotInfo StoreError :=
  let store := dj_store j in
  match create_snapshot o f with
  | Err e => (j, Err e)
  | Ok snapshot_bytes =>
      let offset := end_offset store in
      let id := next_snapshot_id store in
      let path := snapshot_path id in
      match fs_write (st_snap store) path snapshot_bytes with
      | Err e => (j, Err e)
      | Ok snap =>
          let store := mkStore (st_data store) snap (st_manifest store) (st_writer store) in
          let manifest := mkManifest (Some path) (segment offset) (position offset) in
          match write_manifest manifest store with
          | Err e => (with_store j store, Err e)
          | Ok store =>
              (mkJournal store 0 id, Ok (mkSnapshotInfo id path offset (blen snapshot_bytes)))
          end
      end
  end.

Definition run_gc (since : Offset) (j : DiskJournal) : DiskJournal * result unit StoreError :=
  let '(store, r) := gc_compact (dj_store j) since in
  (with_store j store, map_err LogError r).

Definition delta_since_snapshot (j : DiskJournal) : Z := delta_counter j.

Definition last_snapshot_id (j : DiskJournal) : option Z :=
  if (last_id j =? 0)%Z then None else Some (last_id j).

Definition stats (j : DiskJournal) : StoreStats :=
  let segments := merge_sort Z.le (list_segments (st_data (dj_store j))) in
  let e := end_offset (dj_store j) in
  mkStats (segment e) (position e) segments (last_snapshot_id j) (delta_since_snapshot j).

Definition append_delta (j : DiskJournal) (delta : EventDelta) : DiskJournal :=
  match encode_delta delta with
  | Err _ => j
  | Ok b =>
      let '(store, r) := Store_append (dj_store j) b Disabled in
      match r with
      | Err _ => with_store j store
      | Ok _ => mkJournal store (u64_add (delta_counter j) 1) (last_id j)
      end
  end.

(** The deltas of an operation, one call of [append_delta] each. *)
Definition append_deltas (ds : list EventDelta) (j : DiskJournal) : DiskJournal := fold_left append_delta ds j.
End journal.

(** ** The store of the command line *)
Inductive StoreBackend : Type := Sled (path : string).

(** [parse_store_backend]: the scheme before [://] and the path after it. *)
Definition parse_store_backend (uri : string) : option StoreBackend :=
  match split_once "://" uri with
  | None => None
  | Some (scheme, rest) =>
      if decide (scheme = "sled") then Some (Sled (if decide (rest = "") then "./data" else rest)) else None
  end.

Record SnapshotConfig : Type := mkSnapshotConfig {
  interval_s : Z;
  max_wal_events : Z
}.

(** [config.snap_interval.unwrap_or(60).max(1)], [config.snap_maxwal.unwrap_or(5_000).max(1)]. *)
Definition snapshot_config (snap_interval snap_maxwal : option Z) : SnapshotConfig :=
  mkSnapshotConfig (Z.max (default 60%Z snap_interval) 1) (Z.max (default 5000%Z snap_maxwal) 1).

Record Db : Type := mkDb {
  db_field : ClusterField;
  db_journal : DiskJournal
}.

Definition attached (f : ClusterField) : ClusterField := set_journal (Some []) f.
Definition emitted (f : ClusterField) : list EventDelta := default [] (journal f).

Section database.
Context `{UnicodeCase, SeedRng, FloatMath, Crc32, Cbor EventDelta, Cbor StoreManifest, Cbor SnapshotEnvelope}.

(** [while let Some(record) = stream.next()]; [os] gives the order of each visit of a map. *)
Fixpoint replay_records (os : nat -> HashOrder) (records : list (result bytes WalError)) (f : ClusterField)
  : result ClusterField StoreError :=
  match records with
  | [] => Ok f
  | record :: rest =>
      let! b := map_err LogError record in
      let! delta := decode_delta b in
      replay_records (fun n => os (S n)) rest (apply_delta (os 0) f delta)
  end.

(** The root of an empty field is planted before the journal is attached. *)
Definition plant_root (o : HashOrder) (f : ClusterField) : ClusterField :=
  if (size (cells (graph f)) =? 0)%nat then fst (add_root o "liminal/root" f) else f.

Definition open_database (os : nat -> HashOrder) (r : Root) : result Db StoreError :=
  let! j := DiskJournal_open r in
  let '(j, latest) := load_latest_snapshot j in
  let! latest := latest in
  let '(f, replay_offset) :=
    match latest with
    | Some (seed, offset) => (into_field (os 0) seed, offset)
    | None => (ClusterField_new, Offset_start)
    end in
  let! records := journal_stream j replay_offset in
  let! f := replay_records (fun n => os (S (S n))) records f in
  Ok (mkDb (attached (plant_root (os 1) f)) j).

(** An operation of the field: the journal is given the deltas in the order of their emission. *)
Definition db_apply (o : HashOrder) (op : field_op) (db : Db) : Db :=
  let f := field_apply o op (attached (db_field db)) in
  mkDb f (append_deltas (emitted f) (db_journal db)).

(** A snapshot, and the compaction after it; an error of the compaction is only reported. *)
Definition snapshot_once (o : HashOrder) (db : Db) : Db * result SnapshotInfo StoreError :=
  let '(j, r) := write_snapshot o (db_field db) (db_journal db) in
  match r with
  | Ok info => (mkDb (db_field db) (fst (run_gc (si_offset info) j)), Ok info)
  | Err e => (mkDb (db_field db) j, Err e)
  end.

(** One round of the snapshot loop, [elapsed] seconds after the last snapshot. *)
Definition snapshot_due (cfg : SnapshotConfig) (elapsed : Z) (db : Db) : bool :=
  (max_wal_events cfg <=? delta_since_snapshot (db_journal db))%Z || (interval_s cfg <=? elapsed)%Z.
Definition snapshot_round (cfg : SnapshotConfig) (elapsed : Z) (o : HashOrder) (db : Db)
  : Db * option (result SnapshotInfo StoreError) :=
  if snapshot_due cfg elapsed db then let '(db, r) := snapshot_once o db in (db, Some r) else (db, None).

(** The end of a process: its lock is released, its files stay. *)
Definition db_close (db : Db) : Root := Store_close (dj_store (db_journal db)).

(** [std::fs::write] truncates the file first: what the death of the process in the middle of
    [write_manifest] leaves of the manifest. *)
Definition manifest_torn (k : nat) (db : Db) : Root :=
  let r := db_close db in
  mkRoot (root_data r) (root_snap r) (take k <$> root_manifest r) (root_locked r).

(** What is left of an operation when the process dies at [fp] in the append of its delta [k]; [None] when there
    is no such append, or [fp] does not befall it. *)
Definition db_crash (o : HashOrder) (op : field_op) (k : nat) (fp : AppendFault) (db : Db) : option Root :=
  let ds := emitted (field_apply o op (attached (db_field db))) in
  let j := append_deltas (take k ds) (db_journal db) in
  d ← ds !! k;
  match encode_delta d with
  | Err _ => None
  | Ok b => match Store_append (dj_store j) b fp with (store, Err _) => Some (Store_close store) | (_, Ok _) => None end
  end.
End database.

Example backends :
  parse_store_backend "sled:///srv/db" = Some (Sled "/srv/db") /\
  parse_store_backend "sled://" = Some (Sled "./data") /\ parse_store_backend "s3://bucket" = None.
Proof. vm_compute. done. Qed.
