(* ===== verification/FieldCodec.v ===== *)
(** * A concrete codec for the deltas, the manifest and the snapshots of a field

    The theorems about a database on disk hold for any serializer with the laws they name; this file
    shows that the laws can hold together, with the format of [Crypto]. One printer and parser per
    type. A garden with seeds is refused (a seed carries JSON arguments); its counter and its log are
    written. *)

From stdpp Require Import prelude gmap strings fin_maps fin_sets list.
From Stdlib Require Import ZArith Lia SpecFloat.
From S2P Require Import Prelude RustStr Crypto Float RustText Json NodeCell Trs Seeds Symmetry FieldTypes Journal StoreFiles Snapshot.

(** ** Combinators *)
Section sums.
Context {A B : Type} `{SerOk A, SerOk B}.
#[export] Instance Ser_sum : Ser (A + B) :=
  {| ser x := match x with inl a => Byte.x00 :: ser a | inr b => Byte.x01 :: ser b end;
     par b := match b with
              | Byte.x00 :: rest => match par rest with Some (a, r) => Some (inl a, r) | None => None end
              | Byte.x01 :: rest => match par rest with Some (x, r) => Some (inr x, r) | None => None end
              | _ => None
              end |}.
#[export] Instance Ser_sum_ok : SerOk (A + B).
Proof. intros [x | x] rest; cbn; by rewrite par_ser. Qed.
End sums.

#[export] Instance Ser_unit : Ser unit := {| ser _ := []; par b := Some (tt, b) |}.
#[export] Instance Ser_unit_ok : SerOk unit. Proof. by intros [] rest. Qed.

#[export] Instance Ser_float : Ser spec_float :=
  Ser_via (B := bool + (bool + (unit + (bool * positive * Z))))
    (fun x => match x with
              | S754_zero s => inl s
              | S754_infinity s => inr (inl s)
              | S754_nan => inr (inr (inl tt))
              | S754_finite s m e => inr (inr (inr (s, m, e)))
              end)
    (fun x => match x with
              | inl s => Some (S754_zero s)
              | inr (inl s) => Some (S754_infinity s)
              | inr (inr (inl _)) => Some S754_nan
              | inr (inr (inr (s, m, e))) => Some (S754_finite s m e)
              end).
#[export] Instance Ser_float_ok : SerOk spec_float.
Proof. apply (Ser_via_ok (B := bool + (bool + (unit + (bool * positive * Z))))). by intros []. Qed.

#[export] Instance Ser_links : Ser (gset Z) := Ser_via (B := list Z) elements (fun l => Some (list_to_set l)).
#[export] Instance Ser_links_ok : SerOk (gset Z).
Proof. apply (Ser_via_ok (B := list Z)). intros m. by rewrite list_to_set_elements_L. Qed.

(** ** The types of the deltas *)
#[export] Instance Ser_NodeState : Ser NodeState :=
  Ser_via (fun x => match x with Active => 0%Z | Idle => 1%Z | Sleep => 2%Z | Dead => 3%Z end)
    (fun n => match n with 0%Z => Some Active | 1%Z => Some Idle | 2%Z => Some Sleep | 3%Z => Some Dead | _ => None end).
#[export] Instance Ser_NodeState_ok : SerOk NodeState. Proof. apply Ser_via_ok. by intros []. Qed.

#[export] Instance Ser_ImpulseKind : Ser ImpulseKind :=
  Ser_via (fun x => match x with Query => 0%Z | Write => 1%Z | Affect => 2%Z end)
    (fun n => match n with 0%Z => Some Query | 1%Z => Some Write | 2%Z => Some Affect | _ => None end).
#[export] Instance Ser_ImpulseKind_ok : SerOk ImpulseKind. Proof. apply Ser_via_ok. by intros []. Qed.

#[export] Instance Ser_Hint : Ser Hint :=
  Ser_via (fun x => match x with SlowTick => 0%Z | FastTick => 1%Z | TrimField => 2%Z | WakeSeeds => 3%Z end)
    (fun n => match n with 0%Z => Some SlowTick | 1%Z => Some FastTick | 2%Z => Some TrimField | 3%Z => Some WakeSeeds | _ => None end).
#[export] Instance Ser_Hint_ok : SerOk Hint. Proof. apply Ser_via_ok. by intros []. Qed.

#[export] Instance Ser_EpochKind : Ser EpochKind :=
  Ser_via (fun x => match x with EDream => 0%Z | ECollective => 1%Z | EAwaken => 2%Z end)
    (fun n => match n with 0%Z => Some EDream | 1%Z => Some ECollective | 2%Z => Some EAwaken | _ => None end).
#[export] Instance Ser_EpochKind_ok : SerOk EpochKind. Proof. apply Ser_via_ok. by intros []. Qed.

#[export] Instance Ser_SeedStage : Ser SeedStage :=
  Ser_via (fun x => match x with Planted => 0%Z | Sprouting => 1%Z | Blooming => 2%Z | Harvested => 3%Z | Aborted => 4%Z end)
    (fun n => match n with 0%Z => Some Planted | 1%Z => Some Sprouting | 2%Z => Some Blooming | 3%Z => Some Harvested | 4%Z => Some Aborted | _ => None end).
#[export] Instance Ser_SeedStage_ok : SerOk SeedStage. Proof. apply Ser_via_ok. by intros []. Qed.

#[export] Instance Ser_CellSnapshot : Ser CellSnapshot :=
  Ser_via (B := Z * f32 * f32 * string * NodeState * gset Z * f32 * f32 * Z * f32 * f32 * bool * Z)
    (fun x => (cn_id x, cn_seed_affinity x, cn_seed_metabolism x, cn_core_pattern x, cn_state x, cn_links x, cn_metabolism x, cn_affinity x, cn_last_response_ms x, cn_energy x, cn_salience x, cn_adreno_tag x, cn_last_recall_ms x))
    (fun '(a0, a1, a2, a3, a4, a5, a6, a7, a8, a9, a10, a11, a12) => Some (mkCellSnapshot a0 a1 a2 a3 a4 a5 a6 a7 a8 a9 a10 a11 a12)).
#[export] Instance Ser_CellSnapshot_ok : SerOk CellSnapshot. Proof. apply Ser_via_ok. by intros []. Qed.

#[export] Instance Ser_EnergyDelta : Ser EnergyDelta :=
  Ser_via (B := Z * f32 * f32 * NodeState * Z)
    (fun x => (ed_id x, ed_energy x, ed_metabolism x, ed_state x, ed_last_response_ms x))
    (fun '(a0, a1, a2, a3, a4) => Some (mkEnergyDelta a0 a1 a2 a3 a4)).
#[export] Instance Ser_EnergyDelta_ok : SerOk EnergyDelta. Proof. apply Ser_via_ok. by intros []. Qed.

#[export] Instance Ser_DreamEdgeDelta : Ser DreamEdgeDelta :=
  Ser_via (B := Z * Z * f32 * f32 * f32)
    (fun x => (de_from x, de_to x, de_score x, de_freq x, de_avg_strength x))
    (fun '(a0, a1, a2, a3, a4) => Some (mkDreamEdge a0 a1 a2 a3 a4)).
#[export] Instance Ser_DreamEdgeDelta_ok : SerOk DreamEdgeDelta. Proof. apply Ser_via_ok. by intros []. Qed.

#[export] Instance Ser_TrsTraceDelta : Ser TrsTraceDelta :=
  Ser_via (B := Z * f32 * f32 * Z * f32)
    (fun x => (tt_now_ms x, tt_observed_load x, tt_error x, tt_tick_adjust_ms x, tt_alpha x))
    (fun '(a0, a1, a2, a3, a4) => Some (mkTrsTrace a0 a1 a2 a3 a4)).
#[export] Instance Ser_TrsTraceDelta_ok : SerOk TrsTraceDelta. Proof. apply Ser_via_ok. by intros []. Qed.

#[export] Instance Ser_TrsHarmonyDelta : Ser TrsHarmonyDelta :=
  Ser_via (B := f32 * f32 * f32 * f32)
    (fun x => (th_alpha x, th_affinity_scale x, th_metabolism_scale x, th_sleep_delta x))
    (fun '(a0, a1, a2, a3) => Some (mkTrsHarmony a0 a1 a2 a3)).
#[export] Instance Ser_TrsHarmonyDelta_ok : SerOk TrsHarmonyDelta. Proof. apply Ser_via_ok. by intros []. Qed.

#[export] Instance Ser_TrsConfig : Ser TrsConfig :=
  Ser_via (B := f32 * f32 * f32 * f32 * f32 * f32)
    (fun x => (tc_alpha x, tc_beta x, tc_target_load x, tc_k_p x, tc_k_i x, tc_k_d x))
    (fun '(a0, a1, a2, a3, a4, a5) => Some (mkTrsConfig a0 a1 a2 a3 a4 a5)).
#[export] Instance Ser_TrsConfig_ok : SerOk TrsConfig. Proof. apply Ser_via_ok. by intros []. Qed.

#[export] Instance Ser_TrsState : Ser TrsState :=
  Ser_via (B := f32 * f32 * f32 * f32 * f32 * f32 * f32 * f32 * Z)
    (fun x => (t_alpha x, t_beta x, t_target_load x, t_err_i x, t_k_p x, t_k_i x, t_k_d x, t_last_err x, t_last_ts x))
    (fun '(a0, a1, a2, a3, a4, a5, a6, a7, a8) => Some (mkTrs a0 a1 a2 a3 a4 a5 a6 a7 a8)).
#[export] Instance Ser_TrsState_ok : SerOk TrsState. Proof. apply Ser_via_ok. by intros []. Qed.

#[export] Instance Ser_ReflexWhen : Ser ReflexWhen :=
  Ser_via (B := string * ImpulseKind * f32 * Z * Z)
    (fun x => (w_token x, w_kind x, w_min_strength x, w_window_ms x, w_min_count x))
    (fun '(a0, a1, a2, a3, a4) => Some (mkReflexWhen a0 a1 a2 a3 a4)).
#[export] Instance Ser_ReflexWhen_ok : SerOk ReflexWhen. Proof. apply Ser_via_ok. by intros []. Qed.

Definition ReflexAction_sum : Type := (Hint) + ((string * f32) + ((Z) + ((f32 * Z)))).
Definition ReflexAction_to_sum (x : ReflexAction) : ReflexAction_sum :=
  match x with
    | EmitHint a0 => inl a0
    | SpawnSeed a0 a1 => inr (inl (a0, a1))
    | WakeSleeping a0 => inr (inr (inl a0))
    | BoostLinks a0 a1 => inr (inr (inr ((a0, a1))))
  end.
Definition ReflexAction_of_sum (x : ReflexAction_sum) : option ReflexAction :=
  match x with
    | inl a0 => Some (EmitHint a0)
    | inr (inl (a0, a1)) => Some (SpawnSeed a0 a1)
    | inr (inr (inl a0)) => Some (WakeSleeping a0)
    | inr (inr (inr ((a0, a1)))) => Some (BoostLinks a0 a1)
  end.
#[export] Instance Ser_ReflexAction : Ser ReflexAction := Ser_via (B := ReflexAction_sum) ReflexAction_to_sum ReflexAction_of_sum.
#[export] Instance Ser_ReflexAction_ok : SerOk ReflexAction. Proof. apply (Ser_via_ok (B := ReflexAction_sum)). by intros []. Qed.

#[export] Instance Ser_ReflexRule : Ser ReflexRule :=
  Ser_via (B := Z * ReflexWhen * ReflexAction * bool)
    (fun x => (r_id x, r_when x, r_then x, r_enabled x))
    (fun '(a0, a1, a2, a3) => Some (mkReflexRule a0 a1 a2 a3)).
#[export] Instance Ser_ReflexRule_ok : SerOk ReflexRule. Proof. apply Ser_via_ok. by intros []. Qed.

#[export] Instance Ser_ReflexFire : Ser ReflexFire :=
  Ser_via (B := Z * Z * Z)
    (fun x => (rf_id x, rf_at_ms x, rf_matched x))
    (fun '(a0, a1, a2) => Some (mkReflexFire a0 a1 a2)).
#[export] Instance Ser_ReflexFire_ok : SerOk ReflexFire. Proof. apply Ser_via_ok. by intros []. Qed.

#[export] Instance Ser_DreamConfig : Ser DreamConfig :=
  Ser_via (B := Z * Z * f32 * f32 * f32 * bool * Z)
    (fun x => (min_idle_s x, dc_window_ms x, strengthen_top_pct x, weaken_bottom_pct x, dc_protect_salience x, adreno_protect x, max_ops_per_cycle x))
    (fun '(a0, a1, a2, a3, a4, a5, a6) => Some (mkDreamConfig a0 a1 a2 a3 a4 a5 a6)).
#[export] Instance Ser_DreamConfig_ok : SerOk DreamConfig. Proof. apply Ser_via_ok. by intros []. Qed.

#[export] Instance Ser_SyncConfig : Ser SyncConfig :=
  Ser_via (B := Z * Z * f32 * Z * Z * f32)
    (fun x => (phase_len_ms x, phase_gap_ms x, cooccur_threshold x, max_groups x, share_top_k x, weight_xfer x))
    (fun '(a0, a1, a2, a3, a4, a5) => Some (mkSyncConfig a0 a1 a2 a3 a4 a5)).
#[export] Instance Ser_SyncConfig_ok : SerOk SyncConfig. Proof. apply Ser_via_ok. by intros []. Qed.

#[export] Instance Ser_AwakeningConfig : Ser AwakeningConfig :=
  Ser_via (B := Z * f32 * f32 * f32 * f32 * Z * f32)
    (fun x => (max_nodes x, energy_floor x, energy_boost x, salience_boost x, ac_protect_salience x, tick_bias_ms x, target_gain x))
    (fun '(a0, a1, a2, a3, a4, a5, a6) => Some (mkAwakeningConfig a0 a1 a2 a3 a4 a5 a6)).
#[export] Instance Ser_AwakeningConfig_ok : SerOk AwakeningConfig. Proof. apply Ser_via_ok. by intros []. Qed.

#[export] Instance Ser_DreamReport : Ser DreamReport :=
  Ser_via (B := Z * Z * Z * Z * Z * Z)
    (fun x => (dr_strengthened x, dr_weakened x, dr_pruned x, dr_protected x, dr_rewired x, dr_took_ms x))
    (fun '(a0, a1, a2, a3, a4, a5) => Some (mkDreamReport a0 a1 a2 a3 a4 a5)).
#[export] Instance Ser_DreamReport_ok : SerOk DreamReport. Proof. apply Ser_via_ok. by intros []. Qed.

#[export] Instance Ser_SyncReport : Ser SyncReport :=
  Ser_via (B := Z * Z * Z * Z * Z)
    (fun x => (sr_groups x, sr_shared x, sr_aligned x, sr_protected x, sr_took_ms x))
    (fun '(a0, a1, a2, a3, a4) => Some (mkSyncReport a0 a1 a2 a3 a4)).
#[export] Instance Ser_SyncReport_ok : SerOk SyncReport. Proof. apply Ser_via_ok. by intros []. Qed.

#[export] Instance Ser_HarmonyMetrics : Ser HarmonyMetrics :=
  Ser_via (B := f32 * f32 * f32)
    (fun x => (avg_strength x, hm_avg_latency x, entropy x))
    (fun '(a0, a1, a2) => Some (mkHarmonyMetrics a0 a1 a2)).
#[export] Instance Ser_HarmonyMetrics_ok : SerOk HarmonyMetrics. Proof. apply Ser_via_ok. by intros []. Qed.

#[export] Instance Ser_Epoch : Ser Epoch :=
  Ser_via (B := Z * EpochKind * Z * Z * Z * Z * HarmonyMetrics * HarmonyMetrics * f32 * f32 * f32 * f32 * f32)
    (fun x => (ep_id x, ep_kind x, ep_start_ms x, ep_end_ms x, ep_cfg_hash x, ep_report_hash x, harmony_before x, harmony_after x, tension_before x, tension_after x, latency_avg_before x, latency_avg_after x, impact x))
    (fun '(a0, a1, a2, a3, a4, a5, a6, a7, a8, a9, a10, a11, a12) => Some (mkEpoch a0 a1 a2 a3 a4 a5 a6 a7 a8 a9 a10 a11 a12)).
#[export] Instance Ser_Epoch_ok : SerOk Epoch. Proof. apply Ser_via_ok. by intros []. Qed.

#[export] Instance Ser_ReplayReport : Ser ReplayReport :=
  Ser_via (B := Z * string * Z * f32 * Z)
    (fun x => (rr_epoch_id x, rr_mode x, rr_applied x, predicted_gain x, rr_took_ms x))
    (fun '(a0, a1, a2, a3, a4) => Some (mkReplayReport a0 a1 a2 a3 a4)).
#[export] Instance Ser_ReplayReport_ok : SerOk ReplayReport. Proof. apply Ser_via_ok. by intros []. Qed.

#[export] Instance Ser_MirrorTimeline : Ser MirrorTimeline :=
  Ser_via (B := list Epoch * Z)
    (fun x => (mt_epochs x, built_ms x))
    (fun '(a0, a1) => Some (mkTimeline a0 a1)).
#[export] Instance Ser_MirrorTimeline_ok : SerOk MirrorTimeline. Proof. apply Ser_via_ok. by intros []. Qed.

#[export] Instance Ser_ResonantEdge : Ser ResonantEdge :=
  Ser_via (B := Z * Z * f32 * f32)
    (fun x => (e_from x, e_to x, e_weight x, e_coherence x))
    (fun '(a0, a1, a2, a3) => Some (mkEdge a0 a1 a2 a3)).
#[export] Instance Ser_ResonantEdge_ok : SerOk ResonantEdge. Proof. apply Ser_via_ok. by intros []. Qed.

#[export] Instance Ser_Influence : Ser Influence :=
  Ser_via (B := Z * Z * f32 * f32)
    (fun x => (in_source x, in_sink x, in_weight x, in_coherence x))
    (fun '(a0, a1, a2, a3) => Some (mkInfluence a0 a1 a2 a3)).
#[export] Instance Ser_Influence_ok : SerOk Influence. Proof. apply Ser_via_ok. by intros []. Qed.

#[export] Instance Ser_Tension : Ser Tension :=
  Ser_via (B := Z * f32 * f32)
    (fun x => (tn_node x, magnitude x, relief x))
    (fun '(a0, a1, a2) => Some (mkTension a0 a1 a2)).
#[export] Instance Ser_Tension_ok : SerOk Tension. Proof. apply Ser_via_ok. by intros []. Qed.

#[export] Instance Ser_ModelFrame : Ser ModelFrame :=
  Ser_via (B := string * Z * Z)
    (fun x => (mf_hash x, mf_cell_count x, mf_created_ms x))
    (fun '(a0, a1, a2) => Some (mkFrame a0 a1 a2)).
#[export] Instance Ser_ModelFrame_ok : SerOk ModelFrame. Proof. apply Ser_via_ok. by intros []. Qed.

#[export] Instance Ser_ResonantModel : Ser ResonantModel :=
  Ser_via (B := list ResonantEdge * list Influence * list Tension * f32 * option ModelFrame * option string)
    (fun x => (rm_edges x, rm_influences x, rm_tensions x, rm_coherence x, last_build x, last_applied x))
    (fun '(a0, a1, a2, a3, a4, a5) => Some (mkModel a0 a1 a2 a3 a4 a5)).
#[export] Instance Ser_ResonantModel_ok : SerOk ResonantModel. Proof. apply Ser_via_ok. by intros []. Qed.

Definition SyncEvent_sum : Type := (Z * Z * Z * Z) + ((Z * Z * Z * Z) + ((Z * string * Z) + ((Z * option string * Z) + ((Z))))).
Definition SyncEvent_to_sum (x : SyncEvent) : SyncEvent_sum :=
  match x with
    | SyDream a0 a1 a2 a3 => inl (a0, a1, a2, a3)
    | SyCollective a0 a1 a2 a3 => inr (inl (a0, a1, a2, a3))
    | SyBuild a0 a1 a2 => inr (inr (inl (a0, a1, a2)))
    | SyApply a0 a1 a2 => inr (inr (inr (inl (a0, a1, a2))))
    | SyTick a0 => inr (inr (inr (inr (a0))))
  end.
Definition SyncEvent_of_sum (x : SyncEvent_sum) : option SyncEvent :=
  match x with
    | inl (a0, a1, a2, a3) => Some (SyDream a0 a1 a2 a3)
    | inr (inl (a0, a1, a2, a3)) => Some (SyCollective a0 a1 a2 a3)
    | inr (inr (inl (a0, a1, a2))) => Some (SyBuild a0 a1 a2)
    | inr (inr (inr (inl (a0, a1, a2)))) => Some (SyApply a0 a1 a2)
    | inr (inr (inr (inr (a0)))) => Some (SyTick a0)
  end.
#[export] Instance Ser_SyncEvent : Ser SyncEvent := Ser_via (B := SyncEvent_sum) SyncEvent_to_sum SyncEvent_of_sum.
#[export] Instance Ser_SyncEvent_ok : SerOk SyncEvent. Proof. apply (Ser_via_ok (B := SyncEvent_sum)). by intros []. Qed.

#[export] Instance Ser_SyncLog : Ser SyncLog :=
  Ser_via (B := list SyncEvent * Z)
    (fun x => (sl_entries x, sl_capacity x))
    (fun '(a0, a1) => Some (mkSyncLog a0 a1)).
#[export] Instance Ser_SyncLog_ok : SerOk SyncLog. Proof. apply Ser_via_ok. by intros []. Qed.

#[export] Instance Ser_SeedLog : Ser SeedLog :=
  Ser_via (B := Z * SeedStage * f32 * f32)
    (fun x => (sl_id x, sl_stage x, sl_vitality x, sl_yield x))
    (fun '(a0, a1, a2, a3) => Some (mkSeedLog a0 a1 a2 a3)).
#[export] Instance Ser_SeedLog_ok : SerOk SeedLog. Proof. apply Ser_via_ok. by intros []. Qed.

#[export] Instance Ser_StoreManifest : Ser StoreManifest :=
  Ser_via (B := option string * Z * Z)
    (fun x => (last_snapshot x, wal_segment x, wal_position x))
    (fun '(a0, a1, a2) => Some (mkManifest a0 a1 a2)).
#[export] Instance Ser_StoreManifest_ok : SerOk StoreManifest. Proof. apply Ser_via_ok. by intros []. Qed.

Definition EventDelta_sum : Type := (Z) + ((CellSnapshot) + ((Z * CellSnapshot) + ((Z) + ((Z) + ((Z * Z) + ((Z * Z) + ((Z * f32) + ((EnergyDelta) + ((ReflexRule) + ((Z) + ((ReflexFire) + ((TrsConfig) + ((f32) + ((TrsTraceDelta) + ((TrsHarmonyDelta) + ((DreamConfig) + ((SyncConfig) + ((DreamEdgeDelta) + ((DreamEdgeDelta) + ((Z * Z) + ((Z * Z) + ((Z * DreamReport) + ((Z * string * f32) + ((Z * Z * f32) + ((Z * SyncReport) + ((string * Z * Z) + ((option string * AwakeningConfig * Z * Z) + ((option string * Z) + ((Epoch) + ((ReplayReport))))))))))))))))))))))))))))))).
Definition EventDelta_to_sum (x : EventDelta) : EventDelta_sum :=
  match x with
    | DTick a0 => inl a0
    | DSpawn a0 => inr (inl a0)
    | DDivide a0 a1 => inr (inr (inl (a0, a1)))
    | DSleep a0 => inr (inr (inr (inl a0)))
    | DDead a0 => inr (inr (inr (inr (inl a0))))
    | DLink a0 a1 => inr (inr (inr (inr (inr (inl (a0, a1))))))
    | DUnlink a0 a1 => inr (inr (inr (inr (inr (inr (inl (a0, a1)))))))
    | DAffinity a0 a1 => inr (inr (inr (inr (inr (inr (inr (inl (a0, a1))))))))
    | DEnergy a0 => inr (inr (inr (inr (inr (inr (inr (inr (inl a0))))))))
    | DReflexAdd a0 => inr (inr (inr (inr (inr (inr (inr (inr (inr (inl a0)))))))))
    | DReflexRemove a0 => inr (inr (inr (inr (inr (inr (inr (inr (inr (inr (inl a0))))))))))
    | DReflexFire a0 => inr (inr (inr (inr (inr (inr (inr (inr (inr (inr (inr (inl a0)))))))))))
    | DTrsSet a0 => inr (inr (inr (inr (inr (inr (inr (inr (inr (inr (inr (inr (inl a0))))))))))))
    | DTrsTarget a0 => inr (inr (inr (inr (inr (inr (inr (inr (inr (inr (inr (inr (inr (inl a0)))))))))))))
    | DTrsTrace a0 => inr (inr (inr (inr (inr (inr (inr (inr (inr (inr (inr (inr (inr (inr (inl a0))))))))))))))
    | DTrsHarmony a0 => inr (inr (inr (inr (inr (inr (inr (inr (inr (inr (inr (inr (inr (inr (inr (inl a0)))))))))))))))
    | DDreamConfig a0 => inr (inr (inr (inr (inr (inr (inr (inr (inr (inr (inr (inr (inr (inr (inr (inr (inl a0))))))))))))))))
    | DSyncConfig a0 => inr (inr (inr (inr (inr (inr (inr (inr (inr (inr (inr (inr (inr (inr (inr (inr (inr (inl a0)))))))))))))))))
    | DDreamStrengthen a0 => inr (inr (inr (inr (inr (inr (inr (inr (inr (inr (inr (inr (inr (inr (inr (inr (inr (inr (inl a0))))))))))))))))))
    | DDreamWeaken a0 => inr (inr (inr (inr (inr (inr (inr (inr (inr (inr (inr (inr (inr (inr (inr (inr (inr (inr (inr (inl a0)))))))))))))))))))
    | DDreamPrune a0 a1 => inr (inr (inr (inr (inr (inr (inr (inr (inr (inr (inr (inr (inr (inr (inr (inr (inr (inr (inr (inr (inl (a0, a1)))))))))))))))))))))
    | DDreamRewire a0 a1 => inr (inr (inr (inr (inr (inr (inr (inr (inr (inr (inr (inr (inr (inr (inr (inr (inr (inr (inr (inr (inr (inl (a0, a1))))))))))))))))))))))
    | DDreamReport a0 a1 => inr (inr (inr (inr (inr (inr (inr (inr (inr (inr (inr (inr (inr (inr (inr (inr (inr (inr (inr (inr (inr (inr (inl (a0, a1)))))))))))))))))))))))
    | DSyncShare a0 a1 a2 => inr (inr (inr (inr (inr (inr (inr (inr (inr (inr (inr (inr (inr (inr (inr (inr (inr (inr (inr (inr (inr (inr (inr (inl (a0, a1, a2))))))))))))))))))))))))
    | DSyncAlign a0 a1 a2 => inr (inr (inr (inr (inr (inr (inr (inr (inr (inr (inr (inr (inr (inr (inr (inr (inr (inr (inr (inr (inr (inr (inr (inr (inl (a0, a1, a2)))))))))))))))))))))))))
    | DCollectiveDreamReport a0 a1 => inr (inr (inr (inr (inr (inr (inr (inr (inr (inr (inr (inr (inr (inr (inr (inr (inr (inr (inr (inr (inr (inr (inr (inr (inr (inl (a0, a1))))))))))))))))))))))))))
    | DModelBuild a0 a1 a2 => inr (inr (inr (inr (inr (inr (inr (inr (inr (inr (inr (inr (inr (inr (inr (inr (inr (inr (inr (inr (inr (inr (inr (inr (inr (inr (inl (a0, a1, a2)))))))))))))))))))))))))))
    | DAwakenApply a0 a1 a2 a3 => inr (inr (inr (inr (inr (inr (inr (inr (inr (inr (inr (inr (inr (inr (inr (inr (inr (inr (inr (inr (inr (inr (inr (inr (inr (inr (inr (inl (a0, a1, a2, a3))))))))))))))))))))))))))))
    | DAwakenTick a0 a1 => inr (inr (inr (inr (inr (inr (inr (inr (inr (inr (inr (inr (inr (inr (inr (inr (inr (inr (inr (inr (inr (inr (inr (inr (inr (inr (inr (inr (inl (a0, a1)))))))))))))))))))))))))))))
    | DMirrorEpoch a0 => inr (inr (inr (inr (inr (inr (inr (inr (inr (inr (inr (inr (inr (inr (inr (inr (inr (inr (inr (inr (inr (inr (inr (inr (inr (inr (inr (inr (inr (inl a0)))))))))))))))))))))))))))))
    | DMirrorReplay a0 => inr (inr (inr (inr (inr (inr (inr (inr (inr (inr (inr (inr (inr (inr (inr (inr (inr (inr (inr (inr (inr (inr (inr (inr (inr (inr (inr (inr (inr (inr (a0))))))))))))))))))))))))))))))
  end.
Definition EventDelta_of_sum (x : EventDelta_sum) : option EventDelta :=
  match x with
    | inl a0 => Some (DTick a0)
    | inr (inl a0) => Some (DSpawn a0)
    | inr (inr (inl (a0, a1))) => Some (DDivide a0 a1)
    | inr (inr (inr (inl a0))) => Some (DSleep a0)
    | inr (inr (inr (inr (inl a0)))) => Some (DDead a0)
    | inr (inr (inr (inr (inr (inl (a0, a1)))))) => Some (DLink a0 a1)
    | inr (inr (inr (inr (inr (inr (inl (a0, a1))))))) => Some (DUnlink a0 a1)
    | inr (inr (inr (inr (inr (inr (inr (inl (a0, a1)))))))) => Some (DAffinity a0 a1)
    | inr (inr (inr (inr (inr (inr (inr (inr (inl a0)))))))) => Some (DEnergy a0)
    | inr (inr (inr (inr (inr (inr (inr (inr (inr (inl a0))))))))) => Some (DReflexAdd a0)
    | inr (inr (inr (inr (inr (inr (inr (inr (inr (inr (inl a0)))))))))) => Some (DReflexRemove a0)
    | inr (inr (inr (inr (inr (inr (inr (inr (inr (inr (inr (inl a0))))))))))) => Some (DReflexFire a0)
    | inr (inr (inr (inr (inr (inr (inr (inr (inr (inr (inr (inr (inl a0)))))))))))) => Some (DTrsSet a0)
    | inr (inr (inr (inr (inr (inr (inr (inr (inr (inr (inr (inr (inr (inl a0))))))))))))) => Some (DTrsTarget a0)
    | inr (inr (inr (inr (inr (inr (inr (inr (inr (inr (inr (inr (inr (inr (inl a0)))))))))))))) => Some (DTrsTrace a0)
    | inr (inr (inr (inr (inr (inr (inr (inr (inr (inr (inr (inr (inr (inr (inr (inl a0))))))))))))))) => Some (DTrsHarmony a0)
    | inr (inr (inr (inr (inr (inr (inr (inr (inr (inr (inr (inr (inr (inr (inr (inr (inl a0)))))))))))))))) => Some (DDreamConfig a0)
    | inr (inr (inr (inr (inr (inr (inr (inr (inr (inr (inr (inr (inr (inr (inr (inr (inr (inl a0))))))))))))))))) => Some (DSyncConfig a0)
    | inr (inr (inr (inr (inr (inr (inr (inr (inr (inr (inr (inr (inr (inr (inr (inr (inr (inr (inl a0)))))))))))))))))) => Some (DDreamStrengthen a0)
    | inr (inr (inr (inr (inr (inr (inr (inr (inr (inr (inr (inr (inr (inr (inr (inr (inr (inr (inr (inl a0))))))))))))))))))) => Some (DDreamWeaken a0)
    | inr (inr (inr (inr (inr (inr (inr (inr (inr (inr (inr (inr (inr (inr (inr (inr (inr (inr (inr (inr (inl (a0, a1))))))))))))))))))))) => Some (DDreamPrune a0 a1)
    | inr (inr (inr (inr (inr (inr (inr (inr (inr (inr (inr (inr (inr (inr (inr (inr (inr (inr (inr (inr (inr (inl (a0, a1)))))))))))))))))))))) => Some (DDreamRewire a0 a1)
    | inr (inr (inr (inr (inr (inr (inr (inr (inr (inr (inr (inr (inr (inr (inr (inr (inr (inr (inr (inr (inr (inr (inl (a0, a1))))))))))))))))))))))) => Some (DDreamReport a0 a1)
    | inr (inr (inr (inr (inr (inr (inr (inr (inr (inr (inr (inr (inr (inr (inr (inr (inr (inr (inr (inr (inr (inr (inr (inl (a0, a1, a2)))))))))))))))))))))))) => Some (DSyncShare a0 a1 a2)
    | inr (inr (inr (inr (inr (inr (inr (inr (inr (inr (inr (inr (inr (inr (inr (inr (inr (inr (inr (inr (inr (inr (inr (inr (inl (a0, a1, a2))))))))))))))))))))))))) => Some (DSyncAlign a0 a1 a2)
    | inr (inr (inr (inr (inr (inr (inr (inr (inr (inr (inr (inr (inr (inr (inr (inr (inr (inr (inr (inr (inr (inr (inr (inr (inr (inl (a0, a1)))))))))))))))))))))))))) => Some (DCollectiveDreamReport a0 a1)
    | inr (inr (inr (inr (inr (inr (inr (inr (inr (inr (inr (inr (inr (inr (inr (inr (inr (inr (inr (inr (inr (inr (inr (inr (inr (inr (inl (a0, a1, a2))))))))))))))))))))))))))) => Some (DModelBuild a0 a1 a2)
    | inr (inr (inr (inr (inr (inr (inr (inr (inr (inr (inr (inr (inr (inr (inr (inr (inr (inr (inr (inr (inr (inr (inr (inr (inr (inr (inr (inl (a0, a1, a2, a3)))))))))))))))))))))))))))) => Some (DAwakenApply a0 a1 a2 a3)
    | inr (inr (inr (inr (inr (inr (inr (inr (inr (inr (inr (inr (inr (inr (inr (inr (inr (inr (inr (inr (inr (inr (inr (inr (inr (inr (inr (inr (inl (a0, a1))))))))))))))))))))))))))))) => Some (DAwakenTick a0 a1)
    | inr (inr (inr (inr (inr (inr (inr (inr (inr (inr (inr (inr (inr (inr (inr (inr (inr (inr (inr (inr (inr (inr (inr (inr (inr (inr (inr (inr (inr (inl a0))))))))))))))))))))))))))))) => Some (DMirrorEpoch a0)
    | inr (inr (inr (inr (inr (inr (inr (inr (inr (inr (inr (inr (inr (inr (inr (inr (inr (inr (inr (inr (inr (inr (inr (inr (inr (inr (inr (inr (inr (inr (a0)))))))))))))))))))))))))))))) => Some (DMirrorReplay a0)
  end.
#[export] Instance Ser_EventDelta : Ser EventDelta := Ser_via (B := EventDelta_sum) EventDelta_to_sum EventDelta_of_sum.
#[export] Instance Ser_EventDelta_ok : SerOk EventDelta. Proof. apply (Ser_via_ok (B := EventDelta_sum)). by intros []. Qed.

(** ** The instances *)
Definition cbor_delta : Cbor EventDelta := Cbor_of EventDelta.
Definition cbor_delta_ok : @CborOk _ cbor_delta := Cbor_of_ok EventDelta.
Definition cbor_delta_total : @CborTotal _ cbor_delta := Cbor_of_total EventDelta.
Definition cbor_store_manifest : Cbor StoreManifest := Cbor_of StoreManifest.
Definition cbor_store_manifest_ok : @CborOk _ cbor_store_manifest := Cbor_of_ok StoreManifest.

(** An envelope without the seeds of its garden. *)
Definition Flat : Type :=
  Z * Z * list CellSnapshot * list ReflexRule * Z * option TrsState * option DreamConfig * option SyncConfig
  * option AwakeningConfig * option ResonantModel * option SyncLog * Z * option MirrorTimeline * (Z * list SeedLog).
Definition flat (e : SnapshotEnvelope) : Flat :=
  (se_now_ms e, se_next_id e, se_cells e, se_rules e, se_next_reflex_id e, se_trs e, se_dream e, se_sync e,
   se_awakening e, se_resonant e, se_sync_log e, se_last_awaken_tick e, se_mirror e,
   (sg_next_id (se_seed_garden e), recent (se_seed_garden e))).
Definition unflat (x : Flat) : SnapshotEnvelope :=
  let '(a0, a1, a2, a3, a4, a5, a6, a7, a8, a9, a10, a11, a12, (next, log)) := x in
  mkEnvelope a0 a1 a2 a3 a4 a5 a6 a7 a8 a9 a10 a11 a12 (mkGarden ∅ next log).

#[export] Instance Ser_Flat : Ser Flat := ltac:(unfold Flat; exact _).
#[export] Instance Ser_Flat_ok : SerOk Flat.
Proof. unfold Flat, Ser_Flat. exact _. Qed.

Definition cbor_envelope : Cbor SnapshotEnvelope :=
  {| to_vec e := if (size (seeds (se_seed_garden e)) =? 0)%nat then Ok (ser (A := Flat) (flat (wire e)))
                 else Err "a garden with seeds is not supported";
     from_slice b := match par (A := Flat) b with
                     | Some (x, []) => Ok (unflat x)
                     | _ => Err "trailing or malformed data"
                     end |}.
Definition cbor_envelope_ok : @EnvelopeOk cbor_envelope.
Proof.
  intros e b. unfold to_vec, from_slice, cbor_envelope. destruct (Nat.eqb_spec (size (seeds (se_seed_garden e))) 0) as [E |]; [| done].
  intros Hb. assert (b = ser (A := Flat) (flat (wire e))) as -> by congruence. pose proof (par_ser (A := Flat) (flat (wire e)) []) as Ep. rewrite app_nil_r in Ep. rewrite Ep.
  f_equal. apply map_size_empty_inv in E. destruct e as [? ? ? ? ? ? ? ? ? ? ? ? ? [g n l]]. cbn in *. by subst.
Qed.

(** ** A text for every JSON value, for examples

    A tree whose leaves are serialized, as the bits of a number between braces. *)
Fixpoint json_tree (j : json) : gen_tree string :=
  match j with
  | JNull => GenNode 0 []
  | JBool b => GenNode 1 [GenLeaf (of_bytes (ser b))]
  | JU64 n => GenNode 2 [GenLeaf (of_bytes (ser n))]
  | JI64 n => GenNode 3 [GenLeaf (of_bytes (ser n))]
  | JF64 x => GenNode 4 [GenLeaf (of_bytes (ser x))]
  | JStr s => GenNode 5 [GenLeaf s]
  | JArr l => GenNode 6 (map json_tree l)
  | JObj m => GenNode 7 (map (fun p => GenNode 0 [GenLeaf p.1; p.2]) (map_to_list (json_tree <$> m)))
  end.

Definition leaf_value {A : Type} `{Ser A} (s : string) : option A := fst <$> par (as_bytes s).

Fixpoint tree_json (t : gen_tree string) : option json :=
  match t with
  | GenNode 0 [] => Some JNull
  | GenNode 1 [GenLeaf s] => JBool <$> leaf_value s
  | GenNode 2 [GenLeaf s] => JU64 <$> leaf_value s
  | GenNode 3 [GenLeaf s] => JI64 <$> leaf_value s
  | GenNode 4 [GenLeaf s] => JF64 <$> leaf_value s
  | GenNode 5 [GenLeaf s] => Some (JStr s)
  | GenNode 6 l => JArr <$> mapM tree_json l
  | GenNode 7 l =>
      (fun ps => JObj (list_to_map ps)) <$>
      mapM (fun p => match p with GenNode _ [GenLeaf k; v] => (fun j => (k, j)) <$> tree_json v | _ => None end) l
  | _ => None
  end.

Lemma leaf_value_ser {A} `{SerOk A} (x : A) : leaf_value (of_bytes (ser x)) = Some x.
Proof. unfold leaf_value. rewrite as_of_bytes, <- (app_nil_r (ser x)), par_ser. done. Qed.

Lemma tree_json_tree j : tree_json (json_tree j) = Some j.
Proof.
  induction j as [| b | n | n | x | s | l IH | m IH] using json_ind2; cbn [json_tree tree_json];
    rewrite ?leaf_value_ser; try done.
  - enough (mapM tree_json (map json_tree l) = Some l) as -> by done.
    induction IH as [|j l Hj _ IH']; [done |]. cbn. by rewrite Hj; cbn; rewrite IH'.
  - rewrite map_to_list_fmap.
    assert (forall l, Forall (fun p => tree_json (json_tree p.2) = Some p.2) l ->
      mapM (fun p => match p with GenNode _ [GenLeaf k; v] => (fun j => (k, j)) <$> tree_json v | _ => None end)
        (map (fun p => GenNode 0 [GenLeaf p.1; p.2]) (prod_map id json_tree <$> l)) = Some l) as E.
    { induction 1 as [|[k j] l Hj _ IH']; [done |]. cbn in *. rewrite Hj. cbn. by rewrite IH'. }
    rewrite E; [cbn; by rewrite list_to_map_to_list |]. apply Forall_forall. intros [k j] Hin.
    apply elem_of_map_to_list in Hin. by apply (IH k j).
Qed.

Definition tree_text : JsonText :=
  {| json_to_string j := "{" +:+ of_bytes (ser_pos (encode (json_tree j))) +:+ "}";
     json_from_str s :=
       match as_bytes s with
       | _ :: b => match par_pos b with Some (p, _) => decode p ≫= tree_json | None => None end
       | [] => None
       end;
     reread x := x |}.

Lemma map_floats_id j : map_floats (fun x => x) j = j.
Proof.
  induction j as [| b | n | n | x | s | l IH | m IH] using json_ind2; cbn; try done; f_equal.
  - induction IH as [|j l Hj _ IH']; [done |]. cbn. by rewrite Hj, IH'.
  - apply map_eq. intros k. rewrite lookup_fmap. destruct (m !! k) as [j|] eqn:E; [| done]. cbn. by rewrite (IH k j E).
Qed.

Lemma braces b : "{" +:+ of_bytes b +:+ "}" = of_bytes (Byte.x7b :: b ++ [Byte.x7d]).
Proof. apply as_bytes_inj. rewrite !as_bytes_app, !as_of_bytes. done. Qed.

Lemma tree_text_ok : @JsonTextOk tree_text.
Proof.
  split; unfold json_to_string, json_from_str, reread, tree_text.
  - intros j. rewrite braces, as_of_bytes. pose proof (par_ser (encode (json_tree j)) [Byte.x7d]) as E.
    change (par_pos (ser_pos (encode (json_tree j)) ++ [Byte.x7d]) = Some (encode (json_tree j), [Byte.x7d])) in E.
    rewrite E, decode_encode. cbn [mbind option_bind]. by rewrite tree_json_tree, map_floats_id.
  - intros m. by eexists.
  - intros j. rewrite braces. by apply trim_graphic.
Qed.
