(* ===== verification/DatabaseProps.v ===== *)
(** * What a database keeps across restarts and crashes

    A database is [storing] when its field is well formed and its disk holds a segmented log; it is
    [saved] when, moreover, its latest snapshot and the log from there on explain the durable part
    of the field. A snapshot saves a storing database, operations, snapshots and restarts keep it
    saved, and a saved database is recovered by a restart. *)

From stdpp Require Import prelude gmap strings fin_maps fin_sets list sorting relations.
From Stdlib Require Import ZArith Lia SpecFloat.
From S2P Require Import Prelude RustStr Wal WalSpec WalRead WalProps Crypto RustOrd Float RustText Json NodeCell Trs Seeds Symmetry FieldTypes Feedback Variant Resonant Journal Collections Field FieldOps FieldTick FieldInv FieldReplay FieldSteps FieldSound FieldProps LifeLoop LifeProps StoreFiles Snapshot Database FieldCodec.

Section props.
Context `{UnicodeCase, !CaseStable, SeedRng, FloatMath, LifeEnv, Crc32, !Crc32Ok}.
Context `{Cbor EventDelta, !CborOk EventDelta, !CborTotal EventDelta, Cbor StoreManifest, !CborOk StoreManifest}.
Context `{Cbor SnapshotEnvelope, !EnvelopeOk}.

(** ** The disk *)
Definition latest (j : DiskJournal) : result (option (ClusterFieldSeed * Offset)) StoreError :=
  snd (load_latest_snapshot j).

Lemma latest_files j j' :
  st_manifest (dj_store j) = st_manifest (dj_store j') -> st_snap (dj_store j) = st_snap (dj_store j') ->
  latest j = latest j'.
Proof.
  intros Em Es. unfold latest, load_latest_snapshot, read_manifest. rewrite Em, Es.
  destruct (st_manifest (dj_store j')) as [b|]; [| done]. cbn [rbind].
  destruct (map_err CborError (from_slice b)) as [m|e]; [| done]. cbn [rbind].
  destruct (last_snapshot m); [| done]. by destruct (let! _ := _ in _).
Qed.

Lemma load_latest_store j : dj_store (load_latest_snapshot j).1 = dj_store j.
Proof.
  unfold load_latest_snapshot. destruct (read_manifest (dj_store j)) as [[m|]|]; [| done | done].
  destruct (last_snapshot m); [| done]. by destruct (let! _ := _ in _).
Qed.

Definition encodes (ds : list EventDelta) (ps : list bytes) : Prop := Forall2 (fun d p => to_vec d = Ok p) ds ps.

(** The deltas fit: each in a frame, and all in the segments that are left. *)
Definition fits (ds : list EventDelta) (j : DiskJournal) : Prop :=
  Forall (fun d => forall b, to_vec d = Ok b -> payload_ok b) ds /\
  (current_segment (dj_store j) + Z.of_nat (length ds) + 1 < u64_size)%Z.

Lemma append_deltas_spec ds : forall j sg s ps,
  store_inv (dj_store j) sg s ps -> fits ds j ->
  exists sg' s' ps' bs, let j' := append_deltas ds j in
    store_inv (dj_store j') sg' s' ps' /\ encodes ds bs /\ (s' <= s + Z.of_nat (length ds))%Z /\
    (forall o rest, offset_at (sg ++ [(s, ps)]) o rest -> offset_at (sg' ++ [(s', ps')]) o (rest ++ bs)) /\
    st_manifest (dj_store j') = st_manifest (dj_store j) /\ st_snap (dj_store j') = st_snap (dj_store j).
Proof.
  unfold append_deltas, encodes. induction ds as [|d ds IH]; intros j sg s ps Hinv [Hfit Hseg]; cbn [fold_left].
  { exists sg, s, ps, []. split_and!; try done; [cbn; lia |]. intros o rest. by rewrite app_nil_r. }
  apply Forall_cons_1 in Hfit as [Hd Hfit]. pose proof (inv_segment _ _ _ _ Hinv) as Es.
  unfold current_segment in Hseg. rewrite Es in Hseg. cbn [length] in *.
  pose proof (to_vec_total d) as Ht. destruct (to_vec d) as [b|] eqn:Eb; [| done].
  destruct (append_step _ _ _ _ b Hinv (Hd b eq_refl) ltac:(lia))
    as (st & off & sg1 & s1 & ps1 & Ea & Hinv1 & Hs1 & _ & _ & Hoff & Esn & Ema & _).
  assert (append_delta j d = mkJournal st (u64_add (delta_counter j) 1) (last_id j)) as ->.
  { unfold append_delta, encode_delta. rewrite Eb. cbn [map_err]. by rewrite Ea. }
  destruct (IH (mkJournal st (u64_add (delta_counter j) 1) (last_id j)) sg1 s1 ps1 Hinv1) as (sg2 & s2 & ps2 & bs & Hinv2 & He & Hs2 & Hoff2 & Em2 & Esn2).
  { split; [done |]. unfold current_segment. cbn [dj_store]. rewrite (inv_segment _ _ _ _ Hinv1). lia. }
  exists sg2, s2, ps2, (b :: bs). split_and!; [done | by constructor | lia | | by rewrite Em2 | by rewrite Esn2].
  intros o rest Ho. rewrite (cons_middle b rest bs), app_assoc. by apply Hoff2, Hoff.
Qed.

(** ** Starting *)
Lemma replay_encoded ds : forall bs os f,
  encodes ds bs -> exists l, l.*2 = ds /\ replay_records os (Ok <$> bs) f = Ok (replay_all l f).
Proof.
  intros bs os f He. revert os f. induction He as [|d b ds bs Hd He IH]; intros os f; [by exists [] |].
  cbn [fmap list_fmap replay_records map_err rbind]. unfold decode_delta. rewrite (from_to_vec _ _ Hd). cbn [map_err rbind].
  destruct (IH (fun n => os (S n)) (apply_delta (os 0) f d)) as (l & <- & ->). by exists ((os 0, d) :: l).
Qed.

Lemma open_database_spec os r st seed off ds sg s ps rest :
  Store_open r = Ok st -> store_inv st sg s ps -> offset_at (sg ++ [(s, ps)]) off rest -> encodes ds rest ->
  (forall k n, latest (mkJournal st k n) = Ok (Some (seed, off))) ->
  exists l j, l.*2 = ds /\ dj_store j = st /\
    open_database os r = Ok (mkDb (attached (plant_root (os 1) (replay_all l (into_field (os 0) seed)))) j).
Proof.
  intros Eo Hinv Hoff He Hl. unfold open_database, DiskJournal_open. rewrite Eo. cbn [map_err rbind].
  set (j0 := mkJournal st 0 _). pose proof (load_latest_store j0) as Es. specialize (Hl 0%Z (last_id j0)).
  change (mkJournal st 0 (last_id j0)) with j0 in Hl. unfold latest in Hl.
  destruct (load_latest_snapshot j0) as [j1 r1]. cbn [fst snd] in *. rewrite Hl. cbn [rbind].
  unfold journal_stream. rewrite Es. cbn [dj_store j0].
  rewrite (inv_data _ _ _ _ Hinv), (read_from_offset _ _ _ (inv_log _ _ _ _ Hinv) Hoff). cbn [map_err rbind].
  destruct (replay_encoded ds rest (fun n => os (S (S n))) (into_field (os 0) seed) He) as (l & Hl2 & ->). cbn [rbind].
  by exists l, j1.
Qed.

(** ** The invariants *)
Definition storing (db : Db) : Prop :=
  field_wf (db_field db) /\ setup_ok (setup (db_field db)) /\
  exists sg s ps, store_inv (dj_store (db_journal db)) sg s ps.

(** A field that replay can start from. *)
Definition base_ok (b : ClusterField) : Prop := setup_ok (setup b) /\ indexed b /\ alive (cells (graph b)).

Record explained (db : Db) (seed : ClusterFieldSeed) (off : Offset) (ds : list EventDelta) : Prop := {
  xp_log : exists sg s ps rest, store_inv (dj_store (db_journal db)) sg s ps /\
             offset_at (sg ++ [(s, ps)]) off rest /\ encodes ds rest;
  xp_latest : latest (db_journal db) = Ok (Some (seed, off));
  xp_base : forall o, base_ok (into_field o seed) /\ explains ds (into_field o seed) (db_field db)
}.
Definition saved (db : Db) : Prop := storing db /\ exists seed off ds, explained db seed off ds.

Lemma attached_frame f : core (attached f) = core f /\ setup (attached f) = setup f. Proof. done. Qed.

Lemma base_ok_wf f : field_wf f -> setup_ok (setup f) -> base_ok f.
Proof.
  intros [[[Hpos Hcs] Hidx] Ha] Hs. split_and!; [done | | done]. split; [| done].
  intros id c E. by destruct (Hcs id c E).
Qed.

(** The latest snapshot after one was written. *)
Lemma write_snapshot_latest o f j j' info :
  field_wf f -> rules_keyed f -> write_snapshot o f j = (j', Ok info) ->
  latest j' = Ok (Some (snapshot_seed o f, end_offset (dj_store j))) /\ si_offset info = end_offset (dj_store j) /\
  st_data (dj_store j') = st_data (dj_store j) /\ st_writer (dj_store j') = st_writer (dj_store j).
Proof.
  intros Hw Hr. unfold write_snapshot. destruct (create_snapshot o f) as [b|] eqn:Eb; [| done].
  destruct (fs_write _ _ b) as [snap|] eqn:Es; [| done]. unfold write_manifest. set (m := mkManifest _ _ _).
  destruct (to_vec m) as [mb|] eqn:Em; [| done]. cbn [map_err rbind]. intros [= <- <-]. split_and!; try done.
  unfold latest, load_latest_snapshot, read_manifest. cbn [dj_store st_manifest st_snap].
  rewrite (from_to_vec _ _ Em). cbn [map_err rbind]. cbn [m last_snapshot].
  rewrite (fs_read_write _ _ _ _ Es). cbn [rbind]. rewrite (load_created o f b Eb). cbn [rbind snd].
  unfold wal_segment, wal_position, m. by destruct (end_offset (dj_store j)).
Qed.

Lemma clamp_twice x lo hi :
  f_lt lo lo = false -> f_lt hi lo = false -> f_lt hi hi = false ->
  f32_clamp (f32_clamp x lo hi) lo hi = f32_clamp x lo hi.
Proof.
  intros E1 E2 E3. unfold f32_clamp. destruct (f_lt x lo) eqn:Ex; [by rewrite E1, E2 |].
  destruct (f_lt hi x) eqn:Ey; [by rewrite E2, E3 | by rewrite Ex, Ey].
Qed.

Lemma clamp_sync_twice cfg : clamp_sync (clamp_sync cfg) = clamp_sync cfg.
Proof.
  unfold clamp_sync. cbn [set_weight_xfer weight_xfer]. rewrite clamp_twice by (by vm_compute). done.
Qed.

(** The field of a snapshot has the durable part of the field it was taken of. *)
Lemma snapshot_base o o' f : field_wf f -> setup_ok (setup f) ->
  base_ok (into_field o' (snapshot_seed o f)) /\ durably f (into_field o' (snapshot_seed o f)).
Proof.
  intros Hw [Hk Hn]. destruct (snapshot_field o o' f Hw Hk) as (g & -> & Hc & Hx & Hi).
  assert (reflex_number (snapshot_seed o f) (rules (control f)) = next_reflex_id (control f)) as ->.
  { unfold reflex_number. change (fs_next_reflex_id (snapshot_seed o f)) with (next_reflex_id (control f)).
    destruct (Z.eqb_spec (next_reflex_id (control f)) 0); [lia | done]. }
  destruct Hw as [[[Hpos Hcs] Hidx] Ha]. split.
  - split_and!; [by split | | by cbn; rewrite Hc].
    split; cbn; rewrite Hc; [| done]. intros id c E. by destruct (Hcs id c E).
  - split; [intros id; cbn; by rewrite Hc | exact Hx |].
    unfold setup, plan. cbn [now_ms control cycles rules next_reflex_id dream_cfg sync_cfg]. by rewrite clamp_sync_twice.
Qed.

(** A snapshot saves a storing database. *)
Lemma snapshot_saves o db db' info :
  storing db -> snapshot_once o db = (db', Ok info) -> saved db' /\ db_field db' = db_field db.
Proof.
  intros (Hw & Hs & sg & s & ps & Hinv). unfold snapshot_once.
  destruct (write_snapshot o (db_field db) (db_journal db)) as [j r] eqn:Ew. destruct r as [info'|]; [| done].
  intros [= <- ->]. split; [| done].
  destruct (write_snapshot_latest _ _ _ _ _ Hw (proj1 Hs) Ew) as (Hl & -> & Hd & Hwr).
  assert (store_inv (dj_store j) sg s ps) as Hinv1.
  { destruct Hinv. split; rewrite ?Hd, ?Hwr; done. }
  destruct (gc_step _ _ _ _ (end_offset (dj_store (db_journal db))) Hinv1) as (st & Hgc & Hinv2 & Esn & Ema & _ & Hoff).
  unfold run_gc. rewrite Hgc. cbn [fst].
  split; [by split_and!; [| | eauto] |]. exists (snapshot_seed o (db_field db)), (end_offset (dj_store (db_journal db))), [].
  split.
  - do 3 eexists. exists []. split_and!; [exact Hinv2 | | by constructor]. apply Hoff; [| done].
    unfold end_offset. rewrite (inv_segment _ _ _ _ Hinv), (inv_size _ _ _ _ Hinv). apply offset_end_at.
  - by rewrite <- Hl; apply latest_files.
  - intros o'. destruct (snapshot_base o o' (db_field db) Hw Hs) as [Hb Hdu]. split; [done | by apply explains_refl].
Qed.

(** A step of the field that tells the journal what it does. *)
Definition told (f f' : ClusterField) : Prop := field_wf f' /\ exists ds, accounts ds (attached f) f'.
Definition db_tell (f' : ClusterField) (db : Db) : Db := mkDb f' (append_deltas (emitted f') (db_journal db)).

Lemma told_emitted f f' : told f f' -> accounts (emitted f') (attached f) f'.
Proof. intros [_ [ds Hds]]. unfold emitted. by rewrite (proj1 Hds [] eq_refl). Qed.

Lemma told_attached f : field_wf f -> told f (attached f).
Proof.
  intros Hw. split; [done |]. exists []. destruct (os_log _ _ _ (ok_frame (attached f) (attached f) Hw eq_refl eq_refl eq_refl)) as [ds Hds].
  assert (ds = []) as -> by (pose proof (proj1 Hds [] eq_refl) as E; injection E; by intros ->). exact Hds.
Qed.

Lemma told_op o op f : field_wf f -> room op f -> visible op f -> told f (field_apply o op (attached f)).
Proof.
  intros Hw Hr Hv. destruct (field_apply_sound o op (attached f)) as (n & Hw' & _ & Hd); [exact Hw | by destruct op |].
  split; [done |]. apply Hd. by destruct op.
Qed.

Lemma told_round i s f s' f' out :
  field_wf f -> life_room f -> round_visible i s (attached f) -> life_round i s (attached f) = Some (s', f', out) -> told f f'.
Proof.
  intros Hw Hr Hv He. destruct (life_round_sound i s (attached f) s' f' out Hw Hr He) as (n & Hw' & _ & Hd).
  split; [done | by apply Hd].
Qed.

Lemma told_setup_ok f f' : told f f' -> setup_ok (setup f) -> setup_ok (setup f').
Proof.
  intros [_ [ds (_ & _ & _ & Ht & _)]] Hs. apply setup_ok_tell. rewrite Ht. by apply setup_ok_effects, setup_ok_tell.
Qed.

Lemma storing_told f' db :
  storing db -> told (db_field db) f' -> fits (emitted f') (db_journal db) -> storing (db_tell f' db).
Proof.
  intros (Hw & Hs & sg & s & ps & Hinv) Ht Hfit.
  destruct (append_deltas_spec _ _ _ _ _ Hinv Hfit) as (sg' & s' & ps' & bs & Hinv' & _).
  split_and!; [apply Ht | by eapply told_setup_ok |]. by exists sg', s', ps'.
Qed.

Lemma saved_told f' db :
  saved db -> told (db_field db) f' -> fits (emitted f') (db_journal db) -> saved (db_tell f' db).
Proof.
  intros [Hst (seed & off & ds & [(sg & s & ps & rest & Hinv & Hoff & He) Hl Hb])] Ht Hfit.
  split; [by apply storing_told |]. pose proof (told_emitted _ _ Ht) as Hacc.
  destruct (append_deltas_spec _ _ _ _ _ Hinv Hfit) as (sg' & s' & ps' & bs & Hinv' & He' & _ & Hoff' & Em & Es).
  exists seed, off, (ds ++ emitted f'). split.
  - exists sg', s', ps', (rest ++ bs). split_and!; [done | by apply Hoff' | by apply Forall2_app].
  - rewrite <- Hl. by apply latest_files.
  - intros o'. destruct (Hb o') as [Hok Hex]. split; [done |]. apply (explains_more ds _ _ (attached (db_field db))); [| exact Hacc].
    apply (explains_durably ds _ (db_field db)); [exact Hex | by split].
Qed.

Lemma storing_op o op db :
  storing db -> room op (db_field db) -> visible op (db_field db) ->
  fits (emitted (field_apply o op (attached (db_field db)))) (db_journal db) -> storing (db_apply o op db).
Proof. intros Hs Hr Hv Hf. apply (storing_told _ _ Hs); [by apply told_op; [apply Hs |..] | done]. Qed.

(** A restart of a saved database. *)
Lemma restart_saved os db :
  saved db -> (size (cells (graph (db_field db))) =? 0)%nat = false ->
  exists db', open_database os (db_close db) = Ok db' /\ saved db' /\ durably (db_field db) (db_field db').
Proof.
  intros [(Hw & Hs & _) (seed & off & ds & [(sg & s & ps & rest & Hinv & Hoff & He) Hl Hb])] Hne.
  destruct (open_log (db_close db) sg s ps DEFAULT_SEGMENT_SIZE) as (st & Eo & Hinv' & Esn & Ema);
    [by apply store_root_inv | done | done |].
  assert (forall k n, latest (mkJournal st k n) = Ok (Some (seed, off))) as Hl'.
  { intros k n. rewrite <- Hl. by apply latest_files. }
  destruct (open_database_spec os _ st seed off ds sg s ps rest Eo Hinv' Hoff He Hl') as (l & j & <- & Ej & Eop).
  destruct (Hb (os 0)) as [(Hbs & Hbi & Hba) Hex].
  destruct (replay_restores l _ _ Hex Hw Hbs Hbi Hba) as (Hw' & Hdu & Hs'). set (r := replay_all l _) in *.
  assert (plant_root (os 1) r = r) as Ep.
  { unfold plant_root. destruct (Nat.eqb_spec (size (cells (graph r))) 0) as [E |]; [| done]. exfalso.
    apply map_size_empty_inv in E. apply Nat.eqb_neq in Hne. apply Hne. apply map_size_empty_iff, map_eq. intros id.
    pose proof (du_cells _ _ Hdu id) as Hc. rewrite E, !lookup_empty in Hc. rewrite lookup_empty.
    by destruct (cells (graph (db_field db)) !! id). }
  rewrite Ep in Eop. eexists. split; [exact Eop |]. split; [| destruct Hdu; by split]. split.
  { split_and!; [done | done |]. exists sg, s, ps. cbn [db_journal]. by rewrite Ej. }
  exists seed, off, l.*2. split.
  - cbn [db_journal]. rewrite Ej. by exists sg, s, ps, rest.
  - rewrite <- (Hl' 0%Z 0%Z). apply latest_files; cbn [db_journal]; by rewrite Ej.
  - intros o'. destruct (Hb o') as [Hok Hex']. split; [done |].
    apply (explains_durably _ _ (db_field db)); [exact Hex' | destruct Hdu; by split].
Qed.

(** ** Runs *)
Inductive db_step : Db -> Db -> Prop :=
| DbOp o op db :
    room op (db_field db) -> visible op (db_field db) ->
    fits (emitted (field_apply o op (attached (db_field db)))) (db_journal db) -> db_step db (db_apply o op db)
| DbRound i s db s' f' out :
    life_room (db_field db) -> round_visible i s (attached (db_field db)) ->
    life_round i s (attached (db_field db)) = Some (s', f', out) -> fits (emitted f') (db_journal db) ->
    db_step db (db_tell f' db)
| DbSnapshot o db db' info : snapshot_once o db = (db', Ok info) -> db_step db db'
| DbRestart os db db' :
    size (cells (graph (db_field db))) <> 0 -> open_database os (db_close db) = Ok db' -> db_step db db'.

Lemma step_saved db db' : saved db -> db_step db db' -> saved db'.
Proof.
  intros Hs Hstep. destruct Hstep as [o op db Hr Hv Hfit | i s db s' f' out Hr Hv He Hfit | o db db' info Hsn | os db db' Hne Ho].
  - apply (saved_told (field_apply o op (attached (db_field db)))); [done | apply told_op; [apply Hs | done | done] | done].
  - apply saved_told; [done | eapply told_round; [apply Hs | done..] | done].
  - by apply (snapshot_saves o db db' info (proj1 Hs)).
  - apply Nat.eqb_neq in Hne. destruct (restart_saved os db Hs Hne) as (db2 & Ho2 & Hs2 & _). congruence.
Qed.

Lemma run_saved o db0 info db1 db :
  storing db0 -> snapshot_once o db0 = (db1, Ok info) -> rtc db_step db1 db -> saved db.
Proof.
  intros Hst Hsn Hrun. destruct (snapshot_saves _ _ _ _ Hst Hsn) as [Hs _]. clear Hst Hsn.
  induction Hrun as [db1 | db1 db2 db Hstep _ IH]; [done |]. apply IH. by eapply step_saved.
Qed.

(** The first start on an empty directory gives a storing database. *)
Lemma fresh_storing os : exists db, open_database os (mkRoot ∅ ∅ None false) = Ok db /\ storing db.
Proof.
  destruct (open_fresh ∅ None DEFAULT_SEGMENT_SIZE) as (st & Eo & Hinv & Esn & Ema); [done |].
  unfold open_database, DiskJournal_open, Store_open. rewrite Eo. cbn [map_err rbind].
  unfold load_latest_snapshot, read_manifest. cbn [dj_store]. rewrite Ema. cbn [rbind].
  unfold journal_stream. cbn [dj_store]. rewrite (inv_data _ _ _ _ Hinv).
  rewrite (read_from_offset _ _ _ (inv_log _ _ _ _ Hinv) (offset_start_at _ (inv_log _ _ _ _ Hinv) ltac:(done))).
  cbn [map_err rbind]. change (Ok <$> payloads _) with (@nil (result bytes WalError)). cbn [replay_records rbind].
  eexists. split; [reflexivity |].
  pose proof (add_root_ok (os 1) "liminal/root" ClusterField_new (new_field_wf None) ltac:(done)) as Hr.
  change (storing (mkDb (attached (fst (add_root (os 1) "liminal/root" ClusterField_new)))
    (mkJournal st 0 (foldr Z.max 0%Z (list_snapshots (st_snap st)))))).
  split_and!; [exact (os_wf _ _ _ Hr) | | by exists [], 1%Z, []].
  change (setup_ok (setup (fst (add_root (os 1) "liminal/root" ClusterField_new)))). rewrite (os_setup _ _ _ Hr).
  split; [by intros k r E | done].
Qed.

(** ** Crashes *)
(** The number of whole deltas on disk. *)
Definition surviving (fp : AppendFault) (k : nat) : nat :=
  match fp with Hook AfterWriteBeforeSync | Hook AfterSyncBeforeAck | SyncFails => S k | _ => k end.

Lemma survivors_app rest p fp : survivors rest p fp = rest ++ take (surviving fp 0) [p].
Proof. destruct fp as [[]| | |]; cbn; by rewrite ?app_nil_r. Qed.

(** The bytes of the delta that was being appended. *)
Definition torn_delta (o : HashOrder) (op : field_op) (k : nat) (db : Db) : bytes :=
  match emitted (field_apply o op (attached (db_field db))) !! k with
  | Some d => match encode_delta d with Ok b => b | Err _ => [] end
  | None => []
  end.

Lemma crash_log o op k (fp : AppendFault) db sg s ps root :
  store_inv (dj_store (db_journal db)) sg s ps ->
  let ds := emitted (field_apply o op (attached (db_field db))) in
  fits ds (db_journal db) -> db_crash o op k fp db = Some root ->
  if ambiguous fp (torn_delta o op k db) then exists at_, Store_open root = Err (AmbiguousPartialPayload at_)
  else
    exists st sg' s' ps' bs,
      Store_open root = Ok st /\ store_inv st sg' s' ps' /\
      st_snap st = st_snap (dj_store (db_journal db)) /\ st_manifest st = st_manifest (dj_store (db_journal db)) /\
      encodes (take (surviving fp k) ds) bs /\
      forall off rest, offset_at (sg ++ [(s, ps)]) off rest -> offset_at (sg' ++ [(s', ps')]) off (rest ++ bs).
Proof.
  intros Hinv ds [Hfit Hseg]. unfold db_crash, torn_delta. fold ds.
  destruct (ds !! k) as [d|] eqn:Ed; [| done]. cbn [mbind option_bind].
  pose proof (lookup_lt_Some _ _ _ Ed) as Hk.
  assert (fits (take k ds) (db_journal db)) as Hfk.
  { split; [by apply Forall_take |]. rewrite length_take. lia. }
  destruct (append_deltas_spec _ _ _ _ _ Hinv Hfk) as (sg1 & s1 & ps1 & bs & Hinv1 & He & Hs1 & Hoff & Em & Es).
  set (j := append_deltas (take k ds) (db_journal db)) in *.
  unfold encode_delta. destruct (to_vec d) as [b|] eqn:Eb; [| done]. cbn [map_err].
  assert (payload_ok b) as Hp by (eapply (Forall_lookup_1 _ _ _ _ Hfit Ed); done).
  assert (s1 + 1 < u64_size)%Z as Hroom.
  { rewrite length_take in Hs1. unfold current_segment in Hseg. rewrite (inv_segment _ _ _ _ Hinv) in Hseg. lia. }
  destruct (Store_append (dj_store j) b fp) as [st1 [|e]] eqn:Ea; [done |]. intros [= <-].
  destruct (ambiguous fp b) eqn:Hamb.
  { exact (failed_append_refused _ _ _ _ _ _ _ _ DEFAULT_SEGMENT_SIZE Hinv1 Hp Hroom Ea ltac:(done) Hamb). }
  destruct (failed_append_restart _ _ _ _ _ _ _ _ DEFAULT_SEGMENT_SIZE Hinv1 Hp Hroom Ea ltac:(done) Hamb)
    as (st & sg2 & s2 & ps2 & Eo & Hinv2 & _ & _ & Esn & Ema & Hoff2).
  exists st, sg2, s2, ps2, (bs ++ take (surviving fp 0) [b]).
  split_and!; [exact Eo | done | by rewrite Esn | by rewrite Ema | |].
  - assert (take (surviving fp k) ds = take k ds ++ take (surviving fp 0) [d]) as ->.
    { destruct fp as [[]| | |]; cbn [surviving]; rewrite ?app_nil_r; try done; by apply take_S_r. }
    apply Forall2_app; [done |]. apply Forall2_take. by repeat constructor.
  - intros off rest Ho. specialize (Hoff2 off _ (Hoff off rest Ho)). by rewrite survivors_app, <- app_assoc in Hoff2.
Qed.

(** ** The properties *)

(** C23: A snapshot restores the field. Of a well-formed field, a snapshot that was written is read back,
    and the field made of it has the cells, the clock, the next identifier, the rules, the next rule
    number, the TRS state, the configurations, the garden and the last awakening of the field it was
    taken of, the last entries of its epochs and of its log, and a rebuilt index that is exact; it is
    well formed, and has no journal. *)
Theorem snapshot_restores_field o o' f b :
  field_wf f -> setup_ok (setup f) -> create_snapshot o f = Ok b ->
  exists seed, load_snapshot b = Ok seed /\
  let r := into_field o' seed in
  cells (graph r) = cells (graph f) /\ next_id (graph r) = next_id (graph f) /\ now_ms r = now_ms f /\
  rules (control r) = rules (control f) /\ next_reflex_id (control r) = next_reflex_id (control f) /\
  trs (control r) = trs (control f) /\ dream_cfg (cycles r) = dream_cfg (cycles f) /\
  sync_cfg (cycles r) = clamp_sync (sync_cfg (cycles f)) /\ awakening_cfg (cycles r) = awakening_cfg (cycles f) /\
  sl_entries (sync_log (cycles r)) = last_n SYNCLOG_SNAPSHOT_LIMIT (sl_entries (sync_log (cycles f))) /\
  last_awaken_tick (cycles r) = last_awaken_tick (cycles f) /\
  mirror_epochs (cycles r) = last_n MIRROR_SNAPSHOT_LIMIT (mirror_epochs (cycles f)) /\
  seed_garden r = seed_garden f /\ index_exact (cells (graph f)) (index (graph r)) /\ field_wf r /\ journal r = None.
Proof.
  intros Hw Hs Hb. exists (snapshot_seed o f). split; [by apply load_created |]. cbv zeta.
  destruct (snapshot_base o o' f Hw Hs) as [(_ & Hi & Ha) Hdu].
  pose proof (durably_wf f _ Hw Hdu Hi Ha) as Hw'. clear Hi Ha.
  destruct (snapshot_field o o' f Hw (proj1 Hs)) as (g & E & Hc & Hx & Hi). rewrite E in *.
  pose proof (f_equal (fun p : Plan => p.1.1.2) (du_plan _ _ Hdu)) as Hn. split_and!; done.
Qed.

(** A database is recovered. From the first snapshot of a storing database on, whatever the
    operations, further snapshots with their compaction, and restarts, opening the files the process
    leaves behind succeeds and gives a well-formed field with the durable part of the one that was
    lost: the skeletons of all cells, the next identifier, the clock, the rules up to the case of
    their tokens, and the configuration. *)
Theorem database_recovers os o db0 info db1 db :
  storing db0 -> snapshot_once o db0 = (db1, Ok info) -> rtc db_step db1 db ->
  size (cells (graph (db_field db))) <> 0 ->
  exists db', open_database os (db_close db) = Ok db' /\ durably (db_field db) (db_field db') /\ field_wf (db_field db').
Proof.
  intros Hst Hsn Hrun Hne. pose proof (run_saved o db0 info db1 db Hst Hsn Hrun) as Hs. apply Nat.eqb_neq in Hne.
  destruct (restart_saved os db Hs Hne) as (db' & Ho & ((Hw & _) & _) & Hdu). by exists db'.
Qed.

End props.

(** ** A database on a disk *)
Section demo.
#[local] Instance demo_case : UnicodeCase := ascii_case.
#[local] Instance demo_rng : SeedRng := fun _ => (lit 5 10, lit 9 10, 7%Z).
#[local] Instance demo_math : FloatMath := {| f32_ln x := x; f32_exp x := x |}.
#[local] Instance demo_env : LifeEnv := {| json_to_vec _ := []; life_blake3 b := b; cbor_to_vec _ := [] |}.
#[local] Instance demo_crc : Crc32 := ieee.
#[local] Existing Instances ieee_ok cbor_delta cbor_delta_ok cbor_delta_total cbor_store_manifest cbor_store_manifest_ok
  cbor_envelope cbor_envelope_ok.

Definition empty_root : Root := mkRoot ∅ ∅ None false.
Definition orders : nat -> HashOrder := fun n => if Nat.even n then id_order else rev_order.
Definition default_db : Db := mkDb ClusterField_new (mkJournal (mkStore ∅ ∅ None (mkWriter 1 1 (mkHandle "" 0) 0)) 0 0).
Definition db_or (r : result Db StoreError) : Db := match r with Ok db => db | Err _ => default_db end.

(** A round in which every coin is heads. *)
Definition loud_input : LifeInput :=
  mkInput rev_order (fun _ => f0) (true, true) (fun _ => (true, true)) (f0, f0) (fun _ => true) 3 4 (fun _ => 5%Z) None None.

(** What happens to a database, and whether it can. *)
Inductive db_event : Type :=
| EOp (o : HashOrder) (op : field_op)
| ERound (s : LifeState)
| ESnapshot (o : HashOrder)
| ERestart (os : nat -> HashOrder).
Definition db_do (db : Db) (e : db_event) : Db :=
  match e with
  | EOp o op => db_apply o op db
  | ERound s =>
      match life_round loud_input s (attached (db_field db)) with Some (_, f, _) => db_tell f db | None => db end
  | ESnapshot o => fst (snapshot_once o db)
  | ERestart os => db_or (open_database os (db_close db))
  end.
Definition fits_b (ds : list EventDelta) (j : DiskJournal) : bool :=
  forallb (fun d => match to_vec d with Ok b => (blen b <? u32_size)%Z | Err _ => true end) ds
  && (current_segment (dj_store j) + Z.of_nat (length ds) + 1 <? u64_size)%Z.
Definition event_ok (db : Db) (e : db_event) : Prop :=
  match e with
  | EOp o op => room op (db_field db) /\ visible op (db_field db) /\
      fits_b (emitted (field_apply o op (attached (db_field db)))) (db_journal db) = true
  | ERound s => life_room (db_field db) /\ round_visible loud_input s (attached (db_field db)) /\
      match life_round loud_input s (attached (db_field db)) with
      | Some (_, f, _) => fits_b (emitted f) (db_journal db) = true
      | None => False
      end
  | ESnapshot o => is_ok (snd (snapshot_once o db)) = true
  | ERestart os => (size (cells (graph (db_field db))) =? 0)%nat = false /\ is_ok (open_database os (db_close db)) = true
  end.
Fixpoint events_ok (es : list db_event) (db : Db) : Prop :=
  match es with
  | [] => True
  | e :: es' => event_ok db e /\ events_ok es' (db_do db e)
  end.

Lemma fits_spec ds j : fits_b ds j = true -> fits ds j.
Proof.
  unfold fits_b. intros [Hf Hs]%andb_true_iff. split; [| by apply Z.ltb_lt].
  apply Forall_forall. intros d Hd b Eb. rewrite forallb_forall in Hf. specialize (Hf d ltac:(by apply list_elem_of_In)).
  rewrite Eb in Hf. by apply Z.ltb_lt.
Qed.

Lemma events_run es : forall db, events_ok es db -> rtc db_step db (fold_left db_do es db).
Proof.
  induction es as [|e es IH]; intros db Hok; [done |]. destruct Hok as [He Hok]. cbn [fold_left].
  eapply rtc_l; [| by apply IH]. destruct e as [o op | s | o | os]; cbn [event_ok db_do] in *.
  - destruct He as (Hr & Hv & Hf). apply DbOp; [done | done | by apply fits_spec].
  - destruct He as (Hr & Hv & Hf). destruct (life_round _ s _) as [[[s' f] out]|] eqn:E; [| done].
    eapply DbRound; [done | exact Hv | exact E | by apply fits_spec].
  - destruct (snapshot_once o db) as [db' [info |]] eqn:E; [| done]. by apply (DbSnapshot o db db' info).
  - destruct He as [Hn Ho]. destruct (open_database os (db_close db)) as [db' |] eqn:E; [| done].
    apply (DbRestart os db db'); [by apply Nat.eqb_neq | done].
Qed.

(** The first start: an empty directory, and a root the journal does not know of. *)
Definition db_first : Db := Eval vm_compute in db_or (open_database orders empty_root).

(** Before its first snapshot, the database grows, and a reflex is installed. *)
Definition early : list db_event :=
  [EOp id_order (FAddRoot "affect/joy");
   EOp rev_order (FAddReflex (mkReflexRule 0 (mkReflexWhen " Joy " Affect (lit 1 10) 1000 1) (SpawnSeed "ops/seed" f0) true));
   EOp id_order (FTick 200 (fun _ => f0))].
(** After it: impulses, a division, a snapshot with its compaction, a restart, and more. *)
Definition late : list db_event :=
  [EOp id_order (FImpulse (mkImpulse Affect "affect/joy" (lit 9 10) 1000 []));
   EOp id_order (FImpulse (mkImpulse Write "joy" f1 1000 [])); EOp rev_order (FTick 200 (fun _ => f0));
   ERestart orders; ERound (mkLife 200 1000 0 None (mkDreamState 0 None false) (mkShared false 0 0 None) 1);
   EOp id_order (FAddRoot "ops/new"); ESnapshot rev_order; EOp rev_order (FTick 100 (fun _ => f0));
   ERestart orders; EOp id_order (FDreamConfig DreamConfig_default)].
Definition db_early : Db := Eval vm_compute in fold_left db_do early db_first.
Definition db_snap : Db := Eval vm_compute in fst (snapshot_once id_order db_early).
Definition db_late : Db := Eval vm_compute in fold_left db_do late db_snap.

Lemma ascii_case_stable : CaseStable.
Proof.
  intros t. change (ascii_lower (ascii_lower t) = ascii_lower t). unfold ascii_lower. rewrite as_of_bytes, map_map. f_equal. apply map_ext. intros b.
  by destruct b.
Qed.
#[local] Existing Instance ascii_case_stable.

Lemma early_events : events_ok early db_first.
Proof. vm_compute. repeat split; (reflexivity || discriminate). Qed.
Lemma late_events : events_ok late db_snap.
Proof. vm_compute. repeat split; (reflexivity || discriminate). Qed.
Lemma early_is : fold_left db_do early db_first = db_early. Proof. vm_compute. reflexivity. Qed.
Lemma late_is : fold_left db_do late db_snap = db_late. Proof. vm_compute. reflexivity. Qed.

Lemma first_storing : storing db_first.
Proof.
  destruct (fresh_storing orders) as (db & Eo & Hs).
  assert (open_database orders empty_root = Ok db_first) as E by (vm_compute; reflexivity).
  unfold empty_root in E. rewrite E in Eo. by injection Eo as ->.
Qed.

Lemma early_storing : storing db_early.
Proof.
  rewrite <- early_is. pose proof early_events as He. pose proof first_storing as Hs. unfold early in *.
  cbn [fold_left events_ok db_do event_ok] in *. destruct He as ((R1 & V1 & F1) & (R2 & V2 & F2) & (R3 & V3 & F3) & _).
  apply fits_spec in F1, F2, F3.
  by repeat apply storing_op.
Qed.

Definition snap_info : SnapshotInfo := mkSnapshotInfo 1 "00000001.snap" (mkOffset 1 739) 1187.
Lemma snap_is : snapshot_once id_order db_early = (db_snap, Ok snap_info).
Proof. vm_compute. reflexivity. Qed.

Lemma late_run : rtc db_step db_snap db_late.
Proof. rewrite <- late_is. apply events_run, late_events. Qed.

Lemma snapshot_restores_field_witness :
  exists b seed, create_snapshot id_order (db_field db_early) = Ok b /\ load_snapshot b = Ok seed /\
    (map_to_list (cells (graph (into_field rev_order seed)))).*1 = [2%Z; 1%Z] /\
    cells (graph (into_field rev_order seed)) = cells (graph (db_field db_early)).
Proof.
  destruct early_storing as (Hw & Hs & _).
  assert (exists b, create_snapshot id_order (db_field db_early) = Ok b) as [b Hb] by (vm_compute; by eexists).
  destruct (snapshot_restores_field id_order rev_order (db_field db_early) b Hw Hs Hb) as (seed & El & Ec & _).
  exists b, seed. split_and!; [done | done | rewrite Ec; by vm_compute | exact Ec].
Defined.

Lemma database_recovers_witness :
  (map_to_list (cells (graph (db_field db_late)))).*1 = [3%Z; 4%Z; 2%Z; 1%Z] /\
  exists db', open_database orders (db_close db_late) = Ok db' /\ durably (db_field db_late) (db_field db') /\
    field_wf (db_field db').
Proof.
  split; [by vm_compute |].
  apply (database_recovers orders id_order db_early snap_info db_snap db_late early_storing snap_is late_run).
  by vm_compute.
Defined.

Definition crash_op : field_op := FTick 100 (fun _ => f0).
Definition crash_root (fp : AppendFault) : Root := default empty_root (db_crash id_order crash_op 3 fp db_late).

(** A root that was planted on an empty field is not in the journal: [add_root] runs before
    [set_journal]. On an empty directory the first start plants cell 1; after another root is added, a
    restart (without a snapshot in between) succeeds and gives a field with the new root only. *)
Theorem planted_root_is_lost :
  exists db0 db2, open_database orders empty_root = Ok db0 /\
    let db1 := db_apply id_order (FAddRoot "affect/joy") db0 in
    (map_to_list (cells (graph (db_field db1)))).*1 = [2%Z; 1%Z] /\
    open_database orders (db_close db1) = Ok db2 /\ (map_to_list (cells (graph (db_field db2)))).*1 = [2%Z].
Proof. exists db_first. eexists. split_and!; by vm_compute. Qed.

(** The manifest is rewritten in place: when the process dies in the middle, the store cannot be
    opened again, although its log and its snapshots are intact. *)
Example torn_manifest : is_ok (open_database orders (manifest_torn 3 db_late)) = false.
Proof. vm_compute. reflexivity. Qed.
End demo.
