(* ===== verification/Protocol.v ===== *)
(** * The protocol of the bridge: [liminal-bridge-abi/src/protocol.rs]

    The messages a host pushes and the events it pulls. The field speaks in lines of text and in the
    texts of JSON values; [event_from_field_log] and [event_from_impulse_log] read them. The
    [Outbox] holds what the host has not pulled yet. *)

From stdpp Require Import prelude gmap strings fin_maps list sorting.
From Stdlib Require Import ZArith Lia SpecFloat.
From S2P Require Import Prelude RustStr RustOrd Float RustText Json NodeCell Trs StreamCodec FieldTypes Field FieldAwaken.

(** ** Messages *)
Record BridgeConfig : Type := mkBridgeConfig {
  bc_tick_ms : Z;
  bc_store_path : option string;
  bc_snap_interval : option Z;
  bc_snap_maxwal : option Z;
  bc_ws_port : option Z;
  bc_ws_format : option string
}.

Record ProtocolImpulse : Type := mkProtocolImpulse {
  pi_kind : Z;
  pi_pattern : string;
  pi_strength : f32;
  pi_ttl_ms : Z;
  pi_tags : list string
}.

Inductive IntrospectTarget : Type := TAwaken | TModel | TInfluence | TTension.
Record IntrospectRequest : Type := mkIntrospect {
  iq_target : IntrospectTarget;
  iq_top : option Z
}.
Record PeerSpec : Type := mkPeerSpec {
  pe_url : string;
  pe_credence : f32;
  pe_namespace : option string
}.
Inductive NoeticObjectKind : Type := NModel | NSeed | NPolicy.

Inductive ProtocolCommand : Type :=
| CTrsSet (cfg : TrsConfig)
| CTrsTarget (value : f32)
| CLql (query : string)
| CDreamNow
| CDreamSet (cfg : DreamConfig)
| CDreamGet
| CSyncSet (cfg : SyncConfig)
| CSyncGet
| CSyncNow
| CAwakenSet (cfg : AwakeningConfig)
| CAwakenGet
| CIntrospect (request : IntrospectRequest)
| CMirrorTimeline (top : option Z)
| CMirrorInfluencers (k : option Z)
| CMirrorReplay (epoch_id : Z) (cfg : option ReplayConfig)
| CPeerAdd (peer : PeerSpec)
| CPeerList
| CNoeticPropose (obj : NoeticObjectKind) (data : json)
| CNoeticQuorum (q : f32).

Inductive ProtocolPush : Type :=
| PushImpulse (impulse : ProtocolImpulse)
| PushCommand (command : ProtocolCommand).

Definition IntrospectRequest_new (target : IntrospectTarget) : IntrospectRequest := mkIntrospect target None.
Definition with_top (value : option Z) (r : IntrospectRequest) : IntrospectRequest := mkIntrospect (iq_target r) value.
Definition awaken_set (cfg : AwakeningConfig) : ProtocolCommand := CAwakenSet cfg.
Definition awaken_get : ProtocolCommand := CAwakenGet.
Definition introspect (target : IntrospectTarget) (top : option Z) : ProtocolCommand :=
  CIntrospect (mkIntrospect target top).

Definition to_core (imp : ProtocolImpulse) : Impulse :=
  mkImpulse
    match pi_kind imp with
    | 0 => Affect
    | 1 => Query
    | 2 => Write
    | _ => Query
    end%Z
    (pi_pattern imp) (pi_strength imp) (pi_ttl_ms imp) (pi_tags imp).

Record ProtocolMetrics : Type := mkProtocolMetrics {
  pm_cells : Z;
  pm_sleeping : f32;
  pm_avg_met : f32;
  pm_avg_latency : Z
}.
Definition from_core (metrics : Metrics) : ProtocolMetrics :=
  mkProtocolMetrics (Z.min (m_cells metrics) u32_max) (sleeping_pct metrics) (avg_metabolism metrics)
    (f_cast 0 u32_max (f32_clamp (f32_round (avg_latency_ms metrics)) f_zero (f32_of_Z u32_max))).

Inductive EventId : Type :=
| IdNum (n : Z)
| IdText (text : string).

Record ProtocolEvent : Type := mkProtocolEvent {
  pv_ev : string;
  pv_id : EventId;
  pv_dt : Z;
  pv_meta : gmap string cbor
}.

Record ProtocolPackage : Type := mkPackage {
  pk_events : list ProtocolEvent;
  pk_metrics : option ProtocolMetrics
}.

(** ** The outbox *)
Record Outbox : Type := mkOutbox {
  ob_events : list ProtocolEvent;
  ob_metrics : option ProtocolMetrics
}.
Definition Outbox_default : Outbox := mkOutbox [] None.

Definition push_event (event : ProtocolEvent) (o : Outbox) : Outbox := mkOutbox (ob_events o ++ [event]) (ob_metrics o).
Definition set_metrics (metrics : ProtocolMetrics) (o : Outbox) : Outbox := mkOutbox (ob_events o) (Some metrics).

Definition outbox_take (o : Outbox) : Outbox * option ProtocolPackage :=
  match ob_events o, ob_metrics o with
  | [], None => (o, None)
  | events, metrics => (Outbox_default, Some (mkPackage events metrics))
  end.

Definition push_front (event : ProtocolEvent) (o : Outbox) : Outbox := mkOutbox (event :: ob_events o) (ob_metrics o).
Definition restore (package : ProtocolPackage) (o : Outbox) : Outbox :=
  let o := fold_left (fun o event => push_front event o) (reverse (pk_events package)) o in
  match ob_metrics o with
  | None => mkOutbox (ob_events o) (pk_metrics package)
  | Some _ => o
  end.

(** [if let Some(event) = ... { outbox.push_event(event) }]. *)
Definition push_some (event : option ProtocolEvent) (o : Outbox) : Outbox :=
  match event with
  | Some e => push_event e o
  | None => o
  end.

(** ** JSON and CBOR *)
Fixpoint json_to_cbor (value : json) : cbor :=
  match value with
  | JNull => CNull
  | JBool b => CBool b
  | JU64 n | JI64 n => CInteger n
  | JF64 x => CFloat x
  | JStr text => CText text
  | JArr items => CArray (map json_to_cbor items)
  | JObj m => CMap ((fun p => (CText p.1, p.2)) <$> merge_sort cbor_key_le (map_to_list (json_to_cbor <$> m)))
  end.

Definition json_value_to_event_id (value : json) : option EventId :=
  match value with
  | JU64 u => Some (IdNum u)
  | JStr text => Some (IdText text)
  | _ => None
  end.

Definition event_from_json (j : json) (tick_ms : Z) : option ProtocolEvent :=
  v ← jget "ev" j;
  ev ← as_str v;
  let id :=
    match jget "id" j with
    | Some id_val => default (IdText ev) (json_value_to_event_id id_val)
    | None => IdText ev
    end in
  let meta :=
    match jget "meta" j with
    | Some (JObj m) => json_to_cbor <$> m
    | _ => ∅
    end in
  Some (mkProtocolEvent ev id tick_ms meta).

(** ** The lines of the field *)
(** [trim_end_matches("ms")]: the suffix is removed as often as it is there. *)
Fixpoint strip_prefixes (fuel : nat) (pat s : bytes) : bytes :=
  match fuel with
  | O => s
  | S fuel' =>
      match strip_prefix pat s with
      | Some rest => strip_prefixes fuel' pat rest
      | None => s
      end
  end.
Definition trim_end_matches (pat s : string) : string :=
  let b := as_bytes s in
  of_bytes (reverse (strip_prefixes (length b) (reverse (as_bytes pat)) (reverse b))).

(** [meta.insert] for every chunk [key=number] of the line. *)
Definition dream_chunk (meta : gmap string cbor) (chunk : string) : gmap string cbor :=
  match split_once "=" chunk with
  | Some (key, raw) =>
      match parse_u64 (as_bytes (trim_end_matches "ms" raw)) with
      | Some value => <[key := CInteger value]> meta
      | None => meta
      end
  | None => meta
  end.

Definition divide_event (rest : string) (tick_ms : Z) : option ProtocolEvent :=
  '(parent_part, rest) ← split_once " -> child=n" rest;
  parent_id ← parse_u64 (as_bytes parent_part);
  '(child_part, rest) ← split_once " (aff " rest;
  child_id ← parse_u64 (as_bytes child_part);
  '(aff_part, _) ← split_once ")" rest;
  '(aff_before, aff_after) ← split_once "->" aff_part;
  parent_aff ← parse_f32 (trim aff_before);
  child_aff ← parse_f32 (trim aff_after);
  Some (mkProtocolEvent "divide" (IdNum child_id) tick_ms
    (<["aff_after" := CFloat (f64_of_f32 child_aff)]> (<["aff_before" := CFloat (f64_of_f32 parent_aff)]>
      (<["child" := CInteger child_id]> (<["parent" := CInteger parent_id]> ∅))))).

Definition state_event (ev rest : string) (tick_ms : Z) : option ProtocolEvent :=
  id ← parse_u64 (as_bytes rest);
  Some (mkProtocolEvent ev (IdNum id) tick_ms {["state" := CText ev]}).

Definition line_event (trimmed : string) (tick_ms : Z) : option ProtocolEvent :=
  match strip_prefix_str "DIVIDE parent=n" trimmed with
  | Some rest => divide_event rest tick_ms
  | None =>
  match strip_prefix_str "SLEEP n" trimmed with
  | Some rest => state_event "sleep" rest tick_ms
  | None =>
  match strip_prefix_str "DEAD n" trimmed with
  | Some rest => state_event "dead" rest tick_ms
  | None =>
  match strip_prefix_str "COLLECTIVE_DREAM " trimmed with
  | Some rest =>
      Some (mkProtocolEvent "collective_dream" (IdText "collective_dream") tick_ms
        (fold_left dream_chunk (split_whitespace rest) ∅))
  | None => None
  end end end end.

Section log.
Context `{JsonText}.

(** The text of what the field returns. *)
Definition event_text (e : FieldEvent) : string :=
  match e with
  | EText line => line
  | EJson value => json_to_string value
  end.

Definition event_from_field_log (log : string) (tick_ms : Z) : option ProtocolEvent :=
  let trimmed := trim log in
  let from_json :=
    match strip_prefix_str "{" trimmed with
    | Some _ =>
        match json_from_str trimmed with
        | Some j => event_from_json j tick_ms
        | None => None
        end
    | None => None
    end in
  match from_json with
  | Some event => Some event
  | None => line_event trimmed tick_ms
  end.
End log.

Definition event_from_impulse_log (log : string) : option ProtocolEvent :=
  stripped ← strip_prefix_str "n" (trim log);
  '(id_part, rest) ← split_once " " stripped;
  id ← parse_u64 (as_bytes id_part);
  Some (mkProtocolEvent "hint" (IdNum id) 0 (<["message" := CText (trim rest)]> {["kind" := CText "impulse"]})).

Definition event_from_snapshot (id : Z) : ProtocolEvent :=
  mkProtocolEvent "snapshot" (IdNum id) 0 {["id" := CInteger id]}.

Definition event_from_hint (hint : Hint) (tick_ms : Z) : ProtocolEvent :=
  let label :=
    match hint with
    | SlowTick => "slow_tick" | FastTick => "fast_tick" | TrimField => "trim_field" | WakeSeeds => "wake_seeds"
    end in
  mkProtocolEvent "hint" (IdText "system") tick_ms (<["tick_ms" := CInteger tick_ms]> {["hint" := CText label]}).

Definition event_from_metrics (metrics : ProtocolMetrics) (dt : Z) : ProtocolEvent :=
  mkProtocolEvent "metrics" (IdText "system") dt
    (<["avgLat" := CInteger (pm_avg_latency metrics)]> (<["avgMet" := CFloat (f64_of_f32 (pm_avg_met metrics))]>
      (<["sleeping" := CFloat (f64_of_f32 (pm_sleeping metrics))]> {["cells" := CInteger (pm_cells metrics)]}))).

(** The exchange succeeds when no other thread has changed the value since it was loaded, and is
    tried again otherwise: the effect is one atomic step. *)
Definition adjust_tick (tick : Z) (hint : Hint) : Z :=
  match hint with
  | SlowTick => Z.min (u32_saturating_add tick 50) 400
  | FastTick => if (100 <? tick)%Z then Z.max (u32_saturating_sub tick 10) 100 else tick
  | TrimField | WakeSeeds => tick
  end.
