(* ===== verification/BridgeEvents.v ===== *)
(** * What the bridge understands of a tick

    The lines a tick returns are read back by [event_from_field_log]. [bridge_sees_lifecycle] shows
    that the events a host is given tell exactly the divisions, the sleeps and the deaths that the
    tick writes to the journal, in the same order. *)

From stdpp Require Import prelude gmap strings fin_maps fin_sets list sorting.
From Stdlib Require Import ZArith Lia SpecFloat.
From S2P Require Import Prelude RustStr RustOrd Float RustText Crypto Json NodeCell Trs StreamCodec Seeds Symmetry FieldTypes Feedback Variant Resonant Journal Collections Field FieldOps FieldRoute FieldTick FieldInv FieldReplay FieldSteps FieldTickInv FieldSound FieldAwaken FieldProps FieldCodec Protocol.

(** ** Numbers *)
Lemma fmt_nat_digits n : (0 <= n)%Z -> Forall is_digit (as_bytes (fmt_nat n)).
Proof. intros Hn. unfold fmt_nat. rewrite as_of_bytes. apply dec_digits_digits; [done | constructor]. Qed.

Lemma fmt_nat_nonempty n : as_bytes (fmt_nat n) <> [].
Proof. unfold fmt_nat. rewrite as_of_bytes. apply dec_digits_nonempty. lia. Qed.

Lemma not_digit x l : Forall is_digit l -> in_range 48 57 x = false -> x ∉ l.
Proof. rewrite Forall_forall. intros Hl Hx Hin. specialize (Hl x Hin). unfold is_digit in Hl. congruence. Qed.

Lemma parse_fmt_nat n : is_u64 n -> parse_u64 (as_bytes (fmt_nat n)) = Some n.
Proof. intros Hn. unfold fmt_nat. rewrite as_of_bytes. by apply parse_fmt_u64. Qed.

(** The characters of [{:.2}]. *)
Definition float_char (b : Byte.byte) : bool :=
  in_range 48 57 b || existsb (fun c => Byte.eqb b c) (as_bytes "-.Nainf").

Lemma fixed_shape k x : k <> 0 ->
  (exists s w f, fmt_fixed k x = (if s : bool then "-" else "") +:+ of_bytes w +:+ "." +:+ of_bytes f /\
     Forall is_digit w /\ Forall is_digit f /\ w <> []) \/
  (fmt_fixed k x = "NaN" \/ fmt_fixed k x = "-inf" \/ fmt_fixed k x = "inf").
Proof.
  intros Hk.
  assert (forall l, k < S k - l + l) as below by (intros; lia).
  assert (forall (s : bool) n, (0 <= n)%Z -> exists w f,
    (let digits := dec_digits 330 n [] in
     let digits := replicate (S k - length digits) Byte.x30 ++ digits in
     let whole := take (length digits - k) digits in
     let frac := drop (length digits - k) digits in
     (if s then "-" else "") +:+ of_bytes whole +:+ (if decide (k = 0) then "" else "." +:+ of_bytes frac))
    = (if s then "-" else "") +:+ of_bytes w +:+ "." +:+ of_bytes f /\
    Forall is_digit w /\ Forall is_digit f /\ w <> []) as Htext.
  { intros s n Hn. cbv zeta. rewrite decide_False by done.
    set (d := replicate (S k - length (dec_digits 330 n [])) Byte.x30 ++ dec_digits 330 n []).
    assert (Forall is_digit d) as Hd.
    { apply Forall_app. split; [by apply Forall_replicate | by apply dec_digits_digits]. }
    assert (k < length d) as Hl by (unfold d; rewrite length_app, length_replicate; apply below).
    clearbody d.
    exists (take (length d - k) d), (drop (length d - k) d). split_and!; [done | by apply Forall_take | by apply Forall_drop |].
    intros E. apply (f_equal length) in E. rewrite length_take in E. cbn in E. lia. }
  unfold fmt_fixed. destruct x as [s | s | | s m e].
  - left. exists s. by apply Htext.
  - right. destruct s; auto.
  - auto.
  - left. exists s. apply Htext. unfold fixed_digits. destruct (Z.leb_spec 0 e).
    + apply Z.mul_nonneg_nonneg; lia.
    + assert (0 <= Z.pos m * 10 ^ Z.of_nat k / 2 ^ (- e))%Z by (apply Z.div_pos; lia).
      repeat case_match; lia.
Qed.

Lemma digit_float_char l : Forall is_digit l -> Forall (fun b => float_char b = true) l.
Proof. intros Hl. eapply Forall_impl; [exact Hl |]. intros b Hb. unfold float_char. by rewrite (Hb : in_range 48 57 b = true). Qed.

Lemma fixed_chars x : Forall (fun b => float_char b = true) (as_bytes (fmt_fixed 2 x)).
Proof.
  destruct (fixed_shape 2 x ltac:(done)) as [(s & w & f & -> & Hw & Hf & _) | Hin].
  - rewrite !as_bytes_app, !as_of_bytes, !Forall_app. split_and!.
    + destruct s; by repeat constructor.
    + by apply digit_float_char.
    + by repeat constructor.
    + by apply digit_float_char.
  - destruct Hin as [-> | [-> | ->]]; vm_compute; repeat constructor.
Qed.

Lemma digits_run_spec w : forall acc n rest,
  Forall is_digit w -> match rest with [] => True | b :: _ => in_range 48 57 b = false end ->
  exists v, digits_run acc n (w ++ rest) = (v, n + Z.of_nat (length w), rest)%Z.
Proof.
  induction w as [|b w IH]; intros acc n rest Hw Hr.
  - exists acc. cbn [app length]. rewrite Z.add_0_r. destruct rest as [|b rest]; [done |]. cbn [digits_run]. by rewrite Hr.
  - apply Forall_cons in Hw as [Hb Hw]. cbn [app digits_run]. rewrite (Hb : in_range 48 57 b = true).
    destruct (IH (acc * 10 + (Z.of_N (Byte.to_N b) - 48)) (n + 1) rest Hw Hr)%Z as [v ->]. exists v. f_equal. f_equal.
    cbn [length]. lia.
Qed.

(** What is printed with two decimals is read as a float. *)
Lemma parse_fixed x : exists y, parse_f32 (fmt_fixed 2 x) = Some y.
Proof.
  destruct (fixed_shape 2 x ltac:(done)) as [(s & w & f & -> & Hw & Hf & Hne) | Hin].
  - unfold parse_f32, parse_float. rewrite !as_bytes_app, !as_of_bytes.
    assert (sign_of (as_bytes (if s then "-" else "") ++ w ++ as_bytes "." ++ f) = (s, w ++ Byte.x2e :: f)) as ->.
    { destruct s; [done |]. destruct w as [|b w]; [done |]. apply Forall_cons in Hw as [Hb _]. cbn.
      destruct b; try done; discriminate Hb. }
    unfold parse_number. destruct (digits_run_spec w 0 0 (Byte.x2e :: f) Hw eq_refl) as [v ->].
    destruct (digits_run_spec f v 0 [] Hf I) as [v' Ef]. rewrite app_nil_r in Ef. rewrite Ef. cbn [parse_exponent].
    destruct (Z.eqb_spec (0 + Z.of_nat (length w) + (0 + Z.of_nat (length f))) 0) as [E |]; [| by eexists].
    destruct w; [done | cbn in E; lia].
  - destruct Hin as [-> | [-> | ->]]; eexists; by vm_compute.
Qed.

Lemma trim_fixed x : trim (fmt_fixed 2 x) = fmt_fixed 2 x.
Proof.
  apply trim_visible.
  - destruct (fixed_shape 2 x ltac:(done)) as [(s & w & f & -> & _ & _ & Hne) | Hin].
    + intros E%(f_equal as_bytes). rewrite !as_bytes_app, !as_of_bytes in E. destruct s, w; done.
    + destruct Hin as [-> | [-> | ->]]; done.
  - rewrite forallb_forall. intros b Hb%list_elem_of_In. pose proof (fixed_chars x) as Hc. rewrite Forall_forall in Hc.
    specialize (Hc b Hb). clear -Hc. by destruct b.
Qed.

Lemma not_float_char x l : Forall (fun b => float_char b = true) l -> float_char x = false -> x ∉ l.
Proof. rewrite Forall_forall. intros Hl Hx Hin. specialize (Hl x Hin). cbn in Hl. congruence. Qed.

Lemma fixed_last k x : k <> 0 -> exists m y, as_bytes (fmt_fixed k x) = m ++ [y] /\ graphic y = true.
Proof.
  intros Hk. destruct (fixed_shape k x Hk) as [(s & w & f & -> & Hw & Hf & Hne) | [-> | [-> | ->]]].
  - rewrite !as_bytes_app, !as_of_bytes. destruct f as [|y f _] using rev_ind.
    + exists (as_bytes (if s then "-" else "") ++ w), Byte.x2e. split; [by rewrite app_nil_r, <- app_assoc | done].
    + exists (as_bytes (if s then "-" else "") ++ w ++ as_bytes "." ++ f), y. split; [by rewrite <- !app_assoc |].
      apply Forall_app in Hf as [_ Hf]. rewrite Forall_singleton in Hf. unfold is_digit in Hf. clear -Hf.
      destruct y; (reflexivity || discriminate Hf).
  - by exists (as_bytes "Na"), Byte.x4e.
  - by exists (as_bytes "-in"), Byte.x66.
  - by exists (as_bytes "in"), Byte.x66.
Qed.

(** ** The life of cells, as the journal and the host are told *)
Inductive lifecycle : Type :=
| LDivide (parent child : Z)
| LSleep (id : Z)
| LDead (id : Z).

Definition told_delta (d : EventDelta) : option lifecycle :=
  match d with
  | DDivide parent child => Some (LDivide parent (cn_id child))
  | DSleep id => Some (LSleep id)
  | DDead id => Some (LDead id)
  | _ => None
  end.

Definition told_event (e : ProtocolEvent) : option lifecycle :=
  let id (l : Z -> lifecycle) := match pv_id e with IdNum n => Some (l n) | IdText _ => None end in
  if decide (pv_ev e = "divide") then
    match pv_meta e !! "parent", pv_meta e !! "child" with
    | Some (CInteger parent), Some (CInteger child) => Some (LDivide parent child)
    | _, _ => None
    end
  else if decide (pv_ev e = "sleep") then id LSleep
  else if decide (pv_ev e = "dead") then id LDead
  else None.

Section sees.
Context `{JsonTextOk}.
Variable dt : Z.

Definition sees (e : FieldEvent) : option lifecycle := event_from_field_log (event_text e) dt ≫= told_event.

Lemma log_line line x m y :
  line = of_bytes (x :: m ++ [y]) -> graphic x = true -> graphic y = true -> Byte.eqb x Byte.x7b = false ->
  event_from_field_log line dt = line_event line dt.
Proof.
  intros -> Hx Hy Hb. unfold event_from_field_log. rewrite trim_graphic by done.
  destruct (strip_prefix_str "{" _) as [r|] eqn:E; [| done]. exfalso.
  apply strip_prefix_str_some, (f_equal as_bytes) in E. rewrite as_of_bytes, as_bytes_app in E. cbn in E.
  injection E as -> _. by vm_compute in Hb.
Qed.

Lemma sees_json ev meta : ev ∉ ["divide"; "sleep"; "dead"] -> sees (event ev meta) = None.
Proof.
  intros Hev. unfold sees, event_from_field_log, event, event_text. rewrite written_trimmed.
  destruct (written_object (fold_left (fun m p => <[fst p := snd p]> m) [("ev", JStr ev); ("meta", json_obj meta)] ∅))
    as [t Ht]. fold (json_obj [("ev", JStr ev); ("meta", json_obj meta)]) in Ht.
  change (JObj (fold_left _ _ _)) with (json_obj [("ev", JStr ev); ("meta", json_obj meta)]) in Ht.
  rewrite Ht, strip_prefix_cat, <- Ht, read_written. 
  assert (jget "ev" (map_floats reread (json_obj [("ev", JStr ev); ("meta", json_obj meta)])) = Some (JStr ev)) as Eev.
  { transitivity (map_floats reread <$> jget "ev" (json_obj [("ev", JStr ev); ("meta", json_obj meta)])).
    - unfold json_obj, jget. apply lookup_fmap.
    - rewrite jget_obj by (repeat constructor; set_solver). done. }
  unfold event_from_json. rewrite Eev. cbn [mbind option_bind as_str]. unfold told_event. cbn [pv_ev].
  rewrite !not_elem_of_cons in Hev. destruct Hev as (H1 & H2 & H3 & _). by rewrite !decide_False.
Qed.

(** Two visible ends of a line, from its prefix and its last part. *)
Lemma line_ends (p s : string) x m y : as_bytes p = x :: m -> (exists l, as_bytes s = l ++ [y]) ->
  exists k, p +:+ s = of_bytes (x :: k ++ [y]).
Proof.
  intros Hp [l Hs]. exists (m ++ l). rewrite <- (of_as_bytes (p +:+ s)), as_bytes_app, Hp, Hs. f_equal. cbn. by rewrite app_assoc.
Qed.

Lemma digits_last l : Forall is_digit l -> l <> [] -> exists k y, l = k ++ [y] /\ graphic y = true.
Proof.
  intros Hd Hne. destruct l as [|y k _] using rev_ind; [done |]. exists k, y. split; [done |].
  apply Forall_app in Hd as [_ Hd]. rewrite Forall_singleton in Hd. unfold is_digit in Hd.
  clear -Hd. destruct y; (reflexivity || discriminate Hd).
Qed.

Lemma sees_state ev (p : string) n l :
  is_u64 n -> (p, ev, l) ∈ [("SLEEP n", "sleep", LSleep n); ("DEAD n", "dead", LDead n)] ->
  sees (EText (p +:+ fmt_nat n)) = Some l.
Proof.
  intros Hn Hp.
  destruct (digits_last (as_bytes (fmt_nat n))) as (k & y & Ek & Hy);
    [apply fmt_nat_digits; unfold is_u64 in Hn; lia | apply fmt_nat_nonempty |].
  assert (forall x m, as_bytes p = x :: m -> graphic x = true -> Byte.eqb x Byte.x7b = false ->
    event_from_field_log (p +:+ fmt_nat n) dt = line_event (p +:+ fmt_nat n) dt) as Hlog.
  { intros x m E Hx Hb. destruct (line_ends p (fmt_nat n) x m y E) as [k' Ek']; [by exists k |].
    by apply (log_line _ x k' y). }
  unfold sees, event_text. rewrite !elem_of_cons in Hp. destruct Hp as [E | [E | E]]; [.. | by apply elem_of_nil in E];
    injection E as -> -> ->; rewrite (Hlog _ _ eq_refl) by done; clear Hlog.
  - unfold line_event. replace (strip_prefix_str "DIVIDE parent=n" ("SLEEP n" +:+ fmt_nat n)) with (@None string) by done.
    rewrite strip_prefix_cat. unfold state_event. rewrite parse_fmt_nat by done. done.
  - unfold line_event. replace (strip_prefix_str "DIVIDE parent=n" ("DEAD n" +:+ fmt_nat n)) with (@None string) by done.
    replace (strip_prefix_str "SLEEP n" ("DEAD n" +:+ fmt_nat n)) with (@None string) by done.
    rewrite strip_prefix_cat. unfold state_event. rewrite parse_fmt_nat by done. done.
Qed.

Lemma sees_divide p c a b : is_u64 p -> is_u64 c ->
  sees (EText ("DIVIDE parent=n" +:+ fmt_nat p +:+ " -> child=n" +:+ fmt_nat c
     +:+ " (aff " +:+ fmt_fixed 2 a +:+ "->" +:+ fmt_fixed 2 b +:+ ")")) = Some (LDivide p c).
Proof.
  intros Hp Hc.
  assert (Forall is_digit (as_bytes (fmt_nat p)) /\ Forall is_digit (as_bytes (fmt_nat c))) as [Dp Dc]
    by (unfold is_u64 in *; split; apply fmt_nat_digits; lia).
  set (rest := fmt_nat p +:+ " -> child=n" +:+ fmt_nat c +:+ " (aff " +:+ fmt_fixed 2 a +:+ "->" +:+ fmt_fixed 2 b +:+ ")").
  destruct (line_ends "DIVIDE parent=n" rest Byte.x44 (as_bytes "IVIDE parent=n") Byte.x29 eq_refl) as [k Ek].
  { exists (as_bytes (fmt_nat p +:+ " -> child=n" +:+ fmt_nat c +:+ " (aff " +:+ fmt_fixed 2 a +:+ "->" +:+ fmt_fixed 2 b)).
    unfold rest. rewrite !as_bytes_app, <- !app_assoc. done. }
  unfold sees, event_text. rewrite (log_line _ _ k _ Ek) by done. unfold line_event. rewrite strip_prefix_cat.
  unfold divide_event, rest.
  rewrite split_once_cat by (apply (split_bytes_at Byte.x20 (as_bytes "-> child=n")); by eapply not_digit).
  cbn [mbind option_bind]. rewrite parse_fmt_nat by done. cbn [mbind option_bind].
  rewrite split_once_cat by (apply (split_bytes_at Byte.x20 (as_bytes "(aff ")); by eapply not_digit).
  cbn [mbind option_bind]. rewrite parse_fmt_nat by done. cbn [mbind option_bind].
  pose proof (fixed_chars a) as Ha. pose proof (fixed_chars b) as Hb.
  assert (split_once ")" (fmt_fixed 2 a +:+ "->" +:+ fmt_fixed 2 b +:+ ")")
    = Some (fmt_fixed 2 a +:+ "->" +:+ fmt_fixed 2 b, "")) as ->.
  { pose proof (split_once_cat ")" (fmt_fixed 2 a +:+ "->" +:+ fmt_fixed 2 b) "") as E.
    rewrite !as_bytes_app in E. cbn [as_bytes] in E.
    replace (fmt_fixed 2 a +:+ "->" +:+ fmt_fixed 2 b +:+ ")")
      with ((fmt_fixed 2 a +:+ "->" +:+ fmt_fixed 2 b) +:+ ")" +:+ "").
    - apply E, (split_bytes_at Byte.x29 []). rewrite !elem_of_app. intros [Hin | [Hin | Hin]].
      + revert Hin. by eapply not_float_char.
      + by apply (bool_decide_unpack (_ ∉ as_bytes "->")) in Hin.
      + revert Hin. by eapply not_float_char.
    - apply as_bytes_inj. rewrite !as_bytes_app. by rewrite <- !app_assoc, app_nil_r. }
  cbn [mbind option_bind].
  rewrite split_once_cat by (apply (split_bytes_two Byte.x2d Byte.x3e); [done | by eapply not_float_char]).
  cbn [mbind option_bind]. rewrite !trim_fixed.
  destruct (parse_fixed a) as [a' ->]. cbn [mbind option_bind]. destruct (parse_fixed b) as [b' ->]. cbn [mbind option_bind].
  unfold told_event. cbn [pv_ev pv_meta]. rewrite decide_True by done.
  rewrite !(lookup_insert_ne _ _ "parent"), lookup_insert_eq by done.
  by rewrite !(lookup_insert_ne _ _ "child"), lookup_insert_eq by done.
Qed.

Lemma sees_nothing line : (exists x m y, line = of_bytes (x :: m ++ [y]) /\ graphic x = true /\ graphic y = true) ->
  Forall (fun p => strip_prefix_str p line = None) ["{"; "DIVIDE parent=n"; "SLEEP n"; "DEAD n"; "COLLECTIVE_DREAM "] ->
  sees (EText line) = None.
Proof.
  intros (x & m & y & -> & Hx & Hy) Hp. rewrite !Forall_cons in Hp. destruct Hp as (P1 & P2 & P3 & P4 & P5 & _).
  unfold sees, event_text, event_from_field_log. rewrite trim_graphic by done. rewrite P1.
  unfold line_event. by rewrite P2, P3, P4, P5.
Qed.
End sees.

(** ** The phases of a tick *)
Section tick.
Context `{UnicodeCase, SeedRng, FloatMath, JsonTextOk}.
Variable (o : HashOrder) (dt : Z).

(** What the events and the deltas of a part of a tick tell. *)
Definition seen (events : list FieldEvent) : list lifecycle := omap (sees dt) events.
Definition told (ds : list EventDelta) : list lifecycle := omap told_delta ds.

Lemma seen_app a b : seen (a ++ b) = seen a ++ seen b. Proof. apply omap_app. Qed.
Lemma told_app a b : told (a ++ b) = told a ++ told b. Proof. apply omap_app. Qed.

Lemma seen_none es : Forall (fun e => sees dt e = None) es -> seen es = [].
Proof. induction 1 as [|e es He _ IH]; [done |]. unfold seen in *. cbn. by rewrite He, IH. Qed.

Lemma hormone_unseen f : seen (snd (hormone_end f)) = [].
Proof.
  unfold hormone_end. destruct (noradrenaline (control f)) as [e|]; [| done]. destruct (na_until_ms e <=? _)%Z; [| done].
  apply seen_none. constructor; [| constructor]. apply sees_nothing; [| repeat constructor; by vm_compute].
  by exists Byte.x41, (as_bytes "STRO TAG of"), Byte.x66.
Qed.

Lemma metabolism_untold delta_ms hormone h ids cs :
  told (snd (key_loop (metabolize_body delta_ms hormone h) ids cs [])) = [].
Proof.
  apply (key_loop_ind _ (fun _ _ s => told s = []) ids 0); [done | | done].
  intros _ m s k v _ _ Hs. cbn [metabolize_body snd]. rewrite told_app, Hs. done.
Qed.

Lemma division_told now variation ids cs next events pending :
  (0 < next)%Z -> (next + Z.of_nat (length ids) < u64_size)%Z -> Forall is_u64 ids ->
  let d := snd (key_loop (divide_body now variation) ids cs (mkDivision next events pending [])) in
  seen (dv_events d) = seen events ++ map (fun k => LDivide k.1 (c_id k.2)) (dv_new_cells d) /\
  told (dv_pending d) = told pending.
Proof.
  intros Hpos Hroom Hids.
  pose (I := fun n (_ : gmap Z NodeCell) d =>
    n <= length ids -> dv_next_id d = (next + Z.of_nat (length (dv_new_cells d)))%Z /\ length (dv_new_cells d) <= n /\
    seen (dv_events d) = seen events ++ map (fun k => LDivide k.1 (c_id k.2)) (dv_new_cells d) /\
    told (dv_pending d) = told pending).
  enough (I (length ids + 0) (key_loop (divide_body now variation) ids cs (mkDivision next events pending [])).1
    (key_loop (divide_body now variation) ids cs (mkDivision next events pending [])).2) as Hi.
  { destruct (Hi ltac:(lia)) as (_ & _ & K1 & K2). by split. }
  apply key_loop_ind; unfold I.
  - intros n m d Hd Hle. destruct (Hd ltac:(lia)) as (? & ? & ? & ?). split_and!; [done | lia | done | done].
  - intros n m d k v Hk _ Hd Hle. destruct (Hd ltac:(lia)) as (Hn & Hl & Hs & Ht). unfold divide_body.
    destruct (maybe_divide (variation k) v) as [c' [child|]]; cbn [snd dv_next_id dv_new_cells dv_events dv_pending];
      [| split_and!; [done | lia | done | done]].
    rewrite !length_app, seen_app, told_app, map_app, Hs, Ht. cbn [length map fst snd]. split_and!.
    + rewrite u64_add_small; unfold u64_size in *; lia.
    + lia.
    + rewrite <- app_assoc. f_equal. f_equal. unfold seen. cbn [omap list_omap]. rewrite sees_divide; [done | |].
      * rewrite Forall_forall in Hids. by apply Hids.
      * unfold is_u64, u64_size in *. lia.
    + cbn. by rewrite app_nil_r.
  - intros _. cbn. rewrite app_nil_r. split_and!; [lia | lia | done | done].
Qed.

Lemma attach_told kids : forall f pending,
  told (snd (fold_left (attach_child o) kids (f, pending))) = told pending ++ map (fun k => LDivide k.1 (c_id k.2)) kids.
Proof.
  induction kids as [|[p child] kids IH]; intros f pending; cbn [fold_left map]; [by rewrite app_nil_r |].
  unfold attach_child at 2. cbn [fst snd].
  assert (told (snd (link_child p (c_id child) f pending)) = told pending) as Hl.
  { unfold link_child. destruct (cells (graph f) !! p) as [c|]; [| done]. case_decide; [done |]. cbn [snd].
    rewrite told_app. cbn. by rewrite app_nil_r. }
  destruct (link_child p (c_id child) f pending) as [f1 p1]. cbn [snd] in Hl. rewrite IH, told_app, Hl, <- app_assoc. done.
Qed.

Lemma rest_told now hormone base ids cs events pending purge :
  Forall is_u64 ids ->
  let r := snd (key_loop (rest_body now hormone base) ids cs (events, pending, purge)) in
  exists l, seen r.1.1 = seen events ++ l /\ told r.1.2 = told pending ++ l.
Proof.
  intros Hids.
  apply (key_loop_ind _ (fun _ _ r => exists l, seen r.1.1 = seen events ++ l /\ told r.1.2 = told pending ++ l) ids 0).
  - done.
  - intros _ m [[ev pe] pu] k v Hk _ (l & Hs & Ht). cbn [fst snd] in Hs, Ht.
    assert (is_u64 k) as Hu by (rewrite Forall_forall in Hids; by apply Hids).
    pose proof (sees_state dt "sleep" "SLEEP n" k (LSleep k) Hu ltac:(left)) as E1.
    pose proof (sees_state dt "dead" "DEAD n" k (LDead k) Hu ltac:(right; left)) as E2.
    unfold rest_body. destruct (maybe_sleep_or_die _ _ v) as [c died].
    destruct (bool_decide (c_state v <> Sleep) && bool_decide (c_state c = Sleep)), (died && bool_decide (c_state v <> Dead));
      cbn [fst snd]; rewrite ?seen_app, ?told_app, Hs, Ht; unfold seen, told; cbn [omap list_omap told_delta]; rewrite ?E1, ?E2;
      eexists; (split; [rewrite <- ?app_assoc; reflexivity | cbn; by rewrite <- ?app_assoc, ?app_nil_r]).
  - exists []. by rewrite !app_nil_r.
Qed.

Lemma tick_cells_told dt_ms variation f :
  field_wf f -> (next_id (graph f) + Z.of_nat (size (cells (graph f))) < u64_size)%Z ->
  let '(_, events, pending) := tick_cells o dt_ms variation f in seen events = told pending.
Proof.
  intros [[Hcw _] _] Hroom. unfold tick_cells. set (ids := hm_keys o (cells (graph f))).
  rewrite <- (hm_keys_length o) in Hroom. fold ids in Hroom.
  assert (Forall is_u64 ids) as Hids.
  { apply Forall_forall. intros id Hid. apply elem_of_hm_keys in Hid as [c Hc].
    destruct (proj2 Hcw id c Hc) as (_ & Hb & _). unfold is_u64. lia. }
  pose proof (metabolism_untold dt_ms (noradrenaline_active f) (harmony (control f)) ids (cells (graph f))) as K1.
  destruct (key_loop (metabolize_body _ _ _) ids _ []) as [cs1 p1]. cbn [snd] in K1.
  destruct (hormone_end_frame (set_cells cs1 f)) as (Hc2 & _ & _).
  pose proof (hormone_unseen (set_cells cs1 f)) as K2.
  destruct (hormone_end (set_cells cs1 f)) as [f2 events]. cbn [fst snd] in *.
  unfold core in Hc2. injection Hc2 as Hc2 Hi2 Hx2.
  pose proof (division_told (now_ms f) variation ids (cells (graph f2)) (next_id (graph f2)) events p1) as K3.
  destruct (key_loop (divide_body _ _) ids _ _) as [cs3 d]. cbn [snd] in K3.
  destruct K3 as [K3 K3']; [rewrite Hx2; apply Hcw | rewrite Hx2; exact Hroom | done |].
  set (f3 := set_next_id _ _). pose proof (attach_told (dv_new_cells d) f3 (dv_pending d)) as K4.
  destruct (fold_left (attach_child o) (dv_new_cells d) (f3, dv_pending d)) as [f4 pending4]. cbn [snd] in K4.
  destruct (rest_told (now_ms f) (noradrenaline_active f) (ht_sleep_delta (harmony (control f))) ids (cells (graph f4))
    (dv_events d) pending4 [] Hids) as (l & K5 & K6).
  destruct (key_loop (rest_body _ _ _) ids _ _) as [cs5 [[events5 pending5] purge]]. cbn [fst snd] in *.
  by rewrite K5, K6, K4, K3, K3', K1, K2.
Qed.

(** The reports of a tick tell of no cell. *)
Lemma view_rounds_unseen n : forall f events, exists es,
  snd (view_rounds o n (f, events)) = events ++ es /\ seen es = [].
Proof.
  induction n as [|n IH]; intros f events; cbn [view_rounds fst]; [exists []; by rewrite app_nil_r |].
  destruct (500 <=? view_tick_accum f)%Z; [| exists []; by rewrite app_nil_r].
  unfold view_round. destruct (Views.take_due _ _ _) as [reg due]. set (f1 := set_view_tick_accum _ _).
  set (es := map _ due). destruct (IH f1 (events ++ es)) as (es' & -> & Hes'). exists (es ++ es').
  split; [by rewrite <- app_assoc |]. rewrite seen_app, Hes', app_nil_r. apply seen_none, Forall_forall.
  intros e He. apply list_elem_of_In, in_map_iff in He as (v & <- & _). apply sees_json. rewrite !not_elem_of_cons. set_solver.
Qed.

Lemma seed_lines_unseen g now : seen (map EText (snd (tick_garden o g now))) = [].
Proof.
  unfold tick_garden.
  assert (Forall (fun l => sees dt (EText l) = None)
    (snd (snd (key_loop (tick_body now) (hm_keys o (seeds g)) (seeds g) ([], []))))) as Hl.
  { apply (key_loop_ind _ (fun _ _ s => Forall (fun l => sees dt (EText l) = None) (snd s)) (hm_keys o (seeds g)) 0);
      [done | | constructor].
    intros _ m [r logs] k v _ _ Hs. cbn [snd] in Hs. unfold tick_body. destruct (is_terminal (sd_stage v)); [done |].
    cbn [fst snd]. apply Forall_app. split; [done |]. apply Forall_singleton. unfold seed_text.
    set (rest := fmt_nat k +:+ _). apply sees_nothing.
    - destruct (fixed_last 3 (yield_score (tick_seed now v)) ltac:(done)) as (m' & y & Ey & Hy).
      destruct (line_ends "SEED id=" rest Byte.x53 (as_bytes "EED id=") y eq_refl) as [k' Ek'].
      + unfold rest. rewrite !as_bytes_app, Ey. eexists. rewrite !app_assoc. reflexivity.
      + exists Byte.x53, k', y. split_and!; [by rewrite Ek' | done | done].
    - repeat constructor. }
  destruct (key_loop (tick_body now) _ _ _) as [seeds' [recent' logs]]. cbn [snd] in *.
  apply seen_none. by apply Forall_fmap.
Qed.

Lemma tick_reports_unseen dt_ms f events : exists es,
  snd (tick_reports o dt_ms f events) = events ++ es /\ seen es = [].
Proof.
  unfold tick_reports. set (f1 := set_view_tick_accum _ f).
  destruct (view_rounds_unseen (Z.to_nat (view_tick_accum f1 / 500)) f1 events) as (es1 & E1 & U1).
  destruct (view_rounds o _ (f1, events)) as [f2 events2]. cbn [snd] in E1. subst events2.
  destruct (engine_tick _ _ _ _ _) as [engine snapshot]. set (f3 := set_reflex_engine _ _).
  unfold tick_seed_garden. pose proof (seed_lines_unseen (seed_garden f3) (now_ms f3)) as U3.
  destruct (tick_garden o (seed_garden f3) (now_ms f3)) as [garden lines]. cbn [snd] in *.
  exists (es1 ++ match snapshot with Some s => [harmony_event s] | None => [] end ++ map EText lines). split.
  - destruct snapshot; by rewrite <- ?app_assoc.
  - rewrite !seen_app, U1, U3, app_nil_r. destruct snapshot as [s|]; [| done]. apply seen_none, Forall_singleton.
    apply sees_json. rewrite !not_elem_of_cons. set_solver.
Qed.

Lemma seen_omap events :
  seen events = omap told_event (omap (fun e => event_from_field_log (event_text e) dt) events).
Proof.
  unfold seen, sees. induction events as [|e events IH]; [done |]. cbn.
  destruct (event_from_field_log (event_text e) dt) as [pe|]; cbn; [| exact IH]. by rewrite IH.
Qed.
End tick.

(** ** The property *)

(** The bridge tells a host the life of the cells. Of the events that a tick returns, those that the
    bridge understands (whatever the number it is given as its tick) tell exactly the divisions with
    their parent and child, the sleeps and the deaths that the tick writes to the journal, in the same
    order; views, harmony, seeds and the end of a hormone are never mistaken for one. *)
Theorem bridge_sees_lifecycle `{UnicodeCase, SeedRng, FloatMath, JsonTextOk} o dt step variation f log :
  field_wf f -> (next_id (graph f) + Z.of_nat (size (cells (graph f))) < u64_size)%Z -> journal f = Some log ->
  let '(f', events) := tick_all o step variation f in
  exists ds, journal f' = Some (log ++ ds) /\
    omap told_event (omap (fun e => event_from_field_log (event_text e) dt) events) = omap told_delta ds.
Proof.
  intros Hw Hroom Hj. unfold tick_all. set (f1 := set_now_ms _ f). set (f2 := emit _ f1).
  assert (core f2 = core f) as Hc2 by exact (core_emit _ f1). pose proof (cells_core _ _ Hc2) as Hcs2.
  pose proof (next_core _ _ Hc2) as Hn2. pose proof (field_wf_core _ _ Hc2 Hw) as Hw2.
  rewrite <- Hcs2, <- Hn2 in Hroom.
  pose proof (tick_cells_spec o step variation f2 Hw2 Hroom) as Ht.
  pose proof (tick_cells_told o dt step variation f2 Hw2 Hroom) as Hd.
  destruct (tick_cells o step variation f2) as [[f3 events] pending].
  destruct Ht as (_ & _ & _ & Hj3 & _). set (f4 := set_ticks_since_impulse _ f3). set (f5 := emit_all pending f4).
  destruct (tick_reports_spec o step f5 events) as (_ & _ & hash & now & Hj6).
  destruct (tick_reports_unseen o dt step f5 events) as (es & Es & Us).
  destruct (tick_reports o step f5 events) as [f6 events6]. cbn [fst snd] in *. subst events6.
  exists (DTick (now_ms f1) :: pending ++ [DAwakenTick hash now]). split.
  - replace (log ++ DTick (now_ms f1) :: pending ++ [DAwakenTick hash now])
      with (((log ++ [DTick (now_ms f1)]) ++ pending) ++ [DAwakenTick hash now]) by (by rewrite <- !app_assoc).
    apply Hj6, journal_emit_all. change (journal f3 = Some (log ++ [DTick (now_ms f1)])). rewrite Hj3. by apply journal_emit.
  - rewrite <- seen_omap, seen_app, Us, app_nil_r, Hd. cbn [omap list_omap told_delta].
    change (told pending = told (pending ++ [DAwakenTick hash now])). rewrite told_app. cbn. by rewrite app_nil_r.
Qed.

(** ** A tick of a field whose cells divide and die *)
Section demo.
#[local] Instance events_case : UnicodeCase := ascii_case.
#[local] Instance events_rng : SeedRng := fun _ => (lit 5 10, lit 9 10, 7%Z).
#[local] Instance events_math : FloatMath := {| f32_ln x := x; f32_exp x := x |}.
#[local] Existing Instances tree_text tree_text_ok.

(** Two roots, of which one is written to; the other one starves. *)
Definition lively_ops : list (HashOrder * field_op) :=
  [(id_order, FAddRoot "affect/joy"); (id_order, FAddRoot "ops/idle"); (rev_order, FTick 5500 (fun _ => f0))]
  ++ repeat (id_order, FImpulse (mkImpulse Write "joy" f1 1000 [])) 13.
Definition lively : ClusterField := Eval vm_compute in run_ops lively_ops journalled_field.
Definition lively_log : list EventDelta := Eval vm_compute in default [] (journal lively).

Lemma lively_reached : rtc told_step journalled_field lively.
Proof.
  replace lively with (run_ops lively_ops journalled_field) by (vm_compute; reflexivity).
  apply run_told. vm_compute. repeat split; (reflexivity || discriminate).
Qed.

Lemma bridge_sees_lifecycle_witness :
  let '(f', events) := tick_all rev_order 600 (fun _ => f0) lively in
  exists ds, journal f' = Some (lively_log ++ ds) /\ omap told_delta ds = [LDivide 1 3; LDead 2] /\
    omap told_event (omap (fun e => event_from_field_log (event_text e) 200) events) = omap told_delta ds.
Proof.
  pose proof (bridge_sees_lifecycle rev_order 200 600 (fun _ => f0) lively lively_log
    (proj1 (reach_told lively lively_reached)) ltac:(by vm_compute) eq_refl) as Hs.
  assert (omap told_event (omap (fun e => event_from_field_log (event_text e) 200)
    (snd (tick_all rev_order 600 (fun _ => f0) lively))) = [LDivide 1 3; LDead 2]) as Ho by (vm_compute; reflexivity).
  destruct (tick_all rev_order 600 (fun _ => f0) lively) as [f' events]. destruct Hs as (ds & Hj & Hs).
  cbn [snd] in Ho. exists ds. split_and!; [exact Hj | by rewrite <- Hs | exact Hs].
Defined.
End demo.
