(* ===== verification/Bridge.v ===== *)
(** * The bridge to a host: [liminal-bridge-abi/src/ffi.rs]

    [BridgeState] is a field with its journal, the outbox, the peers and the noetic runtime. A host
    calls [liminal_init], [liminal_push] and [liminal_pull]; the life loop and the snapshot loop run
    beside them, and every one of these steps holds the field's lock. BLAKE3, the text of a
    [Uuid], and the derived reader and writer of a model are parameters; so are the serializers of
    the messages. The clock readings of a step are an argument. *)

From stdpp Require Import prelude gmap strings fin_maps list sorting.
From Stdlib Require Import ZArith Lia SpecFloat.
From S2P Require Import Prelude RustStr RustOrd Float RustText Crypto Json NodeCell Trs Symmetry FieldTypes Resonant Journal Collections Field FieldOps FieldRoute FieldTick FieldDream FieldAwaken FieldLql LifeLoop Wal StoreFiles Snapshot Database Protocol.
From S2P Require Lql Crdt Noetic Consensus Peers.

(** ** The noetic runtime *)
Abbreviation ProposalId := Consensus.ProposalId.

Class BridgeEnv : Type := {
  bridge_blake3 : bytes -> bytes;
  uuid_text : ProposalId -> string;
  model_from_value : json -> result ResonantModel string;
  model_to_vec : ResonantModel -> bytes
}.

Record NoeticRuntime : Type := mkRuntime {
  nr_local_peer : Crdt.PeerId;
  nr_local_credence : f32;
  nr_state : Noetic.NoeticState json;
  nr_consensus : Consensus.ConsensusEngine json
}.

Definition set_ns_clock (clock : Crdt.Hlc) (s : Noetic.NoeticState json) : Noetic.NoeticState json :=
  Noetic.mkNoetic (Noetic.ns_peer s) clock (Noetic.ns_models s) (Noetic.ns_model_topk s) (Noetic.ns_epochs s)
    (Noetic.ns_seeds s) (Noetic.ns_seed_status s) (Noetic.ns_policies s) (Noetic.ns_credence s).
Definition set_state (s : Noetic.NoeticState json) (r : NoeticRuntime) : NoeticRuntime :=
  mkRuntime (nr_local_peer r) (nr_local_credence r) s (nr_consensus r).
Definition set_consensus (c : Consensus.ConsensusEngine json) (r : NoeticRuntime) : NoeticRuntime :=
  mkRuntime (nr_local_peer r) (nr_local_credence r) (nr_state r) c.

Definition NoeticRuntime_new (local_peer : Crdt.PeerId) : NoeticRuntime :=
  let state := Noetic.NoeticState_new JNull local_peer in
  mkRuntime local_peer f1 (Noetic.set_credence state local_peer f1) (Consensus.ConsensusEngine_new (lit 6 10)).

Definition tick_clock (now : Z) (r : NoeticRuntime) : NoeticRuntime * Crdt.Hlc :=
  let clock := Crdt.Hlc_tick (Noetic.ns_clock (nr_state r)) now in
  (set_state (set_ns_clock clock (nr_state r)) r, clock).

Definition runtime_register_peer (peer : Crdt.PeerId) (credence : f32) (r : NoeticRuntime) : NoeticRuntime :=
  set_state (Noetic.set_credence (nr_state r) peer credence) r.

Definition runtime_set_quorum (quorum : f32) (r : NoeticRuntime) : NoeticRuntime * f32 :=
  let c := Consensus.set_quorum (nr_consensus r) quorum in
  (set_consensus c r, Consensus.e_quorum c).

(** ** JSON of what the runtime reports *)
Definition json_event (ev : string) (meta : list (string * json)) : json :=
  json_obj [("ev", JStr ev); ("meta", json_obj meta)].

Definition peer_hex (peer : Crdt.PeerId) : string := of_bytes (hex_bytes (Crdt.peer_bytes peer)).

Definition clock_json (c : Crdt.Hlc) : json :=
  json_obj [("peer", JStr (peer_hex (Crdt.node c))); ("phys_ms", JU64 (Crdt.phys_ms c)); ("log", JU64 (Crdt.log c))].

Definition build_merge_event (summary : Noetic.Summary) : json :=
  json_event "crdt_merge"
    [("peer", JStr (peer_hex (Noetic.su_peer summary))); ("digest", JStr (Noetic.su_digest summary));
     ("models", JU64 (Noetic.su_model_count summary)); ("epochs", JU64 (Noetic.su_epoch_count summary));
     ("seeds", JU64 (Noetic.su_seed_count summary)); ("topk_clock", clock_json (Noetic.su_topk_clock summary));
     ("policy_clock", clock_json (Noetic.su_policy_clock summary));
     ("credence_sum", json_f32 (Noetic.su_credence_sum summary))].

Definition phase_str (p : Consensus.Phase) : string :=
  match p with
  | Consensus.PhasePropose => "propose" | Consensus.PhaseVote => "vote" | Consensus.PhaseCommit => "commit"
  end.
Definition kind_str (k : Consensus.ProposalKind) : string :=
  match k with
  | Consensus.KindModel => "model" | Consensus.KindSeed => "seed" | Consensus.KindPolicy => "policy"
  end.

Section runtime.
Context `{BridgeEnv}.

Definition noetic_event_json (e : Consensus.NoeticEvent) : json :=
  let m := Consensus.ev_meta e in
  json_event (Consensus.ev e)
    [("phase", JStr (phase_str (Consensus.em_phase m))); ("obj", JStr (kind_str (Consensus.em_obj m)));
     ("id", JStr (uuid_text (Consensus.em_id m))); ("credence_sum", json_f32 (Consensus.em_credence_sum m));
     ("quorum", json_f32 (Consensus.em_quorum m))].

Definition apply_commit (now : Z) (proposal : Consensus.Proposal json) (r : NoeticRuntime)
  : NoeticRuntime * list json :=
  let s := nr_state r in
  let s := set_ns_clock (Crdt.Hlc_merged (Noetic.ns_clock s) (Consensus.p_clock proposal) (nr_local_peer r) now) s in
  let s :=
    match Consensus.p_object proposal with
    | Consensus.ObjModel header topk =>
        Noetic.update_model_topk (Noetic.apply_model_header s header) (Noetic.topk_entries topk) (Noetic.topk_updated topk)
    | Consensus.ObjSeed header status =>
        Noetic.update_seed_status (Noetic.apply_seed s header) status (Consensus.p_clock proposal)
    | Consensus.ObjPolicy bundle => Noetic.update_policy s bundle
    end in
  (set_state s r, [build_merge_event (Noetic.summary bridge_blake3 s)]).

Definition process_event (now : Z) (event : Consensus.NoeticEvent) (r : NoeticRuntime) : NoeticRuntime * list json :=
  let events := [noetic_event_json event] in
  match Consensus.em_phase (Consensus.ev_meta event) with
  | Consensus.PhaseCommit =>
      match Consensus.e_proposals (nr_consensus r) !! Consensus.em_id (Consensus.ev_meta event) with
      | Some proposal => let '(r, merged) := apply_commit now proposal r in (r, events ++ merged)
      | None => (r, events)
      end
  | _ => (r, events)
  end.

(** ** Proposals *)
Definition derive_peer_id (url namespace : string) : Crdt.PeerId :=
  Crdt.mkPeerId (bridge_blake3 (as_bytes url ++ as_bytes namespace)).

Definition hash_hex (b : bytes) : string := of_bytes (hex_bytes (bridge_blake3 b)).

Definition model_entries (model : ResonantModel) : list string :=
  map (fun e => "edge:" +:+ fmt_nat (e_from e) +:+ "->" +:+ fmt_nat (e_to e) +:+ ":" +:+ fmt_fixed 3 (e_weight e)
         +:+ ":" +:+ fmt_fixed 3 (e_coherence e)) (take 8 (rm_edges model))
  ++ map (fun i => "influence:" +:+ fmt_nat (in_source i) +:+ "->" +:+ fmt_nat (in_sink i) +:+ ":"
         +:+ fmt_fixed 3 (in_weight i) +:+ ":" +:+ fmt_fixed 3 (in_coherence i)) (take 8 (rm_influences model))
  ++ map (fun t => "tension:" +:+ fmt_nat (tn_node t) +:+ ":" +:+ fmt_fixed 3 (magnitude t) +:+ ":"
         +:+ fmt_fixed 3 (relief t)) (take 8 (rm_tensions model)).

Definition build_model_proposal (data : json) (local_peer : Crdt.PeerId) (clock : Crdt.Hlc)
  : result (Noetic.ResonantModelHeader * Noetic.ResonantModelTopK) string :=
  let! model := model_from_value data in
  let digest := hash_hex (model_to_vec model) in
  let header := Noetic.mkModelHeader digest clock digest local_peer in
  Ok (header, Noetic.mkTopK (model_entries model) clock).

(** [now] is the clock, read only when no time is given. *)
Definition parse_seed_status (now : Z) (data : json) : result Noetic.SeedStatus string :=
  let text key := jget key data ≫= as_str in
  let time key := default now (jget key data ≫= as_u64) in
  let status := ascii_lower (default "pending" (text "status")) in
  if decide (status = "pending") then Ok Noetic.Pending
  else if decide (status = "active") then Ok (Noetic.Active (time "started_ms"))
  else if decide (status = "committed") then Ok (Noetic.Committed (time "finished_ms"))
  else if decide (status = "failed") then Ok (Noetic.Failed (default "unknown failure" (text "error")))
  else if decide (status = "observed") then Ok (Noetic.Observed (default "" (text "note")))
  else Err ("unsupported seed status: " +:+ status).

Definition build_seed_proposal (now : Z) (data : json) (local_peer : Crdt.PeerId) (clock : Crdt.Hlc)
  : result (Noetic.SeedHeader * Noetic.SeedStatus) string :=
  let id :=
    v ← jget "id" data;
    match as_str v with
    | Some s => Some s
    | None => fmt_nat <$> as_u64 v
    end in
  let! id := ok_or id "seed.id missing" in
  let epoch := default 0%Z (jget "epoch" data ≫= as_u64) in
  let! status := parse_seed_status now data in
  Ok (Noetic.mkSeedHeader id epoch clock local_peer, status).

Context `{JsonText}.

Definition build_policy_bundle (data : json) (clock : Crdt.Hlc) : result (Noetic.PolicyBundle json) string :=
  Ok (Noetic.mkPolicy clock (hash_hex (as_bytes (json_to_string data))) data).

(** What follows a proposal: the event is processed, and the local peer approves it. The readings
    of the clock are [now 1] to [now 3]. *)
Definition approve_own (now : nat -> Z) (event : Consensus.NoeticEvent) (r : NoeticRuntime)
  : NoeticRuntime * list json :=
  let proposal_id := Consensus.em_id (Consensus.ev_meta event) in
  let '(r, events) := process_event (now 1) event r in
  let '(r, vote_clock) := tick_clock (now 2) r in
  let '(c, vote_event) :=
    Consensus.vote (nr_consensus r) proposal_id (nr_local_peer r) Consensus.Approve (nr_local_credence r) vote_clock in
  let r := set_consensus c r in
  match vote_event with
  | Some vote_event => let '(r, more) := process_event (now 3) vote_event r in (r, events ++ more)
  | None => (r, events)
  end.

Definition runtime_propose (now : nat -> Z) (id : ProposalId) (obj : NoeticObjectKind) (data : json) (r : NoeticRuntime)
  : NoeticRuntime * result (list json) string :=
  let local_peer := nr_local_peer r in
  let '(r, clock) := tick_clock (now 0) r in
  match obj with
  | NModel =>
      match build_model_proposal data local_peer clock with
      | Err e => (r, Err e)
      | Ok (header, topk) =>
          let '(c, event) := Consensus.propose_model (nr_consensus r) id local_peer header topk clock in
          let '(r, events) := approve_own now event (set_consensus c r) in (r, Ok events)
      end
  | NSeed =>
      match build_seed_proposal (now 4) data local_peer clock with
      | Err e => (r, Err e)
      | Ok (header, status) =>
          let '(c, event) := Consensus.propose_seed (nr_consensus r) id local_peer header status clock in
          let '(r, events) := approve_own now event (set_consensus c r) in (r, Ok events)
      end
  | NPolicy =>
      match build_policy_bundle data clock with
      | Err e => (r, Err e)
      | Ok bundle =>
          let '(c, event) := Consensus.propose_policy (nr_consensus r) id local_peer bundle clock in
          let '(r, events) := approve_own now event (set_consensus c r) in (r, Ok events)
      end
  end.
End runtime.

(** ** Introspection *)
Definition awakening_cfg_json (c : AwakeningConfig) : json :=
  json_obj [("max_nodes", JU64 (max_nodes c)); ("energy_floor", json_f32 (energy_floor c));
            ("energy_boost", json_f32 (energy_boost c)); ("salience_boost", json_f32 (salience_boost c));
            ("protect_salience", json_f32 (ac_protect_salience c)); ("tick_bias_ms", json_int (tick_bias_ms c));
            ("target_gain", json_f32 (target_gain c))].
Definition awaken_config_event (cfg : AwakeningConfig) (action : string) : json :=
  json_event "awaken" [("action", JStr action); ("cfg", awakening_cfg_json cfg)].
Definition awaken_report_event (r : AwakeningReport) : json :=
  json_event "awaken"
    [("action", JStr "now"); ("applied", JU64 (aw_applied r)); ("protected", JU64 (aw_protected r));
     ("avg_tension", json_f32 (aw_avg_tension r)); ("tick_adjust_ms", json_int (aw_tick_adjust_ms r));
     ("energy_delta", json_f32 (aw_energy_delta r))].

(** The comparisons that sort by decreasing key, then by increasing identifier. *)
Definition desc_then (key : f32 * Z) (key' : f32 * Z) : bool :=
  match f_partial_cmp (fst key') (fst key) with
  | Some Lt => true
  | Some Gt => false
  | _ => (snd key <=? snd key')%Z
  end.

Section introspect.
Context `{UnicodeCase, FloatMath}.
Variable o : HashOrder.

Definition top_nodes (limit : nat) (f : ClusterField) : list json :=
  map (fun cell =>
         json_obj [("id", JU64 (c_id cell)); ("pattern", JStr (core_pattern (c_seed cell)));
                   ("salience", json_f32 (c_salience cell)); ("energy", json_f32 (c_energy cell))])
    (take limit (sort_by (fun a b => desc_then (c_salience a, c_id a) (c_salience b, c_id b))
                   (hm_values o (cells (graph f))))).
Definition top_influences (model : ResonantModel) (limit : nat) : list json :=
  map influence_json
    (take limit (sort_by (fun a b => desc_then (f32_abs (in_weight a), in_source a) (f32_abs (in_weight b), in_source b))
                   (rm_influences model))).
Definition top_tensions (model : ResonantModel) (limit : nat) : list json :=
  map tension_json
    (take limit (sort_by (fun a b => desc_then (magnitude a, tn_node a) (magnitude b, tn_node b)) (rm_tensions model))).

Definition ensure_resonant_model (f : ClusterField) : ClusterField * ResonantModel :=
  let '(f, rebuilt) := rebuild_resonant_model o f in
  (f, match rebuilt with
      | Some m => m
      | None => default ResonantModel_default (cached_resonant_model (cycles f))
      end).

Definition introspect_limit (top : option Z) : Z := Z.min (Z.max (default 5%Z top) 1) 32.

Definition build_introspect_event (target : IntrospectTarget) (top : option Z) (f : ClusterField) : ClusterField * json :=
  let limit := introspect_limit top in
  let n := Z.to_nat limit in
  match target with
  | TAwaken => let '(f, report) := awaken_now o f in (f, awaken_report_event report)
  | TModel =>
      let '(f, model) := ensure_resonant_model f in
      (f, json_event "introspect"
            [("target", JStr "model"); ("coherence", json_f32 (rm_coherence model));
             ("edges", JU64 (Z.of_nat (length (rm_edges model))));
             ("influences", JU64 (Z.of_nat (length (rm_influences model))));
             ("tensions", JU64 (Z.of_nat (length (rm_tensions model)))); ("top_nodes", JArr (top_nodes n f));
             ("requested_top", JU64 limit)])
  | TInfluence =>
      let '(f, model) := ensure_resonant_model f in
      (f, json_event "introspect"
            [("target", JStr "influence"); ("items", JArr (top_influences model n)); ("requested_top", JU64 limit)])
  | TTension =>
      let '(f, model) := ensure_resonant_model f in
      (f, json_event "introspect"
            [("target", JStr "tension"); ("items", JArr (top_tensions model n)); ("requested_top", JU64 limit)])
  end.
End introspect.

(** ** The state and its steps *)
Record BridgeState : Type := mkBridge {
  br_field : ClusterField;
  br_outbox : Outbox;
  br_journal : option DiskJournal;
  br_snapshot_cfg : option SnapshotConfig;
  br_namespace : string;
  br_gossip : Peers.GossipManager;
  br_noetic : NoeticRuntime;
  br_tick_ms : Z
}.

Definition set_outbox (v : Outbox) (b : BridgeState) : BridgeState :=
  mkBridge (br_field b) v (br_journal b) (br_snapshot_cfg b) (br_namespace b) (br_gossip b) (br_noetic b) (br_tick_ms b).
Definition set_field (f : ClusterField) (j : option DiskJournal) (b : BridgeState) : BridgeState :=
  mkBridge f (br_outbox b) j (br_snapshot_cfg b) (br_namespace b) (br_gossip b) (br_noetic b) (br_tick_ms b).
Definition set_gossip (v : Peers.GossipManager) (b : BridgeState) : BridgeState :=
  mkBridge (br_field b) (br_outbox b) (br_journal b) (br_snapshot_cfg b) (br_namespace b) v (br_noetic b) (br_tick_ms b).
Definition set_noetic (v : NoeticRuntime) (b : BridgeState) : BridgeState :=
  mkBridge (br_field b) (br_outbox b) (br_journal b) (br_snapshot_cfg b) (br_namespace b) (br_gossip b) v (br_tick_ms b).
Definition set_bridge_tick (v : Z) (b : BridgeState) : BridgeState :=
  mkBridge (br_field b) (br_outbox b) (br_journal b) (br_snapshot_cfg b) (br_namespace b) (br_gossip b) (br_noetic b) v.

(** What a call is given: the order of the maps, the time a cycle took, the readings of the clock,
    and a fresh identifier. *)
Record PushInput : Type := mkPushInput {
  pn_order : HashOrder;
  pn_took : Z;
  pn_now : nat -> Z;
  pn_id : ProposalId
}.

(** The tick the bridge writes into the events of commands. *)
Definition COMMAND_DT : Z := 1000.

(** Why a bridge does not start; the host only learns that it did not. *)
Inductive InitError : Type :=
| ZeroTick
| StoreFailed (e : StoreError).

Section bridge.
Context `{UnicodeCase, FloatMath, SeedRng, JsonText, BridgeEnv, Lql.QueryJson, Crc32, Cbor EventDelta}.

(** A step on the field under its lock; the journal, when there is one, gets the deltas. *)
Definition on_field {A : Type} (step : ClusterField -> ClusterField * A) (b : BridgeState) : BridgeState * A :=
  match br_journal b with
  | Some j =>
      let '(f, a) := step (attached (br_field b)) in
      (set_field f (Some (append_deltas (emitted f) j)) b, a)
  | None => let '(f, a) := step (br_field b) in (set_field f None b, a)
  end.

Definition push_log (dt : Z) (e : FieldEvent) (b : BridgeState) : BridgeState :=
  set_outbox (push_some (event_from_field_log (event_text e) dt) (br_outbox b)) b.
Definition push_logs (dt : Z) (es : list FieldEvent) (b : BridgeState) : BridgeState :=
  fold_left (fun b e => push_log dt e b) es b.
Definition push_json_event (payload : json) (b : BridgeState) : BridgeState := push_log COMMAND_DT (EJson payload) b.
Definition push_json_events (payloads : list json) (b : BridgeState) : BridgeState :=
  fold_left (fun b payload => push_json_event payload b) payloads b.

Definition lql_message (err : Lql.LqlError) : string := match err with Lql.lql_error message => message end.
Definition lql_error_event (err : Lql.LqlError) (query : string) : FieldEvent :=
  event "lql" [("error", JStr (lql_message err)); ("query", JStr query)].

Definition dream_config_event (c : DreamConfig) : FieldEvent :=
  event "dream_config"
    [("min_idle_s", JU64 (min_idle_s c)); ("window_ms", JU64 (dc_window_ms c));
     ("strengthen_top_pct", json_f32 (strengthen_top_pct c)); ("weaken_bottom_pct", json_f32 (weaken_bottom_pct c));
     ("protect_salience", json_f32 (dc_protect_salience c)); ("adreno_protect", JBool (adreno_protect c));
     ("max_ops_per_cycle", JU64 (max_ops_per_cycle c))].
Definition sync_config_event (c : SyncConfig) : FieldEvent :=
  event "sync_config"
    [("phase_len_ms", JU64 (phase_len_ms c)); ("phase_gap_ms", JU64 (phase_gap_ms c));
     ("cooccur_threshold", json_f32 (cooccur_threshold c)); ("max_groups", JU64 (max_groups c));
     ("share_top_k", JU64 (share_top_k c)); ("weight_xfer", json_f32 (weight_xfer c))].
Definition collective_report_events (r : SyncReport) : list FieldEvent :=
  [EText ("COLLECTIVE_DREAM groups=" +:+ fmt_nat (sr_groups r) +:+ " shared=" +:+ fmt_nat (sr_shared r)
     +:+ " aligned=" +:+ fmt_nat (sr_aligned r) +:+ " protected=" +:+ fmt_nat (sr_protected r)
     +:+ " took=" +:+ fmt_nat (sr_took_ms r) +:+ "ms");
   event "collective_dream"
     [("groups", JU64 (sr_groups r)); ("shared", JU64 (sr_shared r)); ("aligned", JU64 (sr_aligned r));
      ("protected", JU64 (sr_protected r)); ("took_ms", JU64 (sr_took_ms r))]].

Definition replay_cfg_json (c : ReplayConfig) : json :=
  json_obj [("mode", JStr (rc_mode c)); ("scale", json_f32 (rc_scale c)); ("max_ops", JU64 (rc_max_ops c));
            ("protect_salience", json_f32 (rc_protect_salience c))].

Definition peer_json (info : Peers.PeerInfo) : json :=
  json_obj [("id", JStr (of_bytes (hex_bytes (Peers.p_id info)))); ("url", JStr (Peers.p_url info));
            ("namespace", JStr (Peers.p_namespace info)); ("credence", json_f32 (Peers.p_credence info));
            ("last_seen_ms", JU64 (Peers.p_last_seen_ms info))].

(** ** Handlers *)
Definition handle_peer_add (now : Z) (spec : PeerSpec) (b : BridgeState) : BridgeState * list json :=
  let namespace := default (br_namespace b) (pe_namespace spec) in
  let credence := f32_clamp (pe_credence spec) f0 f1 in
  let peer_id := derive_peer_id (pe_url spec) namespace in
  let info := Peers.mkPeerInfo (Crdt.peer_bytes peer_id) (pe_url spec) namespace credence now in
  let b := set_gossip (Peers.register_peer info (br_gossip b)) b in
  let b := set_noetic (runtime_register_peer peer_id credence (br_noetic b)) b in
  (b, [json_event "peers" [("action", JStr "add"); ("peer", peer_json info)]]).

Definition handle_peer_list (o : HashOrder) (b : BridgeState) : list json :=
  [json_event "peers"
     [("action", JStr "list"); ("peers", JArr (map peer_json (Peers.peers (hm_iter o) (br_gossip b))))]].

Definition handle_noetic_quorum (quorum : f32) (b : BridgeState) : BridgeState * list json :=
  let '(r, new_quorum) := runtime_set_quorum (f32_clamp quorum f0 f1) (br_noetic b) in
  (set_noetic r b, [json_event "noetic" [("phase", JStr "quorum"); ("q", json_f32 new_quorum)]]).

Definition handle_noetic_propose (i : PushInput) (obj : NoeticObjectKind) (data : json) (b : BridgeState)
  : BridgeState * result (list json) string :=
  let '(r, events) := runtime_propose (pn_now i) (pn_id i) obj data (br_noetic b) in
  (set_noetic r b, events).

(** [timeline.epochs] cut to its last [limit] entries. *)
Definition cut_timeline (top : option Z) (t : MirrorTimeline) : MirrorTimeline :=
  match top with
  | Some limit => mkTimeline (drop (length (mt_epochs t) - Z.to_nat limit) (mt_epochs t)) (built_ms t)
  | None => t
  end.

Definition push_impulse (i : PushInput) (impulse : ProtocolImpulse) (b : BridgeState) : BridgeState :=
  let '(b, logs) := on_field (route_impulse (pn_order i) (to_core impulse)) b in
  set_outbox (fold_left (fun o log => push_some (event_from_impulse_log log) o) logs (br_outbox b)) b.

(** The [None] of [detect_sync_groups] is its panic on a pair whose score is NaN. There is no such pair: a score is
    the product of two numbers that are [max(_, 0)] of a frequency and of a strength, plus 1 and plus 0.5, and
    [max] drops a NaN. The case stands with the one of no groups. *)
Definition sync_now (o : HashOrder) (took : Z) (f : ClusterField) : ClusterField * option SyncReport :=
  let cfg := sync_cfg (cycles f) in
  match detect_sync_groups o cfg (now_ms f) f with
  | Some [] | None => (f, None)
  | Some groups => let '(f, report) := run_collective_dream groups cfg (now_ms f) took f in (f, Some report)
  end.

(** The arms of the commands that answer with a log. *)
Definition push_lql (o : HashOrder) (query : string) (b : BridgeState) : BridgeState :=
  let '(b, es) :=
    match Lql.parse_lql query with
    | Ok ast =>
        let '(b, outcome) := on_field (exec_lql o ast) b in
        (b, match outcome with
            | Ok result => events result
            | Err err => [lql_error_event err query]
            end)
    | Err err => (b, [lql_error_event err query])
    end in
  push_logs COMMAND_DT es b.
Definition push_dream_now (o : HashOrder) (took : Z) (b : BridgeState) : BridgeState :=
  let '(b, report) := on_field (run_dream_cycle o took) b in
  push_logs COMMAND_DT
    match report with
    | Some report => dream_events report
    | None => [EText "DREAM no-op (not enough activity)"]
    end b.
Definition push_sync_now (o : HashOrder) (took : Z) (b : BridgeState) : BridgeState :=
  let '(b, report) := on_field (sync_now o took) b in
  push_logs COMMAND_DT
    match report with
    | Some report => collective_report_events report
    | None => [EText "COLLECTIVE_DREAM no-op (no qualifying groups)"]
    end b.
Definition push_replay (o : HashOrder) (took epoch_id : Z) (cfg : option ReplayConfig) (b : BridgeState) : BridgeState :=
  let cfg_value := default ReplayConfig_default cfg in
  let '(b, report) := on_field (replay_epoch_by_id o epoch_id cfg_value took) b in
  push_json_event (json_event "replay"
    [("epoch_id", JU64 (rr_epoch_id report)); ("mode", JStr (rr_mode report)); ("applied", JU64 (rr_applied report));
     ("predicted_gain", json_f32 (predicted_gain report)); ("took_ms", JU64 (rr_took_ms report));
     ("cfg", replay_cfg_json cfg_value)]) b.
Definition push_propose (i : PushInput) (obj : NoeticObjectKind) (data : json) (b : BridgeState) : BridgeState :=
  let '(b, es) := handle_noetic_propose i obj data b in
  match es with
  | Ok es => push_json_events es b
  | Err err => push_json_event (json_event "noetic" [("phase", JStr "error"); ("reason", JStr err)]) b
  end.

Definition run_command (i : PushInput) (command : ProtocolCommand) (b : BridgeState) : BridgeState :=
  let o := pn_order i in
  match command with
  | CTrsSet cfg => let '(b, e) := on_field (set_trs_config cfg) b in push_log COMMAND_DT e b
  | CTrsTarget value => let '(b, e) := on_field (set_trs_target value) b in push_log COMMAND_DT e b
  | CLql query => push_lql o query b
  | CDreamNow => push_dream_now o (pn_took i) b
  | CDreamSet cfg =>
      let '(b, updated) := on_field (fun f => let f := set_dream_config cfg f in (f, dream_cfg (cycles f))) b in
      push_log COMMAND_DT (dream_config_event updated) b
  | CDreamGet =>
      let '(b, cfg) := on_field (fun f => (f, dream_cfg (cycles f))) b in
      push_log COMMAND_DT (dream_config_event cfg) b
  | CSyncNow => push_sync_now o (pn_took i) b
  | CSyncSet cfg =>
      let '(b, updated) := on_field (fun f => let f := set_sync_config cfg f in (f, sync_cfg (cycles f))) b in
      push_log COMMAND_DT (sync_config_event updated) b
  | CSyncGet =>
      let '(b, cfg) := on_field (fun f => (f, sync_cfg (cycles f))) b in
      push_log COMMAND_DT (sync_config_event cfg) b
  | CAwakenSet cfg =>
      let '(b, e) := on_field (fun f => (set_awakening_config cfg f, awaken_config_event cfg "set")) b in
      push_json_event e b
  | CAwakenGet =>
      let '(b, e) := on_field (fun f => (f, awaken_config_event (awakening_cfg (cycles f)) "cfg")) b in
      push_json_event e b
  | CMirrorTimeline top =>
      let '(b, timeline) := on_field (fun f => (f, mirror_timeline f)) b in
      let timeline := cut_timeline top timeline in
      push_json_event (json_event "mirror.timeline"
        [("built_ms", JU64 (built_ms timeline)); ("epochs", JArr (map epoch_json (mt_epochs timeline)))]) b
  | CMirrorInfluencers k =>
      let limit := Z.min (default 10%Z k) u32_max in
      let '(b, epochs) := on_field (fun f => (f, mirror_top_influencers limit f)) b in
      push_json_event (json_event "mirror.influencers" [("epochs", JArr (map epoch_json epochs))]) b
  | CMirrorReplay epoch_id cfg => push_replay o (pn_took i) epoch_id cfg b
  | CPeerAdd peer => let '(b, es) := handle_peer_add (pn_now i 0) peer b in push_json_events es b
  | CPeerList => push_json_events (handle_peer_list o b) b
  | CNoeticPropose obj data => push_propose i obj data b
  | CNoeticQuorum q => let '(b, es) := handle_noetic_quorum q b in push_json_events es b
  | CIntrospect request =>
      let '(b, e) := on_field (build_introspect_event o (iq_target request) (iq_top request)) b in
      push_json_event e b
  end.

Definition handle_message (i : PushInput) (message : ProtocolPush) (b : BridgeState) : BridgeState :=
  match message with
  | PushImpulse impulse => push_impulse i impulse b
  | PushCommand command => run_command i command b
  end.

(** ** The C interface

    The global [STATE] is set once. A buffer is [None] for a null pointer; the answer of [pull] is
    the bytes it copies. *)
Definition liminal_push `{Cbor ProtocolPush} (i : PushInput) (msg_cbor : option bytes) (state : option BridgeState)
  : option BridgeState * Z :=
  match msg_cbor with
  | None | Some [] => (state, 0%Z)
  | Some b =>
      match from_slice b, state with
      | Ok message, Some st => (Some (handle_message i message st), blen b)
      | _, _ => (state, 0%Z)
      end
  end.

Definition liminal_pull `{Cbor ProtocolPackage} (cap : Z) (state : option BridgeState) : option BridgeState * option bytes :=
  if (cap =? 0)%Z then (state, None)
  else
    match state with
    | None => (None, None)
    | Some st =>
        let '(out, package) := outbox_take (br_outbox st) in
        match package with
        | None => (state, None)
        | Some package =>
            match to_vec package with
            | Err _ => (Some (set_outbox (restore package out) st), None)
            | Ok encoded =>
                if (cap <? blen encoded)%Z then (Some (set_outbox (restore package out) st), None)
                else (Some (set_outbox out st), Some encoded)
            end
        end
    end.

Context `{Cbor StoreManifest, Cbor SnapshotEnvelope}.

(** [os] gives the orders of the start, [root] the files at the store path, [peer] the random
    identity. *)
Definition BridgeState_new (os : nat -> HashOrder) (root : string -> Root) (peer : bytes) (now : Z) (config : BridgeConfig)
  : result BridgeState InitError :=
  if (bc_tick_ms config =? 0)%Z then Err ZeroTick
  else
    let cfg := snapshot_config (bc_snap_interval config) (bc_snap_maxwal config) in
    let! start :=
      match bc_store_path config with
      | Some path =>
          let! db := map_err StoreFailed (open_database os (root path)) in
          Ok (db_field db, Some (db_journal db))
      | None => Ok (fst (add_root (os 0) "liminal/root" ClusterField_new), None)
      end in
    let '(f, j) := start in
    let runtime := NoeticRuntime_new (Crdt.mkPeerId peer) in
    let info := Peers.mkPeerInfo peer "local" "liminal" (nr_local_credence runtime) now in
    Ok (mkBridge f Outbox_default j ((fun _ => cfg) <$> bc_store_path config) "liminal"
          (Peers.register_peer info (Peers.GossipManager_new peer)) runtime (bc_tick_ms config)).

Definition liminal_init `{Cbor BridgeConfig} (os : nat -> HashOrder) (root : string -> Root) (peer : bytes) (now : Z)
    (cfg_cbor : option bytes) (state : option BridgeState) : option BridgeState * bool :=
  match cfg_cbor with
  | None | Some [] => (state, false)
  | Some b =>
      match from_slice b with
      | Err _ => (state, false)
      | Ok config =>
          match BridgeState_new os root peer now config, state with
          | Ok st, None => (Some st, true)
          | _, _ => (state, false)
          end
      end
  end.

(** ** The loops beside the calls *)
(** The callbacks of [start_life_loop]. *)
Definition life_output (b : BridgeState) (out : LifeOutput) : BridgeState :=
  match out with
  | OMetrics metrics =>
      let proto := from_core metrics in
      set_outbox (push_event (event_from_metrics proto 1000) (set_metrics proto (br_outbox b))) b
  | OEvent e => push_log (br_tick_ms b) e b
  | OHint hint =>
      let new_tick := Protocol.adjust_tick (br_tick_ms b) hint in
      let b := set_bridge_tick new_tick b in
      set_outbox (push_event (event_from_hint hint new_tick) (br_outbox b)) b
  end.
(** One round of the life loop; [None] is a panic of its task. *)
Definition bridge_round `{LifeEnv} (i : LifeInput) (s : LifeState) (b : BridgeState) : option (LifeState * BridgeState) :=
  let f := match br_journal b with Some _ => attached (br_field b) | None => br_field b end in
  match life_round i s f with
  | None => None
  | Some (s, f, out) =>
      let b := set_field f (append_deltas (emitted f) <$> br_journal b) b in
      Some (s, fold_left life_output out b)
  end.

(** One round of [spawn_snapshot_loop], [elapsed] seconds after the last snapshot. *)
Definition bridge_snapshot (o : HashOrder) (elapsed : Z) (b : BridgeState) : BridgeState :=
  match br_journal b, br_snapshot_cfg b with
  | Some j, Some cfg =>
      let '(db, r) := snapshot_round cfg elapsed o (mkDb (br_field b) j) in
      let b := set_field (db_field db) (Some (db_journal db)) b in
      match r with
      | Some (Ok info) => set_outbox (push_event (event_from_snapshot (si_id info)) (br_outbox b)) b
      | _ => b
      end
  | _, _ => b
  end.
End bridge.
