(* ===== verification/BridgeProps.v ===== *)
(** * The bridge as a whole

    A bridge over a journal: whatever the host pushes and pulls, and however the life loop and the
    snapshot loop interleave with it, a new process finds the durable part of the field
    ([bridge_recovers]); events reach the host in the order they happened, each exactly once
    ([bridge_delivers]). *)

From stdpp Require Import prelude gmap strings fin_maps fin_sets list sorting relations.
From Stdlib Require Import ZArith Lia SpecFloat.
From S2P Require Import Prelude RustStr Wal WalSpec WalRead WalProps Crypto RustOrd Float RustText Json NodeCell Trs Seeds Symmetry FieldTypes Feedback Variant Resonant Journal Collections Field FieldOps FieldTick FieldInv FieldReplay FieldSteps FieldSound FieldDream FieldAwaken FieldLql FieldCycles FieldProps LifeLoop LifeProps StoreFiles Snapshot Database FieldCodec DatabaseProps Protocol Bridge.
From S2P Require Lql Crdt Noetic Consensus Peers.

Section recover.
Context `{UnicodeCase, !CaseStable, SeedRng, FloatMath, LifeEnv, JsonText, BridgeEnv, Lql.QueryJson, Crc32, !Crc32Ok}.
Context `{Cbor EventDelta, !CborOk EventDelta, !CborTotal EventDelta, Cbor StoreManifest, !CborOk StoreManifest}.
Context `{Cbor SnapshotEnvelope, !EnvelopeOk, Cbor ProtocolPush, Cbor ProtocolPackage, Cbor BridgeConfig}.

(** ** What a call does to the field and its journal *)
(** The field takes a step, and the journal gets what it tells. *)
Definition tells (b b' : BridgeState) : Prop :=
  forall j, br_journal b = Some j ->
    told (br_field b) (br_field b') /\ br_journal b' = Some (append_deltas (emitted (br_field b')) j).
Definition quiet (b b' : BridgeState) : Prop := br_field b' = br_field b /\ br_journal b' = br_journal b.

Lemma quiet_refl b : quiet b b. Proof. done. Qed.
Lemma quiet_trans b b1 b2 : quiet b b1 -> quiet b1 b2 -> quiet b b2.
Proof. intros [E1 E2] [E3 E4]. split; congruence. Qed.
Lemma tells_quiet b b1 b2 : tells b b1 -> quiet b1 b2 -> tells b b2.
Proof. intros Ht [Ef Ej] j Hj. rewrite Ef, Ej. by apply Ht. Qed.

Lemma quiet_fold {A} (step : BridgeState -> A -> BridgeState) (l : list A) :
  (forall b a, quiet b (step b a)) -> forall b, quiet b (fold_left step l b).
Proof.
  intros Hq. induction l as [|a l IH]; intros b; [apply quiet_refl |]. cbn [fold_left]. by eapply quiet_trans, IH.
Qed.
Lemma push_logs_quiet dt es b : quiet b (push_logs dt es b).
Proof. by apply quiet_fold. Qed.
Lemma push_json_events_quiet es b : quiet b (push_json_events es b).
Proof. by apply quiet_fold. Qed.
Lemma life_output_quiet b out : quiet b (life_output b out).
Proof. by destruct out. Qed.

Lemma on_field_tells {A} (step : ClusterField -> ClusterField * A) b :
  told (br_field b) (fst (step (attached (br_field b)))) -> tells b (fst (on_field step b)).
Proof.
  intros Ht j Hj. unfold on_field. rewrite Hj. by destruct (step (attached (br_field b))).
Qed.

(** A step that is an operation of the field, and what follows it. *)
Lemma on_op_tells {A} o op (step : ClusterField -> ClusterField * A) (after : BridgeState -> A -> BridgeState) b :
  field_wf (br_field b) -> room op (br_field b) -> visible op (br_field b) ->
  (forall f, fst (step f) = field_apply o op f) -> (forall b a, quiet b (after b a)) ->
  tells b (let '(b, a) := on_field step b in after b a).
Proof.
  intros Hw Hr Hv Hs Hq. pose proof (on_field_tells step b) as Ht. rewrite Hs in Ht. specialize (Ht (told_op o op _ Hw Hr Hv)).
  destruct (on_field step b) as [b1 a]. by eapply tells_quiet.
Qed.
(** A step that only reads. *)
Lemma on_read_tells {A} (read : ClusterField -> A) (after : BridgeState -> A -> BridgeState) b :
  field_wf (br_field b) -> (forall b a, quiet b (after b a)) ->
  tells b (let '(b, a) := on_field (fun f => (f, read f)) b in after b a).
Proof.
  intros Hw Hq. pose proof (on_field_tells (fun f => (f, read f)) b (told_attached _ Hw)) as Ht.
  destruct (on_field _ b) as [b1 a]. by eapply tells_quiet.
Qed.

Lemma sync_now_tells o took b : field_wf (br_field b) -> tells b (push_sync_now o took b).
Proof.
  intros Hw. unfold push_sync_now. pose proof (on_field_tells (sync_now o took) b) as Ht.
  assert (told (br_field b) (fst (sync_now o took (attached (br_field b))))) as Hs.
  { unfold sync_now. destruct (detect_sync_groups _ _ _ _) as [[|g groups]|]; [by apply told_attached | | by apply told_attached].
    pose proof (told_op o (FCollective (g :: groups) (sync_cfg (cycles (attached (br_field b)))) (now_ms (attached (br_field b))) took)
      (br_field b) Hw I I) as Hc. cbn [field_apply] in Hc. by destruct (run_collective_dream _ _ _ _ _). }
  specialize (Ht Hs). destruct (on_field _ b) as [b1 report]. eapply tells_quiet; [exact Ht | apply push_logs_quiet].
Qed.

Lemma lql_tells o query b : field_wf (br_field b) -> tells b (push_lql o query b) \/ quiet b (push_lql o query b).
Proof.
  intros Hw. unfold push_lql. destruct (Lql.parse_lql query) as [ast|e]; [left | by right; apply push_logs_quiet].
  pose proof (on_field_tells (exec_lql o ast) b (told_op o (FQuery ast) _ Hw I I)) as Ht.
  destruct (on_field _ b) as [b1 r]. by eapply tells_quiet, push_logs_quiet.
Qed.

Lemma introspect_told o target top f : field_wf f -> told f (fst (build_introspect_event o target top (attached f))).
Proof.
  intros Hw. pose proof (told_op o FRebuildModel f Hw I I) as Hm. pose proof (told_op o FAwakenNow f Hw I I) as Ha.
  cbn [field_apply] in *. unfold build_introspect_event, ensure_resonant_model.
  destruct target; [by destruct (awaken_now o (attached f)) | by destruct (rebuild_resonant_model o (attached f)) ..].
Qed.

(** An impulse may divide every cell it meets. *)
Definition push_room (m : ProtocolPush) (f : ClusterField) : Prop :=
  match m with PushImpulse impulse => room (FImpulse (to_core impulse)) f | PushCommand _ => True end.

Lemma command_tells i c b : field_wf (br_field b) -> tells b (run_command i c b) \/ quiet b (run_command i c b).
Proof.
  intros Hw. set (o := pn_order i). destruct c as [cfg | value | query | | cfg | | cfg | | | cfg | | request | top | k
    | epoch_id cfg | peer | | obj data | q]; cbn [run_command].
  - left. by apply (on_op_tells o (FTrsConfig cfg)).
  - left. by apply (on_op_tells o (FTrsTarget value)).
  - by apply lql_tells.
  - left. unfold push_dream_now. apply (on_op_tells o (FDream (pn_took i))); try done. intros. apply push_logs_quiet.
  - left. by apply (on_op_tells o (FDreamConfig cfg)).
  - left. by apply on_read_tells.
  - left. by apply (on_op_tells o (FSyncConfig cfg)).
  - left. by apply on_read_tells.
  - left. by apply sync_now_tells.
  - left. by apply (on_op_tells o (FAwakeningConfig cfg)).
  - left. by apply on_read_tells.
  - left. pose proof (on_field_tells _ b (introspect_told o (iq_target request) (iq_top request) _ Hw)) as Ht.
    fold o. destruct (on_field _ b) as [b1 e]. by eapply tells_quiet.
  - left. by apply on_read_tells.
  - left. by apply on_read_tells.
  - left. by apply (on_op_tells o (FReplay epoch_id (default ReplayConfig_default cfg) (pn_took i))).
  - right. eapply quiet_trans; [| apply push_json_events_quiet]. done.
  - right. apply push_json_events_quiet.
  - right. unfold push_propose, handle_noetic_propose. destruct (runtime_propose _ _ _ _ _) as [r [es|e]]; [| done].
    eapply quiet_trans; [| apply push_json_events_quiet]. done.
  - right. unfold handle_noetic_quorum. by destruct (runtime_set_quorum _ _).
Qed.

Lemma message_tells i m b :
  field_wf (br_field b) -> push_room m (br_field b) -> tells b (handle_message i m b) \/ quiet b (handle_message i m b).
Proof.
  intros Hw Hr. destruct m as [impulse | c]; [left | by apply command_tells].
  by apply (on_op_tells (pn_order i) (FImpulse (to_core impulse)) _
    (fun b logs => set_outbox (fold_left (fun o log => push_some (event_from_impulse_log log) o) logs (br_outbox b)) b)).
Qed.

(** ** Runs *)
(** The deltas of a step fit in the log. *)
Definition log_room (b b' : BridgeState) : Prop :=
  forall j, br_journal b = Some j -> fits (emitted (br_field b')) j.

(** Calls of the host and rounds of the life loop, in any order. *)
Inductive live_step : LifeState * BridgeState -> LifeState * BridgeState -> Prop :=
| BrPush i buf s b b' n :
    liminal_push i (Some buf) (Some b) = (Some b', n) ->
    (forall m, from_slice buf = Ok m -> push_room m (br_field b)) -> log_room b b' -> live_step (s, b) (s, b')
| BrPull cap s b b' answer : liminal_pull cap (Some b) = (Some b', answer) -> live_step (s, b) (s, b')
| BrRound i s b s' b' :
    life_room (br_field b) -> round_visible i s (attached (br_field b)) -> bridge_round i s b = Some (s', b') ->
    log_room b b' -> live_step (s, b) (s', b').

Definition snapshot_result (o : HashOrder) (elapsed : Z) (b : BridgeState) : option (result SnapshotInfo StoreError) :=
  match br_journal b, br_snapshot_cfg b with
  | Some j, Some cfg => snd (snapshot_round cfg elapsed o (mkDb (br_field b) j))
  | _, _ => None
  end.

(** The files of a bridge, once its process is gone. *)
Definition files_of (b : BridgeState) : option Root := (fun j => Store_close (dj_store j)) <$> br_journal b.
(** [buf] configures a bridge over [files]. *)
Definition configures (root : string -> Root) (buf : bytes) (files : Root) : Prop :=
  buf <> [] /\ exists config path, from_slice buf = Ok config /\ bc_tick_ms config <> 0%Z /\
    bc_store_path config = Some path /\ root path = files.

Inductive bridge_step : LifeState * BridgeState -> LifeState * BridgeState -> Prop :=
| BrLive p q : live_step p q -> bridge_step p q
| BrSnapshot o elapsed s b :
    (forall r, snapshot_result o elapsed b = Some r -> is_ok r = true) -> bridge_step (s, b) (s, bridge_snapshot o elapsed b)
| BrRestart os root peer now buf s b files b' :
    files_of b = Some files -> size (cells (graph (br_field b))) <> 0 -> configures root buf files ->
    liminal_init os root peer now (Some buf) None = (Some b', true) ->
    bridge_step (s, b) (LifeState_new (br_tick_ms b') 1, b').

Definition holds (P : Db -> Prop) (b : BridgeState) : Prop :=
  exists j, br_journal b = Some j /\ P (mkDb (br_field b) j).

Lemma quiet_holds P b b' : quiet b b' -> holds P b -> holds P b'.
Proof. intros [Ef Ej] (j & Hj & Hp). exists j. rewrite Ef, Ej. done. Qed.

Lemma tells_holds (P : Db -> Prop) b b' :
  (forall f' db, P db -> told (db_field db) f' -> fits (emitted f') (db_journal db) -> P (db_tell f' db)) ->
  tells b b' -> log_room b b' -> holds P b -> holds P b'.
Proof.
  intros Hstep Ht Hl (j & Hj & Hp). destruct (Ht j Hj) as [Hto Hj']. eexists. split; [exact Hj' |].
  exact (Hstep (br_field b') (mkDb (br_field b) j) Hp Hto (Hl j Hj)).
Qed.

Lemma push_effect i buf b b' n :
  liminal_push i (Some buf) (Some b) = (Some b', n) ->
  b' = b \/ exists m, from_slice buf = Ok m /\ b' = handle_message i m b.
Proof.
  unfold liminal_push. destruct buf as [|x buf]; [intros [= <- _]; by left |].
  destruct (from_slice (x :: buf)) as [m|e]; intros [= <- _]; [right; by exists m | by left].
Qed.

Lemma pull_quiet cap b b' answer : liminal_pull cap (Some b) = (Some b', answer) -> quiet b b'.
Proof.
  unfold liminal_pull. destruct (cap =? 0)%Z; [by intros [= <- _] |]. destruct (outbox_take _) as [out [package|]]; [| by intros [= <- _]].
  destruct (to_vec package) as [encoded|e]; [destruct (cap <? blen encoded)%Z |]; by intros [= <- _].
Qed.

Lemma round_tells i s b s' b' :
  field_wf (br_field b) -> life_room (br_field b) -> round_visible i s (attached (br_field b)) ->
  bridge_round i s b = Some (s', b') -> tells b b'.
Proof.
  intros Hw Hr Hv He j Hj. unfold bridge_round in He. rewrite Hj in He.
  destruct (life_round i s (attached (br_field b))) as [[[s1 f] out]|] eqn:E; [| done]. injection He as <- <-.
  set (b1 := set_field f _ b). destruct (quiet_fold life_output out life_output_quiet b1) as [-> ->].
  split; [by eapply told_round | done].
Qed.

Lemma live_holds (P : Db -> Prop) p q :
  (forall db, P db -> field_wf (db_field db)) ->
  (forall f' db, P db -> told (db_field db) f' -> fits (emitted f') (db_journal db) -> P (db_tell f' db)) ->
  live_step p q -> holds P p.2 -> holds P q.2.
Proof.
  intros Hwf Hstep [i buf s b b' n Hp Hr Hl | cap s b b' answer Hp | i s b s' b' Hr Hv He Hl] Hh; cbn [snd] in *.
  - assert (field_wf (br_field b)) as Hw by (destruct Hh as (j & _ & Hdb); exact (Hwf _ Hdb)).
    destruct (push_effect _ _ _ _ _ Hp) as [-> | (m & Hm & ->)]; [done |].
    destruct (message_tells i m b Hw (Hr m Hm)); [by eapply tells_holds | by eapply quiet_holds].
  - eapply quiet_holds; [by eapply pull_quiet | done].
  - assert (field_wf (br_field b)) as Hw by (destruct Hh as (j & _ & Hdb); exact (Hwf _ Hdb)).
    eapply tells_holds; [done | by eapply round_tells | done | done].
Qed.

Lemma live_run_storing p q : rtc live_step p q -> holds storing p.2 -> holds storing q.2.
Proof.
  intros Hrun. induction Hrun as [p | p q r Hs _ IH]; [done |]. intros Hh. apply IH.
  eapply (live_holds storing); [by intros db [? _] | intros; by apply storing_told | done | done].
Qed.

(** ** Snapshots and restarts *)
Lemma snapshot_writes o elapsed b info :
  holds storing b -> snapshot_result o elapsed b = Some (Ok info) -> holds saved (bridge_snapshot o elapsed b).
Proof.
  intros (j & Hj & Hst). unfold snapshot_result, bridge_snapshot. rewrite Hj.
  destruct (br_snapshot_cfg b) as [cfg|]; [| done]. unfold snapshot_round. destruct (snapshot_due _ _ _); [| done].
  destruct (snapshot_once o (mkDb (br_field b) j)) as [db r] eqn:E. cbn [snd]. intros [= ->].
  destruct (snapshot_saves o _ db info Hst E) as [Hs Hf]. exists (db_journal db). split; [done |]. by destruct db.
Qed.

Lemma snapshot_saved o elapsed b :
  (forall r, snapshot_result o elapsed b = Some r -> is_ok r = true) -> holds saved b -> holds saved (bridge_snapshot o elapsed b).
Proof.
  intros Hok Hs. destruct (snapshot_result o elapsed b) as [[info|e]|] eqn:E.
  - eapply snapshot_writes; [| exact E]. destruct Hs as (j & Hj & Hdb). exists j. split; [done | apply Hdb].
  - by specialize (Hok _ eq_refl).
  - destruct Hs as (j & Hj & Hdb). unfold snapshot_result in E. unfold bridge_snapshot. rewrite Hj in *.
    destruct (br_snapshot_cfg b) as [cfg|]; [| by exists j]. unfold snapshot_round in *.
    destruct (snapshot_due _ _ _); [by destruct (snapshot_once _ _) |]. by exists j.
Qed.

(** What [liminal_init] makes of a configuration and the files it names. *)
Lemma init_started os root peer now buf files db :
  configures root buf files -> open_database os files = Ok db ->
  exists b, liminal_init os root peer now (Some buf) None = (Some b, true) /\
    br_field b = db_field db /\ br_journal b = Some (db_journal db).
Proof.
  intros (Hne & config & path & Hc & Ht & Hp & <-) Ho. unfold liminal_init. destruct buf as [|x buf]; [done |]. rewrite Hc.
  unfold BridgeState_new. rewrite (proj2 (Z.eqb_neq _ _) Ht), Hp, Ho. cbn [map_err rbind]. by eexists.
Qed.

Lemma step_bridge p q : bridge_step p q -> holds saved p.2 -> holds saved q.2.
Proof.
  intros [p' q' Hl | o elapsed s b Hok | os root peer now buf s b files b' Hf Hne Hc Hi] Hh; cbn [snd] in *.
  - eapply (live_holds saved); [by intros db [[? _] _] | intros; by apply saved_told | done | done].
  - by apply snapshot_saved.
  - destruct Hh as (j & Hj & Hs). unfold files_of in Hf. rewrite Hj in Hf. injection Hf as <-. apply Nat.eqb_neq in Hne.
    destruct (restart_saved os _ Hs Hne) as (db' & Ho & Hs' & _). destruct (init_started os root peer now buf _ db' Hc Ho) as (b1 & E & Ef & Ej).
    rewrite Hi in E. injection E as <-.
    exists (db_journal db'). split; [done |]. rewrite Ef. by destruct db'.
Qed.

Lemma bridge_run_saved p q : rtc bridge_step p q -> holds saved p.2 -> holds saved q.2.
Proof. intros Hrun. induction Hrun as [p | p q r Hs _ IH]; [done |]. intros Hh. by eapply IH, step_bridge. Qed.

(** C30: A bridge is recovered. A bridge that was started on an empty directory, driven by any pushes,
    pulls and rounds of the life loop, and saved by a first snapshot, then driven by any of these, further
    snapshots and restarts: when its process ends, a new [liminal_init] over its files succeeds and gives
    a well-formed field with the durable part of the one that was lost. Four things are required. No
    cell has a NaN energy after the tick of a round, when the loop may trim ([round_visible]; the trim of
    such a cell is not journalled). The field has a cell whenever the files are opened again, at the restarts of the run and at the end (an empty one is
    given a new root). The snapshots of the run succeed. Identifiers, clock and log have room for each
    step ([push_room], [life_room], [log_room]). *)
Theorem bridge_recovers os root peer now buf b00 s0 b0 o elapsed info s b os' root' peer' now' buf' files :
  configures root buf (mkRoot ∅ ∅ None false) -> liminal_init os root peer now (Some buf) None = (Some b00, true) ->
  rtc live_step (LifeState_new (br_tick_ms b00) 1, b00) (s0, b0) ->
  snapshot_result o elapsed b0 = Some (Ok info) ->
  rtc bridge_step (s0, bridge_snapshot o elapsed b0) (s, b) ->
  size (cells (graph (br_field b))) <> 0 -> files_of b = Some files -> configures root' buf' files ->
  exists b', liminal_init os' root' peer' now' (Some buf') None = (Some b', true) /\
    durably (br_field b) (br_field b') /\ field_wf (br_field b').
Proof.
  intros Hc Hi Hlive Hsn Hrun Hne Hf Hc'.
  assert (holds storing b00) as K00.
  { destruct (fresh_storing os) as (db & Ho & Hst). destruct (init_started os root peer now buf _ db Hc Ho) as (b1 & E & Ef & Ej).
    rewrite Hi in E. injection E as <-. exists (db_journal db).
    split; [done |]. rewrite Ef. by destruct db. }
  pose proof (live_run_storing _ _ Hlive K00) as K0. pose proof (snapshot_writes o elapsed b0 info K0 Hsn) as K1.
  assert (holds saved b) as (j & Hj & Hs).
  { exact (bridge_run_saved _ _ Hrun K1). }
  unfold files_of in Hf. rewrite Hj in Hf. injection Hf as <-. apply Nat.eqb_neq in Hne.
  destruct (restart_saved os' _ Hs Hne) as (db' & Ho & [[Hw _] _] & Hdu).
  destruct (init_started os' root' peer' now' buf' _ db' Hc' Ho) as (b' & Hi' & Ef & _). exists b'. by rewrite Ef.
Qed.
End recover.

(** ** What the host is told *)
Section delivery.
Context `{UnicodeCase, SeedRng, FloatMath, LifeEnv, JsonText, BridgeEnv, Lql.QueryJson, Crc32}.
Context `{Cbor EventDelta, Cbor StoreManifest, Cbor SnapshotEnvelope, Cbor ProtocolPush, Cbor ProtocolPackage}.

Definition more (es : list ProtocolEvent) (m : option ProtocolMetrics) (o : Outbox) : Outbox :=
  mkOutbox (ob_events o ++ es) (match m with Some _ => m | None => ob_metrics o end).

Lemma more_more es es' m m' o :
  more es' m' (more es m o) = more (es ++ es') (match m' with Some _ => m' | None => m end) o.
Proof. unfold more. cbn. rewrite <- app_assoc. by destruct m'. Qed.

(** A step that only appends to the outbox, and does not look at it. *)
Definition framed (h : BridgeState -> BridgeState) : Prop :=
  forall b, exists es m, forall o, h (set_outbox o b) = set_outbox (more es m o) (h b).

Lemma framed_id : framed (fun b => b).
Proof. intros b. exists [], None. intros [es m]. unfold more. cbn. by rewrite app_nil_r. Qed.

Lemma framed_comp g h : framed g -> framed h -> framed (fun b => h (g b)).
Proof.
  intros Hg Hh b. destruct (Hg b) as (es & m & Eg). destruct (Hh (g b)) as (es' & m' & Eh).
  exists (es ++ es'), (match m' with Some _ => m' | None => m end). intros o.
  by rewrite Eg, Eh, more_more.
Qed.

Lemma framed_push event : framed (fun b => set_outbox (push_some event (br_outbox b)) b).
Proof.
  intros b. exists (option_list event), None. intros [es m]. destruct event; [done |].
  unfold more. cbn. by rewrite app_nil_r.
Qed.

Lemma framed_fold {A} (step : BridgeState -> A -> BridgeState) l :
  (forall a, framed (fun b => step b a)) -> framed (fun b => fold_left step l b).
Proof.
  intros Hs. induction l as [|a l IH]; [apply framed_id |]. cbn [fold_left]. by apply (framed_comp (fun b => step b a)).
Qed.
Lemma framed_log dt e : framed (push_log dt e).
Proof. apply framed_push. Qed.
Lemma framed_logs dt es : framed (push_logs dt es).
Proof. apply framed_fold. intros e. apply framed_log. Qed.
Lemma framed_json_events es : framed (push_json_events es).
Proof. apply framed_fold. intros e. apply framed_log. Qed.

(** A step of the field, and what follows it. *)
Lemma framed_on_field {A} (step : ClusterField -> ClusterField * A) (after : BridgeState -> A -> BridgeState) :
  (forall a, framed (fun b => after b a)) -> framed (fun b => let '(b, a) := on_field step b in after b a).
Proof.
  intros Ha b. destruct (on_field step b) as [b1 a] eqn:E. destruct (Ha a b1) as (es & m & Em). exists es, m. intros o.
  assert (on_field step (set_outbox o b) = (set_outbox o b1, a)) as ->; [| apply Em].
  revert E. unfold on_field. cbn [br_journal br_field set_outbox].
  destruct (br_journal b) as [j|]; [destruct (step (attached (br_field b))) as [f a'] | destruct (step (br_field b)) as [f a']];
    by intros [= <- <-].
Qed.

(** A step that neither reads nor writes the outbox, and what follows it. *)
Lemma framed_after {A} (step : BridgeState -> BridgeState * A) (after : BridgeState -> A -> BridgeState) :
  (forall o b, step (set_outbox o b) = (set_outbox o (step b).1, (step b).2)) ->
  (forall a, framed (fun b => after b a)) -> framed (fun b => let '(b, a) := step b in after b a).
Proof.
  intros Hs Ha b. destruct (step b) as [b1 a] eqn:E. destruct (Ha a b1) as (es & m & Em). exists es, m. intros o.
  rewrite Hs, E. apply Em.
Qed.

Lemma framed_impulse i impulse : framed (push_impulse i impulse).
Proof.
  unfold push_impulse. apply framed_on_field. intros logs. induction logs as [|log logs IH] using rev_ind; [apply framed_id |].
  intros b. destruct (framed_comp _ _ IH (framed_push (event_from_impulse_log log)) b) as (es & m & E).
  exists es, m. intros o. specialize (E o). cbn [set_outbox br_outbox] in E. by rewrite !fold_left_app.
Qed.

Lemma framed_lql o query : framed (push_lql o query).
Proof.
  unfold push_lql. destruct (Lql.parse_lql query) as [ast|e]; [| apply framed_logs].
  intros b. destruct (framed_on_field (exec_lql o ast)
    (fun b outcome => push_logs COMMAND_DT match outcome with Ok r => FieldLql.events r | Err e => [lql_error_event e query] end b)
    (fun _ => framed_logs _ _) b) as (es & m & E).
  exists es, m. intros o'. specialize (E o'). by destruct (on_field _ (set_outbox o' b)), (on_field _ b).
Qed.

Lemma framed_propose i obj data : framed (push_propose i obj data).
Proof.
  unfold push_propose. apply (framed_after (handle_noetic_propose i obj data)
    (fun b es => match es with
                 | Ok es => push_json_events es b
                 | Err e => push_json_event (json_event "noetic" [("phase", JStr "error"); ("reason", JStr e)]) b
                 end)).
  - intros o b. unfold handle_noetic_propose. cbn [set_outbox br_noetic]. by destruct (runtime_propose _ _ _ _ _).
  - intros [es|e]; [apply framed_json_events | apply framed_log].
Qed.

Lemma framed_command i c : framed (run_command i c).
Proof.
  destruct c; cbn [run_command]; try (apply framed_on_field; intros a; apply framed_log).
  - apply framed_lql.
  - unfold push_dream_now. apply framed_on_field. intros a. apply framed_logs.
  - unfold push_sync_now. apply framed_on_field. intros a. apply framed_logs.
  - apply (framed_after (handle_peer_add (pn_now i 0) peer) (fun b es => push_json_events es b)); [done |].
    intros es. apply framed_json_events.
  - intros b. destruct (framed_json_events (handle_peer_list (pn_order i) b) b) as (es & m & E). exists es, m. exact E.
  - apply framed_propose.
  - apply (framed_after (handle_noetic_quorum q) (fun b es => push_json_events es b)); [| intros es; apply framed_json_events].
    intros o b. unfold handle_noetic_quorum. by destruct (runtime_set_quorum _ _).
Qed.

Lemma framed_message i m : framed (handle_message i m).
Proof. destruct m; [apply framed_impulse | apply framed_command]. Qed.

Lemma framed_output out : framed (fun b => life_output b out).
Proof.
  destruct out as [e | hint | metrics]; cbn [life_output].
  - intros b. exact (framed_log (br_tick_ms b) e b).
  - intros b. by exists [event_from_hint hint (Protocol.adjust_tick (br_tick_ms b) hint)], None.
  - intros b. by exists [event_from_metrics (from_core metrics) 1000], (Some (from_core metrics)).
Qed.

(** What happens to a bridge beside the pulls of its host. *)
Inductive happening : Type :=
| HPush (i : PushInput) (buf : bytes)
| HRound (i : LifeInput)
| HSnapshot (o : HashOrder) (elapsed : Z).

(** A round that panics ends the task of the loop, and changes nothing. *)
Definition happen (h : happening) (p : LifeState * BridgeState) : LifeState * BridgeState :=
  let '(s, b) := p in
  match h with
  | HPush i buf => (s, default b (fst (liminal_push i (Some buf) (Some b))))
  | HRound i => default (s, b) (bridge_round i s b)
  | HSnapshot o elapsed => (s, bridge_snapshot o elapsed b)
  end.

Lemma happen_framed h s b : exists es m, forall o,
  happen h (s, set_outbox o b) = ((happen h (s, b)).1, set_outbox (more es m o) (happen h (s, b)).2).
Proof.
  destruct (framed_id b) as (es0 & m0 & E0). destruct h as [i buf | i | o elapsed]; cbn [happen fst snd].
  - unfold liminal_push. destruct buf as [|x buf]; [exists es0, m0; intros o; by rewrite <- E0 |].
    destruct (from_slice (x :: buf)) as [m|]; [| exists es0, m0; intros o; by rewrite <- E0].
    destruct (framed_message i m b) as (es & ms & E). exists es, ms. intros o. cbn. by rewrite E.
  - unfold bridge_round. cbn [set_outbox br_journal br_field].
    destruct (life_round i s _) as [[[s' f] out]|]; [| exists es0, m0; intros o; cbn; by rewrite <- E0].
    destruct (framed_fold life_output out framed_output (set_field f (append_deltas (emitted f) <$> br_journal b) b)) as (es & m & E).
    exists es, m. intros o. cbn. f_equal. apply E.
  - unfold bridge_snapshot. cbn [set_outbox br_journal br_field br_snapshot_cfg].
    destruct (br_journal b) as [j|]; [| exists es0, m0; intros o'; by rewrite <- E0].
    destruct (br_snapshot_cfg b) as [cfg|]; [| exists es0, m0; intros o'; by rewrite <- E0].
    destruct (snapshot_round cfg elapsed o _) as [db [[info|]|]];
      [by exists [event_from_snapshot (si_id info)], None | exists [], None.. ];
      intros [es m]; unfold more; cbn; by rewrite app_nil_r.
Qed.

(** The events of a happening: what it leaves in an empty outbox. *)
Definition says (h : happening) (s : LifeState) (b : BridgeState) : list ProtocolEvent :=
  ob_events (br_outbox (happen h (s, set_outbox Outbox_default b)).2).

Lemma happen_says h s b :
  ob_events (br_outbox (happen h (s, b)).2) = ob_events (br_outbox b) ++ says h s b.
Proof.
  unfold says. destruct (happen_framed h s b) as (es & m & E). rewrite E.
  pose proof (E (br_outbox b)) as Eb. assert (set_outbox (br_outbox b) b = b) as Hid by by destruct b.
  rewrite Hid in Eb. by rewrite Eb.
Qed.

Lemma pull_exact cap b : exists b1 answer,
  liminal_pull cap (Some b) = (Some b1, answer) /\
  match answer with
  | None => b1 = b
  | Some a => exists package, to_vec package = Ok a /\ pk_events package = ob_events (br_outbox b) /\
      (blen a <= cap)%Z /\ b1 = set_outbox Outbox_default b
  end.
Proof.
  unfold liminal_pull. destruct (cap =? 0)%Z; [by exists b, None |].
  destruct b as [f [es ms] j cfg ns g n t]. cbn [br_outbox].
  assert (forall package, outbox_take (mkOutbox es ms) = (Outbox_default, Some package) ->
    restore package Outbox_default = mkOutbox es ms /\ pk_events package = es) as Hr.
  { unfold outbox_take. cbn. intros package E.
    assert (package = mkPackage es ms) as -> by (destruct es, ms; by injection E). split; [| done].
    unfold restore. cbn [pk_events pk_metrics].
    assert (forall l o, fold_left (fun o event => push_front event o) l o = mkOutbox (reverse l ++ ob_events o) (ob_metrics o)) as ->.
    { induction l as [|x l IH]; intros [e m]; [done |]. cbn [fold_left]. by rewrite IH, reverse_cons, <- app_assoc. }
    cbn. by rewrite reverse_involutive, app_nil_r. }
  destruct (outbox_take (mkOutbox es ms)) as [out [package|]] eqn:E; [| by eexists _, None].
  assert (out = Outbox_default) as -> by (unfold outbox_take in E; cbn in E; destruct es, ms; by injection E).
  destruct (Hr package eq_refl) as [-> Hp]. destruct (to_vec package) as [a|] eqn:Ea; [| by eexists _, None].
  destruct (Z.ltb_spec cap (blen a)); [by eexists _, None |]. eexists _, (Some a). split; [done |]. by exists package.
Qed.

Inductive host_call : Type :=
| Happens (h : happening)
| Pulls (cap : Z).

(** A run: what it ends in, the answers of the pulls with the room they were given, and the events of
    all that happened. *)
Fixpoint play (cs : list host_call) (s : LifeState) (b : BridgeState) : BridgeState * list (Z * bytes) * list ProtocolEvent :=
  match cs with
  | [] => (b, [], [])
  | Happens h :: cs =>
      let '(s1, b1) := happen h (s, b) in
      let '(b', answers, said) := play cs s1 b1 in (b', answers, says h s b ++ said)
  | Pulls cap :: cs =>
      let '(b1, answer) := liminal_pull cap (Some b) in
      let '(b', answers, said) := play cs s (default b b1) in
      (b', option_list (pair cap <$> answer) ++ answers, said)
  end.

(** C31: Events are delivered once and in order. In any run of pushes of arbitrary bytes, rounds of the life
    loop, rounds of the snapshot loop and pulls, what a step tells does not depend on the outbox, and the
    events of the packages pulled, followed by those that wait, are the events of all steps in order: none is
    lost, doubled or moved, although a pull whose buffer is too small or whose package does not
    serialize puts the package back. An answer fits the buffer of its pull, and a pull with room for what
    waits gets all of it. *)
Theorem bridge_delivers cs s b b' answers said :
  play cs s b = (b', answers, said) ->
  (exists packages, Forall2 (fun p a => to_vec p = Ok a.2 /\ (blen a.2 <= a.1)%Z) packages answers /\
     concat (pk_events <$> packages) ++ ob_events (br_outbox b') = ob_events (br_outbox b) ++ said) /\
  forall cap package a, outbox_take (br_outbox b') = (Outbox_default, Some package) -> to_vec package = Ok a ->
    (0 < cap)%Z -> (blen a <= cap)%Z ->
    liminal_pull cap (Some b') = (Some (set_outbox Outbox_default b'), Some a).
Proof.
  intros Hp. split.
  - revert s b b' answers said Hp. induction cs as [|[h | cap] cs IH]; intros s b b' answers said; cbn [play].
    + intros [= <- <- <-]. exists []. by rewrite app_nil_r.
    + pose proof (happen_says h s b) as Hs. destruct (happen h (s, b)) as [s1 b1].
      destruct (play cs s1 b1) as [[b2 answers2] said2] eqn:E. intros [= <- <- <-].
      destruct (IH _ _ _ _ _ E) as (ps & Hf & He). exists ps. split; [done |]. rewrite He. cbn in Hs. by rewrite Hs, app_assoc.
    + destruct (pull_exact cap b) as (b1 & answer & -> & Ha). change (default b (Some b1)) with b1.
      destruct (play cs s b1) as [[b2 answers2] said2] eqn:E. intros [= <- <- <-].
      destruct (IH _ _ _ _ _ E) as (ps & Hf & He). destruct answer as [a|]; [| subst b1; by exists ps].
      destruct Ha as (package & Ev & Ep & Hl & ->). exists (package :: ps). split; [by constructor |].
      cbn in He |- *. by rewrite Ep, <- app_assoc, He.
  - intros cap package a Ht Ev Hc Hl. unfold liminal_pull. rewrite (proj2 (Z.eqb_neq cap 0)) by lia. rewrite Ht, Ev.
    by rewrite (proj2 (Z.ltb_ge _ _) Hl).
Qed.
End delivery.

(** ** A bridge on a disk *)
Section demo.
#[local] Existing Instances demo_case demo_rng demo_math demo_env demo_crc ieee_ok cbor_delta cbor_delta_ok cbor_delta_total
  cbor_store_manifest cbor_store_manifest_ok cbor_envelope cbor_envelope_ok tree_text ascii_case_stable.
#[local] Instance demo_bridge : BridgeEnv :=
  {| bridge_blake3 b := take 4 (b ++ [Byte.x01; Byte.x02; Byte.x03; Byte.x04]); uuid_text p := of_bytes (Consensus.uuid_bytes p);
     model_from_value _ := Err "missing field"; model_to_vec _ := [] |}.
#[local] Instance demo_query : Lql.QueryJson :=
  {| Lql.json_strings _ := None; Lql.json_f32s _ := None; Lql.json_goals _ := None; Lql.json_reflex_cfg _ := Err "no JSON" |}.

(** The messages of this host, by their first byte. *)
Definition demo_message (b : bytes) : result ProtocolPush string :=
  match b with
  | Byte.x01 :: _ => Ok (PushImpulse (mkProtocolImpulse 0 "liminal/root" (lit 9 10) 1000 []))
  | Byte.x02 :: _ => Ok (PushCommand (CDreamSet (mkDreamConfig 7 10000 f1 f0 (lit 9 10) true 8)))
  | Byte.x03 :: _ => Ok (PushCommand (CNoeticPropose NSeed (json_obj [("id", JU64 3)])))
  | Byte.x04 :: _ => Ok (PushCommand (CLql "SELECT root"))
  | _ => Err "unknown message"
  end.
#[local] Instance demo_push : Cbor ProtocolPush := {| to_vec _ := Err "not sent"; from_slice := demo_message |}.
#[local] Instance demo_package : Cbor ProtocolPackage :=
  {| to_vec p := Ok (replicate (length (pk_events p)) Byte.x2a); from_slice _ := Err "not read" |}.
#[local] Instance demo_config : Cbor BridgeConfig :=
  {| to_vec _ := Err "not sent"; from_slice _ := Ok (mkBridgeConfig 200 (Some "db") (Some 5%Z) (Some 100%Z) None None) |}.

Definition demo_pushed : PushInput := mkPushInput rev_order 3 (fun n => (1000 + Z.of_nat n)%Z) (Consensus.mkProposalId [Byte.x01]).
Definition demo_buf : bytes := [Byte.x00].
Definition start (files : Root) : option BridgeState :=
  fst (liminal_init orders (fun _ => files) [Byte.x09] 500 (Some demo_buf) None).

Definition play_call (p : LifeState * BridgeState) (c : host_call) : LifeState * BridgeState :=
  match c with
  | Happens h => happen h p
  | Pulls cap => (p.1, default p.2 (fst (liminal_pull cap (Some p.2))))
  end.

(** Whether a call is a step of a run. *)
Definition fits_after (b b' : BridgeState) : bool :=
  match br_journal b with Some j => fits_b (emitted (br_field b')) j | None => true end.
Definition call_ok (p : LifeState * BridgeState) (c : host_call) : Prop :=
  let '(s, b) := p in
  match c with
  | Happens (HPush i buf) =>
      match from_slice buf with Ok m => push_room m (br_field b) | Err _ => True end /\
      fits_after b (play_call p c).2 = true
  | Happens (HRound i) =>
      life_room (br_field b) /\ round_visible i s (attached (br_field b)) /\ fits_after b (play_call p c).2 = true
  | Happens (HSnapshot _ _) => False
  | Pulls _ => True
  end.
Fixpoint calls_ok (cs : list host_call) (p : LifeState * BridgeState) : Prop :=
  match cs with
  | [] => True
  | c :: cs => call_ok p c /\ calls_ok cs (play_call p c)
  end.

Lemma fits_after_room b b' : fits_after b b' = true -> log_room b b'.
Proof. unfold fits_after, log_room. intros E j Hj. rewrite Hj in E. by apply fits_spec. Qed.

Lemma calls_run cs : forall p, calls_ok cs p -> rtc live_step p (fold_left play_call cs p).
Proof.
  induction cs as [|c cs IH]; intros p Hok; [done |]. destruct Hok as [Hc Hok]. cbn [fold_left].
  specialize (IH _ Hok). destruct p as [s b]. destruct c as [[i buf | i |] | cap]; cbn [call_ok play_call happen snd fst] in *.
  - destruct Hc as [Hr Hf]. apply fits_after_room in Hf.
    destruct (liminal_push i (Some buf) (Some b)) as [[b'|] n] eqn:E; cbn [fst from_option id] in *; [| done].
    eapply rtc_l; [| exact IH]. eapply BrPush; [exact E | | exact Hf]. intros m Hm. by rewrite Hm in Hr.
  - destruct Hc as (Hr & Hv & Hf). apply fits_after_room in Hf.
    destruct (bridge_round i s b) as [[s' b']|] eqn:E; cbn [from_option id snd] in *; [| done].
    eapply rtc_l; [| exact IH]. by eapply BrRound.
  - done.
  - destruct (liminal_pull cap (Some b)) as [[b'|] a] eqn:E; cbn [fst from_option id] in *; [| done].
    eapply rtc_l; [by eapply BrPull | exact IH].
Qed.

(** Before the first snapshot, and after it; the second part starts in a new process. *)
Definition demo_calls : list host_call :=
  [Happens (HPush demo_pushed [Byte.x01]); Happens (HRound loud_input); Pulls 1; Happens (HPush demo_pushed [Byte.x02])].
Definition late_calls : list host_call :=
  [Happens (HRound loud_input); Happens (HPush demo_pushed [Byte.x01]); Pulls 400; Happens (HPush demo_pushed [Byte.x03]);
   Happens (HPush demo_pushed [Byte.x04])].

Definition blank : BridgeState :=
  mkBridge ClusterField_new Outbox_default None None "" (Peers.GossipManager_new []) (NoeticRuntime_new (Crdt.mkPeerId [])) 0.
Definition fst_bridge : BridgeState := Eval vm_compute in default blank (start empty_root).
Definition at_calls : LifeState * BridgeState :=
  Eval vm_compute in fold_left play_call demo_calls (LifeState_new 200 1, fst_bridge).
Definition at_snapshot : BridgeState := Eval vm_compute in bridge_snapshot rev_order 5 at_calls.2.
Definition files (b : BridgeState) : Root := default empty_root (files_of b).
Definition at_restart : BridgeState := Eval vm_compute in default blank (start (files at_snapshot)).
Definition at_end : LifeState * BridgeState :=
  Eval vm_compute in fold_left play_call late_calls (LifeState_new 200 1, at_restart).

Lemma demo_configures root : configures (fun _ => root) demo_buf root.
Proof. split; [done |]. by exists (mkBridgeConfig 200 (Some "db") (Some 5%Z) (Some 100%Z) None None), "db". Qed.

Lemma at_calls_run : rtc live_step (LifeState_new 200 1, fst_bridge) at_calls.
Proof.
  assert (fold_left play_call demo_calls (LifeState_new 200 1, fst_bridge) = at_calls) as <- by (vm_compute; reflexivity).
  apply calls_run. vm_compute. repeat split; (reflexivity || discriminate).
Qed.

Lemma at_end_run : rtc bridge_step (at_calls.1, bridge_snapshot rev_order 5 at_calls.2) at_end.
Proof.
  assert (bridge_snapshot rev_order 5 at_calls.2 = at_snapshot) as -> by (vm_compute; reflexivity).
  apply (rtc_l _ _ (LifeState_new (br_tick_ms at_restart) 1, at_restart)).
  - apply (BrRestart orders (fun _ => files at_snapshot) [Byte.x09] 500 demo_buf _ _ (files at_snapshot));
      [by vm_compute | by vm_compute | apply demo_configures | vm_compute; reflexivity].
  - assert (fold_left play_call late_calls (LifeState_new 200 1, at_restart) = at_end) as <- by (vm_compute; reflexivity).
    change (LifeState_new (br_tick_ms at_restart) 1) with (LifeState_new 200 1).
    apply (rtc_congruence (fun p => p) (R := live_step)); [exact BrLive |]. apply calls_run.
    vm_compute. repeat split; (reflexivity || discriminate).
Qed.

Lemma bridge_recovers_witness :
  min_idle_s (dream_cfg (cycles (br_field at_end.2))) = 7%Z /\
  (map_to_list (cells (graph (br_field at_end.2)))).*1 = [1%Z] /\
  exists b', liminal_init orders (fun _ => files at_end.2) [] 900 (Some demo_buf) None = (Some b', true) /\
    durably (br_field at_end.2) (br_field b') /\ field_wf (br_field b').
Proof.
  split_and!; [by vm_compute | by vm_compute |].
  apply (bridge_recovers orders (fun _ => empty_root) [Byte.x09] 500 demo_buf fst_bridge at_calls.1 at_calls.2 rev_order 5
    (mkSnapshotInfo 1 "00000001.snap" (mkOffset 1 461) 868) at_end.1 at_end.2 orders (fun _ => files at_end.2) [] 900 demo_buf
    (files at_end.2)).
  - apply demo_configures.
  - vm_compute. reflexivity.
  - exact at_calls_run.
  - vm_compute. reflexivity.
  - exact at_end_run.
  - by vm_compute.
  - vm_compute. reflexivity.
  - apply demo_configures.
Defined.

(** Two pulls: the first buffer is too small. *)
Definition heard : list host_call :=
  [Happens (HPush demo_pushed [Byte.x03]); Pulls 1; Happens (HPush demo_pushed [Byte.x04]); Pulls 400; Pulls 400].
Lemma bridge_delivers_witness :
  let '(b', answers, said) := play heard (LifeState_new 200 1) at_end.2 in
  length answers = 1 /\ ob_events (br_outbox b') = [] /\
  exists packages, Forall2 (fun p a => to_vec p = Ok a.2 /\ (blen a.2 <= a.1)%Z) packages answers /\
    concat (pk_events <$> packages) ++ ob_events (br_outbox b') = ob_events (br_outbox at_end.2) ++ said.
Proof.
  assert (let '(b', answers, _) := play heard (LifeState_new 200 1) at_end.2 in
    length answers = 1 /\ ob_events (br_outbox b') = []) as Hc by (vm_compute; split; reflexivity).
  destruct (play heard (LifeState_new 200 1) at_end.2) as [[b' answers] said] eqn:E.
  split_and!; [apply Hc | apply Hc |]. exact (proj1 (bridge_delivers heard (LifeState_new 200 1) at_end.2 b' answers said E)).
Defined.
End demo.
