(* ===== verification/BridgeNoetic.v ===== *)
(** * Proposals through the bridge

    A host proposes a model, a seed or a policy. The bridge votes for it at once, with the credence of
    its own peer, which is one; the quorum it lets a host set never exceeds one. So every proposal that
    parses is committed in the same call, and the state holds it. *)

From stdpp Require Import prelude gmap strings fin_maps list.
From Stdlib Require Import ZArith Lia SpecFloat.
From S2P Require Import Prelude RustStr RustOrd Float RustText Crypto Json NodeCell CrdtProps FieldCodec Protocol Bridge.
From S2P Require Crdt Noetic Consensus.

Section noetic.
Context `{BridgeEnv, JsonText}.

(** ** Clocks *)
Definition earlier (a b : Crdt.Hlc) : Prop :=
  (Crdt.phys_ms a < Crdt.phys_ms b)%Z \/ (Crdt.phys_ms a = Crdt.phys_ms b /\ (Crdt.log a < Crdt.log b)%Z).
Definition no_later (a b : Crdt.Hlc) : Prop :=
  (Crdt.phys_ms a < Crdt.phys_ms b)%Z \/ (Crdt.phys_ms a = Crdt.phys_ms b /\ (Crdt.log a <= Crdt.log b)%Z).
Definition counted (n : Z) (c : Crdt.Hlc) : Prop := (0 <= Crdt.log c <= n)%Z.

Lemma earlier_no_later a b : earlier a b -> no_later a b.
Proof. unfold earlier, no_later. lia. Qed.
Lemma no_later_trans a b c : no_later a b -> no_later b c -> no_later a c.
Proof. unfold no_later. lia. Qed.
Lemma earlier_after a b c : no_later a b -> earlier b c -> earlier a c.
Proof. unfold earlier, no_later. lia. Qed.

Lemma tick_later n c now :
  counted n c -> (n + 1 < u32_size)%Z -> earlier c (Crdt.Hlc_tick c now) /\ counted (n + 1) (Crdt.Hlc_tick c now).
Proof.
  unfold counted, earlier, Crdt.Hlc_tick, u32_saturating_add, u32_max, u32_size. intros Hc Hn.
  destruct (Z.ltb_spec (Crdt.phys_ms c) now); cbn; lia.
Qed.

Lemma merged_later n a b peer now :
  counted n a -> counted n b -> (n + 1 < u32_size)%Z -> no_later b a ->
  no_later a (Crdt.Hlc_merged a b peer now) /\ counted (n + 1) (Crdt.Hlc_merged a b peer now).
Proof.
  unfold counted, no_later, Crdt.Hlc_merged, u32_add. intros Ha Hb Hn Hba.
  set (top := Z.max _ now).
  destruct (Z.eqb_spec top (Crdt.phys_ms a)), (Z.eqb_spec top (Crdt.phys_ms b)); cbn;
    rewrite ?Z.mod_small by (unfold u32_size in *; lia); unfold top in *; lia.
Qed.

Lemma lww_newer {T} (self : Crdt.Lww T) value clock ctx :
  earlier (Crdt.lww_clock self) clock -> Crdt.Lww_merge self (Crdt.mkLww value clock) ctx = Crdt.mkLww value clock.
Proof.
  unfold earlier, Crdt.Lww_merge, Crdt.Hlc_compare. cbn [Crdt.lww_clock]. intros [Hp | [-> Hl]].
  - by rewrite (proj2 (Z.compare_lt_iff _ _) Hp).
  - by rewrite Z.compare_refl, (proj2 (Z.compare_lt_iff _ _) Hl).
Qed.

(** A set nothing was removed from shows what is inserted. *)
Lemma inserted_visible `{RustOrd T} `{Countable T} (s : Crdt.OrSet T) v clock ctx :
  Crdt.removals s = ∅ -> v ∈ Crdt.OrSet_elements (Crdt.OrSet_insert s v clock ctx) ctx.
Proof.
  intros Hr. apply elem_of_OrSet_elements. cbn [Crdt.OrSet_insert Crdt.adds Crdt.removals]. rewrite Hr.
  unfold Crdt.record_clock. destruct (Crdt.adds s !! v) as [c|] eqn:E.
  - destruct (Crdt.Hlc_compare c clock ctx); [exists c | exists clock | exists c]; rewrite ?lookup_insert_eq; by split.
  - exists clock. rewrite lookup_insert_eq. by split.
Qed.

(** ** The runtime *)
Record runtime_ok (n : Z) (r : NoeticRuntime) : Prop := {
  ro_clock : counted n (Noetic.ns_clock (nr_state r));
  ro_topk : no_later (Crdt.lww_clock (Noetic.ns_model_topk (nr_state r))) (Noetic.ns_clock (nr_state r));
  ro_status : no_later (Crdt.lww_clock (Noetic.ns_seed_status (nr_state r))) (Noetic.ns_clock (nr_state r));
  ro_policy : no_later (Crdt.lww_clock (Noetic.ns_policies (nr_state r))) (Noetic.ns_clock (nr_state r));
  ro_models : Crdt.removals (Noetic.ns_models (nr_state r)) = ∅;
  ro_seeds : Crdt.removals (Noetic.ns_seeds (nr_state r)) = ∅;
  ro_quorum : f_ge f1 (Consensus.e_quorum (nr_consensus r)) = true;
  ro_credence : nr_local_credence r = f1
}.

Lemma new_runtime_ok peer : runtime_ok 0 (NoeticRuntime_new peer).
Proof. split; try done; cbn; unfold no_later, counted; cbn; lia. Qed.

Lemma clamped_quorum q : f_ge f1 (f_max (f32_clamp q f0 f1) f_zero) = true.
Proof.
  destruct (f32_clamp_ok q f0 f1 eq_refl) as [Hn | [_ Hle]%andb_true_iff].
  - unfold f_max. by rewrite Hn.
  - unfold f_max. destruct (is_nan (f32_clamp q f0 f1)); [done |]. cbn [is_nan f_zero].
    by destruct (SFltb (f32_clamp q f0 f1) f_zero).
Qed.

Lemma tick_clock_ok n now r :
  runtime_ok n r -> (n + 1 < u32_size)%Z ->
  let '(r', clock) := tick_clock now r in
  runtime_ok (n + 1) r' /\ earlier (Noetic.ns_clock (nr_state r)) clock /\ counted (n + 1) clock /\
  r' = set_state (set_ns_clock clock (nr_state r)) r.
Proof.
  intros [Hc Ht Hs Hp Hm Hse Hq Hcr] Hn. unfold tick_clock. destruct (tick_later n _ now Hc Hn) as [He Hc'].
  split_and!; [| done | done | done]. split; try done; cbn.
  all: eapply no_later_trans; [eassumption | by apply earlier_no_later].
Qed.

(** What a committed proposal leaves in the state. *)
Definition holds_object (object : Consensus.ProposalObject json) (s : Noetic.NoeticState json) : Prop :=
  match object with
  | Consensus.ObjModel header topk =>
      header ∈ Crdt.OrSet_elements (Noetic.ns_models s) (Noetic.merge_context s None) /\
      Crdt.lww_value (Noetic.ns_model_topk s) = topk
  | Consensus.ObjSeed header status =>
      header ∈ Crdt.OrSet_elements (Noetic.ns_seeds s) (Noetic.merge_context s None) /\
      Crdt.lww_value (Noetic.ns_seed_status s) = status
  | Consensus.ObjPolicy bundle => Crdt.lww_value (Noetic.ns_policies s) = bundle
  end.
(** The object carries the clock it was proposed at. *)
Definition object_clocked (clock : Crdt.Hlc) (object : Consensus.ProposalObject json) : Prop :=
  match object with
  | Consensus.ObjModel header topk => Noetic.topk_updated topk = clock
  | Consensus.ObjSeed _ _ => True
  | Consensus.ObjPolicy bundle => Noetic.pb_version bundle = clock
  end.

(** A commit: the clock [c0] of before the proposal is older than that of the proposal. *)
Lemma apply_commit_ok n now p c0 r :
  runtime_ok n r -> (n + 1 < u32_size)%Z -> counted n (Consensus.p_clock p) ->
  no_later (Consensus.p_clock p) (Noetic.ns_clock (nr_state r)) ->
  earlier c0 (Consensus.p_clock p) ->
  no_later (Crdt.lww_clock (Noetic.ns_model_topk (nr_state r))) c0 ->
  no_later (Crdt.lww_clock (Noetic.ns_seed_status (nr_state r))) c0 ->
  no_later (Crdt.lww_clock (Noetic.ns_policies (nr_state r))) c0 ->
  object_clocked (Consensus.p_clock p) (Consensus.p_object p) ->
  let '(r', events) := apply_commit now p r in
  runtime_ok (n + 1) r' /\ holds_object (Consensus.p_object p) (nr_state r') /\
  events = [build_merge_event (Noetic.summary bridge_blake3 (nr_state r'))] /\
  nr_consensus r' = nr_consensus r /\ nr_local_peer r' = nr_local_peer r.
Proof.
  intros [Hc Ht Hs Hp Hm Hse Hq Hcr] Hn Hpc Hle He Kt Ks Kp Ho. unfold apply_commit.
  destruct (merged_later n _ _ (nr_local_peer r) now Hc Hpc Hn Hle) as [Hml Hmc].
  set (clock := Crdt.Hlc_merged _ _ _ _) in *.
  assert (forall c, no_later c c0 -> earlier c (Consensus.p_clock p)) as Hnew by (intros c Hx; by eapply earlier_after).
  assert (forall c, no_later c (Noetic.ns_clock (nr_state r)) -> no_later c clock) as Hold
    by (intros c Hx; by eapply no_later_trans).
  destruct (Consensus.p_object p) as [header topk | header status | bundle]; cbn [object_clocked] in Ho.
  - split_and!; try done.
    + split; try done; cbn; [| by apply Hold..]. rewrite Ho, lww_newer; [by apply Hold | by apply Hnew].
    + cbn. rewrite Ho, lww_newer by by apply Hnew. split; [by apply inserted_visible | by destruct topk; cbn in *; subst].
  - split_and!; try done.
    + split; try done; cbn; [by apply Hold | | by apply Hold]. rewrite lww_newer; [by apply Hold | by apply Hnew].
    + cbn. rewrite lww_newer by by apply Hnew. split; [by apply inserted_visible | done].
  - split_and!; try done.
    + split; try done; cbn; [by apply Hold.. |]. rewrite Ho, lww_newer; [by apply Hold | by apply Hnew].
    + cbn. rewrite Ho, lww_newer; [done | by apply Hnew].
Qed.

(** ** A proposal *)
(** The proposal as it is after its own peer voted. *)
Definition committed (id : ProposalId) (peer : Crdt.PeerId) (object : Consensus.ProposalObject json) (clock vote_clock : Crdt.Hlc)
  : Consensus.Proposal json :=
  Consensus.mkProposal id peer object clock [Consensus.mkVote peer Consensus.Approve f1 vote_clock] true f1.

Definition propose_own (now : nat -> Z) (id : ProposalId) (object : Consensus.ProposalObject json) (r : NoeticRuntime)
  : NoeticRuntime * list json :=
  let '(r1, clock) := tick_clock (now 0) r in
  let '(c, event) := Consensus.propose (nr_consensus r1) id (nr_local_peer r) object clock in
  approve_own now event (set_consensus c r1).

(** The bridge accepted the object. *)
Definition accepted (now : nat -> Z) (id : ProposalId) (object : Consensus.ProposalObject json) (r r' : NoeticRuntime)
    (events : list json) : Prop :=
  let clock := Crdt.Hlc_tick (Noetic.ns_clock (nr_state r)) (now 0) in
  let p := committed id (nr_local_peer r) object clock (Crdt.Hlc_tick clock (now 2)) in
  let q := Consensus.e_quorum (nr_consensus r) in
  Consensus.e_proposals (nr_consensus r') = <[id := p]> (Consensus.e_proposals (nr_consensus r)) /\
  holds_object object (nr_state r') /\
  events =
    [noetic_event_json (Consensus.event_for q (Consensus.mkProposal id (nr_local_peer r) object clock [] false f_zero)
       Consensus.PhasePropose);
     noetic_event_json (Consensus.event_for q p Consensus.PhaseCommit);
     build_merge_event (Noetic.summary bridge_blake3 (nr_state r'))].

Lemma propose_own_accepted n now id object r :
  runtime_ok n r -> (n + 3 < u32_size)%Z ->
  object_clocked (Crdt.Hlc_tick (Noetic.ns_clock (nr_state r)) (now 0)) object ->
  let '(r', events) := propose_own now id object r in
  runtime_ok (n + 3) r' /\ nr_local_peer r' = nr_local_peer r /\ accepted now id object r r' events.
Proof.
  intros Hr Hn Ho. unfold propose_own, accepted. pose proof (tick_clock_ok n (now 0) r Hr ltac:(lia)) as H1.
  unfold tick_clock in *. set (clock := Crdt.Hlc_tick (Noetic.ns_clock (nr_state r)) (now 0)) in *.
  destruct H1 as (R1 & E1 & C1 & _). set (r1 := set_state _ r) in *.
  unfold Consensus.propose. cbn [Consensus.e_quorum Consensus.e_proposals nr_consensus set_state r1].
  set (p0 := Consensus.mkProposal id _ object clock [] false f_zero).
  set (r2 := set_consensus _ r1). assert (runtime_ok (n + 1) r2) as R2 by by destruct R1.
  unfold approve_own, process_event. cbn [Consensus.ev_meta Consensus.event_for Consensus.em_phase Consensus.em_id].
  pose proof (tick_clock_ok (n + 1) (now 2) r2 R2 ltac:(lia)) as H3. unfold tick_clock in *.
  change (Noetic.ns_clock (nr_state r2)) with clock in *. set (vclock := Crdt.Hlc_tick clock (now 2)) in *.
  destruct H3 as (R3 & E3 & C3 & _). set (r3 := set_state _ r2) in *.
  assert (nr_local_credence r3 = f1) as Hcr by apply R3. rewrite Hcr.
  change (nr_local_peer r3) with (nr_local_peer r). unfold Consensus.vote.
  change (Consensus.e_proposals (nr_consensus r3)) with (<[id := p0]> (Consensus.e_proposals (nr_consensus r))).
  change (Consensus.p_id p0) with id. rewrite lookup_insert_eq.
  change (Consensus.e_quorum (nr_consensus r3)) with (Consensus.e_quorum (nr_consensus r)).
  set (p := committed id (nr_local_peer r) object clock vclock).
  assert (Consensus.record_vote (Consensus.p_votes p0) (Consensus.p_credence_sum p0) (nr_local_peer r) Consensus.Approve f1 vclock
    = Some (Consensus.p_votes p, f1)) as -> by (cbn; repeat f_equal; by vm_compute).
  assert (negb (Consensus.p_committed p0) && f_ge f1 (Consensus.e_quorum (nr_consensus r))
    && forallb (fun v => bool_decide (Consensus.vr_decision v = Consensus.Approve)) (Consensus.p_votes p) = true) as ->
    by (rewrite (ro_quorum _ _ Hr); done).
  change (Consensus.mkProposal (Consensus.p_id p0) _ _ _ _ true f1) with p. rewrite insert_insert_eq.
  set (r4 := set_consensus _ r3). cbn [Consensus.ev_meta Consensus.event_for Consensus.em_phase Consensus.em_id].
  change (Consensus.p_id p) with id. change (Consensus.e_proposals (nr_consensus r4)) with (<[id := p]> (Consensus.e_proposals (nr_consensus r))).
  rewrite lookup_insert_eq.
  assert (runtime_ok (n + 1 + 1) r4) as R4 by by destruct R3.
  pose proof (apply_commit_ok (n + 1 + 1) (now 3) p (Noetic.ns_clock (nr_state r)) r4 R4 ltac:(lia)) as H5.
  destruct (apply_commit (now 3) p r4) as [r5 merged]. destruct H5 as (R5 & Hh & -> & Hc5 & Hp5).
  - unfold counted in *. cbn. lia.
  - by apply earlier_no_later.
  - done.
  - apply Hr.
  - apply Hr.
  - apply Hr.
  - done.
  - split_and!; [by replace (n + 3)%Z with (n + 1 + 1 + 1)%Z by lia | by rewrite Hp5 | by rewrite Hc5 | done | done].
Qed.

(** The object a request describes. *)
Definition parse_object (now : nat -> Z) (obj : NoeticObjectKind) (data : json) (peer : Crdt.PeerId) (clock : Crdt.Hlc)
  : result (Consensus.ProposalObject json) string :=
  match obj with
  | NModel => let! o := build_model_proposal data peer clock in Ok (Consensus.ObjModel o.1 o.2)
  | NSeed => let! o := build_seed_proposal (now 4) data peer clock in Ok (Consensus.ObjSeed o.1 o.2)
  | NPolicy => let! bundle := build_policy_bundle data clock in Ok (Consensus.ObjPolicy bundle)
  end.

Lemma parsed_clocked now obj data peer clock object :
  parse_object now obj data peer clock = Ok object -> object_clocked clock object.
Proof.
  destruct obj; cbn [parse_object].
  - unfold build_model_proposal. by destruct (model_from_value data); [intros [= <-] |].
  - by destruct (build_seed_proposal _ _ _ _); [intros [= <-] |].
  - by intros [= <-].
Qed.

Lemma runtime_propose_split now id obj data r :
  runtime_propose now id obj data r =
    let clock := Crdt.Hlc_tick (Noetic.ns_clock (nr_state r)) (now 0) in
    match parse_object now obj data (nr_local_peer r) clock with
    | Err e => (fst (tick_clock (now 0) r), Err e)
    | Ok object => let '(r', events) := propose_own now id object r in (r', Ok events)
    end.
Proof.
  unfold runtime_propose, propose_own, tick_clock, parse_object. cbv zeta. destruct obj.
  - by destruct (build_model_proposal _ _ _) as [[header topk]|e].
  - by destruct (build_seed_proposal _ _ _ _) as [[header status]|e].
  - done.
Qed.

(** ** Runs *)
Inductive runtime_op : Type :=
| ROPropose (now : nat -> Z) (id : ProposalId) (obj : NoeticObjectKind) (data : json)
| ROPeer (peer : Crdt.PeerId) (credence : f32)
| ROQuorum (quorum : f32).

(** The calls the commands make; [handle_peer_add] and [handle_noetic_quorum] clamp what the host sends. *)
Definition runtime_do (r : NoeticRuntime) (op : runtime_op) : NoeticRuntime :=
  match op with
  | ROPropose now id obj data => fst (runtime_propose now id obj data r)
  | ROPeer peer credence => runtime_register_peer peer (f32_clamp credence f0 f1) r
  | ROQuorum quorum => fst (runtime_set_quorum (f32_clamp quorum f0 f1) r)
  end.

Lemma runtime_ok_mono n m r : (n <= m)%Z -> runtime_ok n r -> runtime_ok m r.
Proof. intros Hn [Hc Ht Hs Hp Hm Hse Hq Hcr]. split; try done. unfold counted in *. lia. Qed.

Lemma runtime_do_ok n op r : runtime_ok n r -> (n + 3 < u32_size)%Z -> runtime_ok (n + 3) (runtime_do r op).
Proof.
  intros Hr Hn. destruct op as [now id obj data | peer credence | quorum]; cbn [runtime_do].
  - rewrite runtime_propose_split. cbv zeta. destruct (parse_object _ _ _ _ _) as [object|e] eqn:E.
    + pose proof (propose_own_accepted n now id object r Hr Hn (parsed_clocked _ _ _ _ _ _ E)) as Ha.
      destruct (propose_own now id object r). apply Ha.
    + pose proof (tick_clock_ok n (now 0) r Hr ltac:(lia)) as Ht. destruct (tick_clock _ _). cbn [fst].
      eapply runtime_ok_mono; [| apply Ht]. lia.
  - eapply (runtime_ok_mono n); [lia |]. by destruct Hr.
  - eapply (runtime_ok_mono n); [lia |]. destruct Hr. split; try done. cbn. apply clamped_quorum.
Qed.

Lemma runtime_run_ok ops : forall n r,
  runtime_ok n r -> (n + 3 * Z.of_nat (length ops) < u32_size)%Z ->
  runtime_ok (n + 3 * Z.of_nat (length ops)) (fold_left runtime_do ops r).
Proof.
  induction ops as [|op ops IH]; intros n r Hr Hn; cbn [fold_left length] in *.
  { replace (n + 3 * Z.of_nat 0)%Z with n by lia. done. }
  replace (n + 3 * Z.of_nat (S (length ops)))%Z with (n + 3 + 3 * Z.of_nat (length ops))%Z in * by lia.
  apply IH; [| done]. apply runtime_do_ok; [done | lia].
Qed.

(** C32: A proposal of the host is decided in the call that makes it. Whatever was proposed, registered and
    set before, and whatever the clock reads, a request that does not parse is answered with its
    error and moves the clock only; one that parses is proposed and, by the vote of the local peer alone,
    committed whatever the quorum: the engine holds it as committed with that one vote, the state shows
    its header and has its value in the register, although registers keep the newest clock, and
    the host is told of the proposal, of the commit and of the state after it. *)
Theorem noetic_propose_commits peer ops now id obj data :
  let r := fold_left runtime_do ops (NoeticRuntime_new peer) in
  (3 * (Z.of_nat (length ops) + 1) < u32_size)%Z ->
  let '(r', answer) := runtime_propose now id obj data r in
  match parse_object now obj data (nr_local_peer r) (Crdt.Hlc_tick (Noetic.ns_clock (nr_state r)) (now 0)) with
  | Err e => answer = Err e /\ r' = fst (tick_clock (now 0) r)
  | Ok object => exists events, answer = Ok events /\ accepted now id object r r' events
  end.
Proof.
  intros r Hn. pose proof (runtime_run_ok ops 0 _ (new_runtime_ok peer) ltac:(lia)) as Hr. fold r in Hr.
  rewrite runtime_propose_split. cbv zeta. destruct (parse_object _ _ _ _ _) as [object|e] eqn:E; [| done].
  pose proof (propose_own_accepted _ now id object r Hr ltac:(lia) (parsed_clocked _ _ _ _ _ _ E)) as Ha.
  destruct (propose_own now id object r) as [r' events]. exists events. split; [done | apply Ha].
Qed.
End noetic.

(** ** Two proposals *)
Section demo.
#[local] Existing Instance tree_text.
#[local] Instance demo_bridge : BridgeEnv :=
  {| bridge_blake3 b := take 4 (b ++ [Byte.x01; Byte.x02; Byte.x03; Byte.x04]); uuid_text p := of_bytes (Consensus.uuid_bytes p);
     model_from_value _ := Err "missing field"; model_to_vec _ := [] |}.

Definition me : Crdt.PeerId := Crdt.mkPeerId [Byte.x07].
Definition seed_data : json := json_obj [("id", JStr "s-1"); ("status", JStr "Active"); ("started_ms", JU64 5)].
(** A seed of an earlier call, a peer, and a quorum of more than one. *)
Definition before : list runtime_op :=
  [ROPropose (fun _ => 10%Z) (Consensus.mkProposalId [Byte.x01]) NSeed (json_obj [("id", JU64 3)]);
   ROPeer (Crdt.mkPeerId [Byte.x08]) (lit 9 10); ROQuorum (lit 5 1)].

Lemma noetic_propose_commits_witness :
  let r := fold_left runtime_do before (NoeticRuntime_new me) in
  exists events, (runtime_propose (fun _ => 10%Z) (Consensus.mkProposalId [Byte.x02]) NSeed seed_data r).2 = Ok events /\
    Noetic.SeedStatus_as_str (Crdt.lww_value (Noetic.ns_seed_status
      (nr_state (runtime_propose (fun _ => 10%Z) (Consensus.mkProposalId [Byte.x02]) NSeed seed_data r).1))) = "active".
Proof.
  pose proof (noetic_propose_commits me before (fun _ => 10%Z) (Consensus.mkProposalId [Byte.x02]) NSeed seed_data
    ltac:(by vm_compute)) as Ha.
  cbv zeta. set (r := fold_left runtime_do before (NoeticRuntime_new me)) in *.
  assert (is_ok (parse_object (fun _ => 10%Z) NSeed seed_data (nr_local_peer r)
    (Crdt.Hlc_tick (Noetic.ns_clock (nr_state r)) 10)) = true) as Hok by by vm_compute.
  destruct (parse_object _ NSeed seed_data _ _) as [object|] eqn:E; [| done].
  destruct (runtime_propose _ _ NSeed seed_data r) as [r' answer]. destruct Ha as (events & -> & _ & Hh & _).
  exists events. split; [done |].
  assert (exists h s, object = Consensus.ObjSeed h s /\ s = Noetic.Active 5) as (h & s & -> & ->).
  { vm_compute in E. injection E as <-. by do 2 eexists. }
  cbn [fst]. by rewrite (proj2 Hh).
Defined.
End demo.
