(* ===== verification/Server.v ===== *)
(** * The WebSocket server: [liminal-bridge-net/src/lib.rs] and [ws_server.rs]

    The hub ([BridgeHubInner]) lists the connected clients and passes commands and events between the
    connections and the rest of the program. The channels are the async runtime's: what a connection
    reads from its broadcast receivers, and when, is an input of its steps, and a command it sends is an
    output. A connection is an interleaving of atomic steps: it is accepted, receives frames, passes on
    events and metrics, pings, leaves its loop, loses its tasks one by one, and is closed when the last
    of them has ended. The bound of the channel to the socket, where a task waits, is left out. *)

From stdpp Require Import prelude gmap strings fin_maps list relations.
From Stdlib Require Import ZArith Lia.
From S2P Require Import Prelude RustStr RustOrd Float RustText Crypto Json StreamCodec Protocol.
From S2P Require FieldCodec.

(** ** Data *)
(** [IntrospectTarget] of this crate has the constructors of the one of [Protocol]. *)
Inductive IncomingCommand : Type :=
| InImpulse (data : json)
| InLql (query : string)
| InPolicySet (data : json)
| InSubscribe (pattern : string)
| InDreamNow
| InDreamSet (cfg : json)
| InDreamGet
| InSyncNow
| InSyncSet (cfg : json)
| InSyncGet
| InAwakenSet (cfg : json)
| InAwakenGet
| InIntrospect (target : IntrospectTarget) (top : option Z)
| InMirrorTimeline (top : option Z)
| InMirrorInfluencers (k : option Z)
| InMirrorReplay (epoch_id : Z) (cfg : option json)
| InRaw (value : json).

Record ClientSnapshot : Type := mkClient {
  cl_id : Z;
  last_ping : Z;
  connected_at : Z;
  cl_addr : string;
  cl_format : StreamFormat
}.

(** [BridgeHubInner]; [command_rx] is taken once. *)
Record BridgeHub : Type := mkHub {
  hb_clients : list ClientSnapshot;
  hb_default_format : StreamFormat;
  hb_command_rx : bool
}.
Definition BridgeHub_new : BridgeHub := mkHub [] StreamCodec.Json true.

#[export] Instance StreamFormat_eq_dec : EqDecision StreamFormat.
Proof. solve_decision. Defined.

(** ** The hub *)
(** What is sent for an event: its [meta] says where it came from. *)
Definition stamp_event (payload : json) : json :=
  match payload with
  | JObj obj =>
      let obj := match obj !! "meta" with Some _ => obj | None => <["meta" := JObj ∅]> obj end in
      match obj !! "meta" with
      | Some (JObj meta) => JObj (<["meta" := JObj (<["source" := JStr "ws"]> meta)]> obj)
      | _ => JObj obj
      end
  | _ => payload
  end.

Definition with_clients (g : list ClientSnapshot -> list ClientSnapshot) (h : BridgeHub) : BridgeHub :=
  mkHub (g (hb_clients h)) (hb_default_format h) (hb_command_rx h).

(** [iter_mut().find(|c| c.id == id)], and an update of the client found. *)
Fixpoint update_client (id : Z) (g : ClientSnapshot -> ClientSnapshot) (l : list ClientSnapshot) : list ClientSnapshot :=
  match l with
  | [] => []
  | c :: l => if (cl_id c =? id)%Z then g c :: l else c :: update_client id g l
  end.

Definition register_client (snapshot : ClientSnapshot) : BridgeHub -> BridgeHub := with_clients (fun l => l ++ [snapshot]).
Definition update_ping (id now : Z) : BridgeHub -> BridgeHub :=
  with_clients (update_client id (fun c => mkClient (cl_id c) now (connected_at c) (cl_addr c) (cl_format c))).
Definition remove_client (id : Z) : BridgeHub -> BridgeHub :=
  with_clients (filter (fun c => cl_id c <> id)).
Definition update_client_format (id : Z) (format : StreamFormat) : BridgeHub -> BridgeHub :=
  with_clients (update_client id (fun c => mkClient (cl_id c) (last_ping c) (connected_at c) (cl_addr c) format)).
Definition set_default_format (format : StreamFormat) (h : BridgeHub) : BridgeHub :=
  mkHub (hb_clients h) format (hb_command_rx h).
Definition take_command_receiver (h : BridgeHub) : BridgeHub * bool :=
  (mkHub (hb_clients h) (hb_default_format h) false, hb_command_rx h).

Definition format_debug (f : StreamFormat) : string := match f with StreamCodec.Json => "Json" | Cbor_ => "Cbor" end.
(** [now] and the times of a client are in milliseconds. *)
Definition format_clients (now : Z) (l : list ClientSnapshot) : list string :=
  map (fun c => "id=" +:+ fmt_nat (cl_id c) +:+ " addr=" +:+ cl_addr c +:+ " connected="
         +:+ fmt_nat ((now - connected_at c) / 1000) +:+ "s ago format=" +:+ format_debug (cl_format c)) l.

(** ** Commands *)
Definition parse_introspect_target (label : string) : option IntrospectTarget :=
  let label := ascii_lower label in
  if decide (label = "awaken") then Some TAwaken
  else if decide (label = "model") then Some TModel
  else if decide (label = "influence") then Some TInfluence
  else if decide (label = "tension") then Some TTension
  else None.

(** [value.get(key).and_then(as_u64).map(|v| v.min(u32::MAX))] *)
Definition get_u32 (key : string) (value : json) : option Z :=
  (fun v => Z.min v u32_max) <$> (jget key value ≫= as_u64).
Definition get_or_null (key : string) (value : json) : json := default JNull (jget key value).

(** The command a message asks for; [None] is a warning. *)
Definition dispatch (value : json) : option IncomingCommand :=
  match jget "cmd" value ≫= as_str with
  | None => Some (InRaw value)
  | Some cmd =>
      if decide (cmd = "impulse") then Some (InImpulse (get_or_null "data" value))
      else if decide (cmd = "lql") then InLql <$> (jget "q" value ≫= as_str)
      else if decide (cmd = "policy.set") then Some (InPolicySet (get_or_null "data" value))
      else if decide (cmd = "subscribe") then
        (fun pattern => InLql ("SUBSCRIBE " +:+ pattern)) <$> (jget "pattern" value ≫= as_str)
      else if decide (cmd = "dream.now") then Some InDreamNow
      else if decide (cmd = "dream.set") then Some (InDreamSet (get_or_null "cfg" value))
      else if decide (cmd = "dream.get") then Some InDreamGet
      else if decide (cmd = "sync.now") then Some InSyncNow
      else if decide (cmd = "sync.set") then Some (InSyncSet (get_or_null "cfg" value))
      else if decide (cmd = "sync.get") then Some InSyncGet
      else if decide (cmd = "awaken.set") then Some (InAwakenSet (get_or_null "cfg" value))
      else if decide (cmd = "awaken.get") then Some InAwakenGet
      else if decide (cmd = "awaken.now") then Some (InIntrospect TAwaken None)
      else if decide (cmd = "introspect") then
        (fun target => InIntrospect target (get_u32 "top" value))
          <$> ((jget "target" value ≫= as_str) ≫= parse_introspect_target)
      else if decide (cmd = "mirror.timeline") then Some (InMirrorTimeline (get_u32 "top" value))
      else if decide (cmd = "mirror.influencers") then Some (InMirrorInfluencers (get_u32 "k" value))
      else if decide (cmd = "mirror.replay") then
        (fun epoch_id => InMirrorReplay epoch_id (jget "cfg" value)) <$> (jget "epoch_id" value ≫= as_u64)
      else Some (InRaw value)
  end.

(** ** Connections *)
(** The task of a connection reads frames; or it has left its loop and awaits the three tasks it spawned; or
    it is gone: it panicked, and they run on. *)
Inductive ConnPhase : Type := Reading | Awaiting | Gone.
(** [format_state], and which of [send_task], [events_task] and [metrics_task] run. *)
Record Conn : Type := mkConn {
  cn_format : StreamFormat;
  cn_phase : ConnPhase;
  cn_sends : bool;
  cn_events : bool;
  cn_metrics : bool
}.
Definition Conn_new (format : StreamFormat) : Conn := mkConn format Reading true true true.
Definition put_format (format : StreamFormat) (c : Conn) : Conn :=
  mkConn format (cn_phase c) (cn_sends c) (cn_events c) (cn_metrics c).
Definition put_phase (phase : ConnPhase) (c : Conn) : Conn :=
  mkConn (cn_format c) phase (cn_sends c) (cn_events c) (cn_metrics c).
Definition all_run (c : Conn) : bool := cn_sends c && cn_events c && cn_metrics c.
Definition none_runs (c : Conn) : bool := negb (cn_sends c || cn_events c || cn_metrics c).

(** [latest_harmony], [NEXT_CLIENT_ID] and the connections whose tasks have not all been awaited. *)
Record Server : Type := mkServer {
  sv_hub : BridgeHub;
  sv_harmony : option json;
  sv_next : Z;
  sv_open : gmap Z Conn
}.
Definition Server_new (hub : BridgeHub) : Server := mkServer hub None 1 ∅.
Definition put_conn (id : Z) (c : Conn) (s : Server) : Server :=
  mkServer (sv_hub s) (sv_harmony s) (sv_next s) (<[id := c]> (sv_open s)).
Definition on_hub (g : BridgeHub -> BridgeHub) (s : Server) : Server :=
  mkServer (g (sv_hub s)) (sv_harmony s) (sv_next s) (sv_open s).

Class WsEnv : Type := {
  ws_debug : cbor -> string;
  ws_to_string : json -> result string string;
  ws_from_str : string -> result json string
}.

Section server.
Context `{WsEnv, Cbor cbor}.

Definition encode (payload : json) (format : StreamFormat) : option Message :=
  match encode_cbor_json ws_to_string payload format with Ok msg => Some msg | Err _ => None end.
Definition decode (msg : Message) : option (result (json * StreamFormat) string) :=
  decode_cbor_json ws_debug ws_from_str msg.

(** A connection: [handshake] is whether [accept_async] succeeds; the answer is the last harmony event.
    The clock is read twice, [now] and [now']. *)
Definition accept (addr : string) (now now' : Z) (handshake : bool) (s : Server) : Server * option Message :=
  let id := sv_next s in
  let format := hb_default_format (sv_hub s) in
  let next := u64_add id 1 in
  if handshake then
    (mkServer (register_client (mkClient id now now' addr format) (sv_hub s)) (sv_harmony s) next
       (<[id := Conn_new format]> (sv_open s)),
     sv_harmony s ≫= fun payload => encode payload format)
  else (mkServer (sv_hub s) (sv_harmony s) next (sv_open s), None).

(** A frame of client [id]. [None] is the panic of the decoder: the task of the connection is gone; nobody
    reads its frames or awaits the tasks it spawned. *)
Definition receive (id : Z) (msg : Message) (s : Server) : Server * option IncomingCommand :=
  match sv_open s !! id with
  | None => (s, None)
  | Some c =>
      match cn_phase c with
      | Reading =>
          match decode msg with
          | None => (put_conn id (put_phase Gone c) s, None)
          | Some (Err _) => (s, None)
          | Some (Ok (value, detected)) =>
              let s :=
                if decide (detected = cn_format c) then s
                else on_hub (update_client_format id detected) (put_conn id (put_format detected c) s) in
              (s, dispatch value)
          end
      | _ => (s, None)
      end
  end.

Definition is_harmony (payload : json) : bool :=
  match jget "ev" payload ≫= as_str with Some ev => bool_decide (ev = "harmony") | None => false end.

(** [pump_events] of client [id], whatever has become of the connection's own task; it ends when it has a
    message and [send_task], which owned the other end of the channel, has ended. The answer is the message
    that is queued for the socket. *)
Definition pump_event (id : Z) (payload : json) (s : Server) : Server * option Message :=
  match sv_open s !! id with
  | None => (s, None)
  | Some c =>
      if cn_events c then
        let s := if is_harmony payload then mkServer (sv_hub s) (Some payload) (sv_next s) (sv_open s) else s in
        match encode payload (cn_format c) with
        | None => (s, None)
        | Some msg =>
            if cn_sends c then (s, Some msg)
            else (put_conn id (mkConn (cn_format c) (cn_phase c) (cn_sends c) false (cn_metrics c)) s, None)
        end
      else (s, None)
  end.
Definition pump_metrics (id : Z) (payload : json) (s : Server) : Server * option Message :=
  match sv_open s !! id with
  | None => (s, None)
  | Some c =>
      if cn_metrics c then
        match encode payload (cn_format c) with
        | None => (s, None)
        | Some msg =>
            if cn_sends c then (s, Some msg)
            else (put_conn id (mkConn (cn_format c) (cn_phase c) (cn_sends c) (cn_events c) false) s, None)
        end
      else (s, None)
  end.

(** [sink.send] fails: [send_task] ends and drops its end of the channel. *)
Definition send_fails (id : Z) (s : Server) : Server :=
  match sv_open s !! id with
  | None => s
  | Some c => put_conn id (mkConn (cn_format c) (cn_phase c) false (cn_events c) (cn_metrics c)) s
  end.

(** A tick of the ping interval; the loop is left when the channel is closed. *)
Definition ping (id now : Z) (s : Server) : Server * option Message :=
  match sv_open s !! id with
  | None => (s, None)
  | Some c =>
      match cn_phase c with
      | Reading =>
          let s := on_hub (update_ping id now) s in
          if cn_sends c then (s, Some MOther) else (put_conn id (put_phase Awaiting c) s, None)
      | _ => (s, None)
      end
  end.

(** The loop is left: the client closed the connection or a frame could not be read; [task_ended] when the
    loop polled a task that had ended. Then it is that task's handle that is awaited once more, and polling a
    handle after its completion panics. *)
Definition leave (id : Z) (task_ended : bool) (s : Server) : Server :=
  match sv_open s !! id with
  | None => s
  | Some c =>
      match cn_phase c with
      | Reading =>
          if task_ended then if all_run c then s else put_conn id (put_phase Gone c) s
          else put_conn id (put_phase Awaiting c) s
      | _ => s
      end
  end.

(** The awaited tasks have ended: the client is taken off the list. *)
Definition close (id : Z) (s : Server) : Server :=
  match sv_open s !! id with
  | None => s
  | Some c =>
      match cn_phase c with
      | Awaiting =>
          if none_runs c then
            mkServer (remove_client id (sv_hub s)) (sv_harmony s) (sv_next s) (delete id (sv_open s))
          else s
      | _ => s
      end
  end.
End server.

(** The text of a value is read back, up to the last digit of its floats ([Json]). *)
Class WsEnvOk `{WsEnv} : Type := {
  ws_reread : f64 -> f64;
  ws_read_written : forall j text, ws_to_string j = Ok text -> ws_from_str text = Ok (map_floats ws_reread j)
}.

(** ** What a command is carried by *)
(** The message that asks for a command; [InSubscribe] has none, a subscription is a query. *)
Definition target_label (t : IntrospectTarget) : string :=
  match t with TAwaken => "awaken" | TModel => "model" | TInfluence => "influence" | TTension => "tension" end.
Definition opt_member (key : string) (v : option json) : list (string * json) :=
  match v with Some v => [(key, v)] | None => [] end.
Definition cmd_json (cmd : string) (members : list (string * json)) : json := json_obj (("cmd", JStr cmd) :: members).
Definition request (c : IncomingCommand) : option json :=
  match c with
  | InImpulse data => Some (cmd_json "impulse" [("data", data)])
  | InLql query => Some (cmd_json "lql" [("q", JStr query)])
  | InPolicySet data => Some (cmd_json "policy.set" [("data", data)])
  | InSubscribe _ => None
  | InDreamNow => Some (cmd_json "dream.now" [])
  | InDreamSet cfg => Some (cmd_json "dream.set" [("cfg", cfg)])
  | InDreamGet => Some (cmd_json "dream.get" [])
  | InSyncNow => Some (cmd_json "sync.now" [])
  | InSyncSet cfg => Some (cmd_json "sync.set" [("cfg", cfg)])
  | InSyncGet => Some (cmd_json "sync.get" [])
  | InAwakenSet cfg => Some (cmd_json "awaken.set" [("cfg", cfg)])
  | InAwakenGet => Some (cmd_json "awaken.get" [])
  | InIntrospect target top =>
      Some (cmd_json "introspect" (("target", JStr (target_label target)) :: opt_member "top" (JU64 <$> top)))
  | InMirrorTimeline top => Some (cmd_json "mirror.timeline" (opt_member "top" (JU64 <$> top)))
  | InMirrorInfluencers k => Some (cmd_json "mirror.influencers" (opt_member "k" (JU64 <$> k)))
  | InMirrorReplay epoch_id cfg =>
      Some (cmd_json "mirror.replay" (("epoch_id", JU64 epoch_id) :: opt_member "cfg" cfg))
  | InRaw _ => None
  end.

(** The payload of a command. *)
Definition payload (c : IncomingCommand) : option json :=
  match c with
  | InImpulse v | InPolicySet v | InDreamSet v | InSyncSet v | InAwakenSet v => Some v
  | InMirrorReplay _ cfg => cfg
  | _ => None
  end.
Definition map_payload (g : json -> json) (c : IncomingCommand) : IncomingCommand :=
  match c with
  | InImpulse v => InImpulse (g v)
  | InPolicySet v => InPolicySet (g v)
  | InDreamSet v => InDreamSet (g v)
  | InSyncSet v => InSyncSet (g v)
  | InAwakenSet v => InAwakenSet (g v)
  | InMirrorReplay id cfg => InMirrorReplay id (g <$> cfg)
  | InRaw v => InRaw (g v)
  | _ => c
  end.
(** The numbers of a command are those of its types ([u32] and [u64]). *)
Definition numbers_ok (c : IncomingCommand) : Prop :=
  match c with
  | InIntrospect _ top | InMirrorTimeline top | InMirrorInfluencers top => from_option (fun n => (0 <= n <= u32_max)%Z) True top
  | InMirrorReplay id _ => is_u64 id
  | _ => True
  end.
(** The binary format keeps the payload: its numbers are in range and the key table changes none of its keys. *)
Definition payload_ok (c : IncomingCommand) : Prop := from_option (fun v => json_ok v /\ stable v) True (payload c).

Lemma dispatch_request c j : request c = Some j -> numbers_ok c -> dispatch j = Some c.
Proof.
  intros Hr Hc.
  assert (forall n, (0 <= n <= u32_max)%Z -> Z.min n u32_max = n) as Hmin by (intros; lia).
  destruct c as [v | q | v | p | | v | | | v | | v | | t top | top | k | id cfg | v]; try discriminate Hr; injection Hr as <-;
    try reflexivity.
  - destruct top as [n|]; [| by destruct t].
    transitivity (Some (InIntrospect t (Some (Z.min n u32_max)))); [by destruct t | by rewrite Hmin].
  - destruct top as [n|]; [| reflexivity].
    transitivity (Some (InMirrorTimeline (Some (Z.min n u32_max)))); [reflexivity | by rewrite Hmin].
  - destruct k as [n|]; [| reflexivity].
    transitivity (Some (InMirrorInfluencers (Some (Z.min n u32_max)))); [reflexivity | by rewrite Hmin].
  - by destruct cfg.
Qed.

(** ** Carriage *)
Lemma jget_map_floats g key v : jget key (map_floats g v) = map_floats g <$> jget key v.
Proof. destruct v as [| | | | | | | m]; try done. cbn. by rewrite lookup_fmap. Qed.
Lemma as_str_map_floats g v : as_str (map_floats g v) = as_str v. Proof. by destruct v. Qed.
Lemma as_u64_map_floats g v : as_u64 (map_floats g v) = as_u64 v. Proof. by destruct v. Qed.
Lemma jget_str g key v : jget key (map_floats g v) ≫= as_str = jget key v ≫= as_str.
Proof. rewrite jget_map_floats. destruct (jget key v); [apply as_str_map_floats | done]. Qed.
Lemma jget_u64 g key v : jget key (map_floats g v) ≫= as_u64 = jget key v ≫= as_u64.
Proof. rewrite jget_map_floats. destruct (jget key v); [apply as_u64_map_floats | done]. Qed.
Lemma get_or_null_map g key v : get_or_null key (map_floats g v) = map_floats g (get_or_null key v).
Proof. unfold get_or_null. rewrite jget_map_floats. by destruct (jget key v). Qed.

(** The texts and the numbers that choose a command have no floats. *)
Lemma dispatch_map_floats g v : dispatch (map_floats g v) = map_payload (map_floats g) <$> dispatch v.
Proof.
  unfold dispatch, get_u32. rewrite !jget_str, !jget_u64, !get_or_null_map, jget_map_floats.
  destruct (jget "cmd" v ≫= as_str) as [cmd|]; [| done].
  repeat (case_decide; [try done |]); try done.
  - by destruct (jget "q" v ≫= as_str).
  - by destruct (jget "pattern" v ≫= as_str).
  - by destruct ((jget "target" v ≫= as_str) ≫= parse_introspect_target).
  - by destruct (jget "epoch_id" v ≫= as_u64).
Qed.

Lemma members_all (P : string -> json -> Prop) l : Forall (fun p => P p.1 p.2) l ->
  exists m, json_obj l = JObj m /\ map_Forall P m.
Proof.
  intros Hl. eexists. split; [reflexivity |].
  assert (forall m : gmap string json, map_Forall P m -> map_Forall P (fold_left (fun m p => <[p.1 := p.2]> m) l m)) as Hf; [| apply Hf, map_Forall_empty].
  induction Hl as [|[k v] l Hp _ IH]; intros m Hm; [done |]. cbn. by apply IH, map_Forall_insert_2.
Qed.

(** The keys of the requests are kept by the codec. *)
Lemma request_carried c j : request c = Some j -> numbers_ok c -> payload_ok c -> json_ok j /\ stable j.
Proof.
  intros Hr Hc Hp. unfold payload_ok in Hp.
  assert (forall cmd l, Forall (fun p => stable_key p.1 /\ json_ok p.2 /\ stable p.2) l ->
    json_ok (cmd_json cmd l) /\ stable (cmd_json cmd l)) as Hobj.
  { intros cmd l Hl. destruct (members_all (fun k v => stable_key k /\ json_ok v /\ stable v) (("cmd", JStr cmd) :: l)) as (m & E & Hm);
      [by constructor |]. unfold cmd_json. rewrite E, json_ok_obj, stable_obj.
    split; intros k v Hk; destruct (Hm k v Hk) as (? & ? & ?); done. }
  assert (forall n, (0 <= n <= u32_max)%Z -> json_ok (JU64 n)) as Hu32.
  { intros n Hn. change (is_u64 n). unfold is_u64, u32_max, u32_size, u64_size in *. lia. }
  destruct c as [v | q | v | p | | v | | | v | | v | | t top | top | k | id cfg | v]; try discriminate Hr; injection Hr as <-;
    cbn in Hc, Hp; apply Hobj; repeat (apply Forall_cons_2 || apply Forall_nil_2); try done.
  1: destruct top as [n|]; cbn in *; repeat constructor; by try apply Hu32.
  1: destruct top as [n|]; cbn in *; repeat constructor; by try apply Hu32.
  1: destruct k as [n|]; cbn in *; repeat constructor; by try apply Hu32.
  destruct cfg as [v|]; cbn in *; repeat constructor; by try apply Hp.
Qed.

Section carriage.
Context `{WsEnv, !WsEnvOk, Cbor cbor, !CborOk cbor}.

(** What a format does to the payload of a command. *)
Definition carried (format : StreamFormat) (c : IncomingCommand) : IncomingCommand :=
  match format with
  | StreamCodec.Json => map_payload (map_floats ws_reread) c
  | Cbor_ => c
  end.

Lemma decode_request c j format msg :
  request c = Some j -> numbers_ok c -> (format = Cbor_ -> payload_ok c) -> encode j format = Some msg ->
  exists value, decode msg = Some (Ok (value, format)) /\ dispatch value = Some (carried format c).
Proof.
  intros Hr Hc Hp He. unfold encode in He. destruct (encode_cbor_json _ j format) as [m|] eqn:E; [| done]. injection He as ->.
  pose proof (dispatch_request c j Hr Hc) as Hd. unfold decode. destruct format.
  - cbn in E. apply rbind_ok in E as (text & Et & [= <-]). exists (map_floats ws_reread j).
    cbn. rewrite (ws_read_written _ _ Et). split; [done |]. by rewrite dispatch_map_floats, Hd.
  - destruct (request_carried c j Hr Hc (Hp eq_refl)) as [Hok Hst]. exists j. split; [by eapply codec_carries | done].
Qed.

(** ** Runs of the server *)
Inductive server_step : Server -> Server -> Prop :=
| SvAccept addr now now' handshake s : (sv_next s + 1 < u64_size)%Z -> server_step s (accept addr now now' handshake s).1
| SvReceive id msg s : server_step s (receive id msg s).1
| SvEvent id event s : server_step s (pump_event id event s).1
| SvMetrics id payload s : server_step s (pump_metrics id payload s).1
| SvSendFails id s : server_step s (send_fails id s)
| SvPing id now s : server_step s (ping id now s).1
| SvLeave id task_ended s : server_step s (leave id task_ended s)
| SvClose id s : server_step s (close id s)
| SvFormat format s : server_step s (on_hub (set_default_format format) s).

Definition entry (c : ClientSnapshot) : Z * StreamFormat := (cl_id c, cl_format c).
Definition listed (s : Server) : list (Z * StreamFormat) := entry <$> hb_clients (sv_hub s).

(** The list is the connections that have not been closed, each once and under its format. *)
Record server_ok (s : Server) : Prop := {
  so_unique : NoDup (listed s).*1;
  so_fresh : Forall (fun id => id < sv_next s)%Z (listed s).*1;
  so_next : (0 < sv_next s)%Z;
  so_listed : forall id format, (id, format) ∈ listed s <-> exists c, sv_open s !! id = Some c /\ cn_format c = format
}.

(** A key of a list without duplicate keys has one value. *)
Lemma nodup_keys {A B} (l : list (A * B)) k a b : NoDup l.*1 -> (k, a) ∈ l -> (k, b) ∈ l -> a = b.
Proof.
  induction l as [|[k' v] l IH]; [by intros _ ?%not_elem_of_nil |]. cbn.
  intros [Hk Hn]%NoDup_cons [[= -> ->]|Ha]%elem_of_cons [E|Hb]%elem_of_cons.
  - by injection E as ->.
  - by apply (list_elem_of_fmap_2 fst) in Hb.
  - injection E as -> ->. by apply (list_elem_of_fmap_2 fst) in Ha.
  - by apply IH.
Qed.

Lemma update_client_entries id g h l :
  (forall c, entry (g c) = h (entry c)) -> NoDup (entry <$> l).*1 ->
  entry <$> update_client id g l = (fun p => if (p.1 =? id)%Z then h p else p) <$> (entry <$> l).
Proof.
  intros Hg. induction l as [|c l IH]; [done |]. cbn. intros [Hc Hn]%NoDup_cons. destruct (Z.eqb_spec (cl_id c) id) as [E|E].
  - cbn. rewrite Hg. f_equal. transitivity ((fun p => p) <$> (entry <$> l)); [by rewrite list_fmap_id |].
    apply Forall_fmap_ext. apply Forall_forall. intros p Hp. destruct (Z.eqb_spec p.1 id) as [E'|]; [| done].
    destruct Hc. rewrite E, <- E'. by apply list_elem_of_fmap_2.
  - cbn. by rewrite IH.
Qed.

Lemma update_format_listed id format l :
  NoDup (entry <$> l).*1 ->
  let l' := entry <$> update_client id (fun c => mkClient (cl_id c) (last_ping c) (connected_at c) (cl_addr c) format) l in
  l'.*1 = (entry <$> l).*1 /\
  (forall i f, i <> id -> (i, f) ∈ entry <$> l -> (i, f) ∈ l') /\ (forall f, (id, f) ∈ entry <$> l -> (id, format) ∈ l').
Proof.
  intros Hn. cbv zeta. rewrite (update_client_entries id _ (fun p => (p.1, format)) l) by done. split_and!.
  - rewrite <- (list_fmap_compose _ fst). apply list_fmap_ext. intros j p Hj. unfold compose. destruct (p.1 =? id)%Z; reflexivity.
  - intros i f Hne Hi. apply list_elem_of_fmap. exists (i, f). split; [| done]. cbn. by rewrite (proj2 (Z.eqb_neq _ _) Hne).
  - intros f Hi. apply list_elem_of_fmap. exists (id, f). split; [| done]. cbn. by rewrite Z.eqb_refl.
Qed.

(** A step that changes neither the list nor the formats. *)
Lemma server_ok_frame s s' :
  server_ok s -> listed s' = listed s -> sv_next s' = sv_next s ->
  (forall id, cn_format <$> (sv_open s' !! id) = cn_format <$> (sv_open s !! id)) -> server_ok s'.
Proof.
  intros [Hu Hf Hp Hl] E En Ef. split; rewrite ?E, ?En; [done.. |]. intros id format. rewrite Hl. specialize (Ef id).
  destruct (sv_open s' !! id) as [c'|], (sv_open s !! id) as [c|]; try done; cbn in Ef. injection Ef as Ef.
  split; intros (x & [= <-] & <-); eauto.
Qed.
(** A connection whose format stays. *)
Lemma put_conn_ok id c c' s :
  sv_open s !! id = Some c -> cn_format c' = cn_format c -> server_ok s -> server_ok (put_conn id c' s).
Proof.
  intros E Ef Hok. apply (server_ok_frame s); [done.. |]. intros i. cbn [put_conn sv_open].
  destruct (decide (i = id)) as [->|]; [by rewrite lookup_insert_eq, E; cbn; rewrite Ef | by rewrite lookup_insert_ne].
Qed.
Lemma harmony_ok h s : server_ok s -> server_ok (mkServer (sv_hub s) h (sv_next s) (sv_open s)).
Proof. intros Hok. by apply (server_ok_frame s). Qed.

Lemma update_format_ok id c format s :
  sv_open s !! id = Some c -> server_ok s -> server_ok (on_hub (update_client_format id format) (put_conn id (put_format format c) s)).
Proof.
  intros Eo [Hu Hf Hp Hl]. destruct (update_format_listed id format _ Hu) as (E & Hother & Hid).
  set (s1 := on_hub _ _). set (l' := entry <$> update_client _ _ _) in *. change (listed s1) with l' in *.
  split; change (listed s1) with l'; rewrite ?E; [done | done | done |]. intros i f. cbn [s1 on_hub put_conn sv_open].
  destruct (decide (i = id)) as [->|Hi].
  - rewrite lookup_insert_eq. assert ((id, format) ∈ l') as Hin by (apply (Hid (cn_format c)), Hl; by exists c).
    split; [| by intros (x & [= <-] & <-)]. intros Hif. eexists. split; [reflexivity |]. cbn.
    apply (nodup_keys l' id); [by rewrite E | done | done].
  - rewrite lookup_insert_ne by done. rewrite <- Hl. split; [| by apply Hother]. intros Hif.
    assert (i ∈ l'.*1) as Hk by (by apply (list_elem_of_fmap_2 fst) in Hif). rewrite E in Hk.
    apply list_elem_of_fmap in Hk as ([i' f'] & Ei & Hif'). cbn in Ei. subst i'.
    pose proof (Hother i f' Hi Hif') as Hin. rewrite (nodup_keys l' i f f'); [done | by rewrite E | done | done].
Qed.

Lemma receive_ok id msg s : server_ok s -> server_ok (receive id msg s).1.
Proof.
  intros Hok. unfold receive. destruct (sv_open s !! id) as [c|] eqn:Eo; [| done].
  destruct (cn_phase c); [| done | done]. destruct (decode msg) as [[[value detected]|e]|]; [| done | by eapply put_conn_ok].
  cbn [fst]. destruct (decide (detected = cn_format c)) as [|Hne]; [done | by apply update_format_ok].
Qed.

Lemma close_ok id s : server_ok s -> server_ok (close id s).
Proof.
  intros Hok. unfold close. destruct (sv_open s !! id) as [c|] eqn:Eo; [| done].
  destruct (cn_phase c); [done | | done]. destruct (none_runs c); [| done]. destruct Hok as [Hu Hf Hp Hl].
  assert (entry <$> hb_clients (remove_client id (sv_hub s)) `sublist_of` listed s) as Hsub
    by apply fmap_sublist, sublist_filter.
  split; unfold listed; cbn [sv_hub sv_open sv_next]; [| | done |].
  - eapply sublist_NoDup; [exact Hu |]. by apply fmap_sublist.
  - apply Forall_forall. intros i Hi. rewrite Forall_forall in Hf. apply Hf. eapply elem_of_sublist; [exact Hi | by apply fmap_sublist].
  - intros i f. assert ((i, f) ∈ entry <$> hb_clients (remove_client id (sv_hub s)) <-> i <> id /\ (i, f) ∈ listed s) as ->.
    { unfold listed. rewrite !list_elem_of_fmap. setoid_rewrite list_elem_of_filter. unfold entry. naive_solver. }
    rewrite Hl. destruct (decide (i = id)) as [->|Hne]; [rewrite lookup_delete_eq; naive_solver | rewrite lookup_delete_ne by done; naive_solver].
Qed.

Lemma accept_ok addr now now' handshake s :
  (sv_next s + 1 < u64_size)%Z -> server_ok s -> server_ok (accept addr now now' handshake s).1.
Proof.
  intros Hn [Hu Hf Hp Hl]. unfold accept. rewrite (u64_add_small (sv_next s) 1) by lia.
  assert (Forall (fun id => id < sv_next s + 1)%Z (listed s).*1) as Hf' by (eapply Forall_impl; [exact Hf | cbn; lia]).
  destruct handshake; [| split; [done | done | cbn; lia | done]].
  assert (sv_next s ∉ (listed s).*1) as Hnew by (intros Hx; rewrite Forall_forall in Hf; specialize (Hf _ Hx); lia).
  split; unfold listed; cbn; rewrite ?fmap_app; cbn.
  - apply NoDup_app. split_and!; [done | | apply NoDup_singleton].
    intros x Hx ->%list_elem_of_singleton. by apply Hnew.
  - apply Forall_app. split; [done |]. constructor; [lia | constructor].
  - lia.
  - intros i f. rewrite elem_of_app, list_elem_of_singleton. fold (listed s). rewrite Hl.
    destruct (decide (i = sv_next s)) as [->|Hne].
    + rewrite lookup_insert_eq. split; [| intros (x & [= <-] & <-); by right].
      intros [(x & Hx & <-) | [= ->]]; [| by eexists]. destruct Hnew.
      apply (list_elem_of_fmap_2 fst _ (sv_next s, cn_format x)). apply Hl. by exists x.
    + rewrite lookup_insert_ne by done. split; [intros [Hx | [= -> _]]; done | by left].
Qed.

Lemma pump_event_ok id event s : server_ok s -> server_ok (pump_event id event s).1.
Proof.
  intros Hok. unfold pump_event. destruct (sv_open s !! id) as [c|] eqn:Eo; [| done]. destruct (cn_events c); [| done].
  assert (server_ok (if is_harmony event then mkServer (sv_hub s) (Some event) (sv_next s) (sv_open s) else s)) as Hok'
    by (destruct (is_harmony event); [by apply harmony_ok | done]).
  destruct (encode event (cn_format c)); [| done]. destruct (cn_sends c); [done |]. cbn [fst].
  eapply (put_conn_ok id c); [by destruct (is_harmony event) | done | done].
Qed.

Lemma ping_ok id now s : server_ok s -> server_ok (ping id now s).1.
Proof.
  intros Hok. unfold ping. destruct (sv_open s !! id) as [c|] eqn:Eo; [| done]. destruct (cn_phase c); [| done | done].
  assert (server_ok (on_hub (update_ping id now) s)) as Hok'.
  { apply (server_ok_frame s); [done | | done | done]. unfold listed. cbn.
    rewrite (update_client_entries id _ (fun p => p)); [| done | apply Hok].
    etrans; [| apply list_fmap_id]. apply list_fmap_ext. intros i p Hp'. destruct (p.1 =? id)%Z; reflexivity. }
  destruct (cn_sends c); [done |]. by eapply (put_conn_ok id c).
Qed.

Lemma server_step_ok s s' : server_step s s' -> server_ok s -> server_ok s'.
Proof.
  intros Hs Hok. destruct Hs as [addr now now' handshake s Hn | id msg s | id event s | id event s | id s | id now s | id ended s | id s | format s].
  - by apply accept_ok.
  - by apply receive_ok.
  - by apply pump_event_ok.
  - unfold pump_metrics. destruct (sv_open s !! id) as [c|] eqn:Eo; [| done]. destruct (cn_metrics c); [| done].
    destruct (encode event (cn_format c)); [| done]. destruct (cn_sends c); [done | by eapply put_conn_ok].
  - unfold send_fails. destruct (sv_open s !! id) eqn:Eo; [by eapply put_conn_ok | done].
  - by apply ping_ok.
  - unfold leave. destruct (sv_open s !! id) as [c|] eqn:Eo; [| done]. destruct (cn_phase c); [| done | done].
    destruct ended; [destruct (all_run c); [done |] |]; by eapply put_conn_ok.
  - by apply close_ok.
  - by apply (server_ok_frame s).
Qed.

Lemma server_run_ok hub s : hb_clients hub = [] -> rtc server_step (Server_new hub) s -> server_ok s.
Proof.
  intros Hh Hrun. assert (server_ok (Server_new hub)) as H0'.
  { split; unfold listed; cbn; rewrite ?Hh; [constructor | constructor | done |]. cbn. intros id format.
    split; [intros []%not_elem_of_nil | intros (c & E & _); by rewrite lookup_empty in E]. }
  induction Hrun as [s | s s1 s2 Hs _ IH]; [done |]. by eapply IH, server_step_ok.
Qed.

(** A connection whose task has panicked is never closed: its client stays on the list for good. *)
Lemma gone_step id s s' : server_step s s' -> server_ok s ->
  (exists c, sv_open s !! id = Some c /\ cn_phase c = Gone) -> exists c, sv_open s' !! id = Some c /\ cn_phase c = Gone.
Proof.
  intros Hs Hok (c & Ec & Hg).
  assert (forall i c' g s0, sv_open s0 = sv_open s -> (i = id -> cn_phase c' = Gone) ->
    exists c, sv_open (on_hub g (put_conn i c' s0)) !! id = Some c /\ cn_phase c = Gone) as Hput.
  { intros i c' g s0 E Hc'. cbn [on_hub put_conn sv_open]. rewrite E. destruct (decide (id = i)) as [->|];
      [rewrite lookup_insert_eq; eauto | rewrite lookup_insert_ne by done; eauto]. }
  assert (forall i c' s0, sv_open s0 = sv_open s -> (i = id -> cn_phase c' = Gone) ->
    exists c, sv_open (put_conn i c' s0) !! id = Some c /\ cn_phase c = Gone) as Hput0.
  { intros i c' s0. exact (Hput i c' (fun h => h) s0). }
  destruct Hs as [addr now now' handshake s Hn | i msg s | i event s | i event s | i s | i now s | i ended s | i s | format s];
    [| | | | | | | | eauto].
  - unfold accept. destruct handshake; [| eauto]. cbn [fst sv_open].
    rewrite lookup_insert_ne; [eauto |]. intros E.
    assert ((id, cn_format c) ∈ listed s) as Hin by (apply (so_listed s Hok); by exists c).
    apply (list_elem_of_fmap_2 fst) in Hin. pose proof (so_fresh s Hok) as Hf. rewrite Forall_forall in Hf.
    specialize (Hf _ Hin). cbn in Hf. lia.
  - unfold receive. destruct (sv_open s !! i) as [ci|] eqn:Ei; [| eauto]. destruct (cn_phase ci) eqn:Ep; [| eauto | eauto].
    destruct (decode msg) as [[[value detected]|e]|]; [| eauto | by apply Hput0].
    cbn [fst]. case_decide; [eauto |]. apply Hput; [done |]. intros ->. congruence.
  - unfold pump_event. destruct (sv_open s !! i) as [ci|] eqn:Ei; [| eauto]. destruct (cn_events ci); [| eauto]. cbv zeta.
    assert (sv_open (if is_harmony event then mkServer (sv_hub s) (Some event) (sv_next s) (sv_open s) else s) = sv_open s)
      as E by by destruct (is_harmony event).
    destruct (encode event _); [| cbn [fst]; rewrite E; eauto]. destruct (cn_sends ci); cbn [fst]; [rewrite E; eauto |].
    apply Hput0; [done |]. intros ->. cbn. congruence.
  - unfold pump_metrics. destruct (sv_open s !! i) as [ci|] eqn:Ei; [| eauto]. destruct (cn_metrics ci); [| eauto].
    destruct (encode event _); [| eauto]. destruct (cn_sends ci); cbn [fst]; [eauto |]. apply Hput0; [done |]. intros ->. cbn. congruence.
  - unfold send_fails. destruct (sv_open s !! i) as [ci|] eqn:Ei; [| eauto]. apply Hput0; [done |]. intros ->. cbn. congruence.
  - unfold ping. destruct (sv_open s !! i) as [ci|] eqn:Ei; [| eauto]. destruct (cn_phase ci) eqn:Ep; [| eauto | eauto].
    destruct (cn_sends ci); cbn [fst]; [eauto |]. apply Hput0; [done |]. intros ->. cbn. congruence.
  - unfold leave. destruct (sv_open s !! i) as [ci|] eqn:Ei; [| eauto]. destruct (cn_phase ci) eqn:Ep; [| eauto | eauto].
    destruct ended; [destruct (all_run ci); [eauto | by apply Hput0] |]. apply Hput0; [done |]. intros ->. cbn. congruence.
  - unfold close. destruct (sv_open s !! i) as [ci|] eqn:Ei; [| eauto]. destruct (cn_phase ci) eqn:Ep; [eauto | | eauto].
    destruct (none_runs ci); [| eauto]. cbn [sv_open]. rewrite lookup_delete_ne; [eauto |]. intros ->. congruence.
Qed.

Lemma gone_stays_listed hub s s' id c :
  hb_clients hub = [] -> rtc server_step (Server_new hub) s -> sv_open s !! id = Some c -> cn_phase c = Gone ->
  rtc server_step s s' -> id ∈ (listed s').*1.
Proof.
  intros Hh Hrun Ec Hg Hrun'. pose proof (server_run_ok hub s Hh Hrun) as Hok. clear Hrun Hh.
  assert (exists c, sv_open s !! id = Some c /\ cn_phase c = Gone) as Hgone by eauto. clear Ec Hg c.
  induction Hrun' as [s | s s1 s2 Hs _ IH].
  - destruct Hgone as (c & Ec & _). apply (list_elem_of_fmap_2 fst _ (id, cn_format c)). apply Hok. by exists c.
  - apply IH; [by eapply server_step_ok | by eapply gone_step].
Qed.

(** C33: A command arrives as it was sent, in either format. In any run of the server take a connection whose
    task reads its frames and whose events are being sent. When its client sends the message of a command,
    the numbers of which fit their types, then exactly this command is passed on: in the text format with
    each float of its payload as the reader rounds it ([ws_reread]), whatever its keys; in the binary format
    unchanged, provided that the key table changes none of the keys of the payload (others arrive renamed).
    From then on the events of this client, and of no other, are written in the format it used, and the hub
    lists the client once, under this format. Nothing else has changed. *)
Theorem ws_command_arrives hub s id format0 metrics c j format msg :
  hb_clients hub = [] -> rtc server_step (Server_new hub) s ->
  sv_open s !! id = Some (mkConn format0 Reading true true metrics) ->
  request c = Some j -> numbers_ok c -> (format = Cbor_ -> payload_ok c) -> encode j format = Some msg ->
  let '(s', command) := receive id msg s in
  command = Some (carried format c) /\
  (forall event, (pump_event id event s').2 = encode event format) /\
  (forall other event, other <> id -> (pump_event other event s').2 = (pump_event other event s).2) /\
  NoDup (listed s').*1 /\ (id, format) ∈ listed s' /\ (listed s').*1 = (listed s).*1 /\
  sv_harmony s' = sv_harmony s /\ sv_next s' = sv_next s.
Proof.
  intros Hh Hrun Ho Hr Hc Hpay He. pose proof (server_run_ok hub s Hh Hrun) as Hok. pose proof (receive_ok id msg s Hok) as Hok'.
  destruct (decode_request c j format msg Hr Hc Hpay He) as (value & Ed & Edis).
  unfold receive in *. rewrite Ho, Ed, Edis in *. cbn [fst cn_phase cn_format put_format cn_sends cn_events cn_metrics] in *.
  split; [done |].
  assert (forall s1, sv_open s1 !! id = Some (mkConn format Reading true true metrics) -> server_ok s1 ->
    (forall event, (pump_event id event s1).2 = encode event format) /\ NoDup (listed s1).*1 /\ (id, format) ∈ listed s1) as Hnow.
  { intros s1 E Hok1. split_and!; [| apply Hok1 | apply Hok1; by eexists].
    intros event. unfold pump_event. rewrite E. cbn. by destruct (encode event format). }
  destruct (decide (format = format0)) as [->|Hne].
  { destruct (Hnow s Ho Hok) as (? & ? & ?). by split_and!. }
  set (s1 := on_hub _ _) in *. destruct (Hnow s1) as (? & ? & ?); [by apply lookup_insert_eq | done |].
  split_and!; try done.
  - intros other event Hother. unfold pump_event, s1. cbn [sv_open on_hub put_conn]. rewrite lookup_insert_ne by done.
    destruct (sv_open s !! other) as [co|]; [| done]. destruct (cn_events co); [| done].
    destruct (encode event _); [| done]. by destruct (cn_sends co).
  - apply (update_format_listed id format _ (so_unique _ Hok)).
Qed.
End carriage.

(** A codec of the queries, for a server that started with text. *)
Definition queries : Cbor cbor := {|
  to_vec := fun v =>
    match v with
    | CMap [(CText k1, CText q); (CText k2, CText cmd)] =>
        if decide (k1 = "q" /\ k2 = "cmd" /\ cmd = "lql") then Ok (as_bytes q) else Err "unsupported"
    | _ => Err "unsupported"
    end;
  from_slice := fun b => Ok (CMap [(CText "q", CText (of_bytes b)); (CText "cmd", CText "lql")])
|}.
Lemma queries_ok : @CborOk cbor queries.
Proof.
  intros a b. destruct a as [| | | | | | | l |]; cbn; try done.
  destruct l as [|[k1 v1] [|[k2 v2] [|]]]; try (by repeat case_match).
  destruct k1; try done. destruct v1; try done. destruct k2; try done. destruct v2; try done. case_decide as E; [| done]. destruct E as (-> & -> & ->).
  intros [= <-]. by rewrite of_as_bytes.
Qed.

(** *** A client that changes its format *)
Section demo.
#[local] Existing Instances FieldCodec.tree_text FieldCodec.tree_text_ok.
#[local] Instance text_env : WsEnv :=
  {| ws_debug _ := ""; ws_to_string j := Ok (json_to_string j);
     ws_from_str text := match json_from_str text with Some j => Ok j | None => Err "no JSON" end |}.
#[local] Instance text_env_ok : WsEnvOk.
Proof. split with reread.
  intros j text E. assert (text = json_to_string j) as -> by (symmetry; exact (f_equal (fun r => match r with Ok t => t | Err t => t end) E)).
  change (match json_from_str (json_to_string j) with Some j => Ok j | None => Err "no JSON" end = Ok (map_floats reread j)).
  by rewrite read_written.
Defined.
#[local] Existing Instances queries queries_ok.

Definition demo_open : Server := (accept "127.0.0.1:9" 5 6 true (Server_new BridgeHub_new)).1.
Definition demo_impulse : IncomingCommand := InImpulse (json_obj [("pattern", JStr "joy"); ("strength", JF64 (f64_div (f64_of_Z 1) (f64_of_Z 2)))]).
Definition demo_lql : IncomingCommand := InLql "SELECT a".

(** An impulse as a text, then a query in the binary format: the hub notes the change. *)
Lemma ws_command_arrives_witness :
  let '(s1, c1) := receive 1 (MText (json_to_string (default JNull (request demo_impulse)))) demo_open in
  let '(s2, c2) := receive 1 (MBinary (as_bytes "SELECT a")) s1 in
  c1 = Some (carried StreamCodec.Json demo_impulse) /\ c2 = Some demo_lql /\
  listed s1 = [(1%Z, StreamCodec.Json)] /\ (1%Z, Cbor_) ∈ listed s2.
Proof.
  pose proof (ws_command_arrives BridgeHub_new demo_open 1 StreamCodec.Json true demo_impulse
    (default JNull (request demo_impulse)) StreamCodec.Json
    (MText (json_to_string (default JNull (request demo_impulse)))) eq_refl) as T1.
  set (m := MText _) in *.
  assert (rtc server_step (Server_new BridgeHub_new) demo_open) as Hrun by (apply rtc_once; by constructor).
  destruct (receive 1 m demo_open) as [s1 c1] eqn:E1.
  destruct T1 as (Hc1 & _); [exact Hrun | by vm_compute | reflexivity | done | done | reflexivity |].
  assert (s1 = demo_open) as -> by (by vm_compute in E1; injection E1 as <- _).
  pose proof (ws_command_arrives BridgeHub_new demo_open 1 StreamCodec.Json true demo_lql
    (cmd_json "lql" [("q", JStr "SELECT a")]) Cbor_ (MBinary (as_bytes "SELECT a")) eq_refl Hrun) as T2.
  destruct (receive 1 (MBinary (as_bytes "SELECT a")) demo_open) as [s2 c2].
  destruct T2 as (Hc2 & _ & _ & _ & Hl & _); [by vm_compute | reflexivity | done | done | by vm_compute |].
  split_and!; [exact Hc1 | exact Hc2 | by vm_compute | exact Hl].
Defined.
End demo.
