(* ===== verification/Echo.v ===== *)
(** * Intents ([liminal-core/src/echo.rs], [nlu.rs])

    A text of a user is read as an intent, and an intent is carried out on the field and answered with an event.
    The regular expressions are those of the source; the engine that matches them is a parameter. An intent
    that is refused changes nothing, and what the others do survives a crash ([echo_exact]); a text never panics
    the reader, and what it asks for is never refused ([intent_text_served]). *)

From stdpp Require Import prelude gmap strings fin_maps list sorting.
From Stdlib Require Import ZArith Lia SpecFloat.
From S2P Require Import Prelude RustStr RustOrd Float RustText Crypto Json NodeCell Trs Seeds Symmetry FieldTypes Feedback Variant Resonant Journal Collections Field FieldOps FieldRoute FieldTick FieldInv FieldReplay FieldSteps FieldSound FieldDream FieldAwaken FieldLql FieldCycles FieldProps LifeLoop StoreFiles Snapshot Database DatabaseProps.
From S2P Require Lql BridgeEvents.

(** ** Data *)
Inductive IntentKind : Type :=
| Boost | Deprioritize | SnapshotRequest | DreamNow | SyncNow | AwakenNow | SetTarget | Query_ | Explain | Ask
| Plant | AbortSeed | GardenStatus | ReflexOn | ReflexOff | ReflexTuned (cfg : Lql.ReflexCfg) | ReflexStatus.

Record Intent : Type := mkIntent {
  it_id : Z;
  it_ts : Z;
  it_ns : string;
  it_kind : IntentKind;
  it_target : string;
  it_args : gmap string json;
  it_affect : f32
}.
Record EchoEvent : Type := mkEchoEvent {
  ee_ev : string;
  ee_meta : json
}.

Record IntentsRing : Type := mkRing {
  ir_capacity : Z;
  ir_buffer : list Intent
}.
Definition IntentsRing_default : IntentsRing := mkRing 32 [].
Definition with_capacity (capacity : Z) : IntentsRing := mkRing (Z.max capacity 1) [].
Definition ring_push (intent : Intent) (r : IntentsRing) : IntentsRing :=
  let buffer := if (Z.of_nat (length (ir_buffer r)) =? ir_capacity r)%Z then tail (ir_buffer r) else ir_buffer r in
  mkRing (ir_capacity r) (buffer ++ [intent]).

Record EchoState : Type := mkEchoState {
  last_intents : IntentsRing;
  mood : f32;
  questions : list string
}.
Definition EchoState_default : EchoState := mkEchoState IntentsRing_default f0 [].

(** The [Debug] text of the configuration of the reflex loop. *)
Class EchoText : Type := { reflex_cfg_debug : Lql.ReflexCfg -> string }.

(** ** Carrying out *)
Definition IntentKind_debug `{EchoText} (k : IntentKind) : string :=
  match k with
  | Boost => "Boost" | Deprioritize => "Deprioritize" | SnapshotRequest => "Snapshot" | DreamNow => "DreamNow"
  | SyncNow => "SyncNow" | AwakenNow => "AwakenNow" | SetTarget => "SetTarget" | Query_ => "Query" | Explain => "Explain"
  | Ask => "Ask" | Plant => "Plant" | AbortSeed => "Abort" | GardenStatus => "GardenStatus" | ReflexOn => "ReflexOn"
  | ReflexOff => "ReflexOff" | ReflexTuned cfg => "ReflexTune { cfg: " +:+ reflex_cfg_debug cfg +:+ " }"
  | ReflexStatus => "ReflexStatus"
  end.

Definition seed_json (s : Seed) : json :=
  json_obj [("id", JU64 (sd_id s)); ("ts_planted", JU64 (ts_planted s)); ("kind", JStr (SeedKind_as_str (sd_kind s)));
            ("target", JStr (sd_target s)); ("args", JObj (sd_args s)); ("stage", JStr (SeedStage_as_str (sd_stage s)));
            ("ttl_ms", JU64 (ttl_ms s)); ("vitality", json_f32 (vitality s)); ("mutation", json_f32 (mutation s));
            ("yield_score", json_f32 (yield_score s)); ("last_tick_ms", JU64 (sd_last_tick_ms s)); ("ns", JStr (sd_ns s))].
Definition seed_log_json (l : SeedLog) : json :=
  json_obj [("id", JU64 (Seeds.sl_id l)); ("stage", JStr (SeedStage_as_str (sl_stage l))); ("vitality", json_f32 (sl_vitality l));
            ("yield_score", json_f32 (sl_yield l))].
(** A number is written as a text where it is a key. *)
Definition garden_json (g : SeedGarden) : json :=
  json_obj [("seeds", JObj (list_to_map ((fun p => (fmt_nat p.1, seed_json p.2)) <$> map_to_list (seeds g))));
            ("next_id", JU64 (sg_next_id g)); ("recent", JArr (map seed_log_json (recent g)))].

Section route.
Context `{UnicodeCase, SeedRng, FloatMath, EchoText}.

(** The word for the kind of a seed: the argument, or the target when there is one. *)
Definition seed_word (intent : Intent) : option string :=
  match it_args intent !! "kind" ≫= as_str with
  | Some word => Some word
  | None => if decide (it_target intent = "") then None else Some (it_target intent)
  end.
Definition seed_target (intent : Intent) : string := default (it_target intent) (it_args intent !! "target" ≫= as_str).

Definition handle_seed_plant (intent : Intent) (f : ClusterField) : ClusterField * result (Z * Seed) string :=
  let r :=
    let! kind_str := ok_or (seed_word intent) "missing seed kind" in
    let! seed_kind := map_err (fun e => "invalid seed kind: " +:+ e) (SeedKind_from_str kind_str) in
    let target := seed_target intent in
    if decide (target = "") then Err "missing seed target"
    else
      let ttl := Z.min (default 60000%Z (it_args intent !! "ttl_ms" ≫= as_u64)) u32_max in
      let args := match it_args intent !! "args" with Some (JObj m) => m | _ => ∅ end in
      Ok (Seed_new seed_kind target args ttl (it_ns intent) (now_ms f)) in
  match r with
  | Err e => (f, Err e)
  | Ok seed => let '(garden, id) := plant seed (seed_garden f) in (set_seed_garden garden f, Ok (id, seed))
  end.

Definition seed_id (intent : Intent) : option Z :=
  match it_args intent !! "id" ≫= as_u64 with
  | Some id => Some id
  | None => parse_u64 (as_bytes (it_target intent))
  end.

(** The load to aim at: the argument, or the target. *)
Definition load_of (intent : Intent) : option f32 :=
  match it_args intent !! "load" ≫= as_f64 with
  | Some x => Some (f32_of_f64 x)
  | None => parse_f32 (it_target intent)
  end.
Definition aim (value : f32) (f : ClusterField) : ClusterField := set_trs (set_target value (trs (control f))) f.
Definition tune (cfg : Lql.ReflexCfg) (f : ClusterField) : ClusterField :=
  set_reflex_feedback (rx_set_cfg cfg (reflex_feedback (control f))) f.

(** The field, whether it worked, the note, and what else the answer says. *)
Definition perform (o : HashOrder) (took : Z) (intent : Intent) (f : ClusterField)
  : ClusterField * (bool * string * list (string * json)) :=
  match it_kind intent with
  | Boost => (f, (true, "boosted " +:+ it_target intent, []))
  | Deprioritize => (f, (true, "deprioritized " +:+ it_target intent, []))
  | SnapshotRequest => (f, (true, "snapshot requested: " +:+ it_target intent, []))
  | DreamNow =>
      let '(f, report) := run_dream_cycle o took f in
      (f, (true,
           match report with
           | Some report => "dream adjustments s:" +:+ fmt_nat (dr_strengthened report) +:+ " w:" +:+ fmt_nat (dr_weakened report)
           | None => "dream skipped"
           end, []))
  | SyncNow => (f, (true, "sync scheduled", []))
  | AwakenNow =>
      let '(f, report) := awaken_now o f in
      (f, (true, "awaken applied " +:+ fmt_nat (aw_applied report) +:+ " protected " +:+ fmt_nat (aw_protected report), []))
  | SetTarget =>
      match load_of intent with
      | Some value =>
          let f := aim value f in
          (f, (true, "target load set to " +:+ fmt_fixed 2 (t_target_load (trs (control f))), []))
      | None => (f, (true, "missing load argument", []))
      end
  | Query_ => (f, (true, "status requested", []))
  | Explain => (f, (true, "explain " +:+ it_target intent, []))
  | Ask => (f, (true, "question noted", []))
  | Plant =>
      match handle_seed_plant intent f with
      | (f, Ok (id, seed)) => (f, (true, "seed planted id=" +:+ fmt_nat id, [("seed_id", JU64 id); ("seed", seed_json seed)]))
      | (f, Err e) => (f, (false, e, []))
      end
  | AbortSeed =>
      match seed_id intent with
      | Some id =>
          match abort_seed id (seed_garden f) with
          | (garden, Some seed) =>
              (set_seed_garden garden f,
               (true, "seed " +:+ fmt_nat id +:+ " aborted stage=" +:+ SeedStage_as_str (sd_stage seed), [("seed", seed_json seed)]))
          | (_, None) => (f, (false, "seed " +:+ fmt_nat id +:+ " not found", []))
          end
      | None => (f, (false, "missing seed id", []))
      end
  | GardenStatus =>
      (f, (true, "garden has " +:+ fmt_nat (Z.of_nat (size (seeds (seed_garden f)))) +:+ " seeds",
           [("garden", garden_json (seed_garden f))]))
  | ReflexOn =>
      (set_reflex_enabled true f, (true, "reflex enabled (win=" +:+ fmt_nat (Lql.win_ms (reflex_cfg f)) +:+ "ms)", []))
  | ReflexOff => (set_reflex_enabled false f, (true, "reflex disabled", []))
  | ReflexStatus =>
      (f, match reflex_last_report f with
          | Some report =>
              (true, "reflex last signal " +:+ ReflexSignal_debug (rp_sig report),
               [("cfg", reflex_cfg_json (reflex_cfg f)); ("last_report", report_json report)])
          | None => (true, "reflex idle", [("cfg", reflex_cfg_json (reflex_cfg f))])
          end)
  | ReflexTuned cfg =>
      (tune cfg f,
       (true, "reflex tuned win=" +:+ fmt_nat (Lql.win_ms cfg) +:+ "ms eps=" +:+ fmt_fixed 3 (Lql.eps cfg)
              +:+ " step=" +:+ fmt_fixed 2 (Lql.pivot_step cfg), [("cfg", reflex_cfg_json cfg)]))
  end.

Definition route_intent (o : HashOrder) (took : Z) (intent : Intent) (f : ClusterField) : ClusterField * EchoEvent :=
  let '(f, (ok, note, extra)) := perform o took intent f in
  (f, mkEchoEvent "echo"
        (json_obj ([("ok", JBool ok); ("kind", JStr (IntentKind_debug (it_kind intent))); ("note", JStr note)] ++ extra))).
End route.

(** ** Reading *)
Definition BOOST_RE : string := "^(?i)(boost|усиль)\s+(?P<token>.+)$".
Definition DEPRIORITIZE_RE : string := "^(?i)(deprioritize|понизь)\s+(?P<token>.+)$".
Definition SNAPSHOT_RE : string := "^(?i)(snapshot|снимок)\s+(?P<token>.+)$".
Definition SET_TARGET_RE : string := "^(?i)(set\s+target|установи\s+цель)\s+(?P<value>0\.[0-9]+|1\.0)$".
Definition EXPLAIN_RE : string := "^(?i)(explain|объясни)\s+(?P<token>.+)$".
Definition DREAM_NOW_RE : string := "^(?i)(dream\s+now|сон\s+сейчас)$".
Definition SYNC_NOW_RE : string := "^(?i)(sync\s+now|синхронизируй\s+сейчас)$".
Definition AWAKEN_NOW_RE : string := "^(?i)(awaken\s+now|пробуди\s+сейчас)$".
Definition HOW_ARE_YOU_RE : string := "^(?i)(how\s+are\s+you\??|как\s+ты\??)$".

(** [Regex::captures]: the groups of a match, by name; and [f32::to_string]. *)
Class RegexEngine : Type := {
  captures : string -> string -> option (gmap string string);
  f32_display : f32 -> string
}.
(** The texts of a group are those its part of the expression matches. *)
Class RegexOk `{RegexEngine} : Prop := {
  group_token re text groups : re ∈ [BOOST_RE; DEPRIORITIZE_RE; SNAPSHOT_RE; EXPLAIN_RE] ->
    captures re text = Some groups -> is_Some (groups !! "token");
  group_value text groups : captures SET_TARGET_RE text = Some groups ->
    exists value, groups !! "value" = Some value /\
      (value = "1.0" \/ exists digits, digits <> [] /\ Forall is_digit digits /\ value = "0." +:+ of_bytes digits)
}.

Inductive NluError : Type := Unrecognized.

Section parse.
Context `{RegexEngine}.

Definition is_match (re text : string) : bool := match captures re text with Some _ => true | None => false end.
Definition plain_intent (ns : string) (id ts : Z) (kind : IntentKind) (target : string) : Intent :=
  mkIntent id ts ns kind target ∅ f0.
(** The word of an expression with one; [None] is the panic of [unwrap]. *)
Definition token_intent (ns : string) (id ts : Z) (kind : IntentKind) (groups : gmap string string)
  : option (result Intent NluError) :=
  token ← groups !! "token"; Some (Ok (plain_intent ns id ts kind (trim token))).

Definition parse_intent_text (ns : string) (id ts : Z) (text : string) : option (result Intent NluError) :=
  let normalized := trim text in
  let plain (kind : IntentKind) := Some (Ok (plain_intent ns id ts kind "")) in
  if decide (normalized = "") then Some (Err Unrecognized)
  else
    match captures BOOST_RE normalized with
    | Some groups => token_intent ns id ts Boost groups
    | None =>
    match captures DEPRIORITIZE_RE normalized with
    | Some groups => token_intent ns id ts Deprioritize groups
    | None =>
    match captures SNAPSHOT_RE normalized with
    | Some groups => token_intent ns id ts SnapshotRequest groups
    | None =>
    if is_match DREAM_NOW_RE normalized then plain DreamNow
    else if is_match SYNC_NOW_RE normalized then plain SyncNow
    else if is_match AWAKEN_NOW_RE normalized then plain AwakenNow
    else
    match captures SET_TARGET_RE normalized with
    | Some groups =>
        text ← groups !! "value"; value ← parse_f32 text;
        Some (Ok (mkIntent id ts ns SetTarget (f32_display value) {["load" := json_f32 value]} f0))
    | None =>
    match captures EXPLAIN_RE normalized with
    | Some groups => token_intent ns id ts Explain groups
    | None => if is_match HOW_ARE_YOU_RE normalized then plain Ask else Some (Err Unrecognized)
    end end end end end.
End parse.

(** ** What an intent does *)
Section exact.
Context `{UnicodeCase, !CaseStable, SeedRng, FloatMath, EchoText}.

(** The intents that can be carried out: a seed needs a kind and a target, and one that is aborted must be there. *)
Definition possible (intent : Intent) (f : ClusterField) : Prop :=
  match it_kind intent with
  | Plant => (exists kind, seed_word intent = Some (SeedKind_as_str kind)) /\ seed_target intent <> ""
  | AbortSeed => exists id, seed_id intent = Some id /\ is_Some (seeds (seed_garden f) !! id)
  | _ => True
  end.
(** What a possible intent does to the garden. *)
Definition seed_args (intent : Intent) : gmap string json :=
  match it_args intent !! "args" with Some (JObj m) => m | _ => ∅ end.
Definition seed_ttl (intent : Intent) : Z := Z.min (default 60000%Z (it_args intent !! "ttl_ms" ≫= as_u64)) u32_max.
Definition garden_ops (intent : Intent) (f : ClusterField) : list garden_op :=
  match it_kind intent with
  | Plant =>
      match SeedKind_from_str (default "" (seed_word intent)) with
      | Ok kind => [GPlant kind (seed_target intent) (seed_args intent) (seed_ttl intent) (it_ns intent) (now_ms f)]
      | Err _ => []
      end
  | AbortSeed => GAbort <$> option_list (seed_id intent)
  | _ => []
  end.
(** What it does to the rest of the field. *)
Definition field_part (o : HashOrder) (took : Z) (intent : Intent) (f : ClusterField) : ClusterField :=
  match it_kind intent with
  | DreamNow => field_apply o (FDream took) f
  | AwakenNow => field_apply o FAwakenNow f
  | SetTarget => match load_of intent with Some value => aim value f | None => f end
  | ReflexOn => field_apply o (FReflexEnabled true) f
  | ReflexOff => field_apply o (FReflexEnabled false) f
  | ReflexTuned cfg => field_apply o (FQuery (Lql.ReflexTune cfg)) f
  | _ => f
  end.
Definition on_garden (ops : list garden_op) (f : ClusterField) : ClusterField :=
  set_seed_garden (garden_run ops (seed_garden f)) f.

Lemma kind_from_str word kind : SeedKind_from_str word = Ok kind <-> word = SeedKind_as_str kind.
Proof.
  unfold SeedKind_from_str. split.
  - repeat (case_decide; [by intros [= <-] |]). done.
  - intros ->. by destruct kind.
Qed.

Lemma no_garden_op f : on_garden [] f = f. Proof. by destruct f. Qed.

Lemma plant_exact intent f : it_kind intent = Plant ->
  (possible intent f /\ exists kind,
     let seed := Seed_new kind (seed_target intent) (seed_args intent) (seed_ttl intent) (it_ns intent) (now_ms f) in
     handle_seed_plant intent f = (on_garden (garden_ops intent f) f, Ok (sg_next_id (seed_garden f), seed))) \/
  (~ possible intent f /\ exists e, handle_seed_plant intent f = (f, Err e)).
Proof.
  intros Ek. unfold possible, garden_ops, handle_seed_plant. rewrite Ek.
  destruct (seed_word intent) as [word|] eqn:Ew; cbn [ok_or rbind default from_option]; [| right; split; [| by eexists]].
  2: { intros [(kind & E) _]. congruence. }
  destruct (SeedKind_from_str word) as [kind|] eqn:Es; cbn [map_err rbind].
  - apply kind_from_str in Es as ->. case_decide as Et.
    + right. split; [by intros [_ Hn] | by eexists].
    + left. split; [split; [by exists kind | done] |]. exists kind. cbn [default from_option id].
      by rewrite (proj2 (kind_from_str _ kind) eq_refl).
  - right. split; [| by eexists]. intros [(kind & [= ->]) _]. by rewrite (proj2 (kind_from_str _ kind) eq_refl) in Es.
Qed.

(** The garden and the tempo are no part of what the journal tells. *)
Lemma told_garden f g v : told f g -> told f (set_seed_garden v g).
Proof. intros [Hw [ds Hds]]. split; [exact Hw | exists ds; exact Hds]. Qed.
Lemma told_aim f value : field_wf f -> told f (aim value (attached f)).
Proof. intros Hw. destruct (told_attached f Hw) as [Hw' [ds Hds]]. split; [exact Hw' | exists ds; exact Hds]. Qed.

Lemma field_part_told o took intent f : field_wf f -> told f (field_part o took intent (attached f)).
Proof.
  intros Hw. unfold field_part. destruct (it_kind intent); try (by apply told_attached); try (by apply told_op).
  destruct (load_of intent); [by apply told_aim | by apply told_attached].
Qed.

Lemma tune_query o cfg f : tune cfg f = field_apply o (FQuery (Lql.ReflexTune cfg)) f.
Proof. done. Qed.

(** What [perform] does, and whether it says so. *)
Lemma perform_exact o took intent f :
  let '(f', (ok, note, extra)) := perform o took intent f in
  (possible intent f /\ ok = true /\ f' = on_garden (garden_ops intent f) (field_part o took intent f)) \/
  (~ possible intent f /\ ok = false /\ f' = f).
Proof.
  unfold perform. destruct (it_kind intent) as [| | | | | | | | | | | | | | | cfg |] eqn:Ek;
    try (left; unfold possible, garden_ops, field_part; rewrite Ek, no_garden_op; done).
  - unfold possible, garden_ops, field_part. rewrite Ek. cbn [field_apply].
    destruct (run_dream_cycle o took f) as [f1 r]. left. by rewrite no_garden_op.
  - unfold possible, garden_ops, field_part. rewrite Ek. cbn [field_apply].
    destruct (awaken_now o f) as [f1 r]. left. by rewrite no_garden_op.
  - unfold possible, garden_ops, field_part. rewrite Ek. destruct (load_of intent); left; by rewrite no_garden_op.
  - destruct (plant_exact intent f Ek) as [(Hp & kind & ->) | (Hp & e & ->)]; [left | right; done].
    split_and!; [done | done |]. unfold field_part. by rewrite Ek.
  - unfold possible, garden_ops, field_part. rewrite Ek. destruct (seed_id intent) as [id|] eqn:Ei.
    + unfold on_garden.
      change (garden_run (GAbort <$> option_list (Some id)) (seed_garden f)) with (fst (abort_seed id (seed_garden f))).
      destruct (seeds (seed_garden f) !! id) as [seed|] eqn:Es.
      * destruct (abort_seed id (seed_garden f)) as [g [s|]] eqn:Ea; unfold abort_seed in Ea; rewrite Es in Ea; [| done].
        left. split_and!; [exists id; by rewrite Es | done | done].
      * destruct (abort_seed id (seed_garden f)) as [g [s|]] eqn:Ea; unfold abort_seed in Ea; rewrite Es in Ea; [done |].
        right. split_and!; [| done | done]. intros (id' & [= <-] & [s Hs]). congruence.
    + cbn beta iota. right. split_and!; [by intros (id & [=] & _) | done | done].
  - unfold possible, garden_ops, field_part. rewrite Ek. destruct (reflex_last_report f); left; by rewrite no_garden_op.
Qed.

(** The members of the answer; what is added hides none of them. *)
Lemma jget_app key l extra : key ∉ extra.*1 -> jget key (json_obj (l ++ extra)) = jget key (json_obj l).
Proof.
  unfold json_obj. rewrite fold_left_app. generalize (fold_left (fun m p => <[p.1 := p.2]> m) l (∅ : gmap string json)).
  induction extra as [|[k v] extra IH]; intros m Hk; [done |]. cbn in Hk |- *. apply not_elem_of_cons in Hk as [Hne Hk].
  specialize (IH (<[k := v]> m) Hk). cbn in IH. rewrite IH. by apply lookup_insert_ne.
Qed.

Lemma extra_keys o took intent f : Forall (.∈ ["seed_id"; "seed"; "garden"; "cfg"; "last_report"]) (perform o took intent f).2.2.*1.
Proof.
  unfold perform. destruct (it_kind intent);
    repeat match goal with |- context [match ?x with _ => _ end] => destruct x end;
    repeat (apply Forall_cons; split; [cbn; set_solver |]); by apply Forall_nil.
Qed.

Definition answered (e : EchoEvent) (ok : bool) (kind : IntentKind) : Prop :=
  ee_ev e = "echo" /\ jget "ok" (ee_meta e) = Some (JBool ok) /\ jget "kind" (ee_meta e) = Some (JStr (IntentKind_debug kind)) /\
  exists note, jget "note" (ee_meta e) = Some (JStr note).

Lemma route_answers o took intent f :
  let '(f', (ok, note, extra)) := perform o took intent f in
  exists e, route_intent o took intent f = (f', e) /\ answered e ok (it_kind intent).
Proof.
  pose proof (extra_keys o took intent f) as Hk. unfold route_intent.
  destruct (perform o took intent f) as [f' [[ok note] extra]]. cbn [snd] in Hk. rewrite Forall_forall in Hk.
  eexists. split; [reflexivity |]. unfold answered. cbn [ee_ev ee_meta].
  rewrite !jget_app by (intros Hin; apply Hk in Hin; cbn in Hin; set_solver). split_and!; [done | done | done | by exists note].
Qed.

(** C37: An intent is carried out or refused as a whole. It is refused when it would plant a seed without a known
    kind or a target, or abort one that is not there: then the answer says so and the field is as it was. Any
    other is carried out, and the answer says so: what it does to the garden is one planting or one abort, what
    it does elsewhere is one operation of the field or the new target, and in either case what the
    journal tells leads to the durable part of the new field. *)
Theorem echo_exact o took intent f :
  field_wf f ->
  let '(f', e) := route_intent o took intent (attached f) in
  told f f' /\
  (possible intent f -> answered e true (it_kind intent) /\
     f' = on_garden (garden_ops intent f) (field_part o took intent (attached f))) /\
  (~ possible intent f -> answered e false (it_kind intent) /\ f' = attached f).
Proof.
  intros Hw. pose proof (perform_exact o took intent (attached f)) as Hp. pose proof (route_answers o took intent (attached f)) as Ha.
  destruct (perform o took intent (attached f)) as [f' [[ok note] extra]]. destruct Ha as (e & -> & Ha).
  destruct Hp as [(Hp & -> & ->) | (Hp & -> & ->)].
  - split_and!; [apply told_garden, field_part_told; exact Hw | done | done].
  - split_and!; [by apply told_attached | done | done].
Qed.
End exact.

(** ** What a text does *)
Section served.
Context `{UnicodeCase, !CaseStable, SeedRng, FloatMath, EchoText, RegexEngine, !RegexOk}.

(** What is read as a load is a number. *)
Lemma value_parses value :
  value = "1.0" \/ (exists digits, digits <> [] /\ Forall is_digit digits /\ value = "0." +:+ of_bytes digits) ->
  is_Some (parse_f32 value).
Proof.
  intros [-> | (digits & Hne & Hd & ->)]; [eexists; by vm_compute |].
  unfold parse_f32, parse_float. rewrite as_bytes_app, as_of_bytes.
  change (as_bytes "0." ++ digits) with ([Byte.x30] ++ Byte.x2e :: digits). cbn [sign_of app].
  unfold parse_number. destruct (BridgeEvents.digits_run_spec [Byte.x30] 0 0 (Byte.x2e :: digits)) as [v E]; [by constructor | done |].
  cbn [app] in E. rewrite E. destruct (BridgeEvents.digits_run_spec digits v 0 [] Hd I) as [v' Ef].
  rewrite app_nil_r in Ef. rewrite Ef. cbn [parse_exponent].
  destruct (Z.eqb_spec (0 + Z.of_nat (length [Byte.x30]) + (0 + Z.of_nat (length digits))) 0) as [E' |]; [cbn in E'; lia | by eexists].
Qed.

Definition expressions : list string :=
  [BOOST_RE; DEPRIORITIZE_RE; SNAPSHOT_RE; DREAM_NOW_RE; SYNC_NOW_RE; AWAKEN_NOW_RE; SET_TARGET_RE; EXPLAIN_RE; HOW_ARE_YOU_RE].
Definition understood (text : string) : Prop := trim text <> "" /\ exists re, re ∈ expressions /\ is_Some (captures re (trim text)).

(** The intents a text is read as. *)
Definition spoken (intent : Intent) : Prop :=
  match it_kind intent with
  | Boost | Deprioritize | SnapshotRequest | Explain => it_args intent = ∅
  | DreamNow | SyncNow | AwakenNow | Ask => it_args intent = ∅ /\ it_target intent = ""
  | SetTarget => exists value, it_args intent = {["load" := json_f32 value]} /\ it_target intent = f32_display value
  | _ => False
  end.

(** A member of a list of names. *)
Ltac listed := first [apply list_elem_of_here | apply list_elem_of_further; listed].

Lemma parse_exact ns id ts text :
  exists r, parse_intent_text ns id ts text = Some r /\
  match r with
  | Ok intent => understood text /\ spoken intent /\ it_id intent = id /\ it_ts intent = ts /\ it_ns intent = ns /\ it_affect intent = f0
  | Err _ => ~ understood text
  end.
Proof.
  unfold parse_intent_text, understood. set (t := trim text). case_decide as Et; [eexists; split; [reflexivity | by intros [? _]] |].
  assert (forall re groups, re ∈ expressions -> captures re t = Some groups ->
    t <> "" /\ exists re, re ∈ expressions /\ is_Some (captures re t)) as Hu by (intros re groups Hin E; split; [done | exists re; by rewrite E]).
  assert (forall re kind groups, re ∈ [BOOST_RE; DEPRIORITIZE_RE; SNAPSHOT_RE; EXPLAIN_RE] -> captures re t = Some groups ->
    exists token, token_intent ns id ts kind groups = Some (Ok (plain_intent ns id ts kind token))) as Ht.
  { intros re kind groups Hin E. destruct (group_token re t groups Hin E) as [token Htok]. unfold token_intent. rewrite Htok. by eexists. }
  unfold is_match.
  destruct (captures BOOST_RE t) as [g|] eqn:E1.
  { destruct (Ht BOOST_RE Boost g ltac:(listed) E1) as [token ->]. eexists. split; [reflexivity |]. split; [apply (Hu BOOST_RE g); [listed | done] | done]. }
  destruct (captures DEPRIORITIZE_RE t) as [g|] eqn:E2.
  { destruct (Ht DEPRIORITIZE_RE Deprioritize g ltac:(listed) E2) as [token ->]. eexists. split; [reflexivity |]. split; [apply (Hu DEPRIORITIZE_RE g); [listed | done] | done]. }
  destruct (captures SNAPSHOT_RE t) as [g|] eqn:E3.
  { destruct (Ht SNAPSHOT_RE SnapshotRequest g ltac:(listed) E3) as [token ->]. eexists. split; [reflexivity |]. split; [apply (Hu SNAPSHOT_RE g); [listed | done] | done]. }
  destruct (captures DREAM_NOW_RE t) as [g|] eqn:E4.
  { eexists. split; [reflexivity |]. split; [apply (Hu DREAM_NOW_RE g); [listed | done] | done]. }
  destruct (captures SYNC_NOW_RE t) as [g|] eqn:E5.
  { eexists. split; [reflexivity |]. split; [apply (Hu SYNC_NOW_RE g); [listed | done] | done]. }
  destruct (captures AWAKEN_NOW_RE t) as [g|] eqn:E6.
  { eexists. split; [reflexivity |]. split; [apply (Hu AWAKEN_NOW_RE g); [listed | done] | done]. }
  destruct (captures SET_TARGET_RE t) as [g|] eqn:E7.
  { destruct (group_value t g E7) as (value & Hv & Hf). rewrite Hv. cbn [mbind option_bind].
    destruct (value_parses value Hf) as [x Hx]. rewrite Hx. eexists. split; [reflexivity |].
    split; [apply (Hu SET_TARGET_RE g); [listed | done] |]. split; [by exists x | done]. }
  destruct (captures EXPLAIN_RE t) as [g|] eqn:E8.
  { destruct (Ht EXPLAIN_RE Explain g ltac:(listed) E8) as [token ->]. eexists. split; [reflexivity |]. split; [apply (Hu EXPLAIN_RE g); [listed | done] | done]. }
  destruct (captures HOW_ARE_YOU_RE t) as [g|] eqn:E9.
  { eexists. split; [reflexivity |]. split; [apply (Hu HOW_ARE_YOU_RE g); [listed | done] | done]. }
  eexists. split; [reflexivity |]. intros (_ & re & Hin & [g Hg]). unfold expressions in Hin.
  repeat (apply elem_of_cons in Hin as [-> | Hin]; [congruence |]). by apply not_elem_of_nil in Hin.
Qed.

(** A text is served. Reading a text never panics, and it is refused exactly when it matches none of the
    expressions. What is read carries the identity it was given, and carrying it out on any field is answered with
    success: the cells change only in a dream or an awakening, and a load that is a number becomes the
    target, within the unit interval. *)
Theorem intent_text_served ns id ts text o took f :
  exists r, parse_intent_text ns id ts text = Some r /\
  match r with
  | Err _ => ~ understood text
  | Ok intent =>
      understood text /\ it_id intent = id /\ it_ts intent = ts /\ it_ns intent = ns /\
      let '(f', e) := route_intent o took intent f in
      answered e true (it_kind intent) /\
      (it_kind intent <> DreamNow -> it_kind intent <> AwakenNow -> graph f' = graph f /\ journal f' = journal f) /\
      (forall x, it_kind intent = SetTarget -> it_args intent !! "load" ≫= as_f64 = Some x ->
         t_target_load (trs (control f')) = f32_clamp (f32_of_f64 x) f0 f1)
  end.
Proof.
  destruct (parse_exact ns id ts text) as (r & -> & Hr). exists r. split; [done |]. destruct r as [intent|]; [| done].
  destruct Hr as (Hu & Hs & Hi & Ht & Hn & _). split_and!; [done.. |].
  pose proof (perform_exact o took intent f) as Hp. pose proof (route_answers o took intent f) as Ha.
  destruct (perform o took intent f) as [f' [[ok note] extra]]. destruct Ha as (e & -> & Ha).
  assert (possible intent f) as Hpos by (unfold spoken, possible in *; by destruct (it_kind intent)).
  destruct Hp as [(_ & -> & ->) | (Hn' & _)]; [| done]. split; [done |].
  assert (garden_ops intent f = []) as -> by (unfold spoken, garden_ops in *; by destruct (it_kind intent)). rewrite no_garden_op.
  unfold spoken in Hs. unfold field_part. destruct (it_kind intent); try done; (split; [try done | try done]).
  - by destruct (load_of intent).
  - intros x _ Hx. unfold load_of. by rewrite Hx.
Qed.
End served.

(** ** A field that is spoken to *)
Section demo.
#[local] Existing Instances ascii_case ascii_case_stable.
#[local] Instance demo_rng : SeedRng := fun _ => (lit 5 10, lit 9 10, 7%Z).
#[local] Instance demo_math : FloatMath := {| f32_ln x := x; f32_exp x := x |}.
#[local] Instance demo_text : EchoText := {| reflex_cfg_debug _ := "ReflexCfg" |}.

(** An engine that knows the English words, with one blank between them. *)
Definition after_word (word text : string) : option (gmap string string) :=
  (fun rest => {["token" := rest]}) <$> strip_prefix_str (word +:+ " ") text.
Definition load_value (text : string) : option (gmap string string) :=
  value ← strip_prefix_str "set target " text;
  if decide (value = "1.0") then Some {["value" := value]}
  else
    digits ← strip_prefix_str "0." value;
    if negb (bool_decide (as_bytes digits = [])) && forallb (in_range 48 57) (as_bytes digits) then Some {["value" := value]}
    else None.
#[local] Instance demo_engine : RegexEngine :=
  {| captures re text :=
       if decide (re = BOOST_RE) then after_word "boost" text
       else if decide (re = EXPLAIN_RE) then after_word "explain" text
       else if decide (re = SET_TARGET_RE) then load_value text
       else if decide (re = DREAM_NOW_RE) then if decide (text = "dream now") then Some ∅ else None
       else None;
     f32_display x := fmt_fixed 2 x |}.
Lemma demo_engine_ok : RegexOk.
Proof.
  split.
  - intros re text groups Hin. cbn [captures demo_engine]. case_decide; [| case_decide; [| repeat (case_decide; [subst; vm_compute in Hin; set_solver |]); done]].
    all: unfold after_word; destruct (strip_prefix_str _ _); [| done]; intros [= <-]; exists s; apply lookup_singleton_eq.
  - intros text groups. cbn [captures demo_engine]. rewrite !decide_False by (by vm_compute). rewrite decide_True by done.
    unfold load_value. destruct (strip_prefix_str "set target " text) as [value|]; [| done]. cbn [mbind option_bind].
    case_decide as E; [intros [= <-]; exists value; split; [apply lookup_singleton_eq | by left] |].
    destruct (strip_prefix_str "0." value) as [digits|] eqn:Ed; [| done]. cbn [mbind option_bind].
    destruct (negb _ && _) eqn:Eb; [| done]. intros [= <-]. apply andb_true_iff in Eb as [Hn%negb_true_iff Hd].
    exists value. split; [apply lookup_singleton_eq |]. right. exists (as_bytes digits).
    apply bool_decide_eq_false in Hn. split_and!; [done | |].
    + apply Forall_forall. intros b Hb. rewrite forallb_forall in Hd. apply Hd. by apply list_elem_of_In.
    + rewrite of_as_bytes. by apply strip_prefix_str_some.
Qed.
#[local] Existing Instance demo_engine_ok.

Definition quiet_field : ClusterField := fst (add_root rev_order "liminal/root" ClusterField_new).
Lemma quiet_wf : field_wf quiet_field.
Proof. exact (os_wf _ _ _ (add_root_ok rev_order "liminal/root" ClusterField_new (new_field_wf None) ltac:(done))). Qed.

(** A seed is planted, and one that is not there is not aborted. *)
Definition wish : Intent :=
  mkIntent 1 10 "lab" Plant "calm" {["kind" := JStr "ViewWatch"; "ttl_ms" := JU64 5000; "args" := JNull]} f0.
Definition regret : Intent := mkIntent 2 11 "lab" AbortSeed "7" ∅ f0.
Lemma echo_exact_witness :
  (let '(f', e) := route_intent rev_order 3 wish (attached quiet_field) in
   map_to_list (sd_target <$> seeds (seed_garden f')) = [(1%Z, "calm")] /\ answered e true Plant /\ told quiet_field f') /\
  let '(f', e) := route_intent rev_order 3 regret (attached quiet_field) in
  answered e false AbortSeed /\ f' = attached quiet_field.
Proof.
  split.
  - pose proof (echo_exact rev_order 3 wish quiet_field quiet_wf) as He.
    assert (map_to_list (sd_target <$> seeds (seed_garden (fst (route_intent rev_order 3 wish (attached quiet_field))))) = [(1%Z, "calm")])
      as Hc by (vm_compute; reflexivity).
    destruct (route_intent rev_order 3 wish (attached quiet_field)) as [f' e]. destruct He as (Ht & Hp & _).
    destruct Hp as [Ha _]; [split; [by exists ViewWatch | by vm_compute] |]. by split_and!.
  - pose proof (echo_exact rev_order 3 regret quiet_field quiet_wf) as He.
    destruct (route_intent rev_order 3 regret (attached quiet_field)) as [f' e]. apply He.
    intros (id & [= <-] & [s Hs]). vm_compute in Hs. discriminate Hs.
Defined.

(** A target that is spoken. *)
Lemma intent_text_served_witness :
  exists intent, parse_intent_text "lab" 4 12 " set target 0.45 " = Some (Ok intent) /\ it_kind intent = SetTarget /\
  let '(f', e) := route_intent rev_order 3 intent quiet_field in
  answered e true SetTarget /\ graph f' = graph quiet_field /\ t_target_load (trs (control f')) = lit 45 100.
Proof.
  destruct (intent_text_served "lab" 4 12 " set target 0.45 " rev_order 3 quiet_field) as (r & Er & Hr).
  assert (parse_intent_text "lab" 4 12 " set target 0.45 "
    = Some (Ok (mkIntent 4 12 "lab" SetTarget "0.45" {["load" := json_f32 (lit 45 100)]} f0))) as E by (vm_compute; reflexivity).
  rewrite E in Er. injection Er as <-. eexists. split; [exact E |]. split; [done |].
  destruct Hr as (_ & _ & _ & _ & Hr). destruct (route_intent rev_order 3 _ quiet_field) as [f' e].
  destruct Hr as (Ha & Hg & Ht). split_and!; [exact Ha | by apply Hg |].
  rewrite (Ht (f64_of_f32 (lit 45 100)) eq_refl); [vm_compute; reflexivity |]. vm_compute. reflexivity.
Defined.

(** The seed in the answer to a planting is the one before it got its number; and a new target is no
    delta. *)
Example planted_answer :
  (jget "seed" (ee_meta (snd (route_intent rev_order 3 wish quiet_field))) ≫= jget "id") = Some (JU64 0) /\
  jget "seed_id" (ee_meta (snd (route_intent rev_order 3 wish quiet_field))) = Some (JU64 1).
Proof. vm_compute. split; reflexivity. Qed.
Example target_untold :
  let f := fst (route_intent rev_order 3 (mkIntent 3 12 "lab" SetTarget "0.45" ∅ f0) (attached quiet_field)) in
  t_target_load (trs (control f)) <> t_target_load (trs (control quiet_field)) /\ emitted f = [].
Proof. vm_compute. split; [discriminate | reflexivity]. Qed.
End demo.

(** The ring of the last intents holds the newest of all that were pushed. *)
Lemma ring_push_latest r intent : (1 <= ir_capacity r)%Z -> (Z.of_nat (length (ir_buffer r)) <= ir_capacity r)%Z ->
  ring_push intent r = mkRing (ir_capacity r) (last_n (Z.to_nat (ir_capacity r)) (ir_buffer r ++ [intent])).
Proof.
  intros Hc Hl. unfold ring_push, last_n. rewrite length_app. cbn [length]. f_equal.
  destruct (Z.eqb_spec (Z.of_nat (length (ir_buffer r))) (ir_capacity r)) as [E|E].
  - replace (length (ir_buffer r) + 1 - Z.to_nat (ir_capacity r)) with 1 by lia. destruct (ir_buffer r); [cbn in E; lia | done].
  - replace (length (ir_buffer r) + 1 - Z.to_nat (ir_capacity r)) with 0 by lia. done.
Qed.
Lemma ring_keeps_latest capacity intents :
  fold_left (fun r intent => ring_push intent r) intents (with_capacity capacity)
  = mkRing (Z.max capacity 1) (last_n (Z.to_nat (Z.max capacity 1)) intents).
Proof.
  set (n := Z.max capacity 1). assert (1 <= n)%Z as Hn by lia. unfold with_capacity. fold n.
  induction intents as [|intent intents IH] using rev_ind; [done |]. rewrite fold_left_app, IH. cbn [fold_left].
  rewrite ring_push_latest; cbn [ir_capacity ir_buffer]; [by rewrite last_n_last_n | done |].
  pose proof (last_n_length (Z.to_nat n) intents). lia.
Qed.
