(* ===== verification/Cli.v ===== *)
(** * The command line: [liminal-cli/src/main.rs]

    The process keeps a field over its journal, prints on the standard output and error, publishes events
    to the hub of [Server], queues impulses for the task that routes them, and may be connected to
    another server. What a step does beside its change of the state is a list of [Out]. A line of the
    console, a command of the network, a queued impulse, a round of the life loop and one of the
    snapshot loop are steps: each holds the field's lock while it works on the field. With [--pipe-cbor]
    the process is a host of the bridge ([Bridge]) instead.

    The derived readers and writers, the texts of their errors, the display of floats and the file system
    under [:export] are parameters or inputs. *)

From stdpp Require Import prelude gmap strings fin_maps list sorting.
From Stdlib Require Import ZArith Lia SpecFloat.
From S2P Require Import Prelude RustStr RustOrd Float RustText Crypto Json NodeCell Trs Symmetry FieldTypes Feedback Variant Resonant Journal Collections Field FieldOps FieldRoute FieldTick FieldDream FieldAwaken FieldLql LifeLoop Wal StoreFiles Snapshot Database Protocol Bridge Server.
From S2P Require Lql Views StreamCodec.

(** ** Data *)
Inductive Out : Type :=
| Println (line : string)
| Eprintln (line : string)
| Publish (payload : json)
| PublishMetrics (payload : json)
| SendImpulse (impulse : Impulse)
| SendRemote (payload : json)
| WriteFile (path text : string).

(** A handler that may fail: what it does, or the text of its error. *)
Abbreviation Reply := (result (list Out) string).

Record DreamConfigUpdate : Type := mkDreamUpdate {
  du_min_idle_s : option Z;
  du_window_ms : option Z;
  du_strengthen_top_pct : option f32;
  du_weaken_bottom_pct : option f32;
  du_protect_salience : option f32;
  du_adreno_protect : option bool;
  du_max_ops_per_cycle : option Z
}.
Record AwakeningConfigUpdate : Type := mkAwakenUpdate {
  au_max_nodes : option Z;
  au_energy_floor : option f32;
  au_energy_boost : option f32;
  au_salience_boost : option f32;
  au_protect_salience : option f32;
  au_tick_bias_ms : option Z;
  au_target_gain : option f32
}.

(** What the derived instances and the libraries answer; the [string] of an error is its display. *)
Class CliEnv : Type := {
  cli_pretty : json -> string;
  pretty_dream_config : DreamConfig -> string;
  pretty_sync_config : SyncConfig -> string;
  json_error : string -> string;
  trs_from_str : string -> result TrsConfig string;
  sync_from_str : string -> result SyncConfig string;
  dream_update_from_str : string -> result DreamConfigUpdate string;
  awaken_update_from_str : string -> result AwakeningConfigUpdate string;
  sync_from_value : json -> result SyncConfig string;
  dream_update_from_value : json -> result DreamConfigUpdate string;
  awaken_update_from_value : json -> result AwakeningConfigUpdate string;
  replay_from_value : json -> result ReplayConfig string;
  int_error : string -> string;
  float_error : string -> string;
  hex_error : string -> string;
  float_text : f32 -> string;
  json_debug : json -> string;
  snapshot_path_text : string -> string;
  store_error_text : StoreError -> string
}.

(** ** Text *)
Definition quoted (s : string) : string := of_bytes [Byte.x22] +:+ s +:+ of_bytes [Byte.x22].
Definition starts_with (p s : string) : bool := bool_decide (is_Some (strip_prefix_str p s)).
(** [trim_start_matches] with a pattern that is not empty. *)
Definition trim_start_matches (p s : string) : string :=
  of_bytes (strip_while (length (as_bytes s)) [as_bytes p] (as_bytes s)).
(** [splitn(2, pat)]: the first part, and the rest after [pat]. *)
Definition splitn2 (pat s : string) : string * option string :=
  match split_once pat s with
  | Some (before, after) => (before, Some after)
  | None => (s, None)
  end.
Definition fmt_bool (b : bool) : string := if b then "true" else "false".
(** [{:+.k}] *)
Definition fmt_signed (k : nat) (x : f64) : string :=
  (match x with S754_nan => "" | S754_zero s | S754_infinity s | S754_finite s _ _ => if s then "" else "+" end)
  +:+ fmt_fixed k x.
(** [{:?}] of a list and of an option of integers. *)
Definition fmt_debug_list (l : list string) : string := "[" +:+ join ", " l +:+ "]".
Definition fmt_debug_option (n : option Z) : string :=
  match n with Some n => "Some(" +:+ fmt_nat n +:+ ")" | None => "None" end.
Definition or_dash {A : Type} (text : A -> string) (v : option A) : string :=
  match v with Some v => text v | None => "-" end.
Definition float_list (l : list f32) : string := join "," (map (fmt_fixed 2) l).

(** [parse::<u16>] *)
Definition parse_u16 (s : string) : option Z :=
  match parse_u64 (as_bytes s) with
  | Some v => if (v <? 2 ^ 16)%Z then Some v else None
  | None => None
  end.

(** ** Events as lines *)
Definition format_top_nodes_json (items : list json) : string :=
  match items with
  | [] => "-"
  | _ =>
      match omap (fun item =>
                    id ← jget "id" item ≫= as_u64; hits ← jget "hits" item ≫= as_u64;
                    Some ("n" +:+ fmt_nat id +:+ ":" +:+ fmt_nat hits)) items with
      | [] => "-"
      | parts => join "," parts
      end
  end.
Definition extract_stats_from_json (stats : json) : option (Z * f64 * f64 * string) :=
  count ← jget "count" stats ≫= as_u64;
  avg_strength ← jget "avg_strength" stats ≫= as_f64;
  avg_latency ← jget "avg_latency" stats ≫= as_f64;
  Some (count mod u32_size, avg_strength, avg_latency,
        match jget "top_nodes" stats ≫= as_array with Some items => format_top_nodes_json items | None => "-" end)%Z.
(** [get(key)?.as_str().unwrap_or(d)], and the like for the other types. *)
Definition str_or (d key : string) (j : json) : option string := default d ∘ as_str <$> jget key j.
Definition u64_or (d : Z) (key : string) (j : json) : option Z := default d ∘ as_u64 <$> jget key j.
Definition f64_or (d : f64) (key : string) (j : json) : option f64 := default d ∘ as_f64 <$> jget key j.
Definition i64_or (d : Z) (key : string) (j : json) : option Z := default d ∘ Json.as_i64 <$> jget key j.
(** [get(key).and_then(as_f64).unwrap_or(d)] *)
Definition get_f64_or (d : f64) (key : string) (j : json) : f64 := default d (jget key j ≫= as_f64).
Definition get_u64_or (d : Z) (key : string) (j : json) : Z := default d (jget key j ≫= as_u64).
Definition get_str_or (d key : string) (j : json) : string := default d (jget key j ≫= as_str).
Definition as_object (j : json) : option json := match j with JObj _ => Some j | _ => None end.

Definition format_view_event (value : json) : option string :=
  meta ← jget "meta" value;
  id ← jget "id" meta ≫= as_u64;
  pattern ← str_or "" "pattern" meta;
  window ← u64_or 0 "window" meta;
  stats ← jget "stats" meta ≫= extract_stats_from_json;
  let '(count, avg_strength, avg_latency, top_nodes) := stats in
  Some ("VIEW id=" +:+ fmt_nat id +:+ " pattern=" +:+ pattern +:+ " window=" +:+ fmt_nat window +:+ "ms count="
        +:+ fmt_nat count +:+ " avg_str=" +:+ fmt_fixed 2 avg_strength +:+ " avg_lat=" +:+ fmt_fixed 1 avg_latency
        +:+ " top=[" +:+ top_nodes +:+ "]").

Definition format_lql_event (value : json) : option string :=
  meta ← jget "meta" value;
  match jget "select" meta, jget "subscribe" meta, jget "unsubscribe" meta, jget "error" meta with
  | Some select, _, _, _ =>
      pattern ← str_or "" "pattern" select;
      window ← u64_or 0 "window_ms" select;
      let min_strength := or_dash (fmt_fixed 2) (jget "min_strength" select ≫= as_f64) in
      stats ← jget "stats" select ≫= extract_stats_from_json;
      let '(count, avg_strength, avg_latency, top_nodes) := stats in
      Some ("LQL SELECT pattern=" +:+ pattern +:+ " window=" +:+ fmt_nat window +:+ "ms min>=" +:+ min_strength
            +:+ " count=" +:+ fmt_nat count +:+ " avg_str=" +:+ fmt_fixed 2 avg_strength +:+ " avg_lat="
            +:+ fmt_fixed 1 avg_latency +:+ " top=[" +:+ top_nodes +:+ "]")
  | None, Some subscribe, _, _ =>
      id ← jget "id" subscribe ≫= as_u64;
      pattern ← str_or "" "pattern" subscribe;
      window ← u64_or 0 "window_ms" subscribe;
      every ← u64_or 0 "every_ms" subscribe;
      Some ("LQL SUBSCRIBE id=" +:+ fmt_nat id +:+ " pattern=" +:+ pattern +:+ " window=" +:+ fmt_nat window
            +:+ "ms every=" +:+ fmt_nat every +:+ "ms")
  | None, None, Some unsubscribe, _ =>
      id ← jget "id" unsubscribe ≫= as_u64;
      removed ← default false ∘ as_bool <$> jget "removed" unsubscribe;
      Some ("LQL UNSUBSCRIBE id=" +:+ fmt_nat id +:+ " removed=" +:+ fmt_bool removed)
  | None, None, None, Some err =>
      Some ("LQL ERROR query='" +:+ get_str_or "" "query" meta +:+ "' message=" +:+ default "unknown" (as_str err))
  | None, None, None, None => None
  end.

Section formats.
Context `{UnicodeCase}.

Definition format_harmony_event (value : json) : option string :=
  meta ← jget "meta" value;
  match jget "alpha" meta ≫= as_f64, jget "aff_scale" meta ≫= as_f64, jget "met_scale" meta ≫= as_f64,
        jget "sleep_delta" meta ≫= as_f64 with
  | Some alpha, Some affinity, Some metabolism, Some sleep_delta =>
      Some ("HARMONY tune alpha=" +:+ fmt_fixed 3 alpha +:+ " affinity=" +:+ fmt_fixed 3 affinity
            +:+ " metabolism=" +:+ fmt_fixed 3 metabolism +:+ " sleep_delta=" +:+ fmt_signed 3 sleep_delta)
  | _, _, _, _ =>
      strength ← jget "strength" meta ≫= as_f64;
      latency ← jget "latency" meta ≫= as_f64;
      entropy ← jget "entropy" meta ≫= as_f64;
      let mirror :=
        match jget "mirror" meta with
        | Some (JObj _ as obj) => fmt_fixed 3 (get_f64_or f_zero "s" obj) +:+ "@" +:+ fmt_nat (get_u64_or 0 "t" obj)
        | _ => "-"
        end in
      Some ("HARMONY status=" +:+ to_uppercase (get_str_or "ok" "status" meta) +:+ " strength=" +:+ fmt_fixed 3 strength
            +:+ " latency=" +:+ fmt_fixed 1 latency +:+ " entropy=" +:+ fmt_fixed 3 entropy
            +:+ " d_str=" +:+ fmt_fixed 3 (get_f64_or f_zero "delta_strength" meta)
            +:+ " d_lat=" +:+ fmt_fixed 1 (get_f64_or f_zero "delta_latency" meta)
            +:+ " pattern=" +:+ get_str_or "-" "pattern" meta +:+ " mirror=" +:+ mirror)
  end.

Definition format_manifold_event (value : json) : option string :=
  meta ← jget "meta" value;
  match jget "intention" meta, jget "variants" meta, jget "slide" meta with
  | Some intention, _, _ =>
      tokens ← jget "tokens" intention ≫= as_array;
      weights ← jget "weights" intention ≫= as_array;
      Some ("MANIFOLD INTEND tokens=[" +:+ join "," (omap as_str tokens) +:+ "] weights=["
            +:+ float_list (omap as_f64 weights) +:+ "] horizon_ms="
            +:+ or_dash fmt_nat (jget "horizon_ms" intention ≫= as_u64) +:+ " budget="
            +:+ or_dash (fmt_fixed 2) (jget "budget" intention ≫= as_f64))
  | None, Some variants, _ =>
      items ← as_array variants;
      let top :=
        omap (fun item =>
                id ← str_or "" "id" item; p ← jget "probability" item ≫= as_f64; score ← jget "score" item ≫= as_f64;
                Some (id +:+ "(p=" +:+ fmt_fixed 2 p +:+ ",score=" +:+ fmt_fixed 3 score +:+ ")")) items in
      Some ("MANIFOLD VARIANTS limit=" +:+ or_dash fmt_nat (jget "limit" meta ≫= as_u64) +:+ " min_p="
            +:+ or_dash (fmt_fixed 2) (jget "min_probability" meta ≫= as_f64) +:+ " top=[" +:+ join ", " top +:+ "]")
  | None, None, Some slide =>
      id ← str_or "?" "id" slide;
      ids ← jget "variant_ids" slide ≫= as_array;
      Some ("MANIFOLD SLIDE id=" +:+ id +:+ " variants=[" +:+ join "," (omap as_str ids) +:+ "]")
  | None, None, None => None
  end.

Definition format_commit_event (value : json) : option string :=
  meta ← jget "meta" value;
  variant ← str_or "?" "variant" meta;
  items ← jget "seeds" meta ≫= as_array;
  let seeds := join "," (map fmt_nat (omap as_u64 items)) in
  Some ("COMMIT variant=" +:+ variant +:+ " seeds=[" +:+ (if decide (seeds = "") then "-" else seeds) +:+ "]").

Definition format_pivot_event (value : json) : option string :=
  meta ← jget "meta" value;
  from ← str_or "?" "from" meta;
  to ← str_or "?" "to" meta;
  inertia ← f64_or f_zero "inertia" meta;
  Some ("PIVOT from=" +:+ from +:+ " to=" +:+ to +:+ " inertia=" +:+ fmt_fixed 3 inertia +:+ " reason="
        +:+ get_str_or "-" "reason" meta).

Definition format_defuse_event (value : json) : option string :=
  meta ← jget "meta" value;
  pendulum ← str_or "?" "pendulum" meta;
  drain ← f64_or f_zero "drain_rate" meta;
  Some ("DEFUSE pendulum=" +:+ pendulum +:+ " drain_rate=" +:+ fmt_fixed 3 drain).

(** The line of an event with one of the known names. *)
Definition format_event (value : json) : option string :=
  ev ← jget "ev" value ≫= as_str;
  if decide (ev = "view") then format_view_event value
  else if decide (ev = "lql") then format_lql_event value
  else if decide (ev = "harmony") then format_harmony_event value
  else if decide (ev = "manifold") then format_manifold_event value
  else if decide (ev = "commit") then format_commit_event value
  else if decide (ev = "pivot") then format_pivot_event value
  else if decide (ev = "defuse") then format_defuse_event value
  else None.
Definition print_event_line `{JsonText} (raw : string) : list Out :=
  [Println (default raw (json_from_str raw ≫= format_event))].
End formats.

Definition format_awaken_event (event : json) : option string :=
  meta ← jget "meta" event ≫= as_object;
  action ← jget "action" meta ≫= as_str;
  if decide (action = "now") then
    applied ← u64_or 0 "applied" meta;
    protected ← u64_or 0 "protected" meta;
    avg_tension ← f64_or f_zero "avg_tension" meta;
    tick_adjust ← i64_or 0 "tick_adjust_ms" meta;
    energy_delta ← f64_or f_zero "energy_delta" meta;
    Some ("AWAKEN action=now applied=" +:+ fmt_nat applied +:+ " protected=" +:+ fmt_nat protected
          +:+ " avg_tension=" +:+ fmt_fixed 2 avg_tension +:+ " tick_adjust=" +:+ fmt_i32 tick_adjust
          +:+ "ms energy_delta=" +:+ fmt_fixed 3 energy_delta)
  else if decide (action = "set" \/ action = "cfg") then
    cfg ← jget "cfg" meta ≫= as_object;
    max_nodes ← u64_or 0 "max_nodes" cfg;
    energy_floor ← f64_or f_zero "energy_floor" cfg;
    energy_boost ← f64_or f_zero "energy_boost" cfg;
    salience_boost ← f64_or f_zero "salience_boost" cfg;
    protect_salience ← f64_or f_zero "protect_salience" cfg;
    tick_bias ← i64_or 0 "tick_bias_ms" cfg;
    target_gain ← f64_or f_zero "target_gain" cfg;
    Some ("AWAKEN action=" +:+ action +:+ " max_nodes=" +:+ fmt_nat max_nodes +:+ " energy_floor="
          +:+ fmt_fixed 2 energy_floor +:+ " energy_boost=" +:+ fmt_fixed 2 energy_boost +:+ " salience_boost="
          +:+ fmt_fixed 2 salience_boost +:+ " protect_salience=" +:+ fmt_fixed 2 protect_salience +:+ " tick_bias="
          +:+ fmt_i32 tick_bias +:+ "ms target_gain=" +:+ fmt_fixed 3 target_gain)
  else None.

Definition introspect_items (kind : string) (line : json -> string) (meta : json) : list string :=
  match jget "items" meta ≫= as_array with
  | None | Some [] => ["INTROSPECT " +:+ kind +:+ " none"]
  | Some items => map line items
  end.
Definition format_introspect_event (event : json) : list string :=
  match jget "meta" event ≫= as_object with
  | None => []
  | Some meta =>
      match jget "target" meta ≫= as_str with
      | None => []
      | Some target =>
          if decide (target = "model") then
            let node (n : json) : string :=
              "n" +:+ fmt_nat (get_u64_or 0 "id" n) +:+ ":" +:+ get_str_or "-" "pattern" n +:+ ":"
              +:+ fmt_fixed 2 (get_f64_or f_zero "salience" n) +:+ ":" +:+ fmt_fixed 2 (get_f64_or f_zero "energy" n) in
            ["INTROSPECT model coherence=" +:+ fmt_fixed 3 (get_f64_or f_zero "coherence" meta)
             +:+ " edges=" +:+ fmt_nat (get_u64_or 0 "edges" meta)
             +:+ " influences=" +:+ fmt_nat (get_u64_or 0 "influences" meta)
             +:+ " tensions=" +:+ fmt_nat (get_u64_or 0 "tensions" meta)
             +:+ " nodes=[" +:+ or_dash (fun nodes => join "," (map node nodes)) (jget "top_nodes" meta ≫= as_array) +:+ "]"]
          else if decide (target = "influence") then
            introspect_items "influence" (fun item =>
              "INTROSPECT influence source=n" +:+ fmt_nat (get_u64_or 0 "source" item)
              +:+ " sink=n" +:+ fmt_nat (get_u64_or 0 "sink" item)
              +:+ " weight=" +:+ fmt_fixed 3 (get_f64_or f_zero "weight" item)
              +:+ " coherence=" +:+ fmt_fixed 3 (get_f64_or f_zero "coherence" item)) meta
          else if decide (target = "tension") then
            introspect_items "tension" (fun item =>
              "INTROSPECT tension node=n" +:+ fmt_nat (get_u64_or 0 "node" item)
              +:+ " magnitude=" +:+ fmt_fixed 3 (get_f64_or f_zero "magnitude" item)
              +:+ " relief=" +:+ fmt_fixed 3 (get_f64_or f_zero "relief" item)) meta
          else []
      end
  end.

(** ** Answers as lines *)
Definition format_stats_output (stats : ViewStats) : Z * f32 * f32 * f32 * string :=
  (vs_count stats, vs_avg_strength stats, vs_avg_latency stats, FieldRoute.emotional_load stats,
   match FieldRoute.top_nodes stats with
   | [] => "-"
   | nodes => join "," (map (fun node => "n" +:+ fmt_nat (nh_id node) +:+ ":" +:+ fmt_nat (nh_hits node)) nodes)
   end).

Definition filter_text (flt : Views.ViewFilter) : string :=
  " min>=" +:+ or_dash (fmt_fixed 2) (Views.min_strength flt) +:+ " sal>=" +:+ or_dash (fmt_fixed 2) (Views.min_salience flt)
  +:+ " adreno=" +:+ or_dash fmt_bool (Views.adreno flt).

(** The goals of a slide are printed in the order of their map. *)
Definition print_lql_response `{CliEnv} (o : HashOrder) (response : LqlResponse) : list Out :=
  [Println
     match response with
     | RSelect r =>
         let '(count, avg_strength, avg_latency, emotional, top) := format_stats_output (ls_stats r) in
         "LQL SELECT pattern=" +:+ ls_pattern r +:+ " window=" +:+ fmt_nat (ls_window_ms r) +:+ "ms"
         +:+ filter_text (ls_filter r) +:+ " count=" +:+ fmt_nat count +:+ " avg_str=" +:+ fmt_fixed 2 avg_strength
         +:+ " avg_lat=" +:+ fmt_fixed 1 avg_latency +:+ " emo_load=" +:+ fmt_fixed 2 emotional +:+ " top=[" +:+ top +:+ "]"
     | RSubscribe r =>
         "LQL SUBSCRIBE id=" +:+ fmt_nat (lb_id r) +:+ " pattern=" +:+ lb_pattern r +:+ " window=" +:+ fmt_nat (lb_window_ms r)
         +:+ "ms every=" +:+ fmt_nat (lb_every_ms r) +:+ "ms" +:+ filter_text (lb_filter r)
     | RUnsubscribe r => "LQL UNSUBSCRIBE id=" +:+ fmt_nat (lu_id r) +:+ " removed=" +:+ fmt_bool (lu_removed r)
     | RIntend r =>
         "LQL INTEND tokens=[" +:+ join "," (focus_tokens r) +:+ "] weights=[" +:+ float_list (in_weights r)
         +:+ "] horizon_ms=" +:+ or_dash fmt_nat (in_horizon_ms r) +:+ " budget=" +:+ or_dash (fmt_fixed 2) (in_budget r)
     | RVariants limit min_probability ranked =>
         "LQL VARIANTS limit=" +:+ or_dash fmt_nat limit +:+ " min_p=" +:+ or_dash (fmt_fixed 2) min_probability +:+ " top=["
         +:+ join ", " (map (fun v => vs_id v +:+ "(p=" +:+ fmt_fixed 2 (vs_probability v) +:+ ",score="
                                     +:+ fmt_fixed 3 (vs_score v) +:+ ")") ranked) +:+ "]"
     | RSlide r =>
         "LQL SLIDE id=" +:+ lq_slide_id r +:+ " variants=[" +:+ join "," (lq_variant_ids r) +:+ "] goals={ "
         +:+ join "," (map (fun '(k, v) => k +:+ ":" +:+ fmt_fixed 2 v) (hm_iter o (lq_desired_metrics r))) +:+ " }"
     | RCommit r =>
         "LQL COMMIT variant=" +:+ lc_variant_id r +:+ " seeds=["
         +:+ match lc_seeds r with [] => "-" | seeds => join "," (map fmt_nat seeds) end +:+ "]"
     | RPivot r =>
         "LQL PIVOT from=" +:+ lp_from r +:+ " to=" +:+ lp_to r +:+ " inertia=" +:+ fmt_fixed 3 (lp_inertia r)
         +:+ " reason=" +:+ default "-" (lp_reason r)
     | RDefuse r =>
         "LQL DEFUSE pendulum=" +:+ do_pendulum_id r +:+ " drain " +:+ float_text (previous_drain r) +:+ " -> "
         +:+ float_text (new_drain r)
     end].

Definition render_mirror_epoch (epoch : Epoch) : string :=
  "MIRROR_EPOCH id=" +:+ fmt_nat (ep_id epoch) +:+ " kind=" +:+ EpochKind_as_str (ep_kind epoch)
  +:+ " impact=" +:+ fmt_fixed 3 (impact epoch)
  +:+ " tension_delta=" +:+ fmt_fixed 3 (f32_sub (tension_before epoch) (tension_after epoch))
  +:+ " latency_delta=" +:+ fmt_fixed 2 (f32_sub (latency_avg_before epoch) (latency_avg_after epoch))
  +:+ " duration=" +:+ fmt_nat (Epoch_duration epoch) +:+ "ms".

(** The last [limit] epochs, when there are more. *)
Definition print_mirror_timeline (timeline : MirrorTimeline) (limit : option Z) : list Out :=
  let epochs := mt_epochs timeline in
  let epochs :=
    match limit with
    | Some limit =>
        if (limit <? Z.of_nat (length epochs))%Z then reverse (take (Z.to_nat limit) (reverse epochs)) else epochs
    | None => epochs
    end in
  match epochs with
  | [] => [Println "MIRROR_TIMELINE empty"]
  | _ => map (Println ∘ render_mirror_epoch) epochs
  end.
Definition print_top (epochs : list Epoch) : list Out :=
  match epochs with
  | [] => [Println "MIRROR_TOP none"]
  | _ => map (Println ∘ render_mirror_epoch) epochs
  end.

Definition print_replay_report (report : ReplayReport) : list Out :=
  [Println ("REPLAY epoch=" +:+ fmt_nat (rr_epoch_id report) +:+ " mode=" +:+ rr_mode report +:+ " predicted_gain="
     +:+ fmt_fixed 3 (predicted_gain report) +:+ " applied=" +:+ fmt_nat (rr_applied report) +:+ " took="
     +:+ fmt_nat (rr_took_ms report) +:+ "ms")].

Definition render_harmony_snapshot_line `{UnicodeCase} (snapshot : HarmonySnapshot) : string :=
  "HARMONY status=" +:+ to_uppercase (SymmetryStatus_as_str (hs_status snapshot))
  +:+ " strength=" +:+ fmt_fixed 3 (avg_strength (hs_metrics snapshot))
  +:+ " latency=" +:+ fmt_fixed 1 (hm_avg_latency (hs_metrics snapshot))
  +:+ " entropy=" +:+ fmt_fixed 3 (hs_entropy_ratio snapshot) +:+ " d_str=" +:+ fmt_fixed 3 (hs_delta_strength snapshot)
  +:+ " d_lat=" +:+ fmt_fixed 1 (hs_delta_latency snapshot) +:+ " pattern=" +:+ default "-" (hs_dominant_pattern snapshot)
  +:+ " mirror="
  +:+ or_dash (fun m => fmt_fixed 3 (mi_strength m) +:+ "@" +:+ fmt_nat (mi_timestamp_ms m)) (hs_mirror snapshot).
Definition print_harmony_snapshot `{UnicodeCase} (snapshot : HarmonySnapshot) : list Out :=
  [Println (render_harmony_snapshot_line snapshot)].

Definition log_snapshot `{CliEnv} (prefix : string) (info : SnapshotInfo) : Out :=
  Println (prefix +:+ "SNAPSHOT id=" +:+ fmt_nat (si_id info) +:+ " size=" +:+ fmt_nat (si_size_bytes info) +:+ "B path="
    +:+ snapshot_path_text (si_path info) +:+ " segment=" +:+ fmt_nat (segment (si_offset info)) +:+ " position="
    +:+ fmt_nat (position (si_offset info))).
Definition print_stats (stats : StoreStats) : list Out :=
  [Println ("STATS wal_segment=" +:+ fmt_nat (ss_current_segment stats) +:+ " position=" +:+ fmt_nat (ss_current_position stats)
     +:+ " delta_since_snapshot=" +:+ fmt_nat (ss_delta_since_snapshot stats) +:+ " last_snapshot="
     +:+ fmt_debug_option (ss_last_snapshot stats) +:+ " segments=" +:+ fmt_debug_list (map fmt_nat (ss_wal_segments stats)))].

(** ** Updates of configurations *)
Definition unit_clamp (v : f32) : f32 := f32_clamp v f0 f1.

Definition dream_update_apply (u : DreamConfigUpdate) (c : DreamConfig) : DreamConfig :=
  mkDreamConfig (default (min_idle_s c) (du_min_idle_s u)) (default (dc_window_ms c) (du_window_ms u))
    (default (strengthen_top_pct c) (unit_clamp <$> du_strengthen_top_pct u))
    (default (weaken_bottom_pct c) (unit_clamp <$> du_weaken_bottom_pct u))
    (default (dc_protect_salience c) (unit_clamp <$> du_protect_salience u))
    (default (adreno_protect c) (du_adreno_protect u))
    (default (max_ops_per_cycle c) ((fun v => Z.max v 1) <$> du_max_ops_per_cycle u)).
Definition awaken_update_apply (u : AwakeningConfigUpdate) (c : AwakeningConfig) : AwakeningConfig :=
  mkAwakeningConfig (default (max_nodes c) ((fun v => Z.max v 1) <$> au_max_nodes u))
    (default (energy_floor c) (unit_clamp <$> au_energy_floor u)) (default (energy_boost c) (unit_clamp <$> au_energy_boost u))
    (default (salience_boost c) (unit_clamp <$> au_salience_boost u))
    (default (ac_protect_salience c) (unit_clamp <$> au_protect_salience u))
    (default (tick_bias_ms c) (au_tick_bias_ms u)) (default (target_gain c) (unit_clamp <$> au_target_gain u)).

(** ** Commands of the console

    A handler gets the rest of its line and the field, under its lock. *)
Definition parse_impulse_json `{UnicodeCase} (data : json) : result Impulse string :=
  let! pattern := ok_or (jget "pattern" data ≫= as_str) "impulse requires pattern" in
  let kind := to_lowercase (get_str_or "query" "kind" data) in
  Ok (mkImpulse
        (if decide (kind = "affect" \/ kind = "a") then Affect
         else if decide (kind = "write" \/ kind = "w") then Write
         else Query)
        pattern (default (lit 6 10) (f32_of_f64 <$> (jget "strength" data ≫= as_f64))) (get_u64_or 1500 "ttl_ms" data)
        (match jget "tags" data ≫= as_array with Some items => omap as_str items | None => ["ws"] end)).

Definition parse_command `{UnicodeCase} (line : string) : option Impulse :=
  match split_whitespace line with
  | cmd :: pattern :: parts =>
      let strength := default (lit 6 10) (head parts ≫= parse_f32) in
      let cmd := to_lowercase cmd in
      kind ← (if decide (cmd = "q") then Some Query
              else if decide (cmd = "w") then Some Write
              else if decide (cmd = "a") then Some Affect
              else None);
      Some (mkImpulse kind pattern (unit_clamp strength) 1500 ["cli"])
  | _ => None
  end.

Definition model_json (m : ResonantModel) : json :=
  json_obj [("edges", JArr (map edge_json (rm_edges m))); ("influences", JArr (map influence_json (rm_influences m)));
            ("tensions", JArr (map tension_json (rm_tensions m))); ("coherence", json_f32 (rm_coherence m))].
Definition cell_snapshot_json (s : CellSnapshot) : json :=
  json_obj [("id", JU64 (cn_id s)); ("seed_affinity", json_f32 (cn_seed_affinity s));
            ("seed_metabolism", json_f32 (cn_seed_metabolism s)); ("core_pattern", JStr (cn_core_pattern s));
            ("state", JStr (NodeState_debug (cn_state s))); ("links", JArr (map JU64 (merge_sort Z.le (elements (cn_links s)))));
            ("metabolism", json_f32 (cn_metabolism s)); ("affinity", json_f32 (cn_affinity s));
            ("last_response_ms", JU64 (cn_last_response_ms s)); ("energy", json_f32 (cn_energy s));
            ("salience", json_f32 (cn_salience s)); ("adreno_tag", JBool (cn_adreno_tag s));
            ("last_recall_ms", JU64 (cn_last_recall_ms s))].

(** The connection to another server: never made, open, or lost; its channel takes what is sent while it is
    open. *)
Inductive Remote : Type := NotConnected | Connected | Disconnected.
Definition send_remote_command (remote : Remote) (payload : json) : Reply :=
  match remote with
  | NotConnected => Err "no nexus client connection"
  | Disconnected => Err "ws client disconnected"
  | Connected => Ok [SendRemote payload]
  end.

Section handlers.
Context `{UnicodeCase, FloatMath, SeedRng, JsonText, Lql.QueryJson, CliEnv}.

Definition read_json (s : string) : result json string := ok_or (json_from_str s) (json_error s).
Definition read_u64 (s : string) : result Z string := ok_or (parse_u64 (as_bytes s)) (int_error s).
Definition read_f32 (s : string) : result f32 string := ok_or (parse_f32 s) (float_error s).

(** An event that is printed and published. *)
Definition show_event (e : json) (lines : list string) : list Out := map Println lines ++ [Println (cli_pretty e); Publish e].
Definition show_awaken (e : json) : list Out := show_event e (option_list (format_awaken_event e)).
Definition show_introspect (e : json) : list Out := show_event e (format_introspect_event e).
(** A line is printed; an object as [g] does. *)
Definition print_field_event (g : json -> list Out) (e : FieldEvent) : list Out :=
  match e with
  | EText line => [Println line]
  | EJson payload => g payload
  end.
Definition print_pretty (payload : json) : list Out := [Println (cli_pretty payload)].
Definition print_compact (payload : json) : list Out := print_event_line (json_to_string payload).

(** *** Reflexes *)
Definition tuning_usage : string := " win=<ms> eps=<f32> step=<f32> hyster=<f32> cd=<ms> min_gain=<f32>".
Definition prefixed {A : Type} (what : string) (r : result A string) : result A string :=
  map_err (fun e => "invalid " +:+ what +:+ ": " +:+ e) r.
Definition tune_one (key value : string) (c : Lql.ReflexCfg) : result Lql.ReflexCfg string :=
  let '(Lql.mkReflexCfg win eps step hyster cd gain) := c in
  if decide (key = "win" \/ key = "win_ms") then
    let! win := prefixed "win_ms" (read_u64 value) in Ok (Lql.mkReflexCfg win eps step hyster cd gain)
  else if decide (key = "eps") then
    let! eps := prefixed "eps" (read_f32 value) in Ok (Lql.mkReflexCfg win eps step hyster cd gain)
  else if decide (key = "step" \/ key = "pivot_step") then
    let! step := prefixed "pivot_step" (read_f32 value) in Ok (Lql.mkReflexCfg win eps step hyster cd gain)
  else if decide (key = "hyster" \/ key = "hysteresis") then
    let! hyster := prefixed "hysteresis" (read_f32 value) in Ok (Lql.mkReflexCfg win eps step hyster cd gain)
  else if decide (key = "cd" \/ key = "cooldown" \/ key = "cooldown_ms") then
    let! cd := prefixed "cooldown" (read_u64 value) in Ok (Lql.mkReflexCfg win eps step hyster cd gain)
  else if decide (key = "min_gain") then
    let! gain := prefixed "min_gain" (read_f32 value) in Ok (Lql.mkReflexCfg win eps step hyster cd gain)
  else Err ("unknown tuning key: " +:+ key).
(** The configuration is changed in place: what was set before an error stays. *)
Fixpoint apply_reflex_tuning (args : list string) (c : Lql.ReflexCfg) : Lql.ReflexCfg * result unit string :=
  match args with
  | [] => (c, Ok ())
  | arg :: args =>
      let '(key, value) := splitn2 "=" arg in
      let key := trim key in
      match value with
      | None => (c, Err ("missing value for " +:+ key))
      | Some value =>
          match tune_one key (trim value) c with
          | Ok c => apply_reflex_tuning args c
          | Err e => (c, Err e)
          end
      end
  end.
Definition set_reflex_cfg (cfg : Lql.ReflexCfg) (f : ClusterField) : ClusterField :=
  set_reflex_feedback (rx_set_cfg cfg (reflex_feedback (control f))) f.

Definition handle_reflex_command (command : string) (f : ClusterField) : ClusterField * list Out :=
  let parts := split_whitespace command in
  let sub := default "" (head parts) in
  if decide (sub = "" \/ sub = "help") then (f, [Eprintln ("usage: :reflex on|off|status|tune" +:+ tuning_usage)])
  else if decide (sub = "on") then
    let f := set_reflex_enabled true f in
    (f, [Println ("REFLEX enabled win_ms=" +:+ fmt_nat (Lql.win_ms (reflex_cfg f)))])
  else if decide (sub = "off") then (set_reflex_enabled false f, [Println "REFLEX disabled"])
  else if decide (sub = "status") then
    (f, [Println (cli_pretty (json_obj
           [("cfg", reflex_cfg_json (reflex_cfg f)); ("enabled", JBool (reflex_enabled f));
            ("last_report", json_or_null report_json (reflex_last_report f))]))])
  else if decide (sub = "tune") then
    let '(cfg, r) := apply_reflex_tuning (tail parts) (reflex_cfg f) in
    let f := set_reflex_cfg cfg f in
    match r with
    | Err err => (f, [Eprintln ("invalid reflex tuning: " +:+ err); Eprintln ("usage: :reflex tune" +:+ tuning_usage)])
    | Ok _ =>
        (f, [Println ("REFLEX tuned win=" +:+ fmt_nat (Lql.win_ms cfg) +:+ "ms eps=" +:+ fmt_fixed 3 (Lql.eps cfg)
               +:+ " step=" +:+ fmt_fixed 2 (Lql.pivot_step cfg))])
    end
  else (f, [Eprintln ("Unknown reflex command: " +:+ sub)]).

(** The subcommand of [splitn(2, ' ')] and its argument. *)
Definition subcommand (command : string) : string * string :=
  let '(sub, rest) := splitn2 " " command in (trim sub, trim (default "" rest)).

(** *** Tempo *)
Definition trs_json (f : ClusterField) : json :=
  let state := trs (control f) in
  let config := to_config state in
  let h := harmony (control f) in
  json_obj
    [("config", json_obj [("alpha", json_f32 (tc_alpha config)); ("beta", json_f32 (tc_beta config));
                          ("k_p", json_f32 (tc_k_p config)); ("k_i", json_f32 (tc_k_i config));
                          ("k_d", json_f32 (tc_k_d config)); ("target", json_f32 (tc_target_load config))]);
     ("err_i", json_f32 (t_err_i state)); ("last_err", json_f32 (t_last_err state)); ("last_ts", JU64 (t_last_ts state));
     ("harmony", json_obj [("alpha", json_f32 (ht_alpha h)); ("affinity_scale", json_f32 (ht_affinity_scale h));
                           ("metabolism_scale", json_f32 (ht_metabolism_scale h)); ("sleep_delta", json_f32 (ht_sleep_delta h))])].
Definition trs_usage : string :=
  "usage: :trs set {" +:+ join "," (map (fun key => quoted key +:+ ":...") ["alpha"; "beta"; "k_p"; "k_i"; "k_d"; "target_load"])
  +:+ "}".
Definition trs_target_of (value_raw : string) : result f32 string :=
  if decide (value_raw = "") then Err "usage: :trs target <0.3..0.8>"
  else
    let! value := ok_or (parse_f32 value_raw) ("invalid target value: " +:+ value_raw) in
    if f_in (lit 3 10) (lit 8 10) value then Ok value else Err "target must be within 0.3..0.8".

Definition handle_trs_command (command : string) (f : ClusterField) : ClusterField * Reply :=
  let '(sub, raw) := subcommand command in
  if decide (sub = "" \/ sub = "show") then (f, Ok (print_pretty (trs_json f)))
  else if decide (sub = "set") then
    if decide (raw = "") then (f, Err trs_usage)
    else
      match trs_from_str raw with
      | Err e => (f, Err e)
      | Ok cfg => let '(f, e) := set_trs_config cfg f in (f, Ok [Println (event_text e)])
      end
  else if decide (sub = "target") then
    match trs_target_of raw with
    | Err e => (f, Err e)
    | Ok value => let '(f, e) := set_trs_target value f in (f, Ok [Println (event_text e)])
    end
  else (f, Err ("unknown trs subcommand: " +:+ sub)).

(** *** Queries *)
Definition lql_outputs (o : HashOrder) (publish : bool) (outcome : LqlExecResult) : list Out :=
  match response outcome with Some r => print_lql_response o r | None => [] end
  ++ concat (map (fun e =>
       print_event_line (event_text e)
       ++ (if publish then Publish <$> option_list (json_from_str (event_text e)) else [])) (FieldLql.events outcome)).
Definition run_query (o : HashOrder) (publish : bool) (query : string) (f : ClusterField) : ClusterField * Reply :=
  match Lql.parse_lql query with
  | Err err => (f, Err (lql_message err))
  | Ok ast =>
      let '(f, outcome) := exec_lql o ast f in
      (f, match outcome with Err err => Err (lql_message err) | Ok outcome => Ok (lql_outputs o publish outcome) end)
  end.
Definition run_lql_query (o : HashOrder) (query : string) (f : ClusterField) : ClusterField * Reply := run_query o false query f.

(** *** Mirror *)
Definition timeline_limit (parts : list string) : result (option Z) string :=
  match parts with
  | [] => Ok None
  | arg :: parts =>
      if eq_ignore_ascii_case arg "top" then
        match parts with
        | [] => Ok None
        | value :: _ => let! n := read_u64 value in Ok (Some n)
        end
      else let! n := read_u64 arg in Ok (Some n)
  end.
Definition set_mode (mode : string) (c : ReplayConfig) : ReplayConfig :=
  mkReplayConfig mode (rc_scale c) (rc_max_ops c) (rc_protect_salience c).
Definition set_scale (scale : f32) (c : ReplayConfig) : ReplayConfig :=
  mkReplayConfig (rc_mode c) scale (rc_max_ops c) (rc_protect_salience c).
Fixpoint replay_options (parts : list string) (c : ReplayConfig) : result ReplayConfig string :=
  match parts with
  | [] => Ok c
  | token :: parts =>
      let token := to_lowercase token in
      if decide (token = "dry" \/ token = "apply") then replay_options parts (set_mode token c)
      else if decide (token = "scale") then
        match parts with
        | [] => Err "scale requires a value"
        | value :: parts => let! scale := read_f32 value in replay_options parts (set_scale scale c)
        end
      else Err ("unknown replay option: " +:+ token)
  end.
Definition replay_args (parts : list string) : result (Z * ReplayConfig) string :=
  match parts with
  | [] => Err "usage: :mirror replay <epoch_id> [dry|apply] [scale <f>]"
  | id :: parts =>
      let! epoch_id := read_u64 id in
      let! cfg := replay_options parts ReplayConfig_default in
      Ok (epoch_id, cfg)
  end.
Definition count_arg (parts : list string) : Z := default 10%Z (head parts ≫= parse_usize).
Definition print_impacts (impacts : list f32) : list Out :=
  match impacts with
  | [] => [Println "MIRROR_STATS none"]
  | _ =>
      let n := Z.of_nat (length impacts) in
      let positives := Z.of_nat (length (List.filter (fun v => f_lt f0 v) impacts)) in
      [Println ("MIRROR_STATS window=" +:+ fmt_nat n +:+ " avg=" +:+ fmt_fixed 3 (f32_div (f32_sum impacts) (f32_of_Z n))
         +:+ " pos=" +:+ fmt_nat positives +:+ " neg=" +:+ fmt_nat (n - positives))]
  end.

Definition handle_mirror_command (o : HashOrder) (took : Z) (command : string) (f : ClusterField) : ClusterField * Reply :=
  let parts := split_whitespace command in
  let sub := trim (default "" (head parts)) in
  let parts := tail parts in
  if decide (sub = "" \/ sub = "help") then
    (f, Ok [Eprintln (join (of_bytes [Byte.x0a])
       ["usage: :mirror <timeline|top|replay|stats> [options]"; "  timeline [top N]"; "  top [N]";
        "  replay <epoch_id> [dry|apply] [scale <f>]"; "  stats [N]"])])
  else if decide (sub = "timeline") then
    (f, let! limit := timeline_limit parts in Ok (print_mirror_timeline (mirror_timeline f) limit))
  else if decide (sub = "top") then (f, Ok (print_top (mirror_top_influencers (count_arg parts) f)))
  else if decide (sub = "replay") then
    match replay_args parts with
    | Err e => (f, Err e)
    | Ok (epoch_id, cfg) =>
        let '(f, report) := replay_epoch_by_id o epoch_id cfg took f in (f, Ok (print_replay_report report))
    end
  else if decide (sub = "stats") then (f, Ok (print_impacts (mirror_recent_impacts (Z.to_nat (count_arg parts)) f)))
  else (f, Err ("unknown mirror subcommand: " +:+ sub)).

(** *** Collective dreams *)
(** The answer to [now]: [g] is how the payload is shown. *)
Definition sync_report_outputs (g : json -> list Out) (report : option SyncReport) : list Out :=
  match report with
  | Some report => concat (map (print_field_event g) (collective_report_events report))
  | None => [Println "COLLECTIVE_DREAM no-op (no qualifying groups)"]
  end.
Definition update_sync (cfg : SyncConfig) (f : ClusterField) : ClusterField * list Out :=
  let f := set_sync_config cfg f in
  (f, [Println ("SYNC_CONFIG " +:+ pretty_sync_config (sync_cfg (cycles f)))]).
Definition sync_stat (entry : Z * SyncReport) : Out :=
  let '(ts, r) := entry in
  Println ("SYNC_STATS ts=" +:+ fmt_nat ts +:+ " groups=" +:+ fmt_nat (sr_groups r) +:+ " shared=" +:+ fmt_nat (sr_shared r)
    +:+ " aligned=" +:+ fmt_nat (sr_aligned r) +:+ " protected=" +:+ fmt_nat (sr_protected r)
    +:+ " took=" +:+ fmt_nat (sr_took_ms r) +:+ "ms").

Definition handle_sync_command (o : HashOrder) (took : Z) (command : string) (f : ClusterField) : ClusterField * Reply :=
  let '(sub, raw) := subcommand command in
  if decide (sub = "" \/ sub = "cfg") then (f, Ok [Println (pretty_sync_config (sync_cfg (cycles f)))])
  else if decide (sub = "set") then
    if decide (raw = "") then (f, Err "usage: :sync set <json>")
    else
      match sync_from_str raw with
      | Err e => (f, Err e)
      | Ok cfg => let '(f, out) := update_sync cfg f in (f, Ok out)
      end
  else if decide (sub = "now") then
    let '(f, report) := sync_now o took f in (f, Ok (sync_report_outputs print_pretty report))
  else if decide (sub = "stats") then
    (f, Ok match last_sync_reports 3 f with [] => [Println "SYNC_STATS none"] | reports => map sync_stat reports end)
  else if decide (sub = "help") then (f, Ok [Println "sync commands: cfg | set <json> | now | stats"])
  else (f, Err ("unknown sync subcommand: " +:+ sub)).

(** *** Awakening *)
Definition update_awakening (u : AwakeningConfigUpdate) (f : ClusterField) : ClusterField * list Out :=
  let cfg := awaken_update_apply u (awakening_cfg (cycles f)) in
  (set_awakening_config cfg f, show_awaken (awaken_config_event cfg "set")).
Definition show_awakening_config (f : ClusterField) : list Out :=
  show_awaken (awaken_config_event (awakening_cfg (cycles f)) "cfg").

Definition handle_awaken_command (o : HashOrder) (command : string) (f : ClusterField) : ClusterField * Reply :=
  let '(sub, raw) := subcommand command in
  if decide (sub = "" \/ sub = "cfg") then (f, Ok (show_awakening_config f))
  else if decide (sub = "set") then
    if decide (raw = "") then (f, Err "usage: :awaken set <json>")
    else
      match awaken_update_from_str raw with
      | Err e => (f, Err e)
      | Ok update => let '(f, out) := update_awakening update f in (f, Ok out)
      end
  else if decide (sub = "now") then
    let '(f, report) := awaken_now o f in (f, Ok (show_awaken (awaken_report_event report)))
  else if decide (sub = "help") then (f, Ok [Println "awaken commands: cfg | set <json> | now"])
  else (f, Err ("unknown awaken subcommand: " +:+ sub)).

(** *** Introspection

    [main.rs] has copies of [ensure_resonant_model], [top_nodes], [top_influences], [top_tensions] and the events
    of [ffi.rs]. *)
Definition introspect_event_from_field (o : HashOrder) (target : IntrospectTarget) (top : option Z) (f : ClusterField)
  : ClusterField * json := build_introspect_event o target top f.
Definition introspect_reply (o : HashOrder) (target : IntrospectTarget) (top : option Z) (f : ClusterField)
  : ClusterField * list Out :=
  let '(f, e) := introspect_event_from_field o target top f in (f, show_introspect e).

Fixpoint introspect_top (sub : string) (parts : list string) (top : option Z) : result (option Z) string :=
  match parts with
  | [] => Ok top
  | token :: parts =>
      if eq_ignore_ascii_case token "top" then
        match parts with
        | [] => Err ("usage: :introspect " +:+ sub +:+ " top <n>")
        | value :: parts =>
            let! parsed := ok_or (parse_u32 value) ("top expects a positive integer, got " +:+ value) in
            if (parsed =? 0)%Z then Err "top must be greater than zero" else introspect_top sub parts (Some parsed)
        end
      else Err ("unexpected argument '" +:+ token +:+ "'")
  end.
Definition introspect_target (sub : string) : result IntrospectTarget string :=
  if decide (sub = "model") then Ok TModel
  else if decide (sub = "influence") then Ok TInfluence
  else if decide (sub = "tension") then Ok TTension
  else Err ("unknown introspect target: " +:+ sub).

Definition handle_introspect_command (o : HashOrder) (command : string) (f : ClusterField) : ClusterField * Reply :=
  let parts := split_whitespace command in
  let sub := trim (default "" (head parts)) in
  if bool_decide (sub = "") || eq_ignore_ascii_case sub "help" then
    (f, Ok [Println "introspect commands: model top <n> | influence top <n> | tension top <n>"])
  else
    match (let! target := introspect_target sub in
           let! top := introspect_top sub (tail parts) None in
           Ok (target, top)) with
    | Err e => (f, Err e)
    | Ok (target, top) => let '(f, out) := introspect_reply o target top f in (f, Ok out)
    end.

(** *** Dreams *)
Definition dream_report_outputs (g : json -> list Out) (report : option DreamReport) : list Out :=
  match report with
  | Some report => concat (map (print_field_event g) (dream_events report))
  | None => [Println "DREAM no-op (not enough activity)"]
  end.
Definition update_dream (u : DreamConfigUpdate) (f : ClusterField) : ClusterField * list Out :=
  let cfg := dream_update_apply u (dream_cfg (cycles f)) in
  (set_dream_config cfg f, [Println ("DREAM_CONFIG " +:+ pretty_dream_config cfg)]).
Definition dream_stat (entry : Z * DreamReport) : Out :=
  let '(ts, r) := entry in
  Println ("DREAM_STATS ts=" +:+ fmt_nat ts +:+ " strengthened=" +:+ fmt_nat (dr_strengthened r)
    +:+ " weakened=" +:+ fmt_nat (dr_weakened r) +:+ " pruned=" +:+ fmt_nat (dr_pruned r)
    +:+ " rewired=" +:+ fmt_nat (dr_rewired r) +:+ " protected=" +:+ fmt_nat (dr_protected r)
    +:+ " took=" +:+ fmt_nat (dr_took_ms r) +:+ "ms").

Definition handle_dream_command (o : HashOrder) (took : Z) (command : string) (f : ClusterField) : ClusterField * Reply :=
  let '(sub, raw) := subcommand command in
  if decide (sub = "" \/ sub = "cfg") then (f, Ok [Println (pretty_dream_config (dream_cfg (cycles f)))])
  else if decide (sub = "now") then
    let '(f, report) := run_dream_cycle o took f in (f, Ok (dream_report_outputs print_pretty report))
  else if decide (sub = "set") then
    if decide (raw = "") then (f, Err "usage: :dream set <json>")
    else
      match dream_update_from_str raw with
      | Err e => (f, Err e)
      | Ok update => let '(f, out) := update_dream update f in (f, Ok out)
      end
  else if decide (sub = "stats") then
    (f, Ok match last_dream_reports 3 f with [] => [Println "DREAM_STATS none"] | reports => map dream_stat reports end)
  else if decide (sub = "help") then (f, Ok [Println "dream commands: now | cfg | set <json> | stats"])
  else (f, Err ("unknown dream subcommand: " +:+ sub)).

(** *** The network *)
(** [clients] is the list of the hub, [now] the time its ages are counted to. *)
Definition handle_ws_command (clients : list ClientSnapshot) (now : Z) (remote : Remote) (command : string) : Reply :=
  let '(sub, payload) := subcommand command in
  if decide (sub = "" \/ sub = "help") then Ok [Println "WS commands: info | send <json> | broadcast <json>"]
  else if decide (sub = "info") then
    Ok (match clients with
        | [] => [Println "WS no clients connected"]
        | _ => map (fun line => Println ("WS " +:+ line)) (format_clients now clients)
        end
        ++ match remote with NotConnected => [] | _ => [Println "WS nexus-client connected"] end)
  else if decide (sub = "send") then
    if decide (payload = "") then Err "usage: :ws send <json>"
    else
      let! value := read_json payload in
      let! out := send_remote_command remote value in
      Ok (out ++ [Println "WS send queued"])
  else if decide (sub = "broadcast") then
    if decide (payload = "") then Err "usage: :ws broadcast <json>"
    else let! value := read_json payload in Ok [Publish value; Println "WS broadcast queued"]
  else Err ("unknown ws subcommand: " +:+ sub).

Fixpoint peer_namespace (tokens : list string) (namespace : option string) : option string :=
  match tokens with
  | [] => namespace
  | token :: tokens =>
      if eq_ignore_ascii_case token "ns" then
        match tokens with
        | [] => namespace
        | value :: tokens => peer_namespace tokens (Some value)
        end
      else peer_namespace tokens namespace
  end.
(** The word after the address is taken as the credence, whatever it is. *)
Definition peer_add (remote : Remote) (parts : list string) : Reply :=
  match parts with
  | [] => Err "usage: :peers add <url> [credence] [ns <name>]"
  | url :: parts =>
      let credence := default (lit 5 10) (unit_clamp <$> (head parts ≫= parse_f32)) in
      let namespace := peer_namespace (tail parts) None in
      let! out :=
        send_remote_command remote
          (json_obj [("cmd", JStr "peer.add");
                     ("peer", json_obj [("url", JStr url); ("credence", json_f32 credence);
                                        ("ns", json_or_null JStr namespace)])]) in
      Ok (out ++ [Println ("PEERS add url=" +:+ url +:+ " credence=" +:+ fmt_fixed 2 credence)])
  end.
Definition handle_peer_command (remote : Remote) (command : string) : Reply :=
  let parts := split_whitespace command in
  let sub := trim (default "" (head parts)) in
  if decide (sub = "" \/ sub = "help") then
    Ok [Println "PEERS usage: :peers add <url> [credence] [ns <name>] | :peers list"]
  else if decide (sub = "add") then peer_add remote (tail parts)
  else if decide (sub = "list") then
    let! out := send_remote_command remote (json_obj [("cmd", JStr "peer.list")]) in
    Ok (out ++ [Println "PEERS list requested"])
  else Err ("unknown peers subcommand: " +:+ sub).

Definition propose_json (obj : string) (data : json) : json :=
  json_obj [("cmd", JStr "noetic.propose"); ("obj", JStr obj); ("data", data)].
Definition noetic_propose (remote : Remote) (parts : list string) (f : ClusterField) : Reply :=
  match parts with
  | [] => Err "usage: :noetic propose <model|seed|policy> ..."
  | kind :: parts =>
      if decide (kind = "model") then
        let snapshot := model_truncated 32 (default ResonantModel_default (cached_resonant_model (cycles f))) in
        let! out := send_remote_command remote (propose_json "model" (model_json snapshot)) in
        Ok (out ++ [Println "NOETIC propose model sent"])
      else if decide (kind = "seed") then
        match parts with
        | [] => Err "usage: :noetic propose seed <seed_id>"
        | seed_id :: _ =>
            let! out := send_remote_command remote (propose_json "seed" (json_obj [("id", JStr seed_id)])) in
            Ok (out ++ [Println ("NOETIC propose seed id=" +:+ seed_id)])
        end
      else if decide (kind = "policy") then
        let raw := join " " parts in
        if decide (trim raw = "") then Err "usage: :noetic propose policy <json>"
        else
          let! value := read_json raw in
          let! out := send_remote_command remote (propose_json "policy" value) in
          Ok (out ++ [Println "NOETIC propose policy queued"])
      else Err ("unknown noetic object: " +:+ kind)
  end.
Definition handle_noetic_command (remote : Remote) (command : string) (f : ClusterField) : Reply :=
  let parts := split_whitespace command in
  let sub := trim (default "" (head parts)) in
  if decide (sub = "" \/ sub = "help") then
    Ok [Println "NOETIC usage: :noetic propose model | :noetic propose seed <id> | :noetic propose policy <json> | :noetic quorum <value>"]
  else if decide (sub = "propose") then noetic_propose remote (tail parts) f
  else if decide (sub = "quorum") then
    let! value_raw := ok_or (head (tail parts)) "usage: :noetic quorum <0..1>" in
    let! q := ok_or (parse_f32 value_raw) "invalid quorum value" in
    let q := unit_clamp q in
    let! out := send_remote_command remote (json_obj [("cmd", JStr "noetic.quorum"); ("q", json_f32 q)]) in
    Ok (out ++ [Println ("NOETIC quorum set to " +:+ fmt_fixed 2 q)])
  else Err ("unknown noetic subcommand: " +:+ sub).

(** [io] is the answer of the file system. *)
Definition export_snapshot (o : HashOrder) (io : result unit string) (path : string) (f : ClusterField) : list Out :=
  let snapshot_json :=
    json_obj [("now_ms", JU64 (now_ms f)); ("next_id", JU64 (next_id (graph f)));
              ("cells", JArr (map (cell_snapshot_json ∘ snapshot_of_cell) (hm_values o (cells (graph f)))))] in
  match io with
  | Ok _ => [WriteFile path (cli_pretty snapshot_json); Println ("EXPORTED snapshot -> " +:+ path)]
  | Err err => [Eprintln ("export failed: " +:+ err)]
  end.

(** ** Commands of the network *)
Definition handle_network_command (o : HashOrder) (took : Z) (command : IncomingCommand) (f : ClusterField)
  : ClusterField * Reply :=
  match command with
  | InImpulse data => (f, let! impulse := parse_impulse_json data in Ok [SendImpulse impulse])
  | InLql query => run_query o true query f
  | InPolicySet data => (f, Ok [Println ("POLICY_SET " +:+ json_debug data)])
  | InSubscribe _ => (f, Ok [])
  | InDreamNow => let '(f, report) := run_dream_cycle o took f in (f, Ok (dream_report_outputs print_compact report))
  | InDreamSet cfg =>
      match dream_update_from_value cfg with
      | Err e => (f, Err e)
      | Ok update => let '(f, out) := update_dream update f in (f, Ok out)
      end
  | InDreamGet => (f, Ok [Println (pretty_dream_config (dream_cfg (cycles f)))])
  | InSyncNow => let '(f, report) := sync_now o took f in (f, Ok (sync_report_outputs print_compact report))
  | InSyncSet cfg =>
      match sync_from_value cfg with
      | Err e => (f, Err e)
      | Ok cfg => let '(f, out) := update_sync cfg f in (f, Ok out)
      end
  | InSyncGet => (f, Ok [Println (pretty_sync_config (sync_cfg (cycles f)))])
  | InAwakenSet cfg =>
      match awaken_update_from_value cfg with
      | Err e => (f, Err e)
      | Ok update => let '(f, out) := update_awakening update f in (f, Ok out)
      end
  | InAwakenGet => (f, Ok (show_awakening_config f))
  | InIntrospect target top => let '(f, out) := introspect_reply o target top f in (f, Ok out)
  | InMirrorTimeline top => (f, Ok (print_mirror_timeline (mirror_timeline f) top))
  | InMirrorInfluencers k => (f, Ok (print_top (mirror_top_influencers (default 10%Z k) f)))
  | InMirrorReplay epoch_id cfg =>
      match match cfg with Some value => let! cfg := replay_from_value value in Ok (Some cfg) | None => Ok None end with
      | Err e => (f, Err e)
      | Ok cfg =>
          let '(f, report) := replay_epoch_by_id o epoch_id (default ReplayConfig_default cfg) took f in
          (f, Ok (print_replay_report report))
      end
  | InRaw value => (f, Ok [Println ("WS RAW " +:+ json_to_string value)])
  end.
End handlers.

(** ** The process *)
Record Cli : Type := mkCli {
  cli_field : ClusterField;
  cli_journal : option DiskJournal;
  cli_cfg : option SnapshotConfig;
  cli_hints : list Hint;
  cli_queue : list Impulse;
  cli_remote : Remote
}.
Definition put_field (f : ClusterField) (j : option DiskJournal) (c : Cli) : Cli :=
  mkCli f j (cli_cfg c) (cli_hints c) (cli_queue c) (cli_remote c).
Definition put_hints (hints : list Hint) (c : Cli) : Cli :=
  mkCli (cli_field c) (cli_journal c) (cli_cfg c) hints (cli_queue c) (cli_remote c).
Definition put_queue (queue : list Impulse) (c : Cli) : Cli :=
  mkCli (cli_field c) (cli_journal c) (cli_cfg c) (cli_hints c) queue (cli_remote c).

(** What a line of the console is given: the order of the maps, the time a cycle takes, the clients of the
    hub, the time, and the answer of the file system. *)
Record LineInput : Type := mkLineInput {
  li_order : HashOrder;
  li_took : Z;
  li_clients : list ClientSnapshot;
  li_now : Z;
  li_io : result unit string
}.

Definition metrics_json (m : Metrics) : json :=
  json_obj [("cells", JU64 (m_cells m)); ("sleeping_pct", json_f32 (sleeping_pct m));
            ("avg_metabolism", json_f32 (avg_metabolism m)); ("avg_latency_ms", json_f32 (avg_latency_ms m));
            ("active_pct", json_f32 (active_pct m)); ("live_load", json_f32 (live_load m))].

Definition reported (what : string) (r : Reply) : list Out :=
  match r with
  | Ok out => out
  | Err e => [Eprintln (what +:+ " failed: " +:+ e)]
  end.
(** The impulses among the outputs; the channel to the task that routes them lives as long as the process. *)
Definition sent (out : list Out) : list Impulse :=
  omap (fun o => match o with SendImpulse impulse => Some impulse | _ => None end) out.

Definition affect_usage : Out := Eprintln "usage: :affect noradrenaline <strength 0..1> <ttl_ms>".
Definition affect_command (args : string) : list Out :=
  match split_whitespace args with
  | hormone :: parts =>
      if eq_ignore_ascii_case hormone "noradrenaline" then
        match parts with
        | strength_str :: ttl_str :: _ =>
            match unit_clamp <$> parse_f32 strength_str, parse_u64 (as_bytes ttl_str) with
            | Some strength, Some ttl_ms =>
                [SendImpulse (mkImpulse Affect "affect/noradrenaline" strength ttl_ms ["cli"; "hormone"])]
            | _, _ => [affect_usage]
            end
        | _ => [affect_usage]
        end
      else [Eprintln "unknown :affect command; expected 'noradrenaline <strength> <ttl_ms>'"]
  | [] => [Eprintln "unknown :affect command; expected 'noradrenaline <strength> <ttl_ms>'"]
  end.

Section process.
Context `{UnicodeCase, FloatMath, SeedRng, JsonText, Lql.QueryJson, CliEnv, LifeEnv, Crc32, Cbor EventDelta}.
Context `{Cbor StoreManifest, Cbor SnapshotEnvelope}.

(** A step on the field under its lock; the journal, when there is one, gets the deltas. What the step
    sends is queued. *)
Definition with_lock {A : Type} (step : ClusterField -> ClusterField * A) (c : Cli) : Cli * A :=
  match cli_journal c with
  | Some j => let '(f, a) := step (attached (cli_field c)) in (put_field f (Some (append_deltas (emitted f) j)) c, a)
  | None => let '(f, a) := step (cli_field c) in (put_field f None c, a)
  end.
Definition queue_sent (c : Cli) (out : list Out) : Cli * list Out := (put_queue (cli_queue c ++ sent out) c, out).
Definition serve (step : ClusterField -> ClusterField * list Out) (c : Cli) : Cli * list Out :=
  let '(c, out) := with_lock step c in queue_sent c out.
Definition serve_reply (what : string) (step : ClusterField -> ClusterField * Reply) (c : Cli) : Cli * list Out :=
  let '(c, r) := with_lock step c in queue_sent c (reported what r).

(** A snapshot and the compaction after it. *)
Definition take_snapshot (o : HashOrder) (prefix failed : string) (j : DiskJournal) (c : Cli) : Cli * list Out :=
  let '(j, r) := write_snapshot o (cli_field c) j in
  match r with
  | Ok info =>
      let '(j, gc) := run_gc (si_offset info) j in
      (put_field (cli_field c) (Some j) c,
       match gc with Err e => [Eprintln ("snapshot GC failed: " +:+ store_error_text e)] | Ok _ => [] end
       ++ [log_snapshot prefix info])
  | Err e => (put_field (cli_field c) (Some j) c, [Eprintln (failed +:+ ": " +:+ store_error_text e)])
  end.

(** The rest of a line after its colon. *)
Definition run_colon (i : LineInput) (rest : string) (c : Cli) : Cli * list Out :=
  let o := li_order i in
  let took := li_took i in
  let arg (name : string) : string := trim (trim_start_matches name rest) in
  let starts (name : string) : bool := starts_with name rest in
  if decide (rest = "snapshot") then
    match cli_journal c with
    | Some j => take_snapshot o "" "snapshot failed" j c
    | None => (c, [Eprintln "storage not configured; use --store to enable snapshots"])
    end
  else if decide (rest = "harmony") then (c, print_harmony_snapshot (symmetry_snapshot (cli_field c)))
  else if decide (rest = "stats") then
    match cli_journal c with
    | Some j => (c, print_stats (stats j))
    | None => (c, [Eprintln "storage not configured; use --store to enable stats"])
    end
  else if starts "export" then
    (c, if decide (arg "export" = "") then [Eprintln "usage: :export <file>"]
        else export_snapshot o (li_io i) (arg "export") (cli_field c))
  else if existsb starts ["variants"; "intend"; "slide"; "commit"; "pivot"; "defuse"] then
    serve_reply "LQL command" (run_lql_query o rest) c
  else if starts "reflex" then serve (handle_reflex_command (arg "reflex")) c
  else if starts "affect" then queue_sent c (affect_command (arg "affect"))
  else if starts "dream" then serve_reply "dream command" (handle_dream_command o took (arg "dream")) c
  else if starts "awaken" then serve_reply "awaken command" (handle_awaken_command o (arg "awaken")) c
  else if starts "introspect" then serve_reply "introspect command" (handle_introspect_command o (arg "introspect")) c
  else if starts "sync" then serve_reply "sync command" (handle_sync_command o took (arg "sync")) c
  else if starts "mirror" then serve_reply "mirror command" (handle_mirror_command o took (arg "mirror")) c
  else if starts "peers" then queue_sent c (reported "peers command" (handle_peer_command (cli_remote c) (arg "peers")))
  else if starts "noetic" then
    queue_sent c (reported "noetic command" (handle_noetic_command (cli_remote c) (arg "noetic") (cli_field c)))
  else if starts "ws" then
    queue_sent c (reported "ws command" (handle_ws_command (li_clients i) (li_now i) (cli_remote c) (arg "ws")))
  else if starts "trs" then serve_reply "TRS command" (handle_trs_command (arg "trs")) c
  else (c, [Eprintln ("Unknown command: :" +:+ rest)]).

Definition lql_usage : Out := Eprintln "usage: lql <SELECT|SUBSCRIBE|UNSUBSCRIBE ...>".
(** A line of the console. *)
Definition run_line (i : LineInput) (line : string) (c : Cli) : Cli * list Out :=
  let trimmed := trim line in
  let impulse : Cli * list Out :=
    match parse_command trimmed with
    | Some impulse => queue_sent c [SendImpulse impulse]
    | None => (c, [Eprintln ("Unknown command: " +:+ trimmed)])
    end in
  if decide (trimmed = "") then (c, [])
  else
    match strip_prefix_str ":" trimmed with
    | Some rest => run_colon i rest c
    | None =>
        if eq_ignore_ascii_case trimmed "lql" then (c, [lql_usage])
        else
          match split_once " " trimmed with
          | Some (prefix, rest) =>
              if eq_ignore_ascii_case prefix "lql" then
                let query := trim rest in
                if decide (query = "") then (c, [lql_usage])
                else serve_reply "LQL execution" (run_lql_query (li_order i) query) c
              else impulse
          | None => impulse
          end
    end.

(** A command of the network. *)
Definition run_network (o : HashOrder) (took : Z) (command : IncomingCommand) (c : Cli) : Cli * list Out :=
  serve_reply "ws command" (handle_network_command o took command) c.

(** The task that routes the queued impulses. *)
Definition route_next (o : HashOrder) (c : Cli) : Cli * list Out :=
  match cli_queue c with
  | [] => (c, [])
  | impulse :: queue =>
      let '(c, logs) := with_lock (route_impulse o impulse) (put_queue queue c) in
      (c, map (fun log => Println ("IMPULSE " +:+ log)) logs)
  end.
(** An impulse of a sensor, and an event of the other server. *)
Definition sense (impulse : Impulse) (c : Cli) : Cli := put_queue (cli_queue c ++ [impulse]) c.
Definition hear (value : json) : list Out := [Publish value].

(** The callbacks of the life loop. *)
Definition cli_output (r : Cli * list Out) (output : LifeOutput) : Cli * list Out :=
  let '(c, out) := r in
  match output with
  | OMetrics m =>
      (put_hints [] c,
       out ++ [Println ("METRICS cells=" +:+ fmt_nat (m_cells m) +:+ " sleeping=" +:+ fmt_fixed 2 (sleeping_pct m)
                 +:+ " active=" +:+ fmt_fixed 2 (active_pct m) +:+ " avgMet=" +:+ fmt_fixed 2 (avg_metabolism m)
                 +:+ " avgLat=" +:+ fmt_fixed 1 (avg_latency_ms m) +:+ " live=" +:+ fmt_fixed 2 (live_load m)
                 +:+ " | HINTS: " +:+ fmt_debug_list (map Hint_debug (cli_hints c)));
               PublishMetrics (json_obj [("ev", JStr "metrics"); ("metrics", metrics_json m)])])
  | OEvent e =>
      (c, out ++ print_event_line (event_text e) ++ (Publish <$> option_list (json_from_str (event_text e))))
  | OHint hint => (put_hints (cli_hints c ++ [hint]) c, out)
  end.
(** A round of the life loop; [None] is a panic of its task. *)
Definition cli_round (i : LifeInput) (s : LifeState) (c : Cli) : option (LifeState * Cli * list Out) :=
  let f := match cli_journal c with Some _ => attached (cli_field c) | None => cli_field c end in
  match life_round i s f with
  | None => None
  | Some (s, f, outputs) =>
      let c := put_field f (append_deltas (emitted f) <$> cli_journal c) c in
      let '(c, out) := fold_left cli_output outputs (c, []) in
      Some (s, c, out)
  end.

(** A round of the snapshot loop, [elapsed] seconds after the last snapshot. *)
Definition cli_snapshot (o : HashOrder) (elapsed : Z) (c : Cli) : Cli * list Out :=
  match cli_journal c, cli_cfg c with
  | Some j, Some cfg =>
      if snapshot_due cfg elapsed (mkDb (cli_field c) j) then take_snapshot o "AUTO-" "auto snapshot failed" j c else (c, [])
  | _, _ => (c, [])
  end.

(** ** The arguments and the start *)
Record StoreRuntimeConfig : Type := mkStoreRuntime {
  rt_backend : StoreBackend;
  rt_snap_interval : Z;
  rt_max_wal_events : Z;
  rt_metrics_dir : option string
}.
Record WsRuntimeConfig : Type := mkWsRuntime {
  wr_port : Z;
  wr_format : StreamCodec.StreamFormat;
  wr_nexus_client : option string
}.
Definition backend_path (b : StoreBackend) : string := let '(Sled path) := b in path.

Definition run_interactive (os : nat -> HashOrder) (root : string -> Root) (store : option StoreRuntimeConfig)
    (ws : WsRuntimeConfig) (mirror_interval_ms : Z) : result (Cli * BridgeHub) StoreError :=
  let! start :=
    match store with
    | Some cfg =>
        let! db := open_database os (root (backend_path (rt_backend cfg))) in
        Ok (db_field db, Some (db_journal db), Some (mkSnapshotConfig (rt_snap_interval cfg) (rt_max_wal_events cfg)))
    | None => Ok (fst (add_root (os 0) "liminal/root" ClusterField_new), None, None)
    end in
  let '(f, j, cfg) := start in
  let '(hub, _) := take_command_receiver (set_default_format (wr_format ws) BridgeHub_new) in
  Ok (mkCli (set_mirror_interval mirror_interval_ms f) j cfg [] [] NotConnected, hub).
End process.

(** The options with a value, in the order of the code. *)
Inductive Opt : Type := OStore | OStoreUri | OMetricsDir | OSnapInterval | OSnapMaxwal | OWsPort | OWsFormat | ONexus | OMirror.
Record Args : Type := mkArgs {
  pipe_cbor : bool;
  store_uri : option string;
  metrics_dir : option string;
  snap_interval_secs : Z;
  snap_maxwal : Z;
  ws_port : Z;
  ws_format : StreamCodec.StreamFormat;
  nexus_client : option string;
  mirror_interval_ms : Z
}.
Definition Args_default : Args := mkArgs false None None 60 5000 8787 StreamCodec.Json None 2000.

Definition opt_flag (opt : Opt) : string :=
  match opt with
  | OStore => "--store" | OStoreUri => "--store-uri" | OMetricsDir => "--metrics-dir" | OSnapInterval => "--snap-interval"
  | OSnapMaxwal => "--snap-maxwal" | OWsPort => "--ws-port" | OWsFormat => "--ws-format" | ONexus => "--nexus-client"
  | OMirror => "--mirror-interval"
  end.
Definition all_opts : list Opt := [OStore; OStoreUri; OMetricsDir; OSnapInterval; OSnapMaxwal; OWsPort; OWsFormat; ONexus; OMirror].
Definition opt_of (arg : string) : option Opt := List.find (fun opt => bool_decide (opt_flag opt = arg)) all_opts.
Definition opt_requires (opt : Opt) : string :=
  match opt with
  | OStore | OMetricsDir => "a path" | OStoreUri | OWsFormat => "a value" | OSnapInterval => "seconds"
  | OSnapMaxwal => "a number" | OWsPort => "a port" | ONexus => "a url" | OMirror => "milliseconds"
  end.

Definition set_pipe (a : Args) : Args :=
  mkArgs true (store_uri a) (metrics_dir a) (snap_interval_secs a) (snap_maxwal a) (ws_port a) (ws_format a)
    (nexus_client a) (mirror_interval_ms a).
(** [v] in the place of the value of [opt]. *)
Definition set_store_uri (uri : string) (a : Args) : Args :=
  mkArgs (pipe_cbor a) (Some uri) (metrics_dir a) (snap_interval_secs a) (snap_maxwal a) (ws_port a) (ws_format a)
    (nexus_client a) (mirror_interval_ms a).
Definition set_metrics_dir (dir : string) (a : Args) : Args :=
  mkArgs (pipe_cbor a) (store_uri a) (Some dir) (snap_interval_secs a) (snap_maxwal a) (ws_port a) (ws_format a)
    (nexus_client a) (mirror_interval_ms a).
Definition set_snap_interval (secs : Z) (a : Args) : Args :=
  mkArgs (pipe_cbor a) (store_uri a) (metrics_dir a) secs (snap_maxwal a) (ws_port a) (ws_format a)
    (nexus_client a) (mirror_interval_ms a).
Definition set_snap_maxwal (n : Z) (a : Args) : Args :=
  mkArgs (pipe_cbor a) (store_uri a) (metrics_dir a) (snap_interval_secs a) n (ws_port a) (ws_format a)
    (nexus_client a) (mirror_interval_ms a).
Definition set_ws_port (port : Z) (a : Args) : Args :=
  mkArgs (pipe_cbor a) (store_uri a) (metrics_dir a) (snap_interval_secs a) (snap_maxwal a) port (ws_format a)
    (nexus_client a) (mirror_interval_ms a).
Definition set_ws_format (format : StreamCodec.StreamFormat) (a : Args) : Args :=
  mkArgs (pipe_cbor a) (store_uri a) (metrics_dir a) (snap_interval_secs a) (snap_maxwal a) (ws_port a) format
    (nexus_client a) (mirror_interval_ms a).
Definition set_nexus (url : string) (a : Args) : Args :=
  mkArgs (pipe_cbor a) (store_uri a) (metrics_dir a) (snap_interval_secs a) (snap_maxwal a) (ws_port a) (ws_format a)
    (Some url) (mirror_interval_ms a).
Definition set_mirror_ms (ms : Z) (a : Args) : Args :=
  mkArgs (pipe_cbor a) (store_uri a) (metrics_dir a) (snap_interval_secs a) (snap_maxwal a) (ws_port a) (ws_format a)
    (nexus_client a) ms.

Section arguments.
Context `{UnicodeCase}.

(** A number of at least [low]. *)
Definition positive (value complaint low_complaint : string) (low : Z) : result Z string :=
  let! n := ok_or (parse_u64 (as_bytes value)) (complaint +:+ ", got " +:+ value) in
  if (n <? low)%Z then Err low_complaint else Ok n.

Definition apply_opt (opt : Opt) (value : string) (a : Args) : result Args string :=
  match opt with
  | OStore => Ok (set_store_uri ("sled://" +:+ value) a)
  | OStoreUri => Ok (set_store_uri value a)
  | OMetricsDir => Ok (set_metrics_dir value a)
  | OSnapInterval =>
      let! n := positive value "--snap-interval expects positive seconds" "--snap-interval must be greater than zero" 1 in
      Ok (set_snap_interval n a)
  | OSnapMaxwal =>
      let! n := positive value "--snap-maxwal expects a number" "--snap-maxwal must be greater than zero" 1 in
      Ok (set_snap_maxwal n a)
  | OWsPort =>
      let! port := ok_or (parse_u16 value) ("--ws-port expects a valid port, got " +:+ value) in
      Ok (set_ws_port port a)
  | OWsFormat =>
      let other := to_lowercase value in
      if decide (other = "json") then Ok (set_ws_format StreamCodec.Json a)
      else if decide (other = "cbor") then Ok (set_ws_format StreamCodec.Cbor_ a)
      else Err ("unsupported ws format: " +:+ other)
  | ONexus => Ok (set_nexus value a)
  | OMirror =>
      let! n := positive value "--mirror-interval expects a positive number" "--mirror-interval must be at least 200" 200 in
      Ok (set_mirror_ms n a)
  end.

Fixpoint parse_args (args : list string) (a : Args) : result Args string :=
  match args with
  | [] => Ok a
  | arg :: args =>
      if decide (arg = "--pipe-cbor") then parse_args args (set_pipe a)
      else
        match opt_of arg with
        | None => Err ("unknown argument: " +:+ arg)
        | Some opt =>
            match args with
            | [] => Err (arg +:+ " requires " +:+ opt_requires opt)
            | value :: args => let! a := apply_opt opt value a in parse_args args a
            end
        end
  end.

(** What [main] starts. *)
Inductive Mode : Type :=
| RunPipe (store : StoreRuntimeConfig)
| RunInteractive (store : StoreRuntimeConfig) (ws : WsRuntimeConfig) (mirror_interval_ms : Z).

Definition store_error (uri : string) : string :=
  match split_once "://" uri with
  | None => "invalid store uri: " +:+ uri
  | Some (scheme, _) => "unsupported store backend: " +:+ scheme
  end.
Definition cli_main (args : list string) : result Mode string :=
  let! a := parse_args args Args_default in
  let uri := default "sled://./data" (store_uri a) in
  let! backend := ok_or (parse_store_backend uri) (store_error uri) in
  let store := mkStoreRuntime backend (snap_interval_secs a) (snap_maxwal a) (metrics_dir a) in
  Ok (if pipe_cbor a then RunPipe store
      else RunInteractive store (mkWsRuntime (ws_port a) (ws_format a) (nexus_client a)) (mirror_interval_ms a)).
End arguments.

(** ** The pipe *)
Definition pipe_config (store : option StoreRuntimeConfig) : BridgeConfig :=
  mkBridgeConfig 200 ((backend_path ∘ rt_backend) <$> store) ((fun cfg => Z.min (rt_snap_interval cfg) u32_max) <$> store)
    ((fun cfg => Z.min (rt_max_wal_events cfg) u32_max) <$> store) None None.

(** [Vec::<u8>::from_hex] *)
Definition from_hex (s : string) : option bytes :=
  let b := as_bytes s in
  if Nat.even (length b) && forallb is_ascii_hexdigit b then Some (unhex b) else None.

Section pipe.
Context `{UnicodeCase, FloatMath, SeedRng, JsonText, BridgeEnv, Lql.QueryJson, CliEnv, Crc32, Cbor EventDelta}.
Context `{Cbor StoreManifest, Cbor SnapshotEnvelope, Cbor ProtocolPush, Cbor ProtocolPackage, Cbor BridgeConfig}.

Definition BUFFER : Z := 4096.
(** The bridge after the start, or the error of the process. *)
Definition pipe_start (os : nat -> HashOrder) (root : string -> Root) (peer : bytes) (now : Z) (store : option StoreRuntimeConfig)
  : result BridgeState string :=
  match to_vec (pipe_config store) with
  | Err e => Err e
  | Ok cfg_bytes =>
      match liminal_init os root peer now (Some cfg_bytes) None with
      | (Some b, true) => Ok b
      | _ => Err "failed to initialize liminal bridge"
      end
  end.

(** Packages are pulled until there is none; [fuel] bounds the pulls. *)
Fixpoint drain_outputs (fuel : nat) (state : option BridgeState) : option BridgeState * list Out :=
  match fuel with
  | O => (state, [])
  | S fuel =>
      let '(state, written) := liminal_pull BUFFER state in
      match written with
      | None | Some [] => (state, [])
      | Some b =>
          let '(state, out) := drain_outputs fuel state in (state, Println (of_bytes (hex_bytes b)) :: out)
      end
  end.
(** A pull takes the whole outbox, so that the next one finds nothing. *)
Definition drain (state : option BridgeState) : option BridgeState * list Out := drain_outputs 2 state.

(** A line of the standard input, and a turn of the timer or the end of the input. *)
Definition pipe_line (i : PushInput) (raw : string) (state : option BridgeState) : option BridgeState * list Out :=
  let trimmed := trim raw in
  if decide (trimmed = "") then (state, [])
  else
    let '(state, out) :=
      match from_hex trimmed with
      | Some b =>
          let '(state, result) := liminal_push i (Some b) state in
          (state, if (result =? 0)%Z then [Eprintln "bridge rejected impulse"] else [])
      | None => (state, [Eprintln ("invalid hex input: " +:+ hex_error trimmed)])
      end in
    let '(state, drained) := drain state in (state, out ++ drained).
Definition pipe_timer (state : option BridgeState) : option BridgeState * list Out := drain state.
End pipe.
