(* ===== verification/CliProps.v ===== *)
(** * What the command line does

    The arguments are read exactly ([args_exact]); a process driven over the network does what a bridge does
    that is pushed the same commands ([network_refines_bridge]); whatever the lines, the commands of the
    network, the impulses, the rounds of the loops and the restarts, a new process finds the durable part of the
    field ([cli_recovers]); and the pipe, whose buffer has a fixed size, is silent for good once its outbox has
    outgrown it ([pipe_delivers]). *)

From stdpp Require Import prelude gmap strings fin_maps list relations.
From Stdlib Require Import ZArith Lia SpecFloat.
From S2P Require Import Prelude RustStr Wal WalSpec WalProps Crypto RustOrd Float RustText Json NodeCell Trs Symmetry FieldTypes Feedback Variant Resonant Journal Collections Field FieldOps FieldRoute FieldTick FieldInv FieldReplay FieldSteps FieldSound FieldDream FieldAwaken FieldLql FieldCycles FieldProps LifeLoop LifeProps StoreFiles Snapshot Database FieldCodec DatabaseProps Protocol Bridge BridgeProps Server Cli.
From S2P Require Lql StreamCodec Consensus.

(** ** The arguments *)
Section arguments.
Context `{UnicodeCase}.

(** An option as it is written. *)
Inductive item : Type :=
| IPipe
| IOpt (opt : Opt) (value : string).
Definition render (it : item) : list string :=
  match it with
  | IPipe => ["--pipe-cbor"]
  | IOpt opt value => [opt_flag opt; value]
  end.
Definition item_ok (it : item) : Prop :=
  match it with
  | IOpt (OSnapInterval | OSnapMaxwal) value => exists n, parse_u64 (as_bytes value) = Some n /\ (1 <= n)%Z
  | IOpt OMirror value => exists n, parse_u64 (as_bytes value) = Some n /\ (200 <= n)%Z
  | IOpt OWsPort value => is_Some (parse_u16 value)
  | IOpt OWsFormat value => to_lowercase value = "json" \/ to_lowercase value = "cbor"
  | _ => True
  end.

(** What an item says of a setting. *)
Definition says_pipe (it : item) : option bool := match it with IPipe => Some true | _ => None end.
Definition says_uri (it : item) : option string :=
  match it with IOpt OStore path => Some ("sled://" +:+ path) | IOpt OStoreUri uri => Some uri | _ => None end.
Definition opt_index (opt : Opt) : nat :=
  match opt with
  | OStore => 0 | OStoreUri => 1 | OMetricsDir => 2 | OSnapInterval => 3 | OSnapMaxwal => 4 | OWsPort => 5 | OWsFormat => 6
  | ONexus => 7 | OMirror => 8
  end.
Definition says_text (opt : Opt) (it : item) : option string :=
  match it with IOpt opt' value => if (opt_index opt' =? opt_index opt)%nat then Some value else None | _ => None end.
Definition says_number (opt : Opt) (it : item) : option Z := says_text opt it ≫= fun v => parse_u64 (as_bytes v).
Definition says_format (it : item) : option StreamCodec.StreamFormat :=
  (fun v => if decide (to_lowercase v = "json") then StreamCodec.Json else StreamCodec.Cbor_) <$> says_text OWsFormat it.
(** The last item decides. *)
Definition setting {A : Type} (says : item -> option A) (items : list item) : option A := last (omap says items).
Definition args_of (items : list item) : Args :=
  mkArgs (default false (setting says_pipe items)) (setting says_uri items) (setting (says_text OMetricsDir) items)
    (default 60%Z (setting (says_number OSnapInterval) items)) (default 5000%Z (setting (says_number OSnapMaxwal) items))
    (default 8787%Z (setting (says_number OWsPort) items)) (default StreamCodec.Json (setting says_format items))
    (setting (says_text ONexus) items) (default 2000%Z (setting (says_number OMirror) items)).
Definition mode_of (backend : StoreBackend) (a : Args) : Mode :=
  let store := mkStoreRuntime backend (snap_interval_secs a) (snap_maxwal a) (metrics_dir a) in
  if pipe_cbor a then RunPipe store
  else RunInteractive store (mkWsRuntime (ws_port a) (ws_format a) (nexus_client a)) (mirror_interval_ms a).

Lemma setting_snoc {A} (says : item -> option A) items it :
  setting says (items ++ [it]) = match says it with Some v => Some v | None => setting says items end.
Proof.
  unfold setting. rewrite omap_app. cbn. destruct (says it) as [v|]; [by rewrite last_snoc | by rewrite app_nil_r].
Qed.

Lemma opt_of_flag opt : opt_of (opt_flag opt) = Some opt. Proof. by destruct opt. Qed.
Lemma opt_of_some arg opt : opt_of arg = Some opt -> arg = opt_flag opt.
Proof. intros Hf. apply find_some in Hf as [_ Hf]. symmetry. by apply bool_decide_eq_true in Hf. Qed.

Lemma positive_ok value e e' low n : positive value e e' low = Ok n <-> parse_u64 (as_bytes value) = Some n /\ (low <= n)%Z.
Proof.
  unfold positive. destruct (parse_u64 (as_bytes value)) as [m|]; cbn; [| by split; [| intros [[=] _]]].
  destruct (Z.ltb_spec m low); split; [done | intros [[= ->] ?]; lia | intros [= ->]; done | by intros [[= ->] _]].
Qed.

(** An item takes the settings of what comes before to its own. *)
Lemma item_step items opt value a :
  apply_opt opt value (args_of items) = Ok a <-> item_ok (IOpt opt value) /\ a = args_of (items ++ [IOpt opt value]).
Proof.
  unfold args_of. rewrite !setting_snoc.
  generalize (setting says_pipe items) (setting says_uri items) (setting (says_text OMetricsDir) items)
    (setting (says_number OSnapInterval) items) (setting (says_number OSnapMaxwal) items) (setting (says_number OWsPort) items)
    (setting says_format items) (setting (says_text ONexus) items) (setting (says_number OMirror) items). intros.
  assert (forall (put : Z -> Args -> Args) e e' low (before : Args) (after : Z -> Args),
    (forall n, parse_u64 (as_bytes value) = Some n -> put n before = after n) ->
    (let! n := positive value e e' low in Ok (put n before)) = Ok a <->
    (exists n, parse_u64 (as_bytes value) = Some n /\ (low <= n)%Z) /\ a = match parse_u64 (as_bytes value) with Some n => after n | None => before end) as Hnum.
  { intros put e e' low before after Hset. rewrite rbind_ok. setoid_rewrite positive_ok. split.
    - intros (n & [E Hn] & [= <-]). rewrite E. split; [eauto | by apply Hset].
    - intros [(n & E & Hn) ->]. exists n. rewrite E. split; [done |]. f_equal. by apply Hset. }
  destruct opt; cbn [apply_opt item_ok].
  1, 2, 3, 8: split; [by intros [= <-] | by intros [_ ->]].
  1, 2, 5: rewrite (Hnum _ _ _ _ _ _ (fun n _ => eq_refl)); cbn -[parse_u64 as_bytes]; by destruct (parse_u64 (as_bytes value)).
  - unfold parse_u16. cbn -[parse_u64 as_bytes]. destruct (parse_u64 (as_bytes value)) as [n|]; cbn -[Z.ltb Z.pow]; [| by split; [| intros [[? [=]] _]]].
    destruct (n <? 2 ^ 16)%Z; cbn; [| by split; [| intros [[? [=]] _]]].
    split; [intros [= <-]; split; [eexists; reflexivity | done] | by intros [_ ->]].
  - cbn. destruct (decide (to_lowercase value = "json")) as [E|E]; [split; [intros [= <-]; auto | by intros [_ ->]] |].
    destruct (decide (to_lowercase value = "cbor")) as [E'|E']; [split; [intros [= <-]; auto | by intros [_ ->]] |].
    split; [done | by intros [[?|?] _]].
Qed.

Lemma pipe_step items : set_pipe (args_of items) = args_of (items ++ [IPipe]).
Proof. unfold args_of. by rewrite !setting_snoc. Qed.

Lemma parse_items items : forall before, Forall item_ok items ->
  parse_args (concat (render <$> items)) (args_of before) = Ok (args_of (before ++ items)).
Proof.
  induction items as [|it items IH]; intros before Hok; [by rewrite app_nil_r |].
  apply Forall_cons in Hok as [Hit Hok]. specialize (IH (before ++ [it]) Hok). rewrite <- app_assoc in IH. cbn in IH.
  destruct it as [|opt value]; cbn [fmap list_fmap concat render app]; cbn [parse_args].
  - rewrite decide_True by done. by rewrite pipe_step.
  - rewrite decide_False by by destruct opt. rewrite opt_of_flag.
    rewrite (proj2 (item_step before opt value _) (conj Hit eq_refl)). exact IH.
Qed.

Lemma parsed_items n : forall args before a, length args <= n -> parse_args args (args_of before) = Ok a ->
  exists items, args = concat (render <$> items) /\ Forall item_ok items /\ a = args_of (before ++ items).
Proof.
  induction n as [|n IH]; intros args before a Hn; destruct args as [|arg args]; cbn [length] in Hn; try lia.
  1, 2: intros [= <-]; exists []; by rewrite app_nil_r.
  cbn [parse_args]. case_decide as Ep.
  - subst arg. rewrite pipe_step. intros (items & -> & Hok & ->)%IH; [| lia]. exists (IPipe :: items).
    rewrite <- app_assoc. by split_and!; [| constructor |].
  - destruct (opt_of arg) as [opt|] eqn:Eo; [| done]. apply opt_of_some in Eo as ->. destruct args as [|value args]; [done |].
    cbn [length] in Hn. intros (a1 & (Hit & ->)%item_step & (items & -> & Hok & ->)%IH)%rbind_ok; [| lia].
    exists (IOpt opt value :: items). rewrite <- app_assoc. by split_and!; [| constructor |].
Qed.

Definition uri_of (items : list item) : string := default "sled://./data" (setting says_uri items).

(** The bounds of the settings. *)
Definition mode_bounded (m : Mode) : Prop :=
  let store_ok store := (1 <= rt_snap_interval store <= u64_max)%Z /\ (1 <= rt_max_wal_events store <= u64_max)%Z in
  match m with
  | RunPipe store => store_ok store
  | RunInteractive store ws mirror => store_ok store /\ (0 <= wr_port ws < 2 ^ 16)%Z /\ (200 <= mirror <= u64_max)%Z
  end.

Lemma setting_bounded says items lo hi d :
  (lo <= d <= hi)%Z -> Forall (fun it => forall n, says it = Some n -> (lo <= n <= hi)%Z) items ->
  (lo <= default d (setting says items) <= hi)%Z.
Proof.
  intros Hd. induction items as [|it items IH] using rev_ind; [done |]. rewrite setting_snoc.
  intros [Hi Hl]%Forall_app. apply Forall_cons in Hl as [Hit _]. destruct (says it) as [n|] eqn:E; [by apply Hit | by apply IH].
Qed.

Lemma items_bounded opt lo hi items :
  (forall v, item_ok (IOpt opt v) -> forall n, parse_u64 (as_bytes v) = Some n -> (lo <= n <= hi)%Z) -> Forall item_ok items ->
  Forall (fun it => forall n, says_number opt it = Some n -> (lo <= n <= hi)%Z) items.
Proof.
  intros Ho Hok. eapply Forall_impl; [exact Hok |]. intros [|opt' v] Hit n; [done |]. unfold says_number, says_text.
  destruct (Nat.eqb_spec (opt_index opt') (opt_index opt)) as [E|]; [| done].
  assert (opt' = opt) as -> by by destruct opt', opt. cbn -[parse_u64 as_bytes]. by apply Ho.
Qed.

Lemma mode_of_bounded backend items : Forall item_ok items -> mode_bounded (mode_of backend (args_of items)).
Proof.
  intros Hok.
  assert (forall v n, parse_u64 (as_bytes v) = Some n -> (0 <= n <= u64_max)%Z) as Hu.
  { intros v n E%parse_u64_range. unfold is_u64, u64_max, u64_size in *. lia. }
  assert (forall v n m lo, parse_u64 (as_bytes v) = Some n /\ (lo <= n)%Z -> parse_u64 (as_bytes v) = Some m -> (lo <= m <= u64_max)%Z) as Hlo.
  { intros v n m lo [E Hn] E'. rewrite E in E'. injection E' as <-. split; [done | by eapply Hu]. }
  assert (1 <= snap_interval_secs (args_of items) <= u64_max)%Z as H1'.
  { apply setting_bounded; [done |]. apply items_bounded; [| done]. intros v (n & Hn) m. by eapply Hlo. }
  assert (1 <= snap_maxwal (args_of items) <= u64_max)%Z as H2'.
  { apply setting_bounded; [done |]. apply items_bounded; [| done]. intros v (n & Hn) m. by eapply Hlo. }
  assert (200 <= mirror_interval_ms (args_of items) <= u64_max)%Z as H3'.
  { apply setting_bounded; [done |]. apply items_bounded; [| done]. intros v (n & Hn) m. by eapply Hlo. }
  assert (0 <= ws_port (args_of items) <= 2 ^ 16 - 1)%Z as H4'.
  { apply setting_bounded; [done |]. apply items_bounded; [| done]. intros v [p Hp] m E. unfold parse_u16 in Hp. rewrite E in Hp.
    destruct (Z.ltb_spec m (2 ^ 16)); [| done]. apply Hu in E. lia. }
  unfold mode_of. destruct (pipe_cbor (args_of items)); cbn [mode_bounded rt_snap_interval rt_max_wal_events wr_port]; repeat split; lia.
Qed.

(** C35: The arguments are read exactly. The process starts if and only if the arguments are a sequence of
    the documented options, each with a value of its kind: whole seconds and counts from 1, a
    port of 16 bits, one of the two formats, a mirror interval from 200 ms, and a store address of
    the form [sled://path]. Then each setting is the one its last option gave it or its
    default, whatever the order of the others, and all of them are in their ranges. *)
Theorem args_exact args mode :
  (cli_main args = Ok mode <->
   exists items backend, args = concat (render <$> items) /\ Forall item_ok items /\
     parse_store_backend (uri_of items) = Some backend /\ mode = mode_of backend (args_of items)) /\
  match cli_main args with Ok m => mode_bounded m | Err _ => True end.
Proof.
  assert (forall m, cli_main args = Ok m -> exists items backend, args = concat (render <$> items) /\ Forall item_ok items /\
    parse_store_backend (uri_of items) = Some backend /\ m = mode_of backend (args_of items)) as Hparse.
  { intros m. unfold cli_main. intros (a & (items & -> & Hok & ->)%(parsed_items _ _ [] _ (le_n _)) & Hb)%rbind_ok. cbn [app] in Hb.
    apply rbind_ok in Hb as (backend & Hb & [= <-]). exists items, backend. split_and!; [done | done | | done].
    change (default _ (store_uri (args_of items))) with (uri_of items) in Hb. by destruct (parse_store_backend (uri_of items)); [injection Hb as -> |]. }
  split.
  - split; [by apply Hparse |]. intros (items & backend & -> & Hok & Hb & ->). unfold cli_main.
    change Args_default with (args_of []). rewrite (parse_items items [] Hok). cbn [rbind app].
    change (default _ (store_uri (args_of items))) with (uri_of items). by rewrite Hb.
  - destruct (cli_main args) as [m|] eqn:E; [| done]. destruct (Hparse m eq_refl) as (items & backend & _ & Hok & _ & ->).
    by apply mode_of_bounded.
Qed.
End arguments.

(** ** A process driven over the network, and a bridge *)
Section network.
Context `{UnicodeCase, FloatMath, SeedRng, JsonText, BridgeEnv, Lql.QueryJson, CliEnv, LifeEnv, Crc32, Cbor EventDelta}.

(** The field as the next step finds it, and the journal. *)
Record same (c : Cli) (b : BridgeState) : Prop := {
  sm_field : attached (cli_field c) = attached (br_field b);
  sm_journal : cli_journal c = br_journal b;
  sm_stored : is_Some (br_journal b)
}.

(** The configurations an update asks for: what it names, within its bounds, and the rest as it was. *)
Definition within_unit (v : option f32) (old : f32) : f32 := match v with Some v => f32_clamp v f0 f1 | None => old end.
Definition at_least_one (v : option Z) (old : Z) : Z := match v with Some v => Z.max v 1 | None => old end.
Definition dream_asked (u : DreamConfigUpdate) (c : DreamConfig) : DreamConfig := {|
  min_idle_s := match du_min_idle_s u with Some v => v | None => min_idle_s c end;
  dc_window_ms := match du_window_ms u with Some v => v | None => dc_window_ms c end;
  strengthen_top_pct := within_unit (du_strengthen_top_pct u) (strengthen_top_pct c);
  weaken_bottom_pct := within_unit (du_weaken_bottom_pct u) (weaken_bottom_pct c);
  dc_protect_salience := within_unit (du_protect_salience u) (dc_protect_salience c);
  adreno_protect := match du_adreno_protect u with Some v => v | None => adreno_protect c end;
  max_ops_per_cycle := at_least_one (du_max_ops_per_cycle u) (max_ops_per_cycle c)
|}.
Definition awakening_asked (u : AwakeningConfigUpdate) (c : AwakeningConfig) : AwakeningConfig := {|
  max_nodes := at_least_one (au_max_nodes u) (max_nodes c);
  energy_floor := within_unit (au_energy_floor u) (energy_floor c);
  energy_boost := within_unit (au_energy_boost u) (energy_boost c);
  salience_boost := within_unit (au_salience_boost u) (salience_boost c);
  ac_protect_salience := within_unit (au_protect_salience u) (ac_protect_salience c);
  tick_bias_ms := match au_tick_bias_ms u with Some v => v | None => tick_bias_ms c end;
  target_gain := within_unit (au_target_gain u) (target_gain c)
|}.
Lemma dream_asked_apply u c : dream_update_apply u c = dream_asked u c.
Proof. by destruct u as [[] [] [] [] [] [] []]. Qed.
Lemma awakening_asked_apply u c : awaken_update_apply u c = awakening_asked u c.
Proof. by destruct u as [[] [] [] [] [] [] []]. Qed.

(** The message that does to a bridge, whose field is [f], what a command of the network does here. *)
Definition bridge_command (command : IncomingCommand) (f : ClusterField) : option ProtocolCommand :=
  match command with
  | InLql query => Some (CLql query)
  | InDreamNow => Some CDreamNow
  | InDreamSet cfg =>
      match dream_update_from_value cfg with
      | Ok update => Some (CDreamSet (dream_asked update (dream_cfg (cycles f))))
      | Err _ => None
      end
  | InDreamGet => Some CDreamGet
  | InSyncNow => Some CSyncNow
  | InSyncSet cfg => match sync_from_value cfg with Ok cfg => Some (CSyncSet cfg) | Err _ => None end
  | InSyncGet => Some CSyncGet
  | InAwakenSet cfg =>
      match awaken_update_from_value cfg with
      | Ok update => Some (CAwakenSet (awakening_asked update (awakening_cfg (cycles f))))
      | Err _ => None
      end
  | InAwakenGet => Some CAwakenGet
  | InIntrospect target top => Some (CIntrospect (mkIntrospect target top))
  | InMirrorTimeline top => Some (CMirrorTimeline top)
  | InMirrorInfluencers k => Some (CMirrorInfluencers k)
  | InMirrorReplay epoch_id None => Some (CMirrorReplay epoch_id None)
  | InMirrorReplay epoch_id (Some value) =>
      match replay_from_value value with Ok cfg => Some (CMirrorReplay epoch_id (Some cfg)) | Err _ => None end
  | InImpulse _ | InPolicySet _ | InSubscribe _ | InRaw _ => None
  end.
Definition bridge_impulse (impulse : Impulse) : ProtocolImpulse :=
  mkProtocolImpulse match i_kind impulse with Affect => 0 | Query => 1 | Write => 2 end%Z
    (i_pattern impulse) (i_strength impulse) (i_ttl_ms impulse) (i_tags impulse).
Lemma to_core_impulse impulse : to_core (bridge_impulse impulse) = impulse.
Proof. by destruct impulse as [[]]. Qed.

Lemma same_quiet c b b' : same c b -> quiet b b' -> same c b'.
Proof. intros [Ef Ej Hj] [E1 E2]. split; rewrite ?E1, ?E2; done. Qed.
Lemma same_queue c b queue : same c b -> same (put_queue queue c) b.
Proof. by intros [Ef Ej Hj]. Qed.
Lemma same_serve b (c1 : Cli) out : same c1 b -> same (queue_sent c1 out).1 b.
Proof. apply same_queue. Qed.

(** Two steps that do the same to the field. *)
Lemma same_step {A B} (step : ClusterField -> ClusterField * A) (step' : ClusterField -> ClusterField * B) c b :
  same c b -> (step (attached (cli_field c))).1 = (step' (attached (cli_field c))).1 ->
  same (with_lock step c).1 (on_field step' b).1.
Proof.
  intros [Ef Ej [j Hj]] E. unfold with_lock, on_field. rewrite Ej, Hj. rewrite <- Ef.
  destruct (step _) as [f a], (step' _) as [f' a']. cbn in E. subst f'. by split; [| | eexists].
Qed.
Lemma same_read {A} (step : ClusterField -> ClusterField * A) c b :
  same c b -> (step (attached (cli_field c))).1 = attached (cli_field c) -> same (with_lock step c).1 b.
Proof.
  intros [Ef Ej [j Hj]] E. unfold with_lock. rewrite Ej, Hj. destruct (step _) as [f a]. cbn in E. subst f.
  split; [exact Ef | by rewrite Hj | by eexists].
Qed.
(** The console's step, and the bridge's followed by its answers. *)
Lemma same_after {A B} (step : ClusterField -> ClusterField * A) (step' : ClusterField -> ClusterField * B) after c b :
  same c b -> (step (attached (cli_field c))).1 = (step' (attached (cli_field c))).1 -> (forall b a, quiet b (after b a)) ->
  same (with_lock step c).1 (let '(b, a) := on_field step' b in after b a).
Proof.
  intros Hs E Hq. pose proof (same_step step step' c b Hs E) as Hss. destruct (on_field step' b) as [b1 a].
  by eapply same_quiet.
Qed.

Lemma lock_reply (what : string) (step : ClusterField -> ClusterField * Reply) c b :
  same (with_lock step c).1 b -> same (serve_reply what step c).1 b.
Proof. unfold serve_reply. destruct (with_lock step c) as [c1 r]. apply same_serve. Qed.

Lemma network_same i command c b :
  same c b ->
  same (run_network (pn_order i) (pn_took i) command c).1
    match bridge_command command (br_field b) with Some pc => run_command i pc b | None => b end.
Proof.
  intros Hs. apply lock_reply.
  assert (cycles (br_field b) = cycles (cli_field c)) as Hcy by exact (f_equal cycles (eq_sym (sm_field _ _ Hs))). set (o := pn_order i).
  destruct command as [data | query | data | pattern | | cfg | | | cfg | | cfg | | target top | top | k | epoch_id cfg | value];
    cbn [bridge_command run_command]; rewrite ?Hcy.
  - by apply same_read.
  - unfold push_lql. destruct (Lql.parse_lql query) as [ast|e] eqn:Ep.
    + pose proof (same_after (handle_network_command o (pn_took i) (InLql query)) (exec_lql o ast)
        (fun b outcome => push_logs COMMAND_DT match outcome with Ok r => FieldLql.events r | Err e => [lql_error_event e query] end b)
        c b Hs) as Ha.
      fold o. destruct (on_field (exec_lql o ast) b) as [b1 r]. apply Ha; [| intros; apply push_logs_quiet].
      cbn [handle_network_command]. unfold run_query. rewrite Ep. by destruct (exec_lql o ast _).
    + eapply same_quiet; [| apply push_logs_quiet]. apply same_read; [done |]. cbn [handle_network_command]. unfold run_query.
      by rewrite Ep.
  - by apply same_read.
  - by apply same_read.
  - unfold push_dream_now. apply same_after; [done | | intros; apply push_logs_quiet]. cbn. by destruct (run_dream_cycle _ _ _).
  - destruct (dream_update_from_value cfg) as [u|e] eqn:E; [| apply same_read; [done |]; cbn; by rewrite E].
    apply same_after; [done | | done]. cbn. rewrite E. cbn. by rewrite dream_asked_apply.
  - apply same_after; done.
  - unfold push_sync_now. apply same_after; [done | | intros; apply push_logs_quiet]. cbn. by destruct (sync_now _ _ _).
  - destruct (sync_from_value cfg) as [u|e] eqn:E; [| apply same_read; [done |]; cbn; by rewrite E].
    apply same_after; [done | | done]. cbn. by rewrite E.
  - apply same_after; done.
  - destruct (awaken_update_from_value cfg) as [u|e] eqn:E; [| apply same_read; [done |]; cbn; by rewrite E].
    apply same_after; [done | | done]. cbn. rewrite E. cbn. by rewrite awakening_asked_apply.
  - apply same_after; done.
  - apply same_after; [done | | done]. cbn. unfold introspect_reply, introspect_event_from_field.
    by destruct (build_introspect_event _ _ _ _).
  - apply same_after; done.
  - apply same_after; done.
  - destruct cfg as [value|].
    + destruct (replay_from_value value) as [cfg|e] eqn:E; [| apply same_read; [done |]; cbn; by rewrite E].
      unfold push_replay. apply same_after; [done | | done]. cbn. rewrite E. cbn. by destruct (replay_epoch_by_id _ _ _ _ _).
    + unfold push_replay. apply same_after; [done | | done]. cbn. by destruct (replay_epoch_by_id _ _ _ _ _).
  - by apply same_read.
Qed.

(** *** What is queued *)
Lemma sent_app out out' : sent (out ++ out') = sent out ++ sent out'.
Proof. apply omap_app. Qed.
Lemma sent_concat {A} (g : A -> list Out) l : (forall x, sent (g x) = []) -> sent (concat (map g l)) = [].
Proof. intros Hg. induction l as [|x l IH]; [done |]. cbn [map concat]. by rewrite sent_app, Hg. Qed.
Lemma sent_map {A} (g : A -> Out) l : (forall x, sent [g x] = []) -> sent (map g l) = [].
Proof.
  intros Hg. induction l as [|x l IH]; [done |]. change (map g (x :: l)) with ([g x] ++ map g l). by rewrite sent_app, Hg.
Qed.
Lemma sent_fmap {A} (g : A -> Out) l : (forall x, sent [g x] = []) -> sent (g <$> l) = [].
Proof. exact (sent_map g l). Qed.

Lemma sent_lql o publish outcome : sent (lql_outputs o publish outcome) = [].
Proof.
  unfold lql_outputs. rewrite sent_app. replace (sent match response outcome with Some r => _ | None => [] end) with (@nil Impulse)
    by by destruct (response outcome).
  apply sent_concat. intros e. rewrite sent_app. destruct publish; [| done]. cbn. by apply sent_fmap.
Qed.
Lemma sent_events es : sent (concat (map (print_field_event print_compact) es)) = [].
Proof. apply sent_concat. by intros []. Qed.
Lemma sent_show e lines : sent (show_event e lines) = [].
Proof. unfold show_event. rewrite sent_app. by rewrite sent_map. Qed.
Lemma sent_epochs (epochs : list Epoch) (line : Out) :
  sent [line] = [] ->
  sent match epochs with [] => [line] | _ => map (Println ∘ render_mirror_epoch) epochs end = [].
Proof. intros Hl. destruct epochs; [done | by apply sent_map]. Qed.

(** The impulses a command of the network queues: its own, if it is one. *)
Definition queued (command : IncomingCommand) : list Impulse :=
  match command with
  | InImpulse data => match parse_impulse_json data with Ok impulse => [impulse] | Err _ => [] end
  | _ => []
  end.
Lemma network_sent o took command f what :
  sent (reported what (handle_network_command o took command f).2) = queued command.
Proof.
  destruct command as [data | query | data | pattern | | cfg | | | cfg | | cfg | | target top | top | k | epoch_id cfg | value];
    cbn [handle_network_command queued]; try done.
  - by destruct (parse_impulse_json data).
  - unfold run_query. destruct (Lql.parse_lql query); [| done]. destruct (exec_lql o _ f) as [f' [outcome|]]; [apply sent_lql | done].
  - destruct (run_dream_cycle o took f) as [f' [report|]]; [apply sent_events | done].
  - by destruct (dream_update_from_value cfg).
  - destruct (sync_now o took f) as [f' [report|]]; [apply sent_events | done].
  - by destruct (sync_from_value cfg).
  - destruct (awaken_update_from_value cfg); [| done]. exact (sent_show _ _).
  - unfold introspect_reply. destruct (introspect_event_from_field _ _ _ _). exact (sent_show _ _).
  - apply (sent_epochs _ (Println "MIRROR_TIMELINE empty")). done.
  - apply (sent_epochs _ (Println "MIRROR_TOP none")). done.
  - destruct cfg as [value|]; [destruct (replay_from_value value) |]; cbn; try done;
      by destruct (replay_epoch_by_id _ _ _ _ _).
Qed.
Lemma network_queue o took command c : cli_queue (run_network o took command c).1 = cli_queue c ++ queued command.
Proof.
  unfold run_network, serve_reply, with_lock.
  destruct (cli_journal c) as [j|];
    [pose proof (network_sent o took command (attached (cli_field c)) "ws command") as E
    |pose proof (network_sent o took command (cli_field c) "ws command") as E];
    destruct (handle_network_command o took command _) as [f r]; cbn in *; by rewrite E.
Qed.

(** *** Runs *)
(** What happens to the process without its console: a command of the network, an impulse of the sensors, a turn
    of the task that routes what is queued, a round of the life loop. *)
Inductive NetAct : Type :=
| NetCommand (o : HashOrder) (took : Z) (command : IncomingCommand)
| NetSense (impulse : Impulse)
| NetRoute (o : HashOrder)
| NetRound (i : LifeInput).

Definition net_act (p : LifeState * Cli) (a : NetAct) : option (LifeState * Cli) :=
  let '(s, c) := p in
  match a with
  | NetCommand o took command => Some (s, (run_network o took command c).1)
  | NetSense impulse => Some (s, sense impulse c)
  | NetRoute o => Some (s, (route_next o c).1)
  | NetRound i => (fun r => (r.1.1, r.1.2)) <$> cli_round i s c
  end.

(** A host of a bridge that pushes one message for a command, keeps the impulses until their turn, and runs the
    life loop beside it. *)
Definition host_input (o : HashOrder) (took : Z) : PushInput := mkPushInput o took (fun _ => 0%Z) (Consensus.mkProposalId []).
Definition host_act (p : LifeState * BridgeState * list Impulse) (a : NetAct) : option (LifeState * BridgeState * list Impulse) :=
  let '(s, b, queue) := p in
  match a with
  | NetCommand o took command =>
      Some (s,
            match bridge_command command (br_field b) with
            | Some pc => handle_message (host_input o took) (PushCommand pc) b
            | None => b
            end,
            queue ++ queued command)
  | NetSense impulse => Some (s, b, queue ++ [impulse])
  | NetRoute o =>
      Some match queue with
           | [] => (s, b, [])
           | impulse :: queue => (s, handle_message (host_input o 0) (PushImpulse (bridge_impulse impulse)) b, queue)
           end
  | NetRound i => (fun r => (r.1, r.2, queue)) <$> bridge_round i s b
  end.

Definition run_acts {S} (act : S -> NetAct -> option S) (acts : list NetAct) (p : S) : option S :=
  fold_left (fun p a => p ≫= fun p => act p a) acts (Some p).

Lemma cli_output_field out : forall r, let r' := fold_left cli_output out r in
  cli_field r'.1 = cli_field r.1 /\ cli_journal r'.1 = cli_journal r.1.
Proof.
  induction out as [|e out IH]; intros [c l]; [done |]. cbn [fold_left]. destruct (IH (cli_output (c, l) e)) as [-> ->]. by destruct e.
Qed.

Lemma cli_output_queue out : forall r, cli_queue (fold_left cli_output out r).1 = cli_queue r.1.
Proof. induction out as [|e out IH]; intros [c l]; [done |]. cbn [fold_left]. rewrite IH. by destruct e. Qed.

Lemma round_same i s c b : same c b ->
  match cli_round i s c, bridge_round i s b with
  | Some (s1, c1, _), Some (s2, b1) => s1 = s2 /\ same c1 b1 /\ cli_queue c1 = cli_queue c
  | None, None => True
  | _, _ => False
  end.
Proof.
  intros [Ef Ej [j Hj]]. unfold cli_round, bridge_round. rewrite Ej, Hj, Ef.
  destruct (life_round i s (attached (br_field b))) as [[[s1 f] outputs]|]; [| done].
  set (c1 := put_field f _ c). pose proof (cli_output_field outputs (c1, [])) as Hout. pose proof (cli_output_queue outputs (c1, [])) as Hq.
  destruct (fold_left cli_output outputs (c1, [])) as [c2 out2]. cbn in Hout, Hq. destruct Hout as [Ef2 Ej2].
  split_and!; [done | | done]. set (b1 := set_field f _ b).
  apply (same_quiet c2 b1); [| apply quiet_fold, life_output_quiet]. split; [by rewrite Ef2 | by rewrite Ej2 | by eexists].
Qed.

Lemma route_same i c b impulse queue : same c b -> cli_queue c = impulse :: queue ->
  same (route_next (pn_order i) c).1 (handle_message i (PushImpulse (bridge_impulse impulse)) b).
Proof.
  intros Hs Eq. unfold route_next. rewrite Eq. cbn [handle_message]. unfold push_impulse. rewrite to_core_impulse.
  pose proof (same_step (route_impulse (pn_order i) impulse) (route_impulse (pn_order i) impulse) (put_queue queue c) b
    (same_queue _ _ _ Hs) eq_refl) as Hss.
  destruct (with_lock _ _) as [c1 logs], (on_field _ b) as [b1 logs']. cbn in *. by apply (same_quiet c1 b1).
Qed.

(** The two agree: both have panicked, or they have the same field, journal, queue and state of the loop. *)
Definition agree (p : option (LifeState * Cli)) (q : option (LifeState * BridgeState * list Impulse)) : Prop :=
  match p, q with
  | Some (s1, c), Some (s2, b, queue) => s1 = s2 /\ same c b /\ cli_queue c = queue
  | None, None => True
  | _, _ => False
  end.

Lemma act_agrees a p q : agree p q -> agree (p ≫= fun p => net_act p a) (q ≫= fun q => host_act q a).
Proof.
  destruct p as [[s c]|], q as [[[s2 b] queue]|]; try done. intros (<- & Hs & <-).
  destruct a as [o took command | impulse | o | i]; cbn [mbind option_bind net_act host_act].
  - split_and!; [done | | apply network_queue]. pose proof (network_same (host_input o took) command c b Hs) as Hn.
    by destruct (bridge_command command (br_field b)).
  - split_and!; [done | by apply same_queue | done].
  - destruct (cli_queue c) as [|impulse queue] eqn:Eq.
    + unfold route_next. by rewrite Eq.
    + pose proof (route_same (host_input o 0) c b impulse queue Hs Eq) as Hr. split_and!; [done | exact Hr |].
      unfold route_next. rewrite Eq. unfold with_lock, put_queue. cbn [cli_journal cli_field].
      destruct (cli_journal c) as [j|]; by destruct (route_impulse _ _ _).
  - pose proof (round_same i s c b Hs) as Hr. destruct (cli_round i s c) as [[[s1 c1] out]|], (bridge_round i s b) as [[s2 b1]|]; done.
Qed.

(** C36: A process driven over the network is a bridge. Take a process and a bridge with the same field and
    journal, and any sequence of network commands, sensor impulses, turns of the routing task and rounds of the
    life loop. The process goes through it as the host that pushes, for each command, the one message that
    corresponds to it ([bridge_command]: the command of the same name, for an update the configuration it asks
    for, clamped to its bounds; none for a command that cannot be read), keeps the impulses of
    commands and sensors in order and pushes one each turn, and runs the same rounds: after every step field,
    journal, queue and the state of the loop are the same, or both loops have panicked. *)
Theorem network_refines_bridge acts s c b :
  same c b -> agree (run_acts net_act acts (s, c)) (run_acts host_act acts (s, b, cli_queue c)).
Proof.
  intros Hs. unfold run_acts.
  assert (agree (Some (s, c)) (Some (s, b, cli_queue c))) as Ha by done. revert Ha.
  generalize (Some (s, c)), (Some (s, b, cli_queue c)). induction acts as [|a acts IH]; intros p q Ha; [done |].
  cbn [fold_left]. by apply IH, act_agrees.
Qed.
End network.

(** ** Recovery *)
Section acts.
Context `{UnicodeCase, !CaseStable, FloatMath, SeedRng, JsonText, Lql.QueryJson, CliEnv, LifeEnv}.

(** A handler does nothing to the field, or an operation that needs no room. *)
Definition plain (op : field_op) : Prop := forall f, room op f /\ visible op f.
Definition acts {A} (o : HashOrder) (step : ClusterField -> ClusterField * A) : Prop :=
  forall f, (step f).1 = f \/ exists op, plain op /\ (step f).1 = field_apply o op f.

Lemma acts_op {A} o op (step : ClusterField -> ClusterField * A) f :
  plain op -> (step f).1 = field_apply o op f -> (step f).1 = f \/ exists op, plain op /\ (step f).1 = field_apply o op f.
Proof. eauto. Qed.
Lemma acts_told {A} o (step : ClusterField -> ClusterField * A) f : acts o step -> field_wf f -> told f (step (attached f)).1.
Proof.
  intros Ha Hw. destruct (Ha (attached f)) as [-> | (op & Hp & ->)]; [by apply told_attached |].
  apply told_op; [done | apply Hp | apply Hp].
Qed.

Lemma query_acts o publish query : acts o (run_query o publish query).
Proof.
  intros f. unfold run_query. destruct (Lql.parse_lql query) as [ast|]; [| by left]. right. exists (FQuery ast).
  split; [done |]. cbn [field_apply]. by destruct (exec_lql o ast f).
Qed.
Lemma introspect_acts o target top f : (introspect_reply o target top f).1 = f \/
  exists op, plain op /\ (introspect_reply o target top f).1 = field_apply o op f.
Proof.
  right. unfold introspect_reply, introspect_event_from_field, build_introspect_event, ensure_resonant_model.
  destruct target; [exists FAwakenNow | exists FRebuildModel ..]; (split; [done |]); cbn [field_apply];
    [by destruct (awaken_now o f) | by destruct (rebuild_resonant_model o f) ..].
Qed.
Lemma sync_acts {A} o took (g : option SyncReport -> A) f :
  let r := (let '(f, report) := sync_now o took f in (f, g report)) in
  r.1 = f \/ exists op, plain op /\ r.1 = field_apply o op f.
Proof.
  unfold sync_now. destruct (detect_sync_groups _ _ _ _) as [[|grp groups]|]; [by left | right | by left].
  exists (FCollective (grp :: groups) (sync_cfg (cycles f)) (now_ms f) took). split; [done |]. cbn [field_apply].
  by destruct (run_collective_dream _ _ _ _ _).
Qed.

Local Ltac by_op op := right; exists op; split; [done |]; cbn [field_apply].
Local Ltac arms := repeat (case_decide; [try by left |]); try by left.

Lemma network_acts o took command : acts o (handle_network_command o took command).
Proof.
  intros f. destruct command as [data | query | data | pattern | | cfg | | | cfg | | cfg | | target top | top | k | epoch_id cfg | value];
    cbn [handle_network_command]; try by left.
  - apply query_acts.
  - by_op (FDream took). by destruct (run_dream_cycle _ _ _).
  - destruct (dream_update_from_value cfg) as [u|]; [| by left]. by by_op (FDreamConfig (dream_update_apply u (dream_cfg (cycles f)))).
  - apply (sync_acts o took (fun report => Ok (sync_report_outputs print_compact report) : Reply)).
  - destruct (sync_from_value cfg) as [u|]; [| by left]. by by_op (FSyncConfig u).
  - destruct (awaken_update_from_value cfg) as [u|]; [| by left].
    by by_op (FAwakeningConfig (awaken_update_apply u (awakening_cfg (cycles f)))).
  - destruct (introspect_acts o target top f) as [E | (op & Hp & E)]; destruct (introspect_reply o target top f); [by left | right; eauto].
  - destruct (match cfg with Some _ => _ | None => _ end) as [c|]; [| by left].
    by_op (FReplay epoch_id (default ReplayConfig_default c) took). by destruct (replay_epoch_by_id _ _ _ _ _).
Qed.

Lemma reflex_acts o command : acts o (handle_reflex_command command).
Proof.
  intros f. unfold handle_reflex_command. set (sub := default "" _). arms.
  - by by_op (FReflexEnabled true).
  - by by_op (FReflexEnabled false).
  - destruct (apply_reflex_tuning _ _) as [cfg r]. by_op (FQuery (Lql.ReflexTune cfg)). by destruct r.
Qed.
Lemma trs_acts o command : acts o (handle_trs_command command).
Proof.
  intros f. unfold handle_trs_command. destruct (subcommand command) as [sub raw]. arms.
  - destruct (trs_from_str raw) as [cfg|]; [| by left]. by_op (FTrsConfig cfg). by destruct (set_trs_config cfg f).
  - destruct (trs_target_of raw) as [v|]; [| by left]. by_op (FTrsTarget v). by destruct (set_trs_target v f).
Qed.
Lemma mirror_acts o took command : acts o (handle_mirror_command o took command).
Proof.
  intros f. unfold handle_mirror_command. set (sub := trim _). arms.
  destruct (replay_args _) as [[epoch_id cfg]|]; [| by left]. by_op (FReplay epoch_id cfg took).
  by destruct (replay_epoch_by_id _ _ _ _ _).
Qed.
Lemma sync_command_acts o took command : acts o (handle_sync_command o took command).
Proof.
  intros f. unfold handle_sync_command. destruct (subcommand command) as [sub raw]. arms.
  - destruct (sync_from_str raw) as [cfg|]; [| by left]. by by_op (FSyncConfig cfg).
  - apply (sync_acts o took (fun report => Ok (sync_report_outputs print_pretty report) : Reply)).
Qed.
Lemma awaken_acts o command : acts o (handle_awaken_command o command).
Proof.
  intros f. unfold handle_awaken_command. destruct (subcommand command) as [sub raw]. arms.
  - destruct (awaken_update_from_str raw) as [u|]; [| by left].
    by by_op (FAwakeningConfig (awaken_update_apply u (awakening_cfg (cycles f)))).
  - by_op FAwakenNow. by destruct (awaken_now o f).
Qed.
Lemma introspect_command_acts o command : acts o (handle_introspect_command o command).
Proof.
  intros f. unfold handle_introspect_command. set (sub := trim _). destruct (_ || _); [by left |].
  destruct (let! target := introspect_target sub in _) as [[target top]|]; [| by left].
  destruct (introspect_acts o target top f) as [E | (op & Hp & E)]; destruct (introspect_reply o target top f); [by left | right; eauto].
Qed.
Lemma dream_acts o took command : acts o (handle_dream_command o took command).
Proof.
  intros f. unfold handle_dream_command. destruct (subcommand command) as [sub raw]. arms.
  - by_op (FDream took). by destruct (run_dream_cycle _ _ _).
  - destruct (dream_update_from_str raw) as [u|]; [| by left]. by by_op (FDreamConfig (dream_update_apply u (dream_cfg (cycles f)))).
Qed.
End acts.

Section recover.
Context `{UnicodeCase, !CaseStable, SeedRng, FloatMath, LifeEnv, JsonText, Lql.QueryJson, CliEnv, Crc32, !Crc32Ok}.
Context `{Cbor EventDelta, !CborOk EventDelta, !CborTotal EventDelta, Cbor StoreManifest, !CborOk StoreManifest}.
Context `{Cbor SnapshotEnvelope, !EnvelopeOk}.

(** *** What a step does to the field and its journal *)
Definition cli_tells (c c' : Cli) : Prop :=
  forall j, cli_journal c = Some j ->
    told (cli_field c) (cli_field c') /\ cli_journal c' = Some (append_deltas (emitted (cli_field c')) j).
Definition cli_quiet (c c' : Cli) : Prop := cli_field c' = cli_field c /\ cli_journal c' = cli_journal c.
Definition cli_effect (c c' : Cli) : Prop := cli_tells c c' \/ cli_quiet c c'.

Lemma lock_effect {A} (step : ClusterField -> ClusterField * A) c :
  told (cli_field c) (step (attached (cli_field c))).1 -> cli_tells c (with_lock step c).1.
Proof. intros Ht j Hj. unfold with_lock. rewrite Hj. by destruct (step (attached (cli_field c))). Qed.
Lemma queue_effect c c1 out : cli_effect c c1 -> cli_effect c (queue_sent c1 out).1.
Proof. done. Qed.
Lemma serve_effect o step c : field_wf (cli_field c) -> acts o step -> cli_effect c (serve step c).1.
Proof.
  intros Hw Ha. pose proof (lock_effect step c (acts_told o step _ Ha Hw)) as Ht. unfold serve.
  destruct (with_lock step c) as [c1 out]. by left.
Qed.
Lemma reply_effect o what step c : field_wf (cli_field c) -> acts o step -> cli_effect c (serve_reply what step c).1.
Proof.
  intros Hw Ha. pose proof (lock_effect step c (acts_told o step _ Ha Hw)) as Ht. unfold serve_reply.
  destruct (with_lock step c) as [c1 out]. by left.
Qed.

Lemma colon_effect i rest c : field_wf (cli_field c) -> rest <> "snapshot" -> cli_effect c (run_colon i rest c).1.
Proof.
  intros Hw Hr. unfold run_colon. rewrite decide_False by done. set (o := li_order i).
  case_decide; [by right |]. case_decide; [by destruct (cli_journal c); right |].
  repeat match goal with |- cli_effect _ (if ?b then _ else _).1 => destruct b end;
    try (by right); try (apply (serve_effect o); [done |]); try (apply (reply_effect o); [done |]).
  - apply query_acts.
  - apply reflex_acts.
  - apply dream_acts.
  - apply awaken_acts.
  - apply introspect_command_acts.
  - apply sync_command_acts.
  - apply mirror_acts.
  - apply trs_acts.
Qed.

(** The line that asks for a snapshot. *)
Definition is_snapshot (line : string) : Prop := strip_prefix_str ":" (trim line) = Some "snapshot".

Lemma line_effect i line c : field_wf (cli_field c) -> ~ is_snapshot line -> cli_effect c (run_line i line c).1.
Proof.
  intros Hw Hn. unfold run_line. case_decide; [by right |]. destruct (strip_prefix_str ":" (trim line)) as [rest|] eqn:E.
  { apply colon_effect; [done |]. intros ->. by apply Hn. }
  assert (cli_effect c match parse_command (trim line) with
    | Some impulse => queue_sent c [SendImpulse impulse]
    | None => (c, [Eprintln ("Unknown command: " +:+ trim line)]) end.1) as Hi by (destruct (parse_command _); by right).
  destruct (eq_ignore_ascii_case (trim line) "lql"); [by right |]. destruct (split_once " " (trim line)) as [[prefix rest]|]; [| done].
  destruct (eq_ignore_ascii_case prefix "lql"); [| done]. case_decide; [by right |].
  apply (reply_effect (li_order i)); [done | apply query_acts].
Qed.

Lemma network_effect o took command c : field_wf (cli_field c) -> cli_effect c (run_network o took command c).1.
Proof. intros Hw. apply (reply_effect o); [done | apply network_acts]. Qed.

Lemma route_effect o c : field_wf (cli_field c) ->
  (forall impulse queue, cli_queue c = impulse :: queue -> room (FImpulse impulse) (cli_field c)) -> cli_effect c (route_next o c).1.
Proof.
  intros Hw Hr. unfold route_next. destruct (cli_queue c) as [|impulse queue] eqn:E; [by right |].
  pose proof (lock_effect (route_impulse o impulse) (put_queue queue c)
    (told_op o (FImpulse impulse) (cli_field c) Hw (Hr _ _ eq_refl) I)) as Ht.
  destruct (with_lock _ _) as [c1 logs]. by left.
Qed.

Lemma round_effect i s c s' c' out :
  field_wf (cli_field c) -> life_room (cli_field c) -> round_visible i s (attached (cli_field c)) ->
  cli_round i s c = Some (s', c', out) -> cli_effect c c'.
Proof.
  intros Hw Hr Hv He. left. intros j Hj. unfold cli_round in He. rewrite Hj in He.
  destruct (life_round i s (attached (cli_field c))) as [[[s1 f] outputs]|] eqn:E; [| done].
  pose proof (cli_output_field outputs (put_field f (append_deltas (emitted f) <$> Some j) c, [])) as Hout.
  destruct (fold_left cli_output outputs _) as [c2 out2]. injection He as <- <- <-. cbn in Hout. destruct Hout as [-> ->].
  split; [by eapply told_round | done].
Qed.

(** *** Runs *)
Definition cli_room (c c' : Cli) : Prop := forall j, cli_journal c = Some j -> fits (emitted (cli_field c')) j.
Definition cli_holds (P : Db -> Prop) (c : Cli) : Prop := exists j, cli_journal c = Some j /\ P (mkDb (cli_field c) j).

(** Lines, commands, impulses and rounds of the life loop, in any interleaving. *)
Inductive cli_live : LifeState * Cli -> LifeState * Cli -> Prop :=
| ClLine i line s c : ~ is_snapshot line -> cli_room c (run_line i line c).1 -> cli_live (s, c) (s, (run_line i line c).1)
| ClNetwork o took command s c :
    cli_room c (run_network o took command c).1 -> cli_live (s, c) (s, (run_network o took command c).1)
| ClSense impulse s c : cli_live (s, c) (s, sense impulse c)
| ClRoute o s c :
    (forall impulse queue, cli_queue c = impulse :: queue -> room (FImpulse impulse) (cli_field c)) ->
    cli_room c (route_next o c).1 -> cli_live (s, c) (s, (route_next o c).1)
| ClRound i s c s' c' out :
    life_room (cli_field c) -> round_visible i s (attached (cli_field c)) -> cli_round i s c = Some (s', c', out) ->
    cli_room c c' -> cli_live (s, c) (s', c').

(** A snapshot can be written. *)
Definition writable (o : HashOrder) (c : Cli) : Prop :=
  forall j, cli_journal c = Some j -> is_ok (write_snapshot o (cli_field c) j).2 = true.
Definition cli_files (c : Cli) : option Root := (fun j => Store_close (dj_store j)) <$> cli_journal c.

Inductive cli_step : LifeState * Cli -> LifeState * Cli -> Prop :=
| ClLive p q : cli_live p q -> cli_step p q
| ClSnapshotLine i line s c : is_snapshot line -> writable (li_order i) c -> cli_step (s, c) (s, (run_line i line c).1)
| ClSnapshot o elapsed s c : writable o c -> cli_step (s, c) (s, (cli_snapshot o elapsed c).1)
| ClRestart os root store ws mirror s c files c' hub :
    cli_files c = Some files -> size (cells (graph (cli_field c))) <> 0 -> root (backend_path (rt_backend store)) = files ->
    run_interactive os root (Some store) ws mirror = Ok (c', hub) -> cli_step (s, c) (LifeState_new 200 1, c').

Lemma effect_holds (P : Db -> Prop) c c' :
  (forall f' db, P db -> told (db_field db) f' -> fits (emitted f') (db_journal db) -> P (db_tell f' db)) ->
  cli_effect c c' -> cli_room c c' -> cli_holds P c -> cli_holds P c'.
Proof.
  intros Hstep [Ht | [Ef Ej]] Hl (j & Hj & Hp); [| exists j; by rewrite Ef, Ej].
  destruct (Ht j Hj) as [Hto Hj']. eexists. split; [exact Hj' |].
  exact (Hstep (cli_field c') (mkDb (cli_field c) j) Hp Hto (Hl j Hj)).
Qed.

Lemma cli_live_holds (P : Db -> Prop) p q :
  (forall db, P db -> field_wf (db_field db)) ->
  (forall f' db, P db -> told (db_field db) f' -> fits (emitted f') (db_journal db) -> P (db_tell f' db)) ->
  cli_live p q -> cli_holds P p.2 -> cli_holds P q.2.
Proof.
  intros Hwf Hstep Hlive Hh. assert (field_wf (cli_field p.2)) as Hw by (destruct Hh as (j & _ & Hdb); exact (Hwf _ Hdb)).
  destruct Hlive as [i line s c Hn Hl | o took command s c Hl | impulse s c | o s c Hr Hl | i s c s' c' out Hr Hv He Hl]; cbn [snd] in *.
  - eapply effect_holds; [exact Hstep | by apply line_effect | done | done].
  - eapply effect_holds; [exact Hstep | by apply network_effect | done | done].
  - done.
  - eapply effect_holds; [exact Hstep | by apply route_effect | done | done].
  - eapply effect_holds; [exact Hstep | by eapply round_effect | done | done].
Qed.

(** *** Snapshots and restarts *)
Lemma take_snapshot_saves o prefix failed j c :
  cli_journal c = Some j -> storing (mkDb (cli_field c) j) -> is_ok (write_snapshot o (cli_field c) j).2 = true ->
  cli_holds saved (take_snapshot o prefix failed j c).1.
Proof.
  intros Hj Hst Hok. destruct (snapshot_once o (mkDb (cli_field c) j)) as [db r] eqn:E.
  pose proof E as E'. unfold snapshot_once in E'. cbn [db_field db_journal] in E'. unfold take_snapshot.
  destruct (write_snapshot o (cli_field c) j) as [j1 [info|e]]; [| done]. injection E' as <- <-.
  destruct (snapshot_saves o _ _ info Hst E) as [Hs _]. destruct (run_gc (si_offset info) j1) as [j2 gc].
  exists j2. by split.
Qed.

Lemma snapshot_line o line i c j : is_snapshot line -> cli_journal c = Some j -> o = li_order i ->
  (run_line i line c).1 = (take_snapshot o "" "snapshot failed" j c).1.
Proof.
  intros Hs Hj ->. unfold run_line. unfold is_snapshot in Hs. rewrite Hs. case_decide as E; [by rewrite E in Hs |].
  unfold run_colon. rewrite decide_True by done. by rewrite Hj.
Qed.

Lemma cli_snapshot_saved o elapsed c : writable o c -> cli_holds saved c -> cli_holds saved (cli_snapshot o elapsed c).1.
Proof.
  intros Hw (j & Hj & Hs). unfold cli_snapshot. rewrite Hj. destruct (cli_cfg c) as [cfg|]; [| by exists j].
  destruct (snapshot_due _ _ _); [| by exists j]. apply take_snapshot_saves; [done | apply Hs | by apply Hw].
Qed.

(** Setting the interval of the mirror changes nothing that is durable. *)
Lemma saved_mirror m db : saved db -> saved (mkDb (set_mirror_interval m (db_field db)) (db_journal db)).
Proof.
  intros [(Hw & Hs & Hst) (seed & off & ds & [Hlog Hl Hb])]. split; [by split_and! |]. exists seed, off, ds.
  split; [done | done |]. intros o. destruct (Hb o) as [Hok Hex]. split; [done |].
  apply (explains_durably ds _ (db_field db)); [exact Hex | by split].
Qed.

Lemma started os root store ws mirror db :
  open_database os (root (backend_path (rt_backend store))) = Ok db ->
  exists c hub, run_interactive os root (Some store) ws mirror = Ok (c, hub) /\
    cli_field c = set_mirror_interval mirror (db_field db) /\ cli_journal c = Some (db_journal db).
Proof. intros E. unfold run_interactive. rewrite E. by do 2 eexists. Qed.

Lemma step_cli p q : cli_step p q -> cli_holds saved p.2 -> cli_holds saved q.2.
Proof.
  intros [p' q' Hl | i line s c Hline Hok | o elapsed s c Hok | os root store ws mirror s c files c' hub Hf Hne Hr Hi] Hh; cbn [snd] in *.
  - eapply (cli_live_holds saved); [by intros db [[? _] _] | intros; by apply saved_told | done | done].
  - destruct Hh as (j & Hj & Hs). rewrite (snapshot_line _ line i c j Hline Hj eq_refl).
    apply take_snapshot_saves; [done | apply Hs | by apply Hok].
  - by apply cli_snapshot_saved.
  - destruct Hh as (j & Hj & Hs). unfold cli_files in Hf. rewrite Hj in Hf. injection Hf as <-. apply Nat.eqb_neq in Hne.
    destruct (restart_saved os _ Hs Hne) as (db' & Ho & Hs' & _). unfold db_close in Ho. cbn [db_journal] in Ho. rewrite <- Hr in Ho.
    destruct (started os root store ws mirror db' Ho) as (c1 & hub1 & E & Ef & Ej). rewrite Hi in E. injection E as <- <-.
    exists (db_journal db'). split; [done |]. rewrite Ef. by apply saved_mirror.
Qed.

(** C34: The field of the command line is recovered. A process that was started on an empty directory, driven by
    any lines of its console, commands of the network, impulses and rounds of the life loop, and saved by
    a first snapshot that its console or its loop asked for, then driven by any of these, further snapshots
    and restarts: when it ends, a new process with the same store starts, and finds a well-formed field with the
    durable part of the one that was lost; its hub has the given format, and nothing is queued. Four things
    are required. No cell has a NaN energy after the tick of a round, when the loop may trim
    ([round_visible]; the trim of such a cell is not journalled). The field has a cell whenever the store is opened again, at the restarts of the run and at the end (an
    empty one is given a new root). The snapshots of the run are written ([writable]). Identifiers, clock
    and log have room for each step. *)
Theorem cli_recovers os root store ws mirror c00 hub s0 c0 o prefix failed j0 s c os' root' store' ws' mirror' files :
  root (backend_path (rt_backend store)) = mkRoot ∅ ∅ None false ->
  run_interactive os root (Some store) ws mirror = Ok (c00, hub) ->
  rtc cli_live (LifeState_new 200 1, c00) (s0, c0) -> cli_journal c0 = Some j0 -> writable o c0 ->
  rtc cli_step (s0, (take_snapshot o prefix failed j0 c0).1) (s, c) ->
  size (cells (graph (cli_field c))) <> 0 -> cli_files c = Some files -> root' (backend_path (rt_backend store')) = files ->
  exists c' hub', run_interactive os' root' (Some store') ws' mirror' = Ok (c', hub') /\
    durably (cli_field c) (cli_field c') /\ field_wf (cli_field c') /\
    hb_default_format hub' = wr_format ws' /\ cli_queue c' = [].
Proof.
  intros Hr Hi Hlive Hj0 Hw Hrun Hne Hf Hr'.
  assert (cli_holds storing c00) as K00.
  { destruct (fresh_storing os) as (db & Ho & Hst). rewrite <- Hr in Ho.
    destruct (started os root store ws mirror db Ho) as (c1 & hub1 & E & Ef & Ej). rewrite Hi in E. injection E as <- <-.
    exists (db_journal db). split; [done |]. rewrite Ef. by destruct Hst as (? & ? & ?); split_and!. }
  assert (cli_holds storing c0) as K0.
  { assert (forall p q, rtc cli_live p q -> cli_holds storing p.2 -> cli_holds storing q.2) as Hl; [| exact (Hl _ _ Hlive K00)].
    intros p q Hpq. induction Hpq as [p | p p1 q Hs _ IH]; [done |]. intros Hh. apply IH.
    eapply (cli_live_holds storing); [by intros db [? _] | intros; by apply storing_told | done | done]. }
  destruct K0 as (j & Hj & Hst). rewrite Hj0 in Hj. injection Hj as <-.
  pose proof (take_snapshot_saves o prefix failed j0 c0 Hj0 Hst (Hw _ Hj0)) as K1.
  assert (cli_holds saved c) as (j & Hj & Hs).
  { assert (forall p q, rtc cli_step p q -> cli_holds saved p.2 -> cli_holds saved q.2) as Hl; [| exact (Hl _ _ Hrun K1)].
    intros p q Hpq. induction Hpq as [p | p p1 q Hstep _ IH]; [done |]. intros Hh. by eapply IH, step_cli. }
  unfold cli_files in Hf. rewrite Hj in Hf. injection Hf as <-. apply Nat.eqb_neq in Hne.
  destruct (restart_saved os' _ Hs Hne) as (db' & Ho & [[Hwf _] _] & Hdu). unfold db_close in Ho. cbn [db_journal] in Ho. rewrite <- Hr' in Ho.
  unfold run_interactive. rewrite Ho. do 2 eexists. split; [reflexivity |]. cbn [cli_field].
  split_and!; [destruct Hdu; by split | exact Hwf | done | done].
Qed.
End recover.

(** ** The pipe *)
Section pipe.
Context `{UnicodeCase, SeedRng, FloatMath, LifeEnv, JsonText, BridgeEnv, Lql.QueryJson, CliEnv, Crc32}.
Context `{Cbor EventDelta, Cbor StoreManifest, Cbor SnapshotEnvelope, Cbor ProtocolPush, Cbor ProtocolPackage}.

Lemma read_hex a : from_hex (of_bytes (hex_bytes a)) = Some a.
Proof.
  unfold from_hex. rewrite as_of_bytes, length_hex_bytes, unhex_hex. rewrite Nat.even_mul. cbn [Nat.even orb andb].
  assert (forallb is_ascii_hexdigit (hex_bytes a) = true) as ->; [| done].
  apply forallb_forall. intros x Hx. pose proof (hex_bytes_lower a) as Hl. rewrite forallb_forall in Hl.
  unfold is_ascii_hexdigit. by rewrite (Hl x Hx).
Qed.

(** What draining does: one line with the whole outbox, or none. Two pulls are enough. *)
Lemma drain_exact fuel b : 2 <= fuel ->
  drain_outputs fuel (Some b) = (Some b, []) \/
  exists package a, to_vec package = Ok a /\ pk_events package = ob_events (br_outbox b) /\ (blen a <= BUFFER)%Z /\
    (drain_outputs fuel (Some b) = (Some (set_outbox Outbox_default b), [Println (of_bytes (hex_bytes a))]) \/
     a = [] /\ drain_outputs fuel (Some b) = (Some (set_outbox Outbox_default b), [])).
Proof.
  intros Hf. destruct fuel as [|[|fuel]]; [lia | lia |]. cbn [drain_outputs].
  destruct (pull_exact BUFFER b) as (b1 & [a|] & E & Ha); rewrite E; [| left; by rewrite Ha].
  destruct Ha as (package & Et & Ep & Hl & ->). right. exists package, a. split_and!; [done | done | done |].
  destruct a as [|x a]; [by right | left].
  destruct (pull_exact BUFFER (set_outbox Outbox_default b)) as (b2 & [a2|] & E2 & Ha2).
  - exfalso. destruct b as [f out j cfg ns g n t]. revert E2. cbn. intros [=].
  - rewrite E2, Ha2. done.
Qed.

(** The process: lines of its input, turns of its timer, and rounds of the loops of the bridge. *)
Inductive pipe_event : Type :=
| PLine (i : PushInput) (raw : string)
| PTimer
| PLoop (h : happening).
Definition from_host (h : happening) : bool := match h with HPush _ _ => true | _ => false end.

Definition pipe_do (e : pipe_event) (p : LifeState * BridgeState) : LifeState * BridgeState * list Out :=
  let '(s, b) := p in
  match e with
  | PLine i raw => let '(b', out) := pipe_line i raw (Some b) in (s, default b b', out)
  | PTimer => let '(b', out) := pipe_timer (Some b) in (s, default b b', out)
  | PLoop h => if from_host h then (s, b, []) else (happen h (s, b), [])
  end.
(** The events of what happens to the bridge. *)
Definition pipe_says (e : pipe_event) (s : LifeState) (b : BridgeState) : list ProtocolEvent :=
  match e with
  | PLine i raw => match from_hex (trim raw) with Some buf => says (HPush i buf) s b | None => [] end
  | PTimer => []
  | PLoop h => if from_host h then [] else says h s b
  end.
Fixpoint pipe_run (es : list pipe_event) (s : LifeState) (b : BridgeState) : BridgeState * list Out * list ProtocolEvent :=
  match es with
  | [] => (b, [], [])
  | e :: es =>
      let '(s1, b1, out) := pipe_do e (s, b) in
      let '(b', outs, said) := pipe_run es s1 b1 in
      (b', out ++ outs, pipe_says e s b ++ said)
  end.

Definition printed (out : list Out) : list string := omap (fun o => match o with Println line => Some line | _ => None end) out.
Definition waiting (b : BridgeState) : list ProtocolEvent := ob_events (br_outbox b).

(** [lines] carry [events], in packages that fit the buffer. *)
Definition carries (lines : list string) (events : list ProtocolEvent) : Prop :=
  exists packages, Forall2 (fun p line => exists a, to_vec p = Ok a /\ from_hex line = Some a /\ (blen a <= BUFFER)%Z) packages lines /\
    concat (pk_events <$> packages) = events.

Lemma carries_nil : carries [] []. Proof. by exists []. Qed.
Lemma carries_app lines lines' es es' : carries lines es -> carries lines' es' -> carries (lines ++ lines') (es ++ es').
Proof.
  intros (ps & Hp & <-) (ps' & Hp' & <-). exists (ps ++ ps'). split; [by apply Forall2_app |]. by rewrite fmap_app, concat_app.
Qed.

(** No package serializes to nothing. *)
Definition nonempty_text : Prop := forall p : ProtocolPackage, to_vec p <> Ok [].

Lemma drain_carries b : nonempty_text -> exists b' out es, drain (Some b) = (Some b', out) /\ carries (printed out) es /\
  waiting b = es ++ waiting b' /\ ((b' = b /\ out = []) \/ exists package a, to_vec package = Ok a /\ pk_events package = waiting b /\ (blen a <= BUFFER)%Z).
Proof.
  intros Hn. destruct (drain_exact 2 b (le_n 2)) as [E | (package & a & Et & Ep & Hl & [E | [-> _]])]; [| | by destruct (Hn package)].
  - exists b, [], []. unfold drain. rewrite E. split_and!; [done | apply carries_nil | done | by left].
  - exists (set_outbox Outbox_default b), [Println (of_bytes (hex_bytes a))], (waiting b). unfold drain. rewrite E. split_and!; [done | | | eauto 6].
    + exists [package]. split; [| cbn; by rewrite app_nil_r, Ep]. constructor; [| constructor]. exists a. split_and!; [done | apply read_hex | done].
    + cbn. by rewrite app_nil_r.
Qed.

Lemma push_says i buf s b : exists b1 n, liminal_push i (Some buf) (Some b) = (Some b1, n) /\ waiting b1 = waiting b ++ says (HPush i buf) s b.
Proof.
  pose proof (happen_says (HPush i buf) s b) as Hs. cbn [happen snd] in Hs.
  assert (exists b1 n, liminal_push i (Some buf) (Some b) = (Some b1, n)) as (b1 & n & E).
  { unfold liminal_push. destruct buf as [|x buf]; [by do 2 eexists |]. destruct (from_slice (x :: buf)); by do 2 eexists. }
  rewrite E in Hs. by exists b1, n.
Qed.

(** A step of the process: what is said joins what waits, and what is printed leaves it. *)
Lemma pipe_do_exact e s b : nonempty_text -> exists s1 b1 out es, pipe_do e (s, b) = (s1, b1, out) /\
  carries (printed out) es /\ waiting b ++ pipe_says e s b = es ++ waiting b1 /\
  (printed out = [] \/ exists package a, to_vec package = Ok a /\ pk_events package = waiting b ++ pipe_says e s b /\ (blen a <= BUFFER)%Z).
Proof.
  intros Hn.
  assert (forall b1 head, printed head = [] -> exists b' out es,
    (let '(state, drained) := drain (Some b1) in (state, head ++ drained)) = (Some b', out) /\ carries (printed out) es /\
    waiting b1 = es ++ waiting b' /\
    (printed out = [] \/ exists package a, to_vec package = Ok a /\ pk_events package = waiting b1 /\ (blen a <= BUFFER)%Z)) as Hd.
  { intros b1 head Hh. destruct (drain_carries b1 Hn) as (b' & out & es & -> & Hc & Hw & Hor). exists b', (head ++ out), es.
    assert (printed (head ++ out) = printed out) as -> by (unfold printed in *; by rewrite omap_app, Hh).
    split_and!; [done | done | done |]. destruct Hor as [[_ ->] | ?]; [by left | by right]. }
  destruct e as [i raw | | h]; cbn [pipe_do pipe_says].
  - unfold pipe_line. destruct (decide (trim raw = "")) as [E|E].
    { rewrite E. exists s, b, [], []. split_and!; [done | apply carries_nil | | by left].
      cbn. by rewrite app_nil_r. }
    destruct (from_hex (trim raw)) as [buf|].
    + destruct (push_says i buf s b) as (b1 & n & Ep & Hw). rewrite Ep.
      destruct (Hd b1 (if (n =? 0)%Z then [Eprintln "bridge rejected impulse"] else [])) as (b' & out & es & Ed & Hc & Hw' & Hor);
        [by destruct (n =? 0)%Z |]. rewrite Ed. exists s, b', out, es. rewrite <- Hw. done.
    + destruct (Hd b [Eprintln ("invalid hex input: " +:+ hex_error (trim raw))] eq_refl) as (b' & out & es & Ed & Hc & Hw' & Hor).
      rewrite Ed. exists s, b', out, es. by rewrite app_nil_r.
  - destruct (Hd b [] eq_refl) as (b' & out & es & Ed & Hc & Hw' & Hor). unfold pipe_timer.
    destruct (drain (Some b)) as [st drained]. cbn in Ed. injection Ed as -> ->. exists s, b', out, es. by rewrite app_nil_r.
  - destruct (from_host h).
    + exists s, b, [], []. split_and!; [done | apply carries_nil | by rewrite app_nil_r | by left].
    + pose proof (happen_says h s b) as Hs. destruct (happen h (s, b)) as [s1 b1]. exists s1, b1, [], [].
      split_and!; [done | apply carries_nil | exact (eq_sym Hs) | by left].
Qed.

(** The pipe prints what the bridge says, once and in order, until its buffer is too small. In any run of
    lines, turns of the timer and rounds of the loops, the lines printed are hexadecimal packages whose
    events, followed by those that wait, are the events that were said, in order. But the buffer has 4096 bytes and
    a package that does not fit is put back whole: when an event takes a byte at least and more than 4096
    events wait, nothing is printed ever again, while the outbox grows with all that is said. *)
Theorem pipe_delivers es s b b' out said :
  nonempty_text -> pipe_run es s b = (b', out, said) ->
  (exists events, carries (printed out) events /\ waiting b ++ said = events ++ waiting b') /\
  ((forall (p : ProtocolPackage) a, to_vec p = Ok a -> length (pk_events p) <= length a) -> 4096 < length (waiting b) ->
   printed out = [] /\ waiting b' = waiting b ++ said).
Proof.
  intros Hn. revert s b b' out said. induction es as [|e es IH]; intros s b b' out said; cbn [pipe_run].
  { intros [= <- <- <-]. rewrite app_nil_r. split; [exists []; split; [apply carries_nil | done] | done]. }
  destruct (pipe_do_exact e s b Hn) as (s1 & b1 & out1 & es1 & -> & Hc & Hw & Hor).
  destruct (pipe_run es s1 b1) as [[b2 outs] said1] eqn:E. intros [= <- <- <-].
  destruct (IH _ _ _ _ _ E) as [(es2 & Hc2 & Hw2) Hstuck].
  assert (printed (out1 ++ outs) = printed out1 ++ printed outs) as Hp by (unfold printed; by rewrite omap_app).
  rewrite Hp. split.
  - exists (es1 ++ es2). split; [by apply carries_app |]. by rewrite app_assoc, Hw, <- app_assoc, Hw2, app_assoc.
  - intros Hsize Hlen. assert (printed out1 = []) as E1.
    { destruct Hor as [? | (package & a & Et & Ep & Hl)]; [done |]. specialize (Hsize _ _ Et). rewrite Ep, length_app in Hsize.
      unfold blen, BUFFER in Hl. lia. }
    rewrite E1 in Hc. destruct Hc as (packages & Hps & <-). apply Forall2_nil_inv_r in Hps as ->. cbn in Hw.
    destruct Hstuck as [-> Hw']; [done | rewrite <- Hw, length_app; lia |]. rewrite E1. split; [done |].
    by rewrite Hw', <- Hw, app_assoc.
Qed.
End pipe.

(** ** A command line on a disk *)
Section demo.
#[local] Existing Instances demo_case demo_rng demo_math demo_env demo_crc ieee_ok cbor_delta cbor_delta_ok cbor_delta_total
  cbor_store_manifest cbor_store_manifest_ok cbor_envelope cbor_envelope_ok tree_text ascii_case_stable demo_bridge demo_query
  demo_push.
#[local] Instance demo_cli : CliEnv :=
  {| cli_pretty := json_to_string; pretty_dream_config _ := "{}"; pretty_sync_config _ := "{}"; json_error _ := "no JSON";
     trs_from_str _ := Err "no JSON"; sync_from_str _ := Err "no JSON";
     dream_update_from_str _ := Ok (mkDreamUpdate (Some 7%Z) None None None None None None);
     awaken_update_from_str _ := Err "no JSON"; sync_from_value _ := Err "no JSON";
     dream_update_from_value _ := Ok (mkDreamUpdate (Some 9%Z) None (Some (lit 2 1)) None None None (Some 0%Z));
     awaken_update_from_value _ := Err "no JSON"; replay_from_value _ := Err "no JSON"; int_error _ := "invalid digit";
     float_error _ := "invalid float"; hex_error _ := "odd length"; float_text _ := "0"; json_debug := json_to_string;
     snapshot_path_text path := path; store_error_text _ := "I/O error" |}.

Definition demo_mode : Mode :=
  match cli_main ["--snap-interval"; "5"; "--store"; "db"; "--ws-format"; "CBOR"] with
  | Ok mode => mode
  | Err _ => RunPipe (mkStoreRuntime (Sled "") 0 0 None)
  end.
Definition demo_store : StoreRuntimeConfig := mkStoreRuntime (Sled "db") 5 5000 None.
Definition demo_ws : WsRuntimeConfig := mkWsRuntime 8787 StreamCodec.Cbor_ None.
Example demo_started : demo_mode = RunInteractive demo_store demo_ws 2000. Proof. vm_compute. reflexivity. Qed.
Example demo_refused :
  cli_main ["--pipe-cbor"; "--mirror-interval"; "199"] = Err "--mirror-interval must be at least 200" /\
  cli_main ["--ws-port"; "65536"] = Err "--ws-port expects a valid port, got 65536" /\
  cli_main ["--store-uri"; "s3://bucket"] = Err "unsupported store backend: s3" /\ cli_main ["--store"] = Err "--store requires a path".
Proof. vm_compute. done. Qed.

Definition no_cli : Cli * BridgeHub := (mkCli ClusterField_new None None [] [] NotConnected, BridgeHub_new).
Definition cli_start (files : Root) : Cli * BridgeHub :=
  match run_interactive orders (fun _ => files) (Some demo_store) demo_ws 2000 with Ok r => r | Err _ => no_cli end.

Inductive cli_event : Type :=
| VLine (line : string)
| VNetwork (command : IncomingCommand)
| VSense (impulse : Impulse)
| VRoute
| VRound.
Definition demo_input : LineInput := mkLineInput rev_order 3 [] 0 (Ok ()).
Definition cli_do (p : LifeState * Cli) (e : cli_event) : LifeState * Cli :=
  let '(s, c) := p in
  match e with
  | VLine line => (s, (run_line demo_input line c).1)
  | VNetwork command => (s, (run_network rev_order 3 command c).1)
  | VSense impulse => (s, sense impulse c)
  | VRoute => (s, (route_next id_order c).1)
  | VRound => match cli_round loud_input s c with Some (s', c', _) => (s', c') | None => (s, c) end
  end.
Definition fits_cli (c c' : Cli) : bool :=
  match cli_journal c with Some j => fits_b (emitted (cli_field c')) j | None => true end.
Definition cli_ok (p : LifeState * Cli) (e : cli_event) : Prop :=
  let '(s, c) := p in
  fits_cli c (cli_do p e).2 = true /\
  match e with
  | VLine line => bool_decide (strip_prefix_str ":" (trim line) = Some "snapshot") = false
  | VRoute => match cli_queue c with impulse :: _ => room (FImpulse impulse) (cli_field c) | [] => True end
  | VRound =>
      life_room (cli_field c) /\ round_visible loud_input s (attached (cli_field c)) /\
      match cli_round loud_input s c with Some _ => True | None => False end
  | _ => True
  end.
Fixpoint cli_oks (es : list cli_event) (p : LifeState * Cli) : Prop :=
  match es with
  | [] => True
  | e :: es => cli_ok p e /\ cli_oks es (cli_do p e)
  end.

Lemma fits_cli_room c c' : fits_cli c c' = true -> cli_room c c'.
Proof. unfold fits_cli, cli_room. intros E j Hj. rewrite Hj in E. by apply fits_spec. Qed.

Lemma cli_events_run es : forall p, cli_oks es p -> rtc cli_live p (fold_left cli_do es p).
Proof.
  induction es as [|e es IH]; intros p Hok; [done |]. destruct Hok as [Hc Hok]. cbn [fold_left].
  eapply rtc_l; [| by apply IH]. destruct p as [s c]. destruct Hc as [Hf%fits_cli_room Hc].
  destruct e as [line | command | impulse | |]; cbn [cli_do snd] in *.
  - apply ClLine; [| done]. unfold is_snapshot. by apply bool_decide_eq_false in Hc.
  - by apply ClNetwork.
  - apply ClSense.
  - apply ClRoute; [| done]. intros impulse queue E. by rewrite E in Hc.
  - destruct Hc as (Hr & Hv & Hround). destruct (cli_round loud_input s c) as [[[s' c'] out]|] eqn:E; [| done].
    by eapply ClRound.
Qed.

(** Before the first snapshot, and after it; the second part starts in a new process. *)
Definition early_day : list cli_event :=
  [VLine "a liminal/root 0.9"; VRoute; VNetwork (InDreamSet JNull); VRound; VLine "hello"; VLine ":reflex tune win=5 eps"].
Definition late_day : list cli_event :=
  [VSense (mkImpulse Affect "liminal/root" (lit 9 10) 1000 []); VRoute; VRound; VLine ":dream set {}"; VLine "lql SELECT root";
   VNetwork InSyncNow; VLine ":awaken now"].

Definition first_cli : Cli := Eval vm_compute in (cli_start empty_root).1.
Definition at_noon : LifeState * Cli := Eval vm_compute in fold_left cli_do early_day (LifeState_new 200 1, first_cli).
Definition noon_journal : DiskJournal := Eval vm_compute in default (db_journal default_db) (cli_journal at_noon.2).
Definition at_saved : Cli := Eval vm_compute in (take_snapshot rev_order "" "snapshot failed" noon_journal at_noon.2).1.
Definition disk (c : Cli) : Root := default empty_root (cli_files c).
Definition at_reopen : Cli := Eval vm_compute in (cli_start (disk at_saved)).1.
Definition at_dusk : LifeState * Cli := Eval vm_compute in fold_left cli_do late_day (LifeState_new 200 1, at_reopen).
Definition at_night : Cli := Eval vm_compute in (run_line demo_input ":snapshot" at_dusk.2).1.

Lemma noon_run : rtc cli_live (LifeState_new 200 1, first_cli) at_noon.
Proof.
  assert (fold_left cli_do early_day (LifeState_new 200 1, first_cli) = at_noon) as <- by (vm_compute; reflexivity).
  apply cli_events_run. vm_compute. repeat split; (reflexivity || discriminate).
Qed.

Lemma night_run : rtc cli_step (at_noon.1, (take_snapshot rev_order "" "snapshot failed" noon_journal at_noon.2).1) (at_dusk.1, at_night).
Proof.
  assert ((take_snapshot rev_order "" "snapshot failed" noon_journal at_noon.2).1 = at_saved) as -> by (vm_compute; reflexivity).
  apply (rtc_l _ _ (LifeState_new 200 1, at_reopen)).
  - apply (ClRestart orders (fun _ => disk at_saved) demo_store demo_ws 2000 _ _ (disk at_saved) _ (cli_start (disk at_saved)).2);
      [by vm_compute | by vm_compute | done | vm_compute; reflexivity].
  - apply (rtc_r _ at_dusk).
    + assert (fold_left cli_do late_day (LifeState_new 200 1, at_reopen) = at_dusk) as <- by (vm_compute; reflexivity).
      apply (rtc_congruence (fun p => p) (R := cli_live)); [exact ClLive |]. apply cli_events_run.
      vm_compute. repeat split; (reflexivity || discriminate).
    + assert ((run_line demo_input ":snapshot" at_dusk.2).1 = at_night) as <- by (vm_compute; reflexivity).
      destruct at_dusk as [s c] eqn:E. apply (ClSnapshotLine demo_input ":snapshot" s c); [vm_compute; reflexivity |].
      assert (c = at_dusk.2) as -> by by rewrite E. intros j Hj.
      assert (cli_journal at_dusk.2 = Some (default noon_journal (cli_journal at_dusk.2))) as Ej by (vm_compute; reflexivity).
      rewrite Ej in Hj. injection Hj as <-. vm_compute. reflexivity.
Qed.

Lemma cli_recovers_witness :
  min_idle_s (dream_cfg (cycles (cli_field at_night))) = 7%Z /\
  exists c' hub', run_interactive orders (fun _ => disk at_night) (Some demo_store) demo_ws 500 = Ok (c', hub') /\
    durably (cli_field at_night) (cli_field c') /\ field_wf (cli_field c') /\
    hb_default_format hub' = StreamCodec.Cbor_ /\ cli_queue c' = [].
Proof.
  split; [by vm_compute |].
  apply (cli_recovers orders (fun _ => empty_root) demo_store demo_ws 2000 first_cli (cli_start empty_root).2 at_noon.1 at_noon.2
    rev_order "" "snapshot failed" noon_journal at_dusk.1 at_night orders (fun _ => disk at_night) demo_store demo_ws 500 (disk at_night)).
  - done.
  - vm_compute. reflexivity.
  - exact noon_run.
  - vm_compute. reflexivity.
  - intros j Hj. assert (cli_journal at_noon.2 = Some noon_journal) as Ej by (vm_compute; reflexivity).
    rewrite Ej in Hj. injection Hj as <-. vm_compute. reflexivity.
  - exact night_run.
  - by vm_compute.
  - vm_compute. reflexivity.
  - done.
Defined.

(** A bridge with the field and the journal of the process, and what the network does to both. *)
Definition first_bridge : BridgeState :=
  mkBridge (cli_field first_cli) Outbox_default (cli_journal first_cli) None "liminal" (Peers.GossipManager_new [])
    (NoeticRuntime_new (Crdt.mkPeerId [])) 200.
Definition networked : list NetAct :=
  [NetCommand rev_order 3 (InDreamSet JNull); NetCommand id_order 3 (InImpulse (json_obj [("pattern", JStr "liminal")]));
   NetSense (mkImpulse Query "liminal" (lit 9 10) 1000 []); NetRoute id_order; NetCommand rev_order 5 InDreamNow;
   NetRound loud_input].
(** The update is made, one impulse is routed, one waits. *)
Lemma network_refines_bridge_witness :
  match run_acts net_act networked (LifeState_new 200 1, first_cli) with
  | Some (_, c) => min_idle_s (dream_cfg (cycles (cli_field c))) = 9%Z /\ length (cli_queue c) = 1
  | None => False
  end /\
  agree (run_acts net_act networked (LifeState_new 200 1, first_cli))
    (run_acts host_act networked (LifeState_new 200 1, first_bridge, [])).
Proof.
  split; [by vm_compute |].
  apply (network_refines_bridge networked (LifeState_new 200 1) first_cli first_bridge). split; [done | done | by eexists].
Defined.

(** Packages of one byte more than their events. *)
#[local] Instance dotted_package : Cbor ProtocolPackage :=
  {| to_vec p := Ok (Byte.x2a :: replicate (length (pk_events p)) Byte.x2a); from_slice _ := Err "not read" |}.
Definition piped : list pipe_event :=
  [PLine demo_pushed " 01 "; PLoop (HRound loud_input); PLine demo_pushed "0"; PTimer; PLine demo_pushed "03"].
Definition full_bridge : BridgeState :=
  set_outbox (mkOutbox (replicate 4097 (event_from_snapshot 1)) None) first_bridge.

Lemma dotted_ok : nonempty_text /\ forall (p : ProtocolPackage) a, to_vec p = Ok a -> length (pk_events p) <= length a.
Proof. split; [done |]. intros p a [= <-]. cbn [length]. rewrite length_replicate. lia. Qed.

(** Two lines carry the four events of a bridge that starts empty; a full one stays silent. *)
Lemma pipe_delivers_witness :
  (let '(b', out, said) := pipe_run piped (LifeState_new 200 1) first_bridge in
   length (printed out) = 2 /\ length said = 4 /\
   exists events, carries (printed out) events /\ waiting first_bridge ++ said = events ++ waiting b') /\
  let '(b', out, said) := pipe_run piped (LifeState_new 200 1) full_bridge in
  length said = 4 /\ printed out = [] /\ waiting b' = waiting full_bridge ++ said.
Proof.
  destruct dotted_ok as [Hn Hsize]. split.
  - assert (let '(_, out, said) := pipe_run piped (LifeState_new 200 1) first_bridge in
      length (printed out) = 2 /\ length said = 4) as Hc by (vm_compute; split; reflexivity).
    destruct (pipe_run piped (LifeState_new 200 1) first_bridge) as [[b' out] said] eqn:E.
    split_and!; [apply Hc | apply Hc |]. exact (proj1 (pipe_delivers _ _ _ _ _ _ Hn E)).
  - assert (let '(_, _, said) := pipe_run piped (LifeState_new 200 1) full_bridge in length said = 4) as Hc
      by (vm_compute; reflexivity).
    destruct (pipe_run piped (LifeState_new 200 1) full_bridge) as [[b' out] said] eqn:E.
    split; [exact Hc |]. apply (proj2 (pipe_delivers _ _ _ _ _ _ Hn E)); [exact Hsize |].
    unfold full_bridge, waiting. cbn [br_outbox set_outbox ob_events]. rewrite length_replicate. lia.
Defined.

(** The tests of [main.rs]. *)
Definition dec (n d : Z) : json := JF64 (f64_div (f64_of_Z n) (f64_of_Z d)).
Example harmony_reports_status :
  format_harmony_event (json_obj [("ev", JStr "harmony");
    ("meta", json_obj [("strength", dec 55 100); ("latency", dec 120 1); ("entropy", dec 82 100); ("delta_strength", dec 3 10);
       ("delta_latency", dec (-45) 10); ("status", JStr "drift"); ("pattern", JStr "cpu/load");
       ("mirror", json_obj [("k", JStr "mirror"); ("p", JStr "cpu/load"); ("s", dec (-3) 10); ("t", JU64 1234)])])])
  = Some ("HARMONY status=DRIFT strength=0.550 latency=120.0 entropy=0.820 d_str=0.300 d_lat=-4.5 " +:+
          "pattern=cpu/load mirror=-0.300@1234").
Proof. vm_compute. reflexivity. Qed.
Example harmony_handles_trs :
  format_harmony_event (json_obj [("ev", JStr "harmony");
    ("meta", json_obj [("alpha", dec 27 100); ("aff_scale", dec 112 100); ("met_scale", dec 94 100);
                       ("sleep_delta", dec (-8) 100)])])
  = Some "HARMONY tune alpha=0.270 affinity=1.120 metabolism=0.940 sleep_delta=-0.080".
Proof. vm_compute. reflexivity. Qed.
Example introspect_lists_influences :
  format_introspect_event (json_obj [("ev", JStr "introspect");
    ("meta", json_obj [("target", JStr "influence");
       ("items", JArr [json_obj [("source", JU64 1); ("sink", JU64 2); ("weight", dec 42 100); ("coherence", dec 65 100)];
                       json_obj [("source", JU64 3); ("sink", JU64 4); ("weight", dec (-31) 100); ("coherence", dec 72 100)]]);
       ("requested_top", JU64 2)])])
  = ["INTROSPECT influence source=n1 sink=n2 weight=0.420 coherence=0.650";
     "INTROSPECT influence source=n3 sink=n4 weight=-0.310 coherence=0.720"].
Proof. vm_compute. reflexivity. Qed.
Example awaken_handles_config :
  format_awaken_event (awaken_config_event AwakeningConfig_default "cfg")
  = Some ("AWAKEN action=cfg max_nodes=4 energy_floor=0.45 energy_boost=0.35 salience_boost=0.12 " +:+
          "protect_salience=0.75 tick_bias=18ms target_gain=0.080").
Proof. vm_compute. reflexivity. Qed.

(** Without its credence a peer loses its namespace; a tuning keeps what came before its error. *)
Example peer_loses_namespace :
  handle_peer_command Connected "add ws://p ns lab" =
    handle_peer_command Connected "add ws://p 0.5" /\
  handle_peer_command Connected "add ws://p 0.5 ns lab" <> handle_peer_command Connected "add ws://p 0.5".
Proof. split; [by vm_compute | vm_compute; discriminate]. Qed.
Example tuning_keeps_prefix :
  Lql.win_ms (reflex_cfg (cli_field first_cli)) <> 5%Z /\ Lql.win_ms (reflex_cfg (cli_field at_noon.2)) = 5%Z.
Proof. vm_compute. split; [discriminate | reflexivity]. Qed.
End demo.
