(* ===== verification/Sdk.v ===== *)
(** * The client library ([sdk/rust/src/lib.rs], [protocol.rs])

    A client keeps a bounded queue of commands and a task that connects, authenticates, sends what is queued,
    keeps the connection alive, hands on the events it hears, and connects again after a growing delay. A call of
    the client and every turn of the task is a step; the socket, the clock and the reader of an event are inputs.

    [client_accounts] says where every command goes. [sdk_and_server_disagree] puts the client and the server of
    [Server] together: the server takes whatever the client sends for an unknown message, and the client
    does not hear what the server says. *)

From stdpp Require Import prelude gmap strings fin_maps list sorting.
From Stdlib Require Import ZArith Lia SpecFloat.
From S2P Require Import Prelude RustStr RustOrd Float RustText Crypto Json NodeCell Trs Symmetry FieldTypes Feedback Variant Resonant Journal Collections Field FieldOps FieldRoute FieldLql LifeLoop Wal StoreFiles Snapshot Database Protocol Bridge Server Cli.
From S2P Require Lql StreamCodec FieldCodec DatabaseProps BridgeProps CliProps.

(** ** Messages *)
Inductive CommandEnvelope : Type :=
| AuthCommand (key_id : string) (namespace : option string) (op secret : string)
| AwakenNowCommand (op : string)
| DreamNowCommand (intensity : option f64) (op : string)
| IntentInvokeCommand (kind op : string) (payload : json)
| IntentTextCommand (lang : option string) (op text : string)
| LqlCommand (id op : string) (parameters : option json) (query : string)
| MirrorReplayCommand (cursor : option string) (op : string)
| MirrorTimelineCommand (op : string) (range : json)
| NoeticPeersCommand (op : string)
| NoeticProposeCommand (op : string) (proposal : json)
| PeerAddCommand (op : string) (peer : json)
| PeerListCommand (op : string)
| QuotaCommand (namespace : option string) (op : string)
| SeedAbortCommand (id op : string) (reason : option string)
| SeedGardenCommand (op : string)
| SeedPlantCommand (id op : string) (spec : json)
| SnapshotCommand (op : string) (scope : option string)
| SubscribeCommand (id op : string) (options : option json) (pattern : string)
| SyncNowCommand (op : string) (scope : option string)
| UnsubscribeCommand (id op : string).

(** A value that is JSON already. *)
Definition id_json (v : json) : json := v.
(** An absent member is skipped. *)
Definition member {A : Type} (key : string) (text : A -> json) (v : option A) : list (string * json) :=
  match v with Some v => [(key, text v)] | None => [] end.
(** The variant is the only key of the object. *)
Definition tagged (variant : string) (members : list (string * json)) : json := json_obj [(variant, json_obj members)].

Definition command_json (c : CommandEnvelope) : json :=
  match c with
  | AuthCommand key_id namespace op secret =>
      tagged "AuthCommand" ([("keyId", JStr key_id)] ++ member "namespace" JStr namespace ++ [("op", JStr op); ("secret", JStr secret)])
  | AwakenNowCommand op => tagged "AwakenNowCommand" [("op", JStr op)]
  | DreamNowCommand intensity op => tagged "DreamNowCommand" (member "intensity" json_f64 intensity ++ [("op", JStr op)])
  | IntentInvokeCommand kind op payload =>
      tagged "IntentInvokeCommand" [("kind", JStr kind); ("op", JStr op); ("payload", payload)]
  | IntentTextCommand lang op text => tagged "IntentTextCommand" (member "lang" JStr lang ++ [("op", JStr op); ("text", JStr text)])
  | LqlCommand id op parameters query =>
      tagged "LqlCommand" ([("id", JStr id); ("op", JStr op)] ++ member "parameters" id_json parameters ++ [("query", JStr query)])
  | MirrorReplayCommand cursor op => tagged "MirrorReplayCommand" (member "cursor" JStr cursor ++ [("op", JStr op)])
  | MirrorTimelineCommand op range => tagged "MirrorTimelineCommand" [("op", JStr op); ("range", range)]
  | NoeticPeersCommand op => tagged "NoeticPeersCommand" [("op", JStr op)]
  | NoeticProposeCommand op proposal => tagged "NoeticProposeCommand" [("op", JStr op); ("proposal", proposal)]
  | PeerAddCommand op peer => tagged "PeerAddCommand" [("op", JStr op); ("peer", peer)]
  | PeerListCommand op => tagged "PeerListCommand" [("op", JStr op)]
  | QuotaCommand namespace op => tagged "QuotaCommand" (member "namespace" JStr namespace ++ [("op", JStr op)])
  | SeedAbortCommand id op reason => tagged "SeedAbortCommand" ([("id", JStr id); ("op", JStr op)] ++ member "reason" JStr reason)
  | SeedGardenCommand op => tagged "SeedGardenCommand" [("op", JStr op)]
  | SeedPlantCommand id op spec => tagged "SeedPlantCommand" [("id", JStr id); ("op", JStr op); ("spec", spec)]
  | SnapshotCommand op scope => tagged "SnapshotCommand" ([("op", JStr op)] ++ member "scope" JStr scope)
  | SubscribeCommand id op options pattern =>
      tagged "SubscribeCommand" ([("id", JStr id); ("op", JStr op)] ++ member "options" id_json options ++ [("pattern", JStr pattern)])
  | SyncNowCommand op scope => tagged "SyncNowCommand" ([("op", JStr op)] ++ member "scope" JStr scope)
  | UnsubscribeCommand id op => tagged "UnsubscribeCommand" [("id", JStr id); ("op", JStr op)]
  end.

Inductive EventEnvelope : Type :=
| AlertEvent (kind message severity : string)
| AuditEvent (action actor : string) (details : option json) (kind : string)
| AwakenEvent (kind : string) (summary : option string)
| BaseEvent (correlation_id : option string) (id ts : string)
| CollectiveDreamEvent (kind : string) (members : list string)
| DreamEvent (details : option json) (kind phase : string)
| EchoEvent (kind status : string)
| ExplainEvent (explanation kind : string)
| HarmonyEvent (kind : string) (score : f64) (trend : option string)
| LqlEvent (kind : string) (result : list json)
| MirrorEvent (entries : list json) (kind : string)
| NoeticEvent (context : option json) (kind stage : string)
| SeedEvent (kind status : string) (yield : option json)
| StatusEvent (kind : string) (metrics : option json) (state : string)
| ViewEvent (kind : string) (payload : json) (stream : string).

(** The derived reader of an event. *)
Class EventReader : Type := { event_from_value : json -> option EventEnvelope }.

(** ** The client *)
Record BackoffPolicy : Type := mkBackoff {
  bo_min : Z;
  bo_max : Z;
  bo_factor : f32
}.
(** Durations are nanoseconds. *)
Definition ms : Z := 1000000.
Definition BackoffPolicy_default : BackoffPolicy := mkBackoff (250 * ms) (8000 * ms) (lit 2 1).

Record ClientOptions : Type := mkOptions {
  op_url : string;
  op_key_id : option string;
  op_secret : option string;
  op_namespace : option string;
  op_reconnect : bool;
  op_backoff : BackoffPolicy;
  op_buffer_limit : Z;
  op_heartbeat : Z;
  op_qps_limit : Z
}.
Definition ClientOptions_default : ClientOptions :=
  mkOptions "ws://localhost:7777/ws" None None None true BackoffPolicy_default 256 (15000 * ms) 50.

Inductive ClientState : Type := StConnecting | StConnected | StDisconnected.
Record ClientMetrics : Type := mkClientMetrics {
  queue_depth : Z;
  sent_commands : Z;
  received_events : Z;
  reconnect_attempts : Z;
  cm_state : ClientState
}.
Definition ClientMetrics_default : ClientMetrics := mkClientMetrics 0 0 0 0 StDisconnected.

(** Where the task is: about to connect; in its loop on an open connection, perhaps sending what is queued; asleep
    before the next attempt; returned; or panicked. *)
Inductive Phase : Type :=
| PConnect
| POpen (sending : bool) (last_send : Z)
| PAsleep
| PReturned
| PPanicked.

(** The permit of [Notify] is kept until the task waits for it. *)
Record LiminalClient : Type := mkClientSide {
  lc_opts : ClientOptions;
  lc_queue : list CommandEnvelope;
  lc_permit : bool;
  lc_metrics : ClientMetrics;
  lc_phase : Phase;
  lc_backoff : Z
}.

(** [None] is the panic of [broadcast::channel] for a capacity of zero or one above its limit. *)
Definition connect (opts : ClientOptions) : option LiminalClient :=
  if (1 <=? op_buffer_limit opts)%Z && (op_buffer_limit opts <=? u64_max / 2)%Z then
    Some (mkClientSide opts [] false ClientMetrics_default PConnect (bo_min (op_backoff opts)))
  else None.

Definition set_queue (queue : list CommandEnvelope) (permit : bool) (m : ClientMetrics) (c : LiminalClient) : LiminalClient :=
  mkClientSide (lc_opts c) queue permit m (lc_phase c) (lc_backoff c).
Definition set_phase (phase : Phase) (m : ClientMetrics) (c : LiminalClient) : LiminalClient :=
  mkClientSide (lc_opts c) (lc_queue c) (lc_permit c) m phase (lc_backoff c).
Definition set_backoff (backoff : Z) (c : LiminalClient) : LiminalClient :=
  mkClientSide (lc_opts c) (lc_queue c) (lc_permit c) (lc_metrics c) (lc_phase c) backoff.
Definition with_depth (n : Z) (m : ClientMetrics) : ClientMetrics :=
  mkClientMetrics n (sent_commands m) (received_events m) (reconnect_attempts m) (cm_state m).
Definition with_sent (m : ClientMetrics) : ClientMetrics :=
  mkClientMetrics (queue_depth m) (u64_add (sent_commands m) 1) (received_events m) (reconnect_attempts m) (cm_state m).
Definition with_received (m : ClientMetrics) : ClientMetrics :=
  mkClientMetrics (queue_depth m) (sent_commands m) (u64_add (received_events m) 1) (reconnect_attempts m) (cm_state m).
Definition with_attempt (m : ClientMetrics) : ClientMetrics :=
  mkClientMetrics (queue_depth m) (sent_commands m) (received_events m) (u64_add (reconnect_attempts m) 1) (cm_state m).
Definition with_state (st : ClientState) (m : ClientMetrics) : ClientMetrics :=
  mkClientMetrics (queue_depth m) (sent_commands m) (received_events m) (reconnect_attempts m) st.

(** *** Calls *)
(** The oldest command makes room for the new one. *)
Definition send (command : CommandEnvelope) (c : LiminalClient) : LiminalClient :=
  let queue := if (op_buffer_limit (lc_opts c) <=? Z.of_nat (length (lc_queue c)))%Z then tail (lc_queue c) else lc_queue c in
  let queue := queue ++ [command] in
  set_queue queue true (with_depth (Z.of_nat (length queue)) (lc_metrics c)) c.

Definition auth_command (opts : ClientOptions) : option CommandEnvelope :=
  key_id ← op_key_id opts; secret ← op_secret opts; Some (AuthCommand key_id (op_namespace opts) "auth" secret).
Definition auth (c : LiminalClient) : LiminalClient :=
  match auth_command (lc_opts c) with Some command => send command c | None => c end.
(** The identifiers are drawn. *)
Definition lql (id query : string) (parameters : option json) : LiminalClient -> LiminalClient := send (LqlCommand id "lql" parameters query).
Definition subscribe (id pattern : string) (options : option json) : LiminalClient -> LiminalClient :=
  send (SubscribeCommand id "subscribe" options pattern).
Definition unsubscribe (id : string) : LiminalClient -> LiminalClient := send (UnsubscribeCommand id "unsubscribe").
Definition intent_text (text : string) (lang : option string) : LiminalClient -> LiminalClient :=
  send (IntentTextCommand lang "intent.text" text).
Definition intent (kind : string) (payload : json) : LiminalClient -> LiminalClient := send (IntentInvokeCommand kind "intent" payload).
Definition seed_plant (id : string) (spec : json) : LiminalClient -> LiminalClient := send (SeedPlantCommand id "seed.plant" spec).
Definition seed_abort (id : string) (reason : option string) : LiminalClient -> LiminalClient := send (SeedAbortCommand id "seed.abort" reason).
Definition seed_garden_call : LiminalClient -> LiminalClient := send (SeedGardenCommand "seed.garden").
Definition dream_now (intensity : option f64) : LiminalClient -> LiminalClient := send (DreamNowCommand intensity "dream.now").
Definition sync_now_call (scope : option string) : LiminalClient -> LiminalClient := send (SyncNowCommand "sync.now" scope).
Definition awaken_now_call : LiminalClient -> LiminalClient := send (AwakenNowCommand "awaken.now").
Definition mirror_timeline_call (from to : string) : LiminalClient -> LiminalClient :=
  send (MirrorTimelineCommand "mirror.timeline" (json_obj [("from", JStr from); ("to", JStr to)])).
Definition mirror_replay (cursor : option string) : LiminalClient -> LiminalClient := send (MirrorReplayCommand cursor "mirror.replay").
Definition noetic_propose_call (proposal : json) : LiminalClient -> LiminalClient := send (NoeticProposeCommand "noetic.propose" proposal).
Definition peers_add (peer : json) : LiminalClient -> LiminalClient := send (PeerAddCommand "peers.add" peer).
Definition peers_list : LiminalClient -> LiminalClient := send (PeerListCommand "peers.list").

(** *** Time *)
(** [as_secs_f32], and [from_secs_f32] and [from_secs_f64]: to the nearest nanosecond, half to even; [None] is their
    panic. *)
Definition NANOS : Z := 1000000000.
Definition as_secs_f32 (d : Z) : f32 := f32_add (f32_of_Z (d / NANOS)) (f32_div (f32_of_Z (d mod NANOS)) (f32_of_Z NANOS)).
Definition from_secs (x : spec_float) : option Z :=
  match x with
  | S754_zero _ => Some 0%Z
  | S754_finite false m e =>
      let n := fixed_digits 9 m e in if (n / NANOS <? u64_size)%Z then Some n else None
  | _ => None
  end.

(** The least time between two commands. *)
Definition throttle (opts : ClientOptions) : option (option Z) :=
  if (0 <? op_qps_limit opts)%Z then Some <$> from_secs (f64_div (f64_of_Z 1) (f64_of_Z (op_qps_limit opts))) else Some None.
Definition next_backoff (policy : BackoffPolicy) (backoff : Z) : option Z :=
  Z.min (bo_max policy) <$> from_secs (f32_mul (as_secs_f32 backoff) (bo_factor policy)).

(** *** The task *)
Inductive ClientFrame : Type :=
| FText (text : string)
| FBinary
| FPing
| FClose
| FOther.

(** What the task puts on the wire, what it loses, and what it hands on. *)
Inductive ClientOut : Type :=
| WAuth (command : CommandEnvelope)
| WCommand (at_ns : Z) (command : CommandEnvelope)
| WHeartbeat
| WPong
| Lost (command : CommandEnvelope)
| Dropped (command : CommandEnvelope)
| Heard (event : EventEnvelope).

Definition command_payload (command : CommandEnvelope) : json :=
  json_obj [("version", JStr "1.0.0"); ("command", command_json command)].
Definition heartbeat_payload : json :=
  json_obj [("version", JStr "1.0.0"); ("command", json_obj [("op", JStr "echo")])].

Inductive ClientStep : Type :=
| KSend (command : CommandEnvelope)
| KConnect (connected auth_sent : bool) (now : Z)
| KBeat (sent : bool)
| KNotified
| KNext (now done : Z) (sent : bool)
| KFrame (frame : ClientFrame)
| KWake.

Section task.
Context `{JsonText, EventReader}.

(** A turn of the connection: an attempt to connect. A failed authentication starts over at once. *)
Definition try_connect (connected auth_sent : bool) (now : Z) (c : LiminalClient) : LiminalClient * list ClientOut :=
  let opened := fun (m : ClientMetrics) (out : list ClientOut) =>
    match throttle (lc_opts c) with
    | None => (set_phase PPanicked m c, out)
    | Some _ => (set_phase (POpen false now) m c, out)
    end in
  let m := with_state StConnecting (lc_metrics c) in
  if connected then
    let m := with_state StConnected m in
    match auth_command (lc_opts c) with
    | Some command =>
        if auth_sent then opened (with_sent m) [WAuth command] else (set_phase PConnect m c, [])
    | None => opened m []
    end
  else
    (set_phase (if op_reconnect (lc_opts c) then PAsleep else PReturned) (with_state StDisconnected (with_attempt m)) c, []).

(** The end of a connection. *)
Definition hang_up (c : LiminalClient) : LiminalClient :=
  set_backoff (bo_min (op_backoff (lc_opts c)))
    (set_phase (if op_reconnect (lc_opts c) then PAsleep else PReturned) (with_state StDisconnected (lc_metrics c)) c).

(** The next command that is queued: it waits for the throttle, and [done] is when it has been sent, if it has. *)
Definition send_next (last_send now done : Z) (sent : bool) (c : LiminalClient) : LiminalClient * list ClientOut :=
  match lc_queue c with
  | [] => (set_phase (POpen false last_send) (lc_metrics c) c, [])
  | command :: queue =>
      let ready := match throttle (lc_opts c) with Some (Some interval) => Z.max now (last_send + interval) | _ => now end in
      let done := Z.max done ready in
      if sent then
        (set_phase (POpen true done) (with_sent (lc_metrics c)) (set_queue queue (lc_permit c) (lc_metrics c) c), [WCommand done command])
      else (set_phase (POpen false last_send) (lc_metrics c) (set_queue queue (lc_permit c) (lc_metrics c) c), [Lost command])
  end.

Definition hear_frame (frame : ClientFrame) (c : LiminalClient) : LiminalClient * list ClientOut :=
  match frame with
  | FText text =>
      match (value ← json_from_str text; event ← jget "event" value; event_from_value event) with
      | Some event => (set_phase (lc_phase c) (with_received (lc_metrics c)) c, [Heard event])
      | None => (c, [])
      end
  | FPing => (c, [WPong])
  | FClose => (hang_up c, [])
  | FBinary | FOther => (c, [])
  end.

(** The step of a call is always possible; the others wait for the task to be where they begin. *)
Definition client_step (c : LiminalClient) (k : ClientStep) : LiminalClient * list ClientOut :=
  match k, lc_phase c with
  | KSend command, _ =>
      (send command c,
       if (op_buffer_limit (lc_opts c) <=? Z.of_nat (length (lc_queue c)))%Z then map Dropped (take 1 (lc_queue c)) else [])
  | KConnect connected auth_sent now, PConnect => try_connect connected auth_sent now c
  | KBeat sent, POpen false _ => if sent then (c, [WHeartbeat]) else (hang_up c, [])
  | KNotified, POpen false last_send =>
      if lc_permit c then (set_queue (lc_queue c) false (lc_metrics c) (set_phase (POpen true last_send) (lc_metrics c) c), []) else (c, [])
  | KNext now done sent, POpen true last_send => send_next last_send now done sent c
  | KFrame frame, POpen false _ => hear_frame frame c
  | KWake, PAsleep =>
      match next_backoff (op_backoff (lc_opts c)) (lc_backoff c) with
      | Some backoff => (set_backoff backoff (set_phase PConnect (lc_metrics c) c), [])
      | None => (set_phase PPanicked (lc_metrics c) c, [])
      end
  | _, _ => (c, [])
  end.

Fixpoint client_run (ks : list ClientStep) (c : LiminalClient) : LiminalClient * list ClientOut :=
  match ks with
  | [] => (c, [])
  | k :: ks => let '(c, out) := client_step c k in let '(c, out') := client_run ks c in (c, out ++ out')
  end.
End task.

(** ** Where commands go *)
Section account.
Context `{JsonText, EventReader}.

Definition calls (ks : list ClientStep) : list CommandEnvelope := omap (fun k => match k with KSend command => Some command | _ => None end) ks.
(** The commands that left the queue, in order: sent, taken off for a send that failed, or pushed out of a full
    queue; and the times of those that were sent. *)
Definition settled (out : list ClientOut) : list CommandEnvelope :=
  omap (fun o => match o with WCommand _ command | Lost command | Dropped command => Some command | _ => None end) out.
Definition times (out : list ClientOut) : list Z := omap (fun o => match o with WCommand t _ => Some t | _ => None end) out.
Definition on_wire (out : list ClientOut) : Z :=
  Z.of_nat (length (List.filter (fun o => match o with WCommand _ _ | WAuth _ => true | _ => false end) out)).

Definition fits (c : LiminalClient) : Prop := (Z.of_nat (length (lc_queue c)) <= op_buffer_limit (lc_opts c))%Z.
(** What a step does to the queue, the counter, and the time of the last command. *)
Record step_ok (c : LiminalClient) (k : ClientStep) (c' : LiminalClient) (out : list ClientOut) : Prop := {
  so_opts : lc_opts c' = lc_opts c;
  so_queue : lc_queue c ++ calls [k] = settled out ++ lc_queue c';
  so_fits : fits c -> fits c';
  so_sent : (sent_commands (lc_metrics c') mod u64_size = (sent_commands (lc_metrics c) + on_wire out) mod u64_size)%Z
}.

Lemma step_quiet c k c' out :
  lc_opts c' = lc_opts c -> lc_queue c' = lc_queue c -> settled out = [] -> (forall command, k <> KSend command) ->
  (sent_commands (lc_metrics c') mod u64_size = (sent_commands (lc_metrics c) + on_wire out) mod u64_size)%Z -> step_ok c k c' out.
Proof.
  intros E1 E2 E3 Hk Hs. split; [done | | unfold fits; by rewrite E1, E2 | done].
  rewrite E2, E3. destruct k; cbn; rewrite ?app_nil_r; try done. by destruct (Hk command).
Qed.
Lemma u64_add_mod a b : (u64_add a b mod u64_size = (a + b) mod u64_size)%Z.
Proof. unfold u64_add. by rewrite Z.mod_mod. Qed.

Lemma step_still c k c' out :
  lc_opts c' = lc_opts c -> lc_queue c' = lc_queue c -> settled out = [] -> (forall command, k <> KSend command) ->
  sent_commands (lc_metrics c') = sent_commands (lc_metrics c) -> on_wire out = 0%Z -> step_ok c k c' out.
Proof. intros E1 E2 E3 Hk Hs Hw. apply step_quiet; try done. by rewrite Hs, Hw, Z.add_0_r. Qed.

Local Ltac still := solve [apply step_still; done].

Lemma client_step_ok c k : (1 <= op_buffer_limit (lc_opts c))%Z -> step_ok c k (client_step c k).1 (client_step c k).2.
Proof.
  intros Hl. unfold client_step.
  destruct k as [command | connected auth_sent now | sent | | now done_ sent | frame |].
  - assert (forall n, on_wire (map Dropped (take n (lc_queue c))) = 0%Z) as Hw.
    { intros n. unfold on_wire. induction (take n (lc_queue c)) as [|x l IH]; [done | exact IH]. }
    split; cbn [fst snd]; [done | | |].
    + unfold calls, settled. cbn [send set_queue lc_queue omap list_omap].
      destruct (Z.leb_spec (op_buffer_limit (lc_opts c)) (Z.of_nat (length (lc_queue c)))); [| done].
      destruct (lc_queue c) as [|old queue]; [cbn in *; lia | done].
    + unfold fits. cbn [send set_queue lc_queue lc_opts].
      destruct (Z.leb_spec (op_buffer_limit (lc_opts c)) (Z.of_nat (length (lc_queue c)))); rewrite length_app; cbn [length]; [| lia].
      destruct (lc_queue c) as [|old queue]; cbn [tail length]; [cbn in *; lia | lia].
    + destruct (_ <=? _)%Z; [rewrite Hw | change (on_wire []) with 0%Z]; by rewrite Z.add_0_r.
  - destruct (lc_phase c); try still. unfold try_connect. destruct connected; [| still].
    destruct (auth_command (lc_opts c)); [destruct auth_sent; [| still] |]; destruct (throttle (lc_opts c)); try still;
      apply step_quiet; try done; apply u64_add_mod.
  - destruct (lc_phase c) as [| [] ? | | |]; try still. destruct sent; still.
  - destruct (lc_phase c) as [| [] ? | | |]; try still. destruct (lc_permit c); still.
  - destruct (lc_phase c) as [| [] ? | | |]; try still. unfold send_next. destruct (lc_queue c) as [|command queue] eqn:Eq; [still |].
    destruct sent; (split; cbn [fst snd]; [done | cbn; by rewrite Eq, app_nil_r | unfold fits; cbn; rewrite Eq; cbn; lia |]).
    + apply u64_add_mod.
    + by rewrite Z.add_0_r.
  - destruct (lc_phase c) as [| [] ? | | |]; try still. unfold hear_frame. destruct frame; try still. destruct (value ← _; _); still.
  - destruct (lc_phase c); try still. destruct (next_backoff _ _); still.
Qed.

(** On one connection the commands are an interval apart. *)
Definition spaced (interval : Z) : list Z -> Prop := StronglySorted (fun a b => (a + interval <= b)%Z).
Definition last_time (c : LiminalClient) : option Z := match lc_phase c with POpen _ t => Some t | _ => None end.
Definition reconnects (k : ClientStep) : bool := match k with KConnect _ _ _ => true | _ => false end.

Lemma step_spaced c k interval :
  reconnects k = false -> throttle (lc_opts c) = Some (Some interval) ->
  (times (client_step c k).2 = [] /\
     (last_time (client_step c k).1 = last_time c \/ last_time (client_step c k).1 = None)) \/
  (exists last t, times (client_step c k).2 = [t] /\ last_time c = Some last /\ last_time (client_step c k).1 = Some t /\
     (last + interval <= t)%Z).
Proof.
  intros Hk Ht. unfold client_step, last_time.
  assert (forall p : LiminalClient * list ClientOut, p = (c, []) -> (times p.2 = [] /\
     (match lc_phase p.1 with POpen _ t => Some t | _ => None end = match lc_phase c with POpen _ t => Some t | _ => None end \/
      match lc_phase p.1 with POpen _ t => Some t | _ => None end = None))) as Hstay by (intros p ->; auto).
  destruct k as [command | connected auth_sent now | sent | | now done_ sent | frame |]; try done.
  - left. cbn [fst snd]. split; [| by left]. by destruct (_ <=? _)%Z; [destruct (lc_queue c) |].
  - destruct (lc_phase c) as [| [] ? | | |] eqn:Ep; try (left; by apply Hstay). destruct sent; [left; cbn; rewrite Ep; auto |].
    left. cbn. destruct (op_reconnect (lc_opts c)); auto.
  - destruct (lc_phase c) as [| [] ? | | |] eqn:Ep; try (left; by apply Hstay). destruct (lc_permit c); left; cbn; rewrite ?Ep; auto.
  - destruct (lc_phase c) as [| [] last | | |] eqn:Ep; try (left; by apply Hstay). unfold send_next.
    destruct (lc_queue c) as [|command queue]; [left; cbn; auto |]. destruct sent; [| left; cbn; auto].
    right. rewrite Ht. exists last. eexists. cbn [fst snd times omap list_omap set_phase lc_phase]. split_and!; [done | done | done | lia].
  - destruct (lc_phase c) as [| [] ? | | |] eqn:Ep; try (left; by apply Hstay).
    unfold hear_frame. destruct frame; try destruct (value ← _; _); left; cbn; rewrite ?Ep; auto.
    destruct (op_reconnect (lc_opts c)); auto.
  - destruct (lc_phase c) as [| [] ? | | |] eqn:Ep; try (left; by apply Hstay). destruct (next_backoff _ _); left; cbn; auto.
Qed.

Lemma omap_calls k ks : calls (k :: ks) = calls [k] ++ calls ks. Proof. by destruct k. Qed.
Lemma on_wire_app l l' : on_wire (l ++ l') = (on_wire l + on_wire l')%Z.
Proof. unfold on_wire. rewrite List.filter_app, length_app. lia. Qed.

(** Once a connection has ended nothing is sent before the next. *)
Lemma closed_silent interval ks : forall c, (1 <= op_buffer_limit (lc_opts c))%Z -> throttle (lc_opts c) = Some (Some interval) ->
  last_time c = None -> forallb (negb ∘ reconnects) ks = true -> times (client_run ks c).2 = [].
Proof.
  induction ks as [|k ks IH]; intros c Hl Ht Hc Hks; [done |]. cbn [client_run]. apply andb_true_iff in Hks as [Hk Hks].
  pose proof (so_opts _ _ _ _ (client_step_ok c k Hl)) as So. pose proof (step_spaced c k interval (proj1 (negb_true_iff _) Hk) Ht) as Hsp.
  destruct (client_step c k) as [c1 out1]. cbn [fst snd] in *. rewrite <- So in Hl, Ht.
  assert (times out1 = [] /\ last_time c1 = None) as [E1 E2].
  { destruct Hsp as [[? [E|E]] | (last & t & _ & E & _)]; [by rewrite E | done | congruence]. }
  specialize (IH c1 Hl Ht E2 Hks). destruct (client_run ks c1) as [c2 out2]. cbn [snd] in *.
  unfold times in *. by rewrite omap_app, E1, IH.
Qed.

(** C38: Every command of a client is accounted for. From any state, in any order of calls, turns of the task, answers
    of the socket and readings of the clock, the commands that were queued before and those that were called
    are, in this order, those that left the queue and those still in it: none overtakes another and none is sent
    twice. The queue never outgrows its limit, the counter counts what was put on the wire, and between two
    reconnections no two commands are closer than the rate allows. *)
Theorem client_accounts ks c c' out :
  (1 <= op_buffer_limit (lc_opts c))%Z -> client_run ks c = (c', out) ->
  lc_queue c ++ calls ks = settled out ++ lc_queue c' /\
  (fits c -> fits c') /\
  (sent_commands (lc_metrics c') mod u64_size = (sent_commands (lc_metrics c) + on_wire out) mod u64_size)%Z /\
  (forall interval, throttle (lc_opts c) = Some (Some interval) -> (0 <= interval)%Z -> forallb (negb ∘ reconnects) ks = true ->
     spaced interval (option_list (last_time c) ++ times out)).
Proof.
  revert c out. induction ks as [|k ks IH]; intros c out Hl; cbn [client_run].
  { intros [= <- <-]. split_and!; [by rewrite app_nil_r | done | by rewrite Z.add_0_r |]. intros interval _ _ _. rewrite app_nil_r.
    destruct (last_time c); repeat constructor. }
  pose proof (client_step_ok c k Hl) as [So Sq Sf Ss]. pose proof (step_spaced c k) as Hsp.
  destruct (client_step c k) as [c1 out1]. cbn [fst snd] in *. destruct (client_run ks c1) as [c2 out2] eqn:E. intros [= <- <-].
  rewrite <- So in Hl. destruct (IH c1 out2 Hl E) as (Iq & If & Is & It). split_and!.
  - rewrite omap_calls, app_assoc, Sq, <- app_assoc, Iq, app_assoc. unfold settled. by rewrite omap_app.
  - auto.
  - rewrite Is, on_wire_app, Z.add_assoc, Z.add_mod, Ss, <- Z.add_mod by done. done.
  - intros interval Ht Hi [Hk Hks]%andb_true_iff. specialize (Hsp interval (proj1 (negb_true_iff _) Hk) Ht). rewrite <- So in Ht.
    specialize (It interval Ht Hi Hks). assert (times (out1 ++ out2) = times out1 ++ times out2) as -> by (unfold times; by rewrite omap_app).
    destruct Hsp as [[-> [E1 | E1]] | (last & t & -> & E0 & E1 & Hle)]; cbn [app].
    + by rewrite E1 in It.
    + pose proof (closed_silent interval ks c1 Hl Ht E1 Hks) as Hsil. rewrite E in Hsil. cbn [snd] in Hsil. rewrite Hsil.
      destruct (last_time c); repeat constructor.
    + rewrite E0. rewrite E1 in It. cbn in It |- *. constructor; [done |]. apply StronglySorted_inv in It as [_ Hall].
      constructor; [done |]. eapply Forall_impl; [exact Hall |]. cbn. lia.
Qed.
End account.

(** *** The delay before the next attempt *)
Fixpoint delays (n : nat) (policy : BackoffPolicy) : option Z :=
  match n with O => Some (bo_min policy) | S n => delays n policy ≫= next_backoff policy end.
(** With the default policy the delay doubles from a quarter of a second to eight seconds, and stays there. *)
Lemma default_delays n : delays n BackoffPolicy_default = Some (Z.min (8000 * ms) (250 * ms * 2 ^ Z.of_nat n))%Z.
Proof.
  destruct (decide (n < 6)) as [Hn|Hn].
  - destruct n as [|[|[|[|[|[|n]]]]]]; [by vm_compute.. | lia].
  - assert (forall k, delays (5 + k) BackoffPolicy_default = Some (8000 * ms)%Z) as Hk.
    { induction k as [|k IH]; [by vm_compute |]. rewrite Nat.add_succ_r. cbn [delays]. rewrite IH. by vm_compute. }
    replace n with (5 + (n - 5)) by lia. rewrite Hk. f_equal. unfold ms.
    assert (2 ^ 5 <= 2 ^ Z.of_nat (5 + (n - 5)))%Z by (apply Z.pow_le_mono_r; lia). lia.
Qed.

(** ** The client and the server *)
Section together.
Context `{UnicodeCase, FloatMath, SeedRng, JsonText, BridgeEnv, Lql.QueryJson, CliEnv, Crc32, Cbor EventDelta, Cbor StreamCodec.cbor}.
Context `{EventReader, WsEnv}.

(** Both ends read and write their texts with [serde_json]. *)
Class SameText : Prop := {
  same_read : forall text, ws_from_str text = match json_from_str text with Some j => Ok j | None => Err "no JSON" end;
  same_write : forall j, ws_to_string j = Ok (json_to_string j)
}.

Context `{!JsonTextOk, !SameText}.

Lemma dispatch_without_cmd v : jget "cmd" v = None -> dispatch v = Some (InRaw v).
Proof. intros E. unfold dispatch. by rewrite E. Qed.

Lemma receive_text id c v s : sv_open s !! id = Some c -> cn_phase c = Reading ->
  (receive id (StreamCodec.MText (json_to_string v)) s).2 = dispatch (map_floats reread v).
Proof.
  intros Ho Hc. unfold receive, Server.decode, StreamCodec.decode_cbor_json. rewrite Ho, Hc, same_read, read_written. cbn [rbind].
  by case_decide.
Qed.

Lemma raw_changes_nothing o took v c :
  let '(c', out) := run_network o took (InRaw v) c in
  cli_field c' = (match cli_journal c with Some _ => attached (cli_field c) | None => cli_field c end) /\
  cli_queue c' = cli_queue c /\ out = [Println ("WS RAW " +:+ json_to_string v)].
Proof.
  unfold run_network, serve_reply, with_lock. cbn [handle_network_command]. destruct (cli_journal c); cbn; by rewrite app_nil_r.
Qed.

(** What a client puts on the wire. *)
Definition sdk_payload (o : ClientOut) : option json :=
  match o with
  | WAuth command | WCommand _ command => Some (command_payload command)
  | WHeartbeat => Some heartbeat_payload
  | _ => None
  end.

(** What the client makes of a value the server sends as a text. *)
Definition heard_of (value : json) : option EventEnvelope :=
  jget "event" value ≫= fun v => event_from_value (map_floats reread v).

Lemma hear_text client value frame last :
  lc_phase client = POpen false last -> Server.encode value StreamCodec.Json = Some (StreamCodec.MText frame) ->
  client_step client (KFrame (FText frame)) =
    match heard_of value with
    | Some e => (set_phase (POpen false last) (with_received (lc_metrics client)) client, [Heard e])
    | None => (client, [])
    end.
Proof.
  intros Hphase Hf. unfold Server.encode, StreamCodec.encode_cbor_json in Hf.
  rewrite same_write in Hf. injection Hf as <-. unfold client_step. rewrite Hphase.
  unfold hear_frame, heard_of. rewrite read_written. cbn [mbind option_bind]. rewrite jget_map_floats, Hphase.
  by destruct (jget "event" value).
Qed.

(** The mark of the hub leaves the member alone. *)
Lemma stamp_unheard payload : heard_of (stamp_event payload) = heard_of payload.
Proof.
  unfold heard_of. f_equal. destruct payload as [| | | | | | | m]; try done. unfold stamp_event.
  assert (forall m : gmap string json,
    jget "event" (match m !! "meta" with
      | Some (JObj meta) => JObj (<["meta" := JObj (<["source" := JStr "ws"]> meta)]> m)
      | _ => JObj m
      end) = m !! "event") as Hm.
  { intros m'. destruct (m' !! "meta") as [[| | | | | | | meta]|]; try done. cbn. by rewrite lookup_insert_ne. }
  destruct (m !! "meta"); [apply Hm |]. rewrite Hm. by rewrite lookup_insert_ne.
Qed.

Lemma no_event_unheard value : jget "event" value = None -> heard_of value = None.
Proof. unfold heard_of. by intros ->. Qed.

(** What the life loop publishes of an event of the field, and of its metrics. *)
Lemma published_event ev meta c value :
  Publish value ∈ (cli_output (c, []) (OEvent (event ev meta))).2 \/
  PublishMetrics value ∈ (cli_output (c, []) (OEvent (event ev meta))).2 ->
  value = map_floats reread (json_obj [("ev", JStr ev); ("meta", json_obj meta)]).
Proof.
  cbn [cli_output snd app event event_text]. rewrite read_written. unfold print_event_line.
  set (line := default _ _). generalize (map_floats reread (json_obj [("ev", JStr ev); ("meta", json_obj meta)])). intros w.
  clearbody line. change (_ ++ _) with [Println line; Publish w].
  rewrite ?elem_of_cons, ?elem_of_nil. intuition congruence.
Qed.
Lemma published_metrics m c value :
  Publish value ∈ (cli_output (c, []) (OMetrics m)).2 \/ PublishMetrics value ∈ (cli_output (c, []) (OMetrics m)).2 ->
  value = json_obj [("ev", JStr "metrics"); ("metrics", metrics_json m)].
Proof. cbn [cli_output snd app]. rewrite ?elem_of_cons, ?elem_of_nil. intuition congruence. Qed.

End together.

(** ** A client that is driven *)
Section demo.
#[local] Existing Instances DatabaseProps.demo_case DatabaseProps.demo_rng DatabaseProps.demo_math DatabaseProps.demo_crc
  FieldCodec.cbor_delta FieldCodec.tree_text FieldCodec.tree_text_ok BridgeProps.demo_query BridgeProps.demo_bridge CliProps.demo_cli
  Server.queries.
#[local] Instance demo_reader : EventReader := {| event_from_value _ := Some (EchoEvent "echo" "ok") |}.
#[local] Instance demo_ws_text : WsEnv :=
  {| ws_debug _ := ""; ws_to_string j := Ok (json_to_string j);
     ws_from_str text := match json_from_str text with Some j => Ok j | None => Err "no JSON" end |}.
Lemma demo_same : SameText. Proof. by split. Qed.
#[local] Existing Instance demo_same.

Definition demo_opts : ClientOptions :=
  mkOptions "ws://localhost:7777/ws" (Some "key") (Some "secret") None false BackoffPolicy_default 2 (15000 * ms) 50.
Definition fresh : LiminalClient := default (mkClientSide demo_opts [] false ClientMetrics_default PReturned 0) (connect demo_opts).
Definition wish (n : string) : CommandEnvelope := LqlCommand n "lql" None "SELECT root".

(** Three calls on a queue of two, a connection, two commands, the second of them lost, and a third call. *)
Definition drive : list ClientStep :=
  [KSend (wish "1"); KSend (wish "2"); KSend (wish "3"); KConnect true true 5; KNotified; KNext 6 7 true; KNext 8 9 false;
   KSend (wish "4"); KNotified; KNext 10 11 true; KNext 12 13 true; KBeat true; KFrame (FText (json_to_string (JObj ∅)))].
Lemma client_accounts_witness :
  let '(c', out) := client_run drive fresh in
  settled out = [wish "1"; wish "2"; wish "3"; wish "4"] /\ sent_commands (lc_metrics c') = 3%Z /\
  lc_queue fresh ++ calls drive = settled out ++ lc_queue c' /\ fits c'.
Proof.
  assert (let '(c', out) := client_run drive fresh in
    settled out = [wish "1"; wish "2"; wish "3"; wish "4"] /\ sent_commands (lc_metrics c') = 3%Z) as Hc by (vm_compute; split; reflexivity).
  destruct (client_run drive fresh) as [c' out] eqn:E. destruct Hc as [H1 H2].
  destruct (client_accounts drive fresh c' out ltac:(vm_compute; discriminate) E) as (Hq & Hf & _).
  split_and!; [exact H1 | exact H2 | exact Hq |]. apply Hf. vm_compute. discriminate.
Defined.

(** A command that fails to be sent is lost, those behind it stay until the next call, and the depth of the queue is
    never counted down. *)
Example left_behind :
  let c := fst (client_run [KSend (wish "1"); KSend (wish "2"); KConnect true true 5; KNotified; KNext 6 7 false; KNotified] fresh) in
  lc_queue c = [wish "2"] /\ lc_phase c = POpen false 5 /\ lc_permit c = false /\ queue_depth (lc_metrics c) = 2%Z.
Proof. vm_compute. split_and!; reflexivity. Qed.
(** An authentication that cannot be sent starts over without a delay, although the client is not to reconnect. *)
Example refused_starts_over n :
  lc_phase (fst (client_run (replicate n (KConnect true false 5)) fresh)) = PConnect.
Proof.
  assert (forall c, lc_phase c = PConnect -> lc_opts c = demo_opts ->
    lc_phase (fst (client_run (replicate n (KConnect true false 5)) c)) = PConnect) as Hn; [| by apply Hn].
  induction n as [|n IH]; intros c Hp Ho; [done |]. cbn [replicate client_run client_step]. rewrite Hp.
  unfold try_connect. rewrite Ho. cbn [auth_command demo_opts op_key_id op_secret mbind option_bind].
  specialize (IH (set_phase PConnect (with_state StConnected (with_state StConnecting (lc_metrics c))) c) eq_refl Ho).
  destruct (client_run (replicate n (KConnect true false 5)) _) as [c2 out2]. exact IH.
Qed.

(** The events of a field and its metrics have no member [event]. *)
Example events_unheard ev meta m :
  jget "event" (json_obj [("ev", JStr ev); ("meta", json_obj meta)]) = None /\
  jget "event" (json_obj [("ev", JStr "metrics"); ("metrics", metrics_json m)]) = None.
Proof. done. Qed.

Definition demo_server : Server := Server.mkServer BridgeHub_new None 2 {[1%Z := Conn_new StreamCodec.Json]}.
Definition demo_process : Cli := mkCli ClusterField_new None None [] [] NotConnected.
Definition demo_open : LiminalClient := fst (client_run [KConnect true true 5] fresh).
(** The console says an event. *)
Definition demo_said : json := json_obj [("event", JNull)].
End demo.
