(* ===== verification/Sal.v ===== *)
(** * The storage layer ([liminal-sal], [sal-adapters/sled])

    [Sal] is the trait: keys and values in name spaces, and a log of records. [SledSal] implements it over a sled
    database, a parameter with the behaviour its documentation states, and over a file of frames, each the length
    of a record and its bytes. [sled_refines] shows that the adapter is a map and runs of records: any
    append may fail after any number of bytes, and any read may fail. The frames have no checksum and a torn one is not
    repaired; it ends a run of records, and a new one begins only with the next process. The path
    ([normalize_path]) only chooses the files, whose directory [create_if_missing] creates; [read_only] is not read. *)

From stdpp Require Import prelude gmap strings fin_maps list sorting.
From coqutil Require Import Byte Word.LittleEndianList.
From Stdlib Require Import ZArith Lia.
From S2P Require Import Prelude RustStr RustOrd RustText WalSpec.

Record SalOpts : Type := mkSalOpts {
  read_only : bool;
  create_if_missing : bool
}.
Definition SalOpts_default : SalOpts := mkSalOpts false false.

(** The trait; errors are texts. *)
Class Sal (S : Type) : Type := {
  kv_get : string -> bytes -> S -> S * result (option bytes) string;
  kv_put : string -> bytes -> bytes -> S -> S * result unit string;
  kv_del : string -> bytes -> S -> S * result unit string;
  scan_prefix : string -> bytes -> nat -> S -> S * result (list (bytes * bytes)) string;
  wal_append : bytes -> S -> S * result Z string;
  wal_read : Z -> Z -> S -> S * result (list (Z * bytes)) string;
  flush : S -> S * result unit string
}.

(** ** Sled *)
Class Sled (D : Type) : Type := {
  open_tree : string -> D -> D * result unit string;
  tree_get : string -> bytes -> D -> result (option bytes) string;
  tree_insert : string -> bytes -> bytes -> D -> D * result unit string;
  tree_remove : string -> bytes -> D -> D * result unit string;
  tree_flush : string -> D -> D * result unit string;
  tree_scan : string -> bytes -> D -> list (result (bytes * bytes) string);
  db_flush : D -> D * result unit string;
  (** What a new process finds. *)
  db_reopen : D -> result D string
}.

(** A tree is a map that is visited in the order of its keys; what was flushed is found again. *)
Class SledOk (D : Type) `{Sled D} : Type := {
  contents : D -> gmap (string * bytes) bytes;
  synced : D -> Prop;
  open_keeps ns d : let '(d', _) := open_tree ns d in contents d' = contents d /\ (synced d -> synced d');
  get_contents ns k d v : tree_get ns k d = Ok v -> v = contents d !! (ns, k);
  insert_contents ns k v d :
    match tree_insert ns k v d with
    | (d', Ok _) => contents d' = <[(ns, k) := v]> (contents d)
    | (d', Err _) => contents d' = contents d
    end;
  remove_contents ns k d :
    match tree_remove ns k d with
    | (d', Ok _) => contents d' = delete (ns, k) (contents d)
    | (d', Err _) => contents d' = contents d
    end;
  flush_synced ns d : let '(d', r) := tree_flush ns d in contents d' = contents d /\ (is_ok r = true -> synced d');
  db_flush_synced d : let '(d', r) := db_flush d in contents d' = contents d /\ (is_ok r = true -> synced d');
  scan_contents ns p d : exists all,
    StronglySorted (fun a b => cmp a.1 b.1 = Lt) all /\
    (forall k v, (k, v) ∈ all <-> contents d !! (ns, k) = Some v /\ p `prefix_of` k) /\
    forall n l, mapM (fun r => match r with Ok e => Some e | Err _ => None end) (take n (tree_scan ns p d)) = Some l -> l = take n all;
  reopen_synced d d' : synced d -> db_reopen d = Ok d' -> contents d' = contents d /\ synced d'
}.

(** ** The log *)
Record WalWriter : Type := mkSalWriter {
  sw_file : bytes;
  sw_next : Z
}.
Definition WalWriter_open (file : bytes) : WalWriter := mkSalWriter file (blen file).

Definition frame (record : bytes) : bytes := to_le_bytes32 (blen record) ++ record.
(** [write_all] fails after [n] bytes, when there are more to write. *)
Definition cut (fault : option nat) (record : bytes) : option nat :=
  match fault with
  | Some n => if (n <? length (frame record))%nat then Some n else None
  | None => None
  end.
Definition append (fault : option nat) (record : bytes) (w : WalWriter) : WalWriter * result Z string :=
  let offset := sw_next w in
  if (u32_max <? blen record)%Z then (w, Err "record too large")
  else
    match cut fault record with
    | Some n => (mkSalWriter (sw_file w ++ take n (frame record)) (sw_next w), Err "write failed")
    | None => (mkSalWriter (sw_file w ++ frame record) (u64_add (sw_next w) (4 + blen record)), Ok offset)
    end.

(** The loop reads at [rest]; the fuel bounds the records, each of which has four bytes at least. *)
Fixpoint read_loop (fuel : nat) (current max read : Z) (rest : bytes) (out : list (Z * bytes)) : result (list (Z * bytes)) string :=
  match fuel with
  | O => Ok out
  | S fuel =>
      if (max <=? read)%Z then Ok out
      else if (blen rest <? 4)%Z then Ok out
      else
        let len := le_combine (take 4 rest) in
        let rest := drop 4 rest in
        if (blen rest <? len)%Z then Err "failed to fill whole buffer"
        else
          read_loop fuel (u64_add current (4 + len)) max (u64_add read 1) (drop (Z.to_nat len) rest)
            (out ++ [(current, take (Z.to_nat len) rest)])
  end.
Definition i64_max : Z := 2 ^ 63 - 1.
(** [seek] refuses an offset that is no [i64]; the answer is a [BTreeMap] of growing offsets. *)
Definition read_from (offset max : Z) (file : bytes) : result (list (Z * bytes)) string :=
  if (i64_max <? offset)%Z then Err "Invalid argument (os error 22)"
  else read_loop (S (length file)) offset max 0 (drop (Z.to_nat offset) file) [].

(** ** The adapter *)
Record SledSal (D : Type) : Type := mkSledSal {
  ss_db : D;
  ss_wal : WalWriter
}.
Arguments mkSledSal {D} _ _.
Arguments ss_db {D} _.
Arguments ss_wal {D} _.

Definition normalize_path (fragment : string) : string :=
  let trimmed := trim fragment in if decide (trimmed = "") then "." else trimmed.

Section adapter.
Context {D : Type} `{Sled D}.

Definition SledSal_open (db : result D string) (file : bytes) : result (SledSal D) string :=
  let! db := db in Ok (mkSledSal db (WalWriter_open file)).
Definition put_db (d : D) (s : SledSal D) : SledSal D := mkSledSal d (ss_wal s).

(** A step on a tree, and the flush after it. *)
Definition on_tree {A : Type} (ns : string) (step : D -> D * result A string) (s : SledSal D) : SledSal D * result A string :=
  match open_tree ns (ss_db s) with
  | (d, Err e) => (put_db d s, Err e)
  | (d, Ok _) => let '(d, r) := step d in (put_db d s, r)
  end.
Definition then_flush (ns : string) (p : D * result unit string) : D * result unit string :=
  match p with
  | (d, Err e) => (d, Err e)
  | (d, Ok _) => tree_flush ns d
  end.

(** What the file system does to a call: where it cuts a write, and the error of a read. *)
Record DiskFault : Type := mkDiskFault { df_write : option nat; df_read : option string }.
Definition no_fault : DiskFault := mkDiskFault None None.
Definition sled_sal (fault : DiskFault) : Sal (SledSal D) := {|
  kv_get ns key := on_tree ns (fun d => (d, tree_get ns key d));
  kv_put ns key val := on_tree ns (fun d => then_flush ns (tree_insert ns key val d));
  kv_del ns key := on_tree ns (fun d => then_flush ns (tree_remove ns key d));
  scan_prefix ns prefix limit := on_tree ns (fun d => (d, fold_result (fun out r => let! e := r in Ok (out ++ [e])) [] (take limit (tree_scan ns prefix d))));
  wal_append record s := let '(w, r) := append (df_write fault) record (ss_wal s) in (mkSledSal (ss_db s) w, r);
  wal_read offset max s :=
    (s, match df_read fault with Some e => Err e | None => read_from offset max (sw_file (ss_wal s)) end);
  flush s := let '(d, r) := db_flush (ss_db s) in (put_db d s, r)
|}.

(** A new process. *)
Definition reopen (s : SledSal D) : result (SledSal D) string := SledSal_open (db_reopen (ss_db s)) (sw_file (ss_wal s)).
End adapter.

(** ** What the adapter is *)
(** The log: runs of records, each with the offset it begins at. The last run is open, and [lg_whole] as long as no
    append of it has failed half-way; then it ends with the file. *)
Record Log : Type := mkLog {
  lg_past : list (Z * list bytes);
  lg_base : Z;
  lg_records : list bytes;
  lg_whole : bool
}.
(** A map, a log, and whether the last change of the map is known to be on the disk. *)
Record Abstract : Type := mkAbstract {
  ab_kv : gmap (string * bytes) bytes;
  ab_log : Log;
  ab_clean : bool
}.
Definition log_file (log : list bytes) : bytes := concat (frame <$> log).
(** The records with their offsets, from [at_]. *)
Fixpoint positions (at_ : Z) (log : list bytes) : list (Z * bytes) :=
  match log with
  | [] => []
  | record :: log => (at_, record) :: positions (at_ + (4 + blen record)) log
  end.
Definition listing (kv : gmap (string * bytes) bytes) (ns : string) (p : bytes) (all : list (bytes * bytes)) : Prop :=
  StronglySorted (fun a b => cmp a.1 b.1 = Lt) all /\
  forall k v, (k, v) ∈ all <-> kv !! (ns, k) = Some v /\ p `prefix_of` k.

(** A call and its answer, or a new process. *)
Inductive sal_event : Type :=
| EvGet (ns : string) (key : bytes) (r : result (option bytes) string)
| EvPut (ns : string) (key val : bytes) (r : result unit string)
| EvDel (ns : string) (key : bytes) (r : result unit string)
| EvScan (ns : string) (prefix : bytes) (limit : nat) (r : result (list (bytes * bytes)) string)
| EvAppend (fault : option nat) (record : bytes) (r : result Z string)
| EvRead (fault : option string) (offset max : Z) (r : result (list (Z * bytes)) string)
| EvFlush (r : result unit string)
| EvReopen.

(** What an append does to the log, and what it answers. *)
Definition log_appends (fault : option nat) (record : bytes) (r : result Z string) (g g' : Log) : Prop :=
  if (u32_max <? blen record)%Z then g' = g /\ is_ok r = false
  else
    match cut fault record with
    | Some 0 => g' = g /\ is_ok r = false
    | Some _ => g' = mkLog (lg_past g) (lg_base g) (lg_records g) false /\ is_ok r = false
    | None =>
        if lg_whole g then
          g' = mkLog (lg_past g) (lg_base g) (lg_records g ++ [record]) true /\
          r = Ok (lg_base g + blen (log_file (lg_records g)))%Z
        else g' = g /\ is_ok r = true
    end.
(** A run of records from [base]; nothing follows an [open] one. *)
Definition run_in (g : Log) (base : Z) (log : list bytes) (open : bool) : Prop :=
  ((base, log) ∈ lg_past g /\ open = false) \/ (base = lg_base g /\ log = lg_records g /\ open = lg_whole g).
(** What is read at a record of a run, not beyond its end: that record and those after it. *)
Definition log_reads (offset max : Z) (r : result (list (Z * bytes)) string) (g : Log) : Prop :=
  forall base log open before after, run_in g base log open -> log = before ++ after ->
    offset = (base + blen (log_file before))%Z -> (max <= Z.of_nat (length after))%Z \/ open = true ->
    r = Ok (take (Z.to_nat max) (positions offset after)).
(** A new process goes on with the run, or, where an append has failed half-way, begins another. *)
Definition log_reopens (g g' : Log) : Prop :=
  if lg_whole g then g' = g
  else exists base, g' = mkLog (lg_past g ++ [(lg_base g, lg_records g)]) base [] true.

(** What a call does to the map and the log, and what it answers. A change of the map that fails may have been
    made. *)
Definition says (a : Abstract) (e : sal_event) (a' : Abstract) : Prop :=
  match e with
  | EvGet ns key r => a' = a /\ forall v, r = Ok v -> v = ab_kv a !! (ns, key)
  | EvPut ns key val r =>
      ab_log a' = ab_log a /\ ab_clean a' = is_ok r /\
      (ab_kv a' = <[(ns, key) := val]> (ab_kv a) \/ is_ok r = false /\ ab_kv a' = ab_kv a)
  | EvDel ns key r =>
      ab_log a' = ab_log a /\ ab_clean a' = is_ok r /\
      (ab_kv a' = delete (ns, key) (ab_kv a) \/ is_ok r = false /\ ab_kv a' = ab_kv a)
  | EvScan ns p limit r => a' = a /\ forall l, r = Ok l -> exists all, listing (ab_kv a) ns p all /\ l = take limit all
  | EvAppend fault record r =>
      ab_kv a' = ab_kv a /\ ab_clean a' = ab_clean a /\ log_appends fault record r (ab_log a) (ab_log a')
  | EvRead fault offset max r =>
      a' = a /\ match fault with Some e => r = Err e | None => log_reads offset max r (ab_log a) end
  | EvFlush r => a' = mkAbstract (ab_kv a) (ab_log a) (is_ok r)
  | EvReopen => log_reopens (ab_log a) (ab_log a') /\ (ab_clean a = true -> ab_kv a' = ab_kv a /\ ab_clean a' = true)
  end.
Inductive behaves : Abstract -> list sal_event -> Abstract -> Prop :=
| BehavesNil a : behaves a [] a
| BehavesCons a e a1 es a2 : says a e a1 -> behaves a1 es a2 -> behaves a (e :: es) a2.

Section refinement.
Context {D : Type} `{Sled D, !SledOk D}.

(** A call, whatever the file system does to it, or a new process. *)
Inductive sal_call : SledSal D -> sal_event -> SledSal D -> Prop :=
| CallGet fault ns key s : sal_call s (EvGet ns key (@kv_get _ (sled_sal fault) ns key s).2) (@kv_get _ (sled_sal fault) ns key s).1
| CallPut fault ns key val s : sal_call s (EvPut ns key val (@kv_put _ (sled_sal fault) ns key val s).2) (@kv_put _ (sled_sal fault) ns key val s).1
| CallDel fault ns key s : sal_call s (EvDel ns key (@kv_del _ (sled_sal fault) ns key s).2) (@kv_del _ (sled_sal fault) ns key s).1
| CallScan fault ns p limit s :
    sal_call s (EvScan ns p limit (@scan_prefix _ (sled_sal fault) ns p limit s).2) (@scan_prefix _ (sled_sal fault) ns p limit s).1
| CallAppend fault record s :
    sal_call s (EvAppend (df_write fault) record (@wal_append _ (sled_sal fault) record s).2) (@wal_append _ (sled_sal fault) record s).1
| CallRead fault offset max s :
    sal_call s (EvRead (df_read fault) offset max (@wal_read _ (sled_sal fault) offset max s).2) (@wal_read _ (sled_sal fault) offset max s).1
| CallFlush fault s : sal_call s (EvFlush (@flush _ (sled_sal fault) s).2) (@flush _ (sled_sal fault) s).1
| CallReopen s s' : reopen s = Ok s' -> sal_call s EvReopen s'.
Inductive sal_run : SledSal D -> list sal_event -> SledSal D -> Prop :=
| RunNil s : sal_run s [] s
| RunCons s e s1 es s2 : sal_call s e s1 -> sal_run s1 es s2 -> sal_run s (e :: es) s2.

(** The records of a run stand in the file at its offset. *)
Definition in_file (base : Z) (log : list bytes) (file : bytes) : Prop :=
  Forall (fun record => (blen record <= u32_max)%Z) log /\
  exists x y, file = x ++ log_file log ++ y /\ base = blen x.
Record log_sim (w : WalWriter) (g : Log) : Prop := {
  ls_past : forall base log, (base, log) ∈ lg_past g -> in_file base log (sw_file w);
  ls_last : in_file (lg_base g) (lg_records g) (sw_file w);
  ls_whole : lg_whole g = true ->
    sw_next w = blen (sw_file w) /\ (lg_base g + blen (log_file (lg_records g)))%Z = blen (sw_file w)
}.
Record sim (s : SledSal D) (a : Abstract) : Prop := {
  sim_kv : contents (ss_db s) = ab_kv a;
  sim_synced : ab_clean a = true -> synced (ss_db s);
  sim_log : log_sim (ss_wal s) (ab_log a)
}.

(** *** The log *)
Lemma length_record_frame record : length (frame record) = 4 + length record.
Proof. unfold frame. by rewrite length_app, length_to_le_bytes32. Qed.
Lemma log_file_app l l' : log_file (l ++ l') = log_file l ++ log_file l'.
Proof. unfold log_file. by rewrite fmap_app, concat_app. Qed.
Lemma blen_record_frame record : blen (frame record) = (4 + blen record)%Z.
Proof. unfold blen. rewrite length_record_frame. lia. Qed.
Lemma log_file_cons record log : log_file (record :: log) = frame record ++ log_file log. Proof. done. Qed.
Lemma length_log_file log : length log <= length (log_file log).
Proof. induction log as [|record log IH]; [done |]. rewrite log_file_cons, length_app, length_record_frame. cbn [length]. lia. Qed.

(** A run is read up to its end, and beyond only when nothing follows it. *)
Lemma read_loop_log log y : forall fuel at_ max read out,
  length log < fuel -> Forall (fun record => (blen record <= u32_max)%Z) log ->
  (0 <= at_)%Z -> (at_ + blen (log_file log) < u64_size)%Z -> (0 <= read)%Z -> (read + Z.of_nat (length log) < u64_size)%Z ->
  (max <= read + Z.of_nat (length log))%Z \/ y = [] ->
  read_loop fuel at_ max read (log_file log ++ y) out = Ok (out ++ take (Z.to_nat (max - read)) (positions at_ log)).
Proof.
  induction log as [|record log IH]; intros fuel at_ max read out Hf Hs Ha Hb Hr Hn Hy; (destruct fuel as [|fuel]; [cbn in Hf; lia |]); cbn [read_loop].
  { replace (take (Z.to_nat (max - read)) (positions at_ [])) with (@nil (Z * bytes)) by (by destruct (Z.to_nat (max - read))).
    rewrite app_nil_r. destruct (Z.leb_spec max read); [done |]. destruct Hy as [Hy | ->]; [cbn in Hy; lia | done]. }
  destruct (Z.leb_spec max read) as [Hm|Hm].
  { replace (Z.to_nat (max - read)) with 0 by lia. by rewrite take_0, app_nil_r. }
  apply Forall_cons in Hs as [Hsz Hs]. rewrite log_file_cons in *. rewrite blen_app, blen_record_frame in Hb. rewrite <- app_assoc.
  assert (blen (frame record ++ log_file log ++ y) <? 4 = false)%Z as ->.
  { apply Z.ltb_ge. rewrite blen_app, blen_record_frame. unfold blen. lia. }
  unfold frame. rewrite <- app_assoc. rewrite take_app_le by (by rewrite length_to_le_bytes32).
  rewrite take_ge by (by rewrite length_to_le_bytes32).
  rewrite drop_app_ge by (by rewrite length_to_le_bytes32). rewrite length_to_le_bytes32, drop_0.
  change (le_combine ?b) with (from_le_bytes32 b).
  rewrite from_to_le_bytes32 by (unfold is_u32, u32_max, blen in *; lia).
  assert (blen (record ++ log_file log ++ y) <? blen record = false)%Z as ->.
  { apply Z.ltb_ge. rewrite blen_app. unfold blen. lia. }
  replace (Z.to_nat (blen record)) with (length record) by (unfold blen; lia).
  rewrite take_app_length, drop_app_length. cbn [length] in Hn, Hf, Hy.
  assert (0 <= blen record /\ 0 <= blen (log_file log))%Z as [H1 H2] by (unfold blen; lia).
  rewrite (u64_add_small at_), (u64_add_small read) by lia. rewrite IH; try done; try lia; [| destruct Hy; [left; lia | by right]].
  rewrite <- app_assoc. cbn [positions]. replace (Z.to_nat (max - read)) with (S (Z.to_nat (max - (read + 1)))) by lia. done.
Qed.

Lemma read_log x y before after max :
  Forall (fun record => (blen record <= u32_max)%Z) (before ++ after) ->
  (blen (x ++ log_file (before ++ after) ++ y) <= i64_max)%Z -> (max <= Z.of_nat (length after))%Z \/ y = [] ->
  read_from (blen x + blen (log_file before)) max (x ++ log_file (before ++ after) ++ y)
  = Ok (take (Z.to_nat max) (positions (blen x + blen (log_file before)) after)).
Proof.
  intros Hs Hb Hy. apply Forall_app in Hs as [_ Hs]. rewrite log_file_app in *. rewrite !blen_app in Hb. unfold read_from.
  rewrite (proj2 (Z.ltb_ge i64_max _)) by (unfold blen in *; lia). assert (i64_max < u64_size)%Z as Hi by done.
  replace (x ++ (log_file before ++ log_file after) ++ y) with ((x ++ log_file before) ++ log_file after ++ y) by by rewrite <- !app_assoc.
  replace (Z.to_nat (blen x + blen (log_file before))) with (length (x ++ log_file before)) by (rewrite length_app; unfold blen; lia).
  rewrite drop_app_length.
  pose proof (length_log_file after) as Hl. rewrite (read_loop_log after y); try done; rewrite ?length_app; unfold blen in *; try lia.
  by rewrite Z.sub_0_r.
Qed.

Lemma in_file_grows base log file more : in_file base log file -> in_file base log (file ++ more).
Proof. intros (Hs & x & y & -> & ->). split; [done |]. exists x, (y ++ more). by rewrite <- !app_assoc. Qed.
(** A run that ends with the file. *)
Lemma in_file_end base log file : in_file base log file -> (base + blen (log_file log))%Z = blen file ->
  exists x, file = x ++ log_file log /\ base = blen x.
Proof.
  intros (Hs & x & y & -> & ->) E. exists x. rewrite !blen_app in E. destruct y; [by rewrite app_nil_r | unfold blen in E; cbn in E; lia].
Qed.
Lemma append_sim fault record w g :
  log_sim w g -> let '(w', r) := append fault record w in (blen (sw_file w') <= i64_max)%Z ->
  exists g', log_appends fault record r g g' /\ log_sim w' g'.
Proof.
  intros [Hp Hl Hw]. unfold append, log_appends.
  destruct (Z.ltb_spec u32_max (blen record)) as [Hbig|Hsmall]; [intros _; exists g; by split; [| split] |].
  destruct (cut fault record) as [n|].
  - intros _. destruct n as [|n]; [exists g; rewrite take_0, app_nil_r; by split; [| split] |].
    eexists. split; [split; reflexivity |].
    split; cbn [lg_past lg_base lg_records lg_whole sw_file]; [intros; apply in_file_grows; by apply Hp | by apply in_file_grows | done].
  - cbn [sw_file]. intros Hroom. destruct (lg_whole g) eqn:Ew.
    + destruct (Hw eq_refl) as [En Ee]. eexists. split; [split; [reflexivity | by rewrite En, Ee] |].
      destruct (in_file_end _ _ _ Hl Ee) as (x & Ex & Eb).
      assert (log_file (lg_records g ++ [record]) = log_file (lg_records g) ++ frame record) as E.
      { rewrite log_file_app. unfold log_file at 2. cbn. by rewrite app_nil_r. }
      split; cbn [lg_past lg_base lg_records lg_whole sw_file sw_next]; [intros; apply in_file_grows; by apply Hp | |].
      * split; [apply Forall_app; split; [apply Hl | by constructor] |]. exists x, []. rewrite E, app_nil_r, Ex. by rewrite <- app_assoc.
      * intros _. rewrite E, !blen_app, blen_record_frame in *. assert (i64_max < u64_size)%Z by done.
        rewrite En, u64_add_small by (unfold blen in *; lia). lia.
    + exists g. split; [done |]. split; cbn [sw_file]; [intros; apply in_file_grows; by apply Hp | by apply in_file_grows | congruence].
Qed.

Lemma reads_sim offset max w g :
  log_sim w g -> (blen (sw_file w) <= i64_max)%Z -> log_reads offset max (read_from offset max (sw_file w)) g.
Proof.
  intros [Hp Hl Hw] Hroom base log open before after Hin -> -> Hmax.
  assert (exists x y, sw_file w = x ++ log_file (before ++ after) ++ y /\ base = blen x /\
    Forall (fun record => (blen record <= u32_max)%Z) (before ++ after) /\ (open = true -> y = [])) as (x & y & E & -> & Hs & Hy).
  { destruct Hin as [[Hin ->] | (-> & Hlog & ->)].
    - destruct (Hp _ _ Hin) as (Hs & x & y & E & Eb). by exists x, y.
    - rewrite <- Hlog in *. destruct Hl as (Hs & x & y & E & Eb). exists x, y. split_and!; try done. intros Ho.
      destruct (Hw Ho) as [_ Ee]. rewrite E, Eb, !blen_app in Ee. destruct y; [done | unfold blen in Ee; cbn in Ee; lia]. }
  rewrite E in *. apply read_log; [done | done |]. destruct Hmax as [Hm | Ho]; [by left | right; by apply Hy].
Qed.

Lemma reopens_sim w g : log_sim w g -> exists g', log_reopens g g' /\ log_sim (WalWriter_open (sw_file w)) g'.
Proof.
  intros [Hp Hl Hw]. unfold log_reopens. destruct (lg_whole g) eqn:Ew.
  - destruct (Hw eq_refl) as [En Ee]. exists g. split; [done |]. by split.
  - exists (mkLog (lg_past g ++ [(lg_base g, lg_records g)]) (blen (sw_file w)) [] true). split; [by eexists |].
    split; cbn [lg_past lg_base lg_records lg_whole sw_file WalWriter_open sw_next].
    + intros base log [Hin | [= -> ->]%list_elem_of_singleton]%elem_of_app; [by apply Hp | done].
    + split; [constructor |]. exists (sw_file w), []. by rewrite app_nil_r.
    + intros _. split; [done |]. change (log_file []) with (@nil byte). unfold blen. cbn. lia.
Qed.

(** *** The steps *)
Lemma on_tree_keeps {A} ns (step : D -> D * result A string) s :
  let r := on_tree ns step s in
  ss_wal r.1 = ss_wal s /\
  exists d1, contents d1 = contents (ss_db s) /\ (synced (ss_db s) -> synced d1) /\
    ((exists e, r = (put_db d1 s, Err e)) \/ r = (put_db (step d1).1 s, (step d1).2)).
Proof.
  unfold on_tree. pose proof (open_keeps ns (ss_db s)) as Ho. destruct (open_tree ns (ss_db s)) as [d [[]|e]]; destruct Ho as [Hc Hs].
  - destruct (step d) as [d' r] eqn:E. split; [done |]. exists d. rewrite E. split_and!; [done | done | by right].
  - split; [done |]. exists d. split_and!; [done | done | left; by exists e].
Qed.

(** A change of a tree and the flush after it. *)
Lemma change_sim (after : gmap (string * bytes) bytes -> gmap (string * bytes) bytes) ns (step : D -> D * result unit string) s a :
  (forall d, match step d with (d', Ok _) => contents d' = after (contents d) | (d', Err _) => contents d' = contents d end) ->
  sim s a ->
  let r := on_tree ns (fun d => then_flush ns (step d)) s in
  exists kv, (kv = after (ab_kv a) \/ is_ok r.2 = false /\ kv = ab_kv a) /\ sim r.1 (mkAbstract kv (ab_log a) (is_ok r.2)).
Proof.
  intros Hstep [Hkv Hsy Hlog] r. pose proof (on_tree_keeps ns (fun d => then_flush ns (step d)) s) as (Hw & d1 & Hc & _ & Hr).
  fold r in Hw, Hr. assert (forall kv, contents (ss_db r.1) = kv -> (is_ok r.2 = true -> synced (ss_db r.1)) ->
    sim r.1 (mkAbstract kv (ab_log a) (is_ok r.2))) as Hsim by (intros kv E Es; split; cbn; rewrite ?Hw; done).
  destruct Hr as [[e E] | E]; rewrite E in Hsim |- *; cbn [fst snd is_ok] in *.
  { exists (ab_kv a). split; [by right |]. apply Hsim; [cbn; by rewrite Hc | done]. }
  specialize (Hstep d1). unfold then_flush in *. destruct (step d1) as [d2 [[]|e]].
  - pose proof (flush_synced ns d2) as Hf. destruct (tree_flush ns d2) as [d3 r3]. destruct Hf as [Hc3 Hs3]. cbn [fst snd] in *.
    exists (after (ab_kv a)). split; [by left |]. apply Hsim; [| done]. cbn. by rewrite Hc3, Hstep, Hc, Hkv.
  - cbn [fst snd is_ok] in *. exists (ab_kv a). split; [by right |]. apply Hsim; [| done]. cbn. by rewrite Hstep, Hc.
Qed.

Lemma read_sim {A} ns (f : D -> result A string) s a :
  sim s a -> let r := on_tree ns (fun d => (d, f d)) s in
  sim r.1 a /\ forall v, r.2 = Ok v -> exists d, contents d = ab_kv a /\ f d = Ok v.
Proof.
  intros [Hkv Hsy Hlog] r. pose proof (on_tree_keeps ns (fun d => (d, f d)) s) as (Hw & d1 & Hc & Hs & Hr).
  fold r in Hw, Hr. destruct Hr as [[e E] | E]; rewrite E in Hw |- *; cbn [fst snd] in *.
  - split; [split; cbn; rewrite ?Hc; auto | done].
  - split; [split; cbn; rewrite ?Hc; auto |]. intros v Hv. exists d1. by rewrite Hc.
Qed.

Lemma scanned l : forall out r, fold_result (fun out r => let! e := r in Ok (out ++ [e])) out l = Ok r ->
  exists k, mapM (fun r : result (bytes * bytes) string => match r with Ok e => Some e | Err _ => None end) l = Some k /\ r = out ++ k.
Proof.
  induction l as [|[e|e] l IH]; intros out r; cbn.
  - intros [= <-]. exists []. by rewrite app_nil_r.
  - intros (k & -> & ->)%IH. exists (e :: k). split; [done |]. by rewrite <- app_assoc.
  - done.
Qed.

Definition roomy (s : SledSal D) : Prop := (blen (sw_file (ss_wal s)) <= i64_max)%Z.

Lemma call_sim s e s' a : sim s a -> sal_call s e s' -> roomy s' -> exists a', says a e a' /\ sim s' a'.
Proof.
  intros Hsim Hcall Hroom. destruct Hcall as [fault ns key s | fault ns key val s | fault ns key s | fault ns p limit s | fault record s | fault offset max s | fault s | s s' Hre].
  - destruct (read_sim ns (tree_get ns key) s a Hsim) as [Hs Hv]. exists a. split; [| exact Hs]. split; [done |].
    intros v Hr. destruct (Hv v Hr) as (d & Hd & Hg). rewrite <- Hd. by apply get_contents.
  - destruct (change_sim (fun kv => <[(ns, key) := val]> kv) ns (tree_insert ns key val) s a) as (kv & Hkv & Hs); [| done |].
    { intros d. apply insert_contents. }
    eexists. split; [| exact Hs]. split_and!; done.
  - destruct (change_sim (fun kv => delete (ns, key) kv) ns (tree_remove ns key) s a) as (kv & Hkv & Hs); [| done |].
    { intros d. apply remove_contents. }
    eexists. split; [| exact Hs]. split_and!; done.
  - destruct (read_sim ns (fun d => fold_result (fun out r => let! e := r in Ok (out ++ [e])) [] (take limit (tree_scan ns p d))) s a Hsim)
      as [Hs Hv].
    exists a. split; [| exact Hs]. split; [done |]. intros l Hr. destruct (Hv l Hr) as (d & Hd & Hg).
    destruct (scanned _ _ _ Hg) as (k & Hk & ->). destruct (scan_contents ns p d) as (all & Hsort & Hin & Htake).
    exists all. split; [split; [done | by rewrite <- Hd] | by apply Htake].
  - destruct Hsim as [Hkv Hsy Hlog]. unfold roomy in Hroom. cbn [wal_append sled_sal] in *.
    pose proof (append_sim (df_write fault) record (ss_wal s) (ab_log a) Hlog) as Ha.
    destruct (append (df_write fault) record (ss_wal s)) as [w r]. cbn [fst snd ss_wal] in *.
    destruct (Ha Hroom) as (g & Hg & Hsim). exists (mkAbstract (ab_kv a) g (ab_clean a)). split; [done | by split].
  - exists a. cbn [wal_read sled_sal fst snd] in *. split; [| exact Hsim]. split; [done |].
    destruct (df_read fault); [done |]. apply reads_sim; [apply Hsim | exact Hroom].
  - destruct Hsim as [Hkv Hsy Hlog]. cbn [flush sled_sal] in *. pose proof (db_flush_synced (ss_db s)) as Hf.
    destruct (db_flush (ss_db s)) as [d r]. destruct Hf as [Hc Hs]. eexists. split; [reflexivity |].
    split; cbn; rewrite ?Hc; done.
  - destruct Hsim as [Hkv Hsy Hlog]. unfold reopen, SledSal_open in Hre. destruct (db_reopen (ss_db s)) as [d|] eqn:Ed; [| done].
    injection Hre as <-. destruct (reopens_sim _ _ Hlog) as (g & Hg & Hw).
    exists (mkAbstract (contents d) g (ab_clean a)). destruct (ab_clean a) eqn:Ec.
    + destruct (reopen_synced _ _ (Hsy eq_refl) Ed) as [Hc Hs]. split; [split; [done | intros _; cbn; by rewrite Hc] | by split].
    + split; [split; [exact Hg | by rewrite Ec] | by split].
Qed.

(** The file only grows. *)
Lemma call_grows s e s' : sal_call s e s' -> (blen (sw_file (ss_wal s)) <= blen (sw_file (ss_wal s')))%Z.
Proof.
  assert (forall A ns (step : D -> D * result A string) s, (blen (sw_file (ss_wal s)) <= blen (sw_file (ss_wal (on_tree ns step s).1)))%Z) as Ht.
  { intros A ns step s0. by rewrite (proj1 (on_tree_keeps ns step s0)). }
  destruct 1 as [fault ns key s | fault ns key val s | fault ns key s | fault ns p limit s | fault record s | fault offset max s | fault s | s s' Hre]; cbn [fst].
  - apply Ht.
  - apply Ht.
  - apply Ht.
  - apply Ht.
  - cbn [wal_append sled_sal]. unfold append. destruct (_ <? _)%Z; cbn [fst snd]; [done |].
    destruct (cut _ _); cbn; rewrite blen_app; unfold blen; lia.
  - done.
  - cbn [flush sled_sal]. by destruct (db_flush (ss_db s)).
  - unfold reopen, SledSal_open in Hre. destruct (db_reopen (ss_db s)); [| done]. by injection Hre as <-.
Qed.

Lemma run_grows s es s' : sal_run s es s' -> (blen (sw_file (ss_wal s)) <= blen (sw_file (ss_wal s')))%Z.
Proof. induction 1 as [s | s e s1 es s2 Hc _ IH]; [done |]. etrans; [by eapply call_grows | done]. Qed.

(** C40: The adapter is a map and runs of records. Take any run of calls of the storage trait on it, in which any append may
    stop after any number of bytes and any read may fail, and of new processes, while the file stays below 2^63
    bytes. A key reads the value that was put last and not deleted; a scan lists the first of the entries with a prefix, in
    the order of their keys; and a new process finds the map unless the last change of it failed. An append that fails
    without a byte, or whose record is too large, changes nothing. As long as no append has failed half-way, an append
    extends the run and answers the offset of its record; a read there, at any later time, gives the record and those
    after it in the run, up to the given number. After an append has failed half-way, the records before it are still
    read so when no more are asked for than the run has, but the appends of this process answer an offset at
    which nothing is promised; the next process begins a new run, whose records are read again, and whoever
    reads on from the old run into the torn frame gets no promise. *)
Theorem sled_refines s a es s' :
  sim s a -> sal_run s es s' -> roomy s' -> exists a', behaves a es a' /\ sim s' a'.
Proof.
  intros Hs Hrun Hroom. revert a Hs. induction Hrun as [s | s e s1 es s2 Hc Hrun IH]; intros a Hs.
  { exists a. split; [constructor | done]. }
  assert (roomy s1) as Hr1.
  { unfold roomy in *. pose proof (run_grows s1 es s2 Hrun). lia. }
  destruct (call_sim s e s1 a Hs Hc Hr1) as (a1 & Hsay & Hs1). destruct (IH Hroom a1 Hs1) as (a' & Hb & Hs').
  exists a'. split; [by econstructor | done].
Qed.
End refinement.

(** ** A database *)
(** A database that is a map, every change of which is on the disk at once. *)
Module Demo.
Record db : Type := mkDb { entries : gmap (string * bytes) bytes }.
Definition tree (ns : string) (d : db) : gmap bytes bytes := default ∅ (map_curry (M1 := gmap string) (M2 := gmap bytes) (entries d) !! ns).
Definition scan (ns : string) (p : bytes) (d : db) : list (bytes * bytes) := bt_iter (filter (fun e => p `prefix_of` e.1) (tree ns d)).

#[export] Instance db_sled : Sled db := {
  open_tree ns d := (d, Ok ());
  tree_get ns k d := Ok (entries d !! (ns, k));
  tree_insert ns k v d := (mkDb (<[(ns, k) := v]> (entries d)), Ok ());
  tree_remove ns k d := (mkDb (delete (ns, k) (entries d)), Ok ());
  tree_flush ns d := (d, Ok ());
  tree_scan ns p d := Ok <$> scan ns p d;
  db_flush d := (d, Ok ());
  db_reopen d := Ok d
}.

Lemma lookup_tree ns d k : tree ns d !! k = entries d !! (ns, k).
Proof.
  unfold tree. rewrite <- (lookup_map_curry (M1 := gmap string) (M2 := gmap bytes) (entries d) ns k).
  by destruct (_ !! ns); cbn; rewrite ?lookup_empty.
Qed.
Lemma strictly_sorted (l : list (bytes * bytes)) :
  StronglySorted entry_le l -> NoDup l.*1 -> StronglySorted (fun a b => cmp a.1 b.1 = Lt) l.
Proof.
  induction l as [|e l IH]; [constructor |]. cbn. intros [Hf Hs]%StronglySorted_cons [Hn Hd]%NoDup_cons.
  constructor; [by apply IH |]. rewrite Forall_forall in Hf |- *. intros x Hx. specialize (Hf x Hx). unfold entry_le in Hf.
  destruct (cmp e.1 x.1) eqn:E; [| done | done]. apply (cmp_eq cmp) in E. destruct Hn. rewrite E. apply list_elem_of_fmap.
  exists x. by split.
Qed.
Lemma mapM_ok n (all : list (bytes * bytes)) l :
  mapM (fun r : result (bytes * bytes) string => match r with Ok e => Some e | Err _ => None end) (take n (Ok <$> all)) = Some l ->
  l = take n all.
Proof.
  rewrite <- fmap_take. generalize (take n all) as k. intros k. revert l. induction k as [|e k IH]; cbn; intros l Hl; [by injection Hl as <- |].
  destruct (mapM _ (Ok <$> k)) as [k'|] eqn:E; cbn in Hl; [| done]. injection Hl as <-. by rewrite (IH k' eq_refl).
Qed.

#[export] Instance db_ok : SledOk db.
Proof.
  refine {| contents := entries; synced := fun _ => True |}; cbn; try done.
  - by intros ns k d v [= ->].
  - intros ns p d. exists (scan ns p d). split_and!.
    + apply strictly_sorted; [apply bt_iter_sorted | apply bt_iter_NoDup].
    + intros k v. unfold scan. rewrite elem_of_bt_iter, map_lookup_filter_Some. by rewrite lookup_tree.
    + intros n l. apply mapM_ok.
  - by intros d d' _ [= <-].
Defined.

Definition fresh : SledSal db := mkSledSal (mkDb ∅) (WalWriter_open []).
Definition b (s : string) : bytes := as_bytes s.

(** Puts, a deletion, a scan, appends, one of which is torn and one goes astray, a restart, and readings before and
    behind the torn frame. *)
Definition events : list sal_event :=
  [EvPut "ns" (b "user/2") (b "y") (Ok ()); EvPut "ns" (b "user/1") (b "x") (Ok ()); EvPut "ns" (b "other") (b "z") (Ok ());
   EvDel "ns" (b "gone") (Ok ()); EvScan "ns" (b "user/") 5 (Ok [(b "user/1", b "x"); (b "user/2", b "y")]);
   EvAppend None (b "one") (Ok 0%Z); EvAppend None (b "three") (Ok 7%Z); EvAppend (Some 2) (b "torn") (Err "write failed");
   EvAppend None (b "lost") (Ok 16%Z); EvReopen; EvAppend None (b "four") (Ok 26%Z); EvRead None 7 1 (Ok [(7%Z, b "three")]);
   EvRead None 26 9 (Ok [(26%Z, b "four")]); EvRead (Some "io") 0 1 (Err "io")].
Definition last : SledSal db :=
  mkSledSal (mkDb (<[("ns", b "other") := b "z"]> (<[("ns", b "user/1") := b "x"]> {[("ns", b "user/2") := b "y"]})))
    (mkSalWriter (frame (b "one") ++ frame (b "three") ++ take 2 (frame (b "torn")) ++ frame (b "lost") ++ frame (b "four")) 34).
Definition torn_last : SledSal db :=
  mkSledSal (ss_db last)
    (WalWriter_open (frame (b "one") ++ frame (b "three") ++ take 2 (frame (b "torn")) ++ frame (b "lost"))).

Ltac call c := lazymatch goal with |- sal_run ?s _ _ =>
  let c := constr:(c s) in let t := type of c in
  lazymatch t with sal_call _ ?e1 ?s1 => eapply (RunCons s _ s1); [lazymatch goal with |- sal_call _ ?e _ =>
    replace e with e1 by (by vm_compute); exact c end |] end end.
Lemma ran : sal_run fresh events last.
Proof.
  call (CallPut no_fault "ns" (b "user/2") (b "y")). call (CallPut no_fault "ns" (b "user/1") (b "x")).
  call (CallPut no_fault "ns" (b "other") (b "z")). call (CallDel no_fault "ns" (b "gone")).
  call (CallScan no_fault "ns" (b "user/") 5). call (CallAppend no_fault (b "one")). call (CallAppend no_fault (b "three")).
  call (CallAppend (mkDiskFault (Some 2) None) (b "torn")). call (CallAppend no_fault (b "lost")).
  eapply (RunCons _ _ torn_last); [apply CallReopen; by vm_compute |]. call (CallAppend no_fault (b "four")).
  call (CallRead no_fault 7 1). call (CallRead no_fault 26 9). call (CallRead (mkDiskFault None (Some "io")) 0 1).
  match goal with |- sal_run ?s _ _ => replace s with last by (by vm_compute) end. constructor.
Qed.
(** An empty directory, and any file of before. *)
Lemma fresh_sim : sim fresh (mkAbstract ∅ (mkLog [] 0 [] true) true).
Proof. split; [done | done |]. split; cbn; [by intros ? ? ?%not_elem_of_nil | | done]. split; [constructor | by exists [], []]. Qed.
Lemma found_sim file d : sim (mkSledSal d (WalWriter_open file)) (mkAbstract (entries d) (mkLog [] (blen file) [] true) true).
Proof.
  split; [done | done |]. split; cbn [lg_past lg_base lg_records lg_whole ab_log ss_wal WalWriter_open sw_file sw_next].
  - by intros ? ? ?%not_elem_of_nil.
  - split; [constructor |]. exists file, []. by rewrite app_nil_r.
  - intros _. split; [done |]. change (log_file []) with (@nil byte). unfold blen. cbn. lia.
Qed.

Lemma sled_refines_witness : roomy last /\
  exists a', behaves (mkAbstract ∅ (mkLog [] 0 [] true) true) events a' /\ sim last a'.
Proof.
  split; [done |]. apply (sled_refines fresh (mkAbstract ∅ (mkLog [] 0 [] true) true) events last).
  - apply fresh_sim.
  - apply ran.
  - done.
Defined.

(** An append that fails after two bytes leaves them in the file, and the offset that the next append answers is
    before its record: a read there takes the torn bytes for a length. *)
Example torn :
  let s := (@wal_append _ (sled_sal (mkDiskFault (Some 2) None)) (b "lost") fresh).1 in
  let '(s, r) := @wal_append _ (sled_sal no_fault) (b "kept") s in
  let read offset := (@wal_read _ (sled_sal no_fault) offset 10 s).2 in
  r = Ok 0%Z /\ read 0%Z = Err "failed to fill whole buffer" /\ read 2%Z = Ok [(2%Z, b "kept")].
Proof. by vm_compute. Qed.
(** A process that opens the torn file answers the right offset; what was before it is still read into the torn frame. *)
Example torn_reopened :
  let s := (@wal_append _ (sled_sal (mkDiskFault (Some 6) None)) (b "lost") fresh).1 in
  match reopen s with
  | Ok s =>
      let '(s, r) := @wal_append _ (sled_sal no_fault) (b "kept") s in
      r = Ok 6%Z /\ (@wal_read _ (sled_sal no_fault) 0 10 s).2 <> Ok [(0%Z, b "lost"); (6%Z, b "kept")]
  | Err _ => False
  end.
Proof. by vm_compute. Qed.
End Demo.
